(* ===== verification/_CoqProject ===== *)
-Q . S2P
Prelude.v
Heap.v
Json.v
GoText.v
Text.v
Event.v
Path.v
Os.v
Walk.v
Tree.v
Workspace.v
Excerpt.v
Channel.v
RunnerWorkspace.v
Bundle.v
Plan.v
PlanFacts.v
Stream.v
StreamLog.v
StreamDelivery.v
Merge.v
MergeFacts.v
Engine.v
EngineFacts.v
Lifecycle.v
LifecycleFacts.v
Driver.v
DriverFacts.v
Queue.v
QueueFacts.v
Log.v
LogFacts.v
Record.v
EventLog.v
Describe.v
RequestLog.v
Tools.v
Policy.v
Shell.v
Url.v
UrlAllowlist.v
Bash.v
Session.v
Conversation.v
ConversationFacts.v
ConversationRun.v
Skill.v
SkillFacts.v
Registry.v
RegistryFacts.v
Agent.v
AgentFacts.v
Request.v
RequestFacts.v
ConversationStream.v
ConversationStreamFacts.v
Sqlite.v
SqliteRunner.v
