(* ===== verification/Prelude.v ===== *)
(** * dango: a verification development

    dango runs a request through a planner, materialises the plan as a runner, and
    executes the runner's nodes with language-model agents. The agents call tools
    inside workspaces; everything that happens is an event on a stream; requests,
    runners and conversations are recorded in append-only logs. This library models
    the parts of [src/] that carry that behaviour and proves what they promise. File
    and function names below are those under [src/].

    ** Conventions

    Strings are lists of bytes ([bytes]), integers are [Z] with the wrap-around of
    [int64] and [uint64] written out ([i64], [u64]) where a counter can reach it, a Go
    map is a [gmap] (or an association list in key order where it is marshalled), a
    fallible call returns [res]. A pointer that is shared is a position in a list of
    objects: payloads of turns in [Conversation.v], queue entries in [Queue.v],
    workspaces in [Skill.v]. Code that runs on several goroutines is a step relation:
    every section under a mutex and every call into another component is one step,
    and the theorems quantify over all interleavings. Code that calls the operating
    system is a program over system calls ([Os.v]), run against any file system that
    meets the laws of the class [FileSystemLaws]. Choices of the runtime (a [select]
    with several cases ready, the iteration order of a map, system calls that fail,
    what a model or a tool answers) are arguments. [time.Now] is an argument or a
    clock indexed by the number of calls. What the code takes from outside the
    repository is a parameter: [GoStd] (of [GoText.v] and [Event.v]) holds the
    standard library's conversions the codecs rely on, with their documented laws;
    the shell parser, package [regexp], and the YAML and TOML codecs are parameters of
    the files that use them.

    ** The parts, from the bottom

    - [Prelude.v] results and shared lemmas; [Heap.v] the binary heap of
      [container/heap].
    - [Json.v], [GoText.v], [Text.v]: JSON text as [encoding/json] reads and writes
      it, Go string quoting, integers, and functions of package [strings].
    - [Path.v], [Os.v], [Walk.v], [Tree.v]: [path/filepath], system calls and programs
      over them, [filepath.WalkDir], and a tree of directories, files and symbolic
      links that meets the laws of [Os.v].
    - [Event.v], [Bundle.v]: [stream/event.go], [filter.go], [writer.go] and
      [bundle.go]: events, their preparation and JSON, filters, and event batches.
    - [Stream.v], [StreamLog.v], [StreamDelivery.v]: [stream/stream.go] and
      [subscription.go]. [StreamLog] refines [Emit], [Subscribe] and [Close] to an
      abstract append-only log with a bounded window and characterises replay;
      [StreamDelivery] says which subscribers receive what, in which order, and that
      no interleaving sends on a closed channel.
    - [Merge.v], [MergeFacts.v]: [stream/merge.go] and [frame.go]: per-upstream queues,
      joining of adjacent text deltas, merge hubs and their ticks.
    - [Engine.v], [EngineFacts.v]: [runEngine] of [runner/runner.go], with the records
      and state transitions of [persistence.go] and [types.go].
    - [Plan.v], [PlanFacts.v]: [runner/plan.go] and the review and replan exchanges of
      [plan_skill.go].
    - [Lifecycle.v], [LifecycleFacts.v]: the phases of a runner ([runner/lifecycle.go]
      and the entry points of [runner.go]), its polish and engine goroutines and the
      observer that closes [Done]; [Driver.v], [DriverFacts.v]: the driver of a managed
      run ([runManagedLifecycle], [waitForPhase], [acceptAndComplete]) beside them.
    - [Queue.v], [QueueFacts.v]: the execution slots and the priority queue of
      [orchestrator/queue.go], against the interface [ManagedRunner], which
      [Lifecycle] implements ([runner_laws]).
    - [Log.v], [LogFacts.v]: the JSON Lines stores, [llm/session.go] and
      [runner/store.go] with [codec.go], over any record type with a codec
      ([LogRecord], [LogLaws]); [Record.v] ([runner/record.go]) and [Session.v]
      ([llm/event.go], [turn.go], [tool_call.go]) are the two instances.
    - [EventLog.v], [Describe.v], [RequestLog.v]: the event log of a request and its
      replay cursor ([store/event_log.go], [cursor.go]) behind the interface
      [EventLogStore], the view [orchestrator/describe.go] folds from it, and the two
      goroutines of [orchestrator/request.go] that write it.
    - [Sqlite.v], [SqliteRunner.v]: the SQLite backend ([store/internal/sqlite]): the
      event log and its cursors as another instance of [EventLogStore], and the runner
      records, where any number of stores share a database.
    - [Workspace.v], [Excerpt.v], [Tools.v]: path resolution of [llm/workspace.go] and
      the file tools of [llm/internal/builtin], from the JSON of a call to its answer.
    - [Policy.v], [Shell.v], [Url.v], [UrlAllowlist.v], [Bash.v]: approvals and tool
      sets ([llm/internal/toolpolicy], [llm/tool_policy.go]), the checks of
      [bash.go] on a command's syntax tree, the URLs a command names
      ([url_allowlist.go]), and the bash tool that puts them together.
    - [Channel.v], [RunnerWorkspace.v]: the documents nodes exchange
      ([runner/handoff.go], [exchange.go], [memo.go], [internal/frontmatter]) and the
      directories they are exchanged in ([runner/workspace.go] and
      [workspace_binding.go]).
    - [Conversation.v]: [llm/conversation.go], [conversation_run.go],
      [conversation_send.go] and [summarizer.go], against the interface
      [SessionStore]. [ConversationFacts.v] proves its mutations to be the replay of
      the events they record and a session to be restored from its stores;
      [ConversationRun.v] is about shrinking, the request loop and usage shares;
      [ConversationStream.v] and [ConversationStreamFacts.v] about the events a
      conversation emits, streamed responses and the approvals it asks for.
    - [Skill.v], [SkillFacts.v]: loading, tool sets, copies and binding of skills
      ([llm/skill.go], [builtin_tools.go], [mcp.go]).
    - [Registry.v], [RegistryFacts.v]: the settings of the orchestrator and its registry
      of skills ([orchestrator/orchestrator.go], [mcp.go], [skill.go]).
    - [Agent.v], [AgentFacts.v]: [agent]: the stages of a node, their prompts, and what
      they write into the node's channels.
    - [Request.v], [RequestFacts.v]: the start of a request ([orchestrator/request.go],
      [planning.go]): the exchange with the planner and the nodes of its plan.
    ** How the parts meet

    A client is proved against a class, and the component it calls is an instance:
    file systems ([Os.v], met by [Tree.v]), records ([Log.v], met by [Record.v] and
    [Session.v]), session stores ([Conversation.v], met by the JSON store of
    [Session.v]), event logs ([EventLog.v], met by its JSON
    store and by [Sqlite.v]), runners as the queue sees them ([Queue.v],
    met by [Lifecycle.v]). [Skill.v], [Registry.v], [Agent.v] and [Request.v] use the
    definitions of the files below them directly.

    ** What the theorems show

    The properties are numbered C1 to C40 in the comments of their theorems.

    - Streams: [stream_refines_log], [Emit_delivers] and [run_never_panics]: a stream
      refines an append-only log with a replay window; which events reach which
      subscriber, in which order; no interleaving sends on a closed channel.
      [hub_conserves] and [drainClosedUpstream_ends]: merged events leave the hub once
      and in order, unless their upstream is unregistered with its queue, and draining
      ends while the ticker and the other upstreams go on.
    - Runners: [engine_starts] to [engine_stops]: a node starts once and only with all
      its parents' outputs; exact counters; idle means finished; events are recorded
      before they are published; a failing step is final. [launched_once],
      [waiters_wake], [managed_driver]: the engine is launched and settled at most
      once, no settling is missed, and a managed run executes only what its planner
      approved and waits only while somebody else moves.
      [slots_respected] and [queue_invariant]: execution slots are respected,
      conserved, and given by priority and age.
    - Persistence: [store_refines_log], [crash_keeps_logs], [session_restores]: the
      stores refine abstract logs under every sequence of operations, a crash during an append loses at most that record, and a whole
      conversation is restored from any of its stores. [describe_resumes] and
      [request_log_faithful]: a request's log holds, in order, exactly the received
      events whose append succeeded, and its view may be resumed from its cursor.
      [sqlite_load_exact], [backends_agree] and [sqlite_records_linear]: queries lose
      nothing a filter keeps, a log reads alike through files and through SQLite, and
      concurrent stores act as one log until a failed rollback locks them.
    - Conversations: [shrink_keeps_pairs], [run_answers_calls],
      [usage_by_role_bounds]: outputs right behind their call survive shrinking with
      it, every request of a run that does not shrink answers every call, usage shares
      are bounded.
      [stream_ends_as_promised] and [approver_decides]: how a streamed response ends,
      and that only the approver lets a guarded tool run.
    - Confinement: [ResolvePath_inside], [tools_stay_inside], [skills_confined]: no
      file tool, workspace or skill reaches outside its directories, symbolic links
      included; [workspace_layout]: the directories of a run are new and those of its
      nodes apart; [stage_outputs_confined]: a stage of an agent writes under the names
      of its channels only. [approvals_respected], [bash_runs_cleared]: no tool and no
      command runs that was not allowed. [url_allowlist_enforced]: which fetchers the
      URL check covers, and that those fetch only what is allowed.
      [documents_read_back]: what a node writes for the next is what that one reads.
    - Requests: [AddSkills_resolves] on the registry of skills;
      [request_settles] and [plan_nodes]: every request ends in a submitted runner of
      the planner's plan or in a last failure event.
    ** Bounds and fuel

    Recursion is structural wherever the code's is over a list. Fuel is used by the
    JSON parser (the length of the input, and every step consumes), by the nesting of
    scripts in [UrlAllowlist.v] (the length of the command, shown enough by
    [url_allowlist_enforced]), by the sifts of [Heap.v] (the length of the slice, shown enough by
    [heap_pop_spec] and [heap_push_heap]) and by the queue's two loops (the length of
    the heap, shown enough by [qcore_pop] and [collect_starts_spec]). The drain of
    [Merge.v] is a sequence of steps between which others act; it ends by
    [drainClosedUpstream_ends]. Walks of a
    directory tree carry a depth, and a program over system calls may not end: that
    it does is a conclusion of the theorems about tools, workspaces and agents.
    Sequence numbers are [uint64] or [int64]; the theorems that need one not to wrap
    say so.

    ** Findings

    Behaviour that differs from its documentation is kept in the model and stated as
    a lemma where it can be: [Subscribe_catch_up] (a failed catch-up deadlocks the
    stream), [cyclic_never_idle], [abort_undone] and [wait_misses_error] in
    [LifecycleFacts.v], [append_after_crash], [refused_first_record] and
    [stale_cache] in [Record.v], [complete_cancels_nothing] in [LifecycleFacts.v],
    [start_failure_strands_driver] in [DriverFacts.v], [parallel_calls_cut] in
    [ConversationRun.v], [shared_payload_replays_apart] in [ConversationFacts.v],
    [restart_aborts_runner] in [QueueFacts.v], [torn_append] in [EventLog.v],
    [unknown_policy_runs] in [Policy.v], the last sections of [Shell.v] and
    [UrlAllowlist.v], [planner_failure_told_twice], [refused_runner_stays] and
    [circle_builds] in [RequestFacts.v], [left_locked] in [SqliteRunner.v],
    [scope_beyond_request] in [Sqlite.v], and [cut_through_rune] in
    [ConversationStreamFacts.v].

    ** Not modelled

    - Network and process I/O: the construction of the OpenAI client
      ([llm/client.go]), MCP sessions ([internal/mcpclient]), the server and
      command-line front ends ([cmd], [tools], [examples]).
    - The Postgres stores ([store/internal/postgres]), which are those of SQLite over
      another engine, and the tables of tools and tasks, which nothing else uses
      ([store/internal/sqlite/store.go]). The glue that opens a store
      ([store/runtime], [runner/persistence], [store/internal/backend]).
    - The previews of [llm/internal/builtin/structured_preview.go] and its table of
      artifacts: read-only, on paths that [ResolvePath] has cleared. Descriptions and
      JSON schemas of tools, prompt texts of [internal/instructions] and of the
      planner exchanges.
    - Of the runner, its options, the binding of its session store, and the stream
      events it publishes about nodes and documents: the calls of the engine into
      them are answered by its oracle.
    - Rendering ([streamrender]) and logging: output for people. *)
From stdpp Require Export base tactics numbers list gmap strings.
From Stdlib Require Export ZArith Lia.
From Stdlib Require Export Ascii.
From Stdlib Require String.

#[global] Open Scope Z_scope.
#[global] Open Scope list_scope.

(** ** Results *)

(** A Go call that returns either a value or an error. *)
Inductive res (E A : Type) : Type :=
| Ok (a : A)
| Err (e : E).
Arguments Ok {E A} a.
Arguments Err {E A} e.

Definition is_ok {E A} (r : res E A) : bool :=
  match r with Ok _ => true | Err _ => false end.

#[export] Instance Ok_inj E A : Inj (=) (=) (@Ok E A).
Proof. by intros a b [= ->]. Qed.
#[export] Instance Err_inj E A : Inj (=) (=) (@Err E A).
Proof. by intros a b [= ->]. Qed.

#[export] Instance res_eq_dec `{EqDecision E, EqDecision A} : EqDecision (res E A).
Proof. solve_decision. Defined.

Declare Scope go_scope.
Delimit Scope go_scope with go.
#[global] Open Scope go_scope.
Notation "'let?' x ':=' c 'in' k" :=
  (match c with Ok x => k | Err e => Err e end)
  (at level 10, x name, c at level 100, k at level 200) : go_scope.

(** ** Machine integers *)

Definition two64 : Z := 2 ^ 64.

(** [uint64] arithmetic wraps around. *)
Definition u64 (z : Z) : Z := z `mod` two64.

(** So does [int64] (and [int] on a 64-bit machine), in two's complement. *)
Definition two63 : Z := 2 ^ 63.
Definition i64 (z : Z) : Z := (z + two63) `mod` two64 - two63.

Lemma i64_small z : - two63 ≤ z < two63 → i64 z = z.
Proof. intros H. unfold i64. rewrite Z.mod_small; unfold two63, two64 in *; lia. Qed.

(** ** Bytes and strings: a Go string is its byte sequence. *)

Abbreviation bytes := (list ascii).
Abbreviation s2b := String.list_ascii_of_string.
Abbreviation b2s := String.string_of_list_ascii.

(** ** Automation *)

(** Bind chains in the option monad: case on each step of a hypothesis. *)
Ltac case_bind H :=
  repeat match type of H with
         | (?o ≫= _) = Some _ =>
             let E := fresh "E" in destruct o eqn:E; simpl in H; [|discriminate H]
         | (let '(_, _) := ?p in _) = Some _ => destruct p eqn:?; simpl in H
         | (match ?o with Some _ => _ | None => None end) = Some _ =>
             let E := fresh "E" in destruct o eqn:E; simpl in H; [|discriminate H]
         end.

(** Split the boolean tests of a hypothesis. *)
Ltac case_if_in H :=
  match type of H with
  | context [if ?b then _ else _] => let E := fresh "B" in destruct b eqn:E
  end.

(** Strong induction on the length of a list. *)
Lemma list_len_ind {A} (P : list A → Prop) :
  (∀ l, (∀ k, (List.length k < List.length l)%nat → P k) → P l) → ∀ l, P l.
Proof.
  intros H l. remember (List.length l) as n eqn:Hn.
  revert l Hn. induction (lt_wf n) as [n _ IH]. intros l ->.
  apply H. intros k Hk. by apply (IH _ Hk).
Qed.

(** ** Boolean filters on lists *)

Lemma list_filter_ext {A} (p q : A → bool) l :
  (∀ x, x ∈ l → p x = q x) → List.filter p l = List.filter q l.
Proof.
  induction l as [|x l IH]; intros H; [done|]. simpl.
  rewrite (H x) by constructor. rewrite IH; [done|]. intros y Hy. apply H. by constructor.
Qed.

Lemma list_filter_none {A} (p : A → bool) l :
  (∀ x, x ∈ l → p x = false) → List.filter p l = [].
Proof.
  induction l as [|x l IH]; intros H; [done|]. simpl.
  rewrite (H x) by constructor. apply IH. intros y Hy. apply H. by constructor.
Qed.

Lemma list_filter_all {A} (p : A → bool) l :
  (∀ x, x ∈ l → p x = true) → List.filter p l = l.
Proof.
  induction l as [|x l IH]; intros H; [done|]. simpl.
  rewrite (H x) by constructor. f_equal. apply IH. intros y Hy. apply H. by constructor.
Qed.

Lemma list_filter_filter {A} (p q : A → bool) l :
  List.filter p (List.filter q l) = List.filter (λ x, q x && p x) l.
Proof. induction l as [|x l IH]; [done|]. simpl. destruct (q x); simpl; by rewrite IH. Qed.

Lemma elem_of_list_filter' {A} (p : A → bool) l x :
  x ∈ List.filter p l ↔ x ∈ l ∧ p x = true.
Proof. by rewrite !list_elem_of_In, List.filter_In. Qed.

Lemma join_cons {T : Type} (l : list T) ls : mjoin (l :: ls) = l ++ mjoin ls.
Proof. done. Qed.
