(* ===== verification/Heap.v ===== *)
(** Binary heaps as the standard library's [container/heap] keeps them in a
    slice: [Push], [Pop] and their sifting loops, over any strict weak order. *)
From S2P Require Import Prelude.

(** ** Parents and children of slots *)

Definition parent (j : nat) : nat := (j - 1) / 2.
Definition child (p c : nat) : Prop := c = (2 * p + 1)%nat ∨ c = (2 * p + 2)%nat.

Lemma child_lt p c : child p c → (p < c)%nat.
Proof. unfold child. lia. Qed.

Lemma child_parent j : (0 < j)%nat → child (parent j) j.
Proof.
  intros Hj. unfold child, parent. pose proof (Nat.div_mod_eq (j - 1) 2).
  pose proof (Nat.mod_upper_bound (j - 1) 2). lia.
Qed.

Lemma child_unique p q c : child p c → child q c → p = q.
Proof. unfold child. lia. Qed.

Lemma parent_child p c : child p c → parent c = p.
Proof. intros H. apply (child_unique _ _ c); [apply child_parent; unfold child in H; lia|done]. Qed.

Section Heap.
Context {A : Type} (less : A → A → bool).
Implicit Types l : list A.

(** ** Operations

    An index out of range panics in the code; no call below makes one. *)

Definition swap (i j : nat) l : list A :=
  match l !! i, l !! j with Some a, Some b => <[i := b]> (<[j := a]> l) | _, _ => l end.
Definition less_at l (i j : nat) : bool :=
  match l !! i, l !! j with Some a, Some b => less a b | _, _ => false end.

Fixpoint up (fuel j : nat) l : list A :=
  match fuel with
  | O => l
  | S fuel =>
      let i := parent j in
      if (i =? j)%nat || negb (less_at l j i) then l else up fuel i (swap i j l)
  end.

Fixpoint down (fuel i n : nat) l : list A :=
  match fuel with
  | O => l
  | S fuel =>
      let j1 := (2 * i + 1)%nat in
      if (n <=? j1)%nat then l
      else
        let j := if (j1 + 1 <? n)%nat && less_at l (j1 + 1) j1 then (j1 + 1)%nat else j1 in
        if negb (less_at l j i) then l else down fuel j n (swap i j l)
  end.

(** A sift visits each level once, so the length is enough fuel. *)
Definition heap_push (x : A) l : list A :=
  let l := l ++ [x] in up (List.length l) (List.length l - 1) l.
Definition heap_pop l : option (A * list A) :=
  let n := (List.length l - 1)%nat in
  let l := down (List.length l) 0 n (swap 0 n l) in
  match l !! n with Some x => Some (x, take n l) | None => None end.

(** ** Swapping *)

Lemma swap_lookup i j l k :
  (i < List.length l)%nat → (j < List.length l)%nat →
  swap i j l !! k = if decide (k = i) then l !! j else if decide (k = j) then l !! i else l !! k.
Proof.
  intros Hi Hj. unfold swap. destruct (lookup_lt_is_Some_2 _ _ Hi) as [a Ha].
  destruct (lookup_lt_is_Some_2 _ _ Hj) as [b Hb]. rewrite Ha, Hb.
  destruct (decide (k = i)) as [->|].
  - by rewrite list_lookup_insert_eq by (rewrite length_insert; lia).
  - rewrite list_lookup_insert_ne by done. destruct (decide (k = j)) as [->|].
    + by rewrite list_lookup_insert_eq.
    + by rewrite list_lookup_insert_ne.
Qed.

Lemma length_swap i j l : List.length (swap i j l) = List.length l.
Proof. unfold swap. destruct (l !! i), (l !! j); by rewrite ?length_insert. Qed.

Lemma swap_perm i j l : swap i j l ≡ₚ l.
Proof.
  destruct (l !! i) as [a|] eqn:Ei; [|unfold swap; by rewrite Ei].
  destruct (l !! j) as [b|] eqn:Ej; [|unfold swap; by rewrite Ei, Ej].
  pose proof (lookup_lt_Some _ _ _ Ei). pose proof (lookup_lt_Some _ _ _ Ej).
  apply Permutation_inj. split; [apply length_swap|].
  exists (λ k, if decide (k = i) then j else if decide (k = j) then i else k). split.
  - intros x y. repeat destruct (decide _); lia.
  - intros k. rewrite swap_lookup by done. by repeat destruct (decide _).
Qed.

Lemma length_up fuel j l : List.length (up fuel j l) = List.length l.
Proof.
  revert j l. induction fuel as [|fuel IH]; intros j l; [done|]. cbn [up].
  destruct (_ || _); [done|]. by rewrite IH, length_swap.
Qed.

Lemma up_perm fuel j l : up fuel j l ≡ₚ l.
Proof.
  revert j l. induction fuel as [|fuel IH]; intros j l; [done|]. cbn [up].
  destruct (_ || _); [done|]. by rewrite IH, swap_perm.
Qed.

Lemma down_perm fuel i n l : down fuel i n l ≡ₚ l.
Proof.
  revert i l. induction fuel as [|fuel IH]; intros i l; [done|]. cbn [down].
  destruct (_ <=? _)%nat; [done|]. destruct (negb _); [done|]. by rewrite IH, swap_perm.
Qed.

(** A sift down touches nothing from [n] on. *)
Lemma down_high fuel i n l k :
  (i < n)%nat → (n ≤ List.length l)%nat → (n ≤ k)%nat → down fuel i n l !! k = l !! k.
Proof.
  revert i l. induction fuel as [|fuel IH]; intros i l Hi Hn Hk; [done|]. cbn [down].
  destruct (Nat.leb_spec n (2 * i + 1)); [done|].
  set (j := if _ && _ then _ else _). assert (i < j < n)%nat as Hj.
  { unfold j. destruct (Nat.ltb_spec (2 * i + 1 + 1) n); cbn [andb]; [|lia].
    destruct (less_at _ _ _); lia. }
  destruct (negb _); [done|]. rewrite IH, swap_lookup; rewrite ?length_swap; try lia.
  rewrite !decide_False by lia. done.
Qed.

(** ** Heap order *)

Definition le (a b : A) : Prop := less b a = false.
Context (less_asym : ∀ a b, less a b = true → less b a = false).
Context (le_trans : ∀ a b c, le a b → le b c → le a c).

Lemma le_refl a : le a a.
Proof. unfold le. destruct (less a a) eqn:E; [|done]. by rewrite (less_asym _ _ E) in E. Qed.

(** Slot [p] is not after slot [c]. *)
Definition slots_le l (p c : nat) : Prop := ∀ a b, l !! p = Some a → l !! c = Some b → le a b.

Definition heap_below (n : nat) l : Prop := ∀ p c, child p c → (c < n)%nat → slots_le l p c.
Definition heap l : Prop := ∀ p c, child p c → slots_le l p c.

Lemma heap_below_all l : heap_below (List.length l) l ↔ heap l.
Proof.
  split; [|intros H p c Hc _; by apply H].
  intros H p c Hc a b Ha Hb. apply (H p c); [done|by eapply lookup_lt_Some|done|done].
Qed.

Lemma slots_trans l x y z : (y < List.length l)%nat → slots_le l x y → slots_le l y z → slots_le l x z.
Proof.
  intros Hy H1 H2 a b Ha Hb. destruct (lookup_lt_is_Some_2 _ _ Hy) as [m Hm].
  eapply le_trans; [by apply H1|by apply H2].
Qed.

(** Slots of a swapped list are slots of the list. *)
Lemma slots_swap l i j p c :
  (i < List.length l)%nat → (j < List.length l)%nat →
  let s k := if decide (k = i) then j else if decide (k = j) then i else k in
  slots_le (swap i j l) p c ↔ slots_le l (s p) (s c).
Proof.
  intros Hi Hj s. unfold slots_le. rewrite !swap_lookup by done. unfold s.
  by repeat destruct (decide _).
Qed.

Lemma less_at_true l i j : less_at l i j = true → slots_le l i j.
Proof.
  unfold less_at, slots_le. intros H a b Ha Hb. rewrite Ha, Hb in H. by apply less_asym.
Qed.
Lemma less_at_false l i j : less_at l i j = false → slots_le l j i.
Proof. unfold less_at, slots_le. intros H a b Ha Hb. by rewrite Ha, Hb in H. Qed.

(** Order everywhere but above [j]. *)
Definition up_inv l (j : nat) : Prop :=
  (∀ p c, child p c → c ≠ j → slots_le l p c) ∧
  (∀ g c, child g j → child j c → slots_le l g c).

Lemma up_swap l j :
  (0 < j < List.length l)%nat → less_at l j (parent j) = true → up_inv l j →
  up_inv (swap (parent j) j l) (parent j).
Proof.
  intros Hj Hl [H1 H2]. pose proof (child_parent j ltac:(lia)) as Hp. pose proof (child_lt _ _ Hp) as Hlt.
  apply less_at_true in Hl. set (p := parent j) in *. split.
  - intros q c Hq Hc. pose proof (child_lt _ _ Hq). apply slots_swap; [lia..|].
    rewrite (decide_False (P := c = p)) by done. destruct (decide (c = j)) as [->|Hcj].
    { rewrite (child_unique _ _ _ Hq Hp). by rewrite decide_True. }
    destruct (decide (q = p)) as [->|]; [apply (slots_trans l j p c); [lia|done|by apply H1]|].
    destruct (decide (q = j)) as [->|]; [by apply (H2 p c)|by apply H1].
  - intros g c Hg Hc. pose proof (child_lt _ _ Hg). pose proof (child_lt _ _ Hc).
    assert (slots_le l g p) as Hgp by (apply H1; [done|lia]). apply slots_swap; [lia..|].
    rewrite !(decide_False (P := g = _)), (decide_False (P := c = p)) by lia.
    destruct (decide (c = j)) as [->|]; [done|]. apply (slots_trans l g p c); [lia|done|by apply H1].
Qed.

Lemma up_heap fuel j l : (j < List.length l)%nat → (j < fuel)%nat → up_inv l j → heap (up fuel j l).
Proof.
  revert j l. induction fuel as [|fuel IH]; intros j l Hj Hf Hi; [lia|]. cbn [up].
  destruct (Nat.eqb_spec (parent j) j) as [E|E]; cbn [orb].
  { destruct (decide (j = 0%nat)) as [->|Hn].
    - intros p c Hc. apply (proj1 Hi); [done|]. apply child_lt in Hc. lia.
    - pose proof (child_lt _ _ (child_parent j ltac:(lia))). lia. }
  assert (0 < j)%nat as H0 by (destruct j; [done|lia]).
  pose proof (child_lt _ _ (child_parent j H0)) as Hlt.
  destruct (less_at l j (parent j)) eqn:El; cbn [negb].
  - apply IH; [rewrite length_swap; lia|lia|]. by apply up_swap.
  - intros p c Hc. destruct (decide (c = j)) as [->|]; [|by apply (proj1 Hi)].
    rewrite <-(parent_child _ _ Hc). by apply less_at_false.
Qed.

(** Order everywhere but below [i]. *)
Definition down_inv l (i n : nat) : Prop :=
  (∀ p c, child p c → (c < n)%nat → p ≠ i → slots_le l p c) ∧
  (∀ g c, child g i → child i c → (c < n)%nat → slots_le l g c).

(** The child a sift down goes to is not after the other one. *)
Definition smaller l (i j n : nat) : Prop :=
  child i j ∧ (j < n)%nat ∧ ∀ c, child i c → (c < n)%nat → slots_le l j c.

Lemma down_smaller l i n :
  (2 * i + 1 < n)%nat → (n ≤ List.length l)%nat →
  smaller l i (if (2 * i + 1 + 1 <? n)%nat && less_at l (2 * i + 1 + 1) (2 * i + 1)
               then (2 * i + 1 + 1)%nat else (2 * i + 1)%nat) n.
Proof.
  intros H Hn. assert (∀ k, slots_le l k k) as Hrefl.
  { intros k a b Ha Hb. simplify_eq. apply le_refl. }
  unfold smaller, child. destruct (Nat.ltb_spec (2 * i + 1 + 1) n); cbn [andb].
  - destruct (less_at _ _ _) eqn:E; (split_and!; [lia|lia|]); intros c [->| ->] Hc;
      try replace (2 * i + 2)%nat with (2 * i + 1 + 1)%nat by lia; try apply Hrefl;
      [by apply less_at_true|by apply less_at_false].
  - split_and!; [lia|lia|]. intros c [->| ->] Hc; [apply Hrefl|lia].
Qed.

Lemma down_swap l i j n :
  (n ≤ List.length l)%nat → smaller l i j n → less_at l j i = true → down_inv l i n →
  down_inv (swap i j l) j n.
Proof.
  intros Hn (Hij & Hj & Hs) Hl [H1 H2]. pose proof (child_lt _ _ Hij) as Hlt. apply less_at_true in Hl. split.
  - intros p c Hc Hcn Hp. pose proof (child_lt _ _ Hc). apply slots_swap; [lia..|].
    rewrite (decide_False (P := p = j)) by done.
    destruct (decide (p = i)) as [->|Hpi].
    { rewrite (decide_False (P := c = i)) by lia. destruct (decide (c = j)); [by subst|by apply Hs]. }
    destruct (decide (c = i)) as [->|]; [by apply H2|].
    destruct (decide (c = j)) as [->|]; [by destruct Hpi; apply (child_unique _ _ j)|by apply H1].
  - intros g c Hg Hc Hcn. rewrite (child_unique _ _ _ Hg Hij). pose proof (child_lt _ _ Hc).
    apply slots_swap; [lia..|]. rewrite decide_True, !(decide_False (P := c = _)) by lia.
    apply H1; [done|done|lia].
Qed.

Lemma down_heap fuel i n l :
  (n ≤ List.length l)%nat → (n ≤ i + fuel)%nat → down_inv l i n → heap_below n (down fuel i n l).
Proof.
  revert i l. induction fuel as [|fuel IH]; intros i l Hn Hf Hi.
  { intros p c Hc Hcn. apply (proj1 Hi); [done|done|]. apply child_lt in Hc. lia. }
  cbn [down]. destruct (Nat.leb_spec n (2 * i + 1)) as [Hle|Hgt].
  { intros p c Hc Hcn. apply (proj1 Hi); [done|done|]. intros ->. unfold child in Hc. lia. }
  pose proof (down_smaller l i n Hgt Hn) as Hs. set (j := if _ && _ then _ else _) in *.
  destruct (less_at l j i) eqn:El; cbn [negb].
  - apply IH; [by rewrite length_swap| |by apply down_swap].
    destruct Hs as (Hij & _). apply child_lt in Hij. lia.
  - intros p c Hc Hcn. destruct (decide (p = i)) as [->|]; [|by apply (proj1 Hi)].
    destruct Hs as (Hij & Hj & Hs). apply (slots_trans l i j c); [lia|by apply less_at_false|by apply Hs].
Qed.

(** ** Push and pop *)

Lemma heap_nil : heap [].
Proof. intros p c _ a b Ha. done. Qed.

Lemma heap_push_perm x l : heap_push x l ≡ₚ x :: l.
Proof. unfold heap_push. rewrite up_perm. symmetry. apply Permutation_cons_append. Qed.

Lemma heap_push_heap x l : heap l → heap (heap_push x l).
Proof.
  intros Hl. unfold heap_push. rewrite length_app. cbn [List.length].
  replace (List.length l + 1 - 1)%nat with (List.length l) by lia.
  apply up_heap; [rewrite length_app; simpl; lia|lia|]. split.
  - intros p c Hc Hn a b Ha Hb. apply lookup_app_Some in Hb as [Hb|[Hge Hb]].
    + pose proof (lookup_lt_Some _ _ _ Hb). pose proof (child_lt _ _ Hc).
      rewrite lookup_app_l in Ha by lia. by apply (Hl p c).
    + apply lookup_lt_Some in Hb. simpl in Hb. lia.
  - intros g c Hg Hc a b Ha Hb. pose proof (child_lt _ _ Hc). apply lookup_lt_Some in Hb.
    rewrite length_app in Hb. simpl in Hb. lia.
Qed.

(** The root is not after any slot. *)
Lemma heap_root l k : heap l → slots_le l 0 k.
Proof.
  intros Hl. induction k as [k IH] using lt_wf_ind. intros a b Ha Hb.
  destruct k as [|k]; [simplify_eq; apply le_refl|].
  pose proof (child_parent (S k) ltac:(lia)) as Hc. pose proof (child_lt _ _ Hc) as Hlt.
  pose proof (lookup_lt_Some _ _ _ Hb) as Hlen.
  apply (slots_trans l 0 (parent (S k)) (S k)); [lia|by apply IH|by apply Hl|done|done].
Qed.

(** [Pop] takes a minimum and leaves a heap of the rest. *)
Lemma heap_pop_spec l :
  heap l →
  match heap_pop l with
  | None => l = []
  | Some (x, l') => l ≡ₚ x :: l' ∧ heap l' ∧ ∀ y, y ∈ l → le x y
  end.
Proof.
  intros Hl. unfold heap_pop. destruct l as [|a0 l0]; [done|]. set (l := a0 :: l0) in *.
  assert (0 < List.length l)%nat as Hpos by (unfold l; simpl; lia).
  set (n := (List.length l - 1)%nat). set (l1 := swap 0 n l).
  assert (List.length l1 = List.length l) as Hlen by apply length_swap.
  set (l2 := down (List.length l) 0 n l1).
  assert (l2 ≡ₚ l) as Hperm by (unfold l2, l1; by rewrite down_perm, swap_perm).
  assert (l2 !! n = Some a0) as Hlast.
  { destruct (decide (n = 0%nat)) as [Hn|Hn].
    - unfold l2. assert (l1 = l) as Hl1 by (unfold l1; rewrite Hn; done).
      rewrite Hn, Hl1. replace (List.length l) with (S n) by lia. rewrite Hn. done.
    - unfold l2. rewrite down_high by lia. unfold l1. rewrite swap_lookup by lia.
      rewrite decide_False, decide_True by lia. done. }
  rewrite Hlast. pose proof (Permutation_length Hperm) as Hl2. split_and!.
  - rewrite <-Hperm. rewrite <-(take_drop n l2) at 1. rewrite (drop_S l2 a0 n Hlast).
    rewrite drop_ge by lia. symmetry. apply Permutation_cons_append.
  - assert (heap_below n l2) as Hh.
    { apply down_heap; [lia|lia|]. split.
      - intros p c Hc Hcn Hp. pose proof (child_lt _ _ Hc). apply slots_swap; [lia..|].
        rewrite !decide_False by lia. by apply Hl.
      - intros g c Hg. apply child_lt in Hg. lia. }
    intros p c Hc a b Ha Hb. apply lookup_take_Some in Ha as [Ha _], Hb as [Hb Hcn]. by apply (Hh p c).
  - intros y Hy. apply list_elem_of_lookup in Hy as [k Hk]. by apply (heap_root l k Hl).
Qed.

End Heap.
