(* ===== verification/Json.v ===== *)
(** JSON text as [encoding/json] reads and writes it: a tree type that keeps
    string bodies and numbers in their source spelling, the parser that
    accepts exactly the JSON grammar ([json.Valid], [json.Unmarshal]), the
    compact printer ([json.Marshal]), string quoting with Go's escapes, and
    the round-trip lemmas the event codec and the stores rely on. *)
From S2P Require Import Prelude.
#[local] Open Scope char_scope.
#[local] Infix "=?" := Ascii.eqb : char_scope.

(** ** Characters *)

(** The quotation mark and the backslash. *)
Definition dq : ascii := "034".
Definition bsl : ascii := "092".

Definition code (c : ascii) : N := N_of_ascii c.

Definition is_ws (c : ascii) : bool :=
  (c =? " ") || (c =? "009") || (c =? "010") || (c =? "013").

Definition is_digit (c : ascii) : bool := (48 <=? code c)%N && (code c <=? 57)%N.

(** The value of a hexadecimal digit. *)
Definition hex_val (c : ascii) : option N :=
  let n := code c in
  if is_digit c then Some (n - 48)%N
  else if (97 <=? n)%N && (n <=? 102)%N then Some (n - 87)%N
  else if (65 <=? n)%N && (n <=? 70)%N then Some (n - 55)%N
  else None.

Definition is_hex (c : ascii) : bool := bool_decide (is_Some (hex_val c)).

(** Escapes of one character after a backslash. *)
Definition is_simple_esc (c : ascii) : bool :=
  (c =? dq) || (c =? bsl) || (c =? "/") || (c =? "b") || (c =? "f")
  || (c =? "n") || (c =? "r") || (c =? "t").

Fixpoint skip_ws (s : bytes) : bytes :=
  match s with
  | c :: r => if is_ws c then skip_ws r else s
  | [] => []
  end.

(** ** Trees

    [JStr b] holds the raw bytes between the quotes, escapes included;
    [JNum l] holds the digits as written. *)
Inductive json : Type :=
| JNull
| JBool (b : bool)
| JNum (lit : bytes)
| JStr (body : bytes)
| JArr (items : list json)
| JObj (members : list (bytes * json)).

(** ** Scanning *)

(** The body of a string literal whose opening quote has been read, and what
    follows its closing quote. *)
Fixpoint scan_str (s : bytes) : option (bytes * bytes) :=
  match s with
  | [] => None
  | c :: r =>
      if c =? dq then Some ([], r)
      else if c =? bsl then
        match r with
        | e :: r1 =>
            if is_simple_esc e then
              '(b, t) ← scan_str r1; Some (c :: e :: b, t)
            else if e =? "u" then
              match r1 with
              | h1 :: h2 :: h3 :: h4 :: r2 =>
                  if is_hex h1 && is_hex h2 && is_hex h3 && is_hex h4 then
                    '(b, t) ← scan_str r2;
                    Some (c :: e :: h1 :: h2 :: h3 :: h4 :: b, t)
                  else None
              | _ => None
              end
            else None
        | [] => None
        end
      else if (code c <? 32)%N then None
      else '(b, t) ← scan_str r; Some (c :: b, t)
  end.

Fixpoint span_digits (s : bytes) : bytes * bytes :=
  match s with
  | c :: r => if is_digit c then let '(d, t) := span_digits r in (c :: d, t)
              else ([], s)
  | [] => ([], [])
  end.

(** The integer part: a single zero, or digits without a leading zero. *)
Definition scan_int (s : bytes) : option (bytes * bytes) :=
  match s with
  | c :: r =>
      if c =? "0" then Some ([c], r)
      else if is_digit c then let '(d, t) := span_digits r in Some (c :: d, t)
      else None
  | [] => None
  end.

Definition scan_frac (s : bytes) : option (bytes * bytes) :=
  match s with
  | c :: r =>
      if c =? "." then
        match span_digits r with
        | ([], _) => None
        | (d, t) => Some (c :: d, t)
        end
      else Some ([], s)
  | [] => Some ([], [])
  end.

Definition scan_sign (s : bytes) : bytes * bytes :=
  match s with
  | c :: r => if (c =? "+") || (c =? "-") then ([c], r) else ([], s)
  | [] => ([], [])
  end.

Definition scan_exp (s : bytes) : option (bytes * bytes) :=
  match s with
  | c :: r =>
      if (c =? "e") || (c =? "E") then
        let '(sg, r1) := scan_sign r in
        match span_digits r1 with
        | ([], _) => None
        | (d, t) => Some (c :: sg ++ d, t)
        end
      else Some ([], s)
  | [] => Some ([], [])
  end.

Definition scan_unsigned (s : bytes) : option (bytes * bytes) :=
  '(i, s2) ← scan_int s;
  '(f, s3) ← scan_frac s2;
  '(e, s4) ← scan_exp s3;
  Some (i ++ f ++ e, s4).

Definition scan_num (s : bytes) : option (bytes * bytes) :=
  match s with
  | [] => None
  | c :: r => if c =? "-" then '(l, t) ← scan_unsigned r; Some (c :: l, t)
              else scan_unsigned s
  end.

(** Reads the literal [w]. *)
Fixpoint scan_lit (w s : bytes) : option bytes :=
  match w, s with
  | [], _ => Some s
  | a :: w', b :: s' => if a =? b then scan_lit w' s' else None
  | _ :: _, [] => None
  end.

(** ** Parsing

    [n] bounds the nesting; the length of the text is always enough. *)
Fixpoint parse_val (n : nat) (s : bytes) : option (json * bytes) :=
  match n with
  | O => None
  | S n =>
    match skip_ws s with
    | [] => None
    | c :: r =>
      if c =? dq then '(b, t) ← scan_str r; Some (JStr b, t)
      else if c =? "[" then
        match skip_ws r with
        | [] => None
        | d :: r' => if d =? "]" then Some (JArr [], r')
                     else '(vs, t) ← parse_items n r; Some (JArr vs, t)
        end
      else if c =? "{" then
        match skip_ws r with
        | [] => None
        | d :: r' => if d =? "}" then Some (JObj [], r')
                     else '(ms, t) ← parse_members n r; Some (JObj ms, t)
        end
      else if c =? "t" then t ← scan_lit (s2b "rue") r; Some (JBool true, t)
      else if c =? "f" then t ← scan_lit (s2b "alse") r; Some (JBool false, t)
      else if c =? "n" then t ← scan_lit (s2b "ull") r; Some (JNull, t)
      else '(l, t) ← scan_num (c :: r); Some (JNum l, t)
    end
  end
with parse_items (n : nat) (s : bytes) : option (list json * bytes) :=
  match n with
  | O => None
  | S n =>
    '(v, r) ← parse_val n s;
    match skip_ws r with
    | [] => None
    | c :: r' =>
      if c =? "," then '(vs, t) ← parse_items n r'; Some (v :: vs, t)
      else if c =? "]" then Some ([v], r')
      else None
    end
  end
with parse_members (n : nat) (s : bytes) : option (list (bytes * json) * bytes) :=
  match n with
  | O => None
  | S n =>
    match skip_ws s with
    | [] => None
    | q :: r =>
      if q =? dq then
        '(k, r1) ← scan_str r;
        match skip_ws r1 with
        | [] => None
        | c :: r2 =>
          if c =? ":" then
            '(v, r3) ← parse_val n r2;
            match skip_ws r3 with
            | [] => None
            | d :: r4 =>
              if d =? "," then '(ms, t) ← parse_members n r4; Some ((k, v) :: ms, t)
              else if d =? "}" then Some ([(k, v)], r4)
              else None
            end
          else None
        end
      else None
    end
  end.

(** The tree of a whole text: one value and trailing white space. *)
Definition parse (s : bytes) : option json :=
  '(v, r) ← parse_val (S (List.length s)) s;
  match skip_ws r with [] => Some v | _ :: _ => None end.

(** [json.Valid]. *)
Definition json_Valid (s : bytes) : bool := bool_decide (is_Some (parse s)).

(** ** Printing *)

Fixpoint print (v : json) : bytes :=
  match v with
  | JNull => s2b "null"
  | JBool true => s2b "true"
  | JBool false => s2b "false"
  | JNum l => l
  | JStr b => dq :: b ++ [dq]
  | JArr [] => s2b "[]"
  | JArr (v :: vs) =>
      "[" :: print v ++ mjoin ((fun w => "," :: print w) <$> vs) ++ ["]"]
  | JObj [] => s2b "{}"
  | JObj ((k, v) :: ms) =>
      "{" :: dq :: k ++ dq :: ":" :: print v
      ++ mjoin ((fun '(k, w) => "," :: dq :: k ++ dq :: ":" :: print w) <$> ms)
      ++ ["}"]
  end.

(** ** Well-formed trees *)

(** A string body: plain characters, short escapes and [\uXXXX]. *)
Inductive body : bytes → Prop :=
| body_nil : body []
| body_plain c b :
    c ≠ dq → c ≠ bsl → (32 ≤ code c)%N → body b → body (c :: b)
| body_esc e b : is_simple_esc e = true → body b → body (bsl :: e :: b)
| body_uni h1 h2 h3 h4 b :
    is_hex h1 = true → is_hex h2 = true → is_hex h3 = true → is_hex h4 = true →
    body b → body (bsl :: "u" :: h1 :: h2 :: h3 :: h4 :: b).

Definition num_ok (l : bytes) : Prop := scan_num l = Some (l, []).

Inductive wf : json → Prop :=
| wf_null : wf JNull
| wf_bool b : wf (JBool b)
| wf_num l : num_ok l → wf (JNum l)
| wf_str b : body b → wf (JStr b)
| wf_arr vs : Forall wf vs → wf (JArr vs)
| wf_obj ms : Forall (λ m, body m.1 ∧ wf m.2) ms → wf (JObj ms).

Create HintDb json.
#[export] Hint Constructors body wf : json.

(** ** String bodies *)

Lemma body_app a b : body a → body b → body (a ++ b).
Proof. induction 1; simpl; eauto with json. Qed.

Lemma scan_str_body s b r : scan_str s = Some (b, r) → s = b ++ dq :: r ∧ body b.
Proof.
  revert b r. induction s as [s IH] using list_len_ind. intros b r H.
  destruct s as [|c s]; [discriminate|]. simpl in H.
  destruct (Ascii.eqb_spec c dq) as [->|Hq].
  { simplify_eq/=. eauto with json. }
  destruct (Ascii.eqb_spec c bsl) as [->|Hb].
  - destruct s as [|e s]; [discriminate|].
    destruct (is_simple_esc e) eqn:He.
    { case_bind H. simplify_eq/=. apply IH in E as [-> ?]; simpl; [|lia].
      eauto with json. }
    destruct (Ascii.eqb_spec e "u") as [->|]; [|discriminate].
    destruct s as [|h1 [|h2 [|h3 [|h4 s]]]]; try discriminate.
    destruct (is_hex h1) eqn:?, (is_hex h2) eqn:?, (is_hex h3) eqn:?,
      (is_hex h4) eqn:?; simpl in H; try discriminate.
    case_bind H. simplify_eq/=. apply IH in E as [-> ?]; simpl; [|lia].
    eauto with json.
  - destruct (N.ltb_spec (code c) 32); [discriminate|].
    case_bind H. simplify_eq/=. apply IH in E as [-> ?]; simpl; [|lia].
    eauto with json.
Qed.

Lemma scan_body b r : body b → scan_str (b ++ dq :: r) = Some (b, r).
Proof.
  induction 1 as [|c b Hq Hb Hc _ IH|e b He _ IH|h1 h2 h3 h4 b E1 E2 E3 E4 _ IH];
    simpl; [done|..].
  - destruct (Ascii.eqb_spec c dq); [done|].
    destruct (Ascii.eqb_spec c bsl); [done|].
    destruct (N.ltb_spec (code c) 32); [lia|]. by rewrite IH.
  - by rewrite He, IH.
  - by rewrite E1, E2, E3, E4, IH.
Qed.

(** ** Numbers *)

(** What may follow a value: nothing, or a byte no number contains. *)
Definition num_char (c : ascii) : bool :=
  is_digit c || (c =? ".") || (c =? "e") || (c =? "E").
Definition delim (r : bytes) : Prop :=
  match r with [] => True | c :: _ => num_char c = false end.

Lemma span_digits_app s d t r :
  span_digits s = (d, t) → (t = [] → delim r) → span_digits (s ++ r) = (d, t ++ r).
Proof.
  revert d t. induction s as [|c s IH]; intros d t H Hr; simpl in *.
  - simplify_eq/=. specialize (Hr eq_refl). destruct r as [|c r]; [done|].
    simpl in *. unfold num_char in Hr. by destruct (is_digit c).
  - destruct (is_digit c); simplify_eq/=; [|done].
    destruct (span_digits s) as [d' t'] eqn:E. simplify_eq/=.
    by rewrite (IH _ _ eq_refl Hr).
Qed.

Lemma scan_int_app s d t r :
  scan_int s = Some (d, t) → (t = [] → delim r) →
  scan_int (s ++ r) = Some (d, t ++ r).
Proof.
  destruct s as [|c s]; simpl; [discriminate|]. intros H Hr.
  destruct (c =? "0"); [by simplify_eq/=|].
  destruct (is_digit c); [|discriminate].
  destruct (span_digits s) as [d' t'] eqn:E. simplify_eq/=.
  by rewrite (span_digits_app _ _ _ _ E Hr).
Qed.

Lemma scan_frac_app s d t r :
  scan_frac s = Some (d, t) → (t = [] → delim r) →
  scan_frac (s ++ r) = Some (d, t ++ r).
Proof.
  destruct s as [|c s]; simpl; intros H Hr.
  - simplify_eq/=. specialize (Hr eq_refl). destruct r as [|c r]; [done|]. simpl in *.
    unfold num_char in Hr. by destruct (c =? "."), (is_digit c).
  - destruct (c =? "."); [|by simplify_eq/=].
    destruct (span_digits s) as [[|e d'] t'] eqn:E; simplify_eq/=.
    by rewrite (span_digits_app _ _ _ _ E Hr).
Qed.

Lemma scan_sign_app s d t r :
  scan_sign s = (d, t) → (s = [] → False) → scan_sign (s ++ r) = (d, t ++ r).
Proof.
  destruct s as [|c s]; simpl; intros H Hs; [by destruct Hs|].
  destruct ((c =? "+") || (c =? "-")); by simplify_eq/=.
Qed.

#[local] Arguments scan_sign : simpl never.

Lemma scan_exp_app s d t r :
  scan_exp s = Some (d, t) → (t = [] → delim r) →
  scan_exp (s ++ r) = Some (d, t ++ r).
Proof.
  destruct s as [|c s]; simpl; intros H Hr.
  - simplify_eq/=. specialize (Hr eq_refl). destruct r as [|c r]; [done|]. simpl in *.
    unfold num_char in Hr. by destruct (c =? "e"), (c =? "E"), (is_digit c), (c =? ".").
  - destruct ((c =? "e") || (c =? "E")); [|by simplify_eq/=].
    destruct s as [|x s']; [discriminate|].
    destruct (scan_sign (x :: s')) as [sg s1] eqn:Es.
    change (x :: s' ++ r) with ((x :: s') ++ r).
    rewrite (scan_sign_app _ _ _ _ Es) by done.
    destruct (span_digits s1) as [[|e d'] t'] eqn:E; simplify_eq/=.
    by rewrite (span_digits_app _ _ _ _ E Hr).
Qed.

Lemma scan_unsigned_app s l t r :
  scan_unsigned s = Some (l, t) → (t = [] → delim r) →
  scan_unsigned (s ++ r) = Some (l, t ++ r).
Proof.
  unfold scan_unsigned. intros H Hr.
  destruct (scan_int s) as [[i s2]|] eqn:Ei; [|discriminate]; simpl in H.
  destruct (scan_frac s2) as [[f s3]|] eqn:Ef; [|discriminate]; simpl in H.
  destruct (scan_exp s3) as [[e s4]|] eqn:Ee; [|discriminate]; simplify_eq/=.
  assert (s3 = [] → delim r) by (intros ->; simpl in Ee; simplify_eq; auto).
  assert (s2 = [] → delim r) by (intros ->; simpl in Ef; simplify_eq; auto).
  rewrite (scan_int_app _ _ _ _ Ei) by done; simpl.
  rewrite (scan_frac_app _ _ _ _ Ef) by done; simpl.
  by rewrite (scan_exp_app _ _ _ _ Ee).
Qed.

#[local] Arguments scan_unsigned : simpl never.

Lemma scan_num_app s l t r :
  scan_num s = Some (l, t) → (t = [] → delim r) → scan_num (s ++ r) = Some (l, t ++ r).
Proof.
  destruct s as [|c s]; [discriminate|]. simpl. intros H Hr.
  destruct (c =? "-").
  - destruct (scan_unsigned s) as [[l' t']|] eqn:E; simplify_eq/=.
    by rewrite (scan_unsigned_app _ _ _ _ E Hr).
  - by apply (scan_unsigned_app (c :: s)).
Qed.

Lemma num_ok_scan l r : num_ok l → delim r → scan_num (l ++ r) = Some (l, r).
Proof. intros H Hr. by apply (scan_num_app l l []). Qed.

Lemma num_ok_head l : num_ok l → ∃ c r, l = c :: r ∧ (c = "-" ∨ is_digit c = true).
Proof.
  unfold num_ok. destruct l as [|c r]; [discriminate|]. simpl.
  destruct (Ascii.eqb_spec c "-"); [eauto|].
  unfold scan_unsigned, scan_int. intros H. exists c, r. split; [done|].
  destruct (Ascii.eqb_spec c "0") as [->|]; [by right|].
  destruct (is_digit c); [by right|discriminate].
Qed.

(** A scanned number is itself a well-formed number literal. *)
Definition nodigit (r : bytes) : Prop :=
  match r with [] => True | c :: _ => is_digit c = false end.

Lemma span_digits_inv s d t :
  span_digits s = (d, t) → ∀ r, nodigit r → span_digits (d ++ r) = (d, r).
Proof.
  revert d t. induction s as [|c s IH]; intros d t H r Hr; simpl in H.
  - simplify_eq/=. destruct r as [|c r]; [done|]. simpl in *. by rewrite Hr.
  - destruct (is_digit c) eqn:Hc; simplify_eq/=.
    + destruct (span_digits s) as [d' t'] eqn:E. simplify_eq/=. rewrite Hc.
      by rewrite (IH _ _ eq_refl _ Hr).
    + destruct r as [|x r]; [done|]. simpl in *. by rewrite Hr.
Qed.

Lemma scan_int_inv s d t :
  scan_int s = Some (d, t) → ∀ r, nodigit r → scan_int (d ++ r) = Some (d, r).
Proof.
  destruct s as [|c s]; simpl; [discriminate|]. intros H r Hr.
  destruct (c =? "0") eqn:E0; [simplify_eq/=; by rewrite E0|].
  destruct (is_digit c) eqn:Hc; [|discriminate].
  destruct (span_digits s) as [d' t'] eqn:E. simplify_eq/=.
  by rewrite E0, Hc, (span_digits_inv _ _ _ E _ Hr).
Qed.

Lemma scan_frac_inv s d t :
  scan_frac s = Some (d, t) →
  nodigit d ∧
  ∀ r, nodigit r → head r ≠ Some "." → scan_frac (d ++ r) = Some (d, r).
Proof.
  assert (∀ r, head r ≠ Some "." → scan_frac r = Some ([], r)) as Hnone.
  { intros [|c r]; simpl; [done|]. intros Hr.
    destruct (Ascii.eqb_spec c "."); [by subst|done]. }
  destruct s as [|c s]; simpl; intros H; [simplify_eq/=; auto|].
  destruct (Ascii.eqb_spec c ".") as [->|]; [|simplify_eq/=; auto].
  destruct (span_digits s) as [[|e d'] t'] eqn:E; simplify_eq/=.
  split; [done|]. intros r Hr _.
  pose proof (span_digits_inv _ _ _ E _ Hr) as Hsp. simpl in Hsp.
  by rewrite Hsp.
Qed.

Lemma scan_exp_inv s d t :
  scan_exp s = Some (d, t) →
  nodigit d ∧ head d ≠ Some "." ∧ scan_exp d = Some (d, []).
Proof.
  destruct s as [|c s]; simpl; intros H; [by simplify_eq/=|].
  destruct ((c =? "e") || (c =? "E")) eqn:Ec; [|by simplify_eq/=].
  assert (is_digit c = false ∧ Some c ≠ Some ".") as [Hd Hn].
  { apply orb_true_iff in Ec as [->%Ascii.eqb_eq| ->%Ascii.eqb_eq]; by split. }
  destruct (scan_sign s) as [sg s1] eqn:Es.
  destruct (span_digits s1) as [[|x d'] t'] eqn:E; simplify_eq/=.
  pose proof (span_digits_inv _ _ _ E [] I) as Hsp. rewrite app_nil_r in Hsp.
  rewrite Ec. split_and!; [done..|].
  enough (scan_sign (sg ++ x :: d') = (sg, x :: d')) as -> by (by rewrite Hsp).
  unfold scan_sign in *. destruct s as [|y s]; simplify_eq/=.
  destruct ((y =? "+") || (y =? "-")) eqn:Ey; simplify_eq/=; [by rewrite Ey|].
  simpl in E. destruct (is_digit y) eqn:Hy; [|discriminate].
  destruct (span_digits s). simplify_eq/=. by rewrite Ey.
Qed.

Lemma scan_num_ok s l t : scan_num s = Some (l, t) → num_ok l.
Proof.
  assert (∀ s l t, scan_unsigned s = Some (l, t) → scan_unsigned l = Some (l, []))
    as Hu.
  { clear. unfold scan_unsigned. intros s l t H.
    destruct (scan_int s) as [[i s2]|] eqn:Ei; [|discriminate]; simpl in H.
    destruct (scan_frac s2) as [[f s3]|] eqn:Ef; [|discriminate]; simpl in H.
    destruct (scan_exp s3) as [[e s4]|] eqn:Ee; [|discriminate]; simplify_eq/=.
    destruct (scan_exp_inv _ _ _ Ee) as (He & He' & Hexp).
    destruct (scan_frac_inv _ _ _ Ef) as [Hf Hfrac].
    rewrite (scan_int_inv _ _ _ Ei); [|by destruct f].
    simpl. rewrite Hfrac by done. simpl. by rewrite Hexp. }
  unfold num_ok, scan_num. destruct s as [|c s]; [discriminate|]. intros H.
  destruct (c =? "-") eqn:Ec.
  - destruct (scan_unsigned s) as [[l' t']|] eqn:E; simplify_eq/=.
    by rewrite Ec, (Hu _ _ _ E).
  - specialize (Hu _ _ _ H). destruct l as [|x l]; [done|].
    enough (x =? "-" = false) as -> by done.
    unfold scan_unsigned, scan_int in Hu. destruct (Ascii.eqb_spec x "-") as [->|]; done.
Qed.

(** ** Parsing what was printed *)

(** Nodes of a tree, counting list cells: a bound on the parser's fuel. *)
Fixpoint jsize (v : json) : nat :=
  match v with
  | JArr vs => S (sum_list_with (λ w, S (jsize w)) vs)
  | JObj ms => S (sum_list_with (λ m, S (jsize m.2)) ms)
  | _ => 1
  end.

Definition print_tail (vs : list json) : bytes := mjoin ((λ w, "," :: print w) <$> vs).
Definition print_mtail (ms : list (bytes * json)) : bytes :=
  mjoin ((λ '(k, w), "," :: dq :: k ++ dq :: ":" :: print w) <$> ms).

Lemma print_tail_cons w vs r :
  print_tail (w :: vs) ++ r = "," :: print w ++ print_tail vs ++ r.
Proof. unfold print_tail. simpl. by rewrite <-app_assoc. Qed.

Lemma print_mtail_cons k w ms r :
  print_mtail ((k, w) :: ms) ++ r
  = "," :: dq :: k ++ dq :: ":" :: print w ++ print_mtail ms ++ r.
Proof. unfold print_mtail. simpl. rewrite <-!app_assoc. simpl. by rewrite <-?app_assoc. Qed.

Lemma print_arr v vs r :
  print (JArr (v :: vs)) ++ r = "[" :: print v ++ print_tail vs ++ "]" :: r.
Proof. simpl. unfold print_tail. by rewrite <-!app_assoc. Qed.

Lemma print_obj k v ms r :
  print (JObj ((k, v) :: ms)) ++ r
  = "{" :: dq :: k ++ dq :: ":" :: print v ++ print_mtail ms ++ "}" :: r.
Proof. simpl. unfold print_mtail. rewrite <-!app_assoc. simpl. by rewrite <-!app_assoc. Qed.

Lemma print_head v : wf v → ∃ c t, print v = c :: t ∧ is_ws c = false
  ∧ c ≠ "]" ∧ c ≠ "}".
Proof.
  destruct 1 as [|[]|l Hl|b _|[|v vs] _|[|[k v] ms] _]; simpl; eauto 10.
  destruct (num_ok_head l Hl) as (c & r & -> & Hc). exists c, r.
  destruct Hc as [->|Hc]; [done|]. split; [done|].
  destruct c as [[] [] [] [] [] [] [] []]; done.
Qed.

Lemma skip_ws_print v r : wf v → skip_ws (print v ++ r) = print v ++ r.
Proof. intros (c & t & -> & Hc & _)%print_head. simpl. by rewrite Hc. Qed.

Lemma parse_val_lit n v r :
  v = JNull ∨ (∃ b, v = JBool b) → parse_val (S n) (print v ++ r) = Some (v, r).
Proof. by intros [->|[[] ->]]. Qed.

Lemma parse_val_str n b r :
  body b → parse_val (S n) (print (JStr b) ++ r) = Some (JStr b, r).
Proof. intros Hb. simpl. rewrite <-app_assoc. simpl. by rewrite scan_body. Qed.

Lemma parse_val_num n l r :
  num_ok l → delim r → parse_val (S n) (l ++ r) = Some (JNum l, r).
Proof.
  intros Hl Hr. pose proof (num_ok_scan _ _ Hl Hr) as Hs.
  destruct (num_ok_head l Hl) as (c & t & -> & Hc).
  assert (is_ws c = false ∧ (c =? dq) = false ∧ (c =? "[") = false ∧ (c =? "{") = false
          ∧ (c =? "t") = false ∧ (c =? "f") = false ∧ (c =? "n") = false)
    as (H1 & H2 & H3 & H4 & H5 & H6 & H7).
  { destruct Hc as [->|Hc]; [done|]. destruct c as [[] [] [] [] [] [] [] []]; done. }
  cbn [parse_val app skip_ws]. rewrite H1, H2, H3, H4, H5, H6, H7.
  change (c :: t ++ r) with ((c :: t) ++ r). by rewrite Hs.
Qed.

(** One step of the parser on each opening character. *)
Lemma parse_val_arr n s :
  parse_val (S n) ("[" :: s)
  = match skip_ws s with
    | [] => None
    | d :: r' => if d =? "]" then Some (JArr [], r')
                 else '(vs, t) ← parse_items n s; Some (JArr vs, t)
    end.
Proof. reflexivity. Qed.

Lemma parse_val_obj n s :
  parse_val (S n) ("{" :: s)
  = match skip_ws s with
    | [] => None
    | d :: r' => if d =? "}" then Some (JObj [], r')
                 else '(ms, t) ← parse_members n s; Some (JObj ms, t)
    end.
Proof. reflexivity. Qed.

Lemma parse_members_dq n s :
  parse_members (S n) (dq :: s)
  = '(k, r1) ← scan_str s;
    match skip_ws r1 with
    | [] => None
    | c :: r2 =>
      if c =? ":" then
        '(v, r3) ← parse_val n r2;
        match skip_ws r3 with
        | [] => None
        | d :: r4 =>
          if d =? "," then '(ms, t) ← parse_members n r4; Some ((k, v) :: ms, t)
          else if d =? "}" then Some ([(k, v)], r4)
          else None
        end
      else None
    end.
Proof. reflexivity. Qed.

Lemma parse_print_fuel n :
  (∀ v r, wf v → delim r → (jsize v ≤ n)%nat →
     parse_val n (print v ++ r) = Some (v, r)) ∧
  (∀ v vs r, wf v → Forall wf vs →
     (S (jsize v) + sum_list_with (λ w, S (jsize w)) vs ≤ n)%nat →
     parse_items n (print v ++ print_tail vs ++ "]" :: r) = Some (v :: vs, r)) ∧
  (∀ k v ms r, body k → wf v → Forall (λ m, body m.1 ∧ wf m.2) ms →
     (S (jsize v) + sum_list_with (λ m, S (jsize m.2)) ms ≤ n)%nat →
     parse_members n (dq :: k ++ dq :: ":" :: print v ++ print_mtail ms ++ "}" :: r)
     = Some ((k, v) :: ms, r)).
Proof.
  induction n as [|n (IHv & IHi & IHm)].
  { split_and!; [intros [] ? _ _; simpl; lia|simpl; lia..]. }
  split_and!.
  - intros v r Hv Hr Hn. destruct Hv as [|b|l Hl|b Hb|vs Hvs|ms Hms].
    + apply parse_val_lit; eauto.
    + apply parse_val_lit; eauto.
    + by apply parse_val_num.
    + by apply parse_val_str.
    + destruct Hvs as [|v vs Hv Hvs]; [done|]. simpl in Hn.
      rewrite print_arr, parse_val_arr.
      pose proof (print_head v Hv) as (c & t & Hc & Hws & Hne & _).
      assert (skip_ws (print v ++ print_tail vs ++ "]" :: r)
              = c :: t ++ print_tail vs ++ "]" :: r) as ->.
      { rewrite Hc. simpl. by rewrite Hws. }
      destruct (Ascii.eqb_spec c "]"); [done|].
      by rewrite IHi by (done || lia).
    + destruct Hms as [|[k v] ms [Hk Hv] Hms]; [done|]. simpl in Hn.
      rewrite print_obj, parse_val_obj. cbn [skip_ws is_ws].
      change (is_ws dq) with false. cbn iota. change (dq =? "}") with false. cbn iota.
      by rewrite IHm by (done || lia).
  - intros v vs r Hv Hvs Hn. cbn [parse_items].
    rewrite IHv; [|done| |lia]; [|by destruct Hvs].
    destruct Hvs as [|w vs Hw Hvs]; [done|]. simpl in Hn.
    rewrite print_tail_cons. simpl. by rewrite IHi by (done || lia).
  - intros k v ms r Hk Hv Hms Hn. rewrite parse_members_dq, scan_body by done.
    simpl. rewrite IHv; [|done| |lia]; [|by destruct Hms as [|[]]].
    destruct Hms as [|[k' w] ms [Hk' Hw] Hms]; [done|]. simpl in Hn, Hk', Hw.
    rewrite print_mtail_cons. simpl. by rewrite IHm by (done || lia).
Qed.

(** The text is at least as long as the fuel its tree needs. *)
Lemma jsize_print v : wf v → (jsize v ≤ List.length (print v))%nat.
Proof.
  induction v as [v IH] using (induction_ltof1 _ jsize). unfold ltof in IH.
  destruct 1 as [|[]|l Hl|b _|vs Hvs|ms Hms]; try (simpl; lia).
  - destruct (num_ok_head l Hl) as (c & t & -> & _). simpl; lia.
  - assert (∀ vs, Forall wf vs → Forall (λ w, wf w → jsize w ≤ List.length (print w))%nat vs →
      (sum_list_with (λ w, S (jsize w)) vs ≤ List.length (print_tail vs))%nat) as Ht.
    { clear. induction 1 as [|w vs Hw _ IH]; [simpl; lia|].
      intros (Hlw & Hl)%Forall_cons. specialize (IH Hl). specialize (Hlw Hw).
      rewrite <-(app_nil_r (print_tail (w :: vs))), print_tail_cons.
      simpl. rewrite !length_app. simpl. lia. }
    destruct Hvs as [|v vs Hv Hvs]; [simpl; lia|].
    rewrite <-(app_nil_r (print (JArr (v :: vs)))), print_arr.
    simpl. rewrite !length_app. simpl.
    pose proof (IH v ltac:(simpl; lia) Hv).
    enough (sum_list_with (λ w, S (jsize w)) vs ≤ List.length (print_tail vs))%nat by lia.
    apply Ht; [done|]. apply Forall_forall. intros w Hw _. apply IH.
    + pose proof (sum_list_with_in w (λ w, S (jsize w)) vs Hw). simpl in *. lia.
    + by eapply Forall_forall in Hw.
  - assert (∀ ms, Forall (λ m, body m.1 ∧ wf m.2) ms →
      Forall (λ m, wf m.2 → jsize m.2 ≤ List.length (print m.2))%nat ms →
      (sum_list_with (λ m, S (jsize m.2)) ms ≤ List.length (print_mtail ms))%nat) as Ht.
    { clear. induction 1 as [|[k w] ms [Hk Hw] _ IH]; [simpl; lia|].
      intros (Hlw & Hl)%Forall_cons. specialize (IH Hl). specialize (Hlw Hw).
      rewrite <-(app_nil_r (print_mtail ((k, w) :: ms))), print_mtail_cons.
      simpl in *. rewrite !length_app. simpl. rewrite !length_app. lia. }
    destruct Hms as [|[k v] ms [Hk Hv] Hms]; [simpl; lia|].
    rewrite <-(app_nil_r (print (JObj ((k, v) :: ms)))), print_obj.
    simpl. rewrite !length_app. simpl. rewrite !length_app. simpl in *.
    pose proof (IH v ltac:(simpl; lia) Hv).
    enough (sum_list_with (λ m, S (jsize m.2)) ms ≤ List.length (print_mtail ms))%nat by lia.
    apply Ht; [done|]. apply Forall_forall. intros w Hw _. apply IH.
    + pose proof (sum_list_with_in w (λ m, S (jsize m.2)) ms Hw). simpl in *. lia.
    + eapply Forall_forall in Hw; [|done]. apply Hw.
Qed.

(** A printed tree reads back as itself. *)
Lemma parse_print v : wf v → parse (print v) = Some v.
Proof.
  intros Hv. unfold parse. pose proof (jsize_print v Hv).
  pose proof (proj1 (parse_print_fuel (S (List.length (print v)))) v [] Hv I) as H1.
  rewrite app_nil_r in H1. rewrite H1 by lia. done.
Qed.

(** Fuel only matters by being enough: more of it gives the same answer. *)
Lemma parse_val_wf n :
  (∀ s v r, parse_val n s = Some (v, r) → wf v) ∧
  (∀ s vs r, parse_items n s = Some (vs, r) → Forall wf vs) ∧
  (∀ s ms r, parse_members n s = Some (ms, r) → Forall (λ m, body m.1 ∧ wf m.2) ms).
Proof.
  induction n as [|n (IHv & IHi & IHm)]; [by split_and!|].
  split_and!; intros s x r H; cbn [parse_val parse_items parse_members] in H.
  - destruct (skip_ws s) as [|c t]; [done|].
    repeat case_if_in H; case_bind H; simplify_eq; eauto with json.
    + constructor. by apply scan_str_body in E as [_ ?].
    + destruct (skip_ws t); [done|]. case_if_in H; [simplify_eq; eauto with json|].
      case_bind H. simplify_eq. constructor. eauto.
    + destruct (skip_ws t); [done|]. case_if_in H; [simplify_eq; eauto with json|].
      case_bind H. simplify_eq. constructor. eauto.
    + constructor. by eapply scan_num_ok.
  - case_bind H. destruct (skip_ws _) as [|c t]; [done|].
    case_if_in H; [|case_if_in H; simplify_eq; eauto].
    case_bind H. simplify_eq. eauto.
  - destruct (skip_ws s) as [|q t]; [done|]. case_if_in H; [|done].
    case_bind H. apply scan_str_body in E as [_ Hk].
    destruct (skip_ws _) as [|c t1]; [done|]. case_if_in H; [|done].
    case_bind H. apply IHv in E. destruct (skip_ws _) as [|d t2]; [done|].
    case_if_in H; [|case_if_in H; simplify_eq; eauto].
    case_bind H. simplify_eq. eauto.
Qed.

Lemma parse_wf s v : parse s = Some v → wf v.
Proof.
  unfold parse. intros H. case_bind H.
  destruct (skip_ws _); simplify_eq. by apply (proj1 (parse_val_wf _)) in E.
Qed.

(** ** The parser's fuel

    Every node of a tree takes at least one byte of text, and the parser needs
    one unit of fuel per node, so the length of the text is always enough. *)

Lemma skip_ws_len s : (List.length (skip_ws s) ≤ List.length s)%nat.
Proof. induction s as [|c s IH]; simpl; [lia|]. destruct (is_ws c); simpl; lia. Qed.

Lemma scan_str_len s b r : scan_str s = Some (b, r) → (List.length r < List.length s)%nat.
Proof. intros [-> _]%scan_str_body. rewrite length_app. simpl. lia. Qed.

Lemma span_digits_len s d t :
  span_digits s = (d, t) → (List.length t ≤ List.length s)%nat.
Proof.
  revert d t. induction s as [|c s IH]; intros d t H; simpl in *; simplify_eq/=; [lia|].
  destruct (is_digit c); [|by simplify_eq/=].
  destruct (span_digits s) as [d' t']. simplify_eq/=. specialize (IH _ _ eq_refl). lia.
Qed.

Lemma scan_unsigned_len s l r :
  scan_unsigned s = Some (l, r) → (List.length r < List.length s)%nat.
Proof.
  unfold scan_unsigned. intros H.
  destruct (scan_int s) as [[i s2]|] eqn:Ei; [|done]. simpl in H.
  destruct (scan_frac s2) as [[f s3]|] eqn:Ef; [|done]. simpl in H.
  destruct (scan_exp s3) as [[e s4]|] eqn:Ee; [|done]. simplify_eq/=.
  assert (List.length s2 < List.length s)%nat.
  { destruct s as [|c s]; [done|]. unfold scan_int in Ei.
    destruct (c =? "0"); [simplify_eq/=; lia|]. destruct (is_digit c); [|done].
    destruct (span_digits s) eqn:E. apply span_digits_len in E. simplify_eq/=. lia. }
  assert (List.length s3 ≤ List.length s2)%nat.
  { destruct s2 as [|c s2]; simpl in Ef; [by simplify_eq|].
    destruct (c =? "."); [|by simplify_eq].
    destruct (span_digits s2) as [[|]] eqn:E; [done|]. apply span_digits_len in E.
    simplify_eq/=. lia. }
  assert (List.length r ≤ List.length s3)%nat; [|lia].
  destruct s3 as [|c s3]; simpl in Ee; [by simplify_eq|].
  destruct ((c =? "e") || (c =? "E")); [|by simplify_eq].
  destruct (scan_sign s3) as [sg s5] eqn:Es.
  destruct (span_digits s5) as [[|]] eqn:E; [done|]. apply span_digits_len in E.
  assert (List.length s5 ≤ List.length s3)%nat; [|simplify_eq/=; lia].
  destruct s3; unfold scan_sign in Es; [by simplify_eq|].
  case_if_in Es; simplify_eq/=; lia.
Qed.

Lemma scan_num_len s l r : scan_num s = Some (l, r) → (List.length r < List.length s)%nat.
Proof.
  destruct s as [|c s]; [done|]. unfold scan_num. destruct (c =? "-").
  - destruct (scan_unsigned s) as [[]|] eqn:E; intros; simplify_eq/=.
    apply scan_unsigned_len in E. lia.
  - apply scan_unsigned_len.
Qed.

Lemma scan_lit_len w s r : scan_lit w s = Some r → (List.length r ≤ List.length s)%nat.
Proof.
  revert s. induction w as [|a w IH]; intros s H; simpl in H; [by simplify_eq|].
  destruct s as [|b s]; [done|]. destruct (a =? b); [|done].
  apply IH in H. simpl. lia.
Qed.

Lemma parse_fuel n :
  (∀ s v r, parse_val n s = Some (v, r) →
     (List.length r + jsize v ≤ List.length s)%nat ∧
     ∀ m, (jsize v ≤ m)%nat → parse_val m s = Some (v, r)) ∧
  (∀ s vs r, parse_items n s = Some (vs, r) →
     (List.length r + sum_list_with (λ w, S (jsize w)) vs ≤ List.length s)%nat ∧
     ∀ m, (sum_list_with (λ w, S (jsize w)) vs ≤ m)%nat →
       parse_items m s = Some (vs, r)) ∧
  (∀ s ms r, parse_members n s = Some (ms, r) →
     (List.length r + sum_list_with (λ w, S (jsize w.2)) ms ≤ List.length s)%nat ∧
     ∀ m, (sum_list_with (λ w, S (jsize w.2)) ms ≤ m)%nat →
       parse_members m s = Some (ms, r)).
Proof.
  induction n as [|n (IHv & IHi & IHm)]; [by split_and!|].
  split_and!; intros s x r H; cbn [parse_val parse_items parse_members] in H.
  - pose proof (skip_ws_len s) as Hlen.
    assert (∀ m, (jsize x ≤ m)%nat → ∃ m', m = S m') as Hm.
    { intros m Hx. destruct m; [destruct x; simpl in Hx; lia|eauto]. }
    destruct (skip_ws s) as [|c t] eqn:Es; [done|]. simpl in Hlen.
    destruct (c =? dq) eqn:E1.
    { case_bind H. simplify_eq. apply scan_str_len in E as Hl. simpl. split; [lia|].
      intros m [m' ->]%Hm. cbn [parse_val]. by rewrite Es, E1, E. }
    destruct (c =? "[") eqn:E2.
    { pose proof (skip_ws_len t). destruct (skip_ws t) as [|d t'] eqn:Et; [done|].
      destruct (d =? "]") eqn:E3.
      { simplify_eq/=. split; [lia|]. intros m [m' ->]%Hm. cbn [parse_val].
        by rewrite Es, E1, E2, Et, E3. }
      case_bind H. simplify_eq. apply IHi in E as [Hl Hf]. simpl in *. split; [lia|].
      intros m Hle. destruct (Hm _ Hle) as [m' ->]. cbn [parse_val].
      by rewrite Es, E1, E2, Et, E3, Hf by lia. }
    destruct (c =? "{") eqn:E4.
    { pose proof (skip_ws_len t). destruct (skip_ws t) as [|d t'] eqn:Et; [done|].
      destruct (d =? "}") eqn:E3.
      { simplify_eq/=. split; [lia|]. intros m [m' ->]%Hm. cbn [parse_val].
        by rewrite Es, E1, E2, E4, Et, E3. }
      case_bind H. simplify_eq. apply IHm in E as [Hl Hf]. simpl in *. split; [lia|].
      intros m Hle. destruct (Hm _ Hle) as [m' ->]. cbn [parse_val].
      by rewrite Es, E1, E2, E4, Et, E3, Hf by lia. }
    split.
    + assert (∀ w v, (t' ← scan_lit w t; Some (v, t')) = Some (x, r) → jsize v = 1%nat →
        (List.length r + jsize x ≤ List.length s)%nat) as Hlit.
      { intros w v Hv Hsz. destruct (scan_lit w t) eqn:E; [|done]. apply scan_lit_len in E.
        simplify_eq/=. rewrite Hsz. lia. }
      destruct (c =? "t"); [by eapply Hlit|]. destruct (c =? "f"); [by eapply Hlit|].
      destruct (c =? "n"); [by eapply Hlit|].
      destruct (scan_num (c :: t)) as [[]|] eqn:E; [|done].
      apply scan_num_len in E. simplify_eq/=. lia.
    + intros m [m' ->]%Hm. cbn [parse_val]. by rewrite Es, E1, E2, E4.
  - destruct (parse_val n s) as [[v rest]|] eqn:E; [|done]. apply IHv in E as [Hl Hf].
    cbn [mbind option_bind] in H. pose proof (skip_ws_len rest).
    destruct (skip_ws rest) as [|c t] eqn:Es; [done|]. simpl in *.
    destruct (c =? ",") eqn:E1.
    + destruct (parse_items n t) as [[vs t']|] eqn:E; [|done]. simplify_eq/=.
      apply IHi in E as [Hl' Hf']. split; [lia|].
      intros [|m] Hle; [lia|]. cbn [parse_items]. rewrite Hf by lia. simpl.
      by rewrite Es, E1, Hf' by lia.
    + destruct (c =? "]") eqn:E2; [|done]. simplify_eq/=. split; [lia|].
      intros [|m] Hle; [lia|]. cbn [parse_items]. rewrite Hf by lia. simpl.
      by rewrite Es, E1, E2.
  - pose proof (skip_ws_len s). destruct (skip_ws s) as [|q t] eqn:E0; [done|].
    destruct (q =? dq) eqn:E1; [|done].
    destruct (scan_str t) as [[k t0]|] eqn:E; [|done]. cbn [mbind option_bind] in H.
    pose proof (scan_str_len _ _ _ E) as Hstr. pose proof (skip_ws_len t0).
    destruct (skip_ws t0) as [|c t1] eqn:E2; [done|].
    destruct (c =? ":") eqn:E3; [|done].
    destruct (parse_val n t1) as [[v rest]|] eqn:E4; [|done]. apply IHv in E4 as [Hl Hf].
    cbn [mbind option_bind] in H. pose proof (skip_ws_len rest).
    destruct (skip_ws rest) as [|d t2] eqn:E5; [done|]. simpl in *.
    destruct (d =? ",") eqn:E6.
    + destruct (parse_members n t2) as [[ms t']|] eqn:E7; [|done]. simplify_eq/=.
      apply IHm in E7 as [Hl' Hf']. split; [lia|].
      intros [|m] Hle; [lia|]. cbn [parse_members]. rewrite E0, E1, E. simpl.
      rewrite E2, E3, Hf by lia. simpl. by rewrite E5, E6, Hf' by lia.
    + destruct (d =? "}") eqn:E7; [|done]. simplify_eq/=. split; [lia|].
      intros [|m] Hle; [lia|]. cbn [parse_members]. rewrite E0, E1, E. simpl.
      rewrite E2, E3, Hf by lia. simpl. by rewrite E5, E6, E7.
Qed.

(** Whatever fuel reads a value, [parse]'s fuel reads it too. *)
Lemma parse_complete n s v r :
  parse_val n s = Some (v, r) → skip_ws r = [] → parse s = Some v.
Proof.
  intros H Hr. apply (parse_fuel n) in H as [Hl Hf]. unfold parse.
  rewrite Hf by lia. simpl. by rewrite Hr.
Qed.

(** ** Longer texts

    What was read of a text is read of every longer one; a number at the very
    end is the exception, more digits may follow. So no proper prefix of an
    object's text is JSON. *)

Lemma skip_ws_app s c r t : skip_ws s = c :: r → skip_ws (s ++ t) = c :: r ++ t.
Proof.
  induction s as [|d s IH]; simpl; [done|]. destruct (is_ws d); [done|]. by intros [= -> ->].
Qed.

Lemma scan_str_app s b r t : scan_str s = Some (b, r) → scan_str (s ++ t) = Some (b, r ++ t).
Proof. intros [-> Hb]%scan_str_body. rewrite <-app_assoc. simpl. by rewrite scan_body. Qed.

Lemma scan_lit_app w s r t : scan_lit w s = Some r → scan_lit w (s ++ t) = Some (r ++ t).
Proof.
  revert s. induction w as [|a w IH]; intros s H; simpl in *; [by simplify_eq|].
  destruct s as [|b s]; [done|]. simpl. destruct (a =? b); [by apply IH|done].
Qed.

Definition is_num (v : json) : bool := match v with JNum _ => true | _ => false end.

Lemma parse_app n :
  (∀ s v r t, parse_val n s = Some (v, r) → (r = [] → is_num v = true → delim t) →
     parse_val n (s ++ t) = Some (v, r ++ t)) ∧
  (∀ s vs r t, parse_items n s = Some (vs, r) → parse_items n (s ++ t) = Some (vs, r ++ t)) ∧
  (∀ s ms r t, parse_members n s = Some (ms, r) → parse_members n (s ++ t) = Some (ms, r ++ t)).
Proof.
  induction n as [|n (IHv & IHi & IHm)]; [by split_and!|].
  split_and!; intros s x r t H; cbn [parse_val parse_items parse_members] in H |- *.
  - intros Hd. destruct (skip_ws s) as [|c s'] eqn:Es; [done|]. rewrite (skip_ws_app _ _ _ t Es).
    destruct (c =? dq).
    { case_bind H. simplify_eq. by rewrite (scan_str_app _ _ _ t E). }
    destruct (c =? "[").
    { destruct (skip_ws s') as [|d s2] eqn:E2; [done|]. rewrite (skip_ws_app _ _ _ t E2).
      destruct (d =? "]"); [by simplify_eq|]. case_bind H. simplify_eq. by rewrite (IHi _ _ _ t E). }
    destruct (c =? "{").
    { destruct (skip_ws s') as [|d s2] eqn:E2; [done|]. rewrite (skip_ws_app _ _ _ t E2).
      destruct (d =? "}"); [by simplify_eq|]. case_bind H. simplify_eq. by rewrite (IHm _ _ _ t E). }
    destruct (c =? "t"); [case_bind H; simplify_eq; by rewrite (scan_lit_app _ _ _ t E)|].
    destruct (c =? "f"); [case_bind H; simplify_eq; by rewrite (scan_lit_app _ _ _ t E)|].
    destruct (c =? "n"); [case_bind H; simplify_eq; by rewrite (scan_lit_app _ _ _ t E)|].
    destruct (scan_num (c :: s')) as [[l s2]|] eqn:E; [|done]. cbn in H. simplify_eq.
    change (c :: s' ++ t) with ((c :: s') ++ t).
    by rewrite (scan_num_app (c :: s') l r t E) by (intros; by apply Hd).
  - destruct (parse_val n s) as [[v s']|] eqn:Ev; [|done]. cbn in H.
    destruct (skip_ws s') as [|c s2] eqn:Es; [done|].
    rewrite (IHv _ _ _ t Ev) by (intros -> _; done). cbn. rewrite (skip_ws_app _ _ _ t Es).
    destruct (c =? ","); [case_bind H; simplify_eq; by rewrite (IHi _ _ _ t E)|].
    destruct (c =? "]"); by simplify_eq.
  - destruct (skip_ws s) as [|q s'] eqn:Es; [done|]. rewrite (skip_ws_app _ _ _ t Es).
    destruct (q =? dq); [|done]. destruct (scan_str s') as [[k s2]|] eqn:Ek; [|done]. cbn in H.
    rewrite (scan_str_app _ _ _ t Ek). cbn.
    destruct (skip_ws s2) as [|c s3] eqn:E2; [done|]. rewrite (skip_ws_app _ _ _ t E2).
    destruct (c =? ":"); [|done]. destruct (parse_val n s3) as [[v s4]|] eqn:Ev; [|done]. cbn in H.
    destruct (skip_ws s4) as [|d s5] eqn:E4; [done|].
    rewrite (IHv _ _ _ t Ev) by (intros -> _; done). cbn. rewrite (skip_ws_app _ _ _ t E4).
    destruct (d =? ","); [case_bind H; simplify_eq; by rewrite (IHm _ _ _ t E)|].
    destruct (d =? "}"); by simplify_eq.
Qed.

Lemma parse_prefix_obj ms p t :
  wf (JObj ms) → print (JObj ms) = p ++ t → t ≠ [] → parse p = None.
Proof.
  intros Hwf Hp Ht. destruct (parse p) as [v|] eqn:E; [|done]. exfalso. apply Ht.
  unfold parse in E. destruct (parse_val _ p) as [[v' r]|] eqn:Ep; [|done]. cbn in E.
  assert (is_num v' = false) as Hv.
  { destruct p as [|c p]; [done|]. assert (c = "{") as ->.
    { destruct ms as [|[k w] ms]; by injection Hp. }
    cbn in Ep. destruct (skip_ws p) as [|d p']; [done|].
    destruct (d =? "}"); [by simplify_eq|]. case_bind Ep. by simplify_eq. }
  apply (proj1 (parse_app _)) with (t := t) in Ep; [|by rewrite Hv].
  apply parse_fuel in Ep as [_ Hf]. specialize (Hf (jsize v' + jsize (JObj ms))%nat).
  rewrite <-Hp in Hf.
  pose proof (proj1 (parse_print_fuel (jsize v' + jsize (JObj ms))) (JObj ms) [] Hwf I) as Hfull.
  rewrite app_nil_r in Hfull. rewrite Hfull in Hf by lia.
  specialize (Hf ltac:(lia)). injection Hf as _ Hf. symmetry in Hf. by apply app_nil in Hf as [_ ?].
Qed.

(** ** The bytes of a printed tree: no control characters *)

(** The bytes of a number literal. *)
Definition num_lit (c : ascii) : bool :=
  is_digit c || (c =? ".") || (c =? "e") || (c =? "E") || (c =? "+") || (c =? "-").

Lemma span_digits_digits s d t : span_digits s = (d, t) → Forall (λ c, is_digit c = true) d.
Proof.
  revert d t. induction s as [|c s IH]; intros d t H; simpl in H; [by simplify_eq; constructor|].
  destruct (is_digit c) eqn:E; [|by simplify_eq; constructor].
  destruct (span_digits s) as [d' t'] eqn:E'. simplify_eq. constructor; [done|]. by eapply IH.
Qed.

Lemma digits_lit d : Forall (λ c, is_digit c = true) d → Forall (λ c, num_lit c = true) d.
Proof. apply List.Forall_impl. intros c Hc. unfold num_lit. by rewrite Hc. Qed.

Lemma num_chars l : num_ok l → Forall (λ c, num_lit c = true) l.
Proof.
  unfold num_ok. generalize (@nil ascii) at 1. intros t.
  assert (∀ s l t, scan_unsigned s = Some (l, t) → Forall (λ c, num_lit c = true) l) as Hu.
  { clear. intros s l t H. unfold scan_unsigned in H.
    destruct (scan_int s) as [[i s2]|] eqn:Ei; [|discriminate]; simpl in H.
    destruct (scan_frac s2) as [[f s3]|] eqn:Ef; [|discriminate]; simpl in H.
    destruct (scan_exp s3) as [[e s4]|] eqn:Ee; [|discriminate]; simplify_eq/=.
    rewrite !Forall_app. split_and!.
    - unfold scan_int in Ei. destruct s as [|c s]; [done|].
      destruct (Ascii.eqb_spec c "0") as [->|]; [simplify_eq; by repeat constructor|].
      destruct (is_digit c) eqn:Ec; [|done]. destruct (span_digits s) as [d t'] eqn:E. simplify_eq.
      apply digits_lit. constructor; [done|]. by eapply span_digits_digits.
    - unfold scan_frac in Ef. destruct s2 as [|c s2]; [simplify_eq; constructor|].
      destruct (Ascii.eqb_spec c ".") as [->|]; [|simplify_eq; constructor].
      destruct (span_digits s2) as [[|x d] t'] eqn:E; [done|]. simplify_eq.
      constructor; [done|]. apply digits_lit. by eapply span_digits_digits.
    - unfold scan_exp in Ee. destruct s3 as [|c s3]; [simplify_eq; constructor|].
      destruct (_ || _) eqn:Ec; [|simplify_eq; constructor].
      destruct (scan_sign s3) as [sg s5] eqn:Es.
      destruct (span_digits s5) as [[|x d] t'] eqn:E; [done|]. simplify_eq.
      constructor; [by apply orb_true_iff in Ec as [->%Ascii.eqb_eq| ->%Ascii.eqb_eq]|].
      apply Forall_app. split; [|apply digits_lit; by eapply span_digits_digits].
      unfold scan_sign in Es. destruct s3 as [|y s3]; [simplify_eq; constructor|].
      clear Ec; destruct (_ || _) eqn:Ey; simplify_eq; [|constructor]. constructor; [|constructor].
      by apply orb_true_iff in Ey as [->%Ascii.eqb_eq| ->%Ascii.eqb_eq]. }
  unfold scan_num. destruct l as [|c s]; [discriminate|]. intros H.
  destruct (Ascii.eqb_spec c "-") as [->|].
  - destruct (scan_unsigned s) as [[l' t']|] eqn:E; [|done]. simpl in H. simplify_eq.
    constructor; [done|]. by eapply Hu.
  - by eapply Hu.
Qed.

Definition printable (c : ascii) : Prop := (32 ≤ code c)%N.

Ltac printable_char := constructor; [by (vm_compute; congruence)|].

Lemma body_printable b : body b → Forall printable b.
Proof.
  induction 1 as [|c b _ _ Hc _ IH|e b He _ IH|h1 h2 h3 h4 b E1 E2 E3 E4 _ IH]; [done|by constructor|..].
  - printable_char. constructor; [|done]. revert He. clear.
    destruct e as [[] [] [] [] [] [] [] []]; vm_compute; congruence.
  - assert (∀ h, is_hex h = true → printable h) as Hh.
    { intros h. destruct h as [[] [] [] [] [] [] [] []]; vm_compute; congruence. }
    do 2 printable_char. do 4 (constructor; [by apply Hh|]). done.
Qed.

Lemma jsize_ind (P : json → Prop) :
  (∀ v, (∀ w, (∃ vs, v = JArr vs ∧ w ∈ vs) ∨ (∃ k ms, v = JObj ms ∧ (k, w) ∈ ms) → P w) → P v) →
  ∀ v, P v.
Proof.
  intros H v. induction v as [v IH] using (induction_ltof1 _ jsize).
  apply H. intros w Hw. apply IH. unfold ltof.
  destruct Hw as [(vs & -> & Hw)|(k & ms & -> & Hw)].
  - pose proof (sum_list_with_in w (λ w, S (jsize w)) vs Hw). simpl in *. lia.
  - pose proof (sum_list_with_in (k, w) (λ m, S (jsize m.2)) ms Hw). simpl in *. lia.
Qed.

Lemma mjoin_printable {T : Type} (f : T → bytes) l :
  (∀ x, x ∈ l → Forall printable (f x)) → Forall printable (mjoin (f <$> l)).
Proof.
  induction l as [|x l IH]; intros H; [done|]. rewrite fmap_cons, join_cons.
  apply Forall_app. split; [apply H; by left|]. apply IH. intros y Hy. apply H. by right.
Qed.

Lemma print_printable v : wf v → Forall printable (print v).
Proof.
  induction v as [v IH] using jsize_ind. intros Hwf.
  destruct Hwf as [|[]|l Hl|b Hb|vs Hvs|ms Hms];
    try by (repeat printable_char; constructor).
  - apply num_chars in Hl. eapply List.Forall_impl; [|exact Hl].
    intros c. destruct c as [[] [] [] [] [] [] [] []]; vm_compute; congruence.
  - change (print (JStr b)) with (dq :: b ++ [dq]). printable_char.
    apply Forall_app. split; [by apply body_printable|by printable_char].
  - rewrite Forall_forall in Hvs.
    assert (∀ w, w ∈ vs → Forall printable (print w)) as Hw by (intros w ?; apply IH; [left; eauto|by apply Hvs]).
    destruct vs as [|w vs]; [by repeat printable_char|].
    rewrite <-(app_nil_r (print _)), print_arr. printable_char.
    rewrite !Forall_app. split_and!; [apply Hw; by left| |by printable_char].
    apply (mjoin_printable (λ w, "," :: print w)). intros x Hx. printable_char.
    apply Hw. by right.
  - rewrite Forall_forall in Hms.
    assert (∀ k w, (k, w) ∈ ms → Forall printable k ∧ Forall printable (print w)) as Hw.
    { intros k w Hkw. destruct (Hms _ Hkw) as [Hk Hwf]. split; [by apply body_printable|].
      apply IH; [right; eauto|done]. }
    destruct ms as [|[k w] ms]; [by repeat printable_char|].
    destruct (Hw k w) as [Hk Hp]; [by left|].
    rewrite <-(app_nil_r (print _)), print_obj. do 2 printable_char.
    rewrite Forall_app. split; [done|]. do 2 printable_char.
    rewrite !Forall_app. split_and!; [done| |by printable_char].
    apply (mjoin_printable (λ '(k, w), "," :: dq :: k ++ dq :: ":" :: print w)). intros [k' w'] Hx.
    destruct (Hw k' w') as [Hk' Hp']; [by right|].
    do 2 printable_char. apply Forall_app. split; [done|].
    do 2 printable_char. done.
Qed.
