(* ===== verification/GoText.v ===== *)
(** Go strings inside JSON: UTF-8 sequences, string quoting and unquoting as
    [encoding/json] does them, the HTML-safe compaction [json.Marshal] applies
    to a [json.RawMessage], and decimal integers. *)
From S2P Require Import Prelude Json.
From Stdlib Require Import DecimalN.
#[local] Open Scope char_scope.
#[local] Infix "=?" := Ascii.eqb : char_scope.

(** ** UTF-8 *)

Definition in_range (lo hi : N) (c : ascii) : bool :=
  (lo <=? code c)%N && (code c <=? hi)%N.

(** The length of the UTF-8 sequence a text starts with, 0 when it does not
    start with a valid one ([utf8.DecodeRune]). *)
Definition utf8_len (s : bytes) : nat :=
  match s with
  | [] => 0
  | c :: r =>
    let n := code c in
    let tail2 lo hi := match r with
                       | a :: _ => if in_range lo hi a then 2%nat else 0%nat
                       | _ => 0%nat end in
    let tail3 lo hi := match r with
                       | a :: b :: _ =>
                           if in_range lo hi a && in_range 128 191 b then 3%nat else 0%nat
                       | _ => 0%nat end in
    let tail4 lo hi := match r with
                       | a :: b :: d :: _ =>
                           if in_range lo hi a && in_range 128 191 b && in_range 128 191 d
                           then 4%nat else 0%nat
                       | _ => 0%nat end in
    (if n <=? 127 then 1%nat
     else if n <=? 193 then 0%nat
     else if n <=? 223 then tail2 128 191
     else if n =? 224 then tail3 160 191
     else if n =? 237 then tail3 128 159
     else if n <=? 239 then tail3 128 191
     else if n =? 240 then tail4 144 191
     else if n <=? 243 then tail4 128 191
     else if n =? 244 then tail4 128 143
     else 0%nat)%N
  end.

(** Valid UTF-8 text. *)
Inductive utf8 : bytes → Prop :=
| utf8_nil : utf8 []
| utf8_seq s r : utf8_len s = List.length s → s ≠ [] → utf8 r → utf8 (s ++ r).

(** The UTF-8 bytes of a code point ([utf8.AppendRune]); the callers pass
    code points that are not surrogates. *)
Definition utf8_enc (r : N) : bytes :=
  (let byte n := ascii_of_N n in
   if r <=? 127 then [byte r]
   else if r <=? 2047 then [byte (192 + r / 64); byte (128 + r mod 64)]
   else if r <=? 65535 then
     [byte (224 + r / 4096); byte (128 + r / 64 mod 64); byte (128 + r mod 64)]
   else [byte (240 + r / 262144); byte (128 + r / 4096 mod 64);
         byte (128 + r / 64 mod 64); byte (128 + r mod 64)])%N.

Definition rune_error : bytes := utf8_enc 65533.

(** ** Quoting *)

Definition hex_digit (n : N) : ascii :=
  (if n <? 10 then ascii_of_N (48 + n) else ascii_of_N (87 + n))%N.

(** [\u00XX] for one byte. *)
Definition esc_u00 (c : ascii) : bytes :=
  [bsl; "u"; "0"; "0"; hex_digit (code c / 16); hex_digit (code c mod 16)].

(** The escape of an ASCII byte with HTML escaping on; [None] when the byte
    is copied. *)
Definition esc_ascii (c : ascii) : option bytes :=
  if (c =? dq) || (c =? bsl) then Some [bsl; c]
  else if c =? "008" then Some [bsl; "b"]
  else if c =? "012" then Some [bsl; "f"]
  else if c =? "010" then Some [bsl; "n"]
  else if c =? "013" then Some [bsl; "r"]
  else if c =? "009" then Some [bsl; "t"]
  else if (code c <? 32)%N || (c =? "<") || (c =? ">") || (c =? "&") then Some (esc_u00 c)
  else None.

(** U+2028 and U+2029 are written as escapes; the value is the last digit. *)
Definition line_sep (s : bytes) : option ascii :=
  match s with
  | a :: b :: c :: _ =>
      if (a =? "226") && (b =? "128") then
        if c =? "168" then Some "8" else if c =? "169" then Some "9" else None
      else None
  | _ => None
  end.

Definition esc_line_sep (d : ascii) : bytes := [bsl; "u"; "2"; "0"; "2"; d].

(** What the first sequence of a text becomes: how many bytes are read and
    what is written ([appendString] of encoding/json). *)
Definition quote_step (s : bytes) : nat * bytes :=
  match s with
  | [] => (0%nat, [])
  | c :: _ =>
      if (code c <? 128)%N then (1%nat, default [c] (esc_ascii c))
      else match utf8_len s with
           | O => (1%nat, s2b "\ufffd")
           | n => (n, match line_sep s with Some d => esc_line_sep d | None => take n s end)
           end
  end.

(** The quoted body of a string; [k] counts the bytes already accounted for. *)
Fixpoint quote_from (k : nat) (s : bytes) : bytes :=
  match s with
  | [] => []
  | c :: r => match k with
              | S k' => quote_from k' r
              | O => let '(n, out) := quote_step s in out ++ quote_from (n - 1) r
              end
  end.

Definition quote (s : bytes) : bytes := quote_from 0 s.

(** ** Unquoting *)

Definition hex4 (a b c d : ascii) : N :=
  let h x := default 0%N (hex_val x) in
  (h a * 4096 + h b * 256 + h c * 16 + h d)%N.

Definition is_surrogate (n : N) : bool := (55296 <=? n)%N && (n <=? 57343)%N.

(** [utf16.DecodeRune]: [None] for a replacement character. *)
Definition utf16_decode (hi lo : N) : option N :=
  (if (55296 <=? hi) && (hi <=? 56319) && (56320 <=? lo) && (lo <=? 57343)
   then Some ((hi - 55296) * 1024 + (lo - 56320) + 65536) else None)%N.

Definition unesc (e : ascii) : ascii :=
  if e =? "b" then "008" else if e =? "f" then "012" else if e =? "n" then "010"
  else if e =? "r" then "013" else if e =? "t" then "009" else e.

(** The decoded text of a string body ([unquoteBytes]); [k] counts bytes of a
    sequence that are still to be copied. *)
Fixpoint unquote_from (k : nat) (s : bytes) : bytes :=
  match s with
  | [] => []
  | c :: r =>
    match k with
    | S k' => c :: unquote_from k' r
    | O =>
      if c =? bsl then
        match r with
        | e :: r1 =>
          if e =? "u" then
            match r1 with
            | a :: b :: c1 :: d :: r2 =>
              let v := hex4 a b c1 d in
              if is_surrogate v then
                match r2 with
                | x :: y :: a' :: b' :: c' :: d' :: r3 =>
                  if (x =? bsl) && (y =? "u") then
                    match utf16_decode v (hex4 a' b' c' d') with
                    | Some rune => utf8_enc rune ++ unquote_from 0 r3
                    | None => rune_error ++ unquote_from 0 r2
                    end
                  else rune_error ++ unquote_from 0 r2
                | _ => rune_error ++ unquote_from 0 r2
                end
              else utf8_enc v ++ unquote_from 0 r2
            | _ => []
            end
          else unesc e :: unquote_from 0 r1
        | [] => []
        end
      else if (code c <? 128)%N then c :: unquote_from 0 r
      else match utf8_len s with
           | O => rune_error ++ unquote_from 0 r
           | n => c :: unquote_from (n - 1) r
           end
    end
  end.

Definition unquote (s : bytes) : bytes := unquote_from 0 s.

(** ** HTML-safe compaction of raw JSON *)

Fixpoint html_esc (s : bytes) : bytes :=
  match s with
  | [] => []
  | c :: r =>
      if (c =? "<") || (c =? ">") || (c =? "&") then esc_u00 c ++ html_esc r
      else match r with
           | _ :: _ :: r2 =>
               match line_sep s with
               | Some d => esc_line_sep d ++ html_esc r2
               | None => c :: html_esc r
               end
           | _ => c :: html_esc r
           end
  end.

Fixpoint html_tree (v : json) : json :=
  match v with
  | JStr b => JStr (html_esc b)
  | JArr vs => JArr (html_tree <$> vs)
  | JObj ms => JObj ((λ '(k, w), (html_esc k, html_tree w)) <$> ms)
  | _ => v
  end.

(** [json.RawMessage] inside a marshalled value: compacted, HTML-escaped. *)
Definition compact (raw : bytes) : option bytes := print ∘ html_tree <$> parse raw.

(** ** Decimal integers *)

Fixpoint uint_bytes (d : Decimal.uint) : bytes :=
  match d with
  | Decimal.Nil => []
  | Decimal.D0 d => "0" :: uint_bytes d | Decimal.D1 d => "1" :: uint_bytes d
  | Decimal.D2 d => "2" :: uint_bytes d | Decimal.D3 d => "3" :: uint_bytes d
  | Decimal.D4 d => "4" :: uint_bytes d | Decimal.D5 d => "5" :: uint_bytes d
  | Decimal.D6 d => "6" :: uint_bytes d | Decimal.D7 d => "7" :: uint_bytes d
  | Decimal.D8 d => "8" :: uint_bytes d | Decimal.D9 d => "9" :: uint_bytes d
  end.

Definition digit_cons (c : ascii) (d : Decimal.uint) : option Decimal.uint :=
  match (code c - 48)%N with
  | 0 => Some (Decimal.D0 d) | 1 => Some (Decimal.D1 d) | 2 => Some (Decimal.D2 d)
  | 3 => Some (Decimal.D3 d) | 4 => Some (Decimal.D4 d) | 5 => Some (Decimal.D5 d)
  | 6 => Some (Decimal.D6 d) | 7 => Some (Decimal.D7 d) | 8 => Some (Decimal.D8 d)
  | 9 => Some (Decimal.D9 d) | _ => None
  end%N.

Fixpoint bytes_uint (s : bytes) : option Decimal.uint :=
  match s with
  | [] => Some Decimal.Nil
  | c :: r => if is_digit c then d ← bytes_uint r; digit_cons c d else None
  end.

(** [strconv.FormatInt(z, 10)]. *)
Definition dec (z : Z) : bytes :=
  if (z <? 0)%Z then "-" :: uint_bytes (N.to_uint (Z.to_N (- z)))
  else uint_bytes (N.to_uint (Z.to_N z)).

(** [strconv.ParseUint(s, 10, 64)]. *)
Definition parse_uint64 (s : bytes) : option Z :=
  match s with
  | [] => None
  | _ => d ← bytes_uint s;
         let n := Z.of_N (N.of_uint d) in
         if (n <? two64)%Z then Some n else None
  end.

(** ** Facts about decimals *)

Lemma bytes_uint_bytes d : bytes_uint (uint_bytes d) = Some d.
Proof. induction d; simpl; [done|..]; rewrite IHd; done. Qed.

Lemma to_uint_unorm n : Decimal.unorm (N.to_uint n) = N.to_uint n.
Proof. by rewrite <-DecimalN.Unsigned.to_of, DecimalN.Unsigned.of_to. Qed.

Lemma to_uint_nonnil n : N.to_uint n ≠ Decimal.Nil.
Proof. intros E. pose proof (to_uint_unorm n) as H. by rewrite E in H. Qed.

Lemma parse_uint64_dec z : (0 ≤ z < two64)%Z → parse_uint64 (dec z) = Some z.
Proof.
  intros Hz. unfold dec, parse_uint64.
  destruct (Z.ltb_spec z 0); [lia|]. rewrite bytes_uint_bytes. simpl.
  rewrite DecimalN.Unsigned.of_to, Z2N.id by lia.
  destruct (Z.ltb_spec z two64); [|lia].
  destruct (uint_bytes _) eqn:E; [|done].
  destruct (N.to_uint (Z.to_N z)) eqn:E'; simplify_eq/=.
  by destruct (to_uint_nonnil (Z.to_N z)).
Qed.

Lemma span_digits_uint d : span_digits (uint_bytes d) = (uint_bytes d, []).
Proof. induction d; simpl; [done|..]; rewrite IHd; done. Qed.

Lemma scan_unsigned_uint n : scan_unsigned (uint_bytes (N.to_uint n))
  = Some (uint_bytes (N.to_uint n), []).
Proof.
  assert (scan_int (uint_bytes (N.to_uint n)) = Some (uint_bytes (N.to_uint n), [])) as Hi.
  { pose proof (to_uint_unorm n) as Hu. pose proof (to_uint_nonnil n).
    destruct (N.to_uint n) as [|d|d|d|d|d|d|d|d|d|d]; [done| |
      simpl; by rewrite span_digits_uint..].
    unfold Decimal.unorm in Hu. simpl in Hu.
    destruct (Decimal.nzhead d) eqn:E; simplify_eq; [done|].
    by destruct (DecimalFacts.nzhead_nonzero d d). }
  unfold scan_unsigned. rewrite Hi. simpl. by rewrite !app_nil_r.
Qed.

Lemma num_ok_dec z : num_ok (dec z).
Proof.
  unfold num_ok, dec, scan_num. destruct (z <? 0)%Z.
  - simpl. by rewrite scan_unsigned_uint.
  - pose proof (scan_unsigned_uint (Z.to_N z)) as H.
    destruct (uint_bytes _) as [|c r] eqn:E; [done|].
    destruct (Ascii.eqb_spec c "-") as [->|]; [|done].
    by destruct (N.to_uint (Z.to_N z)).
Qed.
#[export] Hint Resolve num_ok_dec : json.

(** ** Facts about UTF-8 *)

Ltac split_range H :=
  repeat match type of H with
         | context [if ?b then _ else _] => let B := fresh "B" in destruct b eqn:B
         | context [match ?l with [] => _ | _ :: _ => _ end] => destruct l
         end.

(** All bytes of a multi-byte sequence have the top bit set. *)
Lemma utf8_len_high c r n :
  utf8_len (c :: r) = S n → (128 ≤ code c)%N →
  Forall (λ x, 128 ≤ code x)%N (c :: take n r) ∧ (n ≤ List.length r)%nat.
Proof.
  unfold utf8_len, in_range. intros H Hc. cbn zeta in H.
  split_range H; simplify_eq/=; try (exfalso; lia);
    repeat match goal with B : _ && _ = true |- _ => apply andb_true_iff in B as [? ?] end;
    repeat match goal with B : (_ <=? _)%N = true |- _ => apply N.leb_le in B end;
    rewrite ?take_0; (split; [repeat constructor; lia|lia]).
Qed.

(** The length of a sequence depends on its own bytes only. *)
Lemma utf8_len_app s t :
  utf8_len s = List.length s → s ≠ [] → utf8_len (s ++ t) = List.length s.
Proof.
  destruct s as [|c r]; [done|]. intros H _. rewrite <-H.
  revert H. destruct r as [|a [|b [|d [|e r]]]]; simpl app; unfold utf8_len; cbn zeta;
    intros H; split_range H; simplify_eq/=; done.
Qed.

Lemma utf8_len_pos_le s : (utf8_len s ≤ 4)%nat.
Proof.
  destruct s as [|c r]; [simpl; lia|]. unfold utf8_len. cbn zeta.
  repeat case_match; lia.
Qed.

(** ** Facts about quoting *)

Lemma quote_from_drop k s : quote_from k s = quote (drop k s).
Proof. revert k. induction s as [|c r IH]; intros [|k]; simpl; auto. Qed.

Lemma quote_cons c r :
  quote (c :: r) = let '(n, out) := quote_step (c :: r) in out ++ quote (drop (n - 1) r).
Proof.
  unfold quote at 1. cbn [quote_from]. destruct (quote_step (c :: r)).
  by rewrite quote_from_drop.
Qed.

Lemma body_esc_ascii c : (code c < 128)%N → body (default [c] (esc_ascii c)).
Proof.
  intros Hc. destruct c as [[] [] [] [] [] [] [] []]; try (exfalso; vm_compute in Hc; done);
    try (by apply body_plain; [done..|vm_compute; done|constructor]);
    try (by apply (body_esc _ []); [done|constructor]);
    by apply (body_uni _ _ _ _ []); [done..|constructor].
Qed.

Lemma body_high s : Forall (λ x, 128 ≤ code x)%N s → body s.
Proof.
  induction 1 as [|c s Hc _ IH]; [constructor|].
  apply body_plain; [intros ->; vm_compute in Hc; done..|lia|done].
Qed.

Lemma line_sep_inv s d :
  line_sep s = Some d →
  (∃ r, s = "226" :: "128" :: "168" :: r ∧ d = "8") ∨
  (∃ r, s = "226" :: "128" :: "169" :: r ∧ d = "9").
Proof.
  destruct s as [|a [|b [|c r]]]; simpl; try done.
  destruct (Ascii.eqb_spec a "226") as [->|]; [|done].
  destruct (Ascii.eqb_spec b "128") as [->|]; [|done]. simpl.
  destruct (Ascii.eqb_spec c "168") as [->|]; [intros; simplify_eq; eauto|].
  destruct (Ascii.eqb_spec c "169") as [->|]; [intros; simplify_eq; eauto|done].
Qed.

Lemma body_esc_line_sep d : d = "8" ∨ d = "9" → body (esc_line_sep d).
Proof. intros [->| ->]; by apply (body_uni _ _ _ _ []); [done..|constructor]. Qed.

Lemma body_quote_step s : body (quote_step s).2.
Proof.
  destruct s as [|c r]; [constructor|]. unfold quote_step.
  destruct (N.ltb_spec (code c) 128); [by apply body_esc_ascii|].
  destruct (utf8_len (c :: r)) as [|n] eqn:En.
  { by apply (body_uni _ _ _ _ []); [done..|constructor]. }
  destruct (line_sep (c :: r)) as [d|] eqn:Ed.
  - apply body_esc_line_sep. destruct (line_sep_inv _ _ Ed) as [(?&_&->)|(?&_&->)]; auto.
  - apply body_high. apply utf8_len_high in En; [|done]. simpl. tauto.
Qed.

(** A quoted string is a well-formed string body. *)
Lemma body_quote s : body (quote s).
Proof.
  induction s as [s IH] using list_len_ind. destruct s as [|c r]; [constructor|].
  rewrite quote_cons. pose proof (body_quote_step (c :: r)) as Hb.
  destruct (quote_step (c :: r)) as [n out]. apply body_app; [done|].
  apply IH. rewrite length_drop. simpl. lia.
Qed.
#[export] Hint Resolve body_quote : json.

(** ** Reading back what was quoted *)

Lemma unquote_from_copy k s :
  (k ≤ List.length s)%nat → unquote_from k s = take k s ++ unquote (drop k s).
Proof.
  revert k. induction s as [|c r IH]; intros [|k] Hk; simpl in *; try done; try lia.
  by rewrite IH by lia.
Qed.

Lemma unquote_esc_ascii c t :
  (code c < 128)%N → unquote (default [c] (esc_ascii c) ++ t) = c :: unquote t.
Proof.
  intros Hc. destruct c as [[] [] [] [] [] [] [] []];
    try (exfalso; vm_compute in Hc; done); reflexivity.
Qed.

Lemma unquote_seq s t :
  utf8_len s = List.length s → s ≠ [] → Forall (λ x, 128 ≤ code x)%N s →
  unquote (s ++ t) = s ++ unquote t.
Proof.
  destruct s as [|c r]; [done|]. intros Hl _ Hh.
  assert (utf8_len (c :: r ++ t) = S (List.length r)) as Hlt.
  { change (c :: r ++ t) with ((c :: r) ++ t). by rewrite (utf8_len_app (c :: r)). }
  assert ((c =? bsl) = false ∧ (code c <? 128)%N = false) as [Hb Hc].
  { inversion Hh as [|x y Hx Hy]; subst. split; [|by apply N.ltb_ge].
    destruct (Ascii.eqb_spec c bsl) as [->|]; [|done]. vm_compute in Hx. done. }
  unfold unquote at 1. cbn [app unquote_from]. rewrite Hb, Hc, Hlt. simpl.
  rewrite Nat.sub_0_r, unquote_from_copy by (rewrite length_app; lia).
  by rewrite take_app_length, drop_app_length.
Qed.

Lemma utf8_seq_high c r :
  utf8_len (c :: r) = List.length (c :: r) → (128 ≤ code c)%N →
  Forall (λ x, 128 ≤ code x)%N (c :: r).
Proof.
  intros Hl Hc. pose proof (utf8_len_high c r (List.length r) Hl Hc) as [H _].
  by rewrite firstn_all in H.
Qed.

(** One sequence of valid text is written and read back as itself. *)
Lemma quote_utf8_seq c r t :
  utf8_len (c :: r) = List.length (c :: r) → (128 ≤ code c)%N →
  quote ((c :: r) ++ t)
  = match line_sep (c :: r) with Some d => esc_line_sep d | None => c :: r end ++ quote t.
Proof.
  intros Hl Hc. cbn [app]. rewrite quote_cons.
  assert (utf8_len (c :: r ++ t) = S (List.length r)) as Hlt.
  { change (c :: r ++ t) with ((c :: r) ++ t). by rewrite (utf8_len_app (c :: r)). }
  assert (line_sep (c :: r ++ t) = line_sep (c :: r)) as Hsep.
  { destruct r as [|a [|b r]]; [..|done].
    - simpl in Hl. unfold utf8_len in Hl. cbn zeta in Hl. split_range Hl; try done.
      apply N.leb_le in B. lia.
    - destruct (Ascii.eqb_spec c "226") as [->|Hn]; [by vm_compute in Hl|].
      simpl. destruct t; simpl; [done|]. by rewrite (proj2 (Ascii.eqb_neq _ _) Hn). }
  unfold quote_step. destruct (N.ltb_spec (code c) 128); [lia|]. rewrite Hlt, Hsep.
  simpl drop. rewrite Nat.sub_0_r, drop_app_length.
  change (c :: r ++ t) with ((c :: r) ++ t).
  change (S (List.length r)) with (List.length (c :: r)). by rewrite take_app_length.
Qed.

(** Unquoting undoes quoting on valid UTF-8 text. *)
Lemma unquote_quote s : utf8 s → unquote (quote s) = s.
Proof.
  induction 1 as [|s r Hl Hne _ IH]; [done|]. destruct s as [|c s]; [done|].
  destruct (N.ltb_spec (code c) 128) as [Hc|Hc].
  - assert (s = []) as ->.
    { simpl in Hl. unfold utf8_len in Hl. cbn zeta in Hl.
      destruct (N.leb_spec (code c) 127); [|lia]. by destruct s. }
    cbn [app]. rewrite quote_cons. unfold quote_step.
    destruct (N.ltb_spec (code c) 128); [|lia]. simpl.
    rewrite drop_0. by rewrite unquote_esc_ascii, IH.
  - rewrite quote_utf8_seq by done.
    destruct (line_sep (c :: s)) as [d|] eqn:Ed.
    + destruct (line_sep_inv _ _ Ed) as [(r' & E & ->)|(r' & E & ->)]; simplify_eq;
        destruct r'; try (by vm_compute in Hl); simpl; by rewrite <-IH at 2.
    + rewrite unquote_seq; [by rewrite IH|done|done|by apply utf8_seq_high].
Qed.

(** ** Facts about compaction *)

Definition html_special (c : ascii) : bool := (c =? "<") || (c =? ">") || (c =? "&").

Lemma html_esc_special c r :
  html_special c = true → html_esc (c :: r) = esc_u00 c ++ html_esc r.
Proof. intros H. cbn [html_esc]. fold (html_special c). by rewrite H. Qed.

Lemma html_esc_sep c r d :
  line_sep (c :: r) = Some d → html_esc (c :: r) = esc_line_sep d ++ html_esc (drop 2 r).
Proof. intros H. by destruct (line_sep_inv _ _ H) as [(?&?&->)|(?&?&->)]; simplify_eq. Qed.

Lemma html_esc_copy c r :
  html_special c = false → line_sep (c :: r) = None → html_esc (c :: r) = c :: html_esc r.
Proof.
  intros H Hs. cbn [html_esc]. fold (html_special c). rewrite H.
  destruct r as [|x [|y r]]; [done..|]. by rewrite Hs.
Qed.

Lemma html_esc_ascii c r :
  html_special c = false → (code c < 128)%N → html_esc (c :: r) = c :: html_esc r.
Proof.
  intros H Hc. apply html_esc_copy; [done|].
  destruct (line_sep (c :: r)) eqn:E; [|done].
  apply line_sep_inv in E as [(?&?&_)|(?&?&_)]; simplify_eq; by vm_compute in Hc.
Qed.

Lemma is_hex_ascii c : is_hex c = true → html_special c = false ∧ (code c < 128)%N.
Proof. destruct c as [[] [] [] [] [] [] [] []]; vm_compute; done. Qed.

Lemma is_simple_esc_ascii c :
  is_simple_esc c = true → html_special c = false ∧ (code c < 128)%N.
Proof. destruct c as [[] [] [] [] [] [] [] []]; vm_compute; done. Qed.

Lemma body_esc_u00 c : html_special c = true → body (esc_u00 c).
Proof.
  destruct c as [[] [] [] [] [] [] [] []]; try (by vm_compute; done);
    intros _; by apply (body_uni _ _ _ _ []); [done..|constructor].
Qed.

Lemma body_drop_plain c b : body (c :: b) → (128 ≤ code c)%N → body b.
Proof. inversion 1; subst; intros Hc; [done|by vm_compute in Hc..]. Qed.

(** Compaction keeps string bodies well-formed. *)
Lemma body_html_esc b : body b → body (html_esc b).
Proof.
  induction b as [b IH] using list_len_ind. intros Hb.
  destruct Hb as [|c b Hq Hbs Hc Hb|e b He Hb|h1 h2 h3 h4 b E1 E2 E3 E4 Hb].
  - constructor.
  - destruct (html_special c) eqn:Es.
    { rewrite html_esc_special by done. apply body_app; [by apply body_esc_u00|].
      apply IH; [simpl; lia|done]. }
    destruct (line_sep (c :: b)) as [d|] eqn:Ed.
    + rewrite (html_esc_sep _ _ _ Ed). apply body_app.
      { apply body_esc_line_sep.
        destruct (line_sep_inv _ _ Ed) as [(?&_&->)|(?&_&->)]; auto. }
      destruct (line_sep_inv _ _ Ed) as [(r&?&_)|(r&?&_)]; simplify_eq;
        change (drop 2 (_ :: _ :: r)) with r;
        (apply IH; [cbn [List.length]; lia|]); by do 2 (apply body_drop_plain in Hb; [|by vm_compute]).
    + rewrite html_esc_copy by done. apply body_plain; [done..|].
      apply IH; [simpl; lia|done].
  - apply is_simple_esc_ascii in He as Ha. destruct Ha as [Hs Ha].
    rewrite !html_esc_ascii by done.
    apply body_esc; [done|]. apply IH; [simpl; lia|done].
  - apply is_hex_ascii in E1 as H1, E2 as H2, E3 as H3, E4 as H4. destruct_and!.
    rewrite !html_esc_ascii by done. apply body_uni; [done..|].
    apply IH; [simpl; lia|done].
Qed.

Lemma wf_html_tree v : wf v → wf (html_tree v).
Proof.
  induction v as [v IH] using (induction_ltof1 _ jsize). unfold ltof in IH.
  destruct 1 as [|b|l Hl|b Hb|vs Hvs|ms Hms]; simpl; eauto using body_html_esc with json.
  - constructor. rewrite Forall_fmap. rewrite Forall_forall in Hvs |- *.
    intros w Hw. apply IH; [|by apply Hvs].
    pose proof (sum_list_with_in w (λ w, S (jsize w)) vs Hw). simpl in *. lia.
  - constructor. rewrite Forall_fmap. rewrite Forall_forall in Hms |- *.
    intros [k w] Hw. destruct (Hms _ Hw) as [Hk Hwf]. simpl in *.
    split; [by apply body_html_esc|]. apply IH; [|done].
    pose proof (sum_list_with_in (k, w) (λ m, S (jsize m.2)) ms Hw). simpl in *. lia.
Qed.

(** The compaction of valid JSON is valid JSON, of the escaped tree. *)
Lemma compact_valid raw v :
  parse raw = Some v → compact raw = Some (print (html_tree v)) ∧
                       parse (print (html_tree v)) = Some (html_tree v).
Proof.
  intros H. unfold compact. rewrite H. split; [done|].
  by apply parse_print, wf_html_tree, (parse_wf raw).
Qed.

Lemma html_esc_idemp b : body b → html_esc (html_esc b) = html_esc b.
Proof.
  induction b as [b IH] using list_len_ind. intros Hb.
  assert (∀ h t, is_hex h = true → html_esc (h :: t) = h :: html_esc t) as Hhex.
  { intros h t [??]%is_hex_ascii. by apply html_esc_ascii. }
  destruct Hb as [|c b Hq Hbs Hc Hb|e b He Hb|h1 h2 h3 h4 b E1 E2 E3 E4 Hb].
  - done.
  - destruct (html_special c) eqn:Es.
    { rewrite html_esc_special by done. pose proof (IH b ltac:(simpl; lia) Hb) as IHb.
      destruct c as [[] [] [] [] [] [] [] []]; try done;
        unfold esc_u00; simpl app; by rewrite !html_esc_ascii, IHb by done. }
    destruct (line_sep (c :: b)) as [d|] eqn:Ed.
    + rewrite (html_esc_sep _ _ _ Ed).
      destruct (line_sep_inv _ _ Ed) as [(r&?&->)|(r&?&->)]; simplify_eq;
        change (drop 2 (_ :: _ :: r)) with r;
        unfold esc_line_sep; cbn [app]; rewrite !html_esc_ascii by done;
        (rewrite IH; [done|cbn [List.length]; lia|]);
        by do 2 (apply body_drop_plain in Hb; [|by vm_compute]).
    + rewrite html_esc_copy by done. pose proof (IH b ltac:(simpl; lia) Hb) as IHb.
      rewrite html_esc_copy; [by rewrite IHb|done|].
      destruct (line_sep (c :: html_esc b)) as [d|] eqn:Ed'; [|done]. exfalso.
      destruct (line_sep_inv _ _ Ed') as [(r&Er&_)|(r&Er&_)];
        injection Er as -> Er; clear -Ed Er.
      all: destruct b as [|x b]; [done|].
      all: destruct (html_special x) eqn:Ex;
        [rewrite html_esc_special in Er by done; done|].
      all: destruct (line_sep (x :: b)) eqn:Ey;
        [rewrite (html_esc_sep _ _ _ Ey) in Er; done|].
      all: rewrite html_esc_copy in Er by done; injection Er as -> Er.
      all: destruct b as [|y b]; [done|].
      all: destruct (html_special y) eqn:Ez;
        [rewrite html_esc_special in Er by done; done|].
      all: destruct (line_sep (y :: b)) eqn:Ew;
        [rewrite (html_esc_sep _ _ _ Ew) in Er; done|].
      all: rewrite html_esc_copy in Er by done; by injection Er as -> Er.
  - apply is_simple_esc_ascii in He as Ha. destruct Ha as [Hs Ha].
    rewrite !html_esc_ascii by done. by rewrite IH by (simpl; lia || done).
  - rewrite !(html_esc_ascii bsl), !(html_esc_ascii "u"), !Hhex by done.
    by rewrite IH by (simpl; lia || done).
Qed.

Lemma html_tree_idemp v : wf v → html_tree (html_tree v) = html_tree v.
Proof.
  induction v as [v IH] using (induction_ltof1 _ jsize). unfold ltof in IH.
  destruct 1 as [|b|l Hl|b Hb|vs Hvs|ms Hms]; simpl; [done..| | |].
  - by rewrite html_esc_idemp.
  - f_equal. rewrite <-list_fmap_compose. apply list_fmap_ext. intros i w Hw. simpl.
    apply list_elem_of_lookup_2 in Hw. rewrite Forall_forall in Hvs. apply IH; [|by apply Hvs].
    pose proof (sum_list_with_in w (λ w, S (jsize w)) vs Hw). simpl in *. lia.
  - f_equal. rewrite <-list_fmap_compose. apply list_fmap_ext. intros i [k w] Hw. simpl.
    apply list_elem_of_lookup_2 in Hw. rewrite Forall_forall in Hms.
    destruct (Hms _ Hw) as [Hk Hwf]. simpl in *. rewrite html_esc_idemp by done. f_equal.
    apply IH; [|done].
    pose proof (sum_list_with_in (k, w) (λ m, S (jsize m.2)) ms Hw). simpl in *. lia.
Qed.

(** Compacting twice is compacting once. *)
Lemma compact_idemp raw out : compact raw = Some out → compact out = Some out.
Proof.
  unfold compact at 1. destruct (parse raw) as [v|] eqn:E; [|done].
  intros H. simplify_eq/=. pose proof (parse_wf _ _ E) as Hv.
  destruct (compact_valid _ _ E) as [_ Hp].
  destruct (compact_valid _ _ Hp) as [-> _]. by rewrite html_tree_idemp.
Qed.

(** ** Object members and array items as source text

    [json.RawMessage] keeps the bytes of its value as they were written, white
    space included, so decoding splits a text one level at a time. *)

(** The first value of a text, as written, and what follows it. *)
Definition span_val (n : nat) (s : bytes) : option (bytes * bytes) :=
  let s' := skip_ws s in
  '(_, r) ← parse_val n s'; Some (take (List.length s' - List.length r) s', r).

Fixpoint span_items (n : nat) (s : bytes) : option (list bytes) :=
  match n with
  | O => None
  | S n' =>
    '(raw, r) ← span_val n s;
    match skip_ws r with
    | [] => None
    | c :: r' => if c =? "," then raws ← span_items n' r'; Some (raw :: raws)
                 else if c =? "]" then Some [raw] else None
    end
  end.

Fixpoint span_members (n : nat) (s : bytes) : option (list (bytes * bytes)) :=
  match n with
  | O => None
  | S n' =>
    match skip_ws s with
    | [] => None
    | q :: r =>
      if q =? dq then
        '(k, r1) ← scan_str r;
        match skip_ws r1 with
        | [] => None
        | c :: r2 =>
          if c =? ":" then
            '(raw, r3) ← span_val n r2;
            match skip_ws r3 with
            | [] => None
            | d :: r4 =>
              if d =? "," then ms ← span_members n' r4; Some ((k, raw) :: ms)
              else if d =? "}" then Some [(k, raw)] else None
            end
          else None
        end
      else None
    end
  end.

(** The outermost layer of a valid JSON text. *)
Inductive top :=
| TNull
| TBool (b : bool)
| TNum (l : bytes)
| TStr (b : bytes)
| TArr (raws : list bytes)
| TObj (ms : list (bytes * bytes)).

Definition top_of (s : bytes) : option top :=
  let inner := drop 1 (skip_ws s) in
  let n := S (List.length s) in
  match parse s with
  | None => None
  | Some JNull => Some TNull
  | Some (JBool b) => Some (TBool b)
  | Some (JNum l) => Some (TNum l)
  | Some (JStr b) => Some (TStr b)
  | Some (JArr []) => Some (TArr [])
  | Some (JArr _) => TArr <$> span_items n inner
  | Some (JObj []) => Some (TObj [])
  | Some (JObj _) => TObj <$> span_members n inner
  end.

(** The outermost layer of a tree: what [top_of] finds in its printed text. *)
Definition top_tree (v : json) : top :=
  match v with
  | JNull => TNull | JBool b => TBool b | JNum l => TNum l | JStr b => TStr b
  | JArr vs => TArr (print <$> vs)
  | JObj ms => TObj (prod_map id print <$> ms)
  end.

Lemma span_val_print n v r :
  wf v → delim r → (jsize v ≤ n)%nat → span_val n (print v ++ r) = Some (print v, r).
Proof.
  intros Hv Hr Hn. unfold span_val. rewrite skip_ws_print by done.
  rewrite (proj1 (parse_print_fuel n) v r Hv Hr Hn). simpl.
  rewrite length_app, Nat.add_sub. by rewrite take_app_length.
Qed.

Lemma span_items_print n v vs r :
  wf v → Forall wf vs → (S (jsize v) + sum_list_with (λ w, S (jsize w)) vs ≤ n)%nat →
  span_items n (print v ++ print_tail vs ++ "]" :: r) = Some (print <$> v :: vs).
Proof.
  revert v vs. induction n as [|n IH]; intros v vs Hv Hvs Hn; [lia|].
  cbn [span_items]. rewrite span_val_print; [|done| |lia]; [|by destruct Hvs].
  destruct Hvs as [|w vs Hw Hvs]; [done|]. simpl in Hn.
  rewrite print_tail_cons. simpl. by rewrite IH by (done || lia).
Qed.

Lemma span_members_print n k v ms r :
  body k → wf v → Forall (λ m, body m.1 ∧ wf m.2) ms →
  (S (jsize v) + sum_list_with (λ m, S (jsize m.2)) ms ≤ n)%nat →
  span_members n (dq :: k ++ dq :: ":" :: print v ++ print_mtail ms ++ "}" :: r)
  = Some (prod_map id print <$> (k, v) :: ms).
Proof.
  revert k v ms. induction n as [|n IH]; intros k v ms Hk Hv Hms Hn; [lia|].
  cbn [span_members skip_ws is_ws]. change (is_ws dq) with false. cbn iota.
  rewrite Ascii.eqb_refl, scan_body by done. simpl.
  rewrite span_val_print; [|done| |lia]; [|by destruct Hms as [|[]]].
  destruct Hms as [|[k' w] ms [Hk' Hw] Hms]; [done|]. simpl in Hn, Hk', Hw.
  rewrite print_mtail_cons. simpl. by rewrite IH by (done || lia).
Qed.

Lemma top_of_print v : wf v → top_of (print v) = Some (top_tree v).
Proof.
  intros Hv. unfold top_of. rewrite parse_print by done.
  pose proof (jsize_print v Hv) as Hsz.
  destruct Hv as [|b|l Hl|b Hb|[|v vs] Hvs|[|[k v] ms] Hms]; try done.
  - apply Forall_cons in Hvs as [Hv Hvs].
    pose proof (print_arr v vs []) as E. rewrite app_nil_r in E. rewrite E in Hsz |- *.
    cbn [skip_ws]. change (is_ws "[") with false. cbn [drop]. rewrite ?drop_0.
    rewrite span_items_print; [done..|]. simpl in *. lia.
  - apply Forall_cons in Hms as [[Hk Hv] Hms]. cbn [fst snd] in Hk, Hv.
    pose proof (print_obj k v ms []) as E. rewrite app_nil_r in E. rewrite E in Hsz |- *.
    cbn [skip_ws]. change (is_ws "{") with false. cbn [drop]. rewrite ?drop_0.
    rewrite span_members_print; [done..|]. simpl in *. lia.
Qed.

(** [strconv.ParseInt(s, 10, 64)] on a JSON integer literal. *)
Definition parse_int64 (s : bytes) : option Z :=
  match s with
  | "-" :: r => n ← parse_uint64 r; if (n <=? two63)%Z then Some (- n)%Z else None
  | _ => n ← parse_uint64 s; if (n <? two63)%Z then Some n else None
  end.

Lemma parse_int64_dec z : (- two63 ≤ z < two63)%Z → parse_int64 (dec z) = Some z.
Proof.
  intros Hz. assert (two63 < two64)%Z as H64 by done. unfold parse_int64.
  destruct (Z.ltb_spec z 0) as [Hneg|Hpos].
  - assert (dec z = "-" :: dec (- z)) as ->.
    { unfold dec. rewrite (proj2 (Z.ltb_lt z 0)), (proj2 (Z.ltb_ge (- z) 0)) by lia. done. }
    rewrite parse_uint64_dec by lia. simpl. rewrite (proj2 (Z.leb_le _ _)) by lia.
    f_equal. lia.
  - pose proof (parse_uint64_dec z ltac:(lia)) as Hp. unfold dec in *.
    rewrite (proj2 (Z.ltb_ge z 0)) in * by lia.
    destruct (N.to_uint (Z.to_N z)); cbn [uint_bytes] in *; rewrite Hp; simpl;
      by rewrite (proj2 (Z.ltb_lt _ _)) by lia.
Qed.
