(* ===== verification/Text.v ===== *)
(** Functions of Go's [strings] package on byte strings: white space trimming
    and splitting, searching, prefixes and joining, with the facts about them
    the clients share. *)
From S2P Require Import Prelude Json.
#[local] Open Scope char_scope.
#[local] Infix "=?" := Ascii.eqb : char_scope.

(** ** White space

    [unicode.IsSpace]: six ASCII bytes, U+0085, U+00A0, U+1680, U+2000 to
    U+200A, U+2028, U+2029, U+202F, U+205F and U+3000. A lead byte is never a
    continuation byte, so the encodings can be recognised byte by byte. *)

Definition ascii_space (c : ascii) : bool :=
  (c =? "009") || (c =? "010") || (c =? "011") || (c =? "012") || (c =? "013") || (c =? " ").
Definition space2 (c d : ascii) : bool := (c =? "194") && ((d =? "133") || (d =? "160")).
Definition space3 (c d e : ascii) : bool :=
  ((c =? "225") && (d =? "154") && (e =? "128"))
  || ((c =? "226") && (d =? "128")
      && (((128 <=? code e)%N && (code e <=? 138)%N)
          || (e =? "168") || (e =? "169") || (e =? "175")))
  || ((c =? "226") && (d =? "129") && (e =? "159"))
  || ((c =? "227") && (d =? "128") && (e =? "128")).

(** The bytes of the space a text starts with, 0 when it starts otherwise. *)
Definition space_len (s : bytes) : nat :=
  match s with
  | [] => 0
  | c :: r =>
      if ascii_space c then 1
      else match r with
           | [] => 0
           | d :: r' =>
               if space2 c d then 2
               else match r' with e :: _ => if space3 c d e then 3 else 0 | [] => 0 end
           end
  end%nat.

(** The same at the end of a text, which is given reversed. *)
Definition space_len_rev (s : bytes) : nat :=
  match s with
  | [] => 0
  | e :: r =>
      if ascii_space e then 1
      else match r with
           | [] => 0
           | d :: r' =>
               if space2 d e then 2
               else match r' with c :: _ => if space3 c d e then 3 else 0 | [] => 0 end
           end
  end%nat.

(** Drop spaces measured by [len]; [k] counts bytes of the space being dropped. *)
Fixpoint trim_by (len : bytes → nat) (k : nat) (s : bytes) : bytes :=
  match s with
  | [] => []
  | _ :: r =>
      match k with
      | S k' => trim_by len k' r
      | O => match len s with O => s | S k' => trim_by len k' r end
      end
  end.

Definition TrimLeftSpace (s : bytes) : bytes := trim_by space_len 0 s.
Definition TrimRightSpace (s : bytes) : bytes := reverse (trim_by space_len_rev 0 (reverse s)).
Definition TrimSpace (s : bytes) : bytes := TrimRightSpace (TrimLeftSpace s).

(** [strings.Fields]. *)
Definition flush_field (cur : bytes) (fs : list bytes) : list bytes :=
  match cur with [] => fs | _ => cur :: fs end.
Fixpoint fields_from (k : nat) (cur s : bytes) : list bytes :=
  match s with
  | [] => flush_field cur []
  | c :: r =>
      match k with
      | S k' => fields_from k' cur r
      | O => match space_len s with
             | O => fields_from 0 (cur ++ [c]) r
             | S k' => flush_field cur (fields_from k' [] r)
             end
      end
  end.
Definition Fields (s : bytes) : list bytes := fields_from 0 [] s.

(** [strings.Join]. *)
Definition Join (ss : list bytes) (sep : bytes) : bytes :=
  match ss with [] => [] | s :: ss => s ++ mjoin ((app sep) <$> ss) end.

(** [strings.Split] at a byte; a text without it is one piece. *)
Fixpoint SplitByte (c : ascii) (s : bytes) : list bytes :=
  match s with
  | [] => [[]]
  | d :: r =>
      if d =? c then [] :: SplitByte c r
      else match SplitByte c r with [] => [[d]] | p :: ps => (d :: p) :: ps end
  end.

(** ** Searching *)

Fixpoint IndexByte (s : bytes) (c : ascii) : option nat :=
  match s with
  | [] => None
  | d :: r => if d =? c then Some 0%nat else S <$> IndexByte r c
  end.

(** [strings.TrimPrefix]'s test: the rest after a prefix. *)
Fixpoint after_prefix (s p : bytes) : option bytes :=
  match p, s with
  | [], _ => Some s
  | c :: p', d :: s' => if d =? c then after_prefix s' p' else None
  | _ :: _, [] => None
  end.

(** [strings.LastIndex] of a non-empty text. *)
Fixpoint LastIndex (s sub : bytes) : option nat :=
  match s with
  | [] => None
  | _ :: r => match LastIndex r sub with
              | Some i => Some (S i)
              | None => if after_prefix s sub is Some _ then Some 0%nat else None
              end
  end.

Definition Contains (s sub : bytes) : bool :=
  match sub with [] => true | _ => bool_decide (is_Some (LastIndex s sub)) end.

(** [strings.Count] and [strings.Replace] of a non-empty text: occurrences are
    taken from the left and do not overlap; [k] bytes of the last one are left. *)
Fixpoint count_from (k : nat) (s sub : bytes) : nat :=
  match s with
  | [] => 0
  | _ :: r =>
      match k with
      | S k' => count_from k' r sub
      | O => if after_prefix s sub is Some _ then S (count_from (List.length sub - 1) r sub)
             else count_from 0 r sub
      end
  end.
Definition Count (s sub : bytes) : nat := count_from 0 s sub.

Fixpoint replace_from (k n : nat) (s old new : bytes) : bytes :=
  match s with
  | [] => []
  | c :: r =>
      match k with
      | S k' => replace_from k' n r old new
      | O => match n, after_prefix s old with
             | S n', Some _ => new ++ replace_from (List.length old - 1) n' r old new
             | _, _ => c :: replace_from 0 n r old new
             end
      end
  end.
Definition Replace (s old new : bytes) (n : nat) : bytes := replace_from 0 n s old new.

(** ** Facts *)

Lemma after_prefix_spec s p r : after_prefix s p = Some r ↔ s = p ++ r.
Proof.
  revert p. induction s as [|d s IH]; intros [|c p]; simpl; try (split; [by intros [= ->]|by intros ->]);
    [done|].
  destruct (Ascii.eqb_spec d c) as [->|Hne].
  - rewrite IH. split; [by intros ->|by intros [= ->]].
  - split; [done|]. by intros [= -> _].
Qed.

Lemma IndexByte_app s c r : c ∉ s → IndexByte (s ++ c :: r) c = Some (List.length s).
Proof.
  induction s as [|d s IH]; simpl; intros H; [by rewrite Ascii.eqb_refl|].
  apply not_elem_of_cons in H as [Hd H]. destruct (Ascii.eqb_spec d c); [congruence|].
  by rewrite IH.
Qed.

Lemma IndexByte_Some s c i :
  IndexByte s c = Some i → ∃ a b, s = a ++ c :: b ∧ i = List.length a ∧ c ∉ a.
Proof.
  revert i. induction s as [|d s IH]; intros i; simpl; [done|].
  destruct (Ascii.eqb_spec d c) as [->|Hne].
  - intros [= <-]. exists [], s. split_and!; [done|done|by intros ?%not_elem_of_nil].
  - destruct (IndexByte s c) as [j|]; [|done]. intros [= <-].
    destruct (IH j eq_refl) as (a & b & -> & -> & Ha). exists (d :: a), b.
    split_and!; [done|done|]. rewrite elem_of_cons. naive_solver.
Qed.

(** An occurrence at the very end is the last one. *)
Lemma LastIndex_end s sub : sub ≠ [] →
  LastIndex (s ++ sub) sub = Some (List.length s).
Proof.
  intros Hsub. induction s as [|c s IH]; simpl; [|by rewrite IH].
  destruct sub as [|c sub]; [done|]. clear Hsub. cbn [LastIndex].
  assert (∀ t, (List.length t < List.length (c :: sub))%nat → LastIndex t (c :: sub) = None) as H.
  { induction t as [|d t IH]; intros Hl; [done|]. cbn [LastIndex].
    rewrite IH by (simpl in *; lia).
    destruct (after_prefix (d :: t) (c :: sub)) eqn:E; [|done].
    apply after_prefix_spec in E. apply (f_equal List.length) in E.
    rewrite length_app in E. simpl in *. lia. }
  rewrite H by (simpl; lia).
  assert (after_prefix (c :: sub) (c :: sub) = Some []) as -> by (apply after_prefix_spec; by rewrite app_nil_r).
  done.
Qed.

Lemma LastIndex_Some s sub i :
  LastIndex s sub = Some i → ∃ a b, s = a ++ sub ++ b ∧ i = List.length a.
Proof.
  revert i. induction s as [|c s IH]; intros i; [done|]. cbn [LastIndex].
  destruct (LastIndex s sub) as [j|].
  - intros [= <-]. destruct (IH j eq_refl) as (a & b & -> & ->). by exists (c :: a), b.
  - destruct (after_prefix (c :: s) sub) as [b|] eqn:E; [|done]. intros [= <-].
    apply after_prefix_spec in E. by exists [], b.
Qed.

(** Trimming removes a prefix, and stops before a byte that is not a space. *)
Lemma trim_by_suffix len k s : ∃ a, s = a ++ trim_by len k s.
Proof.
  revert k. induction s as [|c s IH]; intros k; [by exists []|]. cbn [trim_by].
  destruct k as [|k].
  - destruct (len (c :: s)) as [|k]; [by exists []|].
    destruct (IH k) as [a Ha]. exists (c :: a). simpl. congruence.
  - destruct (IH k) as [a Ha]. exists (c :: a). simpl. congruence.
Qed.

(** [len] never reads across [c] and never counts [c]. *)
Definition stops (len : bytes → nat) (c : ascii) : Prop :=
  ∀ a b, (len (a ++ c :: b) ≤ List.length a)%nat.

Lemma trim_by_stops len c k a b :
  stops len c → (k ≤ List.length a)%nat →
  ∃ a', trim_by len k (a ++ c :: b) = a' ++ c :: b ∧ a' `suffix_of` a.
Proof.
  intros Hc. revert k. induction a as [|d a IH]; intros k Hk.
  - simpl in Hk. assert (k = 0)%nat as -> by lia. exists []. split; [|done].
    cbn [app trim_by]. pose proof (Hc [] b) as H. simpl in H.
    destruct (len (c :: b)); [done|lia].
  - cbn [app trim_by]. pose proof (Hc (d :: a) b) as H. cbn [app List.length] in H.
    destruct k as [|k].
    + destruct (len (d :: a ++ c :: b)) as [|k]; [by exists (d :: a)|].
      destruct (IH k) as (a' & -> & Ha); [lia|]. exists a'. split; [done|].
      by apply suffix_cons_r.
    + simpl in Hk. destruct (IH k) as (a' & -> & Ha); [lia|]. exists a'. split; [done|].
      by apply suffix_cons_r.
Qed.

(** Printable ASCII stops trimming on both sides. *)
Definition visible (c : ascii) : bool := (33 <=? code c)%N && (code c <=? 126)%N.

Lemma visible_not_space c : visible c = true → ascii_space c = false.
Proof. by destruct c as [[] [] [] [] [] [] [] []]. Qed.
Lemma visible_space2 c d : visible c = true → space2 c d = false ∧ space2 d c = false.
Proof.
  intros H. unfold space2. split.
  - destruct (Ascii.eqb_spec c "194") as [->|]; [done|done].
  - destruct (Ascii.eqb_spec c "133") as [->|]; [done|].
    destruct (Ascii.eqb_spec c "160") as [->|]; [done|]. by rewrite andb_comm.
Qed.
Lemma visible_space3 c d e : visible c = true →
  space3 c d e = false ∧ space3 d c e = false ∧ space3 d e c = false.
Proof. intros H. destruct c as [[] [] [] [] [] [] [] []]; try done; unfold space3; simpl;
  rewrite ?andb_false_r; done. Qed.

Lemma visible_stops c : visible c = true → stops space_len c ∧ stops space_len_rev c.
Proof.
  intros H. split; intros [|x [|y [|z a]]] b; unfold space_len, space_len_rev; simpl;
    rewrite ?(visible_not_space c H), ?(proj1 (visible_space2 c _ H)), ?(proj2 (visible_space2 c _ H));
    repeat match goal with
    | |- context [if ?x then _ else _] => destruct x eqn:?
    | |- context [match ?l with [] => _ | _ :: _ => _ end] => destruct l
    | H' : context [space2 c _] |- _ => rewrite (proj1 (visible_space2 c _ H)) in H'
    | H' : context [space2 _ c] |- _ => rewrite (proj2 (visible_space2 c _ H)) in H'
    | H' : space3 c ?d ?e = true |- _ => rewrite (proj1 (visible_space3 c d e H)) in H'
    | H' : space3 ?d c ?e = true |- _ => rewrite (proj1 (proj2 (visible_space3 c d e H))) in H'
    | H' : space3 ?d ?e c = true |- _ => rewrite (proj2 (proj2 (visible_space3 c d e H))) in H'
    end; simpl; try lia; try done.
Qed.

Lemma TrimSpace_visible a c m d b :
  visible c = true → visible d = true →
  ∃ a' b', TrimSpace (a ++ c :: m ++ d :: b) = a' ++ c :: m ++ d :: b' ∧
    a' `suffix_of` a ∧ b' `prefix_of` b.
Proof.
  intros Hc Hd. unfold TrimSpace, TrimLeftSpace, TrimRightSpace.
  destruct (trim_by_stops space_len c 0 a (m ++ d :: b)) as (a' & -> & Ha);
    [by apply visible_stops|lia|].
  assert (reverse (a' ++ c :: m ++ d :: b)
    = reverse b ++ d :: reverse (a' ++ c :: m)) as ->.
  { rewrite !reverse_app, !reverse_cons, !reverse_app, !reverse_cons. by rewrite <-!app_assoc. }
  destruct (trim_by_stops space_len_rev d 0 (reverse b) (reverse (a' ++ c :: m))) as (b' & -> & Hb);
    [by apply visible_stops|lia|].
  exists a', (reverse b'). split_and!; [|done|].
  - rewrite !reverse_app, !reverse_cons, !reverse_app, !reverse_cons, !reverse_involutive.
    by rewrite <-!app_assoc.
  - destruct Hb as [k Hk]. exists (reverse k).
    by rewrite <-reverse_app, <-Hk, reverse_involutive.
Qed.

(** ** Occurrences *)

Lemma count_from_drop k s sub : count_from k s sub = Count (drop k s) sub.
Proof. revert k. induction s as [|c s IH]; intros [|k]; try done. simpl. by rewrite IH. Qed.

Lemma replace_from_drop k n s old new : replace_from k n s old new = Replace (drop k s) old new n.
Proof. revert k. induction s as [|c s IH]; intros [|k]; try done. simpl. by rewrite IH. Qed.

Lemma after_prefix_drop c s sub r : sub ≠ [] → after_prefix (c :: s) sub = Some r → drop (List.length sub - 1) s = r.
Proof.
  intros Hs E. apply after_prefix_spec in E. destruct sub as [|d sub]; [done|].
  simpl in E. injection E as _ ->. simpl. rewrite Nat.sub_0_r. by rewrite drop_app_length.
Qed.

Lemma Count_cons c s sub : sub ≠ [] → Count (c :: s) sub =
  match after_prefix (c :: s) sub with Some r => S (Count r sub) | None => Count s sub end.
Proof.
  intros Hs. unfold Count at 1. cbn [count_from].
  destruct (after_prefix (c :: s) sub) as [r|] eqn:E; [|done].
  rewrite count_from_drop. by rewrite (after_prefix_drop _ _ _ _ Hs E).
Qed.

Lemma Replace_cons c s old new n : old ≠ [] → Replace (c :: s) old new (S n) =
  match after_prefix (c :: s) old with
  | Some r => new ++ Replace r old new n
  | None => c :: Replace s old new (S n)
  end.
Proof.
  intros Hs. unfold Replace at 1. cbn [replace_from].
  destruct (after_prefix (c :: s) old) as [r|] eqn:E; [|done].
  rewrite replace_from_drop. by rewrite (after_prefix_drop _ _ _ _ Hs E).
Qed.

Lemma Replace_0 s old new : Replace s old new 0 = s.
Proof. unfold Replace. induction s as [|c s IH]; [done|]. cbn [replace_from]. by rewrite IH. Qed.

(** No occurrence, and the first one. *)
Lemma Count_0 s sub : sub ≠ [] → Count s sub = 0%nat → ¬ ∃ a b, s = a ++ sub ++ b.
Proof.
  intros Hs. induction s as [|c s IH].
  - intros _ (a&b&E). destruct a; [|done]. by destruct sub.
  - rewrite Count_cons by done. destruct (after_prefix (c :: s) sub) as [r|] eqn:E; [done|].
    intros Hc (a&b&Ea). destruct a as [|d a].
    + assert (after_prefix (c :: s) sub = Some b) by (by apply after_prefix_spec). congruence.
    + injection Ea as -> ->. apply IH; [done|]. by exists a, b.
Qed.

(** [Count] cuts the text at its occurrences. *)
Lemma Count_first s sub n : sub ≠ [] → Count s sub = S n → ∃ a b, s = a ++ sub ++ b ∧
  Count b sub = n ∧ ∀ new k, Replace s sub new (S k) = a ++ new ++ Replace b sub new k.
Proof.
  intros Hs. induction s as [|c s IH]; [done|]. rewrite Count_cons by done.
  destruct (after_prefix (c :: s) sub) as [r|] eqn:E.
  - intros [= <-]. exists [], r. split_and!; [by apply after_prefix_spec in E|done|].
    intros new k. by rewrite Replace_cons, E.
  - intros (a&b&->&Hb&Hr)%IH. exists (c :: a), b. split_and!; [done|done|].
    intros new k. by rewrite Replace_cons, E, Hr.
Qed.

(** ** Lines and trimming *)

Lemma SplitByte_ne c s : SplitByte c s ≠ [].
Proof. destruct s as [|d s]; [done|]. simpl. destruct (d =? c); [done|]. by destruct (SplitByte c s). Qed.

Lemma SplitByte_one c s : c ∉ s → SplitByte c s = [s].
Proof.
  induction s as [|d s IH]; [done|]. intros [Hd Hs]%not_elem_of_cons. simpl.
  destruct (Ascii.eqb_spec d c); [congruence|]. by rewrite IH.
Qed.

Lemma SplitByte_sep c a b : SplitByte c (a ++ c :: b) = SplitByte c a ++ SplitByte c b.
Proof.
  induction a as [|d a IH]; [simpl; by rewrite Ascii.eqb_refl|]. cbn [app SplitByte]. rewrite IH.
  destruct (Ascii.eqb_spec d c); [done|].
  destruct (SplitByte c a) as [|p ps] eqn:E; [by apply SplitByte_ne in E|done].
Qed.

Lemma Join_cons c e es : es ≠ [] → Join (e :: es) [c] = e ++ c :: Join es [c].
Proof. destruct es as [|f es]; [done|]. intros _. done. Qed.

Lemma Join_SplitByte c s : Join (SplitByte c s) [c] = s.
Proof.
  induction s as [|d s IH]; [done|]. cbn [SplitByte].
  destruct (SplitByte c s) as [|p ps] eqn:E; [by apply SplitByte_ne in E|].
  destruct (Ascii.eqb_spec d c) as [->|Hd]; [by rewrite Join_cons, IH|].
  destruct (decide (ps = [])) as [->|Hps].
  - cbn [Join fmap list_fmap] in *. cbn [app]. by rewrite IH.
  - rewrite Join_cons in * by done. cbn [app]. by rewrite IH.
Qed.

Lemma trim_by_stop len k s : trim_by len k s = [] ∨ len (trim_by len k s) = 0%nat.
Proof.
  revert k. induction s as [|c s IH]; intros k; [by left|]. cbn [trim_by].
  destruct k as [|k]; [|apply IH]. destruct (len (c :: s)) eqn:E; [by right|apply IH].
Qed.

Lemma trim_by_done len s : len s = 0%nat → trim_by len 0 s = s.
Proof. destruct s; [done|]. cbn [trim_by]. by intros ->. Qed.

(** A space at the start stays one when text follows, and a line end makes none. *)
Lemma space_len_app s t : space_len s ≠ 0%nat → space_len (s ++ t) = space_len s.
Proof.
  destruct s as [|c [|d [|e s]]]; [done| | |]; simpl.
  - by destruct (ascii_space c).
  - destruct (ascii_space c); [done|]. by destruct (space2 c d).
  - done.
Qed.

Lemma space_len_newline s : s ≠ [] → space_len s = 0%nat → space_len (s ++ ["010"]) = 0%nat.
Proof.
  destruct s as [|c [|d [|e s]]]; [done| | |]; intros _; simpl; [| |done].
  - destruct (ascii_space c); [done|]. intros _.
    unfold space2. replace (("010" =? "133") || ("010" =? "160")) with false by done.
    by rewrite andb_false_r.
  - destruct (ascii_space c); [done|]. destruct (space2 c d); [done|]. intros _.
    assert (space3 c d "010" = false) as ->; [|done].
    unfold space3. change ("010" =? "128") with false. change ((128 <=? code "010")%N) with false.
    change ("010" =? "168") with false. change ("010" =? "169") with false.
    change ("010" =? "175") with false. simpl. by rewrite !andb_false_r.
Qed.

Lemma TrimLeftSpace_stop s : TrimLeftSpace s = [] ∨ space_len (TrimLeftSpace s) = 0%nat.
Proof. apply trim_by_stop. Qed.

Lemma TrimRightSpace_prefix s : ∃ t, s = TrimRightSpace s ++ t.
Proof.
  unfold TrimRightSpace. destruct (trim_by_suffix space_len_rev 0 (reverse s)) as [a Ha].
  exists (reverse a). rewrite <- reverse_app, <- Ha. by rewrite reverse_involutive.
Qed.

Lemma TrimSpace_start s : TrimSpace s ≠ [] → space_len (TrimSpace s) = 0%nat.
Proof.
  unfold TrimSpace. intros Hne. destruct (TrimRightSpace_prefix (TrimLeftSpace s)) as [t Ht].
  destruct (TrimLeftSpace_stop s) as [E|E].
  - rewrite E in Hne. done.
  - destruct (decide (space_len (TrimRightSpace (TrimLeftSpace s)) = 0%nat)) as [|Hn]; [done|].
    rewrite Ht, space_len_app in E by done. done.
Qed.

(** Trimming undoes the line ends that rendering puts around a trimmed text. *)
Lemma TrimSpace_lines s : TrimSpace ("010" :: TrimSpace s ++ ["010"]) = TrimSpace s.
Proof.
  destruct (decide (TrimSpace s = [])) as [->|Hne]; [done|].
  unfold TrimSpace at 1. unfold TrimLeftSpace. cbn [trim_by].
  replace (space_len ("010" :: TrimSpace s ++ ["010"])) with 1%nat by done.
  rewrite trim_by_done by (apply space_len_newline; [done|by apply TrimSpace_start]).
  unfold TrimRightSpace. rewrite reverse_snoc. cbn [trim_by].
  replace (space_len_rev ("010" :: reverse (TrimSpace s))) with 1%nat by done.
  assert (trim_by space_len_rev 0 (reverse (TrimSpace s)) = reverse (TrimSpace s)) as ->;
    [|by rewrite reverse_involutive].
  unfold TrimSpace, TrimRightSpace. rewrite reverse_involutive.
  destruct (trim_by_stop space_len_rev 0 (reverse (TrimLeftSpace s))) as [->|E]; [done|].
  by rewrite trim_by_done.
Qed.
