(* ===== verification/Event.v ===== *)
(** The event model of [src/stream/event.go], the subscriber filters of
    [filter.go] and the producer helpers of [writer.go]. Strings are byte
    lists; a [time.Time] is the RFC 3339 text it marshals to; a Go map with
    string keys is an association list in key order. *)
From S2P Require Import Prelude Json GoText.

(** ** What the standard library computes on floats and times

    [float_repr l] is the text [encoding/json] writes for the float64 nearest
    to the literal [l], [None] when it is out of range; [time_parse t] the
    canonical text of the time [t] denotes, [None] when [t] is not RFC 3339. *)
Class GoStd := { float_repr : bytes → option bytes; time_parse : bytes → option bytes }.

(** A standard library that prints every literal and time as it is written, for
    concrete runs. *)
Definition plain_std : GoStd := {| float_repr := Some; time_parse := Some |}.

(** ** Dynamic values ([any] in metadata maps) *)

Inductive any : Type :=
| ANull
| ABool (b : bool)
| AInt (z : Z)                      (* any Go integer type *)
| AFloat (repr : bytes)             (* a float64, by its JSON text *)
| AStr (s : bytes)
| ARaw (raw : option bytes)         (* json.RawMessage *)
| AArr (items : list any)
| AMap (entries : list (bytes * any))
| AOpaque.                          (* a value json.Marshal rejects *)

Definition metadata := option (list (bytes * any)).

(** [m[k] = v] on a map kept in key order. *)
Fixpoint bytes_ltb (a b : bytes) : bool :=
  match a, b with
  | _, [] => false
  | [], _ :: _ => true
  | x :: a', y :: b' =>
      (code x <? code y)%N || (Ascii.eqb x y && bytes_ltb a' b')
  end.

Fixpoint map_set {V} (k : bytes) (v : V) (m : list (bytes * V)) : list (bytes * V) :=
  match m with
  | [] => [(k, v)]
  | (k', v') :: m' =>
      if decide (k = k') then (k, v) :: m'
      else if bytes_ltb k k' then (k, v) :: m
      else (k', v') :: map_set k v m'
  end.

Definition map_get {V} (k : bytes) (m : list (bytes * V)) : option V :=
  snd <$> list_find (λ e, e.1 = k) m ≫= λ p, Some p.2.

(** ** Events *)

Record Source := mkSource { src_Layer : bytes; src_ID : bytes; src_ParentID : bytes }.

Record Scope := mkScope {
  scope_RequestID : bytes; scope_RunnerID : bytes;
  scope_NodeID : bytes; scope_SessionID : bytes }.

(** [Delta] is [None] for a nil [json.RawMessage]. *)
Record Event := mkEvent {
  ev_EventType : bytes;
  ev_From : Source;
  ev_SequenceNumber : Z;
  ev_Status : bytes;
  ev_Delta : option bytes;
  ev_LogicalTime : Z;
  ev_Timestamp : bytes;
  ev_Scope : Scope;
  ev_Metadata : metadata }.

Definition zero_time : bytes := s2b "0001-01-01T00:00:00Z".
Definition zero_source : Source := mkSource [] [] [].
Definition zero_scope : Scope := mkScope [] [] [] [].
Definition zero_event : Event :=
  mkEvent [] zero_source 0 [] None 0 zero_time zero_scope None.

#[export] Instance any_eq_dec : EqDecision any.
Proof.
  refine (fix go (x y : any) : Decision (x = y) :=
    let gl : ∀ l k : list any, Decision (l = k) := @list_eq_dec _ go in
    let gp : ∀ p q : bytes * any, Decision (p = q) := @prod_eq_dec _ _ _ go in
    let gm : ∀ l k : list (bytes * any), Decision (l = k) := @list_eq_dec _ gp in
    match x, y with
    | ANull, ANull => left _
    | ABool a, ABool b => cast_if (decide (a = b))
    | AInt a, AInt b => cast_if (decide (a = b))
    | AFloat a, AFloat b => cast_if (decide (a = b))
    | AStr a, AStr b => cast_if (decide (a = b))
    | ARaw a, ARaw b => cast_if (decide (a = b))
    | AArr a, AArr b => cast_if (gl a b)
    | AMap a, AMap b => cast_if (gm a b)
    | AOpaque, AOpaque => left _
    | _, _ => right _
    end); clear go gl gp gm; abstract congruence.
Defined.
#[export] Instance source_eq_dec : EqDecision Source. Proof. solve_decision. Defined.
#[export] Instance scope_eq_dec : EqDecision Scope. Proof. solve_decision. Defined.
#[export] Instance event_eq_dec : EqDecision Event. Proof. solve_decision. Defined.

(** Status values and the event types the stream package itself reads. *)
Definition StatusRunning : bytes := s2b "running".
Definition StatusCompleted : bytes := s2b "completed".
Definition StatusFailed : bytes := s2b "failed".
Definition StatusPending : bytes := s2b "pending".
Definition EventStatusProgress : bytes := s2b "status.progress".
Definition EventMergeBundle : bytes := s2b "merge.bundle".

(** Errors of the stream package. *)
Inductive stream_err :=
| ErrClosed | ErrInvalidEvent | ErrInvalidMerge | ErrSubscriberOverflow
| ErrBufferFull | ErrCanceled | ErrEncode | ErrDecode | ErrEmptyBatch | ErrDuplicate.
#[export] Instance stream_err_eq_dec : EqDecision stream_err.
Proof. solve_decision. Defined.

(** ** Record updates *)

Definition set_seq (n : Z) (e : Event) : Event :=
  mkEvent (ev_EventType e) (ev_From e) n (ev_Status e) (ev_Delta e)
    (ev_LogicalTime e) (ev_Timestamp e) (ev_Scope e) (ev_Metadata e).
Definition set_delta (d : option bytes) (e : Event) : Event :=
  mkEvent (ev_EventType e) (ev_From e) (ev_SequenceNumber e) (ev_Status e) d
    (ev_LogicalTime e) (ev_Timestamp e) (ev_Scope e) (ev_Metadata e).
Definition set_scope (sc : Scope) (e : Event) : Event :=
  mkEvent (ev_EventType e) (ev_From e) (ev_SequenceNumber e) (ev_Status e) (ev_Delta e)
    (ev_LogicalTime e) (ev_Timestamp e) sc (ev_Metadata e).
Definition set_metadata (m : metadata) (e : Event) : Event :=
  mkEvent (ev_EventType e) (ev_From e) (ev_SequenceNumber e) (ev_Status e) (ev_Delta e)
    (ev_LogicalTime e) (ev_Timestamp e) (ev_Scope e) m.

(** ** Marshalling *)

Fixpoint any_json (v : any) : option json :=
  match v with
  | ANull => Some JNull
  | ABool b => Some (JBool b)
  | AInt z => Some (JNum (dec z))
  | AFloat l => Some (JNum l)
  | AStr s => Some (JStr (quote s))
  | ARaw None => Some JNull
  | ARaw (Some raw) => html_tree <$> parse raw
  | AArr vs => JArr <$> mapM any_json vs
  | AMap es => JObj <$> mapM (λ '(k, w), pair (quote k) <$> any_json w) es
  | AOpaque => None
  end.

Definition jstr (s : bytes) : json := JStr (quote s).
Definition field (name : string) (v : json) : bytes * json := (s2b name, v).

(** A member an [omitempty] string field writes. *)
Definition omit_str (name : string) (s : bytes) : list (bytes * json) :=
  match s with [] => [] | _ => [field name (jstr s)] end.

Definition source_json (s : Source) : json :=
  JObj (field "layer" (jstr (src_Layer s))
        :: omit_str "id" (src_ID s) ++ omit_str "parent_id" (src_ParentID s)).

Definition scope_json (s : Scope) : json :=
  JObj (omit_str "request_id" (scope_RequestID s) ++ omit_str "runner_id" (scope_RunnerID s)
        ++ omit_str "node_id" (scope_NodeID s) ++ omit_str "session_id" (scope_SessionID s)).

Definition delta_json (d : option bytes) : option json :=
  match d with None => Some JNull | Some raw => html_tree <$> parse raw end.

Definition metadata_json (m : metadata) : option (list (bytes * json)) :=
  match m with
  | None | Some [] => Some []
  | Some es => j ← any_json (AMap es); Some [field "metadata" j]
  end.

(** The members of a marshalled event, in field order. [omitempty] has no
    effect on the struct fields [Timestamp] and [Scope]. *)
Definition event_json (e : Event) : option json :=
  d ← delta_json (ev_Delta e);
  m ← metadata_json (ev_Metadata e);
  Some (JObj (
    [field "event_type" (jstr (ev_EventType e));
     field "from" (source_json (ev_From e));
     field "sequence_number" (JNum (dec (ev_SequenceNumber e)));
     field "status" (jstr (ev_Status e));
     field "delta" d]
    ++ (if ev_LogicalTime e =? 0 then [] else [field "logical_time" (JNum (dec (ev_LogicalTime e)))])
    ++ [field "timestamp" (JStr (ev_Timestamp e)); field "scope" (scope_json (ev_Scope e))]
    ++ m)).

Definition marshal_ok (e : Event) : bool := bool_decide (is_Some (event_json e)).

(** ** Preparing an event for emission *)

Definition or_base (x base : bytes) : bytes := match x with [] => base | _ => x end.

Definition mergeScope (base override : Scope) : Scope :=
  mkScope (or_base (scope_RequestID override) (scope_RequestID base))
          (or_base (scope_RunnerID override) (scope_RunnerID base))
          (or_base (scope_NodeID override) (scope_NodeID base))
          (or_base (scope_SessionID override) (scope_SessionID base)).

Definition is_empty (s : bytes) : bool := match s with [] => true | _ => false end.

Definition prepare (ev : Event) (scope : Scope) (sequence logicalTime : Z) (now : bytes)
  : res stream_err Event :=
  if is_empty (ev_EventType ev) then Err ErrInvalidEvent
  else if is_empty (src_Layer (ev_From ev)) then Err ErrInvalidEvent
  else if is_empty (ev_Status ev) then Err ErrInvalidEvent
  else
    let delta := default (s2b "null") (ev_Delta ev) in
    if negb (json_Valid delta) then Err ErrInvalidEvent
    else
      let ts := if decide (ev_Timestamp ev = zero_time) then now else ev_Timestamp ev in
      let out := mkEvent (ev_EventType ev) (ev_From ev) sequence (ev_Status ev) (Some delta)
                   logicalTime ts (mergeScope scope (ev_Scope ev)) (ev_Metadata ev) in
      if marshal_ok out then Ok out else Err ErrInvalidEvent.

(** ** Filters *)

Record Filter := mkFilter {
  f_EventTypes : list bytes;
  f_Prefixes : list bytes;
  f_Sources : list Source;     (* SourceSelector has the fields of Source *)
  f_Statuses : list bytes;
  f_Scope : Scope }.

Definition zero_filter : Filter := mkFilter [] [] [] [] zero_scope.

Fixpoint HasPrefix (s prefix : bytes) {struct prefix} : bool :=
  match prefix, s with
  | [], _ => true
  | p :: prefix', c :: s' => Ascii.eqb p c && HasPrefix s' prefix'
  | _ :: _, [] => false
  end.

Definition matchEventType (f : Filter) (eventType : bytes) : bool :=
  match f_EventTypes f, f_Prefixes f with
  | [], [] => true
  | wants, prefixes =>
      existsb (λ want, bool_decide (eventType = want)) wants
      || existsb (λ prefix, HasPrefix eventType prefix) prefixes
  end.

(** A selector field that is set and differs from the value. *)
Definition mismatch (want got : bytes) : bool :=
  negb (is_empty want) && negb (bool_decide (want = got)).

Definition matchSource (f : Filter) (source : Source) : bool :=
  match f_Sources f with
  | [] => true
  | sels => existsb (λ sel,
      negb (mismatch (src_Layer sel) (src_Layer source))
      && negb (mismatch (src_ID sel) (src_ID source))
      && negb (mismatch (src_ParentID sel) (src_ParentID source))) sels
  end.

Definition matchStatus (f : Filter) (status : bytes) : bool :=
  match f_Statuses f with
  | [] => true
  | wants => existsb (λ want, bool_decide (status = want)) wants
  end.

Definition matchScope (f : Filter) (scope : Scope) : bool :=
  let fs := f_Scope f in
  if mismatch (scope_RequestID fs) (scope_RequestID scope) then false
  else if mismatch (scope_RunnerID fs) (scope_RunnerID scope) then false
  else if mismatch (scope_NodeID fs) (scope_NodeID scope) then false
  else if mismatch (scope_SessionID fs) (scope_SessionID scope) then false
  else true.

Definition Match (f : Filter) (ev : Event) : bool :=
  if negb (matchEventType f (ev_EventType ev)) then false
  else if negb (matchSource f (ev_From ev)) then false
  else if negb (matchStatus f (ev_Status ev)) then false
  else matchScope f (ev_Scope ev).

(** ** Producer helpers *)

(** [cloneMetadata]: a fresh map with the same entries; [None] stays nil. *)
Definition cloneMetadata (m : metadata) : metadata := m.

(** A delta argument: nil, a raw message, or a value to marshal. *)
Inductive delta_arg := DNil | DRaw (raw : bytes) | DVal (v : any).

Definition marshalDelta (d : delta_arg) : res stream_err bytes :=
  match d with
  | DNil => Ok (s2b "null")
  | DRaw raw => if json_Valid raw then Ok raw else Err ErrInvalidEvent
  | DVal v => match any_json v with Some j => Ok (print j) | None => Err ErrEncode end
  end.

(** The events [Writer.Emit] and [Writer.Status] hand to [Stream.Emit]. *)
Definition writer_event (source : Source) (status : option bytes)
    (eventType : bytes) (delta : delta_arg) (md : metadata) : res stream_err Event :=
  let? raw := marshalDelta delta in
  Ok (mkEvent eventType source 0 (default StatusRunning status) (Some raw) 0 zero_time
        zero_scope (cloneMetadata md)).

Definition status_event (source : Source) (status : bytes) (delta : delta_arg)
  : res stream_err Event :=
  let? raw := marshalDelta delta in
  Ok (mkEvent EventStatusProgress source 0 status (Some raw) 0 zero_time zero_scope None).

(** ** Facts *)

Lemma or_base_nil_l x : or_base [] x = x. Proof. done. Qed.
Lemma or_base_nil_r x : or_base x [] = x. Proof. by destruct x. Qed.
Lemma or_base_assoc x y z : or_base (or_base x y) z = or_base x (or_base y z).
Proof. by destruct x. Qed.
Lemma or_base_idemp x : or_base x x = x. Proof. by destruct x. Qed.

Lemma mergeScope_assoc a b c :
  mergeScope a (mergeScope b c) = mergeScope (mergeScope a b) c.
Proof. unfold mergeScope; simpl. by rewrite !or_base_assoc. Qed.

Lemma mergeScope_idemp a b : mergeScope a (mergeScope a b) = mergeScope a b.
Proof. unfold mergeScope; simpl. by rewrite !or_base_assoc, !or_base_idemp. Qed.

Lemma json_Valid_spec s : json_Valid s = true ↔ ∃ v, parse s = Some v.
Proof. apply bool_decide_eq_true. Qed.

(** The outcome of [prepare]: the accepted events and what becomes of them. *)
Lemma prepare_ok ev scope seq lt now out :
  prepare ev scope seq lt now = Ok out →
  ev_EventType ev ≠ [] ∧ src_Layer (ev_From ev) ≠ [] ∧ ev_Status ev ≠ [] ∧
  json_Valid (default (s2b "null") (ev_Delta ev)) = true ∧ marshal_ok out = true ∧
  out = mkEvent (ev_EventType ev) (ev_From ev) seq (ev_Status ev)
          (Some (default (s2b "null") (ev_Delta ev))) lt
          (if decide (ev_Timestamp ev = zero_time) then now else ev_Timestamp ev)
          (mergeScope scope (ev_Scope ev)) (ev_Metadata ev).
Proof.
  unfold prepare. destruct (ev_EventType ev) eqn:E1; [done|].
  destruct (src_Layer (ev_From ev)) eqn:E2; [done|].
  destruct (ev_Status ev) eqn:E3; [done|]. cbn [is_empty].
  destruct (json_Valid _) eqn:E4; [|done]. cbn [negb].
  destruct (marshal_ok _) eqn:E5; [|done]. intros H. simplify_eq. done.
Qed.

Lemma prepare_err ev scope seq lt now e :
  prepare ev scope seq lt now = Err e → e = ErrInvalidEvent.
Proof. unfold prepare. cbn zeta. repeat case_match; by intros [= <-]. Qed.

Lemma zero_filter_match ev : Match zero_filter ev = true.
Proof. done. Qed.

Lemma HasPrefix_spec s p : HasPrefix s p = true ↔ ∃ r, s = p ++ r.
Proof.
  revert s. induction p as [|x p IH]; intros s; simpl; [split; by eauto|].
  destruct s as [|c s]; [split; [done|by intros [??]]|].
  rewrite andb_true_iff, Ascii.eqb_eq, IH. split.
  - intros (-> & r & ->). eauto.
  - intros (r & ?). simplify_eq. eauto.
Qed.

Lemma mismatch_false want got : mismatch want got = false ↔ want = [] ∨ want = got.
Proof.
  unfold mismatch. destruct want as [|c w]; simpl; [by intuition|].
  case_bool_decide; naive_solver.
Qed.

(** What a filter selects, field by field. *)
Definition sel_fits (want got : bytes) : Prop := want = [] ∨ want = got.

Definition selects (f : Filter) (ev : Event) : Prop :=
  (f_EventTypes f = [] ∧ f_Prefixes f = [] ∨ ev_EventType ev ∈ f_EventTypes f ∨
   ∃ p r, p ∈ f_Prefixes f ∧ ev_EventType ev = p ++ r) ∧
  (f_Sources f = [] ∨ ∃ sel, sel ∈ f_Sources f ∧
     sel_fits (src_Layer sel) (src_Layer (ev_From ev)) ∧
     sel_fits (src_ID sel) (src_ID (ev_From ev)) ∧
     sel_fits (src_ParentID sel) (src_ParentID (ev_From ev))) ∧
  (f_Statuses f = [] ∨ ev_Status ev ∈ f_Statuses f) ∧
  sel_fits (scope_RequestID (f_Scope f)) (scope_RequestID (ev_Scope ev)) ∧
  sel_fits (scope_RunnerID (f_Scope f)) (scope_RunnerID (ev_Scope ev)) ∧
  sel_fits (scope_NodeID (f_Scope f)) (scope_NodeID (ev_Scope ev)) ∧
  sel_fits (scope_SessionID (f_Scope f)) (scope_SessionID (ev_Scope ev)).

Lemma existsb_elem {A} (p : A → bool) l : existsb p l = true ↔ ∃ x, x ∈ l ∧ p x = true.
Proof.
  rewrite existsb_exists. split; intros (x & Hx & ?); exists x;
    (split; [by apply list_elem_of_In|done]).
Qed.

Lemma existsb_eq `{EqDecision A} (x : A) l :
  existsb (λ want, bool_decide (x = want)) l = true ↔ x ∈ l.
Proof.
  rewrite existsb_elem. setoid_rewrite bool_decide_eq_true. naive_solver.
Qed.

Lemma matchEventType_spec f t :
  matchEventType f t = true ↔
  (f_EventTypes f = [] ∧ f_Prefixes f = [] ∨ t ∈ f_EventTypes f ∨
   ∃ p r, p ∈ f_Prefixes f ∧ t = p ++ r).
Proof.
  assert (∀ wants prefixes : list bytes,
    existsb (λ want, bool_decide (t = want)) wants
    || existsb (λ prefix, HasPrefix t prefix) prefixes = true ↔
    t ∈ wants ∨ ∃ p r, p ∈ prefixes ∧ t = p ++ r) as H.
  { intros wants prefixes. rewrite orb_true_iff, existsb_eq, existsb_elem.
    setoid_rewrite HasPrefix_spec. naive_solver. }
  unfold matchEventType.
  destruct (f_EventTypes f) as [|w ws], (f_Prefixes f) as [|p ps]; rewrite ?H; naive_solver.
Qed.

Lemma matchSource_spec f s :
  matchSource f s = true ↔
  (f_Sources f = [] ∨ ∃ sel, sel ∈ f_Sources f ∧ sel_fits (src_Layer sel) (src_Layer s) ∧
     sel_fits (src_ID sel) (src_ID s) ∧ sel_fits (src_ParentID sel) (src_ParentID s)).
Proof.
  unfold matchSource, sel_fits. setoid_rewrite <-mismatch_false.
  destruct (f_Sources f) as [|w ws]; [naive_solver|]. rewrite existsb_elem.
  setoid_rewrite andb_true_iff. setoid_rewrite andb_true_iff.
  setoid_rewrite negb_true_iff. naive_solver.
Qed.

Lemma matchStatus_spec f st :
  matchStatus f st = true ↔ (f_Statuses f = [] ∨ st ∈ f_Statuses f).
Proof.
  unfold matchStatus. destruct (f_Statuses f) as [|w ws]; [naive_solver|].
  rewrite existsb_eq. naive_solver.
Qed.

Lemma matchScope_spec f sc :
  matchScope f sc = true ↔
  sel_fits (scope_RequestID (f_Scope f)) (scope_RequestID sc) ∧
  sel_fits (scope_RunnerID (f_Scope f)) (scope_RunnerID sc) ∧
  sel_fits (scope_NodeID (f_Scope f)) (scope_NodeID sc) ∧
  sel_fits (scope_SessionID (f_Scope f)) (scope_SessionID sc).
Proof.
  unfold matchScope, sel_fits. rewrite <-!mismatch_false.
  repeat destruct (mismatch _ _); naive_solver.
Qed.

(** ** Properties *)

(** a filter selects an event exactly when each criterion that is set holds of it:
    the type is listed or has a listed prefix, one source selector fits field by
    field, the status is listed, and every scope field that is set agrees. *)
Theorem Match_spec (f : Filter) (ev : Event) : Match f ev = true ↔ selects f ev.
Proof.
  unfold Match, selects.
  rewrite <-matchEventType_spec, <-matchSource_spec, <-matchStatus_spec, <-matchScope_spec.
  destruct (matchEventType _ _), (matchSource _ _), (matchStatus _ _); naive_solver.
Qed.

(** [prepare] accepts exactly the events with a type, a source layer, a status, a
    delta that is valid JSON and a record that marshals; it numbers them, fills in the
    missing delta, time and scope fields and keeps everything else. *)
Theorem prepare_spec (ev out : Event) (scope : Scope) (seq lt : Z) (now : bytes) :
  prepare ev scope seq lt now = Ok out ↔
  ev_EventType ev ≠ [] ∧ src_Layer (ev_From ev) ≠ [] ∧ ev_Status ev ≠ [] ∧
  (∃ v, parse (default (s2b "null") (ev_Delta ev)) = Some v) ∧
  (∃ j, event_json out = Some j) ∧
  out = mkEvent (ev_EventType ev) (ev_From ev) seq (ev_Status ev)
          (Some (default (s2b "null") (ev_Delta ev))) lt
          (if decide (ev_Timestamp ev = zero_time) then now else ev_Timestamp ev)
          (mergeScope scope (ev_Scope ev)) (ev_Metadata ev).
Proof.
  rewrite <-json_Valid_spec. split.
  - intros (?&?&?&?&Hm&->)%prepare_ok. by apply bool_decide_eq_true in Hm.
  - intros (H1 & H2 & H3 & H4 & [j Hj] & Ho). unfold prepare. rewrite H4, <-Ho. unfold marshal_ok.
    rewrite bool_decide_eq_true_2 by (by eexists).
    by destruct (ev_EventType ev), (src_Layer (ev_From ev)), (ev_Status ev).
Qed.
