(* ===== verification/Path.v ===== *)
(** Slash-separated paths as Go's [path/filepath] treats them on Unix: cleaning,
    joining, splitting off the last element, and relative paths. The facts are
    about rooted clean paths, which [abs] writes from their elements. *)
From S2P Require Import Prelude Json Text Event.
#[local] Open Scope char_scope.

(** ** Functions of [filepath] *)

Definition slash : ascii := "/".
Definition dot : bytes := s2b ".".
Definition dotdot : bytes := s2b "..".

Definition IsAbs (p : bytes) : bool := match p with c :: _ => Ascii.eqb c slash | [] => false end.

Definition nonempty (s : bytes) : bool := match s with [] => false | _ => true end.

(** The elements of a path, without the empty ones. *)
Definition pieces (p : bytes) : list bytes := List.filter nonempty (SplitByte slash p).

(** [Clean] resolves the elements [.] and [..] from left to right; [acc] holds
    the elements kept so far, the last one first. *)
Fixpoint squash (rooted : bool) (acc es : list bytes) : list bytes :=
  match es with
  | [] => reverse acc
  | e :: es' =>
      if bool_decide (e = dot) then squash rooted acc es'
      else if bool_decide (e = dotdot) then
        match acc with
        | [] => squash rooted (if rooted then [] else [dotdot]) es'
        | a :: acc' =>
            if bool_decide (a = dotdot) then squash rooted (dotdot :: acc) es'
            else squash rooted acc' es'
        end
      else squash rooted (e :: acc) es'
  end.

(** The rooted path with the given elements. *)
Definition abs (es : list bytes) : bytes := slash :: Join es [slash].

Definition Clean (p : bytes) : bytes :=
  let es := squash (IsAbs p) [] (pieces p) in
  if IsAbs p then abs es
  else match es with [] => dot | _ => Join es [slash] end.

(** [filepath.Join]. *)
Definition path_Join (elems : list bytes) : bytes :=
  match List.filter nonempty elems with [] => [] | es => Clean (Join es [slash]) end.

(** [filepath.Dir] cleans what precedes the last element, [filepath.Base] is the
    last element. *)
Definition dir_part (p : bytes) : bytes :=
  match LastIndex p [slash] with Some i => take (S i) p | None => [] end.
Definition Dir (p : bytes) : bytes := Clean (dir_part p).
Definition Base (p : bytes) : bytes :=
  match p with
  | [] => dot
  | _ => match last (pieces p) with Some n => n | None => [slash] end
  end.

(** [filepath.Ext]: from the last dot of the last element. *)
Fixpoint ext_rev (acc s : bytes) : bytes :=
  match s with
  | [] => []
  | c :: r => if Ascii.eqb c slash then []
              else if Ascii.eqb c "." then c :: acc
              else ext_rev (c :: acc) r
  end.
Definition Ext (p : bytes) : bytes := ext_rev [] (reverse p).

Fixpoint strip_common (b t : list bytes) : list bytes * list bytes :=
  match b, t with
  | x :: b', y :: t' => if bool_decide (x = y) then strip_common b' t' else (b, t)
  | _, _ => (b, t)
  end.

(** [filepath.Rel]; [None] is its error. *)
Definition Rel (basepath targpath : bytes) : option bytes :=
  let base := Clean basepath in
  let targ := Clean targpath in
  if bool_decide (targ = base) then Some dot
  else
    let base := if bool_decide (base = dot) then [] else base in
    if negb (Bool.eqb (IsAbs base) (IsAbs targ)) then None
    else match strip_common (pieces base) (pieces targ) with
         | ([], t) => Some (Join t [slash])
         | (x :: b, t) =>
             if bool_decide (x = dotdot) && bool_decide (t ≠ []) then None
             else Some (Join (replicate (S (List.length b)) dotdot ++ t) [slash])
         end.

Example Clean_1 : b2s (Clean (s2b "/a/./b//../../..//c/")) = "/c"%string.
Proof. reflexivity. Qed.
Example Clean_2 : b2s (Clean (s2b "a/../../b/.")) = "../b"%string.
Proof. reflexivity. Qed.
Example Clean_3 : b2s (Clean (s2b "a/..")) = "."%string.
Proof. reflexivity. Qed.
Example Rel_1 : b2s <$> Rel (s2b "/a/b") (s2b "/a/c/d") = Some "../c/d"%string.
Proof. reflexivity. Qed.
Example Dir_1 : b2s (Dir (s2b "/a/b//")) = "/a/b"%string ∧ b2s (Base (s2b "/a/b//")) = "b"%string.
Proof. done. Qed.

(** ** Elements *)

(** The name of an entry of a directory. *)
Definition plain (n : bytes) : Prop := n ≠ [] ∧ n ≠ dot ∧ n ≠ dotdot ∧ slash ∉ n.

#[export] Instance plain_dec n : Decision (plain n).
Proof. unfold plain. apply _. Defined.

Lemma plain_nonempty n : plain n → nonempty n = true.
Proof. intros [Hn _]. by destruct n. Qed.

Lemma split_slash a b : slash ∉ a → SplitByte slash (a ++ slash :: b) = a :: SplitByte slash b.
Proof. intros Ha. by rewrite SplitByte_sep, SplitByte_one. Qed.

Lemma SplitByte_Join es : es ≠ [] → Forall (λ e, slash ∉ e) es → SplitByte slash (Join es [slash]) = es.
Proof.
  induction es as [|e es IH]; [done|]. intros _ [He Hes]%List.Forall_cons_iff.
  destruct (decide (es = [])) as [->|Hne].
  - simpl. rewrite app_nil_r. by apply SplitByte_one.
  - rewrite Join_cons by done. rewrite split_slash by done. by rewrite IH.
Qed.

Lemma pieces_slash p : pieces (slash :: p) = pieces p.
Proof. done. Qed.

Lemma pieces_Join es : Forall plain es → pieces (Join es [slash]) = es.
Proof.
  intros Hes. unfold pieces. destruct (decide (es = [])) as [->|Hne]; [done|].
  rewrite SplitByte_Join; [|done|by eapply Forall_impl; [done|]; intros ? (?&?&?&?)].
  apply list_filter_all. intros e He. eapply Forall_forall in Hes; [|done].
  by apply plain_nonempty.
Qed.

Lemma pieces_abs es : Forall plain es → pieces (abs es) = es.
Proof. intros. unfold abs. rewrite pieces_slash. by apply pieces_Join. Qed.

Lemma abs_inj a b : Forall plain a → Forall plain b → abs a = abs b → a = b.
Proof. intros Ha Hb E. rewrite <- (pieces_abs a Ha), <- (pieces_abs b Hb). by rewrite E. Qed.

(** What [SplitByte] returns has no slash. *)
Lemma SplitByte_no_slash p : Forall (λ e, slash ∉ e) (SplitByte slash p).
Proof.
  induction p as [|c p IH]; simpl; [by repeat constructor; apply not_elem_of_nil|].
  destruct (Ascii.eqb_spec c slash) as [->|Hc]; [by constructor; [apply not_elem_of_nil|]|].
  destruct (SplitByte slash p) as [|q qs]; apply List.Forall_cons_iff.
  - split; [|done]. apply not_elem_of_cons. split; [done|apply not_elem_of_nil].
  - apply List.Forall_cons_iff in IH as [Hq Hqs]. split; [|done].
    apply not_elem_of_cons. by split.
Qed.

Definition named (n : bytes) : Prop := n ≠ [] ∧ slash ∉ n.

Lemma pieces_named p : Forall named (pieces p).
Proof.
  apply Forall_forall. intros e [He Hn]%elem_of_list_filter'. split; [by destruct e|].
  by apply (Forall_forall (λ e, slash ∉ e)) with (SplitByte slash p); [apply SplitByte_no_slash|].
Qed.

(** [squash] keeps names: with a root only entries, without one the parents
    come first. *)
Lemma squash_rooted acc es : Forall plain acc → Forall named es → Forall plain (squash true acc es).
Proof.
  revert acc. induction es as [|e es IH]; intros acc Ha Hes; simpl; [by apply Forall_reverse|].
  apply List.Forall_cons_iff in Hes as [[He Hs] Hes].
  case_bool_decide; [by apply IH|]. case_bool_decide.
  - destruct acc as [|a acc]; [by apply IH|]. apply List.Forall_cons_iff in Ha as [Hp Ha].
    case_bool_decide as Hd; [|by apply IH]. by destruct Hp as (?&?&?&?).
  - apply IH; [|done]. constructor; [|done]. by split_and!.
Qed.

Lemma squash_plain b acc es : Forall plain es → squash b acc es = reverse acc ++ es.
Proof.
  revert acc. induction es as [|e es IH]; intros acc Hes; simpl; [by rewrite app_nil_r|].
  apply List.Forall_cons_iff in Hes as [(?&?&?&?) Hes].
  rewrite !bool_decide_eq_false_2 by done. rewrite IH by done.
  by rewrite reverse_cons, <- app_assoc.
Qed.

Lemma squash_app b acc es fs : Forall plain es → squash b acc (es ++ fs) = squash b (reverse es ++ acc) fs.
Proof.
  revert acc. induction es as [|e es IH]; intros acc Hes; simpl; [done|].
  apply List.Forall_cons_iff in Hes as [(?&?&?&?) Hes].
  rewrite !bool_decide_eq_false_2 by done. rewrite IH by done.
  by rewrite reverse_cons, <- app_assoc.
Qed.

(** ** Rooted paths *)

Definition rooted (p : bytes) : Prop := ∃ es, Forall plain es ∧ p = abs es.

Lemma Clean_abs es : Forall plain es → Clean (abs es) = abs es.
Proof.
  intros Hes. unfold Clean. simpl. rewrite pieces_abs by done.
  by rewrite squash_plain by done.
Qed.

Lemma Clean_rooted p : IsAbs p = true → rooted (Clean p).
Proof.
  intros Hp. unfold Clean. rewrite Hp. eexists. split; [|done].
  apply squash_rooted; [done|]. apply pieces_named.
Qed.

Lemma pieces_app a b : pieces (a ++ slash :: b) = pieces a ++ pieces b.
Proof.
  unfold pieces. by rewrite SplitByte_sep, List.filter_app.
Qed.

Lemma path_Join_two a b : nonempty a = true → nonempty b = true → path_Join [a; b] = Clean (a ++ slash :: b).
Proof. intros Ha Hb. unfold path_Join. simpl. rewrite Ha, Hb. simpl. by rewrite app_nil_r. Qed.

Lemma path_Join_abs es b fs : Forall plain es → nonempty b = true →
  pieces b = fs → Forall plain fs → path_Join [abs es; b] = abs (es ++ fs).
Proof.
  intros Hes Hb <- Hfs. rewrite path_Join_two by done. unfold Clean.
  rewrite pieces_app, pieces_abs by done. cbn [IsAbs abs app].
  rewrite Ascii.eqb_refl. by rewrite squash_plain by (by apply Forall_app).
Qed.

Lemma plain_pieces m : plain m → pieces m = [m].
Proof.
  intros Hm. destruct Hm as (Hn&?&?&Hs). unfold pieces. rewrite SplitByte_one by done.
  simpl. by destruct m.
Qed.

Lemma path_Join_name es m : Forall plain es → plain m → path_Join [abs es; m] = abs (es ++ [m]).
Proof.
  intros Hes Hm. apply path_Join_abs; [done|by apply plain_nonempty|by apply plain_pieces|].
  by constructor.
Qed.

(** The last slash of a path that ends with a name. *)
Lemma LastIndex_slash a m : slash ∉ m → LastIndex (a ++ slash :: m) [slash] = Some (List.length a).
Proof.
  intros Hm. induction a as [|c a IH]; [|by cbn [app LastIndex]; rewrite IH].
  cbn [app LastIndex].
  assert (LastIndex m [slash] = None) as ->.
  { destruct (LastIndex m [slash]) eqn:E; [|done]. apply LastIndex_Some in E as (x&y&->&_).
    destruct Hm. set_solver. }
  by destruct m.
Qed.

Lemma path_Join_snoc es m : es ≠ [] → Join (es ++ [m]) [slash] = Join es [slash] ++ slash :: m.
Proof.
  induction es as [|e es IH]; [done|]. intros _. destruct es as [|f es].
  - simpl. by rewrite !app_nil_r.
  - change ((e :: f :: es) ++ [m]) with (e :: ((f :: es) ++ [m])).
    rewrite !Join_cons by done. rewrite IH by done. by rewrite <- app_assoc.
Qed.

(** [abs] of one more element, as the parent and the name. *)
Lemma abs_snoc es m : ∃ a, abs (es ++ [m]) = a ++ slash :: m ∧ Clean (a ++ [slash]) = Clean (abs es).
Proof.
  destruct (decide (es = [])) as [->|Hne].
  - exists []. split; [|done]. unfold abs. simpl. by rewrite app_nil_r.
  - exists (abs es). split; [unfold abs; by rewrite path_Join_snoc|].
    unfold Clean. rewrite pieces_app. by cbn [IsAbs abs app]; rewrite app_nil_r.
Qed.

Lemma Dir_abs es m : Forall plain es → plain m → Dir (abs (es ++ [m])) = abs es.
Proof.
  intros Hes (?&?&?&Hs). unfold Dir, dir_part. destruct (abs_snoc es m) as (a&->&Ha).
  rewrite LastIndex_slash by done.
  replace (a ++ slash :: m) with ((a ++ [slash]) ++ m) by by rewrite <- app_assoc.
  rewrite take_app_le by (rewrite length_app; simpl; lia).
  rewrite take_ge by (rewrite length_app; simpl; lia).
  by rewrite Ha, Clean_abs.
Qed.

Lemma Dir_root : Dir (abs []) = abs [].
Proof. done. Qed.

Lemma Base_abs es m : Forall plain es → plain m → Base (abs (es ++ [m])) = m.
Proof.
  intros Hes Hm. unfold Base. rewrite pieces_abs by (apply Forall_app; by split; [|apply Forall_singleton]).
  rewrite last_snoc. done.
Qed.

Lemma abs_dot es : Forall plain es → path_Join [abs es; dot] = abs es.
Proof.
  intros Hes. rewrite path_Join_two by done. unfold Clean. rewrite pieces_app, pieces_abs by done.
  cbn [IsAbs abs app]. rewrite Ascii.eqb_refl, squash_app by done. simpl. by rewrite app_nil_r, reverse_involutive.
Qed.

(** A clean relative path goes up first and then down. *)
Lemma squash_relative k acc es : Forall plain acc → Forall named es →
  ∃ j fs, squash false (acc ++ replicate k dotdot) es = replicate j dotdot ++ fs ∧ Forall plain fs.
Proof.
  revert k acc. induction es as [|e es IH]; intros k acc Ha Hes; simpl.
  - exists k, (reverse acc). rewrite reverse_app, reverse_replicate. by split; [|apply Forall_reverse].
  - apply List.Forall_cons_iff in Hes as [[He Hs] Hes].
    case_bool_decide; [by apply IH|]. case_bool_decide.
    + destruct acc as [|a acc]; simpl.
      * destruct k as [|k]; simpl; [by apply (IH 1%nat [])|].
        by apply (IH (S (S k)) []).
      * apply List.Forall_cons_iff in Ha as [Hp Ha].
        rewrite bool_decide_eq_false_2 by (by destruct Hp as (?&?&?&?)). by apply IH.
    + apply (IH k (e :: acc)); [|done]. by repeat constructor.
Qed.

Lemma Clean_relative p : IsAbs p = false → Clean p ≠ dotdot →
  HasPrefix (Clean p) (s2b "../") = false → Clean p = dot ∨ ∃ es, es ≠ [] ∧ Forall plain es ∧ Clean p = Join es [slash].
Proof.
  intros Hp. unfold Clean. rewrite Hp.
  destruct (squash_relative 0 [] (pieces p)) as (j&fs&E&Hfs); [done|apply pieces_named|].
  simpl in E. rewrite E. destruct j as [|j]; simpl.
  - intros _ _. destruct fs as [|f fs]; [by left|]. right. by exists (f :: fs).
  - destruct j as [|j]; simpl; [destruct fs as [|f fs]|]; done.
Qed.

(** ** Containment *)

Lemma strip_common_spec b t c d : strip_common b t = (c, d) →
  ∃ a, b = a ++ c ∧ t = a ++ d ∧ (c = [] ∨ d = [] ∨ head c ≠ head d).
Proof.
  revert t. induction b as [|x b IH]; intros t; simpl; [by intros [= <- <-]; exists []; auto|].
  destruct t as [|y t]; [intros [= <- <-]; exists []; auto|].
  case_bool_decide as Hxy; [subst y|].
  - intros H%IH. destruct H as (a&->&->&H). by exists (x :: a).
  - intros [= <- <-]. exists []. split_and!; [done|done|]. right. right. simpl. congruence.
Qed.

(** [target] is [root] or lies below it. *)
Definition below (root target : bytes) : Prop :=
  ∃ a b, Forall plain a ∧ Forall plain b ∧ root = abs a ∧ target = abs (a ++ b).

Lemma Rel_abs a t : Forall plain a → Forall plain t →
  Rel (abs a) (abs t) = if bool_decide (a = t) then Some dot else
    let '(b, d) := strip_common a t in
    Some (Join (match b with [] => d | _ => replicate (List.length b) dotdot ++ d end) [slash]).
Proof.
  intros Ha Ht. unfold Rel. rewrite !Clean_abs by done.
  destruct (decide (a = t)) as [->|Hne]; [by rewrite !bool_decide_eq_true_2|].
  rewrite (bool_decide_eq_false_2 (abs t = abs a)) by (intros E; apply Hne; symmetry; by apply abs_inj).
  rewrite (bool_decide_eq_false_2 (a = t)) by done.
  rewrite (bool_decide_eq_false_2 (abs a = dot)) by done.
  cbn [IsAbs abs Bool.eqb negb]. rewrite Ascii.eqb_refl. simpl negb. cbv iota.
  change (slash :: Join a [slash]) with (abs a). change (slash :: Join t [slash]) with (abs t).
  rewrite !pieces_abs by done.
  destruct (strip_common a t) as [[|x b] d] eqn:E; [done|].
  apply strip_common_spec in E as (c&->&_&_).
  apply Forall_app in Ha as [_ [(?&?&?&?) _]%List.Forall_cons_iff].
  by rewrite bool_decide_eq_false_2.
Qed.

Definition escapes (rel : bytes) : bool := bool_decide (rel = dotdot) || HasPrefix rel (s2b "../").

Lemma escapes_up k d : escapes (Join (replicate (S k) dotdot ++ d) [slash]) = true.
Proof. destruct k; [destruct d|]; done. Qed.

Lemma escapes_names d : Forall plain d → escapes (Join d [slash]) = false.
Proof.
  intros Hd. unfold escapes. destruct d as [|x d]; [done|].
  apply List.Forall_cons_iff in Hd as [(H1&H2&H3&H4) Hd].
  assert (Join (x :: d) [slash] ≠ dotdot ∧ HasPrefix (Join (x :: d) [slash]) (s2b "../") = false) as [E ->].
  { destruct (decide (d = [])) as [->|Hne].
    - simpl. rewrite app_nil_r. split; [done|]. destruct (HasPrefix x (s2b "../")) eqn:E; [|done].
      apply HasPrefix_spec in E as [r ->]. destruct H4. simpl. unfold slash. set_solver.
    - rewrite Join_cons by done. destruct x as [|c x]; [done|]. split.
      + destruct x as [|c' x]; [by intros [= _ E]|]. intros [= _ E E']. by destruct x.
      + match goal with |- ?b = false => destruct b eqn:E end; [|done]. apply HasPrefix_spec in E as [r E]. simpl in E.
        injection E as E1 E2. destruct x as [|c' x]; simpl in E2; [by injection E2 as E2|].
        injection E2 as E2 E3. destruct x as [|c'' x]; [subst; by destruct H3|].
        simpl in E3. injection E3 as E3 _. subst. destruct H4. unfold slash. set_solver. }
  by rewrite bool_decide_eq_false_2.
Qed.

Lemma Rel_within a t : Forall plain a → Forall plain t →
  (match Rel (abs a) (abs t) with Some rel => negb (escapes rel) | None => false end) = true
  ↔ ∃ b, t = a ++ b.
Proof.
  intros Ha Ht. rewrite Rel_abs by done. case_bool_decide as Hat.
  - subst t. split; [by exists []; rewrite app_nil_r|done].
  - destruct (strip_common a t) as [b d] eqn:E.
    destruct (strip_common_spec _ _ _ _ E) as (c&->&->&Hc).
    apply Forall_app in Ht as [Hpc Hd]. destruct b as [|x b].
    + rewrite escapes_names by done. split; [|done]. intros _. exists d. by rewrite app_nil_r.
    + change (List.length (x :: b)) with (S (List.length b)). rewrite escapes_up.
      split; [done|]. intros [y Hy]. rewrite <- app_assoc in Hy. apply app_inv_head in Hy. subst d.
      simpl in Hc. destruct Hc as [?|[?|?]]; done.
Qed.

Lemma below_refl p : rooted p → below p p.
Proof. intros (es&Hes&->). exists es, []. by rewrite app_nil_r. Qed.

Lemma below_rooted r p : below r p → rooted p.
Proof. intros (a&b&Ha&Hb&_&->). exists (a ++ b). by rewrite Forall_app. Qed.

Lemma below_trans a b c : below a b → below b c → below a c.
Proof.
  intros (x&y&Hx&Hy&->&->) (x'&z&Hx'&Hz&E&->).
  apply abs_inj in E; [|by apply Forall_app|done]. subst x'.
  exists x, (y ++ z). rewrite app_assoc. by rewrite Forall_app.
Qed.
