(* ===== verification/Os.v ===== *)
(** Programs that call the operating system: the calls of [os] and [filepath] the
    code makes, programs over them with early returns, what a program does on a
    given file system, and a weakest precondition that also constrains every call.

    The operating system is a parameter ([FileSystem]); [FileSystemLaws] states
    what the code relies on (path_resolution(7), os.Lstat, filepath.EvalSymlinks). *)
From S2P Require Import Prelude Json Text Event Path.

(** ** Calls *)

(** What a name refers to, its own symbolic link not followed. *)
Inductive kind := KDir | KFile | KLink.
#[export] Instance kind_eq_dec : EqDecision kind.
Proof. solve_decision. Defined.

(** [os.IsNotExist] tells the first apart. *)
Inductive os_err := NotExist | OsErr (msg : bytes).

Abbreviation os_res := (res os_err).

(** What a command printed, how it failed, and whether its deadline had passed. *)
Record command_result := mkRun { rn_out : bytes; rn_err : option bytes; rn_late : bool }.

(** [Run dir command limit out] is [/bin/bash -c command] in [dir], for [limit]
    nanoseconds at most, its output to the file [out] or captured. *)
Inductive call : Type → Type :=
| Lstat (p : bytes) : call (os_res kind)
| Stat (p : bytes) : call (os_res kind)
| EvalSymlinks (p : bytes) : call (os_res bytes)
| Abs (p : bytes) : call (os_res bytes)
| ReadFile (p : bytes) : call (os_res bytes)
| ReadDir (p : bytes) : call (os_res (list (bytes * kind)))
| WriteFile (p data : bytes) : call (os_res ())
| MkdirAll (p : bytes) : call (os_res ())
| MkdirTemp (prefix : bytes) : call (os_res bytes)
| CreateTemp (dir prefix : bytes) : call (os_res bytes)
| Chmod (p : bytes) : call (os_res ())
| Write (p data : bytes) : call (os_res ())
| CloseFile (p : bytes) : call (os_res ())
| Remove (p : bytes) : call (os_res ())
| RemoveAll (p : bytes) : call (os_res ())
| Rename (p q : bytes) : call (os_res ())
| Symlink (target p : bytes) : call (os_res ())
| FileSize (p : bytes) : call (os_res Z)
| Create (p : bytes) : call (os_res ())
| Run (dir command : bytes) (limit : option Z) (out : option bytes) : call command_result.

(** ** Programs *)

Inductive prog (A : Type) : Type :=
| Ret (a : A)
| Do {B : Type} (c : call B) (k : B → prog A).
Arguments Ret {A} a.
Arguments Do {A B} c k.

Fixpoint prog_bind {A B} (f : A → prog B) (p : prog A) : prog B :=
  match p with
  | Ret a => f a
  | Do c k => Do c (λ b, prog_bind f (k b))
  end.
#[export] Instance prog_mbind : MBind prog := @prog_bind.
#[export] Instance prog_mret : MRet prog := @Ret.

Definition ask {B} (c : call B) : prog B := Do c Ret.

(** [x, err := c; if err != nil { return wrap(err) }]. *)
Definition try_bind {E F A B} (wrap : E → F) (p : prog (res E A)) (f : A → prog (res F B))
  : prog (res F B) :=
  p ≫= λ r, match r with Ok a => f a | Err e => Ret (Err (wrap e)) end.

Notation "'try' x := p 'or' w 'in' k" := (try_bind w p (λ x, k))
  (at level 10, x name, p at level 100, w at level 9, k at level 200) : go_scope.

(** ** The operating system *)

Class FileSystem (W : Type) := os_step : ∀ B, call B → W → B * W.

Definition answer `{FileSystem W} {B} (c : call B) (s : W) : B := (os_step B c s).1.
Definition after `{FileSystem W} {B} (c : call B) (s : W) : W := (os_step B c s).2.

Fixpoint exec `{FileSystem W} {A} (p : prog A) (s : W) : A * W :=
  match p with
  | Ret a => (a, s)
  | Do c k => exec (k (answer c s)) (after c s)
  end.

(** The calls that only look. *)
Definition query {B} (c : call B) : bool :=
  match c with
  | Lstat _ | Stat _ | EvalSymlinks _ | Abs _ | ReadFile _ | ReadDir _ | FileSize _ => true
  | _ => false
  end.

(** Those that put no symbolic link anywhere. *)
Definition linkless {B} (c : call B) : bool :=
  match c with Rename _ _ | Symlink _ _ | Run _ _ _ _ => false | _ => true end.

(** Those that create a file or directories and remove nothing. *)
Definition creates {B} (c : call B) : bool := match c with MkdirAll _ | WriteFile _ _ => true | _ => false end.

Definition child (p m : bytes) : bytes := path_Join [p; m].

(** [q] is [p] or one of the directories above it. *)
Definition prefix_path (q p : bytes) : Prop :=
  ∃ a b, Forall plain a ∧ Forall plain b ∧ q = abs a ∧ p = abs (a ++ b).

(** The longest path, with its final null byte. *)
Definition path_max : nat := 4096.
Lemma path_max_pos : (0 < path_max)%nat.
Proof. unfold path_max. lia. Qed.
#[global] Opaque path_max.

Section laws.
Context `{FileSystem W}.

Definition name_kind (s : W) (p : bytes) : os_res kind := answer (Lstat p) s.

(** No symbolic link is met on the way down [p]: the path names itself. *)
Definition unlinked (s : W) (p : bytes) : Prop :=
  rooted p ∧ ∀ q, prefix_path q p → name_kind s q ≠ Ok KLink.
End laws.

Class FileSystemLaws (W : Type) `{FileSystem W} := {
  (** [filepath.Abs] makes a path absolute and cleans it. *)
  abs_rooted s p q : answer (Abs p) s = Ok q → rooted q;
  abs_id s p : rooted p → answer (Abs p) s = Ok p;
  (** A resolved path exists and has no symbolic link on it. *)
  eval_unlinked s p q : rooted p → answer (EvalSymlinks p) s = Ok q → unlinked s q;
  (** Such a path resolves to itself. *)
  eval_id s p k : unlinked s p → name_kind s p = Ok k → answer (EvalSymlinks p) s = Ok p;
  (** A directory has the same entries under all its names. *)
  eval_child s p q m : rooted p → plain m → answer (EvalSymlinks p) s = Ok q →
    name_kind s (child p m) = name_kind s (child q m);
  (** Nothing exists below a name that does not. *)
  below_missing s p m : rooted p → plain m → name_kind s p = Err NotExist →
    name_kind s (child p m) = Err NotExist;
  query_state s B (c : call B) : query c = true → after c s = s;
  (** Creating, writing and removing files puts no link on a path without one. *)
  linkless_unlinked s B (c : call B) p : linkless c = true → unlinked s p → unlinked (after c s) p;
  (** A rename that fails changes nothing. *)
  rename_failed s p q e : answer (Rename p q) s = Err e → after (Rename p q) s = s;
  (** A temporary file is a new entry of its directory. *)
  temp_child s d pre t : rooted d → answer (CreateTemp d pre) s = Ok t →
    ∃ m, plain m ∧ t = child d m ∧ (unlinked s d → unlinked (after (CreateTemp d pre) s) t);
  (** The content of a directory cannot be read as a file's. *)
  read_file_kind s p data : answer (ReadFile p) s = Ok data → name_kind s p ≠ Ok KDir;
  (** A directory lists names. *)
  read_dir_plain s p es : answer (ReadDir p) s = Ok es → Forall (λ e, plain e.1) es;
  (** A path as long as PATH_MAX is refused. *)
  read_dir_long s p : (path_max ≤ List.length p)%nat → ∃ e, answer (ReadDir p) s = Err e;
  (** Creating directories leaves what there is. *)
  mkdir_keeps s d p k : name_kind s p = Ok k → name_kind (after (MkdirAll d) s) p = Ok k;
  mkdir_keeps_dir s d p : answer (Stat p) s = Ok KDir → answer (Stat p) (after (MkdirAll d) s) = Ok KDir;
  (** Nor does creating change what a name resolves to. *)
  create_keeps_eval s B (c : call B) p q : creates c = true → answer (EvalSymlinks p) s = Ok q →
    answer (EvalSymlinks p) (after c s) = Ok q;
  (** What it reports as created is a directory. *)
  mkdir_dir s p : answer (MkdirAll p) s = Ok () → answer (Stat p) (after (MkdirAll p) s) = Ok KDir;
}.

(** ** Weakest preconditions

    [wp I p s Q]: run on [s], every call of [p] satisfies [I] in the state it is
    made in, and the result and the final state satisfy [Q]. *)

Section wp.
Context `{FileSystem W} (I : W → ∀ B, call B → Prop).

Fixpoint wp {A} (p : prog A) (s : W) (Q : A → W → Prop) : Prop :=
  match p with
  | Ret a => Q a s
  | Do c k => I s _ c ∧ wp (k (answer c s)) (after c s) Q
  end.

Lemma wp_bind {A B} (p : prog A) (f : A → prog B) s Q :
  wp p s (λ a s', wp (f a) s' Q) → wp (p ≫= f) s Q.
Proof.
  revert s. induction p as [a|C c k IH]; intros s; simpl; [done|].
  intros [Hc Hk]. split; [done|]. by apply IH.
Qed.

Lemma wp_mono {A} (p : prog A) s (Q R : A → W → Prop) :
  (∀ a s', Q a s' → R a s') → wp p s Q → wp p s R.
Proof.
  intros HQR. revert s. induction p as [a|C c k IH]; intros s; simpl; [by apply HQR|].
  intros [Hc Hk]. split; [done|]. by apply IH.
Qed.

Lemma wp_try {E F A B} (w : E → F) (p : prog (res E A)) (f : A → prog (res F B)) s
  (Q : res F B → W → Prop) :
  wp p s (λ r s', match r with Ok a => wp (f a) s' Q | Err e => Q (Err (w e)) s' end) →
  wp (try_bind w p f) s Q.
Proof. intros Hp. apply wp_bind. eapply wp_mono; [|exact Hp]. by intros [a|e] s'. Qed.

Lemma wp_exec {A} (p : prog A) s Q : wp p s Q → Q (exec p s).1 (exec p s).2.
Proof. revert s. induction p as [a|C c k IH]; intros s; simpl; [done|]. intros [_ Hk]. by apply IH. Qed.

Lemma exec_wp {A} (p : prog A) s : (∀ s B (c : call B), I s B c) →
  wp p s (λ a s', exec p s = (a, s')).
Proof.
  intros HI. revert s. induction p as [a|C c k IH]; intros s; simpl; [done|]. by split.
Qed.
End wp.

Lemma wp_weaken `{FileSystem W} {A} (I J : W → ∀ B, call B → Prop) (p : prog A) s Q :
  (∀ s B (c : call B), I s B c → J s B c) → wp I p s Q → wp J p s Q.
Proof.
  intros HIJ. revert s. induction p as [a|C c k IH]; intros s; simpl; [done|].
  intros [Hc Hk]. split; [by apply HIJ|]. by apply IH.
Qed.

(** A program that may call anything and one that satisfies a property: both hold. *)
Lemma wp_both `{FileSystem W} {A} (I : W → ∀ B, call B → Prop) (p : prog A) s Q R :
  wp I p s Q → wp (λ _ _ _, True) p s R → wp I p s (λ a s', Q a s' ∧ R a s').
Proof.
  revert s. induction p as [a|C c k IH]; intros s; simpl; [done|]. intros [? ?] [_ ?].
  split; [done|by apply IH].
Qed.

Lemma exec_bind `{FileSystem W} {A B} (p : prog A) (f : A → prog B) s :
  exec (p ≫= f) s = exec (f (exec p s).1) (exec p s).2.
Proof. revert s. induction p as [a|C c k IH]; intros s; simpl; [done|]. apply IH. Qed.

Lemma exec_try `{FileSystem W} {E F A B} (f : E → F) (p : prog (res E A)) (k : A → prog (res F B)) (s : W) :
  exec (try_bind f p k) s
  = match exec p s with (Ok a, s') => exec (k a) s' | (Err e, s') => (Err (f e), s') end.
Proof. unfold try_bind. rewrite exec_bind. by destruct (exec p s) as [[a|e] s']. Qed.
