(* ===== verification/Walk.v ===== *)
(** [filepath.WalkDir] over the calls of [Os], with its callback as a program.
    A path of PATH_MAX bytes cannot be listed, so the walk ends whatever the
    callback does to the tree it walks ([walk_ends]); [walk_wp] is its rule. *)
From S2P Require Import Prelude Json Text Event Path Os.

(** What the callback returns: nil, [fs.SkipAll] or another error. *)
Inductive walk_ctl (E : Type) := WalkOn | WalkStop | WalkFail (e : E).
Arguments WalkOn {E}. Arguments WalkStop {E}. Arguments WalkFail {E} e.

Inductive walked (E : Type) := Walked | Stopped | Failed (e : E) | TooDeep.
Arguments Walked {E}. Arguments Stopped {E}. Arguments Failed {E} e. Arguments TooDeep {E}.

Section walk.
Context {E : Type} (fn : bytes → os_res kind → prog (walk_ctl E)).

Definition done_with (c : walk_ctl E) : walked E :=
  match c with WalkOn => Walked | WalkStop => Stopped | WalkFail e => Failed e end.

Fixpoint walk_all (walk_one : bytes → kind → prog (walked E)) (path : bytes) (es : list (bytes * kind))
  : prog (walked E) :=
  match es with
  | [] => Ret Walked
  | (name, k) :: es =>
      walk_one (child path name) k ≫= λ r,
      match r with Walked => walk_all walk_one path es | r => Ret r end
  end.

(** [filepath.walkDir]; the callback sees a directory that cannot be listed a
    second time, with the error. *)
Fixpoint walk (n : nat) (path : bytes) (k : kind) : prog (walked E) :=
  match n with
  | O => Ret TooDeep
  | S n =>
      fn path (Ok k) ≫= λ c,
      match c with
      | WalkOn =>
          if bool_decide (k = KDir) then
            ask (ReadDir path) ≫= λ r,
            match r with
            | Err e => fn path (Err e) ≫= λ c, Ret (done_with c)
            | Ok es => walk_all (walk n) path es
            end
          else Ret Walked
      | c => Ret (done_with c)
      end
  end.

Definition WalkDir (root : bytes) : prog (walked E) :=
  ask (Lstat root) ≫= λ r,
  match r with
  | Err e => fn root (Err e) ≫= λ c, Ret (done_with c)
  | Ok k => walk path_max root k
  end.
End walk.

Lemma child_rooted p m : rooted p → plain m → rooted (child p m) ∧ (List.length p < List.length (child p m))%nat.
Proof.
  intros (es&Hes&->) Hm. unfold child. rewrite path_Join_name by done. split.
  - exists (es ++ [m]). split; [|done]. apply Forall_app. split; [done|by apply Forall_singleton].
  - unfold abs. cbn [List.length]. apply -> Nat.succ_lt_mono. destruct (decide (es = [])) as [->|Hne].
    + destruct Hm as [Hm _]. destruct m; [done|]. simpl. lia.
    + rewrite path_Join_snoc by done. rewrite length_app. simpl. lia.
Qed.

Section laws.
Context `{FileSystemLaws W} {E : Type} (I : W → ∀ B, call B → Prop)
  (fn : bytes → os_res kind → prog (walk_ctl E)) (P : bytes → Prop) (Inv : W → Prop) (R : E → Prop).

Definition ctl_ok (c : walk_ctl E) : Prop := match c with WalkFail e => R e | _ => True end.
Definition walked_ok (r : walked E) : Prop := match r with Failed e => R e | _ => True end.

(** The callback keeps [Inv] wherever [P] holds and fails with errors in [R]; [P]
    holds all the way down. *)
Context (Hfn : ∀ p r s, P p → Inv s → wp I (fn p r) s (λ c s', Inv s' ∧ ctl_ok c))
  (Hlook : ∀ p s, P p → Inv s → I s _ (Lstat p) ∧ I s _ (ReadDir p))
  (Hchild : ∀ p m, P p → plain m → P (child p m)).

Lemma walk_all_wp one p es s : P p → Forall (λ e, plain e.1) es →
  (∀ q k s, P q → Inv s → wp I (one q k) s (λ r s', Inv s' ∧ walked_ok r)) → Inv s →
  wp I (walk_all (E:=E) one p es) s (λ r s', Inv s' ∧ walked_ok r).
Proof.
  intros Hp Hes Hone. revert s. induction es as [|[m k] es IH]; intros s Hs; simpl; [done|].
  apply List.Forall_cons_iff in Hes as [Hm Hes]. apply wp_bind.
  eapply wp_mono; [|apply Hone; [by apply Hchild|done]]. intros [] s' []; simpl; auto.
Qed.

Lemma done_ok c : ctl_ok c → walked_ok (done_with c).
Proof. by destruct c. Qed.

Lemma walk_wp n p k s : P p → Inv s → wp I (walk fn n p k) s (λ r s', Inv s' ∧ walked_ok r).
Proof.
  revert p k s. induction n as [|n IH]; intros p k s Hp Hs; simpl; [done|].
  apply wp_bind. eapply wp_mono; [|by apply Hfn]. intros [] s1 [H1 H2]; [|done..].
  case_bool_decide; [|done]. split; [by apply Hlook|]. rewrite query_state by done.
  destruct (answer (ReadDir p) s1) as [es|e] eqn:Hr.
  - apply walk_all_wp; [done|by eapply read_dir_plain|by auto|done].
  - apply wp_bind. eapply wp_mono; [|by apply Hfn]. intros c s2 []. split; [done|by apply done_ok].
Qed.

Lemma WalkDir_wp root s : P root → Inv s → wp I (WalkDir fn root) s (λ r s', Inv s' ∧ walked_ok r).
Proof.
  intros Hp Hs. unfold WalkDir. simpl. split; [by apply Hlook|]. rewrite query_state by done.
  destruct (answer _ s) as [k|e]; [by apply walk_wp|].
  apply wp_bind. eapply wp_mono; [|by apply Hfn]. intros c s2 []. split; [done|by apply done_ok].
Qed.
End laws.

Section ends.
Context `{FileSystemLaws W} {E : Type} (fn : bytes → os_res kind → prog (walk_ctl E)).

#[local] Abbreviation ends p s := (wp (λ _ _ _, True) p s (λ r _, r ≠ TooDeep)).

Lemma wp_any {A} (p : prog A) (s : W) : wp (λ _ _ _, True) p s (λ _ _, True).
Proof. revert s. induction p as [a|C c k IH]; intros s; simpl; [done|]. by split. Qed.

Lemma done_ends c : done_with (E:=E) c ≠ TooDeep.
Proof. by destruct c. Qed.

Lemma walk_all_ends one p es (s : W) : Forall (λ e, plain e.1) es →
  (∀ m k s, plain m → ends (one (child p m) k) s) → ends (walk_all (E:=E) one p es) s.
Proof.
  intros Hes Hone. revert s. induction es as [|[m k] es IH]; intros s; simpl; [done|].
  apply List.Forall_cons_iff in Hes as [Hm Hes]. apply wp_bind.
  eapply wp_mono; [|by apply Hone]. intros [] s' ?; simpl; auto.
Qed.

Lemma walk_depth n p k (s : W) : rooted p → (path_max < List.length p + S n)%nat → ends (walk fn (S n) p k) s.
Proof.
  revert p k s. induction n as [n IH] using lt_wf_ind. intros p k s Hp Hn. simpl.
  apply wp_bind. eapply wp_mono; [|apply wp_any]. intros [] s1 _; [|apply done_ends..].
  case_bool_decide; [|done]. split; [done|]. rewrite query_state by done.
  destruct (answer (ReadDir p) s1) as [es|e] eqn:Hr.
  - destruct (decide (path_max ≤ List.length p)%nat) as [Hl|Hl].
    { destruct (read_dir_long s1 p Hl) as [e He]. congruence. }
    apply walk_all_ends; [by eapply read_dir_plain|]. intros m k' s' Hm.
    destruct (child_rooted p m Hp Hm). destruct n as [|n]; [lia|]. apply IH; [lia|done|lia].
  - apply wp_bind. eapply wp_mono; [|apply wp_any]. intros c s2 _. apply done_ends.
Qed.

(** A walk from a clean absolute path always ends. *)
Lemma walk_ends root (s : W) : rooted root → ends (WalkDir fn root) s.
Proof.
  intros Hr. unfold WalkDir. simpl. split; [done|]. rewrite query_state by done.
  destruct (answer (Lstat root) s) as [k|e].
  - pose proof path_max_pos as Hpos. destruct path_max as [|n] eqn:Hn; [lia|].
    apply walk_depth; [done|]. rewrite Hn. destruct Hr as (es&_&->). simpl. lia.
  - apply wp_bind. eapply wp_mono; [|apply wp_any]. intros c s2 _. apply done_ends.
Qed.
End ends.
