(* ===== verification/Tree.v ===== *)
(** A file system to run the programs on: a map from the locations of the tree to
    directories, files and symbolic links. It obeys [FileSystemLaws]. *)
From S2P Require Import Prelude Json Text Event Path Os.

(** ** The tree *)

Abbreviation loc := (list bytes).
Inductive node := NDir | NFile (data : bytes) | NLink (target : bytes).
Abbreviation tree := (gmap loc node).

Definition node_kind (n : node) : kind :=
  match n with NDir => KDir | NFile _ => KFile | NLink _ => KLink end.

(** The root is always there. *)
Definition at_ (t : tree) (l : loc) : option node := match l with [] => Some NDir | _ => t !! l end.

Definition not_dir : os_err := OsErr (s2b "not a directory").
Definition loops : os_err := OsErr (s2b "too many links").
Definition is_dir : os_err := OsErr (s2b "is a directory").
Definition too_long : os_err := OsErr (s2b "file name too long").

(** Elements of an absolute path, and of the target of a link. *)
Definition comps (p : bytes) : loc := pieces (Clean (slash :: p)).
Definition link_comps (p : bytes) : list bytes := List.filter (λ e, negb (bool_decide (e = dot))) (pieces p).

(** Walk [todo] from the directory [cur], following at most [n] links. *)
Fixpoint resolve (n : nat) (t : tree) : loc → list bytes → os_res loc :=
  fix go cur todo :=
    match todo with
    | [] => Ok cur
    | e :: es =>
        if bool_decide (e = dotdot) then go (removelast cur) es
        else match t !! (cur ++ [e]) with
             | None => Err NotExist
             | Some NDir => go (cur ++ [e]) es
             | Some (NFile _) => match es with [] => Ok (cur ++ [e]) | _ => Err not_dir end
             | Some (NLink target) =>
                 match n with
                 | O => Err loops
                 | S n' => resolve n' t (if IsAbs target then [] else cur) (link_comps target ++ es)
                 end
             end
    end.

Definition max_links : nat := 40.
Definition locate (t : tree) (p : loc) : os_res loc := resolve max_links t [] p.

(** The location of a name: its directory is resolved, the name is not. *)
Definition name_of (t : tree) (p : loc) : os_res loc :=
  match reverse p with
  | [] => Ok []
  | e :: r =>
      match locate t (reverse r) with
      | Err err => Err err
      | Ok d => match at_ t d with Some NDir => Ok (d ++ [e]) | _ => Err not_dir end
      end
  end.

Definition lstat (t : tree) (p : loc) : os_res kind :=
  match name_of t p with
  | Err err => Err err
  | Ok l => match at_ t l with Some n => Ok (node_kind n) | None => Err NotExist end
  end.

(** ** Changes *)

Definition under (l k : loc) : Prop := ∃ b, k = l ++ b.
Definition strictly_under (l k : loc) : Prop := under l k ∧ k ≠ l.
#[export] Instance under_dec l k : Decision (under l k).
Proof.
  destruct (decide (take (List.length l) k = l)) as [E|E].
  - left. exists (drop (List.length l) k). by rewrite <- E at 1; rewrite take_drop.
  - right. intros [b ->]. by rewrite take_app_length in E.
Defined.
#[export] Instance strictly_under_dec l k : Decision (strictly_under l k).
Proof. unfold strictly_under. apply _. Defined.

(** What is put at a location replaces all that was below it. *)
Definition prune (l : loc) (t : tree) : tree := filter (λ '(k, _), ¬ strictly_under l k) t.
Definition put (l : loc) (n : node) (t : tree) : tree := <[l := n]> (prune l t).
Definition cut (l : loc) (t : tree) : tree := filter (λ '(k, _), ¬ under l k) t.

Definition max_name (t : tree) : nat :=
  map_fold (λ (k : loc) _ m, Nat.max (sum_list_with (λ e : bytes, List.length e) k) m) 0%nat t.

(** [os.CreateTemp] and [os.MkdirTemp] pick a name nobody has. *)
Definition temp (t : tree) (d : loc) (pre : bytes) (n : node) : os_res bytes * tree :=
  if bool_decide (slash ∈ pre) then (Err (OsErr (s2b "pattern contains path separator")), t)
  else match locate t d with
       | Err err => (Err err, t)
       | Ok l =>
           match at_ t l with
           | Some NDir =>
               let e := pre ++ replicate (S (max_name t)) "0"%char in
               (Ok (child (abs d) e), put (l ++ [e]) n t)
           | _ => (Err not_dir, t)
           end
       end.

(** Create the missing directories of [done ++ todo] one after the other. *)
Fixpoint mkdirs (t : tree) (done todo : loc) : os_res () * tree :=
  match todo with
  | [] => (Ok (), t)
  | e :: es =>
      let p := done ++ [e] in
      match locate t p with
      | Ok l => match at_ t l with
                | Some NDir => mkdirs t p es
                | _ => (Err not_dir, t)
                end
      | Err NotExist =>
          match name_of t p with
          | Ok l => match at_ t l with
                    | None => mkdirs (put l NDir t) p es
                    | Some _ => (Err (OsErr (s2b "file exists")), t)
                    end
          | Err err => (Err err, t)
          end
      | Err err => (Err err, t)
      end
  end.

(** Open for writing and replace the content by [f] of the old one. *)
Definition write (t : tree) (p : loc) (f : bytes → bytes) : os_res () * tree :=
  match locate t p with
  | Ok l => match at_ t l with
            | Some (NFile old) => (Ok (), put l (NFile (f old)) t)
            | _ => (Err is_dir, t)
            end
  | Err NotExist =>
      match name_of t p with
      | Ok l => match at_ t l with
                | None => (Ok (), put l (NFile (f [])) t)
                | Some _ => (Err NotExist, t)
                end
      | Err err => (Err err, t)
      end
  | Err err => (Err err, t)
  end.

Definition entries (t : tree) (l : loc) : list (bytes * kind) :=
  foldr (λ '(k, n) m, match reverse k with
                      | e :: r => if bool_decide (reverse r = l ∧ plain e) then map_set e (node_kind n) m else m
                      | [] => m
                      end) [] (map_to_list t).

(** Move the subtree at [a] to [b]. *)
Definition move (a b : loc) (t : tree) : tree :=
  let moved := filter (λ '(k, _), under a k) t in
  map_fold (λ k n acc, <[b ++ drop (List.length a) k := n]> acc) (cut b (cut a t)) moved.

Definition tree_step (B : Type) (c : call B) (t : tree) : B * tree :=
  match c in call B return B * tree with
  | Lstat p => (lstat t (comps p), t)
  | Stat p =>
      (match locate t (comps p) with
       | Ok l => match at_ t l with Some n => Ok (node_kind n) | None => Err NotExist end
       | Err err => Err err
       end, t)
  | EvalSymlinks p => (match locate t (comps p) with Ok l => Ok (abs l) | Err err => Err err end, t)
  | Abs p => (Ok (Clean (if IsAbs p then p else slash :: p)), t)
  | ReadFile p =>
      (match locate t (comps p) with
       | Ok l => match at_ t l with Some (NFile d) => Ok d | _ => Err is_dir end
       | Err err => Err err
       end, t)
  | ReadDir p =>
      (if (path_max <=? List.length p)%nat then Err too_long else
       match locate t (comps p) with
       | Ok l => match at_ t l with Some NDir => Ok (entries t l) | _ => Err not_dir end
       | Err err => Err err
       end, t)
  | WriteFile p data => write t (comps p) (λ _, data)
  | MkdirAll p => mkdirs t [] (comps p)
  | MkdirTemp pre => temp t [] pre NDir
  | CreateTemp d pre => temp t (comps d) pre (NFile [])
  | Chmod p => (match locate t (comps p) with Ok _ => Ok () | Err err => Err err end, t)
  | Write p data => write t (comps p) (λ old, old ++ data)
  | CloseFile _ => (Ok (), t)
  | Remove p =>
      match name_of t (comps p) with
      | Err err => (Err err, t)
      | Ok l =>
          match at_ t l with
          | None => (Err NotExist, t)
          | Some NDir => if bool_decide (entries t l = []) && bool_decide (l ≠ [])
                         then (Ok (), delete l t) else (Err (OsErr (s2b "directory not empty")), t)
          | Some _ => (Ok (), delete l t)
          end
      end
  | RemoveAll p =>
      match name_of t (comps p) with
      | Err NotExist => (Ok (), t)
      | Err err => (Err err, t)
      | Ok l => (Ok (), cut l t)
      end
  | Rename p q =>
      match name_of t (comps p), name_of t (comps q) with
      | Ok a, Ok b =>
          match at_ t a with
          | None => (Err NotExist, t)
          | Some _ => if bool_decide (under a b) then (Err (OsErr (s2b "invalid argument")), t)
                      else (Ok (), move a b t)
          end
      | Err err, _ | _, Err err => (Err err, t)
      end
  | Symlink target p =>
      match name_of t (comps p) with
      | Err err => (Err err, t)
      | Ok l => match at_ t l with
                | None => (Ok (), put l (NLink target) t)
                | Some _ => (Err (OsErr (s2b "file exists")), t)
                end
      end
  | FileSize p =>
      (match locate t (comps p) with
       | Ok l => match at_ t l with Some (NFile d) => Ok (Z.of_nat (List.length d)) | _ => Ok 0 end
       | Err err => Err err
       end, t)
  | Create p => write t (comps p) (λ _, [])
  | Run _ command _ out =>
      (** Every command prints itself. *)
      match out with
      | Some p => (mkRun [] None false, (write t (comps p) (λ _, command)).2)
      | None => (mkRun command None false, t)
      end
  end.

#[export] Instance tree_fs : FileSystem tree := tree_step.

(** ** Resolution *)

Lemma comps_plain p : Forall plain (comps p).
Proof. unfold comps. destruct (Clean_rooted (slash :: p) eq_refl) as (es&Hes&->). by rewrite pieces_abs. Qed.

Lemma comps_abs es : Forall plain es → comps (abs es) = es.
Proof.
  intros Hes. unfold comps.
  replace (Clean (slash :: abs es)) with (abs es); [by apply pieces_abs|].
  unfold Clean. cbn [IsAbs]. rewrite Ascii.eqb_refl, pieces_slash, pieces_abs, squash_plain by done. done.
Qed.

Lemma resolve_nil n t cur : resolve n t cur [] = Ok cur.
Proof. by destruct n. Qed.

Lemma resolve_cons n t cur e es : resolve n t cur (e :: es) =
  if bool_decide (e = dotdot) then resolve n t (removelast cur) es
  else match t !! (cur ++ [e]) with
       | None => Err NotExist
       | Some NDir => resolve n t (cur ++ [e]) es
       | Some (NFile _) => match es with [] => Ok (cur ++ [e]) | _ => Err not_dir end
       | Some (NLink target) =>
           match n with
           | O => Err loops
           | S n' => resolve n' t (if IsAbs target then [] else cur) (link_comps target ++ es)
           end
       end.
Proof. by destruct n. Qed.

(** All names on the way to [l] are directories; [l] itself is one or a file. *)
Definition dirs (t : tree) (l : loc) : Prop := ∀ a b, l = a ++ b → a ≠ [] → t !! a = Some NDir.
Definition real (t : tree) (l : loc) : Prop :=
  l = [] ∨ ∃ d e n, l = d ++ [e] ∧ dirs t d ∧ t !! l = Some n ∧ node_kind n ≠ KLink.

Lemma dirs_nil t : dirs t [].
Proof. intros [|x a] b; done. Qed.

Lemma dirs_snoc t l e : dirs t (l ++ [e]) ↔ dirs t l ∧ t !! (l ++ [e]) = Some NDir.
Proof.
  split.
  - intros H. split; [|by apply (H _ []); [rewrite app_nil_r|by destruct l]].
    intros a b -> Ha. apply (H a (b ++ [e])); [|done]. by rewrite app_assoc.
  - intros [H He] a b E Ha. destruct b as [|x b _] using rev_ind.
    + rewrite app_nil_r in E. by subst a.
    + rewrite app_assoc in E. apply app_inj_tail in E as [-> ->]. by apply (H a b).
Qed.

Lemma dirs_removelast t l : dirs t l → dirs t (removelast l).
Proof.
  destruct l as [|e l _] using rev_ind; [done|]. rewrite removelast_last.
  by intros [? _]%dirs_snoc.
Qed.

Lemma dirs_at t l : dirs t l → at_ t l = Some NDir.
Proof. intros H. destruct l as [|e l]; [done|]. apply (H _ []); [by rewrite app_nil_r|done]. Qed.

Lemma at_snoc t l e : at_ t (l ++ [e]) = t !! (l ++ [e]).
Proof. by destruct l. Qed.

Lemma plain_removelast l : Forall plain l → Forall plain (removelast l).
Proof. destruct l as [|e l _] using rev_ind; [done|]. rewrite removelast_last. by intros [? _]%Forall_app. Qed.

Definition step_name (e : bytes) : Prop := named e ∧ e ≠ dot.

Lemma link_comps_names p : Forall step_name (link_comps p).
Proof.
  apply Forall_forall. intros e [He Hd]%elem_of_list_filter'. split.
  - by apply (Forall_forall named) with (pieces p); [apply pieces_named|].
  - intros ->. by rewrite bool_decide_eq_true_2 in Hd.
Qed.

Lemma plain_step e : plain e → step_name e.
Proof. by intros (?&?&?&?). Qed.

Lemma step_plain e : step_name e → e ≠ dotdot → plain e.
Proof. by intros [[??]?] ?. Qed.

Lemma resolve_real n t cur es l : Forall plain cur → dirs t cur → Forall step_name es →
  resolve n t cur es = Ok l → Forall plain l ∧ real t l.
Proof.
  revert cur es. induction n as [n IHn] using lt_wf_ind. intros cur es. revert cur.
  induction es as [|e es IH]; intros cur Hc Hd Hes.
  - rewrite resolve_nil. intros [= <-]. split; [done|].
    destruct cur as [|e cur _] using rev_ind; [by left|]. right. exists cur, e, NDir.
    apply dirs_snoc in Hd as [??]. by split_and!.
  - apply List.Forall_cons_iff in Hes as [He Hes]. rewrite resolve_cons. case_bool_decide as Hdd.
    { apply IH; [by apply plain_removelast|by apply dirs_removelast|done]. }
    assert (Forall plain (cur ++ [e])) as Hce.
    { apply Forall_app. split; [done|]. apply Forall_singleton. by apply step_plain. }
    destruct (t !! (cur ++ [e])) as [[|data|target]|] eqn:Hn; [|destruct es| |done].
    + apply IH; [done|by apply dirs_snoc|done].
    + intros [= <-]. split; [done|]. right. by exists cur, e, (NFile data).
    + done.
    + destruct n as [|n]; [done|]. apply IHn; [lia| | |].
      * by destruct (IsAbs target).
      * destruct (IsAbs target); [apply dirs_nil|done].
      * apply Forall_app. split; [apply link_comps_names|done].
Qed.

Lemma locate_real t p l : Forall plain p → locate t p = Ok l → Forall plain l ∧ real t l.
Proof.
  intros Hp. apply resolve_real; [done|apply dirs_nil|].
  by eapply Forall_impl; [done|apply plain_step].
Qed.

Lemma resolve_dirs n t cur es : Forall plain es → dirs t (cur ++ es) → resolve n t cur es = Ok (cur ++ es).
Proof.
  revert cur. induction es as [|e es IH]; intros cur Hes Hd.
  - by rewrite resolve_nil, app_nil_r.
  - apply List.Forall_cons_iff in Hes as [(?&?&?&?) Hes].
    rewrite resolve_cons, bool_decide_eq_false_2 by done.
    rewrite (Hd (cur ++ [e]) es) by (by rewrite <- ?app_assoc || by destruct cur).
    rewrite IH by (done || by rewrite <- app_assoc). by rewrite <- app_assoc.
Qed.

Lemma resolve_app_err n t cur a b e : resolve n t cur a = Err e → resolve n t cur (a ++ b) = Err e.
Proof.
  revert cur a. induction n as [n IHn] using lt_wf_ind. intros cur a. revert cur.
  induction a as [|x a IH]; intros cur; [by rewrite resolve_nil|].
  cbn [app]. rewrite !resolve_cons. case_bool_decide; [apply IH|].
  destruct (t !! (cur ++ [x])) as [[| |target]|]; [apply IH|by destruct a| |done].
  destruct n as [|n]; [done|]. rewrite app_assoc. apply IHn. lia.
Qed.

Lemma resolve_app_ok n t cur a l : resolve n t cur a = Ok l → at_ t l = Some NDir →
  ∃ n', ∀ b, resolve n t cur (a ++ b) = resolve n' t l b.
Proof.
  intros Hr Hl. revert cur a Hr. induction n as [n IHn] using lt_wf_ind. intros cur a. revert cur.
  induction a as [|x a IH]; intros cur; [rewrite resolve_nil; intros [= ->]; by exists n|].
  rewrite resolve_cons. case_bool_decide as Hx; [|destruct (t !! (cur ++ [x])) as [[|d|target]|] eqn:E; [| | |done]].
  - intros [n' H]%IH. exists n'. intros b. cbn [app]. by rewrite resolve_cons, bool_decide_eq_true_2.
  - intros [n' H]%IH. exists n'. intros b. cbn [app]. by rewrite resolve_cons, bool_decide_eq_false_2, E.
  - destruct a; [|done]. intros [= <-]. rewrite at_snoc in Hl. congruence.
  - destruct n as [|n]; [done|]. intros [n' H]%IHn; [|lia]. exists n'. intros b. cbn [app].
    by rewrite resolve_cons, bool_decide_eq_false_2, E, app_assoc.
Qed.

Lemma locate_id t l : Forall plain l → real t l → locate t l = Ok l.
Proof.
  intros Hp [->|(d&e&n&->&Hd&Hn&Hk)]; [done|]. apply Forall_app in Hp as [Hpd [He _]%List.Forall_cons_iff].
  destruct (resolve_app_ok max_links t [] d d) as [n' Hr]; [by apply resolve_dirs|by apply dirs_at|].
  unfold locate. rewrite Hr, resolve_cons. destruct He as (?&?&?&?).
  rewrite bool_decide_eq_false_2, Hn by done. by destruct n; rewrite ?resolve_nil.
Qed.

Lemma name_of_snoc t d e : name_of t (d ++ [e]) =
  match locate t d with
  | Err err => Err err
  | Ok l => match at_ t l with Some NDir => Ok (l ++ [e]) | _ => Err not_dir end
  end.
Proof. unfold name_of. by rewrite reverse_snoc, reverse_involutive. Qed.

Lemma lstat_snoc t d e : lstat t (d ++ [e]) =
  match locate t d with
  | Err err => Err err
  | Ok l => match at_ t l with
            | Some NDir => match t !! (l ++ [e]) with Some n => Ok (node_kind n) | None => Err NotExist end
            | _ => Err not_dir
            end
  end.
Proof.
  unfold lstat. rewrite name_of_snoc. destruct (locate t d) as [l|]; [|done].
  destruct (at_ t l) as [[]|]; [|done..]. by rewrite at_snoc.
Qed.

(** ** Paths without links *)

(** Walking down [p] from the root through directories meets no link. *)
Definition direct (t : tree) (p : loc) : Prop :=
  ∀ d e b, p = d ++ e :: b → dirs t d → ∀ target, t !! (d ++ [e]) ≠ Some (NLink target).

Lemma direct_prefix t a b : direct t (a ++ b) → direct t a.
Proof. intros H d e c ->. apply (H d e (c ++ b)). by rewrite <- app_assoc. Qed.

(** A path through a file goes nowhere. *)
Lemma resolve_file n t cur a l x : resolve n t cur a = Ok l → dirs t cur → ¬ dirs t l →
  ∃ err, resolve n t cur (a ++ [x]) = Err err.
Proof.
  revert cur a. induction n as [n IHn] using lt_wf_ind. intros cur a. revert cur.
  induction a as [|y a IH]; intros cur; [rewrite resolve_nil; by intros [= ->] ??|].
  cbn [app]. rewrite !resolve_cons. intros Hr Hdc Hl. revert Hr. case_bool_decide.
  - intros Hr. apply IH; [done|by apply dirs_removelast|done].
  - destruct (t !! (cur ++ [y])) as [[| |target]|] eqn:Hy; [| | |done].
    + intros Hr. apply IH; [done|by apply dirs_snoc|done].
    + destruct a; [|done]. eauto.
    + destruct n as [|n]; [done|]. intros Hr. rewrite app_assoc. apply IHn; [lia|done| |done].
      destruct (IsAbs target); [apply dirs_nil|done].
Qed.

Lemma resolve_step t p l x : locate t p = Ok l → dirs t l → x ≠ dotdot → ∃ n',
  locate t (p ++ [x]) = match t !! (l ++ [x]) with
                        | None => Err NotExist
                        | Some (NLink target) =>
                            match n' with
                            | O => Err loops
                            | S n' => resolve n' t (if IsAbs target then [] else l) (link_comps target)
                            end
                        | Some _ => Ok (l ++ [x])
                        end.
Proof.
  intros Hl Hd Hx. destruct (resolve_app_ok _ _ _ _ _ Hl (dirs_at _ _ Hd)) as [n' Hr].
  exists n'. unfold locate. rewrite Hr, resolve_cons, bool_decide_eq_false_2 by done.
  destruct (t !! (l ++ [x])) as [[| |target]|]; [by rewrite resolve_nil|done| |done].
  destruct n'; [done|]. by rewrite app_nil_r.
Qed.

(** The directory a direct path leads to is the path itself. *)
Lemma locate_direct t p l : Forall plain p → direct t p → locate t p = Ok l →
  l = p ∧ (dirs t p ∨ ∃ data, at_ t p = Some (NFile data)).
Proof.
  revert l. induction p as [|x p IH] using rev_ind; intros l Hp Hd Hr.
  - injection Hr as <-. split; [done|]. left. apply dirs_nil.
  - apply Forall_app in Hp as [Hp [(_&_&Hx&_) _]%List.Forall_cons_iff].
    destruct (locate t p) as [lp|err] eqn:E; [|unfold locate in *; by rewrite (resolve_app_err _ _ _ _ _ _ E) in Hr].
    destruct (IH lp Hp (direct_prefix _ _ _ Hd) eq_refl) as [-> [Hpd|[data Hf]]].
    + destruct (resolve_step t p p x E Hpd Hx) as [n' Hs]. rewrite Hs in Hr.
      destruct (t !! (p ++ [x])) as [[|data|tg]|] eqn:Hn; [| | |done].
      * injection Hr as <-. split; [done|]. left. by rewrite dirs_snoc.
      * injection Hr as <-. split; [done|]. right. exists data. by rewrite at_snoc.
      * by destruct (Hd p x [] eq_refl Hpd tg).
    + destruct (resolve_file _ _ _ _ _ x E (dirs_nil t)) as [err He];
        [intros Hpd%dirs_at; congruence|]. unfold locate in Hr. congruence.
Qed.

Lemma lstat_dirs t d e : Forall plain d → dirs t d →
  lstat t (d ++ [e]) = match t !! (d ++ [e]) with Some n => Ok (node_kind n) | None => Err NotExist end.
Proof.
  intros Hp Hd. rewrite lstat_snoc. unfold locate. rewrite resolve_dirs by done.
  cbn [app]. by rewrite dirs_at.
Qed.

Lemma lstat_direct t p : Forall plain p → direct t p → lstat t p ≠ Ok KLink.
Proof.
  intros Hp Hd. destruct p as [|e p _] using rev_ind; [done|].
  pose proof (direct_prefix _ _ _ Hd) as Hd'. apply Forall_app in Hp as [Hp _].
  rewrite lstat_snoc. destruct (locate t p) as [l|] eqn:E; [|done].
  destruct (locate_direct _ _ _ Hp Hd' E) as [-> [Hpd|[data ->]]]; [|done].
  rewrite dirs_at by done. destruct (t !! (p ++ [e])) as [[| |tg]|] eqn:Hn; [done|done| |done].
  by destruct (Hd p e [] eq_refl Hpd tg).
Qed.

Lemma unlinked_direct t p : Forall plain p → unlinked t (abs p) ↔ direct t p.
Proof.
  intros Hp. split.
  - intros [_ H] d e b -> Hd target Hn. apply Forall_app in Hp as [Hpd Hp].
    apply List.Forall_cons_iff in Hp as [He Hb].
    assert (Forall plain (d ++ [e])) as Hde by (apply Forall_app; split; [done|by apply Forall_singleton]).
    apply (H (abs (d ++ [e]))); [by exists (d ++ [e]), b; rewrite <- app_assoc|].
    unfold name_kind, answer. simpl. by rewrite comps_abs, lstat_dirs, Hn.
  - intros Hd. split; [by exists p|]. intros q (a&b&Ha&Hb&->&E).
    apply abs_inj in E; [subst p|done|by apply Forall_app]. unfold name_kind, answer. simpl.
    rewrite comps_abs by done. apply lstat_direct; [done|]. by apply direct_prefix in Hd.
Qed.

Lemma real_direct t l : Forall plain l → real t l → direct t l.
Proof.
  intros Hp [->|(d&e&n&->&Hd&Hn&Hk)] d' e' b E Hd' target Hl; [by destruct d'|].
  destruct b as [|x b _] using rev_ind.
  - apply app_inj_tail in E as [-> ->]. by simplify_eq.
  - rewrite app_comm_cons, app_assoc in E. apply app_inj_tail in E as [-> _].
    assert (t !! (d' ++ [e']) = Some NDir); [|congruence].
    apply (Hd _ b); [by rewrite <- app_assoc|by destruct d'].
Qed.

(** ** Changes that make no link *)

Lemma lookup_put l n t k : put l n t !! k =
  if bool_decide (k = l) then Some n else if bool_decide (strictly_under l k) then None else t !! k.
Proof.
  unfold put. case_bool_decide as Hk; [subst k; by rewrite lookup_insert_eq|].
  rewrite lookup_insert_ne by done. unfold prune. rewrite map_lookup_filter.
  destruct (t !! k) as [x|]; simpl; [|by case_bool_decide].
  case_bool_decide; [by rewrite option_guard_False by tauto|by rewrite option_guard_True].
Qed.

Lemma direct_put t l n p : node_kind n ≠ KLink → direct t p → direct (put l n t) p.
Proof.
  intros Hn H d e b E Hd target. rewrite lookup_put.
  case_bool_decide as Hl; [intros [= ->]; by destruct Hn|].
  case_bool_decide as Hu; [done|]. apply (H d e b E).
  intros a c Ec Ha. specialize (Hd a c Ec Ha). rewrite lookup_put in Hd.
  case_bool_decide as Hal; [|by case_bool_decide].
  destruct Hu. subst a d. split; [exists (c ++ [e]); by rewrite app_assoc|done].
Qed.

Lemma direct_subseteq t t' p : t' ⊆ t → direct t p → direct t' p.
Proof.
  intros Hs H d e b E Hd target Hl. apply (H d e b E) with target; [|by eapply lookup_weaken].
  intros a c Ec Ha. eapply lookup_weaken; [|done]. by apply (Hd a c).
Qed.

Lemma direct_mkdirs t a b p : direct t p → direct (mkdirs t a b).2 p.
Proof.
  revert t a. induction b as [|e b IH]; intros t a H; simpl; [done|].
  destruct (locate t (a ++ [e])) as [l|[|msg]]; [| |done].
  - destruct (at_ t l) as [[]|]; [by apply IH|done..].
  - destruct (name_of t (a ++ [e])) as [l|]; [|done]. destruct (at_ t l); [done|].
    apply IH. by apply direct_put.
Qed.

Lemma direct_write t a f p : direct t p → direct (write t a f).2 p.
Proof.
  intros H. unfold write. destruct (locate t a) as [l|[|msg]]; [| |done].
  - destruct (at_ t l) as [[]|]; [done|by apply direct_put|done..].
  - destruct (name_of t a) as [l|]; [|done]. destruct (at_ t l); [done|]. by apply direct_put.
Qed.

Lemma direct_temp t d pre n p : node_kind n ≠ KLink → direct t p → direct (temp t d pre n).2 p.
Proof.
  intros Hn H. unfold temp. case_bool_decide; [done|]. destruct (locate t d) as [l|]; [|done].
  destruct (at_ t l) as [[]|]; [|done..]. by apply direct_put.
Qed.

Lemma direct_step t B (c : call B) p : linkless c = true → direct t p → direct (tree_step B c t).2 p.
Proof.
  intros Hc H. destruct c; simpl in *; try done.
  - by apply direct_write.
  - by apply direct_mkdirs.
  - by apply direct_temp.
  - by apply direct_temp.
  - by apply direct_write.
  - destruct (name_of _ _) as [l|]; [|done]. destruct (at_ t l) as [[]|]; try done.
    + case_match; [|done]. eapply direct_subseteq; [apply delete_subseteq|done].
    + eapply direct_subseteq; [apply delete_subseteq|done].
    + eapply direct_subseteq; [apply delete_subseteq|done].
  - destruct (name_of _ _) as [l|[]]; try done.
    eapply direct_subseteq; [apply map_filter_subseteq|done].
  - by apply direct_write.
Qed.

(** ** What creating directories keeps *)

Lemma put_keeps t l n d e x : t !! l = None → l ≠ [] → dirs t d → t !! (d ++ [e]) = Some x →
  put l n t !! (d ++ [e]) = Some x.
Proof.
  intros Hl Hne Hd Hx. rewrite lookup_put. case_bool_decide as E; [congruence|].
  case_bool_decide as Hu; [|done]. destruct Hu as [[b Eb] _]. destruct b as [|y b _] using rev_ind.
  { rewrite app_nil_r in Eb. congruence. }
  rewrite app_assoc in Eb. apply app_inj_tail in Eb as [-> _]. rewrite (Hd l b) in Hl by done. done.
Qed.

Lemma put_dirs t l n d : t !! l = None → l ≠ [] → dirs t d → dirs (put l n t) d.
Proof.
  intros Hl Hne Hd a b -> Ha. destruct a as [|y a _] using rev_ind; [done|].
  apply put_keeps; [done..| |by apply (Hd (a ++ [y]) b)].
  intros a' b' -> Ha'. apply (Hd a' ((b' ++ [y]) ++ b)); [by rewrite !app_assoc|done].
Qed.

Lemma resolve_put n t l x cur es r : t !! l = None → l ≠ [] → dirs t cur →
  resolve n t cur es = Ok r → resolve n (put l x t) cur es = Ok r.
Proof.
  intros Hl Hne. revert cur es. induction n as [n IHn] using lt_wf_ind. intros cur es. revert cur.
  induction es as [|e es IH]; intros cur Hd; [by rewrite !resolve_nil|].
  rewrite !resolve_cons. case_bool_decide; [apply IH; by apply dirs_removelast|].
  destruct (t !! (cur ++ [e])) as [y|] eqn:Hy; [|done].
  rewrite (put_keeps t l x cur e y) by done. destruct y as [|data|target]; [|done|].
  - apply IH. by apply dirs_snoc.
  - destruct n as [|n]; [done|]. apply IHn; [lia|]. destruct (IsAbs target); [apply dirs_nil|done].
Qed.

Lemma lstat_put t l x p k : t !! l = None → l ≠ [] → Forall plain p → lstat t p = Ok k →
  lstat (put l x t) p = Ok k.
Proof.
  intros Hl Hne Hp. destruct p as [|e d _] using rev_ind; [done|].
  apply Forall_app in Hp as [Hp _]. rewrite !lstat_snoc.
  destruct (locate t d) as [r|] eqn:E; [|done]. unfold locate in *.
  rewrite (resolve_put _ _ _ _ _ _ _ Hl Hne (dirs_nil t) E).
  destruct (at_ t r) as [[]|] eqn:Hr; [|done..].
  destruct (locate_real _ _ _ Hp E) as [_ Hreal].
  assert (dirs t r) as Hd.
  { destruct Hreal as [->|(d'&e'&n&->&Hd'&Hn&_)]; [apply dirs_nil|]. apply dirs_snoc. rewrite at_snoc in Hr. by split. }
  rewrite (dirs_at (put l x t) r) by by apply put_dirs.
  destruct (t !! (r ++ [e])) as [y|] eqn:Hy; [|done]. by rewrite (put_keeps t l x r e y).
Qed.

Lemma at_None t l : at_ t l = None → t !! l = None ∧ l ≠ [].
Proof. by destruct l. Qed.

Lemma lstat_mkdirs t a b p k : Forall plain p → lstat t p = Ok k → lstat (mkdirs t a b).2 p = Ok k.
Proof.
  intros Hp. revert t a. induction b as [|e b IH]; intros t a H; simpl; [done|].
  destruct (locate t (a ++ [e])) as [l|[|msg]]; [| |done].
  - destruct (at_ t l) as [[]|]; [by apply IH|done..].
  - destruct (name_of t (a ++ [e])) as [l|]; [|done]. destruct (at_ t l) eqn:Hl; [done|].
    apply at_None in Hl as [Hl Hne]. apply IH. by apply lstat_put.
Qed.

(** Replacing a file by another leaves all paths. *)
Lemma resolve_put_file n t l old new cur es r : t !! l = Some (NFile old) → l ≠ [] → dirs t cur →
  resolve n t cur es = Ok r → resolve n (put l (NFile new) t) cur es = Ok r.
Proof.
  intros Hl Hne. revert cur es. induction n as [n IHn] using lt_wf_ind. intros cur es. revert cur.
  induction es as [|e es IH]; intros cur Hd; [by rewrite !resolve_nil|].
  rewrite !resolve_cons. case_bool_decide; [apply IH; by apply dirs_removelast|]. rewrite lookup_put.
  case_bool_decide as El; [by rewrite El, Hl|]. case_bool_decide as Hu.
  { destruct Hu as [[b Eb] _]. destruct b as [|y b _] using rev_ind; [by rewrite app_nil_r in Eb|].
    rewrite app_assoc in Eb. apply app_inj_tail in Eb as [-> _]. rewrite (Hd l b) in Hl by done. done. }
  destruct (t !! (cur ++ [e])) as [[|data|target]|] eqn:Hy; [|done| |done].
  - apply IH. by apply dirs_snoc.
  - destruct n as [|n]; [done|]. apply IHn; [lia|]. destruct (IsAbs target); [apply dirs_nil|done].
Qed.

Lemma locate_mkdirs t a b p r : locate t p = Ok r → locate (mkdirs t a b).2 p = Ok r.
Proof.
  revert t a. induction b as [|e b IH]; intros t a H; simpl; [done|].
  destruct (locate t (a ++ [e])) as [l|[|msg]]; [| |done].
  - destruct (at_ t l) as [[]|]; [by apply IH|done..].
  - destruct (name_of t (a ++ [e])) as [l|]; [|done]. destruct (at_ t l) eqn:Hl; [done|].
    apply at_None in Hl as [Hl Hne]. apply IH. exact (resolve_put _ _ _ _ _ _ _ Hl Hne (dirs_nil t) H).
Qed.

Lemma locate_write t a f p r : locate t p = Ok r → locate (write t a f).2 p = Ok r.
Proof.
  intros H. unfold write. destruct (locate t a) as [l|[|msg]]; [| |exact H].
  - destruct (at_ t l) as [[|old|]|] eqn:Hl; [exact H| |exact H..]. destruct l as [|x l]; [discriminate Hl|].
    exact (resolve_put_file _ _ _ old _ _ _ _ Hl (λ E, match E with end) (dirs_nil t) H).
  - destruct (name_of t a) as [l|]; [|done]. destruct (at_ t l) eqn:Hl; [done|].
    apply at_None in Hl as [Hl Hne]. exact (resolve_put _ _ _ _ _ _ _ Hl Hne (dirs_nil t) H).
Qed.

Lemma locate_creates t B (c : call B) p r : creates c = true → locate t p = Ok r → locate (tree_step B c t).2 p = Ok r.
Proof.
  destruct c; intros Hc H; try discriminate Hc; cbn [tree_step].
  - exact (locate_write _ _ _ _ _ H).
  - exact (locate_mkdirs _ _ _ _ _ H).
Qed.

Lemma eval_locate (t : tree) p q : answer (EvalSymlinks p) t = Ok q ↔ ∃ l, locate t (comps p) = Ok l ∧ q = abs l.
Proof.
  unfold answer. cbn [os_step tree_fs tree_step fst]. destruct (locate t (comps p)) as [l|].
  - split; [intros [= <-]; by exists l|by intros (?&[= ->]&->)].
  - split; [discriminate|by intros (?&?&?)].
Qed.

(** A name resolves to a directory. *)
Definition dir_at (t : tree) (p : loc) : Prop := ∃ l, locate t p = Ok l ∧ at_ t l = Some NDir.

Lemma dir_at_dirs t p l : Forall plain p → locate t p = Ok l → at_ t l = Some NDir → dirs t l.
Proof.
  intros Hp E Hl. destruct (locate_real _ _ _ Hp E) as [_ [->|(d&e&n&->&Hd&_)]]; [apply dirs_nil|].
  apply dirs_snoc. by rewrite at_snoc in Hl.
Qed.

Lemma dir_at_put t l p : t !! l = None → l ≠ [] → Forall plain p → dir_at t p → dir_at (put l NDir t) p.
Proof.
  intros Hl Hne Hp (r&E&Hr). exists r. split; [by apply resolve_put; [..|apply dirs_nil|]|].
  apply dirs_at, put_dirs; [done..|]. by apply (dir_at_dirs _ _ _ Hp).
Qed.

Lemma dir_at_mkdirs t a b p : Forall plain p → dir_at t p → dir_at (mkdirs t a b).2 p.
Proof.
  intros Hp. revert t a. induction b as [|e b IH]; intros t a H; simpl; [done|].
  destruct (locate t (a ++ [e])) as [l|[|msg]]; [| |done].
  - destruct (at_ t l) as [[]|]; [by apply IH|done..].
  - destruct (name_of t (a ++ [e])) as [l|]; [|done]. destruct (at_ t l) eqn:Hl; [done|].
    apply at_None in Hl as [Hl Hne]. apply IH. by apply dir_at_put.
Qed.

Lemma dir_at_new t a e l : Forall plain a → plain e → name_of t (a ++ [e]) = Ok l → at_ t l = None →
  dir_at (put l NDir t) (a ++ [e]).
Proof.
  intros Ha (_&_&He&_). rewrite name_of_snoc. destruct (locate t a) as [d|] eqn:E; [|done].
  destruct (at_ t d) as [[]|] eqn:Hd; [|done..]. intros [= <-] [Hl Hne]%at_None.
  destruct (dir_at_put t (d ++ [e]) a Hl Hne Ha) as (d'&E'&Hd'); [by exists d|].
  assert (d' = d) as -> by (pose proof (resolve_put _ _ _ NDir _ _ _ Hl Hne (dirs_nil t) E); unfold locate in E'; congruence).
  destruct (resolve_app_ok _ _ _ _ _ E' Hd') as [n Hr]. exists (d ++ [e]). split.
  - unfold locate. rewrite Hr, resolve_cons, bool_decide_eq_false_2, lookup_put, bool_decide_eq_true_2 by done.
    by rewrite resolve_nil.
  - by rewrite at_snoc, lookup_put, bool_decide_eq_true_2.
Qed.

Lemma mkdirs_dir t a b : Forall plain a → Forall plain b → dir_at t a → (mkdirs t a b).1 = Ok () →
  dir_at (mkdirs t a b).2 (a ++ b).
Proof.
  intros Ha Hb. revert t a Ha. induction b as [|e b IH]; intros t a Ha H; simpl; [by rewrite app_nil_r|].
  apply List.Forall_cons_iff in Hb as [He Hb].
  assert (Forall plain (a ++ [e])) as Hae by (apply Forall_app; split; [done|by apply Forall_singleton]).
  replace (a ++ e :: b) with ((a ++ [e]) ++ b) by by rewrite <- app_assoc.
  destruct (locate t (a ++ [e])) as [l|[|msg]] eqn:E; [| |done].
  - destruct (at_ t l) as [[]|] eqn:Hl; [|done..]. apply IH; [done..|by exists l].
  - destruct (name_of t (a ++ [e])) as [l|] eqn:En; [|done]. destruct (at_ t l) eqn:Hl; [done|].
    apply IH; [done..|]. by apply dir_at_new.
Qed.

Lemma stat_dir_at (t : tree) p : answer (Stat p) t = Ok KDir ↔ dir_at t (comps p).
Proof.
  unfold answer, dir_at. simpl. destruct (locate t (comps p)) as [l|]; [|by split; [|intros (?&?&?)]].
  split; [|by intros (?&[= ->]&->)]. destruct (at_ t l) as [[]|] eqn:Hl; try done. intros _. by exists l.
Qed.

Lemma entries_plain t l : Forall (λ e, plain e.1) (entries t l).
Proof.
  unfold entries. generalize (map_to_list t). intros ms.
  induction ms as [|[k n] ms IH]; simpl; [by apply List.Forall_nil|].
  destruct (reverse k) as [|e r]; [done|]. case_bool_decide as Hb; [|done].
  destruct Hb as [_ Hp]. revert IH. generalize (foldr (λ '(k0, n0) (m : list (bytes * kind)),
    match reverse k0 with
    | [] => m
    | e0 :: r0 => if bool_decide (reverse r0 = l ∧ plain e0) then map_set e0 (node_kind n0) m else m
    end) [] ms).
  intros m. induction m as [|[k' v'] m IHm]; simpl; intros Hm; [by apply List.Forall_cons|].
  apply List.Forall_cons_iff in Hm as [? Hm].
  case_decide; [by apply List.Forall_cons|]. case_match; apply List.Forall_cons; auto.
Qed.

Lemma temp_name_plain t pre : slash ∉ pre → plain (pre ++ replicate (S (max_name t)) "0"%char).
Proof.
  intros Hs. rewrite replicate_S_end, app_assoc.
  assert (∀ a, a ++ ["0"%char] ≠ [] ∧ a ++ ["0"%char] ≠ dot ∧ a ++ ["0"%char] ≠ dotdot) as H.
  { intros [|x [|y [|z a]]]; done. }
  destruct (H (pre ++ replicate (max_name t) "0"%char)) as (?&?&?). split_and!; try done.
  rewrite !not_elem_of_app. split_and!; [done| |by rewrite list_elem_of_singleton].
  intros Hin. by apply elem_of_replicate in Hin as [[=] _].
Qed.

#[export] Instance tree_laws : FileSystemLaws tree.
Proof.
  split.
  - intros s p q. unfold answer. cbn -[Clean]. intros [= <-]. destruct (IsAbs p) eqn:Hp; by apply Clean_rooted.
  - intros s p (es&Hes&->). unfold answer. cbn -[Clean]. by rewrite Clean_abs.
  - intros s p q (es&Hes&->). unfold answer. simpl. rewrite comps_abs by done.
    destruct (locate s es) as [l|] eqn:E; [|done]. intros [= <-].
    destruct (locate_real _ _ _ Hes E) as [Hl Hr]. apply unlinked_direct; [done|]. by apply real_direct.
  - intros s p k Hu. destruct (Hu) as [(es&Hes&->) _]. apply unlinked_direct in Hu; [|done].
    unfold answer, name_kind, answer. simpl. rewrite !comps_abs by done. intros Hk.
    destruct (locate s es) as [l|err] eqn:E; [by destruct (locate_direct _ _ _ Hes Hu E) as [-> _]|].
    exfalso. destruct es as [|e d _] using rev_ind; [done|].
    rewrite lstat_snoc in Hk. destruct (locate s d) as [ld|] eqn:Ed; [|done].
    pose proof (direct_prefix _ _ _ Hu) as Hud. apply Forall_app in Hes as [Hes [(_&_&He&_) _]%List.Forall_cons_iff].
    destruct (locate_direct _ _ _ Hes Hud Ed) as [-> [Hd|[data Hd]]]; rewrite ?Hd in Hk; [|done].
    rewrite dirs_at in Hk by done. destruct (resolve_step _ _ _ _ Ed Hd He) as [n' Hs]. rewrite Hs in E.
    destruct (s !! (d ++ [e])) as [[| |tg]|] eqn:Hn; [done|done| |done]. by destruct (Hu d e [] eq_refl Hd tg).
  - intros s p q m (es&Hes&->) Hm. unfold answer, name_kind, answer. simpl.
    rewrite !comps_abs by done. destruct (locate s es) as [l|] eqn:E; [|done]. intros [= <-].
    destruct (locate_real _ _ _ Hes E) as [Hl Hr]. unfold child.
    rewrite !path_Join_name, !comps_abs by (done || (apply Forall_app; by split; [|apply Forall_singleton])).
    by rewrite !lstat_snoc, E, locate_id.
  - intros s p m (es&Hes&->) Hm. unfold name_kind, answer, child. simpl.
    rewrite path_Join_name, !comps_abs by (done || (apply Forall_app; by split; [|apply Forall_singleton])).
    destruct es as [|e d _] using rev_ind; [done|].
    apply Forall_app in Hes as [Hd [(_&_&He&_) _]%List.Forall_cons_iff].
    rewrite (lstat_snoc s (d ++ [e])), lstat_snoc.
    destruct (locate s d) as [l|err] eqn:E.
    + destruct (at_ s l) as [[]|] eqn:Hl; [|done..].
      destruct (s !! (l ++ [e])) eqn:Hn; [done|]. intros _.
      destruct (resolve_app_ok _ _ _ _ _ E Hl) as [n' Hr]. unfold locate. rewrite Hr.
      by rewrite resolve_cons, bool_decide_eq_false_2, Hn.
    + intros [= ->]. unfold locate in *. by rewrite (resolve_app_err _ _ _ _ _ _ E).
  - intros s B c Hc. destruct c; first [discriminate Hc|reflexivity].
  - intros s B c p Hc Hu. destruct (Hu) as [(es&Hes&->) _]. apply unlinked_direct; [done|]. apply direct_step; [done|].
    by apply unlinked_direct.
  - intros s p q e. unfold answer, after, os_step, tree_fs, tree_step.
    destruct (name_of s (comps p)) as [a|]; [|done]. destruct (name_of s (comps q)) as [b|]; [|done].
    destruct (at_ s a); [|done]. by case_bool_decide.
  - intros s d pre t (es&Hes&->). unfold answer, after, os_step, tree_fs, tree_step. rewrite comps_abs by done.
    unfold temp. case_bool_decide as Hs; [done|]. destruct (locate s es) as [l|] eqn:E; [|done].
    destruct (at_ s l) as [[]|] eqn:Hl; [|done..].
    assert (plain (pre ++ replicate (S (max_name s)) "0"%char)) as Hm by by apply temp_name_plain.
    revert Hm. generalize (pre ++ replicate (S (max_name s)) "0"%char). intros m Hm [= <-].
    exists m. split_and!; [done|done|]. intros Hu. cbn [snd].
    apply unlinked_direct in Hu; [|done]. destruct (locate_direct _ _ _ Hes Hu E) as [-> Hd].
    unfold child. rewrite path_Join_name by done.
    apply unlinked_direct; [apply Forall_app; split; [done|by apply Forall_singleton]|].
    intros d' e' b Eb Hd' target. rewrite lookup_put. case_bool_decide as Hk; [done|].
    case_bool_decide as Hu'; [done|]. destruct b as [|x b _] using rev_ind.
    { by apply app_inj_tail in Eb as [-> ->]. }
    rewrite app_comm_cons, app_assoc in Eb. apply app_inj_tail in Eb as [-> _].
    apply (Hu d' e' b eq_refl). intros a c -> Ha. specialize (Hd' a c eq_refl Ha).
    rewrite lookup_put in Hd'. case_bool_decide as Hal; [|by case_bool_decide].
    exfalso. apply (f_equal List.length) in Hal. rewrite !length_app in Hal. simpl in Hal. lia.
  - intros s p data. unfold answer, name_kind, answer. simpl. pose proof (comps_plain p) as Hp.
    destruct (comps p) as [|e d _] using rev_ind; [done|].
    apply Forall_app in Hp as [_ [(_&_&Hdd&_) _]%List.Forall_cons_iff]. rewrite lstat_snoc. destruct (locate s (d ++ [e])) as [l|] eqn:E; [|done].
    destruct (at_ s l) as [[| |]|] eqn:Hl; try done. intros _ Hk.
    destruct (locate s d) as [ld|] eqn:Ed; [|done].
    destruct (at_ s ld) as [[]|] eqn:Hld; [|done..].
    destruct (s !! (ld ++ [e])) as [[]|] eqn:He; try done.
    destruct (resolve_app_ok _ _ _ _ _ Ed Hld) as [n' Hr]. unfold locate in E. rewrite Hr in E.
    rewrite resolve_cons, bool_decide_eq_false_2, He, resolve_nil in E by done.
    injection E as <-. rewrite at_snoc in Hl. congruence.
  - intros s p es. unfold answer. simpl. case_match; [done|].
    destruct (locate s (comps p)) as [l|]; [|done]. destruct (at_ s l) as [[]|]; [|done..].
    intros [= <-]. apply entries_plain.
  - intros s p Hp. unfold answer, os_step, tree_fs, tree_step. apply Nat.leb_le in Hp. rewrite Hp. by eexists.
  - intros s d p k. unfold name_kind, answer, after. simpl. apply lstat_mkdirs. apply comps_plain.
  - intros s d p. rewrite !stat_dir_at. apply dir_at_mkdirs, comps_plain.
  - intros s B c p q Hc. rewrite !eval_locate. intros (l&E&->). exists l. split; [by apply locate_creates|done].
  - intros s p. rewrite stat_dir_at. apply (mkdirs_dir _ []); [done|apply comps_plain|by exists []].
Qed.
