(* ===== verification/Workspace.v ===== *)
(** The workspace of a skill, [llm/workspace.go]: which paths its tools may name.
    [ResolvePath_inside] shows that an accepted path lies under one of the
    workspace's roots and has no symbolic link on it, so that opening it reaches
    exactly that place; [ResolvePath_accepts] that such paths are accepted. *)
From S2P Require Import Prelude Json Text Event Path Os Tree.

(** ** Definitions *)

Record workspaceRoot := mkWorkspaceRoot {
  w_skillRoot : bytes; w_tempRoot : bytes; w_extraRoots : list bytes }.

Inductive ws_err :=
| ErrNotConfigured
| ErrPathRequired
| ErrNotRelative (p : bytes)
| ErrEscapes (p : bytes)
| ErrUnresolved (p : bytes)
| ErrNotDirectory (p : bytes)
| ErrOs (e : os_err)
| OutOfFuel.

Abbreviation ws_prog A := (prog (res ws_err A)).

Definition pathWithinRoot (root target : bytes) : bool :=
  match Rel root target with
  | None => false
  | Some relCheck => negb (escapes relCheck)
  end.

Definition containsPath (paths : list bytes) (target : bytes) : bool :=
  existsb (λ p, bool_decide (p = target)) paths.

(** The loop of [resolvePathExistingPrefix]; [missing] holds the names taken off
    so far, the outermost first. *)
Fixpoint existing_prefix (fuel : nat) (target current : bytes) (missing : list bytes) : ws_prog bytes :=
  match fuel with
  | O => Ret (Err OutOfFuel)
  | S fuel =>
      ask (Lstat current) ≫= λ st,
      match st with
      | Ok _ =>
          try resolved := ask (EvalSymlinks current) or ErrOs in
          Ret (Ok (foldl (λ acc m, path_Join [acc; m]) resolved missing))
      | Err NotExist =>
          let parent := Dir current in
          if bool_decide (parent = current) then Ret (Err (ErrUnresolved target))
          else existing_prefix fuel target parent (Base current :: missing)
      | Err e => Ret (Err (ErrOs e))
      end
  end.

Definition resolvePathExistingPrefix (target : bytes) : ws_prog bytes :=
  existing_prefix (S (List.length (pieces target))) target target [].

Definition resolveExistingPrefix (root target : bytes) : ws_prog bytes :=
  try resolved := resolvePathExistingPrefix target or id in
  Ret (if pathWithinRoot root resolved then Ok resolved else Err (ErrEscapes target)).

Definition resolveWorkspacePath (root rel : bytes) : ws_prog bytes :=
  if is_empty rel then Ret (Err ErrPathRequired)
  else if IsAbs rel then Ret (Err (ErrNotRelative rel))
  else
    let cleanRel := Clean rel in
    if escapes cleanRel then Ret (Err (ErrEscapes rel))
    else
      let cleaned := Clean (path_Join [root; cleanRel]) in
      try resolved := resolveExistingPrefix root cleaned or id in
      Ret (if pathWithinRoot root resolved then Ok resolved else Err (ErrEscapes rel)).

Definition roots (w : workspaceRoot) : list bytes :=
  (if is_empty (w_tempRoot w) then [] else [w_tempRoot w])
  ++ (if is_empty (w_skillRoot w) then [] else [w_skillRoot w])
  ++ w_extraRoots w.

Definition resolveAbsolutePath (w : workspaceRoot) (p : bytes) : ws_prog bytes :=
  let cleaned := Clean p in
  try resolved := resolvePathExistingPrefix cleaned or id in
  Ret (if existsb (λ root, negb (is_empty root) && pathWithinRoot root resolved) (roots w)
       then Ok resolved else Err (ErrEscapes p)).

Definition ResolvePath (w : option workspaceRoot) (rel : bytes) : ws_prog bytes :=
  match w with
  | None => Ret (Err ErrNotConfigured)
  | Some w => if IsAbs rel then resolveAbsolutePath w rel else resolveWorkspacePath (w_tempRoot w) rel
  end.

(** [info.IsDir] of [os.Stat]. *)
Definition canonicalDir (root : bytes) : ws_prog bytes :=
  if is_empty root then Ret (Err ErrPathRequired)
  else
    try absRoot := ask (Abs root) or ErrOs in
    try realRoot := ask (EvalSymlinks absRoot) or ErrOs in
    try info := ask (Stat realRoot) or ErrOs in
    Ret (if bool_decide (info = KDir) then Ok realRoot else Err (ErrNotDirectory root)).

Definition newTempWorkspaceRoot : ws_prog workspaceRoot :=
  try tempRoot := ask (MkdirTemp (s2b "dango-skill-")) or ErrOs in
  canonicalDir tempRoot ≫= λ r,
  match r with
  | Ok realTempRoot => Ret (Ok (mkWorkspaceRoot [] realTempRoot []))
  | Err e => ask (RemoveAll tempRoot) ≫= λ _, Ret (Err e)
  end.

Definition newWorkspaceRoot (root : bytes) : ws_prog workspaceRoot :=
  try skillRoot := canonicalDir root or id in
  try workspace := newTempWorkspaceRoot or id in
  Ret (Ok (mkWorkspaceRoot skillRoot (w_tempRoot workspace) (w_extraRoots workspace))).

Fixpoint canonical_dirs (acc dirs : list bytes) : ws_prog (list bytes) :=
  match dirs with
  | [] => Ret (Ok acc)
  | dir :: dirs =>
      try root := canonicalDir dir or id in
      canonical_dirs (if containsPath acc root then acc else acc ++ [root]) dirs
  end.

Definition setAccessibleDirs (w : option workspaceRoot) (dirs : list bytes) : ws_prog workspaceRoot :=
  match w with
  | None => Ret (Err ErrNotConfigured)
  | Some w =>
      try acc := canonical_dirs [] dirs or id in
      Ret (Ok (mkWorkspaceRoot (w_skillRoot w) (w_tempRoot w) acc))
  end.

Definition cleanup (w : option workspaceRoot) : ws_prog () :=
  match w with
  | None => Ret (Ok ())
  | Some w => if is_empty (w_tempRoot w) then Ret (Ok ())
              else try _ := ask (RemoveAll (w_tempRoot w)) or ErrOs in Ret (Ok ())
  end.

(** ** Specification *)

(** The roots are canonical absolute paths, and there is a temporary one. *)
Definition ws_ok (w : workspaceRoot) : Prop := w_tempRoot w ≠ [] ∧ ∀ r, r ∈ roots w → rooted r.

(** A place inside the workspace: under a root, and reached without a link. *)
Definition inside `{FileSystem W} (w : workspaceRoot) (s : W) (p : bytes) : Prop :=
  (∃ r, r ∈ roots w ∧ below r p) ∧ unlinked s p.

Definition only_queries {W : Type} (s : W) (B : Type) (c : call B) : Prop := query c = true.

(** Some prefix of the path cannot be looked up, for another reason than that it
    does not exist. *)
Definition lookup_fails `{FileSystem W} (s : W) (p : bytes) : Prop :=
  ∃ q msg, prefix_path q p ∧ name_kind s q = Err (OsErr msg).

Section resolve.
Context `{FileSystemLaws W}.
Implicit Types (s : W) (w : workspaceRoot).

Lemma pathWithinRoot_below root target : rooted root → rooted target →
  pathWithinRoot root target = true ↔ below root target.
Proof.
  intros (a&Ha&->) (t&Ht&->). unfold pathWithinRoot. rewrite Rel_within by done. split.
  - intros [b ->]. apply Forall_app in Ht as [_ Hb]. by exists a, b.
  - intros (a'&b&Ha'&Hb&E1&E2). apply abs_inj in E1 as <-; [|done..].
    exists b. apply abs_inj; [done|by apply Forall_app|done].
Qed.

Lemma missing_below s l m ms : Forall plain l → Forall plain (m :: ms) →
  name_kind s (abs (l ++ [m])) = Err NotExist → ∀ a b, m :: ms = a ++ b → a ≠ [] →
  name_kind s (abs (l ++ a)) = Err NotExist.
Proof.
  intros Hl Hms Hm a. induction a as [|x a IH] using rev_ind; [done|]. intros b E _.
  destruct (decide (a = [])) as [->|Ha]; [injection E as <- <-; exact Hm|].
  rewrite <- app_assoc in E. specialize (IH _ E Ha).
  assert (Forall plain (l ++ a) ∧ plain x) as [Hla Hx].
  { rewrite E in Hms. apply Forall_app in Hms as [Hpa [Hx _]%List.Forall_cons_iff]. by rewrite Forall_app. }
  rewrite app_assoc, <- path_Join_name by done. apply below_missing; [by exists (l ++ a)|done|done].
Qed.

Lemma unlinked_extend s l ms : Forall plain l → Forall plain ms → unlinked s (abs l) →
  (∀ m ms', ms = m :: ms' → name_kind s (abs (l ++ [m])) = Err NotExist) → unlinked s (abs (l ++ ms)).
Proof.
  intros Hl Hms [_ Hu] Hm. split; [exists (l ++ ms); by rewrite Forall_app|].
  intros q (a&b&Ha&Hb&->&E). apply abs_inj in E; [|by apply Forall_app..].
  apply app_eq_inv in E as [(k&->&->)|(k&->&->)].
  - apply Hu. exists a, k. split_and!; try done. by apply Forall_app in Hl as [_ ?].
  - destruct k as [|m k]; [rewrite app_nil_r; apply Hu; exists l, []; by rewrite app_nil_r|].
    by rewrite (missing_below s l m (k ++ b) Hl Hms (Hm m _ eq_refl) (m :: k) b).
Qed.

Lemma foldl_Join l ms : Forall plain l → Forall plain ms →
  foldl (λ acc m, path_Join [acc; m]) (abs l) ms = abs (l ++ ms).
Proof.
  revert l. induction ms as [|m ms IH]; intros l Hl Hms; simpl; [by rewrite app_nil_r|].
  apply List.Forall_cons_iff in Hms as [Hm Hms]. rewrite path_Join_name by done.
  rewrite IH, <- app_assoc; [done| |done]. apply Forall_app. split; [done|by apply Forall_singleton].
Qed.

Lemma abs_snoc_ne es e : Forall plain es → plain e → abs es ≠ abs (es ++ [e]).
Proof.
  intros Hes He E. apply abs_inj in E; [|done|apply Forall_app; by split; [|apply Forall_singleton]].
  apply (f_equal List.length) in E. rewrite length_app in E. simpl in E. lia.
Qed.

Lemma existing_prefix_wp fuel target es ms s : (List.length es < fuel)%nat →
  Forall plain es → Forall plain ms →
  (∀ m ms', ms = m :: ms' → name_kind s (abs (es ++ [m])) = Err NotExist) →
  wp only_queries (existing_prefix fuel target (abs es) ms) s
    (λ r s', s' = s ∧ match r with Ok q => unlinked s q | Err e => e ≠ OutOfFuel end).
Proof.
  revert es ms. induction fuel as [|fuel IH]; intros es ms Hf Hes Hms Hm; [lia|].
  cbn [existing_prefix]. split; [done|]. cbn [prog_bind]. rewrite query_state by done.
  destruct (answer (Lstat (abs es)) s) as [k|[|msg]] eqn:Hk; [| |done].
  - apply wp_try. split; [done|]. simpl. rewrite query_state by done.
    destruct (answer (EvalSymlinks (abs es)) s) as [q|err] eqn:Hq; [|done].
    assert (rooted (abs es)) as Hr by by exists es.
    pose proof (eval_unlinked _ _ _ Hr Hq) as Hu. destruct (Hu) as [(l&Hl&->) _].
    simpl. split; [done|]. rewrite foldl_Join by done. apply unlinked_extend; [done|done|done|].
    intros m ms' ->. apply List.Forall_cons_iff in Hms as [Hpm Hms].
    rewrite <- path_Join_name by done. change (path_Join [abs l; m]) with (child (abs l) m).
    rewrite <- (eval_child s (abs es) (abs l) m Hr Hpm Hq). unfold child.
    rewrite path_Join_name by done. by eapply Hm.
  - destruct es as [|e es _] using rev_ind; [done|].
    apply Forall_app in Hes as [Hes [He _]%List.Forall_cons_iff].
    rewrite Dir_abs, Base_abs, bool_decide_eq_false_2 by (done || by apply abs_snoc_ne).
    apply IH; [rewrite length_app in Hf; simpl in Hf; lia|done|by constructor|].
    by intros m ms' [= <- <-].
Qed.

Lemma resolve_prefix_wp s es : Forall plain es →
  wp only_queries (resolvePathExistingPrefix (abs es)) s
    (λ r s', s' = s ∧ match r with Ok q => unlinked s q | Err e => e ≠ OutOfFuel end).
Proof. intros Hes. apply existing_prefix_wp; [rewrite pieces_abs by done; lia|done..]. Qed.

Lemma temp_root w : ws_ok w → w_tempRoot w ∈ roots w.
Proof. intros [Ht _]. unfold roots. destruct (w_tempRoot w); [done|]. by left. Qed.

Lemma join_rooted root rel : rooted root → escapes (Clean rel) = false → IsAbs rel = false →
  ∃ es, Forall plain es ∧ Clean (path_Join [root; Clean rel]) = abs es.
Proof.
  intros (a&Ha&->) He Hr. apply orb_false_elim in He as [H1%bool_decide_eq_false H2].
  destruct (Clean_relative rel Hr H1 H2) as [->|(es&Hne&Hes&->)].
  - exists a. by rewrite abs_dot, Clean_abs.
  - exists (a ++ es). rewrite Forall_app. split; [done|].
    rewrite (path_Join_abs a _ es Ha); [by apply Clean_abs, Forall_app| |by apply pieces_Join|done].
    destruct es as [|[|c e] es]; [done| |done]. by apply List.Forall_cons_iff in Hes as [[] _].
Qed.

Lemma ResolvePath_wp s w p : ws_ok w →
  wp only_queries (ResolvePath (Some w) p) s
    (λ r s', s' = s ∧ match r with Ok q => inside w s q | Err e => e ≠ OutOfFuel end).
Proof.
  intros Hw. cbn [ResolvePath]. destruct (IsAbs p) eqn:Hp.
  - unfold resolveAbsolutePath. destruct (Clean_rooted p Hp) as (es&Hes&->).
    apply wp_try. eapply wp_mono; [|by apply resolve_prefix_wp]. simpl.
    intros [q|e] s' [-> Hq]; [|done]. split; [done|].
    destruct (existsb _ (roots w)) eqn:E; [|done]. apply existsb_elem in E as (r&Hr&E).
    apply andb_true_iff in E as [_ E]. split; [|done]. exists r. split; [done|].
    apply pathWithinRoot_below; [by apply Hw|apply Hq|done].
  - pose proof (temp_root w Hw) as Ht. unfold resolveWorkspacePath.
    rewrite Hp. destruct (is_empty p); [by split|]. destruct (escapes (Clean p)) eqn:He; [by split|].
    destruct (join_rooted (w_tempRoot w) p) as (es&Hes&->); [by apply Hw|done|done|].
    apply wp_try, wp_try. eapply wp_mono; [|by apply resolve_prefix_wp]. simpl.
    intros [q|e] s' [-> Hq]; [|done].
    destruct (pathWithinRoot (w_tempRoot w) q) eqn:Eq; simpl; [|done]. rewrite Eq. simpl.
    split; [done|]. split; [|done]. exists (w_tempRoot w). split; [done|].
    apply pathWithinRoot_below; [by apply Hw|apply Hq|done].
Qed.

Lemma exec_resolve s w p : ws_ok w →
  exec (ResolvePath (Some w) p) s = ((exec (ResolvePath (Some w) p) s).1, s).
Proof.
  intros Hw. pose proof (wp_exec _ _ _ _ (ResolvePath_wp s w p Hw)) as [Hs _].
  rewrite <- Hs at 3. by destruct (exec _ _).
Qed.

(** A path without links is found again, unless a lookup fails. *)
Lemma existing_prefix_id fuel target es ms s : (List.length es < fuel)%nat →
  Forall plain es → Forall plain ms → unlinked s (abs es) → name_kind s (abs []) = Ok KDir →
  ¬ lookup_fails s (abs es) →
  exec (existing_prefix fuel target (abs es) ms) s = (Ok (abs (es ++ ms)), s).
Proof.
  revert es ms. induction fuel as [|fuel IH]; intros es ms Hf Hes Hms Hu Hroot Hl; [lia|].
  cbn [existing_prefix]. rewrite exec_bind. cbn [ask exec fst snd].
  rewrite query_state by done. destruct (answer (Lstat (abs es)) s) as [k|[|msg]] eqn:Hk.
  - unfold try_bind. rewrite exec_bind. cbn [ask exec fst snd]. rewrite query_state by done.
    rewrite (eval_id s (abs es) k) by done. cbn. by rewrite foldl_Join.
  - destruct es as [|e es _] using rev_ind; [by unfold name_kind in Hroot; rewrite Hroot in Hk|].
    apply Forall_app in Hes as [Hes [He _]%List.Forall_cons_iff].
    rewrite Dir_abs, Base_abs, bool_decide_eq_false_2 by (done || by apply abs_snoc_ne).
    assert (∀ q, prefix_path q (abs es) → prefix_path q (abs (es ++ [e]))) as Hpre.
    { intros q (a&b&Ha&Hb&->&E). apply abs_inj in E as ->; [|done|by apply Forall_app].
      exists a, (b ++ [e]). rewrite <- app_assoc. split_and!; try done.
      apply Forall_app. split; [done|by apply Forall_singleton]. }
    rewrite (IH es (e :: ms)); [by rewrite <- app_assoc| |done|by constructor| |done|].
    + rewrite length_app in Hf. simpl in Hf. lia.
    + split; [by exists es|]. intros q Hq. apply Hu. by apply Hpre.
    + intros (q&msg&Hq&E). apply Hl. exists q, msg. split; [by apply Hpre|done].
  - destruct Hl. exists (abs es), msg. split; [|done]. exists es, []. by rewrite app_nil_r.
Qed.

(** What building a workspace returns. *)
Lemma canonicalDir_wp s root I : (∀ s B (c : call B), I s B c) →
  wp I (canonicalDir root) s (λ r _, match r with Ok q => rooted q | Err _ => True end).
Proof.
  intros HI. unfold canonicalDir. destruct (is_empty root); [done|].
  apply wp_try. split; [done|]. destruct (answer (Abs root) s) as [a|] eqn:Ha; simpl; [|done].
  split; [done|]. rewrite query_state by done.
  destruct (answer (EvalSymlinks a) s) as [q|] eqn:Hq; simpl; [|done]. split; [done|].
  destruct (answer (Stat q) _) as [k|]; simpl; [|done]. case_bool_decide; [|done].
  apply eval_unlinked in Hq as [Hq _]; [done|]. by eapply abs_rooted.
Qed.

Lemma temp_workspace_wp s I : (∀ s B (c : call B), I s B c) →
  wp I newTempWorkspaceRoot s (λ r _, match r with
    | Ok w => ∃ t, rooted t ∧ w = mkWorkspaceRoot [] t [] | Err _ => True end).
Proof.
  intros HI. unfold newTempWorkspaceRoot. apply wp_try. split; [done|].
  destruct (answer _ s) as [t|]; simpl; [|done]. apply wp_bind.
  eapply wp_mono; [|by apply canonicalDir_wp]. intros [q|e] s'; simpl; [|done]. by exists q.
Qed.

Lemma canonical_dirs_wp acc dirs s I : (∀ s B (c : call B), I s B c) → Forall rooted acc →
  wp I (canonical_dirs acc dirs) s (λ r _, match r with Ok ds => Forall rooted ds | Err _ => True end).
Proof.
  intros HI. revert acc s. induction dirs as [|d dirs IH]; intros acc s Hacc; simpl; [done|].
  apply wp_try. eapply wp_mono; [|by apply canonicalDir_wp].
  intros [q|e] s' Hq; [|done]. apply IH. destruct (containsPath acc q); [done|].
  apply Forall_app. split; [done|]. by apply Forall_singleton.
Qed.

Lemma rooted_nonempty p : rooted p → is_empty p = false.
Proof. by intros (es&_&->). Qed.
End resolve.

(** ** Properties *)

(** Every workspace the package builds is well formed: [newWorkspaceRoot] and
    [newTempWorkspaceRoot] return workspaces with a temporary root and canonical
    absolute roots, and [setAccessibleDirs] keeps them so. *)
Theorem workspaces_well_formed `{FileSystemLaws W} (s : W) :
  (∀ w, (exec newTempWorkspaceRoot s).1 = Ok w → ws_ok w)
  ∧ (∀ root w, (exec (newWorkspaceRoot root) s).1 = Ok w → ws_ok w)
  ∧ (∀ w dirs w', ws_ok w → (exec (setAccessibleDirs (Some w) dirs) s).1 = Ok w' → ws_ok w').
Proof.
  assert (∀ sk t, (sk = [] ∨ rooted sk) → rooted t → ws_ok (mkWorkspaceRoot sk t [])) as Hok.
  { intros sk t Hsk Ht. split; [by destruct Ht as (es&_&->)|]. intros r. unfold roots. simpl.
    rewrite (rooted_nonempty t Ht), app_nil_r. destruct Hsk as [->|Hsk]; [|rewrite (rooted_nonempty sk Hsk)];
      simpl; rewrite !elem_of_cons, elem_of_nil; naive_solver. }
  split_and!.
  - intros w E. pose proof (wp_exec _ _ _ _ (temp_workspace_wp s (λ _ _ _, True) ltac:(done))) as Hw.
    rewrite E in Hw. destruct Hw as (t&Ht&->). apply Hok; [by left|done].
  - intros root w E. assert (wp (λ _ _ _, True) (newWorkspaceRoot root) s
      (λ r _, match r with Ok w => ws_ok w | Err _ => True end)) as Hw.
    { unfold newWorkspaceRoot. apply wp_try. eapply wp_mono; [|by apply canonicalDir_wp].
      intros [sk|e] s1 Hsk; [|done]. apply wp_try. eapply wp_mono; [|by apply temp_workspace_wp].
      intros [w1|e] s2 Ht; [|done]. destruct Ht as (t&Ht&->). apply Hok; [by right|done]. }
    apply wp_exec in Hw. by rewrite E in Hw.
  - intros w dirs w' [Ht Hr] E. assert (wp (λ _ _ _, True) (setAccessibleDirs (Some w) dirs) s
      (λ r _, match r with Ok w' => ws_ok w' | Err _ => True end)) as Hw.
    { cbn [setAccessibleDirs]. apply wp_try. eapply wp_mono; [|by apply canonical_dirs_wp].
      intros [ds|e] s1 Hds; [|done]. split; [done|]. intros r. unfold roots. cbn [w_tempRoot w_skillRoot w_extraRoots].
      rewrite !elem_of_app. intros [?|[?|?]]; [apply Hr; unfold roots; set_solver..|].
      by eapply Forall_forall in Hds. }
    apply wp_exec in Hw. by rewrite E in Hw.
Qed.

(** C22: [ResolvePath] of a configured workspace always returns, changes nothing,
    and every path it accepts, relative or absolute, lies under one of the
    workspace's roots and has no symbolic link on it, so that a call on the path
    reaches that very place: neither [..], nor an absolute path, nor a link, nor a
    part of the path that does not exist yet leads outside. *)
Theorem ResolvePath_inside `{FileSystemLaws W} (s : W) w p : ws_ok w →
  ∃ r, exec (ResolvePath (Some w) p) s = (r, s)
    ∧ match r with Ok q => inside w s q | Err e => e ≠ OutOfFuel end.
Proof.
  intros Hw. pose proof (wp_exec _ _ _ _ (ResolvePath_wp s w p Hw)) as [Hs Hr].
  exists (exec (ResolvePath (Some w) p) s).1. split; [by apply exec_resolve|done].
Qed.

(** An absolute path under a root with no symbolic link on it is accepted as it
    is, in whatever way it is written, whether or not it exists, as long as the
    operating system can look its prefixes up. *)
Theorem ResolvePath_accepts `{FileSystemLaws W} (s : W) w p : ws_ok w → IsAbs p = true →
  inside w s (Clean p) → name_kind s (abs []) = Ok KDir → ¬ lookup_fails s (Clean p) →
  exec (ResolvePath (Some w) p) s = (Ok (Clean p), s).
Proof.
  intros Hw Hp [(r&Hr&Hb) Hu] Hroot Hl. cbn [ResolvePath]. rewrite Hp. unfold resolveAbsolutePath.
  destruct (Clean_rooted p Hp) as (es&Hes&E). rewrite E in *. unfold try_bind. rewrite exec_bind.
  unfold resolvePathExistingPrefix.
  rewrite existing_prefix_id; [|rewrite pieces_abs by done; lia|done..]. cbn [exec fst snd].
  rewrite app_nil_r. replace (existsb _ (roots w)) with true; [done|]. symmetry.
  apply existsb_elem. exists r. split; [done|]. apply andb_true_iff. split.
  - destruct Hb as (a&b&_&_&->&_). done.
  - apply pathWithinRoot_below; [by apply Hw|by exists es|done].
Qed.

(** ** Witnesses *)

(** A temporary directory with a link out of it, one to itself and a file. *)
Definition sample_tree : tree := list_to_map [
  ([s2b "tmp"], NDir); ([s2b "tmp"; s2b "ws"], NDir); ([s2b "etc"], NDir);
  ([s2b "tmp"; s2b "ws"; s2b "out"], NLink (s2b "/etc"));
  ([s2b "tmp"; s2b "ws"; s2b "here"], NLink (s2b "../ws"));
  ([s2b "tmp"; s2b "ws"; s2b "a"], NFile (s2b "text")) ].
Definition sample_ws : workspaceRoot := mkWorkspaceRoot [] (s2b "/tmp/ws") [].

Definition resolved (p : string) : option string :=
  match (exec (ResolvePath (Some sample_ws) (s2b p)) sample_tree).1 with
  | Ok q => Some (b2s q)
  | Err _ => None
  end.

Example resolve_out : resolved "out/passwd" = None. Proof. by vm_compute. Qed.
Example resolve_up : resolved "b/../../x" = None. Proof. by vm_compute. Qed.
Example resolve_here : resolved "here/b/c" = Some "/tmp/ws/b/c"%string. Proof. by vm_compute. Qed.
Example resolve_abs : resolved "/tmp/ws/here/./a" = Some "/tmp/ws/a"%string. Proof. by vm_compute. Qed.

Lemma sample_ws_ok : ws_ok sample_ws.
Proof.
  split; [done|]. intros r Hr. cbn in Hr. apply list_elem_of_singleton in Hr as ->.
  exists [s2b "tmp"; s2b "ws"]. split; [|done]. by apply (bool_decide_unpack _); vm_compute.
Defined.

Lemma ResolvePath_inside_witness : ∃ r, exec (ResolvePath (Some sample_ws) (s2b "here/b")) sample_tree = (r, sample_tree)
  ∧ match r with Ok q => inside sample_ws sample_tree q | Err e => e ≠ OutOfFuel end.
Proof. exact (ResolvePath_inside sample_tree sample_ws (s2b "here/b") sample_ws_ok). Defined.

Lemma workspaces_well_formed_witness :
  ws_ok (mkWorkspaceRoot (s2b "/tmp/ws") (s2b "/dango-skill-0000000000") []).
Proof.
  apply (proj1 (proj2 (workspaces_well_formed sample_tree)) (s2b "/tmp/here/../ws/here")).
  vm_compute. reflexivity.
Defined.

(** The prefixes of a path, as a list. *)
Definition prefixes (es : list bytes) : list bytes :=
  (λ n, abs (take n es)) <$> seq 0 (S (List.length es)).

Lemma prefix_path_in q es : Forall plain es → prefix_path q (abs es) → q ∈ prefixes es.
Proof.
  intros Hes (a&b&Ha&Hb&->&E). apply abs_inj in E as ->; [|done|by apply Forall_app].
  apply list_elem_of_fmap. exists (List.length a). split; [by rewrite take_app_length|].
  apply elem_of_seq. rewrite length_app. lia.
Qed.

Definition sample_path : list bytes := [s2b "tmp"; s2b "ws"; s2b "b"; s2b "c"].

Definition name_fine (q : bytes) : bool :=
  match name_kind sample_tree q with Ok KLink | Err (OsErr _) => false | _ => true end.

Lemma sample_names q : prefix_path q (abs sample_path) → name_fine q = true.
Proof.
  intros Hq%prefix_path_in; [|by apply (bool_decide_unpack _); vm_compute].
  revert q Hq. apply Forall_forall. apply (bool_decide_unpack _). by vm_compute.
Defined.

Lemma ResolvePath_accepts_witness :
  exec (ResolvePath (Some sample_ws) (s2b "/tmp/./ws/b/x/../c")) sample_tree
  = (Ok (abs sample_path), sample_tree).
Proof.
  apply (ResolvePath_accepts sample_tree sample_ws (s2b "/tmp/./ws/b/x/../c") sample_ws_ok); [done| | |].
  - change (Clean _) with (abs sample_path). split.
    + exists (w_tempRoot sample_ws). split; [by left|].
      exists [s2b "tmp"; s2b "ws"], [s2b "b"; s2b "c"].
      split_and!; try done; by apply (bool_decide_unpack _); vm_compute.
    + split; [exists sample_path; split; [|done]; by apply (bool_decide_unpack _); vm_compute|].
      intros q Hq%sample_names E. unfold name_fine in Hq. by rewrite E in Hq.
  - done.
  - change (Clean _) with (abs sample_path). intros (q&msg&Hq%sample_names&E).
    unfold name_fine in Hq. by rewrite E in Hq.
Defined.
