(* ===== verification/Excerpt.v ===== *)
(** Matching lines with context: [renderFileExcerpt] of
    [llm/internal/builtin/file_excerpt.go] and the search loop of [grep.go].
    [excerpt_spec] equates the window arithmetic of the first with a filter over
    the lines; [grep_plain] says what the second prints without context, and
    [grep_context_hides] and [grep_context_overflow] what goes wrong with it. *)
From S2P Require Import Prelude Json GoText Text.

Definition newline : ascii := "010"%char.

(** What is printed: a line by its index, or the separator of two groups. *)
Inductive item := Sep | Line (j : Z).
#[export] Instance item_eq_dec : EqDecision item.
Proof. solve_decision. Defined.

Section excerpt.
Context (matcher : bytes → bool).

(** ** file_excerpt *)

(** The first loop: anchors with their windows, and the index of the first match
    over the limit. [count] matches were seen among the [i] lines before. *)
Fixpoint scan_windows (before after maxMatches len i count : Z) (lines : list bytes)
  : list (Z * (Z * Z)) * option Z :=
  match lines with
  | [] => ([], None)
  | line :: rest =>
      if matcher line then
        if maxMatches <? count + 1 then ([], Some i)
        else
          let start := if before <? i then i - before else 0 in
          let end_ := if after <? len - 1 - i then i + after else len - 1 in
          let '(ws, over) := scan_windows before after maxMatches len (i + 1) (count + 1) rest in
          ((i, (start, end_)) :: ws, over)
      else scan_windows before after maxMatches len (i + 1) count rest
  end.

(** The second loop. *)
Fixpoint print_windows (overLimitIndex lastPrint : Z) (ws : list (Z * Z)) : list item :=
  match ws with
  | [] => []
  | (start, end_) :: ws =>
      let end_ := if overLimitIndex <=? end_ then overLimitIndex - 1 else end_ in
      if end_ <? start then print_windows overLimitIndex lastPrint ws
      else
        (if (0 <=? lastPrint) && (lastPrint + 1 <? start) then [Sep] else [])
        ++ (let start := if start <=? lastPrint then lastPrint + 1 else start in
            Line <$> seqZ start (end_ - start + 1))
        ++ print_windows overLimitIndex end_ ws
  end.

Definition render_item (lines : list bytes) (anchors : list Z) (it : item) : bytes :=
  match it with
  | Sep => s2b "--"
  | Line j => dec (j + 1) ++ s2b (if bool_decide (j ∈ anchors) then ": " else "- ")
              ++ default [] (lines !! Z.to_nat j)
  end.

Definition truncation (maxMatches remaining : Z) : bytes :=
  newline :: s2b "... (truncated at " ++ dec maxMatches ++ s2b " matches, " ++ dec remaining ++ s2b " more)".

Definition match_count (lines : list bytes) : Z := Z.of_nat (List.length (List.filter matcher lines)).

Definition renderFileExcerpt (source : bytes) (before after maxMatches : Z) : bytes :=
  let lines := SplitByte newline source in
  let len := Z.of_nat (List.length lines) in
  let '(ws, over) := scan_windows before after maxMatches len 0 0 lines in
  match ws with
  | [] => []
  | _ =>
      let out := print_windows (default len over) (-1) ws.*2 in
      let result := Join (render_item lines ws.*1 <$> out) [newline] in
      match over with
      | None => result
      | Some _ => result ++ truncation maxMatches (match_count lines - maxMatches)
      end
  end.

(** ** grep *)

(** The loop of [grep]; [int] arithmetic wraps around. Returns what is printed
    with the index of the line each was printed for, the last index printed and
    whether the limit was passed. *)
Fixpoint grep_loop (contextLines maxMatches len i matchCount lastPrint : Z) (lines : list bytes)
  : list (option Z * item) * Z * bool :=
  match lines with
  | [] => ([], lastPrint, false)
  | line :: rest =>
      if matcher line then
        if maxMatches <? matchCount + 1 then ([], lastPrint, true)
        else
          let start := let s := i64 (i - contextLines) in if s <? 0 then 0 else s in
          let end_ := let e := i64 (i + contextLines) in if len <=? e then len - 1 else e in
          let sep := if (0 <=? lastPrint) && (0 <? contextLines) then [(None, Sep)] else [] in
          let start := if start <=? lastPrint then lastPrint + 1 else start in
          let '(out, last, tr) := grep_loop contextLines maxMatches len (i + 1) (matchCount + 1) end_ rest in
          (sep ++ ((λ j, (Some i, Line j)) <$> seqZ start (end_ - start + 1)) ++ out, last, tr)
      else grep_loop contextLines maxMatches len (i + 1) matchCount lastPrint rest
  end.

Definition grep_item (lines : list bytes) (it : option Z * item) : bytes :=
  match it with
  | (Some i, Line j) => render_item lines [i] (Line j)
  | (_, it) => render_item lines [] it
  end.

Definition grep_lines (source : bytes) (contextLines maxMatches : Z) : bytes :=
  let lines := SplitByte newline source in
  let '(out, lastPrint, truncated) :=
    grep_loop contextLines maxMatches (Z.of_nat (List.length lines)) 0 0 (-1) lines in
  match out with
  | [] => []
  | _ =>
      let result := Join (grep_item lines <$> out) [newline] in
      if truncated : bool then
        result ++ truncation maxMatches (match_count (drop (Z.to_nat (lastPrint + 1)) lines))
      else result
  end.
End excerpt.

Definition excerpt_test (src pat : string) (b a m : Z) : string :=
  b2s (renderFileExcerpt (λ l, Contains l (s2b pat)) (s2b src) b a m).

Example excerpt_1 : excerpt_test "a1
b
c
d
a2
e
a3
f" "a" 1 1 2 =
"1: a1
2- b
--
4- d
5: a2
6- e
... (truncated at 2 matches, 1 more)"%string.
Proof. by vm_compute. Qed.

(** ** Reference *)

(** The indices of the matching lines. *)
Fixpoint matches_from (matcher : bytes → bool) (i : Z) (lines : list bytes) : list Z :=
  match lines with
  | [] => []
  | line :: rest => if matcher line then i :: matches_from matcher (i + 1) rest
                    else matches_from matcher (i + 1) rest
  end.

(** Line [j] is within the context of one of the anchors. *)
Definition near (before after : Z) (anchors : list Z) (j : Z) : bool :=
  existsb (λ a, (a - before <=? j) && (j <=? a + after)) anchors.

(** Separators go where lines were left out. *)
Fixpoint with_seps (last : Z) (js : list Z) : list item :=
  match js with
  | [] => []
  | j :: js => (if (0 <=? last) && (last + 1 <? j) then [Sep] else []) ++ Line j :: with_seps j js
  end.

(** The lines before the first match over the limit that are near one of the
    first [maxMatches] matches, in order, and a note when there are more. *)
Definition excerpt_ref (matcher : bytes → bool) (source : bytes) (before after maxMatches : Z) : bytes :=
  let lines := SplitByte newline source in
  let found := matches_from matcher 0 lines in
  let shown := take (Z.to_nat maxMatches) found in
  let limit := default (Z.of_nat (List.length lines)) (found !! Z.to_nat maxMatches) in
  let js := List.filter (near before after shown) (seqZ 0 limit) in
  let more := Z.of_nat (List.length found) - maxMatches in
  match shown with
  | [] => []
  | _ => Join (render_item lines shown <$> with_seps (-1) js) [newline]
         ++ (if 0 <? more then truncation maxMatches more else [])
  end.

(** ** Equivalence *)

Lemma matches_from_range matcher i lines j : j ∈ matches_from matcher i lines →
  i ≤ j < i + Z.of_nat (List.length lines).
Proof.
  revert i. induction lines as [|l lines IH]; intros i; simpl; [by rewrite elem_of_nil|].
  destruct (matcher l); [rewrite elem_of_cons; intros [->|H%IH]|intros H%IH]; lia.
Qed.

Lemma matches_from_count matcher i lines :
  List.length (matches_from matcher i lines) = List.length (List.filter matcher lines).
Proof. revert i. induction lines as [|l lines IH]; intros i; simpl; [done|]. destruct (matcher l); simpl; by rewrite IH. Qed.

Lemma scan_windows_spec matcher before after maxMatches len i count lines :
  0 ≤ before → 0 ≤ after → 0 ≤ i → i + Z.of_nat (List.length lines) ≤ len → count ≤ maxMatches →
  let k := Z.to_nat (maxMatches - count) in
  scan_windows matcher before after maxMatches len i count lines
  = ((λ a, (a, (Z.max 0 (a - before), Z.min (len - 1) (a + after)))) <$> take k (matches_from matcher i lines),
     matches_from matcher i lines !! k).
Proof.
  intros Hb Ha. revert i count. induction lines as [|l lines IH]; intros i count Hi Hl Hc; simpl.
  - by rewrite take_nil.
  - simpl in Hl. destruct (matcher l).
    + destruct (Z.ltb_spec maxMatches (count + 1)).
      * by replace (Z.to_nat (maxMatches - count)) with 0%nat by lia.
      * replace (Z.to_nat (maxMatches - count)) with (S (Z.to_nat (maxMatches - (count + 1)))) by lia.
        rewrite (IH (i + 1) (count + 1)) by lia. simpl. do 4 f_equal.
        -- destruct (Z.ltb_spec before i); lia.
        -- destruct (Z.ltb_spec after (len - 1 - i)); lia.
    + apply IH; lia.
Qed.

Lemma filter_seqZ_split (p q : Z → bool) limit m e : 0 ≤ m → m ≤ e + 1 → e + 1 ≤ limit →
  (∀ j, 0 ≤ j < limit → p j = ((m <=? j) && (j <=? e)) || ((e <? j) && q j)) →
  List.filter p (seqZ 0 limit) = seqZ m (e + 1 - m) ++ List.filter (λ j, (e <? j) && q j) (seqZ 0 limit).
Proof.
  intros Hm He Hl Hp.
  assert (seqZ 0 limit = seqZ 0 m ++ seqZ m (e + 1 - m) ++ seqZ (e + 1) (limit - (e + 1))) as ->.
  { replace limit with (m + (limit - m)) at 1 by lia. rewrite seqZ_app by lia. f_equal.
    replace (limit - m) with ((e + 1 - m) + (limit - (e + 1))) by lia. rewrite seqZ_app by lia.
    f_equal; f_equal; lia. }
  rewrite !List.filter_app.
  rewrite (list_filter_none p (seqZ 0 m)), (list_filter_all p (seqZ m _)).
  2: { intros j Hj%elem_of_seqZ. rewrite Hp by lia. apply orb_true_iff. left. lia. }
  2: { intros j Hj%elem_of_seqZ. rewrite Hp by lia. apply orb_false_iff. split; [lia|].
       apply andb_false_iff. left. lia. }
  rewrite (list_filter_none _ (seqZ 0 m)), (list_filter_none _ (seqZ m _)).
  2,3: intros j Hj%elem_of_seqZ; apply andb_false_iff; left; lia.
  simpl. f_equal. apply list_filter_ext. intros j Hj%elem_of_seqZ. rewrite Hp by lia.
  destruct (Z.leb_spec j e); [lia|]. by rewrite andb_false_r.
Qed.

Lemma with_seps_run last m (n : nat) rest : with_seps last (seqZ m (Z.of_nat n) ++ rest) =
  match n with
  | O => with_seps last rest
  | S _ => (if (0 <=? last) && (last + 1 <? m) then [Sep] else [])
           ++ (Line <$> seqZ m (Z.of_nat n)) ++ with_seps (m + Z.of_nat n - 1) rest
  end.
Proof.
  revert last m. induction n as [|n IH]; intros last m; [done|].
  rewrite seqZ_cons by lia. cbn [app with_seps fmap list_fmap]. f_equal. f_equal.
  replace (Z.pred (Z.of_nat (S n))) with (Z.of_nat n) by lia. rewrite IH.
  destruct n as [|n]; [simpl; f_equal; lia|].
  replace (m + 1 <? Z.succ m) with false by (symmetry; apply Z.ltb_ge; lia).
  rewrite andb_false_r. cbn [app]. do 2 f_equal. lia.
Qed.

(** Windows in order, none behind what is printed. *)
Fixpoint windows_ok (limit last : Z) (ws : list (Z * Z)) : Prop :=
  match ws with
  | [] => True
  | (s, e) :: ws => 0 ≤ s ∧ s ≤ e ∧ s < limit ∧ last ≤ Z.min e (limit - 1) ∧ (∀ w, w ∈ ws → s ≤ w.1)
                    ∧ windows_ok limit (Z.min e (limit - 1)) ws
  end.

Definition in_window (j : Z) (w : Z * Z) : bool := (w.1 <=? j) && (j <=? w.2).

Lemma print_windows_spec limit last ws : -1 ≤ last → windows_ok limit last ws →
  print_windows limit last ws
  = with_seps last (List.filter (λ j, (last <? j) && existsb (in_window j) ws) (seqZ 0 limit)).
Proof.
  revert last. induction ws as [|[s e] ws IH]; intros last Hlast; simpl.
  - intros _. rewrite list_filter_none; [done|]. intros j _. apply andb_false_r.
  - intros (Hs&Hse&Hsl&He&Hws&Hok).
    replace (if limit <=? e then limit - 1 else e) with (Z.min e (limit - 1))
      by (destruct (Z.leb_spec limit e); lia).
    remember (Z.min e (limit - 1)) as e' eqn:Ee. destruct (Z.ltb_spec e' s); [lia|].
    rewrite (filter_seqZ_split _ (λ j, existsb (in_window j) ws) limit (Z.max s (last + 1)) e'); [|lia..|].
    + replace (e' + 1 - Z.max s (last + 1)) with (Z.of_nat (Z.to_nat (e' + 1 - Z.max s (last + 1)))) by lia.
      rewrite with_seps_run, IH by (done || lia).
      destruct (Z.to_nat (e' + 1 - Z.max s (last + 1))) as [|n] eqn:En.
      * assert (last = e') as -> by lia. rewrite (proj2 (Z.leb_le s e')) by lia.
        replace (e' + 1 <? s) with false by lia. rewrite andb_false_r, seqZ_nil by lia. done.
      * replace (last + 1 <? Z.max s (last + 1)) with (last + 1 <? s) by lia. f_equal.
        replace (if s <=? last then last + 1 else s) with (Z.max s (last + 1))
          by (destruct (Z.leb_spec s last); lia).
        rewrite <- En. f_equal; [do 2 f_equal; lia|]. f_equal. lia.
    + intros j Hj. unfold in_window at 1. simpl.
      destruct (existsb (in_window j) ws) eqn:Ex.
      * apply existsb_exists in Ex as (w&Hw&Hjw). apply list_elem_of_In, Hws in Hw.
        unfold in_window in Hjw. lia.
      * lia.
Qed.

Lemma windows_ok_shown matcher before after limit len last i k lines :
  0 ≤ before → 0 ≤ after → 0 ≤ i → i + Z.of_nat (List.length lines) ≤ len → limit ≤ len →
  (∀ a, a ∈ take k (matches_from matcher i lines) → a < limit) →
  last ≤ Z.min (Z.min (len - 1) (i - 1 + after)) (limit - 1) →
  windows_ok limit last ((λ a, (Z.max 0 (a - before), Z.min (len - 1) (a + after))) <$> take k (matches_from matcher i lines)).
Proof.
  intros Hb Ha. revert i k last. induction lines as [|l lines IH]; intros i k last Hi Hl Hlen Hlim Hlast.
  - cbn [matches_from]. by rewrite take_nil.
  - simpl in *. destruct (matcher l).
    + destruct k as [|k]; [done|]. simpl in *. assert (i < limit) by (apply Hlim; by left).
      split_and!; [lia|lia|lia|lia| |].
      * intros w (a&->&Hin)%list_elem_of_fmap. simpl.
        apply elem_of_take in Hin as (n&Hin%list_elem_of_lookup_2&_). apply matches_from_range in Hin. lia.
      * apply IH; [lia|lia|lia| |lia]. intros a Hin. apply Hlim. by right.
    + apply IH; try lia. done.
Qed.

Lemma matches_from_lt matcher i lines k a b : matches_from matcher i lines !! k = Some b →
  a ∈ take k (matches_from matcher i lines) → a < b.
Proof.
  revert i k. induction lines as [|l lines IH]; intros i k; simpl; [done|].
  destruct (matcher l); [|apply IH]. destruct k as [|k]; simpl; [by rewrite elem_of_nil|].
  intros Hk. rewrite elem_of_cons. intros [->|Hin]; [|by eapply IH].
  apply list_elem_of_lookup_2, matches_from_range in Hk. lia.
Qed.

Lemma near_windows before after len anchors j : 0 ≤ j < len →
  existsb (in_window j) ((λ a, (Z.max 0 (a - before), Z.min (len - 1) (a + after))) <$> anchors)
  = near before after anchors j.
Proof.
  intros Hj. unfold near. induction anchors as [|a anchors IH]; [done|].
  rewrite fmap_cons. cbn [existsb]. rewrite IH. f_equal. unfold in_window. simpl. lia.
Qed.

(** [renderFileExcerpt], which merges context windows while it prints them,
    equals the reference: the lines near one of the first [max_matches] matches and
    before the next match, each once and in order, matches marked with a colon,
    groups of lines separated, and a note that counts the matches left out. *)
Theorem excerpt_spec matcher source before after maxMatches :
  0 ≤ before → 0 ≤ after → 0 < maxMatches →
  renderFileExcerpt matcher source before after maxMatches
  = excerpt_ref matcher source before after maxMatches.
Proof.
  intros Hb Ha Hm. unfold renderFileExcerpt, excerpt_ref.
  set (lines := SplitByte newline source). set (len := Z.of_nat (List.length lines)).
  rewrite scan_windows_spec by lia. rewrite Z.sub_0_r.
  set (found := matches_from matcher 0 lines). set (k := Z.to_nat maxMatches).
  assert ((((λ a, (a, (Z.max 0 (a - before), Z.min (len - 1) (a + after)))) <$> take k found).*1 = take k found)) as ->
    by (by rewrite <- list_fmap_compose, list_fmap_id).
  assert ((((λ a, (a, (Z.max 0 (a - before), Z.min (len - 1) (a + after)))) <$> take k found).*2
    = (λ a, (Z.max 0 (a - before), Z.min (len - 1) (a + after))) <$> take k found)) as ->
    by (by rewrite <- list_fmap_compose).
  destruct (take k found) as [|a shown] eqn:Eshown; [done|].
  change (match (λ a, (a, (Z.max 0 (a - before), Z.min (len - 1) (a + after)))) <$> (a :: shown) with
          | [] => [] | _ :: _ => ?x end) with x. cbv beta iota. rewrite <- Eshown.
  set (limit := default len (found !! k)).
  assert (0 ≤ limit ≤ len) as Hlimit.
  { unfold limit. destruct (found !! k) eqn:E; simpl; [|lia].
    apply list_elem_of_lookup_2, matches_from_range in E. lia. }
  assert (0 < len) as Hlen.
  { assert (a ∈ take k found) as Hin by (rewrite Eshown; by left).
    apply elem_of_take in Hin as (n&Hin%list_elem_of_lookup_2&_).
    apply matches_from_range in Hin. lia. }
  rewrite print_windows_spec; [|lia|].
  - rewrite (list_filter_ext _ (near before after (take k found))).
    2: { intros j Hj%elem_of_seqZ. rewrite near_windows by lia. by replace (-1 <? j) with true by lia. }
    destruct (found !! k) as [over|] eqn:Eo.
    + apply lookup_lt_Some in Eo. unfold match_count. rewrite <- (matches_from_count matcher 0).
      fold found. by replace (0 <? Z.of_nat (List.length found) - maxMatches) with true by lia.
    + apply lookup_ge_None in Eo. replace (0 <? Z.of_nat (List.length found) - maxMatches) with false by lia.
      by rewrite app_nil_r.
  - apply (windows_ok_shown matcher before after limit len (-1) 0 k lines); try lia.
    intros b Hin. unfold limit. destruct (found !! k) eqn:E; simpl; [by eapply matches_from_lt|].
    apply elem_of_take in Hin as (n&Hin%list_elem_of_lookup_2&_).
    apply matches_from_range in Hin. lia.
Qed.

Lemma excerpt_spec_witness :
  renderFileExcerpt (λ l, Contains l (s2b "x")) (s2b "x
y
z
x") 0 1 1 = excerpt_ref (λ l, Contains l (s2b "x")) (s2b "x
y
z
x") 0 1 1.
Proof. apply excerpt_spec; lia. Defined.

(** ** grep without context *)

Lemma grep_loop_plain matcher maxMatches len i count lastPrint lines :
  0 ≤ i → i + Z.of_nat (List.length lines) ≤ len → len < two63 → count ≤ maxMatches → lastPrint < i →
  let k := Z.to_nat (maxMatches - count) in
  let found := matches_from matcher i lines in
  grep_loop matcher 0 maxMatches len i count lastPrint lines
  = ((λ a, (Some a, Line a)) <$> take k found, default lastPrint (last (take k found)),
     bool_decide (is_Some (found !! k))).
Proof.
  revert i count lastPrint. induction lines as [|l lines IH]; intros i count lastPrint Hi Hl Hlen Hc Hp; simpl.
  - by rewrite take_nil.
  - simpl in Hl. destruct (matcher l); [|by apply IH; lia].
    destruct (Z.ltb_spec maxMatches (count + 1)).
    + by replace (Z.to_nat (maxMatches - count)) with 0%nat by lia.
    + replace (Z.to_nat (maxMatches - count)) with (S (Z.to_nat (maxMatches - (count + 1)))) by lia.
      rewrite Z.sub_0_r, Z.add_0_r, i64_small by (unfold two63 in *; lia).
      destruct (Z.ltb_spec i 0); [lia|]. destruct (Z.leb_spec len i); [lia|].
      rewrite (IH (i + 1) (count + 1) i) by lia. rewrite andb_false_r.
      destruct (Z.leb_spec i lastPrint); [lia|]. replace (i - i + 1) with 1 by lia.
      change (seqZ i 1) with [Z.of_nat 0 + i]. simpl.
      rewrite last_cons.
      by destruct (last (take (Z.to_nat (maxMatches - (count + 1))) (matches_from matcher (i + 1) lines))).
Qed.

Lemma matches_after matcher i lines k a : matches_from matcher i lines !! k = Some a →
  List.length (List.filter matcher (drop (Z.to_nat (a + 1 - i)) lines))
  = (List.length (matches_from matcher i lines) - S k)%nat.
Proof.
  revert i k. induction lines as [|l lines IH]; intros i k; simpl; [done|].
  assert (∀ k, matches_from matcher (i + 1) lines !! k = Some a → i + 1 ≤ a) as Hle.
  { intros k' H%list_elem_of_lookup_2%matches_from_range. lia. }
  assert (∀ k, matches_from matcher (i + 1) lines !! k = Some a →
    drop (Z.to_nat (a + 1 - i)) (l :: lines) = drop (Z.to_nat (a + 1 - (i + 1))) lines) as Hd.
  { intros k' H%Hle. by replace (Z.to_nat (a + 1 - i)) with (S (Z.to_nat (a + 1 - (i + 1)))) by lia. }
  destruct (matcher l).
  - destruct k as [|k]; simpl.
    + intros [= ->]. replace (Z.to_nat (a + 1 - a)) with 1%nat by lia. simpl. rewrite drop_0.
      by rewrite matches_from_count, Nat.sub_0_r.
    + intros H. rewrite (Hd _ H). by rewrite (IH _ _ H).
  - intros H. rewrite (Hd _ H). by rewrite (IH _ _ H).
Qed.

(** Without context lines, [grep] prints the first [max_matches] matching lines with
    their numbers and counts the others. *)
Lemma grep_plain matcher source maxMatches :
  Z.of_nat (List.length (SplitByte newline source)) < two63 → 0 < maxMatches →
  let lines := SplitByte newline source in
  let found := matches_from matcher 0 lines in
  let shown := take (Z.to_nat maxMatches) found in
  let more := Z.of_nat (List.length found) - maxMatches in
  grep_lines matcher source 0 maxMatches =
  match shown with
  | [] => []
  | _ => Join ((λ a, render_item lines [a] (Line a)) <$> shown) [newline]
         ++ (if 0 <? more then truncation maxMatches more else [])
  end.
Proof.
  intros Hlen Hm lines found shown more. unfold grep_lines.
  rewrite grep_loop_plain by (assumption || lia). fold lines found. rewrite Z.sub_0_r. fold shown.
  destruct shown as [|a rest] eqn:Es; [done|].
  set (out := (λ a, (Some a, Line a)) <$> (a :: rest)).
  assert (grep_item lines <$> out = (λ a, render_item lines [a] (Line a)) <$> (a :: rest)) as Hout
    by (unfold out; by rewrite <- list_fmap_compose).
  assert (out ≠ []) as Hne by done. clearbody out. destruct out as [|it out]; [done|].
  cbv beta iota zeta. rewrite Hout.
  case_bool_decide as Hmore.
  - destruct Hmore as [b Hb]. apply lookup_lt_Some in Hb as Hlt.
    replace (0 <? more) with true by (symmetry; apply Z.ltb_lt; unfold more; lia). do 2 f_equal.
    destruct (last (a :: rest)) as [z|] eqn:Hz; [|by apply last_None in Hz].
    assert (found !! (Z.to_nat maxMatches - 1)%nat = Some z) as Hf.
    { rewrite <- Es, last_lookup in Hz. unfold shown in Hz. rewrite length_take in Hz.
      rewrite lookup_take_lt in Hz by lia. rewrite <- Hz. f_equal. lia. }
    simpl default. unfold match_count. apply matches_after in Hf.
    rewrite Z.sub_0_r in Hf. rewrite Hf. fold found. unfold more. lia.
  - replace (0 <? more) with false; [by rewrite app_nil_r|]. symmetry. apply Z.ltb_ge.
    rewrite <- eq_None_not_Some in Hmore. apply lookup_ge_None in Hmore. unfold more. lia.
Qed.

(** A match that lies in the context of the match before it is printed like a line
    that does not match, and leaves a separator behind. *)
Lemma grep_context_hides : b2s (grep_lines (λ l, Contains l (s2b "a")) (s2b "a1
a2") 1 50) = "1: a1
2- a2
--"%string.
Proof. by vm_compute. Qed.

(** The end of a window can overflow: a match after the first line is lost. *)
Lemma grep_context_overflow : grep_lines (λ l, Contains l (s2b "a")) (s2b "b
a") (two63 - 1) 50 = [].
Proof. by vm_compute. Qed.
