(* ===== verification/Channel.v ===== *)
(** Channel documents: the front matter parser of [internal/frontmatter], and the
    handoff, exchange and memo documents of [runner/handoff.go], [exchange.go],
    [memo.go] and [channel_document_parse.go], rendered as markdown and read back. *)
From S2P Require Import Prelude Json Text Event Path Excerpt.

(** ** Front matter *)

(** YAML and TOML decoders ([gopkg.in/yaml.v3], [BurntSushi/toml]) for one type of
    metadata; [unmarshalTOML] is [toml.Decode], [yaml.Marshal] and [yaml.Unmarshal]. *)
Class FrontMatter (T : Type) := {
  fm_zero : T;
  yaml_Marshal : T → option bytes;
  yaml_Unmarshal : bytes → option T;
  unmarshalTOML : bytes → option T }.
#[global] Arguments fm_zero T {_}.
#[global] Arguments yaml_Unmarshal T {_} _.
#[global] Arguments unmarshalTOML T {_} _.

Inductive fm_kind := Yaml | Toml.
Record format := mkFormat { fmt_start : bytes; fmt_end : bytes; fmt_kind : fm_kind }.
Definition formats : list format :=
  [ mkFormat (s2b "---") (s2b "---") Yaml; mkFormat (s2b "---yaml") (s2b "---") Yaml;
    mkFormat (s2b "+++") (s2b "+++") Toml; mkFormat (s2b "---toml") (s2b "---") Toml ].

Inductive fm_err := ErrNotClosed (start : bytes) | ErrDecoding.

(** What [readLine] reads one after the other: lines with their newline, and the
    rest of the text, which may be empty and ends at EOF. *)
Definition raw_lines (s : bytes) : list bytes :=
  let ps := SplitByte newline s in
  ((λ p, p ++ [newline]) <$> removelast ps) ++ [default [] (last ps)].

Definition find_format (line : bytes) : option format :=
  find (λ f, bool_decide (fmt_start f = line)) formats.

(** [detect]: the format and the lines after its start. *)
Fixpoint detect (lines : list bytes) : option (format * list bytes) :=
  match lines with
  | [] => None
  | l :: rest =>
      match TrimSpace l with
      | [] => match rest with [] => None | _ => detect rest end
      | line => match find_format line with Some f => Some (f, rest) | None => None end
      end
  end.

Definition fm_decode (T : Type) `{FrontMatter T} (k : fm_kind) (block : bytes) : option T :=
  match k with Yaml => yaml_Unmarshal T block | Toml => unmarshalTOML T block end.

(** [extract]: the metadata and the lines after the block. *)
Fixpoint extract (T : Type) `{FrontMatter T} (f : format) (block : bytes) (lines : list bytes)
  : res fm_err (T * list bytes) :=
  match lines with
  | [] => Err (ErrNotClosed (fmt_start f))
  | l :: rest =>
      if bool_decide (TrimSpace l = fmt_end f) then
        match fm_decode T (fmt_kind f) block with Some v => Ok (v, rest) | None => Err ErrDecoding end
      else match rest with
           | [] => Err (ErrNotClosed (fmt_start f))
           | _ => extract T f (block ++ l) rest
           end
  end.

(** [frontmatter.Parse] over a zero value: the metadata and the body. *)
Definition Parse (T : Type) `{FrontMatter T} (raw : bytes) : res fm_err (T * bytes) :=
  match detect (raw_lines raw) with
  | None => Ok (fm_zero T, raw)
  | Some (f, rest) => let? r := extract T f [] rest in Ok (r.1, mjoin r.2)
  end.

(** ** Documents *)

Definition ChannelKindExchange : bytes := s2b "exchange".
Definition ChannelKindHandoff : bytes := s2b "handoff".
Definition ChannelKindMemo : bytes := s2b "memo".

(** [CreatedAt] is the time as it is printed, [zero_time] the zero time. *)
Record ChannelHeader := mkHeader {
  ch_Kind : bytes; ch_Version : Z; ch_RunnerID : bytes; ch_CreatedAt : bytes }.
Definition zero_header : ChannelHeader := mkHeader [] 0 [] zero_time.

Record HandoffArtifact := mkArtifact { ha_Path : bytes; ha_Type : bytes; ha_Description : bytes }.

Record handoffDocFrontMatter := mkHandoffFM {
  hf_Header : ChannelHeader; hf_FromNode : bytes; hf_ToNodes : list bytes; hf_Intent : bytes;
  hf_Artifacts : list HandoffArtifact }.
Record exchangeDocFrontMatter := mkExchangeFM {
  xf_Header : ChannelHeader; xf_NodeID : bytes; xf_SkillName : bytes; xf_Title : bytes }.
Record memoFrontMatter := mkMemoFM {
  mf_Header : ChannelHeader; mf_NodeID : bytes; mf_SkillName : bytes; mf_Path : bytes }.

(** A document is its front matter and a body. *)
Record HandoffDoc := mkHandoffDoc { hd_Meta : handoffDocFrontMatter; hd_Body : bytes }.
Record ExchangeDoc := mkExchangeDoc { xd_Meta : exchangeDocFrontMatter; xd_Body : bytes }.
Record MemoDocument := mkMemoDocument { md_Meta : memoFrontMatter; md_Body : bytes }.

Inductive doc_err :=
| ErrKind (got : bytes)
| ErrVersion (got : Z)
| ErrEmptyField (name : string)
| ErrSpaces (name : string)
| ErrArtifactAbs (p : bytes)
| ErrArtifactEscapes (p : bytes)
| ErrFrontMatter (e : fm_err)
| ErrMarshal.

Definition DocVersion : Z := 1.

(** ** Validation *)

Definition validateHandoffArtifactPath (raw : bytes) : res doc_err () :=
  let trimmed := TrimSpace raw in
  if is_empty trimmed then Err (ErrEmptyField "artifact path")
  else if negb (bool_decide (trimmed = raw)) then Err (ErrSpaces "artifact path")
  else if IsAbs trimmed then Err (ErrArtifactAbs trimmed)
  else
    let clean := Clean trimmed in
    if bool_decide (clean = dot) || escapes clean then Err (ErrArtifactEscapes trimmed) else Ok ().

Fixpoint all_ok {A} (check : A → res doc_err ()) (l : list A) : res doc_err () :=
  match l with
  | [] => Ok ()
  | x :: l => let? _u := check x in all_ok check l
  end.

Definition check_to (to : bytes) : res doc_err () :=
  let trimmed := TrimSpace to in
  if is_empty trimmed then Err (ErrEmptyField "to_nodes")
  else if negb (bool_decide (trimmed = to)) then Err (ErrSpaces "to_nodes")
  else Ok ().

Definition require (name : string) (s : bytes) : res doc_err () :=
  if is_empty s then Err (ErrEmptyField name) else Ok ().

(** The checks of the fields [Markdown] and [buildHandoffDoc] share. *)
Definition check_handoff (m : handoffDocFrontMatter) : res doc_err () :=
  let? _u := require "runner_id" (ch_RunnerID (hf_Header m)) in
  let? _u := require "from_node" (hf_FromNode m) in
  match hf_ToNodes m with
  | [] => Err (ErrEmptyField "to_nodes")
  | tos =>
      let? _u := all_ok check_to tos in
      all_ok (λ a, validateHandoffArtifactPath (ha_Path a)) (hf_Artifacts m)
  end.
Definition check_exchange (m : exchangeDocFrontMatter) : res doc_err () :=
  let? _u := require "runner_id" (ch_RunnerID (xf_Header m)) in
  require "node_id" (xf_NodeID m).
Definition check_memo (m : memoFrontMatter) : res doc_err () :=
  let? _u := require "runner_id" (ch_RunnerID (mf_Header m)) in
  let? _u := require "node_id" (mf_NodeID m) in
  require "path" (mf_Path m).

(** [kind], [version] and [created_at] of a document that is read. *)
Definition check_header (kind : bytes) (h : ChannelHeader) : res doc_err () :=
  if negb (bool_decide (ch_Kind h = kind)) then Err (ErrKind (ch_Kind h))
  else if negb (ch_Version h =? DocVersion) then Err (ErrVersion (ch_Version h))
  else Ok ().
Definition check_created (h : ChannelHeader) : res doc_err () :=
  if bool_decide (ch_CreatedAt h = zero_time) then Err (ErrEmptyField "created_at") else Ok ().

(** The defaults [Markdown] fills in. *)
Definition default_header (kind now : bytes) (h : ChannelHeader) : ChannelHeader :=
  mkHeader (if is_empty (ch_Kind h) then kind else ch_Kind h)
    (if ch_Version h =? 0 then DocVersion else ch_Version h) (ch_RunnerID h)
    (if bool_decide (ch_CreatedAt h = zero_time) then now else ch_CreatedAt h).

(** ** Rendering and reading *)

Definition render (front body : bytes) : bytes :=
  s2b "---" ++ newline :: front ++ s2b "---" ++ newline :: newline :: TrimSpace body ++ [newline].

(** What the three [Markdown] methods have in common. *)
Definition markdown_of {T} `{FrontMatter T} (meta : T) (body : bytes) : res doc_err bytes :=
  match yaml_Marshal meta with None => Err ErrMarshal | Some front => Ok (render front body) end.

Definition read_doc {T D} `{FrontMatter T} (build : T → bytes → res doc_err D) (raw : bytes) : res doc_err D :=
  match Parse T raw with
  | Err e => Err (ErrFrontMatter e)
  | Ok (meta, body) => build meta (TrimSpace body)
  end.

Definition HandoffDoc_Markdown `{FrontMatter handoffDocFrontMatter} (now : bytes) (doc : HandoffDoc)
  : res doc_err bytes :=
  let m := hd_Meta doc in
  let? _u := check_handoff m in
  markdown_of (mkHandoffFM (default_header ChannelKindHandoff now (hf_Header m)) (hf_FromNode m)
    (hf_ToNodes m) (hf_Intent m) (hf_Artifacts m)) (hd_Body doc).

Definition buildHandoffDoc (meta : handoffDocFrontMatter) (body : bytes) : res doc_err HandoffDoc :=
  let? _u := check_header ChannelKindHandoff (hf_Header meta) in
  let? _u := check_handoff meta in
  let? _u := check_created (hf_Header meta) in
  Ok (mkHandoffDoc meta body).

Definition ParseHandoffMarkdown `{FrontMatter handoffDocFrontMatter} (raw : bytes) : res doc_err HandoffDoc :=
  read_doc buildHandoffDoc raw.

Definition ExchangeDoc_Markdown `{FrontMatter exchangeDocFrontMatter} (now : bytes) (doc : ExchangeDoc)
  : res doc_err bytes :=
  let m := xd_Meta doc in
  let? _u := check_exchange m in
  markdown_of (mkExchangeFM (default_header ChannelKindExchange now (xf_Header m)) (xf_NodeID m)
    (xf_SkillName m) (xf_Title m)) (xd_Body doc).

Definition buildExchangeDoc (meta : exchangeDocFrontMatter) (body : bytes) : res doc_err ExchangeDoc :=
  let? _u := check_header ChannelKindExchange (xf_Header meta) in
  let? _u := check_exchange meta in
  let? _u := check_created (xf_Header meta) in
  Ok (mkExchangeDoc meta body).

Definition ParseExchangeDocMarkdown `{FrontMatter exchangeDocFrontMatter} (raw : bytes) : res doc_err ExchangeDoc :=
  read_doc buildExchangeDoc raw.

Definition MemoDocument_Markdown `{FrontMatter memoFrontMatter} (now : bytes) (doc : MemoDocument)
  : res doc_err bytes :=
  let m := md_Meta doc in
  let? _u := check_memo m in
  markdown_of (mkMemoFM (default_header ChannelKindMemo now (mf_Header m)) (mf_NodeID m)
    (mf_SkillName m) (mf_Path m)) (md_Body doc).

Definition buildMemoDocument (meta : memoFrontMatter) (body : bytes) : res doc_err MemoDocument :=
  let? _u := check_header ChannelKindMemo (mf_Header meta) in
  let? _u := check_memo meta in
  let? _u := check_created (mf_Header meta) in
  Ok (mkMemoDocument meta body).

Definition ParseMemoMarkdown `{FrontMatter memoFrontMatter} (raw : bytes) : res doc_err MemoDocument :=
  read_doc buildMemoDocument raw.

(** ** Any document *)

Record channelDocumentFrontMatter := mkChannelFM {
  cf_Header : ChannelHeader; cf_FromNode : bytes; cf_ToNodes : list bytes; cf_Intent : bytes;
  cf_Artifacts : list HandoffArtifact; cf_NodeID : bytes; cf_SkillName : bytes; cf_Title : bytes;
  cf_Path : bytes }.

Inductive parsedChannelDocument :=
| ParsedHandoff (d : HandoffDoc)
| ParsedExchange (d : ExchangeDoc)
| ParsedMemo (d : MemoDocument).

Definition res_map {E A B} (f : A → B) (r : res E A) : res E B :=
  match r with Ok a => Ok (f a) | Err e => Err e end.

Definition build_channel (m : channelDocumentFrontMatter) (body : bytes) : res doc_err parsedChannelDocument :=
  let kind := ch_Kind (cf_Header m) in
  if bool_decide (kind = ChannelKindHandoff) then
    res_map ParsedHandoff (buildHandoffDoc
      (mkHandoffFM (cf_Header m) (cf_FromNode m) (cf_ToNodes m) (cf_Intent m) (cf_Artifacts m)) body)
  else if bool_decide (kind = ChannelKindExchange) then
    res_map ParsedExchange (buildExchangeDoc
      (mkExchangeFM (cf_Header m) (cf_NodeID m) (cf_SkillName m) (cf_Title m)) body)
  else if bool_decide (kind = ChannelKindMemo) then
    res_map ParsedMemo (buildMemoDocument
      (mkMemoFM (cf_Header m) (cf_NodeID m) (cf_SkillName m) (cf_Path m)) body)
  else Err (ErrKind kind).

Definition parseChannelDocument `{FrontMatter channelDocumentFrontMatter} (raw : bytes)
  : res doc_err parsedChannelDocument := read_doc build_channel raw.

(** ** Reading back *)

Class FrontMatterLaws (T : Type) `{FrontMatter T} := {
  (** [yaml.Unmarshal] reads back what [yaml.Marshal] printed. *)
  yaml_read_back m front : yaml_Marshal m = Some front → yaml_Unmarshal T front = Some m;
  (** A printed document ends with a newline. *)
  yaml_ends_line m front : yaml_Marshal m = Some front → ∃ b, front = b ++ [newline] }.

(** No line of the metadata looks like the end of the block. *)
Definition unclosed (front : bytes) : Prop :=
  Forall (λ l, TrimSpace l ≠ s2b "---") (raw_lines front).

Definition full_lines (s : bytes) : list bytes := (λ p, p ++ [newline]) <$> SplitByte newline s.

Lemma raw_lines_app a b : raw_lines (a ++ newline :: b) = full_lines a ++ raw_lines b.
Proof.
  unfold raw_lines, full_lines. rewrite SplitByte_sep.
  assert (SplitByte newline b ≠ []) as Hb by apply SplitByte_ne.
  rewrite removelast_app by done. rewrite fmap_app, <- app_assoc. do 3 f_equal.
  destruct (SplitByte newline b) as [|p ps] using rev_ind; [done|].
  by rewrite app_assoc, !last_snoc.
Qed.

Lemma raw_lines_join s : mjoin (raw_lines s) = s.
Proof.
  unfold raw_lines.
  assert (∀ ps : list bytes, ps ≠ [] → Join ps [newline]
    = mjoin (((λ p, p ++ [newline]) <$> removelast ps) ++ [default [] (last ps)])) as H.
  { intros ps. induction ps as [|p ps IH]; [done|]. intros _. destruct ps as [|q ps].
    - simpl. by rewrite !app_nil_r.
    - change (removelast (p :: q :: ps)) with (p :: removelast (q :: ps)).
      change (last (p :: q :: ps)) with (last (q :: ps)).
      rewrite fmap_cons. cbn [app]. rewrite join_cons, <- IH by done.
      simpl. by rewrite <- app_assoc. }
  rewrite <- H by apply SplitByte_ne. apply Join_SplitByte.
Qed.

Lemma full_lines_join s : mjoin (full_lines s) = s ++ [newline].
Proof.
  assert (raw_lines (s ++ [newline]) = full_lines s ++ [[]]) as H by by rewrite raw_lines_app.
  apply (f_equal mjoin) in H. rewrite raw_lines_join, join_app in H. simpl in H. by rewrite app_nil_r in H.
Qed.

Lemma extract_lines T `{FrontMatter T} f block ls rest : rest ≠ [] →
  Forall (λ l, TrimSpace l ≠ fmt_end f) ls →
  extract T f block (ls ++ rest) = extract T f (block ++ mjoin ls) rest.
Proof.
  intros Hr. revert block. induction ls as [|l ls IH]; intros block Hls; simpl; [by rewrite app_nil_r|].
  apply List.Forall_cons_iff in Hls as [Hl Hls]. rewrite bool_decide_eq_false_2 by done.
  destruct (ls ++ rest) eqn:E; [by apply app_eq_nil in E as [_ ->]|]. rewrite IH by done.
  by rewrite <- app_assoc.
Qed.

Lemma detect_yaml rest :
  detect ((s2b "---" ++ [newline]) :: rest) = Some (mkFormat (s2b "---") (s2b "---") Yaml, rest).
Proof. reflexivity. Qed.

Lemma Parse_render T `{FrontMatterLaws T} m front body :
  yaml_Marshal m = Some front → unclosed front →
  Parse T (render front body) = Ok (m, newline :: TrimSpace body ++ [newline]).
Proof.
  intros Hm Hu. destruct (yaml_ends_line _ _ Hm) as [b ->]. unfold Parse, render.
  change (s2b "---" ++ newline :: (b ++ [newline]) ++ s2b "---" ++ newline :: newline :: TrimSpace body ++ [newline])
    with (s2b "---" ++ newline :: ((b ++ [newline]) ++ s2b "---" ++ newline :: newline :: TrimSpace body ++ [newline])).
  rewrite raw_lines_app, <- app_assoc. cbn [app].
  rewrite raw_lines_app, (raw_lines_app (s2b "---")).
  change (full_lines (s2b "---")) with [s2b "---" ++ [newline]].
  change ([?x] ++ ?r) with (x :: r). rewrite detect_yaml.
  rewrite (extract_lines T) by (try done; unfold unclosed in Hu; rewrite raw_lines_app in Hu; by apply Forall_app in Hu as [? _]).
  cbn [app extract]. rewrite full_lines_join.
  change (TrimSpace (s2b "---" ++ [newline])) with (s2b "---").
  rewrite bool_decide_eq_true_2 by done. unfold fm_decode. cbn [fmt_kind].
  rewrite (yaml_read_back _ _ Hm). cbn [fst snd]. by rewrite raw_lines_join.
Qed.

(** What a rendered document is read back as: with the defaults, trimmed. *)
Definition filled (kind now : bytes) (h : ChannelHeader) : Prop :=
  (ch_Kind h = [] ∨ ch_Kind h = kind) ∧ (ch_Version h = 0 ∨ ch_Version h = DocVersion)
  ∧ now ≠ zero_time.

Lemma default_header_ok kind now h : filled kind now h →
  check_header kind (default_header kind now h) = Ok ()
  ∧ check_created (default_header kind now h) = Ok ().
Proof.
  intros (Hk&Hv&Hn). unfold check_header, check_created, default_header. simpl. split.
  - assert ((if is_empty (ch_Kind h) then kind else ch_Kind h) = kind) as ->
      by (destruct Hk as [->| <-]; [done|by destruct (ch_Kind h)]).
    assert ((if ch_Version h =? 0 then DocVersion else ch_Version h) = DocVersion) as ->
      by (destruct Hv as [->| ->]; done).
    by rewrite bool_decide_eq_true_2.
  - destruct (decide (ch_CreatedAt h = zero_time)) as [E|E].
    + rewrite (bool_decide_eq_true_2 _ E). by rewrite bool_decide_eq_false_2.
    + rewrite (bool_decide_eq_false_2 _ E). by rewrite bool_decide_eq_false_2.
Qed.

Lemma read_doc_markdown {T D} `{FrontMatterLaws T} (build : T → bytes → res doc_err D) m body text :
  markdown_of m body = Ok text → (∀ front, yaml_Marshal m = Some front → unclosed front) →
  read_doc build text = build m (TrimSpace body).
Proof.
  unfold markdown_of. destruct (yaml_Marshal m) as [front|] eqn:Hm; [|done]. intros [= <-] Hu.
  unfold read_doc. rewrite (Parse_render T m) by auto. by rewrite TrimSpace_lines.
Qed.

(** C24: A handoff document whose kind and version are the right ones or not given is
    read back as it was once it is rendered, with the defaults for its kind, version
    and creation time and with a trimmed body, provided no line of its metadata looks
    like the end of the front matter ([indented_end] is one that does); exchange and
    memo documents likewise. Of another kind or version a document renders too, and
    is refused when it is read ([other_kind_refused]). *)
Theorem documents_read_back `{FrontMatterLaws handoffDocFrontMatter}
  `{FrontMatterLaws exchangeDocFrontMatter} `{FrontMatterLaws memoFrontMatter} now text :
  (∀ d, filled ChannelKindHandoff now (hf_Header (hd_Meta d)) →
     HandoffDoc_Markdown now d = Ok text →
     let m := hd_Meta d in
     let m' := mkHandoffFM (default_header ChannelKindHandoff now (hf_Header m)) (hf_FromNode m)
                 (hf_ToNodes m) (hf_Intent m) (hf_Artifacts m) in
     (∀ front, yaml_Marshal m' = Some front → unclosed front) →
     ParseHandoffMarkdown text = Ok (mkHandoffDoc m' (TrimSpace (hd_Body d))))
  ∧ (∀ d, filled ChannelKindExchange now (xf_Header (xd_Meta d)) →
     ExchangeDoc_Markdown now d = Ok text →
     let m := xd_Meta d in
     let m' := mkExchangeFM (default_header ChannelKindExchange now (xf_Header m)) (xf_NodeID m)
                 (xf_SkillName m) (xf_Title m) in
     (∀ front, yaml_Marshal m' = Some front → unclosed front) →
     ParseExchangeDocMarkdown text = Ok (mkExchangeDoc m' (TrimSpace (xd_Body d))))
  ∧ (∀ d, filled ChannelKindMemo now (mf_Header (md_Meta d)) →
     MemoDocument_Markdown now d = Ok text →
     let m := md_Meta d in
     let m' := mkMemoFM (default_header ChannelKindMemo now (mf_Header m)) (mf_NodeID m)
                 (mf_SkillName m) (mf_Path m) in
     (∀ front, yaml_Marshal m' = Some front → unclosed front) →
     ParseMemoMarkdown text = Ok (mkMemoDocument m' (TrimSpace (md_Body d)))).
Proof.
  split_and!; intros d Hf Ht m m' Hu; destruct (default_header_ok _ _ _ Hf) as [Hh Hc]; subst m' m.
  - unfold HandoffDoc_Markdown in Ht. destruct (check_handoff _) as [[]|] eqn:Hm; [|done].
    unfold ParseHandoffMarkdown. rewrite (read_doc_markdown _ _ (hd_Body d) text Ht Hu).
    unfold buildHandoffDoc. cbn [hf_Header]. rewrite Hh.
    replace (check_handoff _) with (Ok () : res doc_err ()) by done. by rewrite Hc.
  - unfold ExchangeDoc_Markdown in Ht. destruct (check_exchange _) as [[]|] eqn:Hm; [|done].
    unfold ParseExchangeDocMarkdown. rewrite (read_doc_markdown _ _ (xd_Body d) text Ht Hu).
    unfold buildExchangeDoc. cbn [xf_Header]. rewrite Hh.
    replace (check_exchange _) with (Ok () : res doc_err ()) by done. by rewrite Hc.
  - unfold MemoDocument_Markdown in Ht. destruct (check_memo _) as [[]|] eqn:Hm; [|done].
    unfold ParseMemoMarkdown. rewrite (read_doc_markdown _ _ (md_Body d) text Ht Hu).
    unfold buildMemoDocument. cbn [mf_Header]. rewrite Hh.
    replace (check_memo _) with (Ok () : res doc_err ()) by done. by rewrite Hc.
Qed.

(** A handoff of another kind or version renders, and is refused when it is read. *)
Lemma other_kind_refused `{FrontMatterLaws handoffDocFrontMatter} now d text :
  let h := hf_Header (hd_Meta d) in
  (ch_Kind h ≠ [] ∧ ch_Kind h ≠ ChannelKindHandoff) ∨ (ch_Version h ≠ 0 ∧ ch_Version h ≠ DocVersion) →
  HandoffDoc_Markdown now d = Ok text →
  (∀ m front, yaml_Marshal m = Some front → unclosed front) →
  ∃ e, ParseHandoffMarkdown text = Err e.
Proof.
  intros h Hbad Ht Hu. unfold HandoffDoc_Markdown in Ht. destruct (check_handoff _) as [[]|]; [|done].
  unfold ParseHandoffMarkdown. rewrite (read_doc_markdown _ _ (hd_Body d) text Ht) by apply Hu.
  unfold buildHandoffDoc. cbn [hf_Header]. fold h.
  assert (∃ e, check_header ChannelKindHandoff (default_header ChannelKindHandoff now h) = Err e) as [e ->]; [|by eexists].
  unfold check_header, default_header. cbn [ch_Kind ch_Version]. case_bool_decide as Hk; cbn [negb]; [|by eexists].
  destruct (Z.eqb_spec (if ch_Version h =? 0 then DocVersion else ch_Version h) DocVersion) as [Hv|]; cbn [negb]; [|by eexists].
  exfalso. destruct Hbad as [[Hne Hb]|[Hne Hb]].
  - destruct (ch_Kind h); [done|]. by apply Hb.
  - rewrite (proj2 (Z.eqb_neq _ _)) in Hv by done. by apply Hb.
Qed.

(** An indented [---] inside a block of text, which YAML allows, ends the metadata:
    the rest of the text is taken for the body. *)
Lemma indented_end T `{FrontMatter T} :
  Parse T (render (s2b "intent: |-
  a
  ---
  b
") (s2b "text")) = match yaml_Unmarshal T (s2b "intent: |-
  a
") with
  | Some v => Ok (v, s2b "  b
---

text
")
  | None => Err ErrDecoding
  end.
Proof.
  destruct H as [z m u t]. vm_compute.
  match goal with |- context [u ?x] => by destruct (u x) end.
Qed.

(** ** Artifact paths *)

Lemma validate_clean raw : validateHandoffArtifactPath raw = Ok () →
  IsAbs raw = false ∧ ∃ es, es ≠ [] ∧ Forall plain es ∧ Clean raw = Join es [slash].
Proof.
  unfold validateHandoffArtifactPath. destruct (is_empty _); [done|].
  case_bool_decide as Ht; simpl; [|done]. rewrite Ht. destruct (IsAbs raw) eqn:Ha; [done|].
  case_bool_decide as Hd; simpl; [done|]. destruct (escapes (Clean raw)) eqn:He; [done|]. intros _.
  split; [done|]. apply orb_false_elim in He as [E1%bool_decide_eq_false E2].
  by destruct (Clean_relative raw Ha E1 E2) as [?|?].
Qed.

(** ** Witness *)

#[local] Instance header_eq_dec : EqDecision ChannelHeader. Proof. solve_decision. Defined.
#[local] Instance artifact_eq_dec : EqDecision HandoffArtifact. Proof. solve_decision. Defined.
#[local] Instance handoff_eq_dec : EqDecision handoffDocFrontMatter. Proof. solve_decision. Defined.
#[local] Instance exchange_eq_dec : EqDecision exchangeDocFrontMatter. Proof. solve_decision. Defined.
#[local] Instance memo_eq_dec : EqDecision memoFrontMatter. Proof. solve_decision. Defined.

(** A codec that knows one value. *)
Section one_codec.
Context {T : Type} `{EqDecision T} (x : T).
Definition one_text : bytes := s2b "value: x
".
Definition one_codec : FrontMatter T := {|
  fm_zero := x;
  yaml_Marshal m := if decide (m = x) then Some one_text else None;
  yaml_Unmarshal b := if decide (b = one_text) then Some x else None;
  unmarshalTOML _ := None |}.
Lemma one_laws : @FrontMatterLaws T one_codec.
Proof.
  split; simpl; intros m front; destruct (decide (m = x)) as [->|]; try done; intros [= <-].
  - by rewrite decide_True.
  - by exists (s2b "value: x").
Qed.
End one_codec.

Abbreviation sample_time := (s2b "2024-01-01T00:00:00Z").
Abbreviation sample_handoff := (mkHandoffFM (mkHeader ChannelKindHandoff 1 (s2b "r1") sample_time) (s2b "a")
  [s2b "b"] [] [mkArtifact (s2b "downstream/x.md") [] []]).
Abbreviation sample_exchange := (mkExchangeFM (mkHeader ChannelKindExchange 1 (s2b "r1") sample_time) (s2b "a") [] []).
Abbreviation sample_memo := (mkMemoFM (mkHeader ChannelKindMemo 1 (s2b "r1") sample_time) (s2b "a") [] (s2b "p")).

Lemma documents_read_back_witness :
  @ParseHandoffMarkdown (one_codec sample_handoff) (render one_text (s2b " body "))
  = Ok (mkHandoffDoc sample_handoff (s2b "body")).
Proof.
  refine (proj1 (@documents_read_back (one_codec sample_handoff) (one_laws _) (one_codec sample_exchange) (one_laws _)
    (one_codec sample_memo) (one_laws _) sample_time (render one_text (s2b " body ")))
    (mkHandoffDoc (mkHandoffFM (mkHeader [] 0 (s2b "r1") zero_time) (s2b "a") [s2b "b"] []
      [mkArtifact (s2b "downstream/x.md") [] []]) (s2b " body ")) _ _ _).
  - by split_and!; [left|left|].
  - by vm_compute.
  - intros front E. assert (front = one_text) as -> by (vm_compute in E; by injection E).
    repeat (apply List.Forall_cons; [by vm_compute|]). apply List.Forall_nil.
Defined.
