(* ===== verification/RunnerWorkspace.v ===== *)
(** The directories a runner gives its nodes: [runner/workspace.go],
    [workspace_binding.go], [runtime_paths.go], [handoff_artifacts.go] and the
    delivery of [channel_documents.go].

    [workspace_layout] describes what [ProvisionWorkspace] returns and why no
    node can reach the directories of another through its own;
    [handoff_stays_in_route] what [Handoff] touches; [artifact_dirs_confined] what
    a declared artifact can open to a successor. [handoff_unreadable] shows that
    the handoff itself is not among it. *)
From S2P Require Import Prelude Json Text Event Path Os Walk Tree Workspace Excerpt Channel.

(** ** Definitions *)

Record SkillWorkspace := mkSkillWorkspace {
  sk_NodeID : bytes; sk_Root : bytes; sk_MemoDir : bytes; sk_UpstreamDir : bytes;
  sk_DownstreamDir : bytes; sk_ScratchDir : bytes; sk_accessibleDirs : list bytes }.

Record Workspace := mkWorkspace {
  rw_globalRoot : bytes; rw_runnerID : bytes; rw_root : bytes; rw_exchange : bytes;
  rw_archive : bytes; rw_skills : gmap bytes SkillWorkspace }.

Inductive rw_err := ErrRunner (msg : bytes) | ErrFile (e : os_err) | ErrDeep.

Abbreviation rw_prog A := (prog (res rw_err A)).

Definition refuse {A} (msg : string) : rw_prog A := Ret (Err (ErrRunner (s2b msg))).

Definition validateRulePath (subdir : bytes) : res rw_err bytes :=
  if is_empty subdir then Err (ErrRunner (s2b "path rule returned empty path"))
  else if IsAbs subdir then Err (ErrRunner (s2b "path rule returned absolute path"))
  else
    let clean := Clean subdir in
    if bool_decide (clean = dot) then Err (ErrRunner (s2b "path rule returned empty path"))
    else if Contains clean [slash] then Err (ErrRunner (s2b "path rule must return a single path element"))
    else Ok clean.

Definition validateNodeID (nodeID : bytes) : res rw_err () :=
  if is_empty nodeID then Err (ErrRunner (s2b "node id is required"))
  else if Contains nodeID [slash] || bool_decide (nodeID = dot) || bool_decide (nodeID = dotdot) then
    Err (ErrRunner (s2b "invalid node id"))
  else Ok ().

Definition defaultWorkspacePathRule (runnerID : bytes) : bytes := s2b "task_" ++ runnerID.

Definition ensureCanonicalDir (root : bytes) : rw_prog bytes :=
  if is_empty root then refuse "workspace root is required"
  else
    try abs := ask (Abs root) or ErrFile in
    try _u := ask (MkdirAll abs) or ErrFile in
    try real := ask (EvalSymlinks abs) or ErrFile in
    try info := ask (Stat real) or ErrFile in
    if bool_decide (info = KDir) then Ret (Ok real) else refuse "workspace root is not a directory".

Fixpoint make_dirs (dirs : list bytes) : rw_prog () :=
  match dirs with
  | [] => Ret (Ok ())
  | dir :: dirs => try _u := ask (MkdirAll dir) or ErrFile in make_dirs dirs
  end.

(** The directories of one node. *)
Definition skill_workspace (skillsRoot exchange nodeID : bytes) : SkillWorkspace :=
  let skillRoot := path_Join [skillsRoot; nodeID] in
  let memo := path_Join [skillRoot; s2b "memo"] in
  let upstream := path_Join [skillRoot; s2b "upstream"] in
  let downstream := path_Join [skillRoot; s2b "downstream"] in
  let scratch := path_Join [skillRoot; s2b "scratch"] in
  mkSkillWorkspace nodeID skillRoot memo upstream downstream scratch
    [memo; upstream; downstream; scratch; exchange].

Definition own_dirs (sk : SkillWorkspace) : list bytes :=
  [sk_MemoDir sk; sk_UpstreamDir sk; sk_DownstreamDir sk; sk_ScratchDir sk].

Fixpoint provision_skills (skillsRoot exchange : bytes) (nodeIDs : list bytes)
  (skills : gmap bytes SkillWorkspace) : rw_prog (gmap bytes SkillWorkspace) :=
  match nodeIDs with
  | [] => Ret (Ok skills)
  | nodeID :: nodeIDs =>
      match validateNodeID nodeID with
      | Err e => Ret (Err e)
      | Ok _ =>
          let sk := skill_workspace skillsRoot exchange nodeID in
          try _u := make_dirs (own_dirs sk) or id in
          provision_skills skillsRoot exchange nodeIDs (<[nodeID := sk]> skills)
      end
  end.

Definition ProvisionWorkspace (globalRoot runnerID : bytes) (nodeIDs : list bytes)
  (rule : option (bytes → bytes)) : rw_prog Workspace :=
  try root := ensureCanonicalDir globalRoot or id in
  if is_empty runnerID then refuse "runner id is required"
  else
    match validateRulePath (default defaultWorkspacePathRule rule runnerID) with
    | Err e => Ret (Err e)
    | Ok subdir =>
        let runnerRoot := path_Join [root; subdir] in
        if negb (pathWithinRoot root runnerRoot) then refuse "path rule output escapes workspace root"
        else
          ask (Stat runnerRoot) ≫= λ st,
          match st with
          | Ok _ => refuse "workspace path collision"
          | Err (OsErr msg) => Ret (Err (ErrFile (OsErr msg)))
          | Err NotExist =>
              let exchange := path_Join [runnerRoot; s2b "exchange"] in
              let skillsRoot := path_Join [runnerRoot; s2b "skills"] in
              let archive := path_Join [runnerRoot; s2b "archive"] in
              try _u := make_dirs [exchange; skillsRoot; archive] or id in
              try skills := provision_skills skillsRoot exchange nodeIDs ∅ or id in
              Ret (Ok (mkWorkspace root runnerID runnerRoot exchange archive skills))
          end
    end.

Definition AccessibleDirs (w : Workspace) (nodeID : bytes) : res rw_err (list bytes) :=
  match rw_skills w !! nodeID with
  | None => Err (ErrRunner (s2b "unknown workspace skill"))
  | Some sk => Ok (sk_accessibleDirs sk)
  end.

(** *** Handoff *)

Definition symlinkFileIfExists (src dst : bytes) : rw_prog () :=
  ask (Lstat src) ≫= λ info,
  match info with
  | Err NotExist => Ret (Ok ())
  | Err e => Ret (Err (ErrFile e))
  | Ok KLink => refuse "source file must not be a symbolic link"
  | Ok KDir => refuse "source is a directory"
  | Ok KFile =>
      try _u := ask (MkdirAll (Dir dst)) or ErrFile in
      try _v := ask (Symlink src dst) or ErrFile in
      Ret (Ok ())
  end.

Definition ctl_of (r : res rw_err ()) : walk_ctl rw_err :=
  match r with Ok _ => WalkOn | Err e => WalkFail e end.

(** The callback of the walk. *)
Definition link_entry (src dst path : bytes) (d : os_res kind) : prog (walk_ctl rw_err) :=
  match d with
  | Err walkErr => Ret (WalkFail (ErrFile walkErr))
  | Ok k =>
      ask (Lstat path) ≫= λ entryInfo,
      match entryInfo with
      | Err e => Ret (WalkFail (ErrFile e))
      | Ok KLink => Ret (WalkFail (ErrRunner (s2b "source path must not be a symbolic link")))
      | Ok _ =>
          match Rel src path with
          | None => Ret (WalkFail (ErrRunner (s2b "no relative path")))
          | Some rel =>
              let target := path_Join [dst; rel] in
              if bool_decide (k = KDir) then
                ask (MkdirAll target) ≫= λ r,
                Ret (match r with Ok _ => WalkOn | Err e => WalkFail (ErrFile e) end)
              else symlinkFileIfExists path target ≫= λ r, Ret (ctl_of r)
          end
      end
  end.

Definition walk_result (r : walked rw_err) : res rw_err () :=
  match r with Walked | Stopped => Ok () | Failed e => Err e | TooDeep => Err ErrDeep end.

Definition symlinkTreeIfExists (src dst : bytes) : rw_prog () :=
  ask (Lstat src) ≫= λ info,
  match info with
  | Err NotExist => Ret (Ok ())
  | Err e => Ret (Err (ErrFile e))
  | Ok KLink => refuse "source dir must not be a symbolic link"
  | Ok KFile => refuse "source is not a directory"
  | Ok KDir => WalkDir (link_entry src dst) src ≫= λ r, Ret (walk_result r)
  end.

(** The directory of [successor]'s upstream that is given to [producerID]. *)
Definition route_dir (successor : SkillWorkspace) (producerID : bytes) : bytes :=
  path_Join [sk_UpstreamDir successor; producerID].

Definition Handoff (w : Workspace) (producerID successorID : bytes) : rw_prog () :=
  match rw_skills w !! producerID with
  | None => refuse "unknown producer skill"
  | Some producer =>
      match rw_skills w !! successorID with
      | None => refuse "unknown successor skill"
      | Some successor =>
          let dst := route_dir successor producerID in
          try _u := ask (RemoveAll dst) or ErrFile in
          try _v := ask (MkdirAll dst) or ErrFile in
          try _w := symlinkFileIfExists (path_Join [sk_DownstreamDir producer; s2b "handoff.md"])
                     (path_Join [dst; s2b "handoff.md"]) or id in
          symlinkTreeIfExists (path_Join [sk_DownstreamDir producer; s2b "artifacts"])
            (path_Join [dst; s2b "artifacts"])
      end
  end.

(** *** Declared artifacts *)

Definition HandoffArtifactFile : bytes := s2b "file".
Definition HandoffArtifactDir : bytes := s2b "dir".

Definition rewriteLeadingPathSegment (path old new : bytes) : bytes :=
  if bool_decide (path = old) then new
  else
    match after_prefix path (old ++ [slash]) with
    | Some rest => path_Join [new; rest]
    | None => path
    end.

Definition normalizeLegacyWorkspacePath (path : bytes) : bytes :=
  let path := rewriteLeadingPathSegment path (s2b "outbox") (s2b "downstream") in
  let path := rewriteLeadingPathSegment path (s2b "inbox") (s2b "upstream") in
  rewriteLeadingPathSegment path (s2b "workspace") (s2b "scratch").

Definition resolveHandoffArtifactPath (workspace : SkillWorkspace) (declaredPath : bytes) : option bytes :=
  if is_empty (sk_Root workspace) then None
  else
    let declaredPath := TrimSpace declaredPath in
    if is_empty declaredPath || IsAbs declaredPath then None
    else
      let clean := normalizeLegacyWorkspacePath (Clean declaredPath) in
      if bool_decide (clean = dot) || escapes clean then None
      else
        let resolved := path_Join [sk_Root workspace; clean] in
        if pathWithinRoot (sk_Root workspace) resolved then Some resolved else None.

Definition canonicalExistingDir (dir : bytes) : prog (option bytes) :=
  ask (EvalSymlinks dir) ≫= λ r,
  match r with
  | Err _ => Ret None
  | Ok real =>
      ask (Stat real) ≫= λ info,
      Ret (match info with Ok KDir => Some real | _ => None end)
  end.

(** The prefix test on cleaned paths with a trailing separator. *)
Definition dirUnderAllowedRoots (dir : bytes) (allowedRoots : list bytes) : bool :=
  match allowedRoots with
  | [] => true
  | _ => existsb (λ root, negb (is_empty root) && HasPrefix (Clean dir ++ [slash]) (Clean root ++ [slash]))
           allowedRoots
  end.

Definition containsDir (dirs : list bytes) (dir : bytes) : bool := containsPath dirs dir.

Definition handoffArtifactDir (artifact : HandoffArtifact) (allowedRoots : list bytes) : prog (option bytes) :=
  let path := ha_Path artifact in
  let finish target :=
    canonicalExistingDir target ≫= λ r,
    Ret (match r with
         | Some dir => if dirUnderAllowedRoots dir allowedRoots then Some dir else None
         | None => None
         end) in
  if is_empty path || negb (IsAbs path) then Ret None
  else if bool_decide (ha_Type artifact = HandoffArtifactDir) then finish path
  else if bool_decide (ha_Type artifact = HandoffArtifactFile) then finish (Dir path)
  else
    ask (Stat path) ≫= λ info,
    match info with
    | Err _ => Ret None
    | Ok KDir => finish path
    | Ok _ => finish (Dir path)
    end.

(** The artifacts of one handoff document. *)
Fixpoint artifact_dirs (workspace : SkillWorkspace) (allowedRoots : list bytes)
  (artifacts : list HandoffArtifact) (dirs : list bytes) : prog (list bytes) :=
  match artifacts with
  | [] => Ret dirs
  | artifact :: artifacts =>
      match resolveHandoffArtifactPath workspace (ha_Path artifact) with
      | None => artifact_dirs workspace allowedRoots artifacts dirs
      | Some resolvedPath =>
          handoffArtifactDir (mkArtifact resolvedPath (ha_Type artifact) (ha_Description artifact)) allowedRoots
          ≫= λ r,
          artifact_dirs workspace allowedRoots artifacts
            (match r with
             | Some dir => if containsDir dirs dir then dirs else dirs ++ [dir]
             | None => dirs
             end)
      end
  end.

Section outputs.
Context `{FrontMatter channelDocumentFrontMatter}.

(** [outputs] in the order the map is ranged over. *)
Fixpoint output_dirs (w : Workspace) (allowedRoots : list bytes) (outputs : list (bytes * any))
  (dirs : list bytes) : prog (list bytes) :=
  match outputs with
  | [] => Ret dirs
  | (producerID, output) :: outputs =>
      match output, rw_skills w !! producerID with
      | AStr text, Some producerWorkspace =>
          match parseChannelDocument text with
          | Ok (ParsedHandoff doc) =>
              artifact_dirs producerWorkspace allowedRoots (hf_Artifacts (hd_Meta doc)) dirs
              ≫= output_dirs w allowedRoots outputs
          | _ => output_dirs w allowedRoots outputs dirs
          end
      | _, _ => output_dirs w allowedRoots outputs dirs
      end
  end.

Definition handoffArtifactDirsFromOutputs (outputs : list (bytes * any)) (allowedRoots : list bytes)
  (workspace : option Workspace) : prog (list bytes) :=
  match outputs, workspace with
  | [], _ | _, None => Ret []
  | _, Some w => output_dirs w allowedRoots outputs []
  end.

(** *** What a node is given *)

Record AgentRuntimePaths := mkRuntimePaths {
  rp_RunnerID : bytes; rp_NodeID : bytes; rp_SkillName : bytes; rp_MemoDir : bytes;
  rp_UpstreamDir : bytes; rp_DownstreamDir : bytes; rp_ScratchDir : bytes; rp_ExchangeDir : bytes;
  rp_ArchiveMemoDir : bytes; rp_AccessibleDirs : list bytes }.

Definition Workspace_AgentRuntimePaths (w : Workspace) (nodeID skillName : bytes) (accessibleDirs : list bytes)
  : res rw_err AgentRuntimePaths :=
  match rw_skills w !! nodeID with
  | None => Err (ErrRunner (s2b "unknown workspace skill"))
  | Some sk =>
      let dirs := match accessibleDirs with [] => sk_accessibleDirs sk | _ => accessibleDirs end in
      Ok (mkRuntimePaths (rw_runnerID w) nodeID skillName (sk_MemoDir sk) (sk_UpstreamDir sk)
            (sk_DownstreamDir sk) (sk_ScratchDir sk) (rw_exchange w)
            (path_Join [rw_archive w; s2b "memo"; nodeID]) dirs)
  end.

Definition resourceAllowedRoots (w : option Workspace) : prog (list bytes) :=
  match w with
  | None => Ret []
  | Some w => canonicalExistingDir (rw_root w) ≫= λ r,
              Ret (match r with Some root => [root] | None => [] end)
  end.

Definition add_dirs (dirs new : list bytes) : list bytes :=
  foldl (λ dirs dir, if containsDir dirs dir then dirs else dirs ++ [dir]) dirs new.

Definition node_own_dirs (w : option Workspace) (nodeID : bytes) : list bytes :=
  match w with
  | Some w => if is_empty nodeID then [] else
              match AccessibleDirs w nodeID with Ok dirs => dirs | Err _ => [] end
  | None => []
  end.

Definition nodeAccessibleDirs (w : option Workspace) (nodeID : bytes) (inputs : list (bytes * any))
  : prog (list bytes) :=
  resourceAllowedRoots w ≫= λ allowedRoots,
  match allowedRoots with
  | [] => Ret (node_own_dirs w nodeID)
  | _ =>
      handoffArtifactDirsFromOutputs inputs allowedRoots w ≫= λ resourceDirs,
      Ret (add_dirs (node_own_dirs w nodeID) resourceDirs)
  end.

Definition nodeRuntimePaths (id : bytes) (w : option Workspace) (nodeID skillName : bytes)
  (inputs : list (bytes * any)) : rw_prog AgentRuntimePaths :=
  nodeAccessibleDirs w nodeID inputs ≫= λ dirs,
  match w with
  | None => Ret (Ok (mkRuntimePaths id nodeID skillName [] [] [] [] [] [] dirs))
  | Some w' =>
      if is_empty nodeID then Ret (Ok (mkRuntimePaths id nodeID skillName [] [] [] [] [] [] dirs))
      else Ret (Workspace_AgentRuntimePaths w' nodeID skillName dirs)
  end.
End outputs.

Definition provisionWorkspace (runnerID workspaceRoot : bytes) (nodeIDs : list bytes) : rw_prog (option Workspace) :=
  if is_empty workspaceRoot then Ret (Ok None)
  else try w := ProvisionWorkspace workspaceRoot runnerID nodeIDs None or id in Ret (Ok (Some w)).

(** ** Layout *)

Definition apart (d e : bytes) : Prop := ¬ below d e ∧ ¬ below e d.

Lemma below_abs a b : Forall plain a → Forall plain b → below (abs a) (abs b) ↔ ∃ c, b = a ++ c.
Proof.
  intros Ha Hb. split.
  - intros (x&y&Hx&Hy&Ex&Ey). apply abs_inj in Ex as <-; [|done..].
    apply abs_inj in Ey as ->; [by exists y|done|by apply Forall_app].
  - intros [c ->]. apply Forall_app in Hb as [_ Hc]. by exists a, c.
Qed.

Lemma apart_abs es a b : Forall plain es → Forall plain a → Forall plain b →
  (∀ c, b ≠ a ++ c) → (∀ c, a ≠ b ++ c) → apart (abs (es ++ a)) (abs (es ++ b)).
Proof.
  intros Hes Ha Hb H1 H2. split; rewrite below_abs by (by apply Forall_app); intros [c E];
    rewrite <- app_assoc in E; apply app_inv_head in E; [by destruct (H1 c)|by destruct (H2 c)].
Qed.

Lemma path_Join_up es e : Forall plain es → plain e → path_Join [abs (es ++ [e]); dotdot] = abs es.
Proof.
  intros Hes He. rewrite path_Join_two by done. unfold Clean.
  rewrite pieces_app, pieces_abs by (apply Forall_app; split; [done|by apply Forall_singleton]).
  cbn [IsAbs abs app]. rewrite Ascii.eqb_refl, squash_app by (apply Forall_app; split; [done|by apply Forall_singleton]).
  rewrite app_nil_r, reverse_snoc. change (pieces dotdot) with [dotdot].
  cbn [squash]. rewrite bool_decide_eq_false_2, bool_decide_eq_true_2 by done.
  destruct He as (_&_&He&_). rewrite bool_decide_eq_false_2 by done. by rewrite reverse_involutive.
Qed.

Lemma Contains_char c s : Contains s [c] = true ↔ c ∈ s.
Proof.
  unfold Contains. rewrite bool_decide_eq_true. induction s as [|d s IH]; cbn [LastIndex].
  - split; [by intros [? ?]|by intros ?%elem_of_nil].
  - rewrite elem_of_cons, <- IH. destruct (LastIndex s [c]) as [k|].
    { split; [intros _; right|intros _]; by eexists. }
    cbn [after_prefix]. destruct (Ascii.eqb_spec d c) as [->|Hd].
    { split; [by left|intros _; destruct s; by eexists]. }
    split; [by intros [? ?]|]. intros [->|[? ?]]; done.
Qed.

Lemma validateNodeID_plain n : validateNodeID n = Ok () ↔ plain n.
Proof.
  unfold validateNodeID, plain. destruct n as [|c n]; [by split; [|intros []]|].
  cbn [is_empty]. pose proof (Contains_char slash (c :: n)) as Hc.
  destruct (Contains (c :: n) [slash]); simpl; [naive_solver|].
  destruct (bool_decide_reflect (c :: n = dot)), (bool_decide_reflect (c :: n = dotdot)); naive_solver.
Qed.

(** Names of the directories below the runner's. *)
Definition skill_place (n x : bytes) : list bytes := [s2b "skills"; n; x].

Lemma name_plain n : bool_decide (plain n) = true → plain n.
Proof. by intros ?%bool_decide_eq_true. Qed.

Ltac plain_names := repeat (apply List.Forall_cons || apply List.Forall_nil || apply Forall_app_2);
  first [done | by apply name_plain; vm_compute].

Lemma skill_workspace_abs es n : Forall plain es → plain n →
  skill_workspace (abs (es ++ [s2b "skills"])) (abs (es ++ [s2b "exchange"])) n =
  let dir x := abs (es ++ skill_place n (s2b x)) in
  mkSkillWorkspace n (abs (es ++ [s2b "skills"; n])) (dir "memo") (dir "upstream") (dir "downstream")
    (dir "scratch") [dir "memo"; dir "upstream"; dir "downstream"; dir "scratch"; abs (es ++ [s2b "exchange"])].
Proof.
  intros Hes Hn. unfold skill_workspace. rewrite (path_Join_name _ n), <- app_assoc by plain_names.
  rewrite !path_Join_name, <- !app_assoc by plain_names. done.
Qed.

(** The workspace of the given nodes under the directory [es]. *)
Definition provisioned_at (es nodes : list bytes) (w : Workspace) : Prop :=
  Forall plain es ∧ Forall plain nodes
  ∧ rw_root w = abs es ∧ rw_exchange w = abs (es ++ [s2b "exchange"]) ∧ rw_archive w = abs (es ++ [s2b "archive"])
  ∧ ∀ n sk, rw_skills w !! n = Some sk ↔
      n ∈ nodes ∧ sk = skill_workspace (abs (es ++ [s2b "skills"])) (abs (es ++ [s2b "exchange"])) n.

(** All directories of a workspace for the given nodes. *)
Definition workspace_dirs (nodes : list bytes) (w : Workspace) : list bytes :=
  rw_exchange w :: rw_archive w
  :: (nodes ≫= λ n, own_dirs (skill_workspace (child (rw_root w) (s2b "skills")) (rw_exchange w) n)).

Section provision.
Context `{FileSystemLaws W}.
Implicit Types s : W.

(** What a run of [p] that does not fail gives: its result and the state it leaves. *)
#[local] Abbreviation gives p s Q :=
  (wp (λ _ _ _, True) p s (λ r s', match r with Ok x => Q x s' | Err _ => True end)).

(** From [s] to [s'] the directories of [ds] were made and none was lost. *)
Definition made (ds : list bytes) s s' : Prop :=
  (∀ p, answer (Stat p) s = Ok KDir → answer (Stat p) s' = Ok KDir) ∧ ∀ p, p ∈ ds → answer (Stat p) s' = Ok KDir.

Lemma made_app ds es s s1 s2 : made ds s s1 → made es s1 s2 → made (ds ++ es) s s2.
Proof.
  intros [Hk Hm] [Hk' Hm']. split; [by intros p ?%Hk%Hk'|]. intros p [?%Hm%Hk'|?%Hm']%elem_of_app; done.
Qed.

Lemma ensureCanonicalDir_wp root s : wp (λ _ _ _, True) (ensureCanonicalDir root) s
  (λ r s', match r with Ok q => rooted q ∧ answer (Stat q) s' = Ok KDir | Err _ => True end).
Proof.
  unfold ensureCanonicalDir. destruct (is_empty root); [done|].
  apply wp_try. split; [done|]. destruct (answer (Abs root) s) as [a|] eqn:Ha; simpl; [|done].
  split; [done|]. destruct (answer (MkdirAll a) _) as [[]|]; simpl; [|done].
  split; [done|]. destruct (answer (EvalSymlinks a) _) as [q|] eqn:Hq; simpl; [|done].
  split; [done|]. destruct (answer (Stat q) _) as [k|] eqn:Hk; simpl; [|done].
  case_bool_decide as Hd; [subst k|done]. simpl. split.
  - apply eval_unlinked in Hq as [Hq _]; [done|]. by eapply abs_rooted.
  - by rewrite query_state by done.
Qed.

Lemma make_dirs_wp dirs s : gives (make_dirs dirs) s (λ _ s', made dirs s s').
Proof.
  revert s. induction dirs as [|d dirs IH]; intros s; simpl; [split; [done|set_solver]|].
  split; [done|]. destruct (answer _ s) as [[]|] eqn:Hd; [|done]. eapply wp_mono; [|apply IH].
  intros [[]|e] s'; [|done]. intros [Hk Hm]. split.
  - intros p Hp. by apply Hk, mkdir_keeps_dir.
  - intros p [->|Hp]%elem_of_cons; [by apply Hk, mkdir_dir|by apply Hm].
Qed.

Lemma provision_skills_wp sr ex nodes m s : gives (provision_skills sr ex nodes m) s
  (λ m' s', Forall plain nodes
     ∧ (∀ n sk, m' !! n = Some sk ↔
          (n ∈ nodes ∧ sk = skill_workspace sr ex n) ∨ (n ∉ nodes ∧ m !! n = Some sk))
     ∧ made (nodes ≫= λ n, own_dirs (skill_workspace sr ex n)) s s').
Proof.
  revert m s. induction nodes as [|n nodes IH]; intros m s; cbn [provision_skills].
  { split; [done|]. split; [intros n sk; set_solver|]. by split; [|set_solver]. }
  destruct (validateNodeID n) as [[]|] eqn:Hn; [|done]. apply validateNodeID_plain in Hn.
  apply wp_try. eapply wp_mono; [|apply make_dirs_wp].
  intros [[]|e] s1 Hs1; [|done]. eapply wp_mono; [|apply IH]. intros [m'|e] s2; [|done].
  intros (Hns&Hm&Hs2). split; [by apply List.Forall_cons|].
  split; [|by cbn [mbind list_bind]; apply made_app with s1].
  intros n' sk. rewrite Hm, elem_of_cons.
  destruct (decide (n' = n)) as [->|Hne]; [rewrite lookup_insert_eq|rewrite lookup_insert_ne by done];
    destruct (decide (n ∈ nodes)); naive_solver.
Qed.

Lemma rule_name es sub s : Forall plain es → validateRulePath sub = Ok (Clean sub) →
  pathWithinRoot (abs es) (path_Join [abs es; Clean sub]) = true →
  answer (Stat (abs es)) s = Ok KDir → answer (Stat (path_Join [abs es; Clean sub])) s = Err NotExist →
  ∃ name, plain name ∧ path_Join [abs es; Clean sub] = abs (es ++ [name]).
Proof.
  intros Hes Hv Hin Hd Hst. unfold validateRulePath in Hv.
  destruct (is_empty sub); [done|]. destruct (IsAbs sub) eqn:Hs; [done|].
  case_bool_decide as Hdot; [done|]. destruct (Contains (Clean sub) [slash]) eqn:Hc; [done|].
  assert (slash ∉ Clean sub) as Hsl by (rewrite <- Contains_char, Hc; done).
  assert (plain (Clean sub) ∨ Clean sub = dotdot) as [Hp|Hdd].
  { destruct (decide (Clean sub = dotdot)) as [|Hdd]; [by right|left].
    destruct (HasPrefix (Clean sub) (s2b "../")) eqn:Hup.
    { apply HasPrefix_spec in Hup as [r Hup]. destruct Hsl. rewrite Hup. simpl. unfold slash. set_solver. }
    destruct (Clean_relative sub Hs Hdd Hup) as [?|(ns&Hne&Hns&E)]; [done|]. rewrite E in *.
    destruct ns as [|n [|n' ns]]; [done| |].
    - simpl. rewrite app_nil_r. by apply List.Forall_cons_iff in Hns as [? _].
    - destruct Hsl. rewrite Join_cons by done. set_solver. }
  - exists (Clean sub). split; [done|]. by apply path_Join_name.
  - exfalso. rewrite Hdd in *. destruct es as [|e es _] using rev_ind.
    { change (path_Join [abs []; dotdot]) with (abs []) in Hst. congruence. }
    apply Forall_app in Hes as [Hes He]. rewrite path_Join_up in Hin by (done || by apply List.Forall_cons_iff in He as [? _]).
    apply pathWithinRoot_below in Hin; [|eexists; split; [|done]; by apply Forall_app|by exists es].
    apply below_abs in Hin as [c E]; [|by apply Forall_app|done].
    apply (f_equal List.length) in E. rewrite !length_app in E. simpl in E. lia.
Qed.

Lemma ProvisionWorkspace_wp g runnerID nodes rule s : gives (ProvisionWorkspace g runnerID nodes rule) s
  (λ w s', (∃ es name, rw_globalRoot w = abs es ∧ plain name ∧ provisioned_at (es ++ [name]) nodes w)
     ∧ answer (Stat (rw_root w)) (exec (ensureCanonicalDir g) s).2 = Err NotExist
     ∧ ∀ d, d ∈ workspace_dirs nodes w → answer (Stat d) s' = Ok KDir).
Proof.
  unfold ProvisionWorkspace. apply wp_try.
  eapply wp_mono; [|apply wp_both; [apply ensureCanonicalDir_wp|by apply exec_wp]].
  intros [root|e] s1; [|done]. intros [[(es&Hes&->) Hd] ->].
  destruct (is_empty runnerID); [done|]. destruct (validateRulePath _) as [sub|] eqn:Hv; [|done].
  assert (sub = Clean (default defaultWorkspacePathRule rule runnerID)) as ->.
  { unfold validateRulePath in Hv. by repeat case_match; simplify_eq. }
  destruct (pathWithinRoot _ _) eqn:Hin; [|done]. cbn [negb]. apply wp_bind. split; [done|].
  rewrite query_state by done. cbn [wp]. destruct (answer (Stat (path_Join _)) s1) as [k|[|msg]] eqn:Hst; [done| |done].
  destruct (rule_name _ _ _ Hes Hv Hin Hd Hst) as (name&Hn&Hroot). rewrite Hroot in Hst |- *.
  apply wp_try. eapply wp_mono; [|apply make_dirs_wp]. intros [[]|e] s2 Hs2; [|done].
  apply wp_try. eapply wp_mono; [|apply provision_skills_wp]. intros [m|e] s3; [|done]. intros (Hns&Hm&Hs3).
  assert (Forall plain (es ++ [name])) as Hen by (apply Forall_app; split; [done|by apply Forall_singleton]).
  split; [|split; [done|]; cbn [rw_exchange rw_archive rw_root rw_skills]; intros d Hd'; apply (made_app _ _ _ _ _ Hs2 Hs3)].
  2: { revert Hd'. unfold workspace_dirs. cbn [rw_exchange rw_archive rw_root rw_skills].
       rewrite elem_of_app, !elem_of_cons. tauto. }
  exists es, name. split; [done|]. split; [done|]. split; [done|]. split; [done|]. split; [done|].
  cbn [rw_exchange rw_archive rw_skills]. split; [apply path_Join_name; plain_names|].
  split; [apply path_Join_name; plain_names|].
  intros n sk. rewrite Hm, lookup_empty, !path_Join_name by plain_names. naive_solver.
Qed.
End provision.

Lemma dirs_listed es nodes w d : provisioned_at es nodes w →
  d = rw_exchange w ∨ d = rw_archive w ∨ (∃ n sk, rw_skills w !! n = Some sk ∧ d ∈ own_dirs sk) →
  d ∈ workspace_dirs nodes w.
Proof.
  intros (Hes&_&Hr&Hx&_&Hsk). unfold workspace_dirs. intros [->|[->|(n&sk&[Hn ->]%Hsk&Hd)]]; [by left|by right; left|].
  apply elem_of_cons. right. apply elem_of_cons. right. apply list_elem_of_bind. exists n. split; [|done].
  unfold child. by rewrite Hr, Hx, path_Join_name by plain_names.
Qed.

(** ** Handoff stays in its route *)

(** What the delivery from a downstream directory to a route may do. *)
Definition handoff_call `{FileSystem W} (down route : bytes) (s : W) (B : Type) (c : call B) : Prop :=
  match c with
  | Lstat p | ReadDir p => below down p
  | RemoveAll p => p = route
  | MkdirAll p => below route p
  | Symlink target p => below down target ∧ name_kind s target = Ok KFile ∧ below route p
  | _ => False
  end.

Lemma Rel_below a b : Forall plain a → Forall plain b →
  Rel (abs a) (abs (a ++ b)) = Some (match b with [] => dot | _ => Join b [slash] end).
Proof.
  intros Ha Hb. rewrite Rel_abs by (done || by apply Forall_app). destruct b as [|m b].
  { rewrite app_nil_r, bool_decide_eq_true_2 by done. done. }
  rewrite bool_decide_eq_false_2.
  2: { intros E. apply (f_equal List.length) in E. rewrite length_app in E. simpl in E. lia. }
  replace (strip_common a (a ++ m :: b)) with (@nil bytes, m :: b); [done|].
  clear Ha. induction a as [|x a IH]; [done|]. simpl. by rewrite bool_decide_eq_true_2.
Qed.

Lemma join_below a b : Forall plain a → Forall plain b →
  path_Join [abs a; match b with [] => dot | _ => Join b [slash] end] = abs (a ++ b).
Proof.
  intros Ha Hb. destruct b as [|m b]; [by rewrite app_nil_r, abs_dot|].
  apply path_Join_abs; [done| |by apply pieces_Join|done].
  apply List.Forall_cons_iff in Hb as [[Hm _] _]. by destruct m.
Qed.

Section handoff.
Context `{FileSystemLaws W} (down route : list bytes) (Hdown : Forall plain down) (Hroute : Forall plain route).
Implicit Types s : W.

#[local] Abbreviation calls := (handoff_call (abs down) (abs route)).
Definition not_deep (r : res rw_err ()) : Prop := r ≠ Err ErrDeep.

Lemma below_app a b : Forall plain a → Forall plain b → below (abs a) (abs (a ++ b)).
Proof. intros. by exists a, b. Qed.

Lemma link_file_wp b m d s : Forall plain b → Forall plain (m :: d) →
  wp calls (symlinkFileIfExists (abs (down ++ b)) (abs (route ++ m :: d))) s (λ r _, not_deep r).
Proof.
  intros Hb Hd. unfold symlinkFileIfExists. simpl. split; [by apply below_app|].
  rewrite query_state by done.
  destruct (answer (Lstat _) s) as [[]|[|msg]] eqn:Hk; simpl; try (unfold not_deep; congruence).
  assert (∃ d', Forall plain d' ∧ Dir (abs (route ++ m :: d)) = abs (route ++ d')) as (d'&Hd'&->).
  { destruct (@exists_last _ (m :: d)) as (l&x&E); [done|]. rewrite E in *.
    apply Forall_app in Hd as [Hl [Hx _]%List.Forall_cons_iff]. exists l. by rewrite app_assoc, Dir_abs by (done || by apply Forall_app). }
  split; [by apply below_app|]. destruct (answer (MkdirAll _) s) as [[]|]; simpl; [|unfold not_deep; congruence].
  split; [split_and!|].
  - by apply below_app.
  - by apply mkdir_keeps.
  - by apply below_app.
  - destruct (answer (Symlink _ _) _) as [[]|]; simpl; unfold not_deep; congruence.
Qed.

Lemma link_entry_wp x y b r s : plain x → plain y → Forall plain b →
  wp calls (link_entry (abs (down ++ [x])) (abs (route ++ [y])) (abs ((down ++ [x]) ++ b)) r) s
    (λ c _, ctl_ok (λ e, e ≠ ErrDeep) c).
Proof.
  intros Hx Hy Hb. destruct r as [k|e]; simpl; [|done].
  rewrite <- app_assoc. split; [apply below_app; [done|by apply List.Forall_cons]|].
  destruct (answer (Lstat _) s) as [k'|] eqn:Hk; simpl; [|done].
  assert (wp calls
    match Rel (abs (down ++ [x])) (abs (down ++ x :: b)) with
    | Some rel =>
        let target := path_Join [abs (route ++ [y]); rel] in
        if bool_decide (k = KDir) then
          ask (MkdirAll target) ≫= λ r,
          Ret (match r with Ok _ => WalkOn | Err e => WalkFail (ErrFile e) end)
        else symlinkFileIfExists (abs (down ++ x :: b)) target ≫= λ r, Ret (ctl_of r)
    | None => Ret (WalkFail (ErrRunner (s2b "no relative path")))
    end (after (Lstat (abs (down ++ x :: b))) s) (λ c _, ctl_ok (λ e, e ≠ ErrDeep) c)) as Hgo.
  { replace (down ++ x :: b) with ((down ++ [x]) ++ b) by by rewrite <- app_assoc.
    assert (Forall plain (down ++ [x])) by plain_names.
    rewrite Rel_below by done. cbv zeta. rewrite join_below by plain_names.
    rewrite <- !app_assoc. cbn [app]. case_bool_decide.
    - split; [apply below_app; [done|by apply List.Forall_cons]|]. simpl.
      by destruct (answer (MkdirAll _) _) as [[]|].
    - apply wp_bind. eapply wp_mono; [|apply link_file_wp; by apply List.Forall_cons].
      intros [[]|e] s'; simpl; [done|]. intros He E. apply He. by rewrite E. }
  by destruct k'.
Qed.

Lemma link_tree_wp x y s : plain x → plain y →
  wp calls (symlinkTreeIfExists (abs (down ++ [x])) (abs (route ++ [y]))) s (λ r _, not_deep r).
Proof.
  intros Hx Hy. unfold symlinkTreeIfExists. apply wp_bind.
  split; [apply below_app; [done|by apply Forall_singleton]|]. cbn [wp].
  destruct (answer (Lstat _) s) as [[]|[|msg]]; try (cbn; unfold not_deep; congruence).
  apply wp_bind. eapply wp_mono; [|eapply wp_both; [eapply (WalkDir_wp _ _
    (λ p, ∃ b, Forall plain b ∧ p = abs ((down ++ [x]) ++ b)) (λ _, True) (λ e, e ≠ ErrDeep))|apply walk_ends]].
  - intros [| |e|] s' [[_ Hr] Hd]; simpl; unfold not_deep; try done. intros [= ->]. by apply Hr.
  - intros p r s' (b&Hb&->) _. eapply wp_mono; [|by apply link_entry_wp]. done.
  - intros p s' (b&Hb&->) _. rewrite <- app_assoc. split; (apply below_app; [done|by apply List.Forall_cons]).
  - intros p m (b&Hb&->) Hm. exists (b ++ [m]). unfold child.
    rewrite path_Join_name by plain_names. rewrite app_assoc. split; [plain_names|done].
  - exists []. by rewrite app_nil_r.
  - done.
  - exists (down ++ [x]). split; [plain_names|done].
Qed.
End handoff.

(** ** What artifacts can open *)

Lemma HasPrefix_below root t : rooted root → rooted t →
  HasPrefix (Clean t ++ [slash]) (Clean root ++ [slash]) = true → below root t.
Proof.
  intros (a&Ha&->) (b&Hb&->) (r&E)%HasPrefix_spec. rewrite !Clean_abs in E by done.
  apply below_abs; [done..|]. exists (pieces r).
  rewrite <- app_assoc in E. apply (f_equal pieces) in E. cbn [app] in E.
  rewrite !pieces_app, !pieces_abs in E by done. change (pieces []) with (@nil bytes) in E.
  by rewrite app_nil_r in E.
Qed.

Lemma path_Join_rooted r p : rooted r → rooted (path_Join [r; p]).
Proof.
  intros (a&_&->). unfold path_Join. cbn [List.filter]. replace (nonempty (abs a)) with true by done.
  apply Clean_rooted. by destruct (nonempty p).
Qed.

Lemma Dir_rooted p : rooted p → rooted (Dir p).
Proof.
  intros (a&Ha&->). destruct a as [|m a _] using rev_ind; [by exists []|].
  apply Forall_app in Ha as [Ha [Hm _]%List.Forall_cons_iff]. rewrite Dir_abs by done. by exists a.
Qed.

Section artifacts.
Context `{FileSystemLaws W} `{FrontMatter channelDocumentFrontMatter}.
Implicit Types s : W.

(** A directory below [root], reached without a link. *)
Definition resource_dir (root : bytes) (s : W) (d : bytes) : Prop :=
  below root d ∧ unlinked s d ∧ answer (Stat d) s = Ok KDir.

#[local] Abbreviation looks p s Q := (wp only_queries p s (λ r s', s' = s ∧ Q r)).

Lemma canonicalExistingDir_wp p s : rooted p →
  looks (canonicalExistingDir p) s (λ r, match r with
    | Some d => answer (EvalSymlinks p) s = Ok d ∧ unlinked s d ∧ answer (Stat d) s = Ok KDir
    | None => True end).
Proof.
  intros Hp. split; [done|]. cbn [wp]. rewrite query_state by done.
  destruct (answer (EvalSymlinks p) s) as [q|] eqn:Hq; [|done].
  split; [done|]. cbn [wp]. rewrite query_state by done. split; [done|].
  destruct (answer (Stat q) s) as [[]|] eqn:Hk; try done. split_and!; [done| |done]. by eapply eval_unlinked.
Qed.

Lemma handoffArtifactDir_wp a root s : rooted root → rooted (ha_Path a) →
  looks (handoffArtifactDir a [root]) s (λ r, match r with Some d => resource_dir root s d | None => True end).
Proof.
  intros Hroot Hp. unfold handoffArtifactDir.
  assert (∀ p, rooted p → looks (canonicalExistingDir p ≫= λ r,
    Ret (match r with Some dir => if dirUnderAllowedRoots dir [root] then Some dir else None | None => None end)) s
    (λ r, match r with Some d => resource_dir root s d | None => True end)) as Hfin.
  { intros p Hpr. apply wp_bind. eapply wp_mono; [|by apply canonicalExistingDir_wp].
    intros [d|] s' [-> Hd]; [|done]. destruct Hd as (_&Hu&Hk). cbn [wp]. split; [done|].
    destruct (dirUnderAllowedRoots d [root]) eqn:Hd; [|done]. split_and!; [|done..].
    unfold dirUnderAllowedRoots in Hd. cbn [existsb] in Hd. rewrite orb_false_r in Hd.
    apply andb_true_iff in Hd as [_ Hd]. apply HasPrefix_below; [done|apply Hu|done]. }
  destruct (_ || _); [done|]. case_bool_decide; [by apply Hfin|].
  case_bool_decide; [by apply Hfin, Dir_rooted|].
  apply wp_bind. split; [done|]. cbn [wp]. rewrite query_state by done.
  destruct (answer (Stat _) s) as [[]|]; [by apply Hfin|by apply Hfin, Dir_rooted|by apply Hfin, Dir_rooted|done].
Qed.

Lemma resolve_artifact_rooted sk p q : rooted (sk_Root sk) →
  resolveHandoffArtifactPath sk p = Some q → below (sk_Root sk) q.
Proof.
  intros Hr. unfold resolveHandoffArtifactPath. destruct (is_empty _); [done|].
  destruct (_ || _); [done|]. destruct (_ || _); [done|].
  destruct (pathWithinRoot _ _) eqn:Hin; [|done]. intros [= <-].
  apply pathWithinRoot_below; [done|by apply path_Join_rooted|done].
Qed.

Lemma artifact_dirs_wp sk root arts dirs s : rooted root → rooted (sk_Root sk) →
  Forall (resource_dir root s) dirs →
  looks (artifact_dirs sk [root] arts dirs) s (Forall (resource_dir root s)).
Proof.
  intros Hroot Hsk. revert dirs. induction arts as [|a arts IH]; intros dirs Hd; cbn [artifact_dirs]; [done|].
  destruct (resolveHandoffArtifactPath sk (ha_Path a)) as [q|] eqn:Hq; [|by apply IH].
  apply resolve_artifact_rooted in Hq; [|done]. apply wp_bind.
  eapply wp_mono; [|apply handoffArtifactDir_wp; [done|by eapply below_rooted]].
  intros [d|] s' [-> Hdr]; apply IH; [|done]. destruct (containsDir dirs d); [done|].
  apply Forall_app. split; [done|by apply Forall_singleton].
Qed.

Lemma output_dirs_wp w root outs dirs s : rooted root →
  (∀ n sk, rw_skills w !! n = Some sk → rooted (sk_Root sk)) → Forall (resource_dir root s) dirs →
  looks (output_dirs w [root] outs dirs) s (Forall (resource_dir root s)).
Proof.
  intros Hroot Hsk. revert dirs. induction outs as [|[n v] outs IH]; intros dirs Hd; cbn [output_dirs]; [done|].
  destruct v as [| | | |text| | | |]; try by apply IH.
  destruct (rw_skills w !! n) as [sk|] eqn:Hn; [|by apply IH].
  destruct (parseChannelDocument text) as [[doc|doc|doc]|]; try by apply IH.
  apply wp_bind. eapply wp_mono; [|apply artifact_dirs_wp; [done|by eapply Hsk|done]].
  intros ds s' [-> Hds]. by apply IH.
Qed.

Lemma add_dirs_spec dirs new d : d ∈ add_dirs dirs new ↔ d ∈ dirs ∨ d ∈ new.
Proof.
  revert dirs. induction new as [|x new IH]; intros dirs; simpl; [set_solver|].
  rewrite IH. destruct (containsDir dirs x) eqn:Hx; [|set_solver].
  apply existsb_elem in Hx as (y&Hy&->%bool_decide_eq_true). set_solver.
Qed.
End artifacts.

Lemma skill_root_rooted es nodes w n sk : provisioned_at es nodes w → rw_skills w !! n = Some sk → rooted (sk_Root sk).
Proof.
  intros (Hes&Hns&_&_&_&Hsk) [Hn ->]%Hsk. eapply Forall_forall in Hns; [|done].
  rewrite skill_workspace_abs by done. exists (es ++ [s2b "skills"; n]). split; [plain_names|done].
Qed.

(** ** Properties *)

(** C25: A workspace that is provisioned lies in a single directory below the global
    root that nothing had the name of, once the root itself was there. It holds
    exactly the requested nodes, whose ids are file names; when the call returns,
    the exchange, the archive and the four directories of every node are
    directories. The nodes are kept apart: every directory a node may access is
    below the runner's and neither contains nor is contained in the archive, and a
    node's own directories neither contain nor are contained in any directory
    another node may access. *)
Theorem workspace_layout `{FileSystemLaws W} (s : W) g runnerID nodes rule w :
  let r := exec (ProvisionWorkspace g runnerID nodes rule) s in
  r.1 = Ok w →
  (∃ root name, rooted root ∧ plain name ∧ rw_globalRoot w = root ∧ rw_root w = child root name)
  ∧ answer (Stat (rw_root w)) (exec (ensureCanonicalDir g) s).2 = Err NotExist
  ∧ (∀ n, is_Some (rw_skills w !! n) ↔ n ∈ nodes)
  ∧ (∀ d, d = rw_exchange w ∨ d = rw_archive w ∨ (∃ n sk, rw_skills w !! n = Some sk ∧ d ∈ own_dirs sk) →
      answer (Stat d) r.2 = Ok KDir)
  ∧ (∀ n sk, rw_skills w !! n = Some sk → plain n ∧ sk_NodeID sk = n
      ∧ ∀ d, d ∈ sk_accessibleDirs sk → below (rw_root w) d ∧ apart d (rw_archive w))
  ∧ (∀ n m skn skm d e, rw_skills w !! n = Some skn → rw_skills w !! m = Some skm → n ≠ m →
      d ∈ own_dirs skn → e ∈ sk_accessibleDirs skm → apart d e).
Proof.
  intros r E. pose proof (wp_exec _ _ _ _ (ProvisionWorkspace_wp g runnerID nodes rule s)) as Hw.
  fold r in Hw. rewrite E in Hw. destruct Hw as ((es0&name&Hg&Hname&(Hes&Hns&Hr&Hx&Ha&Hsk))&Hfree&Hdirs).
  assert (Forall plain es0) as Hes0 by by apply Forall_app in Hes as [? _].
  assert (∀ n, n ∈ nodes → plain n) as Hpn by by apply Forall_forall. split_and!.
  - exists (abs es0), name. split_and!; [by exists es0|done|done|].
    by rewrite Hr; unfold child; rewrite path_Join_name.
  - done.
  - intros n. split; [by intros [sk [? _]%Hsk]|]. intros Hn. eexists. by apply Hsk.
  - intros d Hd. apply Hdirs, (dirs_listed (es0 ++ [name])); [|done]. split_and!; done.
  - intros n sk [Hn ->]%Hsk. rewrite skill_workspace_abs by auto. split_and!; [by auto|done|].
    cbn [sk_accessibleDirs]. intros d Hd. rewrite Hr, Ha. pose proof (Hpn n Hn).
    repeat (apply elem_of_cons in Hd as [->|Hd]); try (by apply elem_of_nil in Hd);
      (split; [exists (es0 ++ [name]); eexists; split_and!; [done| |done..]; plain_names
              |apply apart_abs; [done|plain_names..|by intros ?|by intros ?]]).
  - intros n m skn skm d e [Hn ->]%Hsk [Hm ->]%Hsk Hnm. rewrite !skill_workspace_abs by auto.
    cbn [sk_accessibleDirs own_dirs sk_MemoDir sk_UpstreamDir sk_DownstreamDir sk_ScratchDir].
    pose proof (Hpn n Hn). pose proof (Hpn m Hm). intros Hd He.
    repeat (apply elem_of_cons in Hd as [->|Hd]); try (by apply elem_of_nil in Hd);
      repeat (apply elem_of_cons in He as [->|He]); try (by apply elem_of_nil in He);
      (apply apart_abs; [done|plain_names..| |]; intros c; unfold skill_place; cbn; congruence).
Qed.

(** Delivering a handoff always ends, and touches nothing but the successor's
    route for that producer: only the route is removed, directories and links are
    created below it, and every link points to a regular file, never a link or a
    directory, below the producer's downstream directory. *)
Theorem handoff_stays_in_route `{FileSystemLaws W} (s : W) es nodes w p q skp skq :
  provisioned_at es nodes w → rw_skills w !! p = Some skp → rw_skills w !! q = Some skq →
  below (sk_UpstreamDir skq) (route_dir skq p)
  ∧ wp (handoff_call (sk_DownstreamDir skp) (route_dir skq p)) (Handoff w p q) s (λ r _, r ≠ Err ErrDeep).
Proof.
  intros (Hes&Hns&_&_&_&Hsk) Hp Hq. pose proof Hp as [Hpn ->]%Hsk. pose proof Hq as [Hqn ->]%Hsk.
  assert (∀ n, n ∈ nodes → plain n) as Hpl by by apply Forall_forall.
  pose proof (Hpl p Hpn). pose proof (Hpl q Hqn).
  unfold route_dir, Handoff, route_dir. rewrite Hp, Hq, !skill_workspace_abs by done.
  cbn [sk_UpstreamDir sk_DownstreamDir]. rewrite path_Join_name by plain_names.
  set (down := es ++ skill_place p (s2b "downstream")).
  set (route := (es ++ skill_place q (s2b "upstream")) ++ [p]).
  assert (Forall plain down) as Hdown by (unfold down; plain_names).
  assert (Forall plain route) as Hroute by (unfold route; plain_names).
  split; [eexists _, [p]; split_and!; [..|done|done]; plain_names|].
  split; [done|]. cbn [wp prog_bind ask]. destruct (answer (RemoveAll _) s) as [[]|]; [|done].
  split; [by exists route, []; rewrite app_nil_r|]. destruct (answer (MkdirAll _) _) as [[]|]; [|done].
  rewrite !path_Join_name by plain_names. apply wp_try.
  eapply wp_mono; [|by apply (link_file_wp down route Hdown Hroute [s2b "handoff.md"]); plain_names].
  intros [[]|e] s1 Hr; [|done].
  eapply wp_mono; [|by apply (link_tree_wp down route Hdown Hroute); apply name_plain; vm_compute]. done.
Qed.

(** The directories a node is given besides its own are what its inputs'
    handoff documents declare and no more than the runner's workspace holds:
    looking them up changes nothing, and each is an existing directory below the
    canonical runner root with no symbolic link on it, whatever paths and links
    the producer chose. *)
Theorem artifact_dirs_confined `{FileSystemLaws W} `{FrontMatter channelDocumentFrontMatter} (s : W)
  es nodes w n inputs : provisioned_at es nodes w →
  wp only_queries (nodeAccessibleDirs (Some w) n inputs) s (λ ds s', s' = s
    ∧ (∀ d, d ∈ node_own_dirs (Some w) n → d ∈ ds)
    ∧ ∀ d, d ∈ ds → d ∈ node_own_dirs (Some w) n
        ∨ ∃ root, answer (EvalSymlinks (rw_root w)) s = Ok root ∧ resource_dir root s d).
Proof.
  intros Hw. pose proof Hw as (Hes&_&Hr&_). unfold nodeAccessibleDirs, resourceAllowedRoots.
  apply wp_bind. apply wp_bind. eapply wp_mono; [|apply canonicalExistingDir_wp; by exists es; rewrite Hr].
  intros [root|] s1 [-> Hroot]; cbn [wp]; [|by split_and!; auto].
  destruct Hroot as (Hev&Hu&_). apply wp_bind. unfold handoffArtifactDirsFromOutputs.
  destruct inputs as [|i inputs]; [by split_and!; auto|].
  eapply wp_mono; [|apply output_dirs_wp; [apply Hu| |apply List.Forall_nil]].
  - intros ds s' [-> Hds]. cbn [wp]. split; [done|]. split.
    + intros d Hd. apply add_dirs_spec. by left.
    + intros d [Hd|Hd]%add_dirs_spec; [by left|right]. exists root. split; [done|].
      by eapply Forall_forall in Hds.
  - intros n' sk. by apply skill_root_rooted with es nodes.
Qed.

(** ** Witnesses *)

Definition start_tree : tree := list_to_map [([s2b "srv"], NDir); ([s2b "tmp"], NDir)].
Definition two_nodes : list bytes := [s2b "a"; s2b "b"].
Definition provisioned_run := exec (ProvisionWorkspace (s2b "/srv/runs") (s2b "1") two_nodes None) start_tree.
Definition run_workspace : Workspace :=
  match provisioned_run.1 with Ok w => w | Err _ => mkWorkspace [] [] [] [] [] ∅ end.

Lemma run_provisioned : provisioned_run.1 = Ok run_workspace.
Proof.
  unfold run_workspace. assert (match provisioned_run.1 with Ok _ => true | Err _ => false end = true) as H
    by by vm_compute. by destruct provisioned_run.1.
Defined.

Lemma workspace_layout_witness :
  (∃ root name, rooted root ∧ plain name ∧ rw_globalRoot run_workspace = root ∧ rw_root run_workspace = child root name)
  ∧ answer (Stat (rw_root run_workspace)) (exec (ensureCanonicalDir (s2b "/srv/runs")) start_tree).2 = Err NotExist.
Proof.
  pose proof (workspace_layout start_tree (s2b "/srv/runs") (s2b "1") two_nodes None run_workspace run_provisioned)
    as (Hroot&Hfree&_). exact (conj Hroot Hfree).
Defined.

Definition run_dir : list bytes := s2b <$> ["srv"; "runs"; "task_1"]%string.
Definition run_skill (n : bytes) : SkillWorkspace :=
  skill_workspace (abs (run_dir ++ [s2b "skills"])) (abs (run_dir ++ [s2b "exchange"])) n.

(** The same workspace, written out. *)
Definition plain_workspace : Workspace :=
  mkWorkspace (s2b "/srv/runs") (s2b "1") (abs run_dir) (abs (run_dir ++ [s2b "exchange"]))
    (abs (run_dir ++ [s2b "archive"])) (<[s2b "a" := run_skill (s2b "a")]> {[ s2b "b" := run_skill (s2b "b") ]}).

Lemma plain_workspace_ok : provisioned_at run_dir two_nodes plain_workspace.
Proof.
  split; [by apply (bool_decide_unpack _); vm_compute|].
  split; [by apply (bool_decide_unpack _); vm_compute|]. split_and!; [done..|].
  intros n sk. unfold two_nodes. cbn [rw_skills plain_workspace]. rewrite !elem_of_cons, elem_of_nil.
  destruct (decide (n = s2b "a")) as [->|Ha]; [rewrite lookup_insert_eq; unfold run_skill; naive_solver|].
  rewrite lookup_insert_ne by done. destruct (decide (n = s2b "b")) as [->|Hb].
  - rewrite lookup_singleton_eq. unfold run_skill. naive_solver.
  - rewrite lookup_singleton_ne by done. naive_solver.
Qed.

Lemma handoff_stays_in_route_witness :
  wp (handoff_call (sk_DownstreamDir (run_skill (s2b "a"))) (route_dir (run_skill (s2b "b")) (s2b "a")))
    (Handoff plain_workspace (s2b "a") (s2b "b")) provisioned_run.2 (λ r _, r ≠ Err ErrDeep).
Proof.
  refine (proj2 (handoff_stays_in_route provisioned_run.2 run_dir two_nodes plain_workspace (s2b "a") (s2b "b")
    _ _ plain_workspace_ok _ _)); reflexivity.
Defined.

(** A front matter codec that reads every block as the same handoff. *)
#[local] Instance one_artifact : FrontMatter channelDocumentFrontMatter := {
  fm_zero := mkChannelFM zero_header [] [] [] [] [] [] [] [];
  yaml_Marshal := λ _, None;
  yaml_Unmarshal := λ _, Some (mkChannelFM
    (mkHeader ChannelKindHandoff 1 (s2b "1") (s2b "2024-01-01T00:00:00Z")) (s2b "a") [s2b "b"] []
    [mkArtifact (s2b "outbox/artifacts") (s2b "dir") []] [] [] [] []);
  unmarshalTOML := λ _, None }.

Definition artifact_text : bytes := s2b "---" ++ newline :: s2b "---" ++ newline :: [].

Definition with_artifacts : tree :=
  (exec (ask (MkdirAll (s2b "/srv/runs/task_1/skills/a/downstream/artifacts"))) provisioned_run.2).2.

Lemma artifact_dirs_confined_witness :
  let ds := exec (nodeAccessibleDirs (Some plain_workspace) (s2b "b") [(s2b "a", AStr artifact_text)]) with_artifacts in
  s2b "/srv/runs/task_1/skills/a/downstream/artifacts" ∈ ds.1
  ∧ ∀ d, d ∈ ds.1 → d ∈ node_own_dirs (Some plain_workspace) (s2b "b")
      ∨ ∃ root, answer (EvalSymlinks (rw_root plain_workspace)) with_artifacts = Ok root
        ∧ resource_dir root with_artifacts d.
Proof.
  intros ds. split; [by apply (bool_decide_unpack _); vm_compute|].
  exact (proj2 (proj2 (wp_exec _ _ _ _ (artifact_dirs_confined with_artifacts run_dir two_nodes plain_workspace
    (s2b "b") [(s2b "a", AStr artifact_text)] plain_workspace_ok)))).
Defined.

(** ** The handoff cannot be read

    The delivered [handoff.md] is a link into the producer's downstream directory,
    which is not among the successor's accessible directories: its file tools
    refuse the path that they are told to read. *)

Definition handed : tree :=
  (exec (Handoff run_workspace (s2b "a") (s2b "b"))
    (exec (ask (WriteFile (s2b "/srv/runs/task_1/skills/a/downstream/handoff.md") (s2b "text"))) provisioned_run.2).2).2.

(** What a fresh workspace of node [n] makes of the path. *)
Definition node_sees (w : Workspace) (t : tree) (n p : string) : option (res ws_err bytes) :=
  match AccessibleDirs w (s2b n), exec newTempWorkspaceRoot t with
  | Ok dirs, (Ok ws, s) =>
      match exec (setAccessibleDirs (Some ws) dirs) s with
      | (Ok ws, s) => Some (exec (ResolvePath (Some ws) (s2b p)) s).1
      | _ => None
      end
  | _, _ => None
  end.

Lemma handoff_unreadable :
  answer (ReadFile (s2b "/srv/runs/task_1/skills/b/upstream/a/handoff.md")) handed = Ok (s2b "text")
  ∧ node_sees run_workspace handed "b" "/srv/runs/task_1/skills/b/upstream/a/handoff.md"
    = Some (Err (ErrEscapes (s2b "/srv/runs/task_1/skills/b/upstream/a/handoff.md"))).
Proof. split; by vm_compute. Qed.
