(* ===== verification/Bundle.v ===== *)
(** Merge bundles ([src/stream/bundle.go]): an event batch as the JSON delta of
    a carrier event, its decoding as [encoding/json] decodes into the Go
    structs, and the expansion of a carrier into its nested events. *)
From S2P Require Import Prelude Json GoText Event.

Record EventBatch := mkBatch { TickID : Z; Events : list Event }.

(** ** Encoding *)

(** An empty [Events] is the nil slice. *)
Definition batch_json (b : EventBatch) : option json :=
  evs ← mapM event_json (Events b);
  Some (JObj [field "tick_id" (JNum (dec (TickID b)));
              field "events" (match evs with [] => JNull | _ => JArr evs end)]).

Definition EncodeEventBatch (b : EventBatch) : res stream_err bytes :=
  match batch_json b with Some j => Ok (print j) | None => Err ErrEncode end.

(** ** Decoding into structs

    A member goes to the field whose name equals its key up to case folding,
    [null] leaves a field alone, unknown members are skipped, a repeated
    member decodes over the earlier value. *)

Definition ascii_upper (c : ascii) : ascii :=
  if (97 <=? code c)%N && (code c <=? 122)%N then ascii_of_N (code c - 32) else c.

(** [foldName]: upper case, with the two non-ASCII letters that fold into
    ASCII (U+017F and U+212A). *)
Fixpoint fold_name (s : bytes) : bytes :=
  match s with
  | [] => []
  | c :: r =>
      match r with
      | d :: r1 =>
          if Ascii.eqb c "197" && Ascii.eqb d "191" then "S"%char :: fold_name r1
          else match r1 with
               | e :: r2 =>
                   if Ascii.eqb c "226" && Ascii.eqb d "132" && Ascii.eqb e "170"
                   then "K"%char :: fold_name r2
                   else ascii_upper c :: fold_name r
               | [] => ascii_upper c :: fold_name r
               end
      | [] => ascii_upper c :: fold_name r
      end
  end.

Definition field_is (name : string) (k : bytes) : bool :=
  bool_decide (fold_name k = fold_name (s2b name)).

Definition decode_str (old raw : bytes) : option bytes :=
  match top_of raw with
  | Some TNull => Some old
  | Some (TStr b) => Some (unquote b)
  | _ => None
  end.

Definition decode_u64 (old : Z) (raw : bytes) : option Z :=
  match top_of raw with
  | Some TNull => Some old
  | Some (TNum l) => parse_uint64 l
  | _ => None
  end.

(** One struct: [step] handles one member. *)
Definition decode_struct {A} (step : bytes → bytes → A → option A) (old : A) (raw : bytes)
  : option A :=
  match top_of raw with
  | Some TNull => Some old
  | Some (TObj ms) =>
      foldl (λ acc m, a ← acc; step (unquote m.1) m.2 a) (Some old) ms
  | _ => None
  end.

Definition source_field (k raw : bytes) (s : Source) : option Source :=
  if field_is "layer" k then
    x ← decode_str (src_Layer s) raw; Some (mkSource x (src_ID s) (src_ParentID s))
  else if field_is "id" k then
    x ← decode_str (src_ID s) raw; Some (mkSource (src_Layer s) x (src_ParentID s))
  else if field_is "parent_id" k then
    x ← decode_str (src_ParentID s) raw; Some (mkSource (src_Layer s) (src_ID s) x)
  else Some s.

Definition scope_field (k raw : bytes) (s : Scope) : option Scope :=
  let '(mkScope a b c d) := s in
  if field_is "request_id" k then x ← decode_str a raw; Some (mkScope x b c d)
  else if field_is "runner_id" k then x ← decode_str b raw; Some (mkScope a x c d)
  else if field_is "node_id" k then x ← decode_str c raw; Some (mkScope a b x d)
  else if field_is "session_id" k then x ← decode_str d raw; Some (mkScope a b c x)
  else Some s.

(** Literal member names. *)
Ltac name_body :=
  repeat first [apply body_nil | apply body_plain; [done|done|by vm_compute|]].

(** Reduce the name tests of decoding steps on literal member names. *)
Ltac name_tests :=
  repeat match goal with
  | |- context [field_is ?n (unquote ?k)] =>
      let b := eval vm_compute in (field_is n (unquote k)) in
      change (field_is n (unquote k)) with b
  end; cbn iota.

Section Decode.
Context {std : GoStd}.

(** A value decoded into [any]: every number becomes a float64. *)
Fixpoint any_of (v : json) : option any :=
  match v with
  | JNull => Some ANull
  | JBool b => Some (ABool b)
  | JNum l => AFloat <$> float_repr l
  | JStr b => Some (AStr (unquote b))
  | JArr vs => AArr <$> mapM any_of vs
  | JObj ms =>
      es ← mapM (λ '(k, w), pair (unquote k) <$> any_of w) ms;
      Some (AMap (foldl (λ m e, map_set e.1 e.2 m) [] es))
  end.

Definition decode_time (old raw : bytes) : option bytes :=
  match top_of raw with
  | Some TNull => Some old
  | Some (TStr b) => time_parse b
  | _ => None
  end.

Definition decode_metadata (old : metadata) (raw : bytes) : option metadata :=
  match parse raw with
  | Some JNull => Some None
  | Some (JObj ms) =>
      es ← mapM (λ '(k, w), pair (unquote k) <$> any_of w) ms;
      Some (Some (foldl (λ m e, map_set e.1 e.2 m) (default [] old) es))
  | _ => None
  end.

Definition event_field (k raw : bytes) (e : Event) : option Event :=
  let '(mkEvent ty fr sq st de lt ts sc md) := e in
  if field_is "event_type" k then
    x ← decode_str ty raw; Some (mkEvent x fr sq st de lt ts sc md)
  else if field_is "from" k then
    x ← decode_struct source_field fr raw; Some (mkEvent ty x sq st de lt ts sc md)
  else if field_is "sequence_number" k then
    x ← decode_u64 sq raw; Some (mkEvent ty fr x st de lt ts sc md)
  else if field_is "status" k then
    x ← decode_str st raw; Some (mkEvent ty fr sq x de lt ts sc md)
  else if field_is "delta" k then Some (mkEvent ty fr sq st (Some raw) lt ts sc md)
  else if field_is "logical_time" k then
    x ← decode_u64 lt raw; Some (mkEvent ty fr sq st de x ts sc md)
  else if field_is "timestamp" k then
    x ← decode_time ts raw; Some (mkEvent ty fr sq st de lt x sc md)
  else if field_is "scope" k then
    x ← decode_struct scope_field sc raw; Some (mkEvent ty fr sq st de lt ts x md)
  else if field_is "metadata" k then
    x ← decode_metadata md raw; Some (mkEvent ty fr sq st de lt ts sc x)
  else Some e.

Definition decode_event (old : Event) (raw : bytes) : option Event :=
  decode_struct event_field old raw.

(** The array elements: element [i] decodes over what the backing array holds
    at [i], which a repeated "events" member can make non-zero. *)
Fixpoint decode_elems (backing : list Event) (raws : list bytes) : option (list Event) :=
  match raws with
  | [] => Some []
  | raw :: raws' =>
      e ← decode_event (default zero_event (head backing)) raw;
      es ← decode_elems (tail backing) raws'; Some (e :: es)
  end.

(** [(tick, backing array, length)] while a batch is decoded. *)
Definition batch_field (k raw : bytes) (acc : Z * list Event * nat)
  : option (Z * list Event * nat) :=
  let '(tick, backing, n) := acc in
  if field_is "tick_id" k then t ← decode_u64 tick raw; Some (t, backing, n)
  else if field_is "events" k then
    match top_of raw with
    | Some TNull => Some (tick, [], 0%nat)
    | Some (TArr []) => Some (tick, [], 0%nat)
    | Some (TArr raws) =>
        es ← decode_elems backing raws;
        Some (tick, es ++ drop (List.length es) backing, List.length es)
    | _ => None
    end
  else Some acc.

Definition DecodeEventBatch (delta : bytes) : res stream_err EventBatch :=
  match decode_struct batch_field (0, [], 0%nat) delta with
  | Some (tick, backing, n) => Ok (mkBatch tick (take n backing))
  | None => Err ErrDecode
  end.

(** ** Expansion *)

Definition isValidEventBatch (b : EventBatch) : bool :=
  match Events b with [] => false | _ => true end.

Definition is_bundle (e : Event) : bool := bool_decide (ev_EventType e = EventMergeBundle).

Definition ExpandBundleEvent (event : Event) : res stream_err (list Event) :=
  if negb (is_bundle event) then Ok [event]
  else
    let? bundle := DecodeEventBatch (default [] (ev_Delta event)) in
    if negb (isValidEventBatch bundle) then Err ErrEmptyBatch
    else Ok ((λ e, set_scope (mergeScope (ev_Scope event) (ev_Scope e)) e) <$> Events bundle).

Definition FilterBundleEvent (event : Event) (f : Filter) : res stream_err (list Event) :=
  let? events := ExpandBundleEvent event in
  Ok (List.filter (Match f) events).

(** ** The round trip *)

(** What a marshalled value reads back as. *)
Definition norm_metadata (m : metadata) : option metadata :=
  match m with
  | None | Some [] => Some None
  | Some es =>
      j ← any_json (AMap es);
      match any_of j with Some (AMap es') => Some (Some es') | _ => None end
  end.

Definition norm_delta (d : option bytes) : option bytes :=
  match d with None => Some (s2b "null") | Some raw => compact raw end.

(** The event a batch hands on after one trip through JSON: the same fields,
    the delta compacted and HTML-escaped, the metadata as decoded values. *)
Definition norm_event (e : Event) : option Event :=
  d ← norm_delta (ev_Delta e);
  m ← norm_metadata (ev_Metadata e);
  Some (mkEvent (ev_EventType e) (ev_From e) (ev_SequenceNumber e) (ev_Status e) (Some d)
          (ev_LogicalTime e) (ev_Timestamp e) (ev_Scope e) m).

(** Metadata whose floats are JSON numbers. *)
Fixpoint any_ok (v : any) : Prop :=
  match v with
  | AFloat l => num_ok l
  | AArr vs => foldr (λ w P, any_ok w ∧ P) True vs
  | AMap es => foldr (λ e P, any_ok e.2 ∧ P) True es
  | _ => True
  end.

Definition u64_ok (z : Z) : Prop := 0 ≤ z < two64.

(** Events whose strings are UTF-8, whose integers fit and whose time is one
    the standard library prints. *)
Definition event_ok (e : Event) : Prop :=
  utf8 (ev_EventType e) ∧ utf8 (src_Layer (ev_From e)) ∧ utf8 (src_ID (ev_From e)) ∧
  utf8 (src_ParentID (ev_From e)) ∧ utf8 (ev_Status e) ∧
  utf8 (scope_RequestID (ev_Scope e)) ∧ utf8 (scope_RunnerID (ev_Scope e)) ∧
  utf8 (scope_NodeID (ev_Scope e)) ∧ utf8 (scope_SessionID (ev_Scope e)) ∧
  u64_ok (ev_SequenceNumber e) ∧ u64_ok (ev_LogicalTime e) ∧
  body (ev_Timestamp e) ∧ time_parse (ev_Timestamp e) = Some (ev_Timestamp e) ∧
  any_ok (AMap (default [] (ev_Metadata e))).

Fixpoint any_size (v : any) : nat :=
  match v with
  | AArr vs => S (sum_list_with (λ w, S (any_size w)) vs)
  | AMap es => S (sum_list_with (λ e, S (any_size e.2)) es)
  | _ => 1
  end.

Lemma any_size_ind (P : any → Prop) :
  (∀ v, (∀ w, (∃ vs, v = AArr vs ∧ w ∈ vs) ∨ (∃ k es, v = AMap es ∧ (k, w) ∈ es) → P w)
        → P v) → ∀ v, P v.
Proof.
  intros H v. induction v as [v IH] using (induction_ltof1 _ any_size).
  apply H. intros w Hw. apply IH. unfold ltof.
  destruct Hw as [(vs & -> & Hw)|(k & es & -> & Hw)].
  - pose proof (sum_list_with_in w (λ w, S (any_size w)) vs Hw). simpl in *. lia.
  - pose proof (sum_list_with_in (k, w) (λ e, S (any_size e.2)) es Hw). simpl in *. lia.
Qed.

Lemma any_ok_arr vs : any_ok (AArr vs) ↔ Forall any_ok vs.
Proof. simpl. induction vs; simpl; rewrite ?Forall_nil, ?Forall_cons; naive_solver. Qed.
Lemma any_ok_map es : any_ok (AMap es) ↔ Forall (λ e, any_ok e.2) es.
Proof. simpl. induction es; simpl; rewrite ?Forall_nil, ?Forall_cons; naive_solver. Qed.

Lemma any_json_wf v j : any_ok v → any_json v = Some j → wf j.
Proof.
  revert j. induction v as [v IH] using any_size_ind. intros j Hok H.
  destruct v as [|b|z|l|s|[raw|]|vs|es|]; simpl in H; simplify_eq; eauto with json.
  - destruct (parse raw) eqn:E; simplify_eq/=. by eapply wf_html_tree, parse_wf.
  - rewrite any_ok_arr in Hok. destruct (mapM any_json vs) as [js|] eqn:E; simplify_eq/=.
    constructor. apply mapM_Some in E. rewrite Forall_forall in Hok. rewrite Forall_forall. intros w Hw.
    apply list_elem_of_lookup in Hw as [i Hi]. destruct (Forall2_lookup_r _ _ _ _ _ E Hi) as (x & Hx & Hxw).
    apply list_elem_of_lookup_2 in Hx. eapply IH; eauto.
  - rewrite any_ok_map in Hok.
    destruct (mapM _ es) as [js|] eqn:E; simplify_eq/=.
    constructor. apply mapM_Some in E. rewrite Forall_forall in Hok. rewrite Forall_forall. intros [k w] Hw.
    apply list_elem_of_lookup in Hw as [i Hi]. destruct (Forall2_lookup_r _ _ _ _ _ E Hi) as ([k' x] & Hx & Hxw).
    apply list_elem_of_lookup_2 in Hx. destruct (any_json x) eqn:Ex; simplify_eq/=.
    split; [apply body_quote|]. eapply IH; eauto. by apply (Hok (k', x)).
Qed.

Lemma jstr_wf s : wf (jstr s).
Proof. constructor. apply body_quote. Qed.

Lemma omit_str_wf name s :
  body (s2b name) → Forall (λ m, body m.1 ∧ wf m.2) (omit_str name s).
Proof. intros Hb. destruct s; repeat constructor; [done|]. apply body_quote. Qed.

Definition member_wf (m : bytes * json) : Prop := body m.1 ∧ wf m.2.

Lemma field_cons name v ms :
  body (s2b name) → wf v → Forall member_wf ms → Forall member_wf (field name v :: ms).
Proof. by constructor. Qed.

Ltac fields_wf := repeat (apply field_cons; [simpl; name_body| |]); try exact (List.Forall_nil _).

Lemma source_json_wf s : wf (source_json s).
Proof.
  constructor. apply field_cons; [simpl; name_body|apply jstr_wf|].
  apply Forall_app; split; apply omit_str_wf; simpl; name_body.
Qed.

Lemma scope_json_wf s : wf (scope_json s).
Proof.
  constructor. rewrite !Forall_app. split_and!; apply omit_str_wf; simpl; name_body.
Qed.

Lemma delta_json_wf d j : delta_json d = Some j → wf j.
Proof.
  destruct d as [raw|]; simpl; [|intros; simplify_eq; constructor].
  destruct (parse raw) eqn:E; intros; simplify_eq/=. by eapply wf_html_tree, parse_wf.
Qed.

Lemma metadata_json_wf m ms :
  any_ok (AMap (default [] m)) → metadata_json m = Some ms →
  Forall (λ m, body m.1 ∧ wf m.2) ms.
Proof.
  destruct m as [[|e es]|]; intros Hok H; cbn [metadata_json] in H;
    [by simplify_eq; constructor| |by simplify_eq; constructor].
  destruct (any_json _) as [j|] eqn:E; [|done]. cbn [mbind option_bind] in H. simplify_eq.
  fields_wf. by eapply any_json_wf.
Qed.

Lemma event_json_wf e j : event_ok e → event_json e = Some j → wf j.
Proof.
  intros Hok H. unfold event_json in H.
  destruct (delta_json _) as [d|] eqn:Ed; [|done].
  destruct (metadata_json _) as [ms|] eqn:Em; [|done]. cbn [mbind option_bind] in H.
  destruct Hok as (_&_&_&_&_&_&_&_&_&_&_&Hts&_&Hmd). simplify_eq.
  constructor. rewrite !Forall_app. split_and!.
  - fields_wf; eauto using jstr_wf, source_json_wf, delta_json_wf, num_ok_dec, wf_num.
  - destruct (ev_LogicalTime e =? 0); fields_wf. apply wf_num, num_ok_dec.
  - fields_wf; eauto using scope_json_wf, wf_str.
  - by eapply metadata_json_wf.
Qed.

(** *** Reading the printed members back *)

Definition fold_members {A} (step : bytes → bytes → A → option A)
    (acc : option A) (ms : list (bytes * json)) : option A :=
  foldl (λ acc m, a ← acc; step (unquote m.1) (print m.2) a) acc ms.

Lemma decode_struct_print {A} (step : bytes → bytes → A → option A) old ms :
  wf (JObj ms) → decode_struct step old (print (JObj ms)) = fold_members step (Some old) ms.
Proof.
  intros Hwf. unfold decode_struct. rewrite top_of_print by done. cbn [top_tree].
  unfold fold_members. generalize (Some old). clear Hwf old.
  induction ms as [|[k v] ms IH]; intros acc; [done|]. simpl. apply IH.
Qed.

Lemma fold_members_app {A} (step : bytes → bytes → A → option A) acc l k :
  fold_members step acc (l ++ k) = fold_members step (fold_members step acc l) k.
Proof. apply foldl_app. Qed.

Lemma decode_str_jstr old s : utf8 s → decode_str old (print (jstr s)) = Some s.
Proof.
  intros Hs. unfold decode_str. rewrite top_of_print by apply jstr_wf.
  cbn [jstr top_tree]. by rewrite unquote_quote.
Qed.

Lemma decode_u64_dec old z : u64_ok z → decode_u64 old (print (JNum (dec z))) = Some z.
Proof.
  intros Hz. unfold decode_u64. rewrite top_of_print by (constructor; apply num_ok_dec).
  cbn [top_tree]. by apply parse_uint64_dec.
Qed.

(** One optional string field, present or omitted. *)
Lemma fold_omit_str {A} (step : bytes → bytes → A → option A) name s (set : bytes → A) :
  utf8 s →
  (∀ raw, step (unquote (s2b name)) raw (set []) = x ← decode_str [] raw; Some (set x)) →
  fold_members step (Some (set [])) (omit_str name s) = Some (set s).
Proof.
  intros Hs Hstep. destruct s as [|c s]; [done|]. unfold fold_members. cbn [omit_str foldl].
  cbn [field fst snd mbind option_bind]. rewrite Hstep, decode_str_jstr by done. done.
Qed.

Lemma decode_source s :
  utf8 (src_Layer s) → utf8 (src_ID s) → utf8 (src_ParentID s) →
  decode_struct source_field zero_source (print (source_json s)) = Some s.
Proof.
  intros H1 H2 H3. destruct s as [a b c]. simpl in H1, H2, H3. unfold source_json.
  rewrite decode_struct_print by apply source_json_wf.
  cbn [src_Layer src_ID src_ParentID]. change (?x :: ?l ++ ?k) with ([x] ++ l ++ k).
  rewrite !fold_members_app. unfold fold_members at 3. cbn [foldl field fst snd mbind option_bind].
  change (source_field _ ?raw _) with (x ← decode_str [] raw; Some (mkSource x [] [])).
  rewrite decode_str_jstr by done. cbn [mbind option_bind].
  rewrite (fold_omit_str _ _ _ (λ x, mkSource a x [])) by done.
  by rewrite (fold_omit_str _ _ _ (λ x, mkSource a b x)).
Qed.

Lemma decode_scope s :
  utf8 (scope_RequestID s) → utf8 (scope_RunnerID s) → utf8 (scope_NodeID s) →
  utf8 (scope_SessionID s) →
  decode_struct scope_field zero_scope (print (scope_json s)) = Some s.
Proof.
  intros H1 H2 H3 H4. destruct s as [a b c d]. simpl in H1, H2, H3, H4. unfold scope_json.
  rewrite decode_struct_print by apply scope_json_wf.
  rewrite !fold_members_app. cbn [scope_RequestID scope_RunnerID scope_NodeID scope_SessionID].
  rewrite (fold_omit_str _ _ _ (λ x, mkScope x [] [] [])) by done.
  rewrite (fold_omit_str _ _ _ (λ x, mkScope a x [] [])) by done.
  rewrite (fold_omit_str _ _ _ (λ x, mkScope a b x [])) by done.
  by rewrite (fold_omit_str _ _ _ (λ x, mkScope a b c x)).
Qed.

Lemma any_json_map es j : any_json (AMap es) = Some j → ∃ ms, j = JObj ms.
Proof. cbn [any_json]. destruct (mapM _ es); intros; simplify_eq/=; eauto. Qed.

Lemma decode_metadata_print e es j :
  any_ok (AMap (e :: es)) → any_json (AMap (e :: es)) = Some j →
  decode_metadata None (print j) = norm_metadata (Some (e :: es)).
Proof.
  intros Hok Hj. unfold decode_metadata. rewrite parse_print by by eapply any_json_wf.
  unfold norm_metadata. rewrite Hj. destruct (any_json_map _ _ Hj) as [ms ->].
  cbn [mbind option_bind any_of]. by destruct (mapM _ ms).
Qed.

Lemma fold_event_head e d acc :
  event_ok e → wf d → acc = zero_event →
  fold_members event_field (Some acc)
    [field "event_type" (jstr (ev_EventType e)); field "from" (source_json (ev_From e));
     field "sequence_number" (JNum (dec (ev_SequenceNumber e)));
     field "status" (jstr (ev_Status e)); field "delta" d]
  = Some (mkEvent (ev_EventType e) (ev_From e) (ev_SequenceNumber e) (ev_Status e)
            (Some (print d)) 0 zero_time zero_scope None).
Proof.
  intros (H1&H2&H3&H4&H5&_&_&_&_&H6&_) Hd ->.
  unfold fold_members. cbn [foldl field fst snd mbind option_bind].
  unfold event_field, zero_event. name_tests. rewrite decode_str_jstr by done.
  cbn [mbind option_bind]. rewrite decode_source by done. cbn [mbind option_bind].
  rewrite decode_u64_dec by done. cbn [mbind option_bind]. by rewrite decode_str_jstr.
Qed.

Lemma fold_event_time ty fr sq st de lt :
  u64_ok lt →
  fold_members event_field (Some (mkEvent ty fr sq st de 0 zero_time zero_scope None))
    (if lt =? 0 then [] else [field "logical_time" (JNum (dec lt))])
  = Some (mkEvent ty fr sq st de lt zero_time zero_scope None).
Proof.
  intros Hlt. destruct (Z.eqb_spec lt 0) as [->|]; [done|].
  unfold fold_members. cbn [foldl field fst snd mbind option_bind].
  unfold event_field. name_tests. by rewrite decode_u64_dec.
Qed.

Lemma fold_event_scope ty fr sq st de lt ts sc :
  body ts → time_parse ts = Some ts →
  utf8 (scope_RequestID sc) → utf8 (scope_RunnerID sc) → utf8 (scope_NodeID sc) →
  utf8 (scope_SessionID sc) →
  fold_members event_field (Some (mkEvent ty fr sq st de lt zero_time zero_scope None))
    [field "timestamp" (JStr ts); field "scope" (scope_json sc)]
  = Some (mkEvent ty fr sq st de lt ts sc None).
Proof.
  intros Hb Ht H1 H2 H3 H4.
  unfold fold_members. cbn [foldl field fst snd mbind option_bind].
  unfold event_field. name_tests. unfold decode_time.
  rewrite top_of_print by by constructor. cbn [top_tree]. rewrite Ht.
  cbn [mbind option_bind]. by rewrite decode_scope.
Qed.

Lemma fold_event_metadata ty fr sq st de lt ts sc m ms :
  any_ok (AMap (default [] m)) → metadata_json m = Some ms →
  fold_members event_field (Some (mkEvent ty fr sq st de lt ts sc None)) ms
  = x ← norm_metadata m; Some (mkEvent ty fr sq st de lt ts sc x).
Proof.
  intros Hok Hm. destruct m as [[|e es]|]; cbn [metadata_json] in Hm; [by simplify_eq| |by simplify_eq].
  destruct (any_json (AMap (e :: es))) as [j|] eqn:Ej; [|done].
  cbn [mbind option_bind] in Hm. simplify_eq.
  unfold fold_members. cbn [foldl field fst snd mbind option_bind].
  unfold event_field. name_tests. by rewrite (decode_metadata_print e es).
Qed.

Lemma norm_delta_json d j : delta_json d = Some j → norm_delta d = Some (print j).
Proof.
  destruct d as [raw|]; cbn [delta_json norm_delta]; [|by intros; simplify_eq].
  unfold compact. destruct (parse raw); intros; by simplify_eq/=.
Qed.

Lemma decode_event_json e j :
  event_ok e → event_json e = Some j → decode_event zero_event (print j) = norm_event e.
Proof.
  intros Hok Hj. pose proof (event_json_wf _ _ Hok Hj) as Hwf. unfold event_json in Hj.
  destruct (delta_json _) as [d|] eqn:Ed; [|done].
  destruct (metadata_json _) as [ms|] eqn:Em; [|done].
  cbn [mbind option_bind] in Hj. simplify_eq.
  unfold decode_event. rewrite decode_struct_print by done. rewrite !fold_members_app.
  rewrite fold_event_head by eauto using delta_json_wf.
  destruct Hok as (_&_&_&_&_&H1&H2&H3&H4&_&Hlt&Hb&Ht&Hmd).
  rewrite fold_event_time, fold_event_scope by done.
  rewrite (fold_event_metadata _ _ _ _ _ _ _ _ _ _ Hmd Em).
  unfold norm_event. by rewrite (norm_delta_json _ _ Ed).
Qed.

Lemma decode_elems_json evs js :
  Forall event_ok evs → mapM event_json evs = Some js →
  decode_elems [] (print <$> js) = mapM norm_event evs.
Proof.
  intros Hok. revert js. induction Hok as [|e evs He _ IH]; intros js H; [by injection H as <-|].
  cbn [mapM] in H. destruct (event_json e) as [j|] eqn:Ej; [|done].
  cbn [mbind option_bind] in H.
  destruct (mapM event_json evs) as [js'|] eqn:E; [|done].
  cbn [mbind option_bind mret option_ret] in H. injection H as <-.
  cbn [fmap list_fmap decode_elems mapM]. change (default _ (head [])) with zero_event.
  rewrite (decode_event_json _ _ He Ej).
  destruct (norm_event e); [|done]. cbn [mbind option_bind tail].
  by rewrite (IH _ eq_refl).
Qed.

Lemma mapM_wf evs js :
  Forall event_ok evs → mapM event_json evs = Some js → Forall wf js.
Proof.
  intros Hok H. apply mapM_Some in H. induction H; constructor; inversion Hok; subst; auto.
  by eapply event_json_wf.
Qed.

Lemma decode_encode_batch b raw :
  u64_ok (TickID b) → Forall event_ok (Events b) → EncodeEventBatch b = Ok raw →
  DecodeEventBatch raw = match mapM norm_event (Events b) with
                         | Some evs => Ok (mkBatch (TickID b) evs)
                         | None => Err ErrDecode
                         end.
Proof.
  intros Ht Hok H. unfold EncodeEventBatch, batch_json in H.
  destruct (mapM event_json (Events b)) as [js|] eqn:E; [|done].
  cbn [mbind option_bind] in H. apply (inj Ok) in H as <-.
  pose proof (mapM_wf _ _ Hok E) as Hjs.
  assert (wf (match js with [] => JNull | _ => JArr js end)) as Hwf by (destruct js; auto with json).
  unfold DecodeEventBatch. rewrite decode_struct_print.
  2:{ constructor. fields_wf; [apply wf_num, num_ok_dec|done]. }
  unfold fold_members. cbn [foldl field fst snd mbind option_bind].
  unfold batch_field. name_tests. rewrite decode_u64_dec by done. cbn [mbind option_bind].
  rewrite top_of_print by done. rewrite <-(decode_elems_json _ _ Hok E).
  destruct js as [|j js]; [done|]. cbn [top_tree fmap list_fmap].
  destruct (decode_elems _ _) as [es|]; [|done]. cbn [mbind option_bind].
  by rewrite drop_nil, app_nil_r, firstn_all.
Qed.
End Decode.

(** An encoded batch, expanded from its carrier. *)
Lemma expand_carrier `{GoStd} (b : EventBatch) (raw : bytes) (carrier : Event) :
  u64_ok (TickID b) → Forall event_ok (Events b) → Events b ≠ [] →
  EncodeEventBatch b = Ok raw →
  ev_EventType carrier = EventMergeBundle → ev_Delta carrier = Some raw →
  ExpandBundleEvent carrier
  = match mapM norm_event (Events b) with
    | Some evs => Ok ((λ e, set_scope (mergeScope (ev_Scope carrier) (ev_Scope e)) e) <$> evs)
    | None => Err ErrDecode
    end.
Proof.
  intros Ht Hok Hne Henc Hty Hd. unfold ExpandBundleEvent, is_bundle.
  rewrite bool_decide_eq_true_2 by done. cbn [negb]. rewrite Hd.
  change (default [] (Some raw)) with raw.
  rewrite (decode_encode_batch _ _ Ht Hok Henc).
  destruct (mapM norm_event (Events b)) as [evs|] eqn:E; [|done].
  apply mapM_Some in E. by destruct E.
Qed.

(** ** Properties *)

(** round trip. A carrier whose delta is the encoding of a non-empty batch expands to
    the batch's events in order, each as JSON hands it on ([norm_event]: same fields, delta
    compacted and HTML-escaped, metadata as decoded values), with the scope fields they
    leave empty taken from the carrier; the expansion fails exactly when some metadata
    number has no float64. *)
Theorem Expand_encoded `{GoStd} (b : EventBatch) (raw : bytes) (carrier : Event) :
  u64_ok (TickID b) → Forall event_ok (Events b) → Events b ≠ [] →
  EncodeEventBatch b = Ok raw →
  ev_EventType carrier = EventMergeBundle → ev_Delta carrier = Some raw →
  ExpandBundleEvent carrier
  = match mapM norm_event (Events b) with
    | Some evs => Ok ((λ e, set_scope (mergeScope (ev_Scope carrier) (ev_Scope e)) e) <$> evs)
    | None => Err ErrDecode
    end.
Proof. apply expand_carrier. Qed.

(** [FilterBundleEvent] selects from the expansion and keeps its order; an event that
    is no carrier is its own expansion. *)
Theorem FilterBundleEvent_spec `{GoStd} (event : Event) (f : Filter) (es : list Event) :
  FilterBundleEvent event f = Ok es ↔
  ∃ all, ExpandBundleEvent event = Ok all ∧ es `sublist_of` all ∧
    es = List.filter (Match f) all ∧
    (ev_EventType event ≠ EventMergeBundle → all = [event]).
Proof.
  unfold FilterBundleEvent. destruct (ExpandBundleEvent event) as [all|e] eqn:E.
  - split.
    + intros [= <-]. exists all. split_and!; [done| |done|].
      * clear E. induction all as [|x all IH]; simpl; [done|].
        destruct (Match f x); [by apply sublist_skip|by apply sublist_cons].
      * intros Hne. unfold ExpandBundleEvent, is_bundle in E.
        rewrite bool_decide_eq_false_2 in E by done. by injection E as <-.
    + intros (? & [= <-] & _ & -> & _). done.
  - split; [done|]. by intros (? & ? & _).
Qed.

(** *** A batch on concrete events *)

Definition sample_nested : Event :=
  mkEvent (s2b "llm.output.delta") (mkSource (s2b "skill") (s2b "s1") []) 7 StatusRunning
    (Some (s2b " [1, { }, true] ")) 3 (s2b "2024-05-01T00:00:00Z")
    (mkScope [] (s2b "r-1") [] []) (Some [(s2b "upstream_sequence_number", AInt 7)]).
Definition sample_batch : EventBatch := mkBatch 1 [sample_nested; sample_nested].
Definition sample_carrier (raw : bytes) : Event :=
  mkEvent EventMergeBundle (mkSource (s2b "hub") [] []) 9 StatusCompleted (Some raw) 9
    (s2b "2024-05-01T00:00:01Z") (mkScope (s2b "q-1") [] [] []) None.

(** ASCII text is UTF-8. *)
Lemma utf8_ascii s : forallb (λ c, (code c <? 128)%N) s = true → utf8 s.
Proof.
  induction s as [|c s IH]; simpl; [constructor|]. intros [Hc Hs]%andb_true_iff.
  apply (utf8_seq [c]); [|done|by apply IH]. unfold utf8_len. apply N.ltb_lt in Hc.
  cbn zeta. by rewrite (proj2 (N.leb_le _ _)) by lia.
Qed.

Lemma sample_nested_ok : @event_ok plain_std sample_nested.
Proof.
  unfold event_ok. split_and!; try (apply utf8_ascii; reflexivity); try (split; vm_compute; congruence).
  - simpl. name_body.
  - cbn; tauto.
Qed.

Lemma Expand_encoded_witness :
  ∃ raw evs, EncodeEventBatch sample_batch = Ok raw ∧
    @ExpandBundleEvent plain_std (sample_carrier raw) = Ok evs ∧
    map ev_Delta evs = [Some (s2b "[1,{},true]"); Some (s2b "[1,{},true]")] ∧
    map (scope_RequestID ∘ ev_Scope) evs = [s2b "q-1"; s2b "q-1"].
Proof.
  destruct (EncodeEventBatch sample_batch) as [raw|] eqn:E; [|vm_compute in E; discriminate].
  pose proof (@Expand_encoded plain_std sample_batch raw (sample_carrier raw)) as H.
  eexists raw, _. split; [reflexivity|]. split; [rewrite H|].
  - vm_compute. reflexivity.
  - split; vm_compute; congruence.
  - do 2 (constructor; [apply sample_nested_ok|]). constructor.
  - discriminate.
  - exact E.
  - reflexivity.
  - reflexivity.
  - split; vm_compute; reflexivity.
Defined.
