(* ===== verification/Plan.v ===== *)
(** Plans and planner replies ([src/runner/plan.go], [src/runner/plan_skill.go]):
    the plan records and their copies, finding the JSON object inside a model's
    free-form answer, previews for error messages, and the review and replan
    exchanges with one retry. *)
From S2P Require Import Prelude Json GoText Text Event Bundle.
#[local] Open Scope char_scope.
#[local] Infix "=?" := Ascii.eqb : char_scope.

(** ** Plans

    [None] is a nil slice of nodes; an empty [DependsOn] stands for both the
    nil and the empty slice, which JSON omits alike. *)

Record CoarsePlanNode := mkPNode {
  pn_ID : bytes; pn_SkillName : bytes; pn_TaskDescription : bytes; pn_DependsOn : list bytes }.
#[export] Instance plan_node_eq_dec : EqDecision CoarsePlanNode. Proof. solve_decision. Defined.
Record CoarsePlan := mkPlan {
  pl_Request : bytes; pl_RunnerID : bytes; pl_Nodes : option (list CoarsePlanNode) }.
#[export] Instance plan_eq_dec : EqDecision CoarsePlan. Proof. solve_decision. Defined.
Record PlanReview := mkReview { rv_Approved : bool; rv_Reason : bytes }.
#[export] Instance review_eq_dec : EqDecision PlanReview. Proof. solve_decision. Defined.

(** A nil slice of nodes comes back as an empty one. *)
Definition CloneCoarsePlan (plan : option CoarsePlan) : option CoarsePlan :=
  (λ p, mkPlan (pl_Request p) (pl_RunnerID p) (Some (default [] (pl_Nodes p)))) <$> plan.

(** ** Finding a JSON object in an answer *)

(** The text from here to the brace that closes the first one opened. *)
Fixpoint scan_balanced (depth : Z) (inString escape : bool) (s : bytes) : option bytes :=
  match s with
  | [] => None
  | c :: r =>
      if escape then cons c <$> scan_balanced depth inString false r
      else if c =? bsl then cons c <$> scan_balanced depth inString inString r
      else if c =? dq then cons c <$> scan_balanced depth (negb inString) false r
      else if inString then cons c <$> scan_balanced depth inString false r
      else if c =? "{" then cons c <$> scan_balanced (depth + 1) inString false r
      else if c =? "}" then
        if (depth - 1 =? 0)%Z then Some [c]
        else cons c <$> scan_balanced (depth - 1) inString false r
      else cons c <$> scan_balanced depth inString false r
  end.

Definition extractBalancedObject (text : bytes) : bytes :=
  match IndexByte text "{" with
  | None => []
  | Some start => default [] (scan_balanced 0 false false (drop start text))
  end.

Section Plan.
(** [unicode.IsLetter] or [unicode.IsDigit] of a rune beyond ASCII, given by
    its encoding. *)
Variable unicode_alnum : bytes → bool.

Definition ascii_alnum (c : ascii) : bool :=
  is_digit c || in_range 65 90 c || in_range 97 122 c.

(** Every rune is a letter, a digit, an underscore or a hyphen; an invalid
    byte is the replacement character, which is none of these. *)
Fixpoint ident_from (k : nat) (s : bytes) : bool :=
  match s with
  | [] => true
  | c :: r =>
      match k with
      | S k' => ident_from k' r
      | O =>
          if (code c <? 128)%N then (ascii_alnum c || (c =? "_") || (c =? "-")) && ident_from 0 r
          else match utf8_len s with
               | O => false
               | n => unicode_alnum (take n s) && ident_from (n - 1) r
               end
      end
  end.
Definition isIdentifier (text : bytes) : bool :=
  match text with [] => false | _ => ident_from 0 text end.

Definition fence : bytes := s2b "```".

Definition stripCodeFences (text : bytes) : bytes :=
  match after_prefix text fence with
  | None => text
  | Some rest =>
      let rest :=
        match IndexByte rest "010" with
        | Some idx =>
            let first := TrimSpace (take idx rest) in
            if bool_decide (first = []) || isIdentifier first then drop (S idx) rest else rest
        | None => rest
        end in
      match LastIndex rest fence with
      | Some end_ => take end_ rest
      | None => rest
      end
  end.

Definition ExtractJSONObject (raw : bytes) : bytes :=
  let trimmed := TrimSpace raw in
  if bool_decide (trimmed = []) then []
  else
    let stripped := TrimSpace (stripCodeFences trimmed) in
    if bool_decide (stripped = []) then [] else extractBalancedObject stripped.

(** ** Previews *)

Definition ellipsis : bytes := ["226"; "128"; "166"].

Definition SummarizeRaw (raw : bytes) (max : Z) : bytes :=
  let max := if (max <=? 0)%Z then 200%Z else max in
  let collapsed := Join (Fields raw) [" "] in
  if (Z.of_nat (List.length collapsed) <=? max)%Z then collapsed
  else take (Z.to_nat max) collapsed ++ ellipsis.

(** ** The review and replan replies *)

(** Why a reply was refused, with the preview of the reply. *)
Inductive parse_err :=
| ErrNoObject (preview : bytes) | ErrUnmarshal (preview : bytes) | ErrIncomplete (preview : bytes).
#[export] Instance parse_err_eq_dec : EqDecision parse_err. Proof. solve_decision. Defined.

(** A pointer member: [null] makes it nil, a value is decoded over the old
    target, which is zero when the pointer is nil. *)
Definition decode_ptr {A} (zero : A) (dec_ : A → bytes → option A) (old : option A) (raw : bytes)
  : option (option A) :=
  match top_of raw with
  | Some TNull => Some None
  | _ => Some <$> dec_ (default zero old) raw
  end.

Definition decode_bool (old : bool) (raw : bytes) : option bool :=
  match top_of raw with
  | Some TNull => Some old
  | Some (TBool b) => Some b
  | _ => None
  end.

(** [Reject]: summary and analysis. *)
Definition reject_field (k raw : bytes) (r : bytes * bytes) : option (bytes * bytes) :=
  if field_is "summary" k then x ← decode_str r.1 raw; Some (x, r.2)
  else if field_is "analysis" k then x ← decode_str r.2 raw; Some (r.1, x)
  else Some r.

Record review_response := mkRResp {
  rr_Approved : option bool; rr_Reason : bytes; rr_Reject : option (bytes * bytes) }.

Definition review_field (k raw : bytes) (r : review_response) : option review_response :=
  let '(mkRResp a b c) := r in
  if field_is "approved" k then x ← decode_ptr false decode_bool a raw; Some (mkRResp x b c)
  else if field_is "reason" k then x ← decode_str b raw; Some (mkRResp a x c)
  else if field_is "reject" k then
    x ← decode_ptr ([], []) (decode_struct reject_field) c raw; Some (mkRResp a b x)
  else Some r.

(** The reason a rejection gives. *)
Definition reject_reason (summary analysis : bytes) : bytes :=
  let reason := TrimSpace summary in
  let analysis := TrimSpace analysis in
  if bool_decide (reason = []) then analysis
  else if bool_decide (analysis = []) then reason
  else reason ++ s2b ": " ++ analysis.

(** The checks after unmarshalling. *)
Definition review_decision (preview : bytes) (out : review_response) : res parse_err PlanReview :=
  match rr_Reject out with
  | Some (summary, analysis) => Ok (mkReview false (reject_reason summary analysis))
  | None =>
      match rr_Approved out with
      | None => Err (ErrIncomplete preview)
      | Some b => Ok (mkReview b (TrimSpace (rr_Reason out)))
      end
  end.

Definition parsePlannerReviewOutput (raw : bytes) : res parse_err PlanReview :=
  let preview := SummarizeRaw raw 200 in
  let cleaned := ExtractJSONObject raw in
  if bool_decide (cleaned = []) then Err (ErrNoObject preview)
  else match decode_struct review_field (mkRResp None [] None) cleaned with
       | None => Err (ErrUnmarshal preview)
       | Some out => review_decision preview out
       end.

(** String slices: an element decodes over what the backing array holds. *)
Fixpoint decode_strs (backing : list bytes) (raws : list bytes) : option (list bytes) :=
  match raws with
  | [] => Some []
  | raw :: raws' =>
      x ← decode_str (default [] (head backing)) raw;
      xs ← decode_strs (tail backing) raws'; Some (x :: xs)
  end.

(** A plan node under decoding: [DependsOn] with its backing array. *)
Record pnode_dec := mkPDec { pd_node : CoarsePlanNode; pd_backing : list bytes }.
Definition zero_pdec : pnode_dec := mkPDec (mkPNode [] [] [] []) [].

Definition pnode_field (k raw : bytes) (d : pnode_dec) : option pnode_dec :=
  let '(mkPDec (mkPNode i s t deps) back) := d in
  if field_is "id" k then x ← decode_str i raw; Some (mkPDec (mkPNode x s t deps) back)
  else if field_is "skill_name" k then
    x ← decode_str s raw; Some (mkPDec (mkPNode i x t deps) back)
  else if field_is "task_description" k then
    x ← decode_str t raw; Some (mkPDec (mkPNode i s x deps) back)
  else if field_is "depends_on" k then
    match top_of raw with
    | Some TNull | Some (TArr []) => Some (mkPDec (mkPNode i s t []) [])
    | Some (TArr raws) =>
        xs ← decode_strs back raws;
        Some (mkPDec (mkPNode i s t xs) (xs ++ drop (List.length xs) back))
    | _ => None
    end
  else Some d.

Fixpoint decode_pnodes (backing : list pnode_dec) (raws : list bytes) : option (list pnode_dec) :=
  match raws with
  | [] => Some []
  | raw :: raws' =>
      e ← decode_struct pnode_field (default zero_pdec (head backing)) raw;
      es ← decode_pnodes (tail backing) raws'; Some (e :: es)
  end.

(** A plan under decoding: the request, the runner id, the node slice's length
    ([None] for nil) and its backing array. *)
Definition plan_dec : Type := bytes * bytes * option nat * list pnode_dec.
Definition zero_plan_dec : plan_dec := ([], [], None, []).

Definition plan_field (k raw : bytes) (d : plan_dec) : option plan_dec :=
  let '(rq, rid, n, back) := d in
  if field_is "request" k then x ← decode_str rq raw; Some (x, rid, n, back)
  else if field_is "runner_id" k then x ← decode_str rid raw; Some (rq, x, n, back)
  else if field_is "nodes" k then
    match top_of raw with
    | Some TNull => Some (rq, rid, None, [])
    | Some (TArr []) => Some (rq, rid, Some 0%nat, [])
    | Some (TArr raws) =>
        es ← decode_pnodes back raws;
        Some (rq, rid, Some (List.length es), es ++ drop (List.length es) back)
    | _ => None
    end
  else Some d.

Definition plan_of (d : plan_dec) : CoarsePlan :=
  let '(rq, rid, n, back) := d in
  mkPlan rq rid ((λ n, pd_node <$> take n back) <$> n).

Definition replan_field (k raw : bytes) (p : option plan_dec) : option (option plan_dec) :=
  if field_is "plan" k then decode_ptr zero_plan_dec (decode_struct plan_field) p raw
  else Some p.

Definition parsePlannerReplanOutput (raw : bytes) : res parse_err CoarsePlan :=
  let preview := SummarizeRaw raw 200 in
  let cleaned := ExtractJSONObject raw in
  if bool_decide (cleaned = []) then Err (ErrNoObject preview)
  else match decode_struct replan_field None cleaned with
       | None => Err (ErrUnmarshal preview)
       | Some None => Err (ErrIncomplete preview)
       | Some (Some d) => Ok (plan_of d)
       end.

(** ** One retry

    The planner skill answers by call number; [retry_prompt] renders the prompt
    of the second call. *)
Variable retry_prompt : parse_err → bytes.

(** What stops an exchange: a missing skill or node builder, a prompt that does
    not marshal, the skill's error, the parse error that persisted after the
    retry, or the node builder's error. *)
Inductive exchange_err :=
| ErrNoSkill | ErrNoBuilder | ErrMarshal (e : bytes) | ErrSkill (e : bytes)
| ErrAfterRetry (e : parse_err) | ErrBuild (e : bytes).

(** [None] is an absent skill. *)
Abbreviation skill := (option (nat → bytes → res bytes bytes)).

(** The result, and the prompts sent. *)
Definition ask_with_retry {A} (run : nat → bytes → res bytes bytes)
    (parse_reply : bytes → res parse_err A) (prompt : bytes) : res exchange_err A * list bytes :=
  match run 0%nat prompt with
  | Err e => (Err (ErrSkill e), [prompt])
  | Ok raw =>
      match parse_reply raw with
      | Ok a => (Ok a, [prompt])
      | Err pe =>
          let retry := retry_prompt pe in
          match run 1%nat retry with
          | Err e => (Err (ErrSkill e), [prompt; retry])
          | Ok raw =>
              match parse_reply raw with
              | Ok a => (Ok a, [prompt; retry])
              | Err pe => (Err (ErrAfterRetry pe), [prompt; retry])
              end
          end
      end
  end.

(** [prompt] is what marshalling the review input gave. *)
Definition reviewPolishedPlan (plannerSkill : skill) (prompt : res bytes bytes)
  : res exchange_err PlanReview * list bytes :=
  match plannerSkill, prompt with
  | None, _ => (Err ErrNoSkill, [])
  | Some _, Err e => (Err (ErrMarshal e), [])
  | Some run, Ok p => ask_with_retry run parsePlannerReviewOutput p
  end.

(** [planNodeBuilder] materialises the revised plan. *)
Definition replanPolishedPlan {Nodes} (plannerSkill : skill)
    (planNodeBuilder : option (CoarsePlan → res bytes Nodes)) (prompt : res bytes bytes)
  : res exchange_err (CoarsePlan * Nodes) * list bytes :=
  match plannerSkill, planNodeBuilder, prompt with
  | None, _, _ => (Err ErrNoSkill, [])
  | Some _, None, _ => (Err ErrNoBuilder, [])
  | Some _, Some _, Err e => (Err (ErrMarshal e), [])
  | Some run, Some build, Ok p =>
      let '(r, prompts) := ask_with_retry run parsePlannerReplanOutput p in
      (let? plan := r in
       match build plan with Ok nodes => Ok (plan, nodes) | Err e => Err (ErrBuild e) end,
       prompts)
  end.
End Plan.

(** ** How a plan is marshalled *)

Definition strs_json (ss : list bytes) : json := JArr (jstr <$> ss).
Definition pnode_json (n : CoarsePlanNode) : json :=
  JObj ([field "id" (jstr (pn_ID n)); field "skill_name" (jstr (pn_SkillName n));
         field "task_description" (jstr (pn_TaskDescription n))]
        ++ match pn_DependsOn n with [] => [] | ds => [field "depends_on" (strs_json ds)] end).
Definition plan_json (p : CoarsePlan) : json :=
  JObj ([field "request" (jstr (pl_Request p))] ++ omit_str "runner_id" (pl_RunnerID p)
        ++ [field "nodes" (match pl_Nodes p with
                           | None => JNull | Some ns => JArr (pnode_json <$> ns) end)]).
