(* ===== verification/PlanFacts.v ===== *)
(** What the planner exchange promises: the object of an answer is found
    whatever prose or code fence surrounds it, plans and verdicts read back as
    they were written, previews are bounded, and a reply is retried once. *)
From S2P Require Import Prelude Json GoText Text Event Bundle Plan.
#[local] Open Scope char_scope.

(** ** Texts the brace scanner copies *)

Definition copies (d : Z) (s : bytes) : Prop :=
  ∀ r, scan_balanced d false false (s ++ r) = app s <$> scan_balanced d false false r.

Lemma fmap_app_app (a b : bytes) (x : option bytes) :
  app a <$> (app b <$> x) = app (a ++ b) <$> x.
Proof. destruct x; [|done]. simpl. by rewrite <-app_assoc. Qed.
Lemma fmap_cons_app c (b : bytes) (x : option bytes) :
  cons c <$> (app b <$> x) = app (c :: b) <$> x.
Proof. by destruct x. Qed.

Lemma copies_nil d : copies d [].
Proof. intros r. simpl. by destruct (scan_balanced d false false r). Qed.
Lemma copies_app d a b : copies d a → copies d b → copies d (a ++ b).
Proof. intros Ha Hb r. by rewrite <-app_assoc, Ha, Hb, fmap_app_app. Qed.

Definition ordinary (c : ascii) : Prop := c ≠ bsl ∧ c ≠ dq ∧ c ≠ "{" ∧ c ≠ "}".

Lemma copies_ordinary d s : Forall ordinary s → copies d s.
Proof.
  induction 1 as [|c s (H1 & H2 & H3 & H4) _ IH]; [apply copies_nil|]. intros r.
  cbn [app scan_balanced]. do 4 (rewrite (proj2 (Ascii.eqb_neq _ _)) by done).
  by rewrite IH, fmap_cons_app.
Qed.

Lemma scan_balanced_body d b r : body b →
  scan_balanced d true false (b ++ r) = app b <$> scan_balanced d true false r.
Proof.
  intros Hb. revert r.
  assert (∀ c s r, c ≠ dq → c ≠ bsl →
    (∀ r, scan_balanced d true false (s ++ r) = app s <$> scan_balanced d true false r) →
    scan_balanced d true false ((c :: s) ++ r) = app (c :: s) <$> scan_balanced d true false r) as Hc.
  { intros c s r H1 H2 IH. cbn [app scan_balanced].
    do 2 (rewrite (proj2 (Ascii.eqb_neq _ _)) by done). by rewrite IH, fmap_cons_app. }
  assert (∀ c s r,
    (∀ r, scan_balanced d true false (s ++ r) = app s <$> scan_balanced d true false r) →
    scan_balanced d true false ((bsl :: c :: s) ++ r) = app (bsl :: c :: s) <$> scan_balanced d true false r) as He.
  { intros c s r IH. cbn [app scan_balanced]. change (bsl =? bsl)%char with true. cbn iota.
    by rewrite IH, !fmap_cons_app. }
  induction Hb as [|c b H1 H2 _ _ IH|e b _ _ IH|h1 h2 h3 h4 b E1 E2 E3 E4 _ IH]; intros r.
  - simpl. by destruct (scan_balanced d true false r).
  - by apply Hc.
  - by apply He.
  - apply He. clear r.
    assert (∀ h, is_hex h = true → h ≠ dq ∧ h ≠ bsl) as Hh
      by (intros h Hh; by destruct h as [[] [] [] [] [] [] [] []]).
    do 4 (intros r; apply Hc; [by apply Hh|by apply Hh|]; clear r). done.
Qed.

Lemma copies_str d b : body b → copies d (dq :: b ++ [dq]).
Proof.
  intros Hb r. cbn [app scan_balanced]. change (dq =? bsl)%char with false.
  change (dq =? dq)%char with true. cbn iota. rewrite <-app_assoc, scan_balanced_body by done.
  cbn [negb app scan_balanced]. change (dq =? bsl)%char with false.
  change (dq =? dq)%char with true. cbn iota. change (negb true) with false.
  destruct (scan_balanced d false false r); [|done]. simpl. by rewrite <-app_assoc.
Qed.

Lemma copies_braces d s : 1 ≤ d → copies (d + 1) s → copies d ("{" :: s ++ ["}"]).
Proof.
  intros Hd Hs r. cbn [app scan_balanced]. change ("{" =? bsl)%char with false.
  change ("{" =? dq)%char with false. cbn iota. change ("{" =? "{")%char with true. cbn iota.
  rewrite <-app_assoc, Hs. cbn [app scan_balanced]. change ("}" =? bsl)%char with false.
  change ("}" =? dq)%char with false. change ("}" =? "{")%char with false.
  change ("}" =? "}")%char with true. cbn iota.
  destruct (Z.eqb_spec (d + 1 - 1) 0); [lia|]. rewrite Z.add_simpl_r.
  destruct (scan_balanced d false false r); [|done]. simpl. by rewrite <-app_assoc.
Qed.

(** The first brace opened is the one the scan ends with. *)
Lemma scan_braces s r : copies 1 s →
  scan_balanced 0 false false ("{" :: s ++ "}" :: r) = Some ("{" :: s ++ ["}"]).
Proof.
  intros Hs. cbn [app scan_balanced]. change ("{" =? bsl)%char with false.
  change ("{" =? dq)%char with false. cbn iota. change ("{" =? "{")%char with true. cbn iota.
  change (0 + 1) with 1. by rewrite Hs.
Qed.

(** ** Printed JSON is copied *)

Lemma num_ordinary l : num_ok l → Forall ordinary l.
Proof.
  intros H%num_chars. eapply List.Forall_impl; [|exact H].
  intros c Hc. by destruct c as [[] [] [] [] [] [] [] []].
Qed.

Lemma copies_mjoin {A} d (f : A → bytes) l :
  (∀ x, x ∈ l → copies d (f x)) → copies d (mjoin (f <$> l)).
Proof.
  induction l as [|x l IH]; intros H; [apply copies_nil|]. cbn [fmap list_fmap mjoin list_join].
  apply copies_app; [apply H; by left|]. apply IH. intros y Hy. apply H. by right.
Qed.

Lemma copies_cons d c s : ordinary c → copies d s → copies d (c :: s).
Proof. intros Hc Hs. apply (copies_app d [c]); [|done]. apply copies_ordinary. by constructor. Qed.

Lemma copies_member d k v : body k → copies d (print v) → copies d (dq :: k ++ dq :: ":" :: print v).
Proof.
  intros Hk Hv.
  assert (dq :: k ++ dq :: ":" :: print v = (dq :: k ++ [dq]) ++ ":" :: print v) as ->
    by (simpl; by rewrite <-app_assoc).
  apply copies_app; [by apply copies_str|]. by apply copies_cons.
Qed.

(** The text between the braces of a printed object. *)
Definition inner_members (ms : list (bytes * json)) : bytes :=
  match ms with
  | [] => []
  | (k, v) :: ms => dq :: k ++ dq :: ":" :: print v ++ print_mtail ms
  end.

Lemma print_obj_inner ms r : print (JObj ms) ++ r = "{" :: inner_members ms ++ "}" :: r.
Proof.
  destruct ms as [|[k v] ms]; [done|]. rewrite print_obj. simpl. rewrite <-!app_assoc. simpl.
  by rewrite <-!app_assoc.
Qed.

Lemma copies_inner d ms :
  (∀ m, m ∈ ms → body m.1 ∧ copies d (print m.2)) → copies d (inner_members ms).
Proof.
  destruct ms as [|[k v] ms]; intros H; [apply copies_nil|]. simpl.
  assert (dq :: k ++ dq :: ":" :: print v ++ print_mtail ms
    = (dq :: k ++ dq :: ":" :: print v) ++ print_mtail ms) as ->
    by (simpl; rewrite <-app_assoc; done).
  destruct (H (k, v)) as [Hk Hv]; [by left|].
  apply copies_app; [by apply copies_member|]. apply copies_mjoin. intros [k' w] Hm.
  destruct (H (k', w)) as [Hk' Hv']; [by right|]. apply copies_cons; [done|]. by apply copies_member.
Qed.

Lemma copies_print v : wf v → ∀ d, 1 ≤ d → copies d (print v).
Proof.
  induction v as [v IH] using (induction_ltof1 _ jsize). intros Hwf d Hd.
  destruct Hwf as [|b|l Hl|b Hb|vs Hvs|ms Hms].
  - apply copies_ordinary. repeat constructor; done.
  - apply copies_ordinary. destruct b; repeat constructor; done.
  - by apply copies_ordinary, num_ordinary.
  - by apply copies_str.
  - assert (∀ w, w ∈ vs → copies d (print w)) as H.
    { intros w Hw. apply IH; [|by eapply List.Forall_forall in Hvs; [|by apply list_elem_of_In]|done].
      unfold ltof. simpl. pose proof (sum_list_with_in w (λ w, S (jsize w)) vs Hw). simpl in *. lia. }
    destruct vs as [|w vs]; [by apply copies_ordinary; repeat constructor|].
    rewrite <-(app_nil_r (print _)), print_arr.
    apply copies_cons; [done|]. apply copies_app; [apply H; by left|]. apply copies_app.
    + apply copies_mjoin. intros x Hx. apply copies_cons; [done|]. apply H. by right.
    + by apply copies_ordinary; repeat constructor.
  - rewrite <-(app_nil_r (print _)), print_obj_inner. apply copies_braces; [done|].
    apply copies_inner. intros [k w] Hm.
    pose proof (proj1 (List.Forall_forall _ _) Hms (k, w) (proj1 (list_elem_of_In _ _) Hm)) as [Hk Hw].
    split; [done|]. apply IH; [|done|lia].
    unfold ltof. simpl. pose proof (sum_list_with_in (k, w) (λ m, S (jsize m.2)) ms Hm). simpl in *. lia.
Qed.

Lemma extract_print pre ms post : wf (JObj ms) → "{"%char ∉ pre →
  extractBalancedObject (pre ++ print (JObj ms) ++ post) = print (JObj ms).
Proof.
  intros Hwf Hpre. unfold extractBalancedObject. rewrite print_obj_inner.
  rewrite IndexByte_app by done. rewrite drop_app_length. rewrite scan_braces.
  - cbn [default]. by rewrite <-(app_nil_r (print _)), print_obj_inner.
  - apply copies_inner. inversion Hwf as [| | | | |? Hms]. subst. intros [k w] Hm.
    pose proof (proj1 (List.Forall_forall _ _) Hms (k, w) (proj1 (list_elem_of_In _ _) Hm)) as [Hk Hw].
    split; [done|]. by apply copies_print.
Qed.

(** Trimming around an object removes spaces outside it only. *)
Lemma trim_around pre ms post :
  ∃ pre' post', TrimSpace (pre ++ print (JObj ms) ++ post) = pre' ++ print (JObj ms) ++ post' ∧
    pre' `suffix_of` pre.
Proof.
  rewrite print_obj_inner.
  destruct (TrimSpace_visible pre "{" (inner_members ms) "}" post) as (a & b & E & Ha & _); [done|done|].
  exists a, b. split; [|done]. rewrite print_obj_inner. exact E.
Qed.

Lemma suffix_notin (a b : bytes) c : a `suffix_of` b → c ∉ b → c ∉ a.
Proof. intros [k ->] H Hc. apply H, elem_of_app. by right. Qed.

Lemma print_obj_nonnil pre ms post : pre ++ print (JObj ms) ++ post ≠ [].
Proof. rewrite print_obj_inner. by destruct pre. Qed.

Lemma print_obj_ne ms : print (JObj ms) ≠ [].
Proof. by destruct ms as [|[]]. Qed.

Lemma ExtractJSONObject_stripped ua raw pre ms post :
  wf (JObj ms) → "{"%char ∉ pre → TrimSpace raw ≠ [] →
  stripCodeFences ua (TrimSpace raw) = pre ++ print (JObj ms) ++ post →
  ExtractJSONObject ua raw = print (JObj ms).
Proof.
  intros Hwf Hpre Hne Hs. unfold ExtractJSONObject. rewrite bool_decide_eq_false_2 by done.
  rewrite Hs. destruct (trim_around pre ms post) as (pre' & post' & -> & Hp).
  rewrite bool_decide_eq_false_2 by apply print_obj_nonnil.
  apply extract_print; [done|]. by eapply suffix_notin.
Qed.

Lemma stripCodeFences_fenced ua tag text :
  "010"%char ∉ tag → TrimSpace tag = [] ∨ isIdentifier ua (TrimSpace tag) = true →
  stripCodeFences ua (fence ++ tag ++ "010" :: text ++ fence) = text.
Proof.
  intros Hnl Htag. unfold stripCodeFences.
  rewrite (proj2 (after_prefix_spec _ fence (tag ++ "010" :: text ++ fence))) by done.
  rewrite IndexByte_app by done. rewrite take_app_length.
  assert (bool_decide (TrimSpace tag = []) || isIdentifier ua (TrimSpace tag) = true) as ->.
  { destruct Htag as [->| ->]; [done|by rewrite orb_true_r]. }
  assert (drop (S (List.length tag)) (tag ++ "010" :: text ++ fence) = text ++ fence) as ->.
  { replace (S (List.length tag)) with (List.length tag + 1)%nat by lia.
    by rewrite <-drop_drop, drop_app_length. }
  rewrite LastIndex_end by done. by rewrite take_app_length.
Qed.

(** The JSON object of a model's answer is found, byte for byte, whatever
    prose without an opening brace precedes it and whatever follows it, braces
    and quotes in its own strings included; and so it is inside a code fence
    with or without a language tag. *)
Theorem ExtractJSONObject_finds ua pre ms post :
  wf (JObj ms) → "{"%char ∉ pre →
  (HasPrefix (TrimSpace (pre ++ print (JObj ms) ++ post)) fence = false →
   ExtractJSONObject ua (pre ++ print (JObj ms) ++ post) = print (JObj ms)) ∧
  ∀ tag, "010"%char ∉ tag → TrimSpace tag = [] ∨ isIdentifier ua (TrimSpace tag) = true →
   ExtractJSONObject ua (fence ++ tag ++ "010" :: pre ++ print (JObj ms) ++ post ++ fence)
   = print (JObj ms).
Proof.
  intros Hwf Hpre. split.
  - intros Hf. destruct (trim_around pre ms post) as (pre' & post' & E & Hp).
    eapply ExtractJSONObject_stripped; [done|by eapply suffix_notin| |].
    + rewrite E. apply print_obj_nonnil.
    + rewrite E in Hf |- *. unfold stripCodeFences.
      destruct (after_prefix _ _) as [r|] eqn:Ea; [|done].
      apply after_prefix_spec in Ea. exfalso.
      enough (HasPrefix (pre' ++ print (JObj ms) ++ post') fence = true) by congruence.
      apply HasPrefix_spec. by exists r.
  - intros tag Hnl Htag.
    set (text := pre ++ print (JObj ms) ++ post).
    replace (fence ++ tag ++ "010" :: pre ++ print (JObj ms) ++ post ++ fence)
      with (fence ++ tag ++ "010" :: text ++ fence) by (unfold text; by rewrite <-!app_assoc).
    assert (TrimSpace (fence ++ tag ++ "010" :: text ++ fence)
            = fence ++ tag ++ "010" :: text ++ fence) as Ht.
    { destruct (TrimSpace_visible [] "`" (s2b "``" ++ tag ++ "010" :: text ++ s2b "``") "`" [])
        as (a & b & E & Ha & Hb); [done|done|].
      apply suffix_nil_inv in Ha. apply prefix_nil_inv in Hb. subst a b.
      assert (fence ++ tag ++ "010" :: text ++ fence
        = [] ++ "`" :: (s2b "``" ++ tag ++ "010" :: text ++ s2b "``") ++ ["`"]) as ->; [|done].
      simpl. do 3 f_equal. rewrite <-!app_assoc. simpl. by rewrite <-app_assoc. }
    eapply ExtractJSONObject_stripped; [done|exact Hpre|by rewrite Ht|].
    rewrite Ht. by apply stripCodeFences_fenced.
Qed.

(** ** Previews *)

Lemma fields_from_plain k cur s :
  (∀ c, c ∈ cur → ascii_space c = false) →
  ∀ f, f ∈ fields_from k cur s → ∀ c, c ∈ f → ascii_space c = false.
Proof.
  assert (∀ cur fs, (∀ c, c ∈ cur → ascii_space c = false) →
    (∀ f, f ∈ fs → ∀ c, c ∈ f → ascii_space c = false) →
    ∀ f, f ∈ flush_field cur fs → ∀ c, c ∈ f → ascii_space c = false) as Hflush.
  { intros [|x cu] fs Hc Hfs f; [by apply Hfs|]. cbn [flush_field].
    intros [->|Hf]%elem_of_cons; [done|by apply Hfs]. }
  revert k cur. induction s as [|x s IH]; intros k cur Hcur; cbn [fields_from].
  - apply Hflush; [done|]. by intros f ?%not_elem_of_nil.
  - destruct k as [|k]; [|by apply IH].
    destruct (space_len (x :: s)) as [|k] eqn:E.
    + apply IH. intros c [Hc| ->%list_elem_of_singleton]%elem_of_app; [by apply Hcur|].
      destruct (ascii_space x) eqn:Ex; [|done]. simpl in E. by rewrite Ex in E.
    + apply Hflush; [done|]. apply IH. by intros c ?%not_elem_of_nil.
Qed.

Lemma Join_plain fs :
  (∀ f, f ∈ fs → ∀ c, c ∈ f → ascii_space c = false) →
  ∀ c, c ∈ Join fs [" "] → ascii_space c = true → c = " ".
Proof.
  intros H c Hc Hs.
  assert (∀ f, f ∈ fs → c ∉ f) as Hno by (intros f Hf Hcf; specialize (H f Hf c Hcf); congruence).
  destruct fs as [|f fs]; [by apply not_elem_of_nil in Hc|]. cbn [Join] in Hc.
  apply elem_of_app in Hc as [Hc|Hc]; [by destruct (Hno f); [left|]|].
  assert (∀ g, g ∈ fs → c ∉ g) as Hno' by (intros g Hg; apply Hno; by right).
  clear Hno H Hs. induction fs as [|g fs IH]; [by apply not_elem_of_nil in Hc|].
  cbn [fmap list_fmap mjoin list_join] in Hc.
  apply elem_of_app in Hc as [[Hc|Hc]%elem_of_app|Hc].
  - by apply list_elem_of_singleton in Hc.
  - by destruct (Hno' g); [left|].
  - apply IH; [done|]. intros h Hh. apply Hno'. by right.
Qed.

(** A preview is one line, at most three bytes longer than asked for, and
    the whole text with its white space collapsed whenever that fits; a bound
    that is not positive counts as 200. *)
Theorem SummarizeRaw_bound raw max :
  let bound := if (max <=? 0)%Z then 200 else max in
  Z.of_nat (List.length (SummarizeRaw raw max)) ≤ bound + 3 ∧
  (∀ c, c ∈ SummarizeRaw raw max → ascii_space c = true → c = " ") ∧
  (Z.of_nat (List.length (Join (Fields raw) [" "])) ≤ bound →
   SummarizeRaw raw max = Join (Fields raw) [" "]).
Proof.
  cbv zeta. unfold SummarizeRaw. set (bound := if (max <=? 0)%Z then 200 else max).
  assert (0 < bound) as Hb by (unfold bound; destruct (Z.leb_spec max 0); lia).
  set (col := Join (Fields raw) [" "]).
  assert (∀ c, c ∈ col → ascii_space c = true → c = " ") as Hcol.
  { apply Join_plain. apply fields_from_plain. by intros c ?%not_elem_of_nil. }
  destruct (Z.leb_spec (Z.of_nat (List.length col)) bound) as [Hl|Hl].
  - split_and!; [lia|done|done].
  - split_and!; [|intros c [Hc|Hc]%elem_of_app Hs|lia].
    + rewrite length_app, length_take. change (List.length ellipsis) with 3%nat. lia.
    + apply Hcol; [|done]. by eapply elem_of_take in Hc as (i & Hi%list_elem_of_lookup_2 & _).
    + exfalso. unfold ellipsis in Hc. rewrite !elem_of_cons in Hc.
      by destruct Hc as [->|[->|[->|?%not_elem_of_nil]]].
Qed.

(** ** Verdicts *)

Lemma decode_bool_print b old : decode_bool old (print (JBool b)) = Some b.
Proof. by destruct b. Qed.

(** A review response, absent members omitted. *)
Definition reject_json (r : bytes * bytes) : json :=
  JObj (omit_str "summary" r.1 ++ omit_str "analysis" r.2).
Definition review_json (r : review_response) : json :=
  JObj (match rr_Approved r with Some b => [field "approved" (JBool b)] | None => [] end
        ++ omit_str "reason" (rr_Reason r)
        ++ match rr_Reject r with Some x => [field "reject" (reject_json x)] | None => [] end).
Definition response_utf8 (r : review_response) : Prop :=
  utf8 (rr_Reason r) ∧
  match rr_Reject r with Some (s, a) => utf8 s ∧ utf8 a | None => True end.

Lemma reject_json_wf r : wf (reject_json r).
Proof. constructor. apply Forall_app; split; apply omit_str_wf; simpl; name_body. Qed.

Lemma review_json_wf r : wf (review_json r).
Proof.
  constructor. rewrite !Forall_app. split_and!.
  - destruct (rr_Approved r) as [b|]; [|constructor].
    apply field_cons; [simpl; name_body|constructor|constructor].
  - apply omit_str_wf; simpl; name_body.
  - destruct (rr_Reject r); [|constructor].
    apply field_cons; [simpl; name_body|apply reject_json_wf|constructor].
Qed.

Lemma decode_reject s a : utf8 s → utf8 a →
  decode_struct reject_field ([], []) (print (reject_json (s, a))) = Some (s, a).
Proof.
  intros Hs Ha. unfold reject_json. rewrite decode_struct_print by apply reject_json_wf.
  rewrite fold_members_app. cbn [fst snd].
  rewrite (fold_omit_str _ _ _ (λ x, (x, []))) by done.
  by rewrite (fold_omit_str _ _ _ (λ x, (s, x))).
Qed.

Lemma decode_ptr_print {A} (zero : A) dec_ v a :
  wf v → v ≠ JNull → dec_ zero (print v) = Some a → decode_ptr zero dec_ None (print v) = Some (Some a).
Proof.
  intros Hwf Hv H. unfold decode_ptr. rewrite top_of_print by done. cbn [default]. rewrite H.
  by destruct v.
Qed.

Lemma decode_review r : response_utf8 r →
  decode_struct review_field (mkRResp None [] None) (print (review_json r)) = Some r.
Proof.
  intros [Hu Hr]. destruct r as [ap re rj]. simpl in Hu, Hr. unfold review_json.
  rewrite decode_struct_print by apply (review_json_wf (mkRResp ap re rj)).
  rewrite !fold_members_app. cbn [rr_Approved rr_Reason rr_Reject].
  assert (fold_members review_field (Some (mkRResp None [] None))
    (match ap with Some b => [field "approved" (JBool b)] | None => [] end)
    = Some (mkRResp ap [] None)) as ->.
  { destruct ap as [b|]; [|done]. unfold fold_members. cbn [foldl field fst snd mbind option_bind].
    unfold review_field. name_tests.
    rewrite (decode_ptr_print _ _ _ b); [done|constructor|done|apply decode_bool_print]. }
  rewrite (fold_omit_str _ _ _ (λ x, mkRResp ap x None)) by done.
  destruct rj as [[s a]|]; [|done]. destruct Hr as [Hs Ha].
  unfold fold_members. cbn [foldl field fst snd mbind option_bind].
  unfold review_field. name_tests.
  by rewrite (decode_ptr_print _ _ _ (s, a)); [|apply reject_json_wf| |apply decode_reject].
Qed.

(** A verdict reads back as written: a rejection, which wins over an
    approval next to it, gives its summary and analysis as the reason, an
    approval or refusal its trimmed reason; a reply without a verdict is
    incomplete and one without an object is refused, each with its preview. *)
Theorem review_reads_back ua raw r :
  response_utf8 r → ExtractJSONObject ua raw = print (review_json r) →
  (∀ summary analysis, rr_Reject r = Some (summary, analysis) →
     parsePlannerReviewOutput ua raw = Ok (mkReview false (reject_reason summary analysis))) ∧
  (∀ b, rr_Reject r = None → rr_Approved r = Some b →
     parsePlannerReviewOutput ua raw = Ok (mkReview b (TrimSpace (rr_Reason r)))) ∧
  (rr_Reject r = None → rr_Approved r = None →
     parsePlannerReviewOutput ua raw = Err (ErrIncomplete (SummarizeRaw raw 200))) ∧
  ∀ raw', ExtractJSONObject ua raw' = [] →
     parsePlannerReviewOutput ua raw' = Err (ErrNoObject (SummarizeRaw raw' 200)).
Proof.
  intros Hr Hraw.
  assert (parsePlannerReviewOutput ua raw = review_decision (SummarizeRaw raw 200) r) as Hp.
  { unfold parsePlannerReviewOutput. rewrite Hraw, bool_decide_eq_false_2, decode_review by
      (done || apply print_obj_ne).
    done. }
  rewrite Hp. unfold review_decision. split_and!.
  - by intros summary analysis ->.
  - by intros b -> ->.
  - by intros -> ->.
  - intros raw' Hno. unfold parsePlannerReviewOutput. by rewrite Hno.
Qed.

(** ** Plans *)

Definition pnode_utf8 (n : CoarsePlanNode) : Prop :=
  utf8 (pn_ID n) ∧ utf8 (pn_SkillName n) ∧ utf8 (pn_TaskDescription n) ∧
  Forall utf8 (pn_DependsOn n).
Definition plan_utf8 (p : CoarsePlan) : Prop :=
  utf8 (pl_Request p) ∧ utf8 (pl_RunnerID p) ∧ Forall pnode_utf8 (default [] (pl_Nodes p)).

Lemma strs_json_wf ss : wf (strs_json ss).
Proof. constructor. apply List.Forall_map, List.Forall_forall. intros s _. apply jstr_wf. Qed.

Lemma pnode_json_wf n : wf (pnode_json n).
Proof.
  constructor. apply Forall_app. split.
  - repeat (apply field_cons; [simpl; name_body|apply jstr_wf|]). constructor.
  - destruct (pn_DependsOn n); [constructor|].
    apply field_cons; [simpl; name_body|apply strs_json_wf|constructor].
Qed.

Lemma plan_json_wf p : wf (plan_json p).
Proof.
  constructor. rewrite !Forall_app. split_and!.
  - apply field_cons; [simpl; name_body|apply jstr_wf|constructor].
  - apply omit_str_wf; simpl; name_body.
  - apply field_cons; [simpl; name_body| |constructor].
    destruct (pl_Nodes p) as [ns|]; [|constructor]. constructor.
    apply List.Forall_map, List.Forall_forall. intros n _. apply pnode_json_wf.
Qed.

Lemma decode_strs_print ss : Forall utf8 ss →
  decode_strs [] (print <$> (jstr <$> ss)) = Some ss.
Proof.
  induction 1 as [|s ss Hs _ IH]; [done|]. cbn [fmap list_fmap decode_strs].
  rewrite decode_str_jstr by done. cbn [mbind option_bind tail].
  change (list_fmap _ _ jstr ss) with (jstr <$> ss). by rewrite IH.
Qed.

Lemma decode_pnode n : pnode_utf8 n →
  decode_struct pnode_field zero_pdec (print (pnode_json n)) = Some (mkPDec n (pn_DependsOn n)).
Proof.
  intros (H1 & H2 & H3 & H4). destruct n as [i sk t ds]. simpl in H1, H2, H3, H4.
  unfold pnode_json. rewrite decode_struct_print by apply (pnode_json_wf (mkPNode i sk t ds)).
  rewrite fold_members_app. cbn [pn_ID pn_SkillName pn_TaskDescription pn_DependsOn].
  assert (fold_members pnode_field (Some zero_pdec)
    [field "id" (jstr i); field "skill_name" (jstr sk); field "task_description" (jstr t)]
    = Some (mkPDec (mkPNode i sk t []) [])) as ->.
  { unfold fold_members. cbn [foldl field fst snd mbind option_bind]. unfold zero_pdec, pnode_field.
    name_tests. do 3 (rewrite decode_str_jstr by done; cbn [mbind option_bind]). done. }
  destruct ds as [|d ds]; [done|].
  unfold fold_members. cbn [foldl field fst snd mbind option_bind]. unfold pnode_field. name_tests.
  rewrite top_of_print by apply strs_json_wf. unfold strs_json. cbn [top_tree].
  change (print <$> (jstr <$> d :: ds)) with (print (jstr d) :: (print <$> (jstr <$> ds))).
  cbn iota. change (print (jstr d) :: (print <$> (jstr <$> ds))) with (print <$> (jstr <$> d :: ds)).
  rewrite decode_strs_print by done. cbn [mbind option_bind]. by rewrite drop_nil, app_nil_r.
Qed.

Lemma decode_pnodes_print ns : Forall pnode_utf8 ns →
  decode_pnodes [] (print <$> (pnode_json <$> ns)) = Some ((λ n, mkPDec n (pn_DependsOn n)) <$> ns).
Proof.
  induction 1 as [|n ns Hn _ IH]; [done|]. cbn [fmap list_fmap decode_pnodes head default].
  rewrite decode_pnode by done. cbn [mbind option_bind tail].
  change (list_fmap _ _ pnode_json ns) with (pnode_json <$> ns).
  change (list_fmap _ _ print ?l) with (print <$> l). by rewrite IH.
Qed.

Lemma decode_plan p : plan_utf8 p →
  ∃ d, decode_struct plan_field zero_plan_dec (print (plan_json p)) = Some d ∧ plan_of d = p.
Proof.
  intros (H1 & H2 & H3). destruct p as [rq rid nodes]. simpl in H1, H2, H3.
  unfold plan_json. rewrite decode_struct_print by apply (plan_json_wf (mkPlan rq rid nodes)).
  rewrite !fold_members_app. cbn [pl_Request pl_RunnerID pl_Nodes].
  unfold fold_members at 3. cbn [foldl field fst snd mbind option_bind].
  unfold zero_plan_dec. unfold plan_field at 3. name_tests.
  rewrite decode_str_jstr by done. cbn [mbind option_bind].
  rewrite (fold_omit_str (A := plan_dec) _ _ _ (λ x, (rq, x, None, []))) by done.
  unfold fold_members. cbn [foldl field fst snd mbind option_bind]. unfold plan_field. name_tests.
  destruct nodes as [ns|]; [|by eexists].
  rewrite top_of_print.
  2:{ constructor. apply List.Forall_map, List.Forall_forall. intros n _. apply pnode_json_wf. }
  cbn [top_tree]. destruct ns as [|n ns]; [by eexists|].
  change (print <$> (pnode_json <$> n :: ns)) with (print (pnode_json n) :: (print <$> (pnode_json <$> ns))).
  cbn iota. change (print (pnode_json n) :: (print <$> (pnode_json <$> ns)))
    with (print <$> (pnode_json <$> n :: ns)).
  rewrite decode_pnodes_print by done. cbn [mbind option_bind]. eexists. split; [done|].
  unfold plan_of. do 2 f_equal. cbn [fmap option_fmap option_map].
  rewrite take_app_length, <-list_fmap_compose. f_equal. apply list_fmap_id.
Qed.

(** The plan of a replan answer is read back exactly, field for field, the
    difference between no nodes and an empty list included. *)
Theorem replan_reads_back ua raw p :
  plan_utf8 p → ExtractJSONObject ua raw = print (JObj [field "plan" (plan_json p)]) →
  parsePlannerReplanOutput ua raw = Ok p.
Proof.
  intros Hp Hraw. destruct (decode_plan p Hp) as (d & Hd & Hpd).
  assert (wf (JObj [field "plan" (plan_json p)])) as Hwf.
  { constructor. apply field_cons; [simpl; name_body|apply plan_json_wf|constructor]. }
  unfold parsePlannerReplanOutput. rewrite Hraw, bool_decide_eq_false_2 by apply print_obj_ne.
  rewrite decode_struct_print by done. unfold fold_members. cbn [foldl field fst snd mbind option_bind].
  unfold replan_field. name_tests.
  rewrite (decode_ptr_print _ _ _ d); [by rewrite Hpd|apply plan_json_wf|done|done].
Qed.

(** ** Instances *)

Definition ascii_only : bytes → bool := λ _, false.
Definition sample_obj : list (bytes * json) :=
  [(s2b "a", JObj [(s2b "b", JStr (s2b "}{"))])].
Lemma sample_obj_wf : wf (JObj sample_obj).
Proof.
  repeat (apply wf_obj || apply List.Forall_cons || apply List.Forall_nil || apply conj
    || (apply wf_str; name_body) || (simpl; name_body)).
Defined.

Lemma ExtractJSONObject_finds_witness :
  ExtractJSONObject ascii_only (s2b "Sure, here: " ++ print (JObj sample_obj) ++ s2b " }.")
  = print (JObj sample_obj) ∧
  ExtractJSONObject ascii_only (fence ++ s2b "json" ++ "010" :: [] ++ print (JObj sample_obj) ++ [] ++ fence)
  = print (JObj sample_obj).
Proof.
  split.
  - refine (proj1 (ExtractJSONObject_finds ascii_only (s2b "Sure, here: ") sample_obj (s2b " }.")
      sample_obj_wf _) _).
    + by apply (bool_decide_eq_true_1 _).
    + by vm_compute.
  - refine (proj2 (ExtractJSONObject_finds ascii_only [] sample_obj [] sample_obj_wf _) (s2b "json") _ _).
    + by apply (bool_decide_eq_true_1 _).
    + by apply (bool_decide_eq_true_1 _).
    + right. by vm_compute.
Defined.

Lemma SummarizeRaw_bound_witness :
  SummarizeRaw (s2b "  two   words ") 20 = s2b "two words".
Proof.
  rewrite (proj2 (proj2 (SummarizeRaw_bound (s2b "  two   words ") 20))); by vm_compute.
Defined.

Definition sample_verdict : review_response :=
  mkRResp (Some true) [] (Some (s2b "wrong skill", s2b "node b")).

Lemma review_reads_back_witness :
  parsePlannerReviewOutput ascii_only (print (review_json sample_verdict))
  = Ok (mkReview false (s2b "wrong skill: node b")).
Proof.
  refine (eq_trans (proj1 (review_reads_back ascii_only _ sample_verdict _ _)
    (s2b "wrong skill") (s2b "node b") eq_refl) _).
  - split; [by apply utf8_ascii|]. split; by apply utf8_ascii.
  - by vm_compute.
  - by vm_compute.
Defined.

Definition sample_plan : CoarsePlan :=
  mkPlan (s2b "build it") [] (Some [mkPNode (s2b "a") (s2b "go") (s2b "write") [];
                                   mkPNode (s2b "b") (s2b "go") (s2b "test") [s2b "a"]]).

Lemma replan_reads_back_witness :
  parsePlannerReplanOutput ascii_only
    (s2b "Plan: " ++ print (JObj [field "plan" (plan_json sample_plan)])) = Ok sample_plan.
Proof.
  apply replan_reads_back.
  - split_and!; [by apply utf8_ascii|by apply utf8_ascii|].
    repeat (apply List.Forall_cons || apply List.Forall_nil); split_and!;
      repeat (apply List.Forall_cons || apply List.Forall_nil); by apply utf8_ascii.
  - by vm_compute.
Defined.
