(* ===== verification/Stream.v ===== *)
(** The stream itself ([src/stream/stream.go], [subscription.go]): an
    append-only log with a bounded replay buffer, fan-out to subscribers,
    replay windows, cancellation and closing.

    Each definition below is the critical section of one method; the choices
    the Go runtime makes are arguments: [perm] is the order in which a map of
    subscribers is iterated, [env i j] what the [j]-th send to the [i]-th
    subscriber observes (a context that is done, a concurrent [closeDone],
    which ready [select] case is picked). *)
From S2P Require Import Prelude Json GoText Event Bundle.

(** ** Data *)

Definition OverflowDropNewest : bytes := s2b "drop_newest".
Definition OverflowError : bytes := s2b "error".

Record subscribeSettings := mkSettings {
  set_replayFrom : Z; set_replayLast : Z; set_noReplay : bool;
  set_buffer : Z; set_overflowPolicy : bytes; set_rawStream : bool }.

(** The channel of a subscription is its queue, its capacity and the receivers
    blocked on it; [sub_received] records what receivers have been given. *)
Record Subscription := mkSub {
  sub_id : Z;
  sub_filter : Filter;
  sub_expanded : bool;
  sub_cap : nat;
  sub_policy : bytes;
  sub_queue : list Event;
  sub_waiting : nat;
  sub_received : list Event;
  sub_done : bool;        (* done is closed *)
  sub_closed : bool }.    (* events is closed *)

Record Stream := mkStream {
  st_scope : Scope;
  st_bufferLimit : nat;
  st_nextSeq : Z;
  st_nextLogicalTime : Z;
  st_nextSubID : Z;
  st_closed : bool;
  st_buffer : list Event;
  st_subs : gmap Z Subscription;   (* every subscription made, by id *)
  st_subscribers : list Z }.       (* the keys of the subscribers map *)

Definition defaultBufferLimit : nat := 1024.
Definition defaultSubscriberBuffer : Z := 16.

Record Config := mkConfig { BufferLimit : Z; DisableBuffer : bool }.

(** [New] without options (an option may replace any field). *)
Definition New (scope : Scope) (cfg : Config) : Stream :=
  let limit := if DisableBuffer cfg then 0%nat
               else if BufferLimit cfg >? 0 then Z.to_nat (BufferLimit cfg)
               else defaultBufferLimit in
  mkStream scope limit 0 0 0 false [] ∅ [].

(** ** Subscribe options *)

Definition default_settings : subscribeSettings :=
  mkSettings 0 0 false defaultSubscriberBuffer OverflowDropNewest false.
Definition zero_settings : subscribeSettings := mkSettings 0 0 false 0 [] false.

Definition WithReplayFrom (sequence : Z) (s : subscribeSettings) : subscribeSettings :=
  let '(mkSettings _ b _ d e f) := s in mkSettings sequence b false d e f.
Definition WithReplayLast (n : Z) (s : subscribeSettings) : subscribeSettings :=
  let '(mkSettings a _ _ d e f) := s in mkSettings a (if n <? 0 then 0 else n) false d e f.
Definition WithNoReplay (s : subscribeSettings) : subscribeSettings :=
  let '(mkSettings a b _ d e f) := s in mkSettings a b true d e f.
Definition WithSubscriberBuffer (n : Z) (s : subscribeSettings) : subscribeSettings :=
  let '(mkSettings a b c _ e f) := s in mkSettings a b c n e f.
Definition WithOverflowPolicy (p : bytes) (s : subscribeSettings) : subscribeSettings :=
  let '(mkSettings a b c d _ f) := s in mkSettings a b c d p f.
Definition WithRawStream (s : subscribeSettings) : subscribeSettings :=
  let '(mkSettings a b c d e _) := s in mkSettings a b c d e true.

Definition apply_opts (opts : list (subscribeSettings → subscribeSettings))
    (s : subscribeSettings) : subscribeSettings :=
  foldl (λ s opt, opt s) s opts.

(** ** Sending to one subscriber *)

Record sel_env := mkEnv { o_ctx : bool; o_done : bool; o_pick : nat }.
Definition quiet : sel_env := mkEnv false false 0.

Inductive sel_case := SelSend | SelDone | SelCtx | SelDefault.

(** A [select] with a send, the done channel, the context and a default: any
    ready case may be taken, the default only when none is ready. A send on a
    closed channel counts as ready (and panics). *)
Definition select_case (send done ctx : bool) (pick : nat) : sel_case :=
  let ready := (if send then [SelSend] else []) ++ (if done then [SelDone] else [])
               ++ (if ctx then [SelCtx] else []) in
  match ready with
  | [] => SelDefault
  | _ => nth (pick mod List.length ready) ready SelDefault
  end.

Definition has_room (sub : Subscription) : bool :=
  (0 <? sub_waiting sub)%nat || (List.length (sub_queue sub) <? sub_cap sub)%nat.

Definition push (e : Event) (sub : Subscription) : Subscription :=
  let '(mkSub i f x c p q w r d k) := sub in
  match w with
  | S w' => mkSub i f x c p q w' (r ++ [e]) d k
  | O => mkSub i f x c p (q ++ [e]) 0 r d k
  end.

(** How one send ends: the sender goes on, returns nil early, returns an
    error, or panics. *)
Inductive sent := SentNext | SentStop | SentErr (e : stream_err) | SentPanic.

Definition send1 (env : sel_env) (e : Event) (sub : Subscription) : Subscription * sent :=
  match select_case (has_room sub || sub_closed sub) (sub_done sub || o_done env)
          (o_ctx env) (o_pick env) with
  | SelSend => if sub_closed sub then (sub, SentPanic) else (push e sub, SentNext)
  | SelDone => (sub, SentStop)
  | SelCtx => (sub, SentErr ErrCanceled)
  | SelDefault =>
      if decide (sub_policy sub = OverflowError) then (sub, SentErr ErrSubscriberOverflow)
      else (sub, SentNext)
  end.

Fixpoint send_list (env : nat → sel_env) (es : list Event) (sub : Subscription)
  : Subscription * sent :=
  match es with
  | [] => (sub, SentNext)
  | e :: es' =>
      match send1 (env 0%nat) e sub with
      | (sub', SentNext) => send_list (λ j, env (S j)) es' sub'
      | r => r
      end
  end.

Section Ops.
Context {std : GoStd}.

Definition sendExpanded (env : nat → sel_env) (event : Event) (sub : Subscription)
  : Subscription * sent :=
  match FilterBundleEvent event (sub_filter sub) with
  | Err e => (sub, SentErr e)
  | Ok events => send_list env events sub
  end.

Definition send (env : nat → sel_env) (event : Event) (sub : Subscription)
  : Subscription * sent :=
  if sub_expanded sub && is_bundle event then sendExpanded env event sub
  else send1 (env 0%nat) event sub.

(** ** Emit *)

Definition set_sub (id : Z) (sub : Subscription) (s : Stream) : Stream :=
  let '(mkStream a b c d e f g subs k) := s in mkStream a b c d e f g (<[id := sub]> subs) k.

Definition appendBufferLocked (limit : nat) (event : Event) (buffer : list Event)
  : list Event :=
  if (limit =? 0)%nat then buffer
  else if (List.length buffer =? limit)%nat then tail buffer ++ [event]
  else buffer ++ [event].

(** Whether [Emit] picks a subscriber for a prepared event. *)
Definition matched (prepared : Event) (sub : Subscription) : bool :=
  if sub_expanded sub && is_bundle prepared then true
  else Match (sub_filter sub) prepared.

Definition matching (s : Stream) (prepared : Event) (ids : list Z) : list Z :=
  List.filter (λ id, match st_subs s !! id with
                     | Some sub => matched prepared sub
                     | None => false end) ids.

Inductive outcome := Done | Fails (e : stream_err) | Panics.

(** The delivery loop: the first failing subscriber ends it. *)
Fixpoint deliver (env : nat → nat → sel_env) (event : Event) (ids : list Z) (s : Stream)
  : Stream * outcome :=
  match ids with
  | [] => (s, Done)
  | id :: ids' =>
      match st_subs s !! id with
      | None => deliver (λ i, env (S i)) event ids' s
      | Some sub =>
          match send (env 0%nat) event sub with
          | (sub', SentErr e) => (set_sub id sub' s, Fails e)
          | (sub', SentPanic) => (set_sub id sub' s, Panics)
          | (sub', _) => deliver (λ i, env (S i)) event ids' (set_sub id sub' s)
          end
      end
  end.

Definition Emit (env : nat → nat → sel_env) (perm : list Z → list Z) (now : bytes)
    (event : Event) (s : Stream) : Stream * outcome :=
  if st_closed s then (s, Fails ErrClosed)
  else
    let sequence := u64 (st_nextSeq s + 1) in
    let logicalTime := u64 (st_nextLogicalTime s + 1) in
    match prepare event (st_scope s) sequence logicalTime now with
    | Err e => (s, Fails e)
    | Ok prepared =>
        let matches := matching s prepared (perm (st_subscribers s)) in
        let '(mkStream a b _ _ i c buf subs k) := s in
        deliver env prepared matches
          (mkStream a b sequence logicalTime i c (appendBufferLocked b prepared buf) subs k)
    end.

(** ** Replay *)

Definition oldestBufferedSequenceLocked (s : Stream) : Z :=
  match st_buffer s with [] => 0 | e :: _ => ev_SequenceNumber e end.

Definition defaultReplayStartLocked (s : Stream) : Z :=
  let oldest := oldestBufferedSequenceLocked s in
  if oldest >? 0 then oldest
  else if (st_bufferLimit s =? 0)%nat || (st_nextSeq s =? 0) then 0
  else
    let limit := Z.of_nat (st_bufferLimit s) in
    if st_nextSeq s >? limit then u64 (st_nextSeq s - limit + 1) else 1.

Definition replayStartLocked (s : Stream) (settings : subscribeSettings) : Z :=
  if set_noReplay settings then 0
  else if (set_replayFrom settings =? 0) && (set_replayLast settings =? 0)
  then defaultReplayStartLocked s
  else
    let from := set_replayFrom settings in
    if (set_replayLast settings >? 0) && (st_nextSeq s >? 0) then
      let last := u64 (set_replayLast settings) in
      let lastFrom := if st_nextSeq s >=? last then u64 (st_nextSeq s - last + 1) else 1 in
      if lastFrom >? from then lastFrom else from
    else from.

Definition replayLocked (s : Stream) (f : Filter) (settings : subscribeSettings)
  : list Event :=
  let from := replayStartLocked s settings in
  if from =? 0 then []
  else List.filter (λ e, negb (ev_SequenceNumber e <? from) && Match f e) (st_buffer s).

Fixpoint expand_all (f : Filter) (raw : list Event) : res stream_err (list Event) :=
  match raw with
  | [] => Ok []
  | e :: raw' =>
      let? events := FilterBundleEvent e f in
      let? rest := expand_all f raw' in
      Ok (events ++ rest)
  end.

Definition replayLogicalLocked (s : Stream) (f : Filter) (settings : subscribeSettings)
  : res stream_err (list Event) :=
  expand_all f (replayLocked s zero_filter settings).

(** [Stream.Replay]. *)
Definition Replay (s : Stream) (f : Filter)
    (opts : list (subscribeSettings → subscribeSettings)) : res stream_err (list Event) :=
  let settings := apply_opts opts zero_settings in
  if set_rawStream settings then Ok (replayLocked s f settings)
  else replayLogicalLocked s f settings.

(** ** Subscribe *)

(** A subscription made, an error, or a goroutine that blocks forever: when a
    catch-up send fails, [Subscribe] calls [sub.Cancel], which locks
    [deliveryMu], which [Subscribe] still holds. *)
Inductive subscribed := Subscribed (id : Z) | SubErr (e : stream_err) | SubDeadlock | SubPanic.

Fixpoint catch_up (env : nat → nat → sel_env) (replay : list Event) (sub : Subscription)
  : Subscription * sent :=
  match replay with
  | [] => (sub, SentNext)
  | e :: replay' =>
      match send (env 0%nat) e sub with
      | (sub', SentErr err) => (sub', SentErr err)
      | (sub', SentPanic) => (sub', SentPanic)
      | (sub', _) => catch_up (λ i, env (S i)) replay' sub'
      end
  end.

Definition Subscribe (env : nat → nat → sel_env) (f : Filter)
    (opts : list (subscribeSettings → subscribeSettings)) (s : Stream)
  : Stream * subscribed :=
  let settings := apply_opts opts default_settings in
  let want := Z.to_nat (Z.max 0 (set_buffer settings)) in
  if st_closed s then (s, SubErr ErrClosed)
  else
    let id := u64 (st_nextSubID s + 1) in
    let replay := if set_rawStream settings then Ok (replayLocked s f settings)
                  else replayLogicalLocked s f settings in
    match replay with
    | Err e => (s, SubErr e)
    | Ok replay =>
        let cap := if set_rawStream settings && (want <? List.length replay)%nat
                   then List.length replay else want in
        let sub := mkSub id f (negb (set_rawStream settings)) cap
                     (set_overflowPolicy settings) [] 0 [] false false in
        let '(mkStream a b c d _ e buf subs k) := s in
        match catch_up env replay sub with
        | (sub', SentErr _) =>
            (mkStream a b c d id e buf (<[id := sub']> subs) (k ++ [id]), SubDeadlock)
        | (sub', SentPanic) =>
            (mkStream a b c d id e buf (<[id := sub']> subs) (k ++ [id]), SubPanic)
        | (sub', _) =>
            (mkStream a b c d id e buf (<[id := sub']> subs) (k ++ [id]), Subscribed id)
        end
    end.

(** ** Cancelling and closing *)

Definition mark_done (sub : Subscription) : Subscription :=
  let '(mkSub i f x c p q w r _ k) := sub in mkSub i f x c p q w r true k.

(** Closing the event channel releases the blocked receivers. *)
Definition mark_closed (sub : Subscription) : Subscription :=
  let '(mkSub i f x c p q _ r d _) := sub in mkSub i f x c p q 0 r d true.

Definition upd_sub (g : Subscription → Subscription) (id : Z) (s : Stream) : Stream :=
  let '(mkStream a b c d e f buf subs k) := s in mkStream a b c d e f buf (alter g id subs) k.

Definition detach (id : Z) (s : Stream) : Stream :=
  let '(mkStream a b c d e f buf subs k) := s in
  mkStream a b c d e f buf (alter mark_closed id subs) (List.filter (λ i, negb (i =? id)) k).

(** [Cancel]: [closeDone], then the locked part. *)
Definition closeDone (id : Z) (s : Stream) : Stream := upd_sub mark_done id s.
Definition Cancel (id : Z) (s : Stream) : Stream := detach id (closeDone id s).

(** [Close]: mark closed and wake senders, then the locked part. The second
    component is the snapshot of subscribers the second part works on. *)
Definition closeBegin (s : Stream) : Stream * list Z :=
  if st_closed s then (s, [])
  else
    let '(mkStream a b c d e _ buf subs k) := s in
    (foldr closeDone (mkStream a b c d e true buf subs k) k, k).

Definition closeEnd (ids : list Z) (s : Stream) : Stream := foldr detach s ids.

Definition Close (s : Stream) : Stream :=
  let '(s', ids) := closeBegin s in closeEnd ids s'.

(** ** Receiving *)

Inductive received := Got (e : Event) | Closed | Canceled | Blocked.

(** One receive by [Subscription.Next]; a blocked receiver waits. *)
Definition Next (ctx : bool) (pick : nat) (sub : Subscription) : Subscription * received :=
  let ready := negb (bool_decide (sub_queue sub = [])) || sub_closed sub in
  let '(mkSub i f x c p q w r d k) := sub in
  match select_case ready false ctx pick with
  | SelSend =>
      match q with
      | e :: q' => (mkSub i f x c p q' w (r ++ [e]) d k, Got e)
      | [] => (sub, Closed)
      end
  | SelDone => (sub, Blocked)
  | SelCtx => (sub, Canceled)
  | SelDefault => (mkSub i f x c p q (S w) r d k, Blocked)
  end.
End Ops.
