(* ===== verification/StreamLog.v ===== *)
(** What a stream promises about its history: an abstract append-only log, the
    refinement of the operations of [Stream.v] to it, and the replay windows
    as functions of the log. *)
From S2P Require Import Prelude Json GoText Event Bundle Stream.

(** ** The abstract log *)

Record Log := mkLog {
  l_scope : Scope; l_limit : nat; l_events : list Event; l_closed : bool }.

Definition lastn {A} (n : nat) (l : list A) : list A := drop (List.length l - n) l.

(** Emission appends the prepared event, numbered by its position, or refuses. *)
Definition log_emit (now : bytes) (ev : Event) (l : Log) : Log :=
  if l_closed l then l
  else
    let n := Z.of_nat (List.length (l_events l)) + 1 in
    match prepare ev (l_scope l) n n now with
    | Err _ => l
    | Ok p => mkLog (l_scope l) (l_limit l) (l_events l ++ [p]) false
    end.

Definition log_close (l : Log) : Log :=
  mkLog (l_scope l) (l_limit l) (l_events l) true.

(** Positions are sequence numbers. *)
Definition numbered (evs : list Event) : Prop :=
  ∀ i e, evs !! i = Some e →
    ev_SequenceNumber e = Z.of_nat i + 1 ∧ ev_LogicalTime e = Z.of_nat i + 1.

(** The stream holds the newest [bufferLimit] events of the log. *)
Record refines (s : Stream) (l : Log) : Prop := {
  ref_scope : st_scope s = l_scope l;
  ref_limit : st_bufferLimit s = l_limit l;
  ref_closed : st_closed s = l_closed l;
  ref_seq : st_nextSeq s = Z.of_nat (List.length (l_events l));
  ref_time : st_nextLogicalTime s = Z.of_nat (List.length (l_events l));
  ref_fits : Z.of_nat (List.length (l_events l)) < two64;
  ref_num : numbered (l_events l);
  ref_buffer : st_buffer s = lastn (l_limit l) (l_events l) }.

(** ** Windows of a list *)

Lemma lastn_length {A} n (l : list A) : List.length (lastn n l) = (n `min` List.length l)%nat.
Proof. unfold lastn. rewrite length_drop. lia. Qed.

Lemma lastn_all {A} n (l : list A) : (List.length l ≤ n)%nat → lastn n l = l.
Proof. intros H. unfold lastn. replace (_ - _)%nat with 0%nat by lia. done. Qed.

Lemma lastn_0 {A} (l : list A) : lastn 0 l = [].
Proof. unfold lastn. rewrite Nat.sub_0_r. by apply drop_ge. Qed.

Lemma lastn_lookup {A} n (l : list A) i :
  lastn n l !! i = l !! (List.length l - n + i)%nat.
Proof. unfold lastn. by rewrite lookup_drop. Qed.

Lemma append_lastn n e l :
  appendBufferLocked n e (lastn n l) = lastn n (l ++ [e]).
Proof.
  unfold appendBufferLocked. rewrite lastn_length.
  destruct (Nat.eqb_spec n 0) as [->|Hn]; [by rewrite !lastn_0|].
  destruct (Nat.eqb_spec (n `min` List.length l) n) as [He|He].
  - unfold lastn. rewrite length_app. simpl.
    assert (tail (drop (List.length l - n) l) = drop (S (List.length l - n)) l) as ->.
    { replace (S (List.length l - n)) with (List.length l - n + 1)%nat by lia.
      rewrite <-drop_drop. by destruct (drop _ l). }
    rewrite drop_app_le by lia. f_equal. f_equal. lia.
  - rewrite !lastn_all by (rewrite ?length_app; simpl; lia). done.
Qed.

Lemma numbered_snoc evs e :
  numbered evs → ev_SequenceNumber e = Z.of_nat (List.length evs) + 1 →
  ev_LogicalTime e = Z.of_nat (List.length evs) + 1 → numbered (evs ++ [e]).
Proof.
  intros Hn He Ht i x Hi. apply lookup_app_Some in Hi as [Hi|[Hle Hi]]; [by apply Hn|].
  apply list_lookup_singleton_Some in Hi as [Hi <-].
  assert (i = List.length evs) as -> by lia. done.
Qed.

(** ** What delivery and subscription leave alone *)

(** The part of a stream the log describes. *)
Definition core (s : Stream) : Scope * nat * bool * Z * Z * list Event :=
  (st_scope s, st_bufferLimit s, st_closed s, st_nextSeq s, st_nextLogicalTime s, st_buffer s).

Lemma refines_core s s' l : core s = core s' → refines s l → refines s' l.
Proof.
  unfold core. intros H [H1 H2 H3 H4 H5 H6 H7 H8].
  injection H as E1 E2 E3 E4 E5 E6. split; first [done|congruence].
Qed.

Section Refine.
Context {std : GoStd}.

Lemma core_set_sub id sub s : core (set_sub id sub s) = core s.
Proof. by destruct s. Qed.

Lemma core_deliver env ev ids s : core (deliver env ev ids s).1 = core s.
Proof.
  revert env s. induction ids as [|id ids IH]; intros env s; [done|]. simpl.
  destruct (st_subs s !! id) as [sub|]; [|apply IH].
  destruct (send (env 0%nat) ev sub) as [sub' []]; simpl; rewrite ?IH; apply core_set_sub.
Qed.

Lemma core_Subscribe env f opts s : core (Subscribe env f opts s).1 = core s.
Proof.
  unfold Subscribe. destruct (st_closed s); [done|].
  destruct (if set_rawStream _ then _ else _) as [replay|]; [|done].
  destruct s. by destruct (catch_up _ _ _) as [? []].
Qed.

Lemma core_detach id s : core (detach id s) = core s.
Proof. by destruct s. Qed.
Lemma core_closeDone id s : core (closeDone id s) = core s.
Proof. by destruct s. Qed.
Lemma core_Cancel id s : core (Cancel id s) = core s.
Proof. by destruct s. Qed.
Lemma core_closeEnd ids s : core (closeEnd ids s) = core s.
Proof. induction ids as [|i ids IH]; simpl; [done|]. by rewrite core_detach. Qed.
Lemma core_foldr_done ids s : core (foldr closeDone s ids) = core s.
Proof. induction ids as [|i ids IH]; simpl; [done|]. by rewrite core_closeDone. Qed.

Lemma refines_New scope cfg :
  refines (New scope cfg) (mkLog scope (st_bufferLimit (New scope cfg)) [] false).
Proof. split; try done. Qed.

Lemma refines_Emit env perm now ev s l :
  refines s l → Z.of_nat (List.length (l_events l)) + 1 < two64 →
  refines (Emit env perm now ev s).1 (log_emit now ev l).
Proof.
  intros R Hfit. pose proof R as [H1 H2 H3 H4 H5 H6 H7 H8].
  unfold Emit, log_emit. rewrite H3. destruct (l_closed l) eqn:Hc; [done|].
  rewrite H4, H5, H1. unfold u64. rewrite Z.mod_small by lia.
  destruct (prepare _ _ _ _ _) as [p|] eqn:Hp; [|done].
  apply prepare_ok in Hp as (_&_&_&_&_&Hp).
  destruct s as [sc lim sq lt si cl buf subs ks]. simpl in *. subst sc lim cl buf.
  eapply refines_core; [symmetry; apply core_deliver|].
  split; simpl; rewrite ?length_app; simpl; try done; try lia.
  - apply numbered_snoc; [done|by subst p..].
  - apply append_lastn.
Qed.

(** ** Runs *)

(** The operations of a stream; [OpClose1] and [OpClose2] are the two critical
    sections of [Close], [OpDone] and [OpDetach] those of [Cancel], so a run
    interleaves them freely. *)
Inductive op :=
| OpEmit (env : nat → nat → sel_env) (perm : list Z → list Z) (now : bytes) (ev : Event)
| OpSubscribe (env : nat → nat → sel_env) (f : Filter)
    (opts : list (subscribeSettings → subscribeSettings))
| OpDone (id : Z) | OpDetach (id : Z) | OpClose1 | OpClose2 (ids : list Z)
| OpNext (id : Z) (ctx : bool) (pick : nat).

Definition step (o : op) (s : Stream) : Stream :=
  match o with
  | OpEmit env perm now ev => (Emit env perm now ev s).1
  | OpSubscribe env f opts => (Subscribe env f opts s).1
  | OpDone id => closeDone id s
  | OpDetach id => detach id s
  | OpClose1 => (closeBegin s).1
  | OpClose2 ids => closeEnd ids s
  | OpNext id ctx pick => upd_sub (λ sub, (Next ctx pick sub).1) id s
  end.

Definition log_step (o : op) (l : Log) : Log :=
  match o with
  | OpEmit _ _ now ev => log_emit now ev l
  | OpClose1 => log_close l
  | _ => l
  end.

Definition run (ops : list op) (s : Stream) : Stream := foldl (λ s o, step o s) s ops.
Definition log_run (ops : list op) (l : Log) : Log := foldl (λ l o, log_step o l) l ops.

Lemma refines_closeBegin s l : refines s l → refines (closeBegin s).1 (log_close l).
Proof.
  intros R. unfold closeBegin. destruct (st_closed s) eqn:Hc.
  - destruct R. split; simpl; first [done|congruence].
  - destruct s as [sc lim sq lt si cl buf subs ks]. simpl in *.
    eapply refines_core; [symmetry; apply core_foldr_done|].
    by destruct R; split.
Qed.

Lemma refines_step o s l :
  refines s l → Z.of_nat (List.length (l_events l)) + 1 < two64 →
  refines (step o s) (log_step o l).
Proof.
  intros R Hfit. destruct o as [env perm now ev|env f opts|id|id| |ids|id ctx pick]; simpl.
  - by apply refines_Emit.
  - eapply refines_core; [|done]. by rewrite core_Subscribe.
  - eapply refines_core; [|done]. by rewrite core_closeDone.
  - eapply refines_core; [|done]. by rewrite core_detach.
  - by apply refines_closeBegin.
  - eapply refines_core; [|done]. by rewrite core_closeEnd.
  - eapply refines_core; [|done]. by destruct s.
Qed.

Lemma log_step_length o l :
  (List.length (l_events (log_step o l)) ≤ S (List.length (l_events l)))%nat.
Proof.
  destruct o; simpl; try lia. unfold log_emit. destruct (l_closed l); [lia|].
  destruct (prepare _ _ _ _ _); simpl; rewrite ?length_app; simpl; lia.
Qed.

Lemma refines_run ops s l :
  refines s l → Z.of_nat (List.length (l_events l) + List.length ops) < two64 →
  refines (run ops s) (log_run ops l).
Proof.
  revert s l. induction ops as [|o ops IH]; intros s l R Hfit; [done|]. simpl in *.
  apply IH; [apply refines_step; [done|lia]|].
  pose proof (log_step_length o l). lia.
Qed.

Lemma log_closed_mono ops l : l_closed l = true → log_run ops l = l.
Proof.
  revert l. induction ops as [|o ops IH]; intros l Hl; [done|]. unfold log_run. simpl.
  fold (log_run ops). replace (log_step o l) with l; [by apply IH|].
  destruct l as [sc lim evs cl]. simpl in Hl. subst cl. by destruct o.
Qed.

(** ** Replay windows *)

(** Which of the logged events a catch-up delivers. *)
Definition window (settings : subscribeSettings) (l : Log) : list Event :=
  if set_noReplay settings then []
  else
    let n := if set_replayLast settings =? 0 then l_limit l
             else (l_limit l `min` Z.to_nat (set_replayLast settings))%nat in
    List.filter (λ e, set_replayFrom settings <=? ev_SequenceNumber e) (lastn n (l_events l)).

Lemma lastn_filter (evs : list Event) (n : nat) :
  numbered evs →
  lastn n evs
  = List.filter (λ e, Z.of_nat (List.length evs - n) + 1 <=? ev_SequenceNumber e) evs.
Proof.
  intros Hn. unfold lastn. remember (List.length evs - n)%nat as k eqn:Hk. clear n Hk.
  rewrite <-(take_drop k evs) at 2. rewrite List.filter_app.
  rewrite list_filter_none, list_filter_all; [done|..].
  - intros e Hin. apply list_elem_of_lookup in Hin as [i Hi]. rewrite lookup_drop in Hi.
    destruct (Hn _ _ Hi) as [-> _]. apply Z.leb_le. lia.
  - intros e Hin. apply list_elem_of_lookup in Hin as [i Hi].
    apply lookup_take_Some in Hi as [Hi Hlt]. destruct (Hn _ _ Hi) as [-> _].
    apply Z.leb_gt. lia.
Qed.

Lemma numbered_elem evs e :
  numbered evs → e ∈ evs → 1 ≤ ev_SequenceNumber e ≤ Z.of_nat (List.length evs).
Proof.
  intros Hn Hin. apply list_elem_of_lookup in Hin as [i Hi].
  destruct (Hn _ _ Hi) as [-> _]. apply lookup_lt_Some in Hi. lia.
Qed.

(** The first sequence number of the buffer. *)
Lemma oldest_spec s l :
  refines s l →
  oldestBufferedSequenceLocked s
  = if (l_limit l `min` List.length (l_events l) =? 0)%nat then 0
    else Z.of_nat (List.length (l_events l) - l_limit l) + 1.
Proof.
  intros [H1 H2 H3 H4 H5 H6 H7 H8]. unfold oldestBufferedSequenceLocked. rewrite H8.
  pose proof (lastn_length (l_limit l) (l_events l)) as Hlen.
  destruct (lastn _ _) as [|e r] eqn:E; simpl in Hlen.
  - by rewrite <-Hlen.
  - rewrite <-Hlen. simpl.
    assert (lastn (l_limit l) (l_events l) !! 0%nat = Some e) as He by by rewrite E.
    rewrite lastn_lookup in He. destruct (H7 _ _ He) as [-> _]. f_equal. f_equal. lia.
Qed.

(** A window given by [replayLast], with or without a lower bound. *)
Lemma replay_last_filter f (evs : list Event) (limit : nat) (from last : Z) :
  numbered evs → Z.of_nat (List.length evs) < two64 → 0 < Z.of_nat (List.length evs) →
  0 ≤ from → 0 < last < two64 →
  let lastFrom := if Z.of_nat (List.length evs) >=? u64 last
                  then u64 (Z.of_nat (List.length evs) - u64 last + 1) else 1 in
  let start := if lastFrom >? from then lastFrom else from in
  (if start =? 0 then []
   else List.filter (λ e, negb (ev_SequenceNumber e <? start) && Match f e) (lastn limit evs))
  = List.filter (Match f) (List.filter (λ e, from <=? ev_SequenceNumber e)
      (lastn (limit `min` Z.to_nat last) evs)).
Proof.
  intros Hn Hfit Hpos Hfrom Hlast lastFrom start.
  assert (lastFrom = Z.of_nat (List.length evs - Z.to_nat last) + 1) as HlF.
  { subst lastFrom. unfold u64. rewrite (Z.mod_small last) by lia.
    destruct (Z.geb_spec (Z.of_nat (List.length evs)) last); [|lia].
    rewrite Z.mod_small; lia. }
  assert (start = Z.max from lastFrom) as Hst.
  { subst start. destruct (Z.gtb_spec lastFrom from); lia. }
  clearbody lastFrom start. destruct (Z.eqb_spec start 0); [lia|].
  rewrite !lastn_filter, !list_filter_filter by done. apply list_filter_ext.
  intros e _. rewrite <-Z.leb_antisym, andb_assoc, andb_assoc. f_equal.
  apply eq_iff_eq_true. rewrite !andb_true_iff, !Z.leb_le. lia.
Qed.

(** Both sides of a window equation as one filter of the log. *)
Lemma replay_window s l f settings :
  refines s l → 0 ≤ set_replayFrom settings → 0 ≤ set_replayLast settings < two64 →
  replayLocked s f settings = List.filter (Match f) (window settings l).
Proof.
  intros R Hf Hl. pose proof (oldest_spec s l R) as Hold.
  destruct R as [H1 H2 H3 H4 H5 H6 H7 H8].
  unfold replayLocked, replayStartLocked, window.
  destruct (set_noReplay settings); [done|].
  destruct (Z.eqb_spec (set_replayFrom settings) 0) as [E1|E1];
    destruct (Z.eqb_spec (set_replayLast settings) 0) as [E2|E2]; cbn [andb].
  - unfold defaultReplayStartLocked. rewrite Hold, H2, H4, H8. clear Hold.
    destruct (Nat.eqb_spec (l_limit l `min` List.length (l_events l)) 0) as [E|E].
    + assert (lastn (l_limit l) (l_events l) = []) as ->.
      { apply length_zero_iff_nil. by rewrite lastn_length. }
      simpl. by repeat case_match.
    + destruct (Z.gtb_spec (Z.of_nat (List.length (l_events l) - l_limit l) + 1) 0); [|lia].
      destruct (Z.eqb_spec (Z.of_nat (List.length (l_events l) - l_limit l) + 1) 0); [lia|].
      rewrite !lastn_filter, !list_filter_filter by done. apply list_filter_ext.
      intros e He%(numbered_elem _ _ H7). rewrite E1.
      destruct (Z.leb_spec (Z.of_nat (List.length (l_events l) - l_limit l) + 1)
        (ev_SequenceNumber e)); [|done].
      destruct (Z.ltb_spec (ev_SequenceNumber e)
        (Z.of_nat (List.length (l_events l) - l_limit l) + 1)); [lia|].
      destruct (Z.leb_spec 0 (ev_SequenceNumber e)); [done|lia].
  - destruct (Z.gtb_spec (set_replayLast settings) 0); [|lia]. cbn [andb].
    rewrite H4, H8. destruct (Z.gtb_spec (Z.of_nat (List.length (l_events l))) 0).
    + apply replay_last_filter; try done; lia.
    + assert (l_events l = []) as -> by (apply length_zero_iff_nil; lia).
      rewrite E1. done.
  - destruct (Z.gtb_spec (set_replayLast settings) 0); [lia|]. cbn [andb]. rewrite H8.
    destruct (Z.eqb_spec (set_replayFrom settings) 0); [done|].
    rewrite !lastn_filter, !list_filter_filter by done. apply list_filter_ext.
    intros e _. rewrite <-Z.leb_antisym. by rewrite andb_assoc.
  - destruct (Z.gtb_spec (set_replayLast settings) 0); [|lia]. cbn [andb].
    rewrite H4, H8. destruct (Z.gtb_spec (Z.of_nat (List.length (l_events l))) 0).
    + apply replay_last_filter; try done; lia.
    + assert (l_events l = []) as -> by (apply length_zero_iff_nil; lia).
      by destruct (_ =? 0).
Qed.
End Refine.

(** ** Properties *)

Definition start_log (scope : Scope) (cfg : Config) : Log :=
  mkLog scope (st_bufferLimit (New scope cfg)) [] false.

(** C1: refinement. Whatever operations run, in whatever interleaving and whatever the
    runtime chooses, the stream is the append-only log of the events it accepted: numbers
    and logical times are the positions 1, 2, 3, ..., a refused event leaves no trace, the
    buffer is the newest [bufferLimit] events, and nothing is accepted after [Close]. *)
Theorem stream_refines_log `{GoStd} (scope : Scope) (cfg : Config) (ops : list op) :
  Z.of_nat (List.length ops) < two64 →
  refines (run ops (New scope cfg)) (log_run ops (start_log scope cfg)).
Proof. intros Hfit. apply refines_run; [apply refines_New|]. simpl. lia. Qed.

(** replay windows. On a reachable stream [Replay] returns, in order, the selected
    events among the newest [min(bufferLimit, last)] of the log from [from] on (nothing
    under [WithNoReplay]); by default bundles are expanded before the filter is applied. *)
Theorem Replay_spec `{GoStd} (scope : Scope) (cfg : Config) (ops : list op) (f : Filter)
    (opts : list (subscribeSettings → subscribeSettings)) :
  let settings := apply_opts opts zero_settings in
  let l := log_run ops (start_log scope cfg) in
  Z.of_nat (List.length ops) < two64 →
  0 ≤ set_replayFrom settings → 0 ≤ set_replayLast settings < two64 →
  Replay (run ops (New scope cfg)) f opts
  = if set_rawStream settings then Ok (List.filter (Match f) (window settings l))
    else expand_all f (window settings l).
Proof.
  intros settings l Hfit Hf Hl.
  assert (refines (run ops (New scope cfg)) l) as R
    by (apply refines_run; [apply refines_New|simpl; lia]).
  unfold Replay, replayLogicalLocked. fold settings.
  rewrite !(replay_window _ _ _ _ R Hf Hl).
  destruct (set_rawStream settings); [done|].
  by rewrite (list_filter_all (Match zero_filter)) by (intros; apply zero_filter_match).
Qed.

(** *** A run on concrete events *)

Definition sample_event (ty : string) : Event :=
  mkEvent (s2b ty) (mkSource (s2b "skill") (s2b "s1") []) 0 StatusRunning
    (Some (s2b "{}")) 0 zero_time zero_scope None.
Definition sample_cfg : Config := mkConfig 2 false.
Definition sample_ops : list op :=
  [OpEmit (λ _ _, quiet) id (s2b "2024-05-01T00:00:00Z") (sample_event "a");
   OpSubscribe (λ _ _, quiet) zero_filter [];
   OpEmit (λ _ _, quiet) reverse (s2b "2024-05-01T00:00:01Z") (sample_event "b");
   OpEmit (λ _ _, quiet) reverse (s2b "2024-05-01T00:00:02Z") (sample_event "c")].

Lemma stream_refines_log_witness :
  let s := @run plain_std sample_ops (New zero_scope sample_cfg) in
  refines s (log_run sample_ops (start_log zero_scope sample_cfg)) ∧
  map ev_SequenceNumber (st_buffer s) = [2; 3].
Proof.
  split; [|vm_compute; reflexivity].
  apply (@stream_refines_log plain_std). vm_compute. reflexivity.
Defined.

Lemma Replay_spec_witness :
  let s := @run plain_std sample_ops (New zero_scope sample_cfg) in
  @Replay plain_std s zero_filter [WithReplayLast 1]
  = @expand_all plain_std zero_filter
      (window (apply_opts [WithReplayLast 1] zero_settings)
         (log_run sample_ops (start_log zero_scope sample_cfg))).
Proof.
  apply (@Replay_spec plain_std zero_scope sample_cfg sample_ops zero_filter
    [WithReplayLast 1]); vm_compute; try split; congruence.
Defined.
