(* ===== verification/StreamDelivery.v ===== *)
(** What a stream promises its subscribers: which events reach them and in
    which order, that no send meets a closed channel, and how the catch-up of a
    new subscription ends. *)
From S2P Require Import Prelude Json GoText Event Bundle Stream StreamLog.

(** ** Subscriptions as queues *)

(** Everything sent to a subscriber: already received, then queued. *)
Definition delivered (sub : Subscription) : list Event := sub_received sub ++ sub_queue sub.

(** Sends that succeed before the channel is full. *)
Definition room (sub : Subscription) : nat :=
  sub_waiting sub + (sub_cap sub - List.length (sub_queue sub)).

Record sub_ok (sub : Subscription) : Prop := {
  ok_cap : (List.length (sub_queue sub) ≤ sub_cap sub)%nat;
  ok_waiting : (0 < sub_waiting sub)%nat → sub_queue sub = [];
  ok_closed : sub_closed sub = true → sub_waiting sub = 0%nat }.

(** Two states of one subscription that differ by deliveries only. *)
Definition grows (sub sub' : Subscription) (new : list Event) : Prop :=
  sub_ok sub' ∧ sub_id sub' = sub_id sub ∧ sub_filter sub' = sub_filter sub ∧
  sub_expanded sub' = sub_expanded sub ∧ sub_closed sub' = sub_closed sub ∧
  sub_done sub' = sub_done sub ∧ delivered sub' = delivered sub ++ new ∧
  (room sub = room sub' + List.length new)%nat.

Lemma grows_refl sub : sub_ok sub → grows sub sub [].
Proof. intros H. unfold grows. rewrite app_nil_r. simpl. split_and!; auto; lia. Qed.

Lemma grows_trans s1 s2 s3 l1 l2 :
  grows s1 s2 l1 → grows s2 s3 l2 → grows s1 s3 (l1 ++ l2).
Proof.
  intros (?&?&?&?&?&?&D1&R1) (?&?&?&?&?&?&D2&R2). unfold grows.
  rewrite length_app. split_and!; try congruence; [|lia].
  by rewrite D2, D1, app_assoc.
Qed.

Lemma has_room_room sub : sub_ok sub → (has_room sub = true ↔ (0 < room sub)%nat).
Proof.
  intros [H1 _ _]. unfold has_room, room.
  rewrite orb_true_iff, !Nat.ltb_lt. lia.
Qed.

Lemma grows_push e sub :
  sub_ok sub → sub_closed sub = false → has_room sub = true → grows sub (push e sub) [e].
Proof.
  intros Hok Hc Hr. apply has_room_room in Hr as Hr'; [|done]. destruct Hok as [H1 H2 H3].
  destruct sub as [i f x c p q w r d k]. unfold grows, delivered, room in *. simpl in *.
  destruct w as [|w]; simpl in *.
  - rewrite length_app. simpl. rewrite app_assoc.
    split_and!; try done; [|lia]. split; simpl; rewrite ?length_app; simpl; [lia..|done].
  - rewrite (H2 ltac:(lia)) in *. simpl in *. rewrite !app_nil_r.
    split_and!; try done; [|lia]. split; simpl; [lia|done|congruence].
Qed.

(** The environment of one send lets the channel decide. *)
Definition calm (env : sel_env) : Prop := o_ctx env = false ∧ o_done env = false.

(** A [select] takes one of its ready cases. *)
Lemma select_case_ready send done_ ctx pick :
  match select_case send done_ ctx pick with
  | SelSend => send = true
  | SelDone => done_ = true
  | SelCtx => ctx = true
  | SelDefault => send = false ∧ done_ = false ∧ ctx = false
  end.
Proof.
  unfold select_case. destruct send, done_, ctx; simpl app; try done; cbn [List.length];
    pose proof (Nat.mod_upper_bound pick 3); pose proof (Nat.mod_upper_bound pick 2);
    pose proof (Nat.mod_upper_bound pick 1);
    match goal with |- context [nth ?n _ _] => destruct n as [|[|[|?]]] end;
    try done; exfalso; lia.
Qed.

Lemma send1_spec env e sub :
  sub_ok sub → sub_closed sub = false →
  ∃ new, grows sub (send1 env e sub).1 new ∧ new `sublist_of` [e] ∧
    (send1 env e sub).2 ≠ SentPanic ∧
    (calm env → sub_done sub = false → (0 < room sub)%nat →
     new = [e] ∧ (send1 env e sub).2 = SentNext).
Proof.
  intros Hok Hc. unfold send1, calm. rewrite Hc, orb_false_r.
  pose proof (has_room_room sub Hok) as Hroom.
  pose proof (select_case_ready (has_room sub) (sub_done sub || o_done env)
    (o_ctx env) (o_pick env)) as Hready.
  destruct (select_case _ _ _ _) eqn:Es.
  - exists [e]. split_and!; [by apply grows_push|done|done|done].
  - exists []. split_and!; [by apply grows_refl|apply sublist_nil_l|done|].
    intros [H1 H2] Hd Hr. apply Hroom in Hr. rewrite H1, H2, Hd, Hr in Es. done.
  - exists []. split_and!; [by apply grows_refl|apply sublist_nil_l|done|].
    intros [H1 H2] Hd Hr. apply Hroom in Hr. rewrite H1, H2, Hd, Hr in Es. done.
  - exists []. case_decide; (split_and!; [by apply grows_refl|apply sublist_nil_l|done|]);
      intros [H1 H2] Hd Hr; apply Hroom in Hr; rewrite H1, H2, Hd, Hr in Es; done.
Qed.

Lemma send_list_spec es : ∀ env sub,
  sub_ok sub → sub_closed sub = false →
  ∃ new, grows sub (send_list env es sub).1 new ∧ new `sublist_of` es ∧
    (send_list env es sub).2 ≠ SentPanic ∧
    ((∀ j, calm (env j)) → sub_done sub = false → (List.length es ≤ room sub)%nat →
     new = es ∧ (send_list env es sub).2 = SentNext).
Proof.
  induction es as [|e es IH]; intros env sub Hok Hc; simpl.
  { exists []. split_and!; [by apply grows_refl|done..]. }
  destruct (send1_spec (env 0%nat) e sub Hok Hc) as (new & Hg & Hs & Hp & Hroom).
  destruct (send1 _ _ _) as [sub' r] eqn:E. simpl in *.
  pose proof Hg as (Hok' & _ & _ & _ & Hc' & Hd' & _ & Hr').
  destruct r as [| |err|]; simpl; try done.
  - destruct (IH (λ j, env (S j)) sub' Hok' ltac:(congruence)) as (new' & Hg' & Hs' & Hp' & Hroom').
    exists (new ++ new'). split_and!; [by eapply grows_trans| |done|].
    { change (e :: es) with ([e] ++ es). by apply sublist_app. }
    intros Hcalm Hd Hr. destruct (Hroom (Hcalm 0%nat) Hd ltac:(lia)) as [-> _].
    simpl in Hr'. destruct (Hroom' (λ j, Hcalm (S j)) ltac:(congruence) ltac:(lia)) as [-> ->]. done.
  - exists new. split_and!; [done|by etrans; [apply Hs|apply sublist_skip, sublist_nil_l]|done|].
    intros Hcalm Hd Hr. by destruct (Hroom (Hcalm 0%nat) Hd ltac:(lia)).
  - exists new. split_and!; [done|by etrans; [apply Hs|apply sublist_skip, sublist_nil_l]|done|].
    intros Hcalm Hd Hr. by destruct (Hroom (Hcalm 0%nat) Hd ltac:(lia)).
Qed.

Section Delivery.
Context {std : GoStd}.

(** What a matching subscriber is sent for one prepared event: the event, or
    the selected part of a bundle. *)
Definition wanted (ev : Event) (sub : Subscription) : list Event :=
  if sub_expanded sub && is_bundle ev then
    match FilterBundleEvent ev (sub_filter sub) with Ok es => es | Err _ => [] end
  else [ev].

Lemma send_spec env ev sub :
  sub_ok sub → sub_closed sub = false →
  ∃ new, grows sub (send env ev sub).1 new ∧ new `sublist_of` wanted ev sub ∧
    (send env ev sub).2 ≠ SentPanic ∧
    ((∀ j, calm (env j)) → sub_done sub = false →
     (List.length (wanted ev sub) ≤ room sub)%nat →
     new = wanted ev sub).
Proof.
  intros Hok Hc. unfold send, wanted, sendExpanded.
  destruct (sub_expanded sub && is_bundle ev).
  - destruct (FilterBundleEvent ev (sub_filter sub)) as [es|err].
    + destruct (send_list_spec es env sub Hok Hc) as (new & ? & ? & ? & H).
      exists new. split_and!; try done. intros. by apply H.
    + exists []. split_and!; try done. by apply grows_refl.
  - destruct (send1_spec (env 0%nat) ev sub Hok Hc) as (new & ? & ? & ? & H).
    exists new. split_and!; try done. intros. apply H; [done..|]. simpl in *. lia.
Qed.

(** ** The stream invariant *)

Record inv (s : Stream) : Prop := {
  inv_next : 0 ≤ st_nextSubID s;
  inv_ids : ∀ id sub, st_subs s !! id = Some sub → sub_ok sub ∧ 1 ≤ id ≤ st_nextSubID s;
  inv_attached : NoDup (st_subscribers s) ∧
    ∀ id, id ∈ st_subscribers s →
      ∃ sub, st_subs s !! id = Some sub ∧ sub_closed sub = false }.

(** Delivering to a list of attached subscribers. *)
Lemma deliver_spec env ev ids s :
  NoDup ids → (∀ id, id ∈ ids → ∃ sub, st_subs s !! id = Some sub ∧
                 sub_ok sub ∧ sub_closed sub = false) →
  (deliver env ev ids s).2 ≠ Panics ∧
  st_subscribers (deliver env ev ids s).1 = st_subscribers s ∧
  st_nextSubID (deliver env ev ids s).1 = st_nextSubID s ∧
  (∀ id, id ∉ ids → st_subs (deliver env ev ids s).1 !! id = st_subs s !! id) ∧
  (∀ id sub, id ∈ ids → st_subs s !! id = Some sub →
     ∃ sub' new, st_subs (deliver env ev ids s).1 !! id = Some sub' ∧ grows sub sub' new ∧
       new `sublist_of` wanted ev sub ∧
       ((deliver env ev ids s).2 = Done → (∀ i j, calm (env i j)) → sub_done sub = false →
        (List.length (wanted ev sub) ≤ room sub)%nat → new = wanted ev sub)).
Proof.
  intros Hnd. revert env s. induction Hnd as [|id ids Hid Hnd IH]; intros env s Hsubs.
  { split_and!; try done. intros id sub Hin. by apply not_elem_of_nil in Hin. }
  destruct (Hsubs id ltac:(by left)) as (sub & Hsub & Hok & Hc). simpl. rewrite Hsub.
  destruct (send_spec (env 0%nat) ev sub Hok Hc) as (new & Hg & Hs & Hp & Hroom).
  destruct (send (env 0%nat) ev sub) as [sub' r] eqn:Er. simpl in *.
  assert (st_subs (set_sub id sub' s) = <[id := sub']> (st_subs s)) as Hset by by destruct s.
  assert (st_subscribers (set_sub id sub' s) = st_subscribers s) as Hatt by by destruct s.
  assert (st_nextSubID (set_sub id sub' s) = st_nextSubID s) as Hnx by by destruct s.
  assert (∀ id', id' ∈ ids → ∃ sub0, st_subs (set_sub id sub' s) !! id' = Some sub0 ∧
    sub_ok sub0 ∧ sub_closed sub0 = false) as Hsubs'.
  { intros id' Hin. rewrite Hset, lookup_insert_ne by (intros ->; done).
    apply Hsubs. by right. }
  assert (∀ o, o ≠ Panics → o ≠ Done →
    o ≠ Panics ∧ st_subscribers (set_sub id sub' s) = st_subscribers s ∧
    st_nextSubID (set_sub id sub' s) = st_nextSubID s ∧
    (∀ id0, id0 ∉ id :: ids → st_subs (set_sub id sub' s) !! id0 = st_subs s !! id0) ∧
    (∀ id0 sub0, id0 ∈ id :: ids → st_subs s !! id0 = Some sub0 →
     ∃ sub0' new0, st_subs (set_sub id sub' s) !! id0 = Some sub0' ∧ grows sub0 sub0' new0 ∧
       new0 `sublist_of` wanted ev sub0 ∧
       (o = Done → (∀ i j, calm (env i j)) → sub_done sub0 = false →
        (List.length (wanted ev sub0) ≤ room sub0)%nat → new0 = wanted ev sub0))) as Hstop.
  { intros o Ho Ho'. split_and!; try done.
    - intros id0 Hn. rewrite Hset, lookup_insert_ne; [done|]. intros ->. apply Hn. by left.
    - intros id0 sub0 Hin Hsub0. rewrite Hset. destruct (decide (id0 = id)) as [->|Hne].
      + simplify_eq. exists sub', new. by rewrite lookup_insert_eq.
      + apply elem_of_cons in Hin as [?|Hin]; [done|]. exists sub0, [].
        rewrite lookup_insert_ne by done. split_and!; [done| |apply sublist_nil_l|done].
        apply grows_refl. destruct (Hsubs id0 ltac:(by right)) as (?&?&?&?). by simplify_eq. }
  assert ((∃ err, r = SentErr err) ∨ r = SentNext ∨ r = SentStop) as Hr
    by (destruct r; eauto; done).
  destruct Hr as [[err ->]|Hr]; [by apply Hstop|].
  destruct (IH (λ i, env (S i)) (set_sub id sub' s) Hsubs') as (I1 & I2 & I3 & I4 & I5).
  assert ((match r with SentErr e => (set_sub id sub' s, Fails e)
           | SentPanic => (set_sub id sub' s, Panics)
           | _ => deliver (λ i, env (S i)) ev ids (set_sub id sub' s) end)
          = deliver (λ i, env (S i)) ev ids (set_sub id sub' s)) as ->
    by (by destruct Hr as [->| ->]).
  split_and!; [done|congruence|congruence| |].
  - intros id0 Hn. apply not_elem_of_cons in Hn as [Hne Hn].
    by rewrite I4, Hset, lookup_insert_ne by done.
  - intros id0 sub0 Hin Hsub0. destruct (decide (id0 = id)) as [->|Hne].
    + rewrite I4, Hset, lookup_insert_eq by done. simplify_eq.
      exists sub', new. split_and!; try done. intros _ Hcalm. by apply Hroom.
    + apply elem_of_cons in Hin as [?|Hin]; [done|].
      destruct (I5 id0 sub0 Hin) as (sub0' & new0 & H1 & H2 & H3 & H4).
      { by rewrite Hset, lookup_insert_ne by done. }
      exists sub0', new0. split_and!; try done. intros Hd Hcalm. by apply H4.
Qed.

Definition with_subs (subs : gmap Z Subscription) (s : Stream) : Stream :=
  let '(mkStream a b c d e f g _ k) := s in mkStream a b c d e f g subs k.

(** Changing subscriptions in place keeps the invariant. *)
Lemma inv_update s s' :
  inv s → st_nextSubID s' = st_nextSubID s → st_subscribers s' = st_subscribers s →
  (∀ id sub', st_subs s' !! id = Some sub' →
     ∃ sub, st_subs s !! id = Some sub ∧ sub_ok sub' ∧
       (id ∈ st_subscribers s → sub_closed sub' = sub_closed sub)) →
  (∀ id, is_Some (st_subs s !! id) → is_Some (st_subs s' !! id)) →
  inv s'.
Proof.
  intros [H1 H2 [H3 H4]] E1 E2 Hsub Hdom. split.
  - by rewrite E1.
  - intros id sub' Hl. destruct (Hsub _ _ Hl) as (sub & Hs & Hok & _).
    rewrite E1. split; [done|]. by apply (H2 id sub).
  - rewrite E2. split; [done|]. intros id Hin.
    destruct (H4 id Hin) as (sub & Hs & Hc).
    destruct (Hdom id ltac:(by eexists)) as [sub' Hl]. exists sub'. split; [done|].
    destruct (Hsub _ _ Hl) as (sub0 & Hs0 & _ & Hcl). simplify_eq. by rewrite Hcl.
Qed.

Definition perm_ok (perm : list Z → list Z) : Prop := ∀ l, perm l ≡ₚ l.

Lemma matching_ok s p perm :
  inv s → perm_ok perm →
  NoDup (matching s p (perm (st_subscribers s))) ∧
  (∀ id, id ∈ matching s p (perm (st_subscribers s)) ↔
     id ∈ st_subscribers s ∧ ∃ sub, st_subs s !! id = Some sub ∧ matched p sub = true).
Proof.
  intros [_ _ [Hnd _]] Hperm. unfold perm_ok in Hperm. split.
  - unfold matching. apply NoDup_ListNoDup, List.NoDup_filter, NoDup_ListNoDup.
    by rewrite Hperm.
  - intros id. unfold matching. rewrite elem_of_list_filter', Hperm.
    destruct (st_subs s !! id); naive_solver.
Qed.

(** One emission, subscriber by subscriber. *)
Lemma emit_spec env perm now ev s :
  inv s → perm_ok perm →
  inv (Emit env perm now ev s).1 ∧ (Emit env perm now ev s).2 ≠ Panics ∧
  ∀ p, st_closed s = false →
    prepare ev (st_scope s) (u64 (st_nextSeq s + 1)) (u64 (st_nextLogicalTime s + 1)) now = Ok p →
    ∀ id sub, st_subs s !! id = Some sub →
      ∃ sub' new, st_subs (Emit env perm now ev s).1 !! id = Some sub' ∧ grows sub sub' new ∧
        (if decide (id ∈ st_subscribers s ∧ matched p sub = true) then
           new `sublist_of` wanted p sub ∧
           ((Emit env perm now ev s).2 = Done → (∀ i j, calm (env i j)) →
            sub_done sub = false → (List.length (wanted p sub) ≤ room sub)%nat →
            new = wanted p sub)
         else new = []).
Proof.
  intros Hinv Hperm. unfold Emit. destruct (st_closed s) eqn:Hcl; [done|].
  destruct (prepare _ _ _ _ _) as [p|] eqn:Hp; [|done].
  destruct (matching_ok s p perm Hinv Hperm) as [Hnd Hin].
  pose proof Hinv as [H1 H2 [H3 H4]].
  destruct s as [sc lim sq lt si cl buf subs ks].
  set (s1 := mkStream _ _ _ _ _ _ (appendBufferLocked _ _ _) _ _).
  set (ids := matching _ _ _) in *. cbn [st_subs st_subscribers st_nextSubID] in *.
  destruct (deliver_spec env p ids s1) as (D1 & D2 & D3 & D4 & D5); [done| |].
  { intros id [Hk (sub & Hs & _)]%Hin. exists sub. split_and!; [done|by apply (H2 id)|].
    destruct (H4 id Hk) as (sub0 & Hs0 & Hc). cbn in Hs0. by simplify_eq. }
  assert (∀ id sub, subs !! id = Some sub →
    ∃ sub' new, st_subs (deliver env p ids s1).1 !! id = Some sub' ∧ grows sub sub' new ∧
      (if decide (id ∈ ks ∧ matched p sub = true) then
         new `sublist_of` wanted p sub ∧
         ((deliver env p ids s1).2 = Done → (∀ i j, calm (env i j)) → sub_done sub = false →
          (List.length (wanted p sub) ≤ room sub)%nat → new = wanted p sub)
       else new = [])) as Hsubs.
  { intros id sub Hs. destruct (decide (id ∈ ids)) as [Hi|Hi].
    - destruct (D5 id sub Hi Hs) as (sub' & new & ? & ? & ? & ?). exists sub', new.
      split_and!; [done..|]. rewrite decide_True; [done|].
      apply Hin in Hi as (? & ? & ? & ?). by simplify_eq.
    - rewrite D4 by done. exists sub, []. split_and!; [done|by apply grows_refl, (H2 id sub)|].
      rewrite decide_False; [done|]. intros [Hk Hm]. apply Hi, Hin. eauto. }
  split_and!; [|done|].
  - eapply (inv_update _ _ Hinv); [done..| |].
    + intros id sub' Hs'. destruct (subs !! id) as [sub|] eqn:Hs.
      * destruct (Hsubs id sub Hs) as (sub'' & new & Hs'' & (Hok&_&_&_&Hc&_) & _).
        exists sub. simplify_eq. done.
      * rewrite D4 in Hs'; [cbn in Hs'; congruence|].
        intros (_ & sub & Hsub & _)%Hin. congruence.
    + intros id [sub Hs]. destruct (Hsubs id sub Hs) as (? & ? & ? & _). by eexists.
  - intros p' _ [= <-] id sub Hs. by apply Hsubs.
Qed.

(** ** Subscribing *)

Lemma catch_up_spec replay : ∀ env sub,
  sub_ok sub → sub_closed sub = false →
  ∃ new, grows sub (catch_up env replay sub).1 new ∧ (catch_up env replay sub).2 ≠ SentPanic.
Proof.
  induction replay as [|e replay IH]; intros env sub Hok Hc; simpl.
  { exists []. by split; [apply grows_refl|]. }
  destruct (send_spec (env 0%nat) e sub Hok Hc) as (new & Hg & _ & Hp & _).
  destruct (send _ _ _) as [sub' r]. simpl in *.
  destruct r; simpl; try (by eauto).
  all: destruct (IH (λ i, env (S i)) sub') as (new' & Hg' & Hp'); [by apply Hg|by destruct Hg as (_&_&_&_&->&_)|].
  all: exists (new ++ new'); split; [by eapply grows_trans|done].
Qed.

(** A send to a channel nobody reads yet. *)
Lemma send_unread env ev sub :
  calm (env 0%nat) → sub_done sub = false → sub_closed sub = false → sub_waiting sub = 0%nat →
  (sub_expanded sub = true → is_bundle ev = false) →
  send env ev sub
  = if (List.length (sub_queue sub) <? sub_cap sub)%nat then (push ev sub, SentNext)
    else if decide (sub_policy sub = OverflowError) then (sub, SentErr ErrSubscriberOverflow)
    else (sub, SentNext).
Proof.
  intros [Hctx Hod] Hd Hc Hw Hb. unfold send.
  replace (sub_expanded sub && is_bundle ev) with false
    by (destruct (sub_expanded sub); [by rewrite Hb|done]).
  unfold send1, has_room. rewrite Hw, Hc, Hd, Hctx, Hod. simpl.
  by destruct (_ <? _)%nat.
Qed.

Lemma catch_up_unread replay : ∀ env sub,
  (∀ i j, calm (env i j)) → sub_done sub = false → sub_closed sub = false →
  sub_waiting sub = 0%nat → (List.length (sub_queue sub) ≤ sub_cap sub)%nat →
  (sub_expanded sub = true → Forall (λ e, is_bundle e = false) replay) →
  let free := (sub_cap sub - List.length (sub_queue sub))%nat in
  catch_up env replay sub
  = (let '(mkSub i f x c p q w r d k) := sub in mkSub i f x c p (q ++ take free replay) w r d k,
     if decide (sub_policy sub = OverflowError ∧ (free < List.length replay)%nat)
     then SentErr ErrSubscriberOverflow else SentNext).
Proof.
  induction replay as [|e replay IH]; intros env sub Hcalm Hd Hc Hw Hcap Hb free; simpl.
  { rewrite decide_False by (intros [_ ?]; simpl in *; lia). destruct sub. simpl in *. by rewrite take_nil, app_nil_r. }
  rewrite send_unread; try done;
    [|intros Hx; specialize (Hb Hx); by inversion Hb].
  assert (sub_expanded sub = true → Forall (λ e, is_bundle e = false) replay) as Hb'
    by (intros Hx; specialize (Hb Hx); by inversion Hb).
  destruct (Nat.ltb_spec (List.length (sub_queue sub)) (sub_cap sub)) as [Hlt|Hge].
  - destruct sub as [i f x c p q w r d k]. simpl in *. subst w.
    rewrite IH; simpl; rewrite ?length_app; simpl; try done; try lia.
    subst free. rewrite <-app_assoc.
    replace (c - List.length q)%nat with (S (c - (List.length q + 1))) by lia.
    simpl. f_equal. apply decide_ext. split; intros [??]; (split; [done|lia]).
  - destruct (decide (sub_policy sub = OverflowError)) as [Hp|Hp].
    + rewrite decide_True by (split; [done|]; lia). subst free.
      destruct sub. simpl in *. replace (_ - _)%nat with 0%nat by lia. simpl.
      by rewrite app_nil_r.
    + rewrite IH by done. rewrite !decide_False by naive_solver. subst free.
      destruct sub. simpl in *. by replace (_ - _)%nat with 0%nat by lia.
Qed.

Lemma inv_Subscribe env f opts s :
  inv s → st_nextSubID s + 1 < two64 →
  inv (Subscribe env f opts s).1 ∧
  st_nextSubID (Subscribe env f opts s).1 ≤ st_nextSubID s + 1.
Proof.
  intros Hinv Hfit. pose proof Hinv as [H1 H2 [H3 H4]]. unfold Subscribe.
  destruct (st_closed s); [split; [done|simpl; lia]|].
  destruct (if set_rawStream _ then _ else _) as [replay|]; [|split; [done|simpl; lia]].
  destruct s as [sc lim sq lt si cl buf subs ks]. simpl in *.
  assert (u64 (si + 1) = si + 1) as Hid by (unfold u64; rewrite Z.mod_small; lia).
  rewrite Hid. set (sub := mkSub _ _ _ _ _ _ _ _ _ _).
  destruct (catch_up_spec replay env sub) as (new & Hg & Hp); [split; simpl; done || lia|done|].
  destruct (catch_up env replay sub) as [sub' r] eqn:Er. simpl in *.
  assert (inv (mkStream sc lim sq lt (si + 1) cl buf (<[si + 1 := sub']> subs) (ks ++ [si + 1]))).
  { split; simpl; [lia| |split].
    - intros id sub0. rewrite lookup_insert_Some. intros [[<- <-]|[Hne Hl]].
      + split; [apply Hg|lia].
      + destruct (H2 _ _ Hl). split; [done|lia].
    - apply NoDup_app. split_and!; [done| |apply NoDup_singleton].
      intros id Hin ->%list_elem_of_singleton.
      destruct (H4 _ Hin) as (sub0 & Hl & _). apply H2 in Hl. lia.
    - intros id [Hin| ->%list_elem_of_singleton]%elem_of_app.
      + destruct (H4 _ Hin) as (sub0 & Hl & Hc). exists sub0. split; [|done].
        rewrite lookup_insert_ne; [done|]. apply H2 in Hl. lia.
      + exists sub'. rewrite lookup_insert_eq. split; [done|].
        by destruct Hg as (_&_&_&_&->&_). }
  destruct r; simpl; (split; [done|lia]).
Qed.

(** ** Cancelling, closing and receiving *)

Lemma inv_upd g id s :
  inv s → (∀ sub, sub_ok sub → sub_ok (g sub)) →
  (id ∈ st_subscribers s → ∀ sub, sub_closed (g sub) = sub_closed sub) →
  inv (upd_sub g id s).
Proof.
  intros Hinv Hok Hc. destruct s as [sc lim sq lt si cl buf subs ks]. simpl in *.
  eapply (inv_update _ _ Hinv); [done..| |]; simpl.
  - intros id' sub'. rewrite lookup_alter_Some. intros [(<- & sub & Hs & ->)|[Hne Hs]].
    + exists sub. split_and!; [done| |auto]. by apply Hok, (inv_ids _ Hinv id).
    + exists sub'. split_and!; [done|by apply (inv_ids _ Hinv id')|done].
  - intros id' Hs. by rewrite lookup_alter_is_Some.
Qed.

Lemma inv_closeDone id s : inv s → inv (closeDone id s).
Proof.
  intros H. apply inv_upd; [done| |by intros _ []].
  intros [] [H1 H2 H3]. by split.
Qed.

Lemma inv_Next ctx pick id s : inv s → inv (upd_sub (λ sub, (Next ctx pick sub).1) id s).
Proof.
  intros H. apply inv_upd; [done| |].
  - intros [i f x c p q w r d k] [H1 H2 H3]. simpl in *. unfold Next. simpl.
    destruct (select_case _ _ _ _) eqn:Es; [|done..|].
    + destruct q as [|e q]; [done|]. split; simpl in *; [lia| |done].
      intros Hw. by specialize (H2 Hw).
    + pose proof (select_case_ready (negb (bool_decide (q = [])) || k) false ctx pick) as Hr.
      rewrite Es in Hr. destruct Hr as ([Hq ->]%orb_false_iff & _ & _).
      apply negb_false_iff, bool_decide_eq_true in Hq as ->. by split; simpl.
  - intros _ [i f x c p q w r d k]. unfold Next. simpl.
    destruct (select_case _ _ _ _); [by destruct q|done..].
Qed.

Lemma inv_detach id s : inv s → inv (detach id s).
Proof.
  intros [H1 H2 [H3 H4]]. destruct s as [sc lim sq lt si cl buf subs ks]. simpl in *.
  split; simpl; [done| |split].
  - intros id' sub'. rewrite lookup_alter_Some. intros [(<- & sub & Hs & ->)|[Hne Hs]];
      [|by apply H2]. destruct (H2 _ _ Hs) as [[K1 K2 K3] ?]. split; [|done].
    destruct sub. split; simpl in *; [done|lia|done].
  - by apply NoDup_ListNoDup, List.NoDup_filter, NoDup_ListNoDup.
  - intros id' [Hin Hb]%elem_of_list_filter'. apply negb_true_iff, Z.eqb_neq in Hb.
    destruct (H4 _ Hin) as (sub & Hs & Hc). exists sub.
    by rewrite lookup_alter_ne by congruence.
Qed.

Lemma inv_closeEnd ids s : inv s → inv (closeEnd ids s).
Proof. intros H. induction ids as [|i ids IH]; simpl; [done|]. by apply inv_detach. Qed.

Lemma inv_closeBegin s : inv s → inv (closeBegin s).1.
Proof.
  intros H. unfold closeBegin. destruct (st_closed s); [done|].
  destruct s as [sc lim sq lt si cl buf subs ks]. simpl.
  assert (inv (mkStream sc lim sq lt si true buf subs ks)) as H'.
  { destruct H as [H1 H2 [H3 H4]]. by split. }
  generalize ks at 2. intros l. induction l as [|i l IH]; simpl; [done|].
  by apply inv_closeDone.
Qed.

Lemma nextSubID_step o s :
  inv s → st_nextSubID s + 1 < two64 → st_nextSubID (step o s) ≤ st_nextSubID s + 1.
Proof.
  intros Hinv Hfit. destruct o as [env perm now ev|env f opts|id|id| |ids|id ctx pick]; simpl.
  - unfold Emit. destruct (st_closed s); [simpl; lia|].
    destruct (prepare _ _ _ _ _) as [p|]; [|simpl; lia].
    destruct s as [sc lim sq lt si cl buf subs ks].
    assert (∀ ids s env, st_nextSubID (deliver env p ids s).1 = st_nextSubID s) as ->;
      [|simpl; lia]. clear. intros ids. induction ids as [|id ids IH]; intros s env; [done|].
    simpl. destruct (st_subs s !! id); [|apply IH].
    destruct (send _ _ _) as [? []]; simpl; rewrite ?IH; by destruct s.
  - by apply inv_Subscribe.
  - destruct s; simpl in *. lia.
  - destruct s; simpl in *. lia.
  - unfold closeBegin. destruct (st_closed s); [simpl; lia|].
    destruct s as [sc lim sq lt si cl buf subs ks]. simpl.
    assert (∀ l s, st_nextSubID (foldr closeDone s l) = st_nextSubID s) as ->; [|simpl; lia].
    clear. intros l s. induction l as [|i l IH]; [done|]. simpl. rewrite <-IH.
    by destruct (foldr closeDone s l).
  - induction ids as [|i ids IH]; simpl; [lia|]. destruct (closeEnd ids s). simpl in *. lia.
  - destruct s; simpl in *. lia.
Qed.

Definition op_ok (o : op) : Prop :=
  match o with OpEmit _ perm _ _ => perm_ok perm | _ => True end.

Lemma inv_step o s : inv s → op_ok o → st_nextSubID s + 1 < two64 → inv (step o s).
Proof.
  intros Hinv Ho Hfit. destruct o as [env perm now ev|env f opts|id|id| |ids|id ctx pick]; simpl.
  - by apply emit_spec.
  - by apply inv_Subscribe.
  - by apply inv_closeDone.
  - by apply inv_detach.
  - by apply inv_closeBegin.
  - by apply inv_closeEnd.
  - by apply inv_Next.
Qed.

Lemma inv_run ops s :
  inv s → Forall op_ok ops → st_nextSubID s + Z.of_nat (List.length ops) < two64 →
  inv (run ops s).
Proof.
  intros Hinv Hops. revert s Hinv. induction Hops as [|o ops Ho _ IH]; intros s Hinv Hfit; [done|].
  simpl in *. apply IH; [apply inv_step; [done..|lia]|].
  pose proof (nextSubID_step o s Hinv ltac:(lia)). lia.
Qed.

Lemma inv_New scope cfg : inv (New scope cfg).
Proof.
  split; simpl; [done|by intros|split; [constructor|]]. intros id H.
  by apply not_elem_of_nil in H.
Qed.
End Delivery.

(** ** Properties *)

(** C2: fan-out. One emission by a stream that satisfies the invariant gives every
    attached subscriber it matches an ordered part of the event (or of the selected events
    of a bundle), all of it when the emission succeeds, the channel has room and nobody
    cancels; every other subscription is left as it was, and the order in which the
    subscriber map is iterated does not matter. *)
Theorem Emit_delivers `{GoStd} (env : nat → nat → sel_env) (perm : list Z → list Z)
    (now : bytes) (ev p : Event) (s : Stream) :
  inv s → perm_ok perm → st_closed s = false →
  prepare ev (st_scope s) (u64 (st_nextSeq s + 1)) (u64 (st_nextLogicalTime s + 1)) now = Ok p →
  ∀ id sub, st_subs s !! id = Some sub →
    ∃ sub' new, st_subs (Emit env perm now ev s).1 !! id = Some sub' ∧
      delivered sub' = delivered sub ++ new ∧
      (if decide (id ∈ st_subscribers s ∧ matched p sub = true) then
         new `sublist_of` wanted p sub ∧
         ((Emit env perm now ev s).2 = Done → (∀ i j, calm (env i j)) →
          sub_done sub = false → (List.length (wanted p sub) ≤ room sub)%nat →
          new = wanted p sub)
       else new = []).
Proof.
  intros Hinv Hperm Hc Hp id sub Hs.
  destruct (emit_spec env perm now ev s Hinv Hperm) as (_ & _ & H1).
  destruct (H1 p Hc Hp id sub Hs) as (sub' & new & ? & (_&_&_&_&_&_&?&_) & ?). eauto 10.
Qed.

(** C3: safety. In every reachable state, after any interleaving of emissions,
    subscriptions and the separate critical sections of [Cancel] and [Close], an emission
    never sends on a closed channel (in Go: panics), and the invariant holds. *)
Theorem run_never_panics `{GoStd} (scope : Scope) (cfg : Config) (ops : list op)
    (env : nat → nat → sel_env) (perm : list Z → list Z) (now : bytes) (ev : Event) :
  Forall op_ok ops → perm_ok perm → Z.of_nat (List.length ops) < two64 →
  inv (run ops (New scope cfg)) ∧ (Emit env perm now ev (run ops (New scope cfg))).2 ≠ Panics.
Proof.
  intros Hops Hperm Hfit.
  assert (inv (run ops (New scope cfg))) as Hinv
    by (apply inv_run; [apply inv_New|done|simpl; lia]).
  split; [done|]. by apply emit_spec.
Qed.

(** catch-up. A subscription made while nobody interferes gets the first [cap] events
    of its replay, where [cap] is the requested buffer (enlarged to the replay for raw
    subscribers). Under the error policy a longer replay does not return the overflow
    error: [Subscribe] calls [Cancel] with [deliveryMu] held and blocks forever. *)
Theorem Subscribe_catch_up `{GoStd} (env : nat → nat → sel_env) (f : Filter)
    (opts : list (subscribeSettings → subscribeSettings)) (s : Stream) (replay : list Event) :
  let settings := apply_opts opts default_settings in
  let want := Z.to_nat (Z.max 0 (set_buffer settings)) in
  let cap := if set_rawStream settings then (want `max` List.length replay)%nat else want in
  let id := u64 (st_nextSubID s + 1) in
  st_closed s = false → (∀ i j, calm (env i j)) →
  (if set_rawStream settings then Ok (replayLocked s f settings)
   else replayLogicalLocked s f settings) = Ok replay →
  (set_rawStream settings = false → Forall (λ e, is_bundle e = false) replay) →
  let r := Subscribe env f opts s in
  r.2 = (if decide (set_overflowPolicy settings = OverflowError ∧ (cap < List.length replay)%nat)
         then SubDeadlock else Subscribed id) ∧
  st_subscribers r.1 = st_subscribers s ++ [id] ∧
  ∃ sub, st_subs r.1 !! id = Some sub ∧ delivered sub = take cap replay.
Proof.
  intros settings want cap id Hc Hcalm Hrep Hnb r. subst r. unfold Subscribe.
  fold settings want. rewrite Hc, Hrep. fold id.
  assert ((if set_rawStream settings && (want <? List.length replay)%nat
           then List.length replay else want) = cap) as ->.
  { subst cap. destruct (set_rawStream settings); [|done]. simpl.
    destruct (Nat.ltb_spec want (List.length replay)); lia. }
  destruct s as [sc lim sq lt si cl buf subs ks]. cbn [st_nextSubID st_subscribers] in *.
  rewrite catch_up_unread; simpl; try done; [|lia|].
  2:{ intros Hx. apply Hnb. by destruct (set_rawStream settings). }
  rewrite Nat.sub_0_r. case_decide; simpl; (split_and!; [done..|]);
    eexists; by rewrite lookup_insert_eq.
Qed.

(** *** A run on concrete events *)

Definition slow_opts : list (subscribeSettings → subscribeSettings) :=
  [WithSubscriberBuffer 1; WithOverflowPolicy OverflowError].

Definition sample_stream : Stream :=
  @run plain_std sample_ops (New zero_scope sample_cfg).

Lemma sample_ops_ok : Forall op_ok sample_ops.
Proof.
  repeat constructor; unfold op_ok, perm_ok; intros; simpl; try done.
  all: apply reverse_Permutation.
Qed.

Lemma sample_inv : inv sample_stream.
Proof.
  apply (@inv_run plain_std sample_ops); [apply (@inv_New)|apply sample_ops_ok|].
  by vm_compute.
Qed.

Lemma Emit_delivers_witness :
  ∃ sub sub' new,
    st_subs sample_stream !! 1 = Some sub ∧
    st_subs (@Emit plain_std (λ _ _, quiet) reverse (s2b "2024-05-01T00:00:03Z")
      (sample_event "d") sample_stream).1 !! 1 = Some sub' ∧
    delivered sub' = delivered sub ++ new ∧ new ≠ [].
Proof.
  destruct (prepare (sample_event "d") (st_scope sample_stream)
    (u64 (st_nextSeq sample_stream + 1)) (u64 (st_nextLogicalTime sample_stream + 1))
    (s2b "2024-05-01T00:00:03Z")) as [p|] eqn:Hp; [|vm_compute in Hp; discriminate].
  destruct (st_subs sample_stream !! 1) as [sub|] eqn:Hs; [|vm_compute in Hs; discriminate].
  destruct (@Emit_delivers plain_std (λ _ _, quiet) reverse (s2b "2024-05-01T00:00:03Z")
    (sample_event "d") p sample_stream) with (id := 1) (sub := sub)
    as (sub' & new & H1 & H2 & H3).
  - apply sample_inv.
  - intros l. apply reverse_Permutation.
  - vm_compute. reflexivity.
  - exact Hp.
  - exact Hs.
  - exists sub, sub', new. split; [reflexivity|]. split; [exact H1|]. split; [exact H2|].
    vm_compute in Hp. injection Hp as <-. vm_compute in Hs. injection Hs as <-.
    rewrite decide_True in H3; [|split; [vm_compute; apply list_elem_of_singleton; reflexivity|reflexivity]].
    destruct H3 as [_ H3]. rewrite H3; [discriminate|vm_compute; reflexivity|..].
    + intros i j. split; reflexivity.
    + reflexivity.
    + vm_compute. lia.
Defined.

Lemma run_never_panics_witness :
  inv (@run plain_std sample_ops (New zero_scope sample_cfg)) ∧
  (@Emit plain_std (λ _ _, quiet) reverse (s2b "2024-05-01T00:00:03Z") (sample_event "d")
     (@run plain_std sample_ops (New zero_scope sample_cfg))).2 ≠ Panics.
Proof.
  apply (@run_never_panics plain_std).
  - apply sample_ops_ok.
  - intros l. apply reverse_Permutation.
  - vm_compute. reflexivity.
Defined.

(** Two buffered events, a buffer of one and the error policy: the call never returns. *)
Lemma Subscribe_catch_up_witness :
  (@Subscribe plain_std (λ _ _, quiet) zero_filter slow_opts sample_stream).2 = SubDeadlock.
Proof.
  destruct (@replayLogicalLocked plain_std sample_stream zero_filter
    (apply_opts slow_opts default_settings)) as [replay|] eqn:Hr;
    [|vm_compute in Hr; discriminate].
  destruct (@Subscribe_catch_up plain_std (λ _ _, quiet) zero_filter slow_opts sample_stream
    replay) as (H1 & _).
  - vm_compute. reflexivity.
  - intros i j. split; reflexivity.
  - exact Hr.
  - intros _. vm_compute in Hr. injection Hr as <-. repeat constructor.
  - rewrite H1. vm_compute in Hr. injection Hr as <-. vm_compute. reflexivity.
Defined.
