(* ===== verification/Merge.v ===== *)
(** Merging streams ([src/stream/merge.go], [frame.go]): per-upstream FIFOs with
    joining of adjacent string deltas, the merge hub that collects one item per
    upstream and tick, delivery frames, and the feeders that connect an upstream
    subscription to a hub. *)
From S2P Require Import Prelude Json GoText Event Bundle Stream.

(** ** Events on their way downstream *)

Definition upstream_seq_key : bytes := s2b "upstream_sequence_number".

Definition prepareMergedEvent (event : Event) : Event :=
  let upstreamSequence := ev_SequenceNumber event in
  let md := default [] (cloneMetadata (ev_Metadata event)) in
  set_metadata (Some (map_set upstream_seq_key (AInt upstreamSequence) md)) (set_seq 0 event).

Definition prepareBundledMergedEvent (event : Event) (downstreamScope : Scope) : Event :=
  let event := prepareMergedEvent event in
  set_scope (mergeScope downstreamScope (ev_Scope event)) event.

(** ** Identities and join keys *)

(** Layer and id of the source of an upstream's first event. *)
Definition upstreamIdentity : Type := bytes * bytes.

Record joinKey := mkKey {
  jk_upstream : upstreamIdentity; jk_eventType : bytes; jk_status : bytes }.
#[export] Instance joinKey_eq_dec : EqDecision joinKey. Proof. solve_decision. Defined.

Definition upstreamIdentityOf (src : Source) : upstreamIdentity := (src_Layer src, src_ID src).
Definition joinKeyOf (event : Event) : joinKey :=
  mkKey (upstreamIdentityOf (ev_From event)) (ev_EventType event) (ev_Status event).

Definition delta_of (e : Event) : bytes := default [] (ev_Delta e).

Definition isJoinableStringDelta (delta : bytes) : bool :=
  if (List.length delta <? 2)%nat then false
  else bool_decide (head delta = Some dq) && bool_decide (last delta = Some dq).

Definition canJoinDeltas (prevDelta nextDelta : bytes) : bool :=
  isJoinableStringDelta prevDelta && isJoinableStringDelta nextDelta.

Definition canJoinEvents (base next : Event) : bool :=
  bool_decide (joinKeyOf base = joinKeyOf next) && canJoinDeltas (delta_of base) (delta_of next).

(** ** Upstream FIFOs *)

Definition defaultMergePerUpstreamBufferDepth : Z := 4096.

Record upstreamFIFO := mkFIFO {
  q_identity : upstreamIdentity; q_maxDepth : Z; q_events : list Event }.

Definition newUpstreamFIFO (identity : upstreamIdentity) (maxDepth : Z) : upstreamFIFO :=
  mkFIFO identity (if maxDepth <=? 0 then defaultMergePerUpstreamBufferDepth else maxDepth) [].

Definition fifo_enqueue (event : Event) (f : upstreamFIFO) : res stream_err upstreamFIFO :=
  if Z.of_nat (List.length (q_events f)) >=? q_maxDepth f then Err ErrBufferFull
  else Ok (mkFIFO (q_identity f) (q_maxDepth f) (q_events f ++ [event])).

Definition fifo_pop (f : upstreamFIFO) : option (Event * upstreamFIFO) :=
  match q_events f with
  | [] => None
  | e :: es => Some (e, mkFIFO (q_identity f) (q_maxDepth f) es)
  end.

(** The bytes between the quotes of a delta: [d[1:len(d)-1]]. *)
Definition inner (d : bytes) : bytes := take (List.length d - 2) (drop 1 d).

(** How many of the following events join the popped head. *)
Fixpoint join_count (event : Event) (es : list Event) : nat :=
  match es with
  | next :: es' => if canJoinEvents event next then S (join_count event es') else 0
  | [] => 0
  end.

Definition popJoinedHead (f : upstreamFIFO) : option (Event * upstreamFIFO) :=
  match fifo_pop f with
  | None => None
  | Some (event, f') =>
      let joinCount := join_count event (q_events f') in
      if (joinCount =? 0)%nat then Some (event, f')
      else
        let joined := dq :: inner (delta_of event)
                      ++ mjoin ((λ e, inner (delta_of e)) <$> take joinCount (q_events f'))
                      ++ [dq] in
        Some (set_delta (Some joined) event,
              mkFIFO (q_identity f') (q_maxDepth f') (drop joinCount (q_events f')))
  end.

(** ** Configuration *)

Record mergeWindowConfig := mkWindow { TickDuration : Z; PerUpstreamBufferDepth : Z }.

Definition defaultMergeTickDuration : Z := 10 * 1000 * 1000.
Definition defaultMergeWindowConfig : mergeWindowConfig :=
  mkWindow 0 defaultMergePerUpstreamBufferDepth.
Definition defaultHubMergeWindowConfig : mergeWindowConfig :=
  mkWindow defaultMergeTickDuration defaultMergePerUpstreamBufferDepth.

Definition normalizeMergeWindowConfig (c : mergeWindowConfig) : mergeWindowConfig :=
  if PerUpstreamBufferDepth c <=? 0
  then mkWindow (TickDuration c) defaultMergePerUpstreamBufferDepth else c.

Definition mergeHubKeyOf (c : mergeWindowConfig) : Z * Z :=
  let c := normalizeMergeWindowConfig c in (TickDuration c, PerUpstreamBufferDepth c).

(** ** The hub

    [h_subscriptions] is the key set of the subscriptions map, [h_canceled] the
    hub context. A map iteration order is an argument [perm]. *)
Record mergeHub := mkHub {
  h_scope : Scope;                 (* downstream.scope *)
  h_tickDuration : Z;
  h_perUpstreamBufferDepth : Z;
  h_tickCounter : Z;
  h_fifos : gmap upstreamIdentity upstreamFIFO;
  h_subscriptions : gset upstreamIdentity;
  h_pending : Z;
  h_canceled : bool;
  h_err : option stream_err }.

Definition newMergeHub (scope : Scope) (tickDuration perUpstreamDepth : Z) : mergeHub :=
  mkHub scope tickDuration
    (if perUpstreamDepth <=? 0 then defaultMergePerUpstreamBufferDepth else perUpstreamDepth)
    0 ∅ ∅ 0 false None.

Definition idleLocked (h : mergeHub) : bool :=
  (h_pending h =? 0) && bool_decide (h_subscriptions h = ∅) && bool_decide (h_fifos h = ∅).

Definition hub_cancel (h : mergeHub) : mergeHub :=
  let '(mkHub a b c d e f g _ i) := h in mkHub a b c d e f g true i.

(** [if stop { h.cancel() }]. *)
Definition cancel_if (stop : bool) (h : mergeHub) : mergeHub := if stop then hub_cancel h else h.
Definition stopIfIdle (h : mergeHub) : mergeHub := cancel_if (idleLocked h) h.

(** The first error that is not a cancellation sticks. *)
Definition setErr (err : stream_err) (h : mergeHub) : mergeHub :=
  let '(mkHub a b c d e f g k i) := h in
  match i with
  | Some _ => h
  | None => if decide (err = ErrCanceled) then h else mkHub a b c d e f g k (Some err)
  end.

Definition beginRegistration (h : mergeHub) : mergeHub :=
  let '(mkHub a b c d e f g k i) := h in mkHub a b c d e f (g + 1) k i.

Definition take_pending (h : mergeHub) : mergeHub :=
  let '(mkHub a b c d e f g k i) := h in
  if g >? 0 then mkHub a b c d e f (g - 1) k i else h.

Definition cancelPendingRegistration (h : mergeHub) : mergeHub := stopIfIdle (take_pending h).

Definition registerPendingUpstream (identity : upstreamIdentity) (h : mergeHub)
  : mergeHub * option stream_err :=
  let '(mkHub a b c d e f g k i) := take_pending h in
  let h' := mkHub a b c d e f g k i in
  if k then (h', Some ErrCanceled)
  else match e !! identity with
       | Some _ => (h', Some ErrDuplicate)
       | None => (mkHub a b c d (<[identity := newUpstreamFIFO identity c]> e)
                    ({[ identity ]} ∪ f) g k i, None)
       end.

Definition enqueue (identity : upstreamIdentity) (event : Event) (h : mergeHub)
  : mergeHub * option stream_err :=
  let '(mkHub a b c d e f g k i) := h in
  match e !! identity with
  | None => (h, Some ErrInvalidMerge)
  | Some fifo =>
      match fifo_enqueue (prepareBundledMergedEvent event a) fifo with
      | Err err => (h, Some err)
      | Ok fifo' => (mkHub a b c d (<[identity := fifo']> e) f g k i, None)
      end
  end.

Definition closeUpstream (identity : upstreamIdentity) (h : mergeHub) : mergeHub :=
  let '(mkHub a b c d e f g k i) := h in
  let e' := match e !! identity with
            | Some fifo => if (List.length (q_events fifo) =? 0)%nat then delete identity e else e
            | None => e
            end in
  stopIfIdle (mkHub a b c d e' (f ∖ {[ identity ]}) g k i).

Definition unregisterUpstream (identity : upstreamIdentity) (h : mergeHub) : mergeHub :=
  let '(mkHub a b c d e f g k i) := h in
  stopIfIdle (mkHub a b c d (delete identity e) (f ∖ {[ identity ]}) g k i).

Definition hasFIFO (identity : upstreamIdentity) (h : mergeHub) : bool :=
  bool_decide (is_Some (h_fifos h !! identity)).

(** *** One tick *)

Definition Perm := list upstreamIdentity → list upstreamIdentity.

(** One FIFO during the collection loop: what it yields and whether it stays. *)
Definition collect_one (active : bool) (fifo : upstreamFIFO)
  : option Event * option upstreamFIFO :=
  let '(item, fifo') := match popJoinedHead fifo with
                        | Some (e, f') => (Some e, f')
                        | None => (None, fifo)
                        end in
  (item, if (List.length (q_events fifo') =? 0)%nat && negb active then None else Some fifo').

(** The loop over the map: [partial_alter] writes each FIFO back. *)
Fixpoint collect_loop (ids : list upstreamIdentity) (subs : gset upstreamIdentity)
    (fifos : gmap upstreamIdentity upstreamFIFO)
  : list (upstreamIdentity * Event) * gmap upstreamIdentity upstreamFIFO :=
  match ids with
  | [] => ([], fifos)
  | id :: ids' =>
      match fifos !! id with
      | None => collect_loop ids' subs fifos
      | Some fifo =>
          let '(item, fifo') := collect_one (bool_decide (id ∈ subs)) fifo in
          let '(items, fifos') :=
            collect_loop ids' subs (partial_alter (λ _, fifo') id fifos) in
          (match item with Some e => (id, e) :: items | None => items end, fifos')
      end
  end.

(** The part of [flushTick] under the lock: the items with the FIFO each comes
    from, the tick id, whether the hub became idle. [None]: no FIFO at all. *)
Definition collect (perm : Perm) (h : mergeHub)
  : mergeHub * option (list (upstreamIdentity * Event) * Z * bool) :=
  let '(mkHub a b c d e f g k i) := h in
  if bool_decide (e = ∅) then (h, None)
  else
    let '(items, e') := collect_loop (perm (map fst (map_to_list e))) f e in
    let d' := u64 (d + 1) in
    let h' := mkHub a b c d' e' f g k i in
    (h', Some (items, d', idleLocked h')).

(** ** Frames *)

Record deliveryFrame := mkFrame { fr_TickID : Z; fr_Events : list Event }.

Definition normalizeDirectFrame (event : Event) : deliveryFrame :=
  mkFrame 0 [prepareMergedEvent event].
Definition normalizeTickFrame (items : list Event) (tickID : Z) : deliveryFrame :=
  mkFrame tickID items.

(** The event [emitFrame] emits for a frame; [None] for an empty frame. *)
Definition frame_event (frame : deliveryFrame) : option (res stream_err Event) :=
  match fr_Events frame with
  | [] => None
  | es =>
      if (List.length es =? 1)%nat && (fr_TickID frame =? 0)
      then Ok <$> head es
      else Some
        (let? delta := EncodeEventBatch (mkBatch (fr_TickID frame) es) in
         Ok (mkEvent EventMergeBundle (mkSource (s2b "hub") [] []) 0 StatusCompleted
               (Some delta) 0 zero_time zero_scope None))
  end.

Section Hub.
Context {std : GoStd}.

Definition emitFrame (env : nat → nat → sel_env) (order : list Z → list Z) (now : bytes)
    (frame : deliveryFrame) (s : Stream) : Stream * outcome :=
  match frame_event frame with
  | None => (s, Done)
  | Some (Err e) => (s, Fails e)
  | Some (Ok ev) => Emit env order now ev s
  end.

(** What one flush observes: map orders, sends and the clock. *)
Record flush_env := mkFlush {
  fe_perm : Perm; fe_env : nat → nat → sel_env; fe_order : list Z → list Z; fe_now : bytes }.

(** The part of [flushTick] after the lock is released. *)
Definition flush_emit (fe : flush_env) (items : list Event) (tickID : Z) (stop : bool)
    (hs : mergeHub * Stream) : mergeHub * Stream * bool :=
  let '(h, s) := hs in
  match items with
  | [] => (cancel_if stop h, s, false)
  | _ =>
      match emitFrame (fe_env fe) (fe_order fe) (fe_now fe) (normalizeTickFrame items tickID) s with
      | (s', Done) => (cancel_if stop h, s', true)
      | (s', Fails e) => (cancel_if stop (setErr e h), s', false)
      | (s', Panics) => (h, s', false)
      end
  end.

Definition flushTick (fe : flush_env) (hs : mergeHub * Stream) : mergeHub * Stream * bool :=
  let '(h, s) := hs in
  match collect (fe_perm fe) h with
  | (h', None) => (h', s, false)
  | (h', Some (items, tickID, stop)) => flush_emit fe (map snd items) tickID stop (h', s)
  end.

(** *** Draining a closed upstream

    [drainClosedUpstream] by its critical sections: the ticker, the feeders of
    other upstreams and everybody who uses the downstream stream run between
    them. *)
Inductive drain_at :=
| DrClose
| DrCheck                                   (* for h.hasFIFO(identity) *)
| DrFlush                                   (* flushTick, the part under the lock *)
| DrEmit (items : list Event) (tickID : Z) (stop : bool)   (* and the part after it *)
| DrStop                                    (* the loop is over: stopIfIdle *)
| DrDone.

Definition drainClosedUpstream (fe : flush_env) (identity : upstreamIdentity)
    (st : drain_at * (mergeHub * Stream)) : drain_at * (mergeHub * Stream) :=
  let '(pc, (h, s)) := st in
  match pc with
  | DrClose => (DrCheck, (closeUpstream identity h, s))
  | DrCheck => (if hasFIFO identity h then DrFlush else DrStop, (h, s))
  | DrFlush =>
      match collect (fe_perm fe) h with
      | (h', None) => (DrStop, (h', s))
      | (h', Some (items, tickID, stop)) => (DrEmit (map snd items) tickID stop, (h', s))
      end
  | DrEmit items tickID stop =>
      let '(hs', again) := flush_emit fe items tickID stop (h, s) in
      (if again then DrCheck else DrStop, hs')
  | DrStop => (DrDone, (stopIfIdle h, s))
  | DrDone => (DrDone, (h, s))
  end.

(** The critical sections of the hub that others run, in any order. *)
Inductive hub_op :=
| HBegin | HCancelPending
| HRegister (id : upstreamIdentity)
| HEnqueue (id : upstreamIdentity) (ev : Event)
| HClose (id : upstreamIdentity)
| HUnregister (id : upstreamIdentity)
| HCollect (perm : Perm)
| HSetErr (e : stream_err)
| HStopIfIdle | HCancel.

Definition hub_step (o : hub_op) (h : mergeHub) : mergeHub :=
  match o with
  | HBegin => beginRegistration h
  | HCancelPending => cancelPendingRegistration h
  | HRegister id => (registerPendingUpstream id h).1
  | HEnqueue id ev => (enqueue id ev h).1
  | HClose id => closeUpstream id h
  | HUnregister id => unregisterUpstream id h
  | HCollect perm => (collect perm h).1
  | HSetErr e => setErr e h
  | HStopIfIdle => stopIfIdle h
  | HCancel => hub_cancel h
  end.

(** A step of the drain, of the hub by others, or of the downstream stream. *)
Inductive drain_label := DrMine (fe : flush_env) | DrHub (o : hub_op) | DrStream (s : Stream).
Definition drain_run1 (identity : upstreamIdentity) (st : drain_at * (mergeHub * Stream))
    (l : drain_label) : drain_at * (mergeHub * Stream) :=
  match l with
  | DrMine fe => drainClosedUpstream fe identity st
  | DrHub o => (st.1, (hub_step o st.2.1, st.2.2))
  | DrStream s => (st.1, (st.2.1, s))
  end.
Definition drain_run (identity : upstreamIdentity) (ls : list drain_label)
    (st : drain_at * (mergeHub * Stream)) : drain_at * (mergeHub * Stream) :=
  foldl (drain_run1 identity) st ls.

Definition queue_length (identity : upstreamIdentity) (h : mergeHub) : nat :=
  match h_fifos h !! identity with Some f => List.length (q_events f) | None => 0 end.

(** ** Attaching a merge *)

(** The hubs of a downstream stream, by configuration. *)
Definition Hubs := gmap (Z * Z) mergeHub.

Definition hub_active (h : mergeHub) : bool := negb (h_canceled h).

(** [Stream.mergeHub]: the live hub of this configuration, or a new one. *)
Definition get_mergeHub (scope : Scope) (config : mergeWindowConfig) (hubs : Hubs)
  : mergeHub * Hubs :=
  let key := mergeHubKeyOf config in
  let fresh := newMergeHub scope (TickDuration config) (PerUpstreamBufferDepth config) in
  match hubs !! key with
  | Some hub => if hub_active hub then (hub, hubs) else (fresh, <[key := fresh]> hubs)
  | None => (fresh, <[key := fresh]> hubs)
  end.

(** [stopMergeHubs]: the stopped hubs; the map is replaced by an empty one. *)
Definition stopMergeHubs (hubs : Hubs) : Hubs * Hubs :=
  ((λ h, hub_cancel (setErr ErrClosed h)) <$> hubs, ∅).

(** How attaching ends: an error, a goroutine stuck in [Subscribe], or a merge
    with its subscription, forwarding directly or through the hub of a key. *)
Inductive attached :=
| AttachErr (e : stream_err) | AttachBlocked | AttachPanic
| AttachDirect (sub : Z) | AttachHub (key : Z * Z) (sub : Z).

(** [mergeWithConfig]: [self] says that upstream and downstream are the same
    stream; the upstream is subscribed before the hub is looked up. *)
Definition mergeWithConfig (env : nat → nat → sel_env) (self : bool) (scope : Scope)
    (hubs : Hubs) (upstream : Stream) (f : Filter) (config : mergeWindowConfig)
    (opts : list (subscribeSettings → subscribeSettings))
  : Stream * Hubs * attached :=
  if self then (upstream, hubs, AttachErr ErrInvalidMerge)
  else if TickDuration config <? 0 then (upstream, hubs, AttachErr ErrInvalidMerge)
  else
    let config := normalizeMergeWindowConfig config in
    let '(upstream', sub) := Subscribe env f opts upstream in
    match sub with
    | SubErr e => (upstream', hubs, AttachErr e)
    | SubDeadlock => (upstream', hubs, AttachBlocked)
    | SubPanic => (upstream', hubs, AttachPanic)
    | Subscribed id =>
        if TickDuration config =? 0 then (upstream', hubs, AttachDirect id)
        else
          let '(hub, hubs') := get_mergeHub scope config hubs in
          let key := mergeHubKeyOf config in
          (upstream', <[key := beginRegistration hub]> hubs', AttachHub key id)
    end.

(** ** Feeders

    The goroutine of one merge, one step per result of [sub.Next] or of the
    [select] before it. *)
Inductive feeder := FWaitFirst | FFeeding (identity : upstreamIdentity)
                  | FDraining (identity : upstreamIdentity) | FFinished.

Inductive feed_input := InEvent (e : Event) | InClosed | InErr (err : stream_err)
                      | InReadDone | InHubDone.

(** The merge's own error field. *)
Definition merge_setErr (err : stream_err) (cur : option stream_err) : option stream_err :=
  match cur with
  | Some _ => cur
  | None => if decide (err = ErrCanceled) then None else Some err
  end.

Definition feeder_step (i : feed_input) (st : feeder * mergeHub * option stream_err)
  : feeder * mergeHub * option stream_err :=
  let '(f, h, err) := st in
  match f, i with
  | FWaitFirst, InErr e => (FFinished, cancelPendingRegistration h, merge_setErr e err)
  | FWaitFirst, InClosed => (FFinished, cancelPendingRegistration h, err)
  | FWaitFirst, InEvent ev =>
      let identity := upstreamIdentityOf (ev_From ev) in
      match registerPendingUpstream identity h with
      | (h', Some e) => (FFinished, stopIfIdle h', merge_setErr e err)
      | (h', None) =>
          match enqueue identity ev h' with
          | (h'', Some e) => (FFinished, unregisterUpstream identity h'', merge_setErr e err)
          | (h'', None) => (FFeeding identity, h'', err)
          end
      end
  | FFeeding id, InReadDone => (FFinished, unregisterUpstream id h, err)
  | FFeeding id, InHubDone => (FFinished, h, err)
  | FFeeding id, InErr e => (FFinished, unregisterUpstream id h, merge_setErr e err)
  | FFeeding id, InClosed => (FDraining id, h, err)
  | FFeeding id, InEvent ev =>
      match enqueue id ev h with
      | (h', Some e) => (FFinished, unregisterUpstream id h', merge_setErr e err)
      | (h', None) => (FFeeding id, h', err)
      end
  | _, _ => st
  end.

(** [runDirect]: one received event. *)
Definition direct_step (env : nat → nat → sel_env) (order : list Z → list Z) (now : bytes)
    (event : Event) (s : Stream) : Stream * outcome :=
  emitFrame env order now (normalizeDirectFrame event) s.
End Hub.
