(* ===== verification/MergeFacts.v ===== *)
(** What merging promises: joining string deltas is string concatenation, every
    upstream's events leave the hub once and in order, queues stay within their
    depth, draining a closed upstream ends, and what a tick frame becomes for a
    downstream subscriber. *)
From S2P Require Import Prelude Json GoText Event Bundle Stream StreamLog StreamDelivery Merge.

(** ** Joined deltas *)

(** A run of events popped together, and the event it becomes. *)
Definition join_run (run : list Event) : option Event :=
  match run with
  | [] => None
  | [e] => Some e
  | e :: js =>
      Some (set_delta (Some (dq :: inner (delta_of e)
                             ++ mjoin ((λ e, inner (delta_of e)) <$> js) ++ [dq])) e)
  end.

(** A run is a head and events that each join it. *)
Definition is_run (run : list Event) : Prop :=
  match run with [] => False | e :: js => Forall (λ n, canJoinEvents e n = true) js end.

Lemma join_count_spec e es :
  Forall (λ n, canJoinEvents e n = true) (take (join_count e es) es) ∧
  (join_count e es ≤ List.length es)%nat ∧
  match drop (join_count e es) es with [] => True | n :: _ => canJoinEvents e n = false end.
Proof.
  induction es as [|n es (IH1 & IH2 & IH3)]; simpl; [by split_and!; [constructor|..]|].
  destruct (canJoinEvents e n) eqn:E; simpl; [split_and!; [by constructor|lia|done]|].
  split_and!; [constructor|lia|done].
Qed.

Lemma popJoinedHead_nil f : q_events f = [] → popJoinedHead f = None.
Proof. intros H. unfold popJoinedHead, fifo_pop. by rewrite H. Qed.

(** The head and the longest run of joinable events behind it leave together. *)
Lemma popJoinedHead_cons f e es :
  q_events f = e :: es →
  let k := join_count e es in
  ∃ item, join_run (e :: take k es) = Some item ∧
    popJoinedHead f = Some (item, mkFIFO (q_identity f) (q_maxDepth f) (drop k es)).
Proof.
  intros H k. unfold popJoinedHead, fifo_pop. rewrite H. cbn [q_events q_identity q_maxDepth].
  pose proof (join_count_spec e es) as (_ & Hle & _). fold k in Hle |- *.
  destruct (Nat.eqb_spec k 0) as [->|Hk].
  - exists e. by rewrite take_0, drop_0.
  - destruct es as [|n es]; [simpl in *; lia|]. destruct k as [|k]; [done|].
    cbn [take]. eauto.
Qed.

Lemma head_last_split (d : bytes) :
  isJoinableStringDelta d = true → d = dq :: inner d ++ [dq].
Proof.
  unfold isJoinableStringDelta, inner.
  destruct (Nat.ltb_spec (List.length d) 2); [done|].
  intros [Hh Hl]%andb_true_iff. apply bool_decide_eq_true in Hh, Hl.
  destruct d as [|c d]; [done|]. simpl in Hh. injection Hh as ->. f_equal.
  destruct (decide (d = [])) as [->|Hne]; [simpl in *; lia|].
  apply exists_last in Hne as (d' & c & ->). simpl in *.
  rewrite app_comm_cons, last_snoc in Hl. injection Hl as ->.
  rewrite drop_0, length_app. simpl. rewrite Nat.add_sub.
  by rewrite take_app_length.
Qed.

Lemma skip_ws_nil_last (t : bytes) c : skip_ws t = [] → last t = Some c → is_ws c = true.
Proof.
  revert c. induction t as [|x t IH]; intros c H Hl; [done|]. simpl in H.
  destruct (is_ws x) eqn:Ex; [|done].
  destruct t as [|y t]; [by injection Hl as <-|]. by apply IH.
Qed.

(** A valid delta that starts and ends with a quote is one JSON string. *)
Lemma joinable_string d :
  json_Valid d = true → isJoinableStringDelta d = true →
  body (inner d) ∧ parse d = Some (JStr (inner d)).
Proof.
  intros [v Hv]%json_Valid_spec Hj. pose proof (head_last_split d Hj) as Hd.
  assert (∃ b, body b ∧ d = dq :: b ++ [dq]) as (b & Hb & Hdb).
  { unfold parse in Hv. destruct (parse_val _ d) as [[v' r]|] eqn:E; [|done].
    cbn [mbind option_bind] in Hv. destruct (skip_ws r) eqn:Er; [|done].
    rewrite Hd in E. cbn [parse_val skip_ws] in E. change (is_ws dq) with false in E.
    cbn iota in E. rewrite Ascii.eqb_refl in E.
    destruct (scan_str _) as [[b t]|] eqn:Es; [|done]. cbn [mbind option_bind] in E.
    injection E as <- <-. apply scan_str_body in Es as [Es Hb]. exists b. split; [done|].
    rewrite Hd, Es. f_equal. f_equal. f_equal.
    destruct (decide (t = [])) as [->|Hne]; [done|].
    apply exists_last in Hne as (t' & c & ->).
    assert (last (inner d ++ [dq]) = Some c) as Hl.
    { rewrite Es, app_comm_cons, app_assoc. apply last_snoc. }
    rewrite last_snoc in Hl. injection Hl as <-.
    pose proof (skip_ws_nil_last (t' ++ [dq]) dq Er (last_snoc _ _)). done. }
  assert (inner d = b) as Hi.
  { rewrite Hdb. unfold inner. simpl. rewrite drop_0, length_app. simpl.
    rewrite Nat.add_sub. by rewrite take_app_length. }
  rewrite Hi. split; [done|]. rewrite Hdb.
  apply (parse_print (JStr b)). by constructor.
Qed.

Lemma canJoin_joinable e n :
  canJoinEvents e n = true →
  joinKeyOf e = joinKeyOf n ∧ isJoinableStringDelta (delta_of e) = true ∧
  isJoinableStringDelta (delta_of n) = true.
Proof.
  unfold canJoinEvents, canJoinDeltas. intros [Hk [? ?]%andb_true_iff]%andb_true_iff.
  by apply bool_decide_eq_true in Hk.
Qed.

Lemma body_mjoin (l : list bytes) : Forall body l → body (mjoin l).
Proof. induction 1; simpl; [constructor|by apply body_app]. Qed.

(** Joining valid deltas concatenates their strings. *)
Lemma join_run_valid e js item :
  is_run (e :: js) → js ≠ [] → Forall (λ x, json_Valid (delta_of x) = true) (e :: js) →
  join_run (e :: js) = Some item →
  Forall (λ x, parse (delta_of x) = Some (JStr (inner (delta_of x)))) (e :: js) ∧
  parse (delta_of item) = Some (JStr (mjoin ((λ x, inner (delta_of x)) <$> e :: js))) ∧
  joinKeyOf item = joinKeyOf e.
Proof.
  intros Hrun Hne Hv Hj.
  assert (Forall (λ x, isJoinableStringDelta (delta_of x) = true) (e :: js)) as Hall.
  { destruct js as [|n js]; [done|]. constructor.
    - apply Forall_cons in Hrun as [Hn _]. by apply canJoin_joinable in Hn as (_ & ? & _).
    - eapply Forall_impl; [exact Hrun|]. intros x Hx. by apply canJoin_joinable in Hx as (_ & _ & ?). }
  assert (Forall (λ x, body (inner (delta_of x)) ∧
    parse (delta_of x) = Some (JStr (inner (delta_of x)))) (e :: js)) as Hstr.
  { apply Forall_forall. intros x Hx. rewrite Forall_forall in Hv, Hall.
    apply joinable_string; [by apply Hv|by apply Hall]. }
  split; [eapply Forall_impl; [exact Hstr|by intros x [_ ?]]|].
  assert (delta_of item = print (JStr (mjoin ((λ x, inner (delta_of x)) <$> e :: js)))
          ∧ joinKeyOf item = joinKeyOf e) as [-> ->].
  { destruct js as [|n js]; [done|]. injection Hj as <-. split; [|done].
    cbn [print fmap list_fmap mjoin list_join]. unfold delta_of at 1. simpl.
    by rewrite <-!app_assoc. }
  split; [|done]. apply parse_print. constructor. apply body_mjoin. apply Forall_fmap.
  eapply Forall_impl; [exact Hstr|by intros x [? _]].
Qed.

(** ** One tick *)

Definition queue (fifos : gmap upstreamIdentity upstreamFIFO) (id : upstreamIdentity)
  : list Event :=
  match fifos !! id with Some f => q_events f | None => [] end.

(** What one FIFO contributes to a tick. *)
Definition contributes (fifos : gmap upstreamIdentity upstreamFIFO) (id : upstreamIdentity)
  : option Event :=
  fifo ← fifos !! id; (collect_one true fifo).1.

Lemma collect_one_item active fifo :
  (collect_one active fifo).1 = (collect_one true fifo).1.
Proof. unfold collect_one. by destruct (popJoinedHead fifo) as [[]|]. Qed.

Lemma collect_one_spec active fifo :
  let '(item, fifo') := collect_one active fifo in
  match q_events fifo with
  | [] => item = None ∧ fifo' = (if active then Some fifo else None)
  | e :: es =>
      let k := join_count e es in
      join_run (e :: take k es) = item ∧
      fifo' = (if negb active && (List.length (drop k es) =? 0)%nat then None
               else Some (mkFIFO (q_identity fifo) (q_maxDepth fifo) (drop k es)))
  end.
Proof.
  unfold collect_one. destruct (q_events fifo) as [|e es] eqn:E.
  - rewrite popJoinedHead_nil by done. rewrite E. simpl. by destruct active.
  - destruct (popJoinedHead_cons _ _ _ E) as (item & Hi & ->). cbn [q_events].
    split; [done|]. by rewrite andb_comm.
Qed.

Lemma collect_loop_spec ids subs : NoDup ids → ∀ fifos,
  (collect_loop ids subs fifos).1
  = omap (λ id, pair id <$> contributes fifos id) ids ∧
  ∀ id, (collect_loop ids subs fifos).2 !! id
  = if decide (id ∈ ids) then fifo ← fifos !! id; (collect_one (bool_decide (id ∈ subs)) fifo).2
    else fifos !! id.
Proof.
  induction 1 as [|id ids Hid _ IH]; intros fifos; [by split|]. simpl.
  assert (∀ f', omap (λ i, pair i <$> contributes (partial_alter f' id fifos) i) ids
    = omap (λ i, pair i <$> contributes fifos i) ids) as Hext.
  { intros f'. apply list_omap_ext. apply Forall_Forall2_diag, Forall_forall. intros i Hi.
    unfold contributes. by rewrite lookup_partial_alter_ne by (intros ->; done). }
  unfold contributes at 1.
  destruct (fifos !! id) as [fifo|] eqn:Ef; cbn [mbind option_bind].
  - pose proof (collect_one_item (bool_decide (id ∈ subs)) fifo) as Hitem.
    destruct (collect_one (bool_decide (id ∈ subs)) fifo) as [item fifo'] eqn:Ec.
    cbn [fst] in Hitem. rewrite <-Hitem.
    destruct (IH (partial_alter (λ _, fifo') id fifos)) as [IH1 IH2].
    destruct (collect_loop ids subs _) as [items fifos']. cbn [fst snd] in IH1, IH2 |- *.
    rewrite Hext in IH1. split; [subst items; by destruct item|].
    intros i. rewrite IH2. destruct (decide (i = id)) as [->|Hne].
    + rewrite decide_False by done. rewrite lookup_partial_alter_eq.
      rewrite decide_True by left. rewrite Ef. cbn [mbind option_bind]. by rewrite Ec.
    + rewrite lookup_partial_alter_ne by done.
      by rewrite (decide_ext (i ∈ id :: ids) (i ∈ ids)) by (rewrite elem_of_cons; naive_solver).
  - destruct (IH fifos) as [IH1 IH2]. rewrite IH1. split; [done|].
    intros i. rewrite IH2. destruct (decide (i = id)) as [->|Hne].
    + rewrite decide_False by done. rewrite decide_True by left. by rewrite Ef.
    + by rewrite (decide_ext (i ∈ id :: ids) (i ∈ ids)) by (rewrite elem_of_cons; naive_solver).
Qed.

Definition Perm_ok (perm : Perm) : Prop := ∀ l, perm l ≡ₚ l.

Definition fifo_ids (fifos : gmap upstreamIdentity upstreamFIFO) : list upstreamIdentity :=
  map fst (map_to_list fifos).

Lemma fifo_ids_spec fifos :
  NoDup (fifo_ids fifos) ∧ ∀ id, id ∈ fifo_ids fifos ↔ is_Some (fifos !! id).
Proof.
  split; [apply NoDup_fst_map_to_list|]. intros id. unfold fifo_ids.
  rewrite list_elem_of_fmap. split.
  - intros ([i f] & -> & Hin). apply elem_of_map_to_list in Hin. by eexists.
  - intros [f Hf]. exists (id, f). split; [done|]. by apply elem_of_map_to_list.
Qed.

(** The state of a hub after a collection, FIFO by FIFO. *)
Lemma collect_spec perm h :
  Perm_ok perm → h_fifos h ≠ ∅ →
  ∃ items h', collect perm h = (h', Some (items, u64 (h_tickCounter h + 1), idleLocked h')) ∧
    items = omap (λ id, pair id <$> contributes (h_fifos h) id) (perm (fifo_ids (h_fifos h))) ∧
    NoDup (map fst items) ∧
    (∀ id e, (id, e) ∈ items ↔ contributes (h_fifos h) id = Some e) ∧
    (∀ id, h_fifos h' !! id
       = fifo ← h_fifos h !! id; (collect_one (bool_decide (id ∈ h_subscriptions h)) fifo).2) ∧
    h_tickCounter h' = u64 (h_tickCounter h + 1) ∧ h_subscriptions h' = h_subscriptions h ∧
    h_pending h' = h_pending h ∧ h_canceled h' = h_canceled h ∧ h_err h' = h_err h ∧
    h_scope h' = h_scope h ∧ h_perUpstreamBufferDepth h' = h_perUpstreamBufferDepth h.
Proof.
  intros Hperm Hne. destruct h as [a b c d e f g k i]. cbn [h_fifos] in Hne.
  unfold collect. rewrite bool_decide_eq_false_2 by done. cbn [h_fifos h_tickCounter].
  fold (fifo_ids e). destruct (fifo_ids_spec e) as [Hnd Hin].
  assert (NoDup (perm (fifo_ids e))) as Hndp.
  { unfold Perm_ok in Hperm. by rewrite Hperm. }
  destruct (collect_loop_spec (perm (fifo_ids e)) f Hndp e) as [C1 C2].
  destruct (collect_loop _ f e) as [items e']. cbn [fst snd] in C1, C2.
  eexists items, _. split; [done|]. cbn [h_fifos h_tickCounter h_subscriptions].
  assert (∀ id0 e0, (id0, e0) ∈ items ↔ contributes e id0 = Some e0) as Hitems.
  { intros id0 e0. subst items. rewrite list_elem_of_omap. split.
    - intros (x & _ & Hx). destruct (contributes e x) eqn:Ex; [|done]. by simplify_eq/=.
    - intros Hc. exists id0. rewrite Hc. split; [|done]. unfold Perm_ok in Hperm.
      rewrite Hperm. apply Hin. unfold contributes in Hc. destruct (e !! id0); [by eexists|done]. }
  split_and!; try done.
  - subst items. clear C2 Hitems. induction Hndp as [|x l Hx _ IH]; [constructor|]. simpl.
    destruct (contributes e x) as [ev|] eqn:Ex; simpl; [|done]. constructor; [|done].
    rewrite list_elem_of_fmap. intros ([x' ev'] & -> & Hin').
    apply list_elem_of_omap in Hin' as (y & Hy & Hyx).
    destruct (contributes e y); simplify_eq/=.
  - intros id0. rewrite C2. destruct (decide _) as [Hd|Hd]; [done|].
    destruct (e !! id0) eqn:Ei; [|done]. exfalso. apply Hd. unfold Perm_ok in Hperm.
    rewrite Hperm. apply Hin. by eexists.
Qed.

(** ** Runs of a hub with what went in and what came out *)

(** How accepted events leave their queue: joined into one item that a tick
    collects, or dropped with the whole queue when their upstream is
    unregistered. *)
Inductive fate := Collected (item : Event) | Dropped (es : list Event).

(** [t_in id] are all events ever accepted from [id] (as prepared for the hub),
    [t_out id] how they left its queue. *)
Record traced := mkTrace {
  t_hub : mergeHub;
  t_in : gmap upstreamIdentity (list Event);
  t_out : gmap upstreamIdentity (list fate);
  t_ticks : list (Z * list (upstreamIdentity * Event)) }.

Definition log_of {A} (m : gmap upstreamIdentity (list A)) (id : upstreamIdentity)
  : list A := default [] (m !! id).

Definition push_log {A} (id : upstreamIdentity) (e : A)
    (m : gmap upstreamIdentity (list A)) : gmap upstreamIdentity (list A) :=
  <[id := log_of m id ++ [e]]> m.

Definition log_in (o : hub_op) (h : mergeHub) (i : gmap upstreamIdentity (list Event)) :=
  match o with
  | HEnqueue id ev =>
      match (enqueue id ev h).2 with
      | None => push_log id (prepareBundledMergedEvent ev (h_scope h)) i
      | Some _ => i
      end
  | _ => i
  end.
Definition log_out (o : hub_op) (h : mergeHub) (out : gmap upstreamIdentity (list fate)) :=
  match o with
  | HUnregister id =>
      match queue (h_fifos h) id with [] => out | es => push_log id (Dropped es) out end
  | HCollect perm =>
      match (collect perm h).2 with
      | Some (items, _, _) => foldr (λ '(id, e), push_log id (Collected e)) out (reverse items)
      | None => out
      end
  | _ => out
  end.
Definition log_tick (o : hub_op) (h : mergeHub) (ticks : list (Z * list (upstreamIdentity * Event))) :=
  match o with
  | HCollect perm =>
      match (collect perm h).2 with
      | Some (items, tick, _) => ticks ++ [(tick, items)]
      | None => ticks
      end
  | _ => ticks
  end.

Definition traced_step (o : hub_op) (t : traced) : traced :=
  let h := t_hub t in
  mkTrace (hub_step o h) (log_in o h (t_in t)) (log_out o h (t_out t)) (log_tick o h (t_ticks t)).

Definition traced_run (ops : list hub_op) (t : traced) : traced :=
  foldl (λ t o, traced_step o t) t ops.

Definition start_trace (h : mergeHub) : traced := mkTrace h ∅ ∅ [].

Definition hub_op_ok (o : hub_op) : Prop :=
  match o with HCollect perm => Perm_ok perm | _ => True end.

(** Conservation for one upstream: the events accepted are, in order, the runs
    that were collected and the queues that were dropped, then the queue. *)
Definition met (run : list Event) (f : fate) : Prop :=
  match f with
  | Collected item => is_run run ∧ join_run run = Some item
  | Dropped es => run = es
  end.
Definition conserved (ins : list Event) (outs : list fate) (q : list Event) : Prop :=
  ∃ runs, ins = mjoin runs ++ q ∧ Forall2 met runs outs.

Record hub_inv (t : traced) : Prop := {
  hi_conserved : ∀ id, conserved (log_of (t_in t) id) (log_of (t_out t) id)
                         (queue (h_fifos (t_hub t)) id);
  hi_depth : ∀ id f, h_fifos (t_hub t) !! id = Some f →
    0 < q_maxDepth f ∧ Z.of_nat (List.length (q_events f)) ≤ q_maxDepth f;
  hi_depth_pos : 0 < h_perUpstreamBufferDepth (t_hub t);
  hi_ticks : map fst (t_ticks t) = map Z.of_nat (seq 1 (List.length (t_ticks t)));
  hi_counter : h_tickCounter (t_hub t) = Z.of_nat (List.length (t_ticks t)) }.

Lemma conserved_nil : conserved [] [] [].
Proof. exists []. by split; [|constructor]. Qed.

Lemma conserved_push ins outs q e : conserved ins outs q → conserved (ins ++ [e]) outs (q ++ [e]).
Proof. intros (runs & -> & ?). exists runs. by rewrite <-app_assoc. Qed.

Lemma conserved_pop ins outs run q f :
  conserved ins outs (run ++ q) → met run f → conserved ins (outs ++ [f]) q.
Proof.
  intros (runs & -> & ?) Hm. exists (runs ++ [run]). split.
  - rewrite join_app. simpl. by rewrite app_nil_r, app_assoc.
  - apply Forall2_app; [done|]. by constructor.
Qed.

Lemma log_of_push {A} id (e : A) m i :
  log_of (push_log id e m) i = log_of m i ++ (if decide (i = id) then [e] else []).
Proof.
  unfold push_log, log_of at 1. destruct (decide (i = id)) as [->|Hne].
  - by rewrite lookup_insert_eq.
  - rewrite lookup_insert_ne by done. by rewrite app_nil_r.
Qed.

(** The logs after all items of a tick are recorded. *)
Lemma log_of_items items m id :
  NoDup (map fst items) →
  log_of (foldr (λ '(id, e), push_log id (Collected e)) m (reverse items)) id
  = log_of m id ++ match list_find (λ p, p.1 = id) items with
                   | Some (_, p) => [Collected p.2] | None => [] end.
Proof.
  induction items as [|[i e] items IH] using rev_ind; intros Hnd; [by rewrite app_nil_r|].
  rewrite reverse_snoc. simpl. rewrite map_app in Hnd. apply NoDup_app in Hnd as (Hnd & Hdis & _).
  rewrite log_of_push, (IH Hnd). destruct (decide (id = i)) as [->|Hne].
  - destruct (list_find (λ p, p.1 = i) items) as [[k p]|] eqn:Ef.
    + exfalso. apply list_find_Some in Ef as (Hk & Hp & _).
      apply list_elem_of_lookup_2 in Hk. apply (Hdis i); [|by left].
      apply list_elem_of_fmap. by exists p.
    + rewrite list_find_app_r by done. simpl. rewrite decide_True by done.
      by rewrite app_nil_r.
  - rewrite app_nil_r. destruct (list_find (λ p, p.1 = id) items) as [[k p]|] eqn:Ef.
    + by rewrite (list_find_app_l _ _ _ _ _ Ef).
    + rewrite list_find_app_r by done. simpl. by rewrite decide_False.
Qed.

Lemma list_find_items (items : list (upstreamIdentity * Event)) id (c : option Event) :
  (∀ e, (id, e) ∈ items ↔ c = Some e) →
  match list_find (λ p, p.1 = id) items with Some (_, p) => [Collected p.2] | None => [] end
  = match c with Some e => [Collected e] | None => [] end.
Proof.
  intros H. destruct (list_find _ items) as [[k [i e]]|] eqn:Ef.
  - apply list_find_Some in Ef as (Hk & Hp & _). simpl in Hp. subst i.
    apply list_elem_of_lookup_2, H in Hk. by rewrite Hk.
  - apply list_find_None in Ef. destruct c as [e|]; [|done].
    rewrite Forall_forall in Ef. by destruct (Ef (id, e)); [apply H|].
Qed.

(** One FIFO before and after a collection. *)
Lemma conserved_collect active fifo ins outs :
  conserved ins outs (q_events fifo) →
  conserved ins (outs ++ match (collect_one active fifo).1 with Some e => [Collected e] | None => [] end)
    match (collect_one active fifo).2 with Some f => q_events f | None => [] end.
Proof.
  intros Hc. pose proof (collect_one_spec active fifo) as Hs.
  destruct (collect_one active fifo) as [item fifo']. simpl.
  destruct (q_events fifo) as [|e es] eqn:E.
  - destruct Hs as [-> ->]. rewrite app_nil_r. destruct active; [by rewrite E|done].
  - destruct Hs as [Hj ->]. destruct item as [item|]; [|by destruct (take _ es)].
    assert (conserved ins (outs ++ [Collected item]) (drop (join_count e es) es)) as Hd.
    { apply (conserved_pop _ _ (e :: take (join_count e es) es));
        [|by split; [apply join_count_spec|]].
      cbn [app]. by rewrite take_drop. }
    destruct (negb active && _) eqn:Eb; [|done].
    apply andb_true_iff in Eb as [_ Eb]. apply Nat.eqb_eq, length_zero_iff_nil in Eb.
    by rewrite Eb in Hd.
Qed.

(** Operations that only touch other fields of the hub. *)
Lemma hub_inv_same h h' i o ticks :
  hub_inv (mkTrace h i o ticks) → h_fifos h' = h_fifos h →
  h_tickCounter h' = h_tickCounter h →
  h_perUpstreamBufferDepth h' = h_perUpstreamBufferDepth h → hub_inv (mkTrace h' i o ticks).
Proof. intros [H1 H2 H3 H4 H5] E1 E2 E3. split; simpl in *; rewrite ?E1, ?E2, ?E3; done. Qed.

Lemma stopIfIdle_fields h :
  h_fifos (stopIfIdle h) = h_fifos h ∧ h_tickCounter (stopIfIdle h) = h_tickCounter h ∧
  h_perUpstreamBufferDepth (stopIfIdle h) = h_perUpstreamBufferDepth h ∧
  h_subscriptions (stopIfIdle h) = h_subscriptions h ∧ h_scope (stopIfIdle h) = h_scope h.
Proof. unfold stopIfIdle, cancel_if. destruct (idleLocked h), h; done. Qed.

Lemma take_pending_fields h :
  h_fifos (take_pending h) = h_fifos h ∧ h_tickCounter (take_pending h) = h_tickCounter h ∧
  h_perUpstreamBufferDepth (take_pending h) = h_perUpstreamBufferDepth h.
Proof. destruct h as [a b c d e f g k i]. simpl. by destruct (g >? 0). Qed.

(** Replacing one FIFO. *)
Lemma queue_insert fifos id f i :
  queue (<[id := f]> fifos) i = if decide (i = id) then q_events f else queue fifos i.
Proof.
  unfold queue. destruct (decide (i = id)) as [->|Hne].
  - by rewrite lookup_insert_eq.
  - by rewrite lookup_insert_ne by done.
Qed.

Lemma queue_delete fifos id i :
  queue (delete id fifos) i = if decide (i = id) then [] else queue fifos i.
Proof.
  unfold queue. destruct (decide (i = id)) as [->|Hne].
  - by rewrite lookup_delete_eq.
  - by rewrite lookup_delete_ne by done.
Qed.

Lemma hub_inv_register id t : hub_inv t → hub_inv (traced_step (HRegister id) t).
Proof.
  intros Hi. destruct t as [h i o ticks]. unfold traced_step. cbn [t_hub t_in t_out t_ticks hub_step log_in log_out log_tick].
  unfold registerPendingUpstream. destruct (take_pending_fields h) as (T1 & T2 & T3).
  destruct (take_pending h) as [a b c d e f g k r]. simpl in *.
  pose proof (hub_inv_same _ (mkHub a b c d e f g k r) _ _ _ Hi T1 T2 T3) as Hi'.
  destruct k; [done|]. destruct (e !! id) eqn:Ee; [done|].
  destruct Hi' as [H1 H2 H3 H4 H5]. split; simpl in *; try done.
  - intros x. specialize (H1 x). rewrite queue_insert. destruct (decide (x = id)) as [->|Hne]; [|done].
    unfold queue in H1. by rewrite Ee in H1.
  - intros x fx. rewrite lookup_insert_Some. intros [[<- <-]|[_ Hx]]; [|by apply (H2 x)].
    simpl. destruct (Z.leb_spec c 0); [lia|]. split; [done|]. simpl. lia.
Qed.

Lemma hub_inv_enqueue id ev t : hub_inv t → hub_inv (traced_step (HEnqueue id ev) t).
Proof.
  intros [H1 H2 H3 H4 H5]. destruct t as [h i o ticks].
  destruct h as [a b c d e f g k r]. unfold traced_step, enqueue. simpl in *. unfold enqueue.
  destruct (e !! id) as [fifo|] eqn:Ee; [|done]. unfold fifo_enqueue.
  destruct (Z.geb_spec (Z.of_nat (List.length (q_events fifo))) (q_maxDepth fifo)); [done|].
  split; simpl; try done.
  - intros x. rewrite log_of_push, queue_insert. specialize (H1 x).
    destruct (decide (x = id)) as [->|Hne]; [|by rewrite app_nil_r].
    apply conserved_push. unfold queue in H1. by rewrite Ee in H1.
  - intros x fx. rewrite lookup_insert_Some. intros [[<- <-]|[_ Hx]]; [|by apply (H2 x)].
    simpl. rewrite length_app. simpl. destruct (H2 _ _ Ee). lia.
Qed.

Lemma hub_inv_close id t : hub_inv t → hub_inv (traced_step (HClose id) t).
Proof.
  intros Hi. destruct t as [h i o ticks]. unfold traced_step. simpl. unfold closeUpstream.
  destruct h as [a b c d e f g k r].
  match goal with |- hub_inv (mkTrace (stopIfIdle ?x) _ _ _) => set (h' := x) end.
  destruct (stopIfIdle_fields h') as (S1 & S2 & S3 & _ & _).
  eapply (hub_inv_same h'); [|done..]. clear S1 S2 S3. subst h'.
  destruct Hi as [H1 H2 H3 H4 H5]. simpl in *.
  destruct (e !! id) as [fifo|] eqn:Ee; [|by split].
  destruct (Nat.eqb_spec (List.length (q_events fifo)) 0) as [El|]; [|by split].
  apply length_zero_iff_nil in El. split; simpl; try done.
  - intros x. rewrite queue_delete. destruct (decide (x = id)) as [->|]; [|done].
    specialize (H1 id). unfold queue in H1. by rewrite Ee, El in H1.
  - intros x fx. rewrite lookup_delete_Some. intros [_ Hx]. by apply (H2 x).
Qed.

(** What was queued is dropped, and shows in the log. *)
Lemma hub_inv_unregister id t : hub_inv t → hub_inv (traced_step (HUnregister id) t).
Proof.
  intros Hi. destruct t as [h i o ticks]. unfold traced_step. simpl. unfold unregisterUpstream.
  destruct h as [a b c d e f g k r].
  match goal with |- hub_inv (mkTrace (stopIfIdle ?x) _ _ _) => set (h' := x) end.
  destruct (stopIfIdle_fields h') as (S1 & S2 & S3 & _ & _).
  eapply (hub_inv_same h'); [|done..]. clear S1 S2 S3. subst h'.
  destruct Hi as [H1 H2 H3 H4 H5]. split; simpl in *; try done.
  - intros x. rewrite queue_delete. specialize (H1 x). destruct (decide (x = id)) as [->|Hne].
    + destruct (queue e id) as [|e0 es] eqn:Eq; [done|]. rewrite log_of_push, decide_True by done.
      apply (conserved_pop _ _ (e0 :: es)); [by rewrite app_nil_r|done].
    + destruct (queue e id); [done|]. by rewrite log_of_push, decide_False, app_nil_r.
  - intros x fx. rewrite lookup_delete_Some. intros [_ Hx]. by apply (H2 x).
Qed.

Lemma collect_one_depth active fifo fifo' :
  (collect_one active fifo).2 = Some fifo' →
  q_maxDepth fifo' = q_maxDepth fifo ∧
  (List.length (q_events fifo') ≤ List.length (q_events fifo))%nat.
Proof.
  pose proof (collect_one_spec active fifo) as Hs.
  destruct (collect_one active fifo) as [item f']. simpl. intros ->.
  destruct (q_events fifo) as [|e es] eqn:E.
  - destruct Hs as [_ Hs]. destruct active; [|done]. simplify_eq. by rewrite E.
  - destruct Hs as [_ Hs]. case_match; [done|]. injection Hs as ->. simpl.
    rewrite length_drop. split; [done|lia].
Qed.

Lemma hub_inv_collect perm t :
  hub_inv t → Perm_ok perm → Z.of_nat (List.length (t_ticks t)) + 1 < two64 →
  hub_inv (traced_step (HCollect perm) t).
Proof.
  intros [H1 H2 H3 H4 H5] Hperm Hfit. destruct t as [h i o ticks].
  unfold traced_step. cbn [t_hub t_in t_out t_ticks hub_step log_in log_out log_tick] in *.
  destruct (decide (h_fifos h = ∅)) as [He|He].
  { assert (collect perm h = (h, None)) as ->; [|by split].
    destruct h as [a b c d e f g k r]. simpl in *. unfold collect. by rewrite bool_decide_eq_true_2. }
  destruct (collect_spec perm h Hperm He) as
    (items & h' & -> & _ & Hnd & Hit & Hf & Htc & _ & _ & _ & _ & _ & Hd).
  assert (u64 (h_tickCounter h + 1) = Z.of_nat (List.length ticks) + 1) as Htick
    by (rewrite H5; unfold u64; rewrite Z.mod_small; lia).
  split; simpl; rewrite ?Hd; try done.
  - intros id. rewrite log_of_items by done.
    rewrite (list_find_items _ _ _ (Hit id)). unfold contributes, queue. rewrite Hf.
    specialize (H1 id). unfold queue in H1.
    destruct (h_fifos h !! id) as [fifo|]; cbn [mbind option_bind].
    + rewrite <-(collect_one_item (bool_decide (id ∈ h_subscriptions h)) fifo).
      by apply conserved_collect.
    + by rewrite app_nil_r.
  - intros id f. rewrite Hf. destruct (h_fifos h !! id) as [fifo|] eqn:Ef; [|done].
    cbn [mbind option_bind]. intros [Hm Hl]%collect_one_depth.
    destruct (H2 _ _ Ef). rewrite Hm. split; [done|lia].
  - rewrite map_app, length_app. simpl. rewrite H4, Htick, Nat.add_1_r, seq_S, map_app.
    simpl. f_equal. f_equal. lia.
  - rewrite Htc, Htick, length_app. simpl. lia.
Qed.

Lemma hub_inv_step o t :
  hub_inv t → hub_op_ok o → Z.of_nat (List.length (t_ticks t)) + 1 < two64 →
  hub_inv (traced_step o t).
Proof.
  intros Hi Ho Hfit. destruct o.
  - destruct t as [[] ? ? ?]. by eapply hub_inv_same.
  - destruct t as [h i o ticks]. unfold traced_step. simpl. unfold cancelPendingRegistration.
    destruct (stopIfIdle_fields (take_pending h)) as (S1 & S2 & S3 & _ & _).
    destruct (take_pending_fields h) as (T1 & T2 & T3).
    eapply hub_inv_same; [done|congruence..].
  - by apply hub_inv_register.
  - by apply hub_inv_enqueue.
  - by apply hub_inv_close.
  - by apply hub_inv_unregister.
  - by apply hub_inv_collect.
  - destruct t as [[a b c d e' f g k [r|]] i o ticks]; [done|]. unfold traced_step. simpl.
    case_decide; [done|]. by eapply hub_inv_same.
  - destruct t as [h i o ticks]. unfold traced_step. simpl.
    destruct (stopIfIdle_fields h) as (S1 & S2 & S3 & _ & _). by eapply hub_inv_same.
  - destruct t as [[] ? ? ?]. by eapply hub_inv_same.
Qed.

Lemma ticks_step o t :
  (List.length (t_ticks (traced_step o t)) ≤ S (List.length (t_ticks t)))%nat.
Proof.
  destruct t as [h i o' ticks]. unfold traced_step. destruct o; simpl; try lia.
  destruct (collect perm h).2 as [[[]]|]; simpl; rewrite ?length_app; simpl; lia.
Qed.

Lemma hub_inv_run ops t :
  hub_inv t → Forall hub_op_ok ops →
  Z.of_nat (List.length (t_ticks t) + List.length ops) < two64 → hub_inv (traced_run ops t).
Proof.
  intros Hi Hops. revert t Hi. induction Hops as [|o ops Ho _ IH]; intros t Hi Hfit; [done|].
  simpl in *. apply IH; [apply hub_inv_step; [done..|lia]|].
  pose proof (ticks_step o t). lia.
Qed.

Lemma hub_inv_new scope tick depth : hub_inv (start_trace (newMergeHub scope tick depth)).
Proof.
  split; simpl; try done.
  - intros id. apply conserved_nil.
  - destruct (Z.leb_spec depth 0); [done|lia].
Qed.

(** Only unregistering drops events. *)
Lemma dropped_step id es o t :
  Dropped es ∈ log_of (t_out (traced_step o t)) id →
  Dropped es ∈ log_of (t_out t) id ∨ o = HUnregister id.
Proof.
  unfold traced_step. cbn [t_out]. destruct o; cbn [log_out]; auto.
  - destruct (queue _ id0) as [|e0 es0]; [auto|]. rewrite log_of_push, elem_of_app.
    case_decide as E; [subst; auto|]. rewrite elem_of_nil. tauto.
  - destruct (collect perm (t_hub t)).2 as [[[items tick] stop]|]; [|auto].
    induction (reverse items) as [|[i e] its IH]; cbn; [auto|]. rewrite log_of_push, elem_of_app.
    intros [H|H]; [auto|]. case_decide; [by apply list_elem_of_singleton in H|by apply elem_of_nil in H].
Qed.
Lemma dropped_unregistered id es ops t :
  Dropped es ∈ log_of (t_out (traced_run ops t)) id →
  Dropped es ∈ log_of (t_out t) id ∨ HUnregister id ∈ ops.
Proof.
  revert t. induction ops as [|o ops IH]; intros t; cbn; [auto|]. rewrite elem_of_cons.
  intros [[H| ->]%dropped_step|H]%IH; auto.
Qed.

(** ** Draining a closed upstream *)

Section Drain.
Context {std : GoStd}.

Lemma setErr_fields e h :
  h_fifos (setErr e h) = h_fifos h ∧ h_subscriptions (setErr e h) = h_subscriptions h.
Proof. destruct h as [a b c d e' f g k [r|]]; simpl; [done|]. by case_decide. Qed.

Lemma cancel_if_fields b h :
  h_fifos (cancel_if b h) = h_fifos h ∧ h_subscriptions (cancel_if b h) = h_subscriptions h.
Proof. unfold cancel_if. destruct b, h; done. Qed.

Lemma flush_emit_fields fe items tick stop h s :
  h_fifos (flush_emit fe items tick stop (h, s)).1.1 = h_fifos h ∧
  h_subscriptions (flush_emit fe items tick stop (h, s)).1.1 = h_subscriptions h.
Proof.
  unfold flush_emit. destruct items as [|x items]; [apply cancel_if_fields|].
  destruct (emitFrame _ _ _ _ _) as [s' []]; simpl.
  - apply cancel_if_fields.
  - destruct (cancel_if_fields stop (setErr e h)) as [-> ->]. apply setErr_fields.
  - done.
Qed.

(** How many flushes it takes at most until the FIFO is gone. *)
Definition flushes (id : upstreamIdentity) (h : mergeHub) : nat :=
  match h_fifos h !! id with Some f => S (List.length (q_events f)) | None => 0 end.

Lemma hasFIFO_flushes id h : hasFIFO id h = negb (flushes id h =? 0)%nat.
Proof. unfold hasFIFO, flushes. destruct (h_fifos h !! id); [by apply bool_decide_eq_true_2|].
  apply bool_decide_eq_false_2. by intros []. Qed.
Lemma flushes_same id h h' : h_fifos h' = h_fifos h → flushes id h' = flushes id h.
Proof. intros E. unfold flushes. by rewrite E. Qed.

(** A collection never adds to a FIFO; it shortens that of a closed upstream, or
    removes it, and removes it when it finds nothing to collect. *)
Lemma collect_flushes perm id h :
  Perm_ok perm →
  (flushes id (collect perm h).1 ≤ flushes id h)%nat ∧
  h_subscriptions (collect perm h).1 = h_subscriptions h ∧
  (id ∉ h_subscriptions h →
   (flushes id (collect perm h).1 = 0 ∨ flushes id (collect perm h).1 < flushes id h)%nat ∧
   match (collect perm h).2 with
   | Some ([], _, _) | None => flushes id (collect perm h).1 = 0%nat
   | Some (_ :: _, _, _) => True
   end).
Proof.
  intros Hperm. destruct (decide (h_fifos h = ∅)) as [He|Hne].
  { assert (collect perm h = (h, None)) as ->.
    { destruct h as [a b c d e f g k i]. simpl in *. unfold collect. by rewrite bool_decide_eq_true_2. }
    unfold flushes. cbn. by rewrite He, lookup_empty; auto. }
  destruct (collect_spec perm h Hperm Hne) as
    (items & h1 & -> & _ & _ & Hit & Hf1 & _ & Hs1 & _). cbn [fst snd].
  unfold flushes. rewrite Hf1. specialize (Hit id). unfold contributes in Hit.
  destruct (h_fifos h !! id) as [f|]; cbn [mbind option_bind] in *;
    [|split_and!; [lia|done|]; intros _; split; [by left|by destruct items]].
  pose proof (collect_one_spec (bool_decide (id ∈ h_subscriptions h)) f) as Hc.
  rewrite <-(collect_one_item (bool_decide (id ∈ h_subscriptions h)) f) in Hit.
  destruct (collect_one _ f) as [item f']. cbn [fst snd] in *.
  destruct (q_events f) as [|e es] eqn:E; destruct Hc as [Hi ->].
  - split_and!; [by case_bool_decide; rewrite ?E; cbn; lia|done|]. intros Hs.
    rewrite bool_decide_eq_false_2 by done. cbn. split; [by left|by destruct items].
  - set (r := drop (join_count e es) es).
    assert (List.length r ≤ List.length es)%nat as Hr by (subst r; rewrite length_drop; lia).
    destruct (negb _ && _)%bool eqn:Eb; cbn; split_and!; try done; try lia; intros Hs.
    + split; [by left|by destruct items].
    + split; [right; lia|]. destruct items as [|x items]; [|done]. exfalso.
      destruct item as [x|]; [|by destruct (take _ es)]. by apply (elem_of_nil (id, x)), Hit.
Qed.

(** Who drains [id] owns it: nobody else registers it or enqueues for it. *)
Definition spares (id : upstreamIdentity) (l : drain_label) : Prop :=
  match l with
  | DrHub (HRegister i) | DrHub (HEnqueue i _) => i ≠ id
  | DrHub (HCollect perm) => Perm_ok perm
  | DrMine fe => Perm_ok (fe_perm fe)
  | _ => True
  end.

Lemma hub_step_flushes id o h :
  spares id (DrHub o) →
  (flushes id (hub_step o h) ≤ flushes id h)%nat ∧
  (id ∉ h_subscriptions h → id ∉ h_subscriptions (hub_step o h)).
Proof.
  intros Ho. unfold flushes. destruct o as [| |i|i ev|i|i|perm|e| |]; cbn [hub_step spares] in *.
  - by destruct h.
  - unfold cancelPendingRegistration. destruct (stopIfIdle_fields (take_pending h)) as (-> & _ & _ & -> & _).
    destruct h as [a b c d e f g k r]. cbn. by destruct (g >? 0).
  - unfold registerPendingUpstream. destruct h as [a b c d e f g k r]. cbn.
    destruct (g >? 0), k; cbn; try done; destruct (e !! i); cbn; try done;
      (rewrite lookup_insert_ne by done; split; [done|set_solver]).
  - unfold enqueue. destruct h as [a b c d e f g k r]. destruct (e !! i) eqn:Ei; cbn; [|done].
    destruct (fifo_enqueue _ _); cbn; [|done]. by rewrite lookup_insert_ne.
  - unfold closeUpstream. destruct h as [a b c d e f g k r].
    match goal with |- context [stopIfIdle ?x] => destruct (stopIfIdle_fields x) as (-> & _ & _ & -> & _) end.
    cbn. split; [|set_solver]. destruct (e !! i) as [q|] eqn:Ei; [|done].
    destruct (_ =? 0)%nat; [|done]. destruct (decide (i = id)) as [->|?];
      [rewrite lookup_delete_eq; lia|by rewrite lookup_delete_ne].
  - unfold unregisterUpstream. destruct h as [a b c d e f g k r].
    match goal with |- context [stopIfIdle ?x] => destruct (stopIfIdle_fields x) as (-> & _ & _ & -> & _) end.
    cbn. split; [|set_solver]. destruct (decide (i = id)) as [->|?];
      [rewrite lookup_delete_eq; lia|by rewrite lookup_delete_ne].
  - destruct (collect_flushes perm id h Ho) as (H1 & -> & _). by unfold flushes in H1.
  - destruct (setErr_fields e h) as [-> ->]. done.
  - destruct (stopIfIdle_fields h) as (-> & _ & _ & -> & _). done.
  - by destruct h.
Qed.

(** How many steps of its own a drain can still make. *)
Definition drain_left (id : upstreamIdentity) (pc : drain_at) (h : mergeHub) : nat :=
  match pc with
  | DrClose => 3 * flushes id h + 3
  | DrCheck => 3 * flushes id h + 2
  | DrFlush => Nat.max 4 (3 * flushes id h + 1)
  | DrEmit _ _ _ => 3 * flushes id h + 3
  | DrStop => 1
  | DrDone => 0
  end.

(** The last flush of the drain, its emission having failed. *)
Definition flush_failed (id : upstreamIdentity) (ls : list drain_label)
    (st0 : drain_at * (mergeHub * Stream)) : Prop :=
  ∃ before fe after items tickID stop h s,
    ls = before ++ DrMine fe :: after ∧
    drain_run id before st0 = (DrEmit items tickID stop, (h, s)) ∧
    (emitFrame (fe_env fe) (fe_order fe) (fe_now fe) (normalizeTickFrame items tickID) s).2 ≠ Done ∧
    (drain_run id (before ++ [DrMine fe]) st0).1 = DrStop.

Definition drain_inv (id : upstreamIdentity) (ls : list drain_label)
    (st0 st : drain_at * (mergeHub * Stream)) : Prop :=
  (st.1 ≠ DrClose → id ∉ h_subscriptions st.2.1) ∧
  match st.1 with
  | DrEmit [] _ _ => flushes id st.2.1 = 0%nat
  | DrStop | DrDone => flushes id st.2.1 = 0%nat ∨ flush_failed id ls st0
  | _ => True
  end.

Lemma flush_failed_more id ls l st0 : flush_failed id ls st0 → flush_failed id (ls ++ [l]) st0.
Proof.
  intros (before & fe & after & items & tickID & stop & h & s & -> & H).
  exists before, fe, (after ++ [l]), items, tickID, stop, h, s. by rewrite <-app_assoc.
Qed.

Lemma drain_run_snoc id ls l st : drain_run id (ls ++ [l]) st = drain_run1 id (drain_run id ls st) l.
Proof. unfold drain_run. by rewrite foldl_app. Qed.

(** A step of others. *)
Lemma drain_other id l pc h h' s s' ls st0 :
  (flushes id h' ≤ flushes id h)%nat →
  (id ∉ h_subscriptions h → id ∉ h_subscriptions h') →
  drain_inv id ls st0 (pc, (h, s)) → drain_inv id (ls ++ [l]) st0 (pc, (h', s')) ∧
  (drain_left id pc h' ≤ drain_left id pc h)%nat.
Proof.
  intros Hf Hs [I1 I2]. cbn [fst snd] in *. split; [|destruct pc; cbn; lia].
  split; cbn [fst snd]; [auto|].
  destruct pc as [| | |items ? ?| |]; try done; [destruct items; [lia|done]|..];
    (destruct I2 as [I2|I2]; [left; lia|right; by apply flush_failed_more]).
Qed.

(** A step of its own. *)
Lemma drain_mine id fe pc h s ls st0 :
  Perm_ok (fe_perm fe) → drain_run id ls st0 = (pc, (h, s)) → drain_inv id ls st0 (pc, (h, s)) →
  let st' := drainClosedUpstream fe id (pc, (h, s)) in
  drain_inv id (ls ++ [DrMine fe]) st0 st' ∧
  (pc = DrDone ∧ st' = (pc, (h, s)) ∨ drain_left id st'.1 st'.2.1 < drain_left id pc h)%nat.
Proof.
  intros Hp Hrun [I1 I2]. cbn [fst snd] in *. destruct pc as [| | |items tick stop| |]; cbn [drainClosedUpstream].
  - assert (flushes id (closeUpstream id h) ≤ flushes id h)%nat as Hf
      by (apply (hub_step_flushes id (HClose id) h); done).
    split; [|right; cbn; lia]. split; cbn; [|done]. intros _. destruct h as [a b c d e f g k r].
    unfold closeUpstream. match goal with |- context [stopIfIdle ?x] => destruct (stopIfIdle_fields x) as (_ & _ & _ & -> & _) end.
    cbn. set_solver.
  - pose proof (hasFIFO_flushes id h) as Hh. destruct (hasFIFO id h); cbn [fst snd drain_left];
      (split; [split; [by auto|]|right]); cbn; try done;
      destruct (Nat.eqb_spec (flushes id h) 0); try done; auto; lia.
  - destruct (collect_flushes (fe_perm fe) id h Hp) as (H1 & H2 & H3). specialize (H3 (I1 ltac:(done))) as [H3 H4].
    destruct (collect (fe_perm fe) h) as [h' [[[its t] st]|]]; cbn [fst snd] in *.
    + split; [split; cbn; [rewrite H2; auto|by destruct its]|right; cbn; lia].
    + split; [split; cbn; [rewrite H2; auto|by left]|right; cbn; lia].
  - destruct (flush_emit fe items tick stop (h, s)) as [[h' s'] again] eqn:E.
    pose proof (flush_emit_fields fe items tick stop h s) as [F1 F2]. rewrite E in F1, F2. cbn [fst snd] in *.
    pose proof (flushes_same id h h' F1) as Hf. rewrite <-Hf in *.
    assert (drain_run id (ls ++ [DrMine fe]) st0 = (if again then DrCheck else DrStop, (h', s'))) as Hrun'.
    { rewrite drain_run_snoc, Hrun. cbn [drain_run1 drainClosedUpstream]. by rewrite E. }
    split; [|right; destruct again; cbn; lia]. split; cbn; [rewrite F2; by auto|].
    destruct again; [done|]. destruct items as [|x items]; [by left|]. right.
    exists ls, fe, [], (x :: items), tick, stop, h, s. split_and!; [done|done| |by rewrite Hrun'].
    intros Hdone. unfold flush_emit in E.
    destruct (emitFrame _ _ _ _ s) as [s1 []]; [|done..]. by injection E.
  - assert (flushes id (stopIfIdle h) = flushes id h) as Hf
      by (apply flushes_same; by destruct (stopIfIdle_fields h)).
    split; [|right; cbn; lia]. split; cbn.
    + destruct (stopIfIdle_fields h) as (_ & _ & _ & -> & _). by auto.
    + rewrite Hf. destruct I2; [by left|right; by apply flush_failed_more].
  - split; [|by left]. split; cbn; [by auto|]. destruct I2; [by left|right; by apply flush_failed_more].
Qed.

(** Undisturbed, the two halves are [flushTick]. *)
Lemma drain_flushTick id fe h s :
  (collect (fe_perm fe) h).2 ≠ None →
  drain_run id [DrMine fe; DrMine fe] (DrFlush, (h, s))
  = (if (flushTick fe (h, s)).2 then DrCheck else DrStop, (flushTick fe (h, s)).1).
Proof.
  intros Hc. unfold drain_run. cbn [foldl drain_run1 drainClosedUpstream]. unfold flushTick.
  destruct (collect (fe_perm fe) h) as [h' [[[items tick] stop]|]]; [|done].
  cbn [drainClosedUpstream]. by destruct (flush_emit fe (map snd items) tick stop (h', s)) as [[h2 s2] []].
Qed.

Definition own_steps (ls : list drain_label) : nat :=
  List.length (List.filter (λ l, match l with DrMine _ => true | _ => false end) ls).

Lemma drain_run_inv id h s ls :
  Forall (spares id) ls →
  let st := drain_run id ls (DrClose, (h, s)) in
  drain_inv id ls (DrClose, (h, s)) st ∧
  (st.1 = DrDone ∨ drain_left id st.1 st.2.1 + own_steps ls ≤ drain_left id DrClose h)%nat.
Proof.
  induction ls as [|l ls IH] using rev_ind; intros Hok; [by split; [|right; cbn; lia]|].
  apply Forall_app in Hok as [Hok [Hl _]%Forall_cons]. destruct (IH Hok) as [HI HL]. cbn zeta.
  rewrite drain_run_snoc. unfold own_steps in *. rewrite List.filter_app, length_app.
  destruct (drain_run id ls (DrClose, (h, s))) as [pc [h1 s1]] eqn:Hrun. cbn [fst snd] in *.
  destruct l as [fe|o|s2]; cbn [drain_run1 fst snd List.filter].
  - destruct (drain_mine id fe pc h1 s1 ls _ Hl Hrun HI) as [HI' HL']. split; [done|].
    destruct HL' as [[-> ->]|HL']; [by left|]. destruct HL as [->|HL]; [cbn in HL'; lia|].
    right. cbn [List.length]. lia.
  - destruct (hub_step_flushes id o h1 Hl) as [F1 F2].
    destruct (drain_other id (DrHub o) pc h1 (hub_step o h1) s1 s1 ls _ F1 F2 HI) as [HI' HL'].
    split; [done|]. destruct HL as [->|HL]; [by left|]. right. cbn [List.length]. lia.
  - destruct (drain_other id (DrStream s2) pc h1 h1 s1 s2 ls (DrClose, (h, s))) as [HI' HL']; [lia|done|done|].
    split; [done|]. destruct HL as [->|HL]; [by left|]. right. cbn [List.length]. lia.
Qed.

(** ** Frames *)

Lemma norm_event_json e e' : norm_event e = Some e' → ∃ j, event_json e = Some j.
Proof.
  unfold norm_event, event_json. intros H.
  destruct (norm_delta (ev_Delta e)) as [d|] eqn:Ed; [|done].
  destruct (norm_metadata (ev_Metadata e)) as [m|] eqn:Em; [|done].
  assert (∃ dj, delta_json (ev_Delta e) = Some dj) as [dj ->].
  { unfold norm_delta, compact in Ed. destruct (ev_Delta e) as [raw|]; simpl; [|by eauto].
    destruct (parse raw); [by eauto|done]. }
  assert (∃ mj, metadata_json (ev_Metadata e) = Some mj) as [mj ->]; [|by eauto].
  unfold norm_metadata in Em. destruct (ev_Metadata e) as [[|x l]|]; cbn [metadata_json]; eauto.
  destruct (any_json (AMap (x :: l))); [by eauto|done].
Qed.

Lemma norm_events_json es evs :
  mapM norm_event es = Some evs → ∃ js, mapM event_json es = Some js.
Proof.
  intros H. apply mapM_Some in H. induction H as [|e e' es evs He _ [js IH]]; [by exists []|].
  destruct (norm_event_json _ _ He) as [j Hj]. exists (j :: js). simpl. by rewrite Hj, IH.
Qed.

Lemma batch_json_wf tick es js :
  Forall event_ok es → mapM event_json es = Some js →
  batch_json (mkBatch tick es)
  = Some (JObj [field "tick_id" (JNum (dec tick));
                field "events" (match js with [] => JNull | _ => JArr js end)]) ∧
  wf (JObj [field "tick_id" (JNum (dec tick));
            field "events" (match js with [] => JNull | _ => JArr js end)]).
Proof.
  intros Hok Hj. unfold batch_json. cbn [Events TickID]. rewrite Hj. split; [done|].
  pose proof (mapM_wf _ _ Hok Hj) as Hwf. constructor.
  apply field_cons; [simpl; name_body|apply wf_num, num_ok_dec|].
  apply field_cons; [simpl; name_body| |apply List.Forall_nil].
  destruct js; auto with json.
Qed.

(** The carrier of a tick frame is accepted by [prepare] and expands to the items. *)
Lemma tick_carrier tick es evs scope seq lt now :
  u64_ok tick → (tick ≠ 0 ∨ List.length es ≠ 1%nat) → es ≠ [] → Forall event_ok es →
  mapM norm_event es = Some evs →
  ∃ ev p, frame_event (normalizeTickFrame es tick) = Some (Ok ev) ∧
    prepare ev scope seq lt now = Ok p ∧ ev_EventType p = EventMergeBundle ∧
    ev_SequenceNumber p = seq ∧
    ExpandBundleEvent p = Ok ((λ e, set_scope (mergeScope scope (ev_Scope e)) e) <$> evs).
Proof.
  intros Ht Hne Hes Hok Hnorm. destruct (norm_events_json _ _ Hnorm) as [js Hjs].
  destruct (batch_json_wf tick es js Hok Hjs) as [Hb Hwf].
  set (j := JObj _) in Hb, Hwf.
  assert (EncodeEventBatch (mkBatch tick es) = Ok (print j)) as Henc
    by (unfold EncodeEventBatch; by rewrite Hb).
  set (ev := mkEvent EventMergeBundle (mkSource (s2b "hub") [] []) 0 StatusCompleted
               (Some (print j)) 0 zero_time zero_scope None).
  assert (parse (print j) = Some j) as Hp by by apply parse_print.
  set (p := mkEvent EventMergeBundle (mkSource (s2b "hub") [] []) seq StatusCompleted
              (Some (print j)) lt now (mergeScope scope zero_scope) None).
  exists ev, p. split.
  { unfold frame_event, normalizeTickFrame. cbn [fr_Events fr_TickID].
    destruct es as [|e es]; [done|].
    assert ((List.length (e :: es) =? 1)%nat && (tick =? 0) = false) as ->.
    { apply andb_false_iff. destruct Hne; [right; lia|left; by apply Nat.eqb_neq]. }
    by rewrite Henc. }
  split.
  { unfold prepare. subst ev. cbn [ev_EventType ev_From src_Layer ev_Status ev_Delta ev_Timestamp
      ev_Scope ev_Metadata]. cbn [is_empty]. change (default _ (Some (print j))) with (print j).
    assert (json_Valid (print j) = true) as -> by (apply json_Valid_spec; eauto).
    rewrite decide_True by done. cbn [negb]. fold p. unfold marshal_ok.
    rewrite bool_decide_eq_true_2; [done|]. unfold event_json. subst p.
    cbn [ev_Delta ev_Metadata delta_json metadata_json]. rewrite Hp. by eexists. }
  split; [done|]. split; [done|].
  rewrite (expand_carrier (mkBatch tick es) (print j) p) by done.
  cbn [Events]. by rewrite Hnorm.
Qed.
End Drain.

(** ** Properties *)

(** joining. [popJoinedHead] removes the head and exactly the longest run of events
    behind it with the head's key and string deltas. Where the deltas are valid JSON they
    are JSON strings, and the joined delta is the one JSON string whose body is the
    concatenation of theirs; type, source and status are the head's. *)
Theorem popJoinedHead_joins (f : upstreamFIFO) (e : Event) (es : list Event) :
  q_events f = e :: es →
  ∃ js rest item, es = js ++ rest ∧ Forall (λ n, canJoinEvents e n = true) js ∧
    match rest with [] => True | n :: _ => canJoinEvents e n = false end ∧
    popJoinedHead f = Some (item, mkFIFO (q_identity f) (q_maxDepth f) rest) ∧
    joinKeyOf item = joinKeyOf e ∧
    (js = [] → item = e) ∧
    (js ≠ [] → Forall (λ x, json_Valid (delta_of x) = true) (e :: js) →
     Forall (λ x, parse (delta_of x) = Some (JStr (inner (delta_of x)))) (e :: js) ∧
     parse (delta_of item) = Some (JStr (mjoin ((λ x, inner (delta_of x)) <$> e :: js)))).
Proof.
  intros Hf. destruct (join_count_spec e es) as (H1 & _ & H2).
  destruct (popJoinedHead_cons f e es Hf) as (item & Hj & Hp).
  exists (take (join_count e es) es), (drop (join_count e es) es), item.
  split_and!; try done.
  - by rewrite take_drop.
  - destruct (take _ es); simpl in Hj; by simplify_eq.
  - intros E. rewrite E in Hj. simpl in Hj. by simplify_eq.
  - intros Hne Hv. destruct (join_run_valid e (take (join_count e es) es) item) as (?&?&?); done.
Qed.

(** C4: conservation and order. In any interleaving of the hub's critical sections, for
    every upstream all events ever accepted from it are, in order, runs that were joined
    into one item each and collected for a tick, queues that were dropped whole, and what
    is still queued: nothing is duplicated or reordered in the hub, and nothing is lost
    but by unregistering the upstream (as a merge does whose reading ends or fails before
    its upstream closes). Queues stay within the configured depth and ticks are numbered
    1, 2, 3, ... *)
Theorem hub_conserves (scope : Scope) (tick depth : Z) (ops : list hub_op) :
  Forall hub_op_ok ops → Z.of_nat (List.length ops) < two64 →
  let t := traced_run ops (start_trace (newMergeHub scope tick depth)) in
  hub_inv t ∧ ∀ id es, Dropped es ∈ log_of (t_out t) id → HUnregister id ∈ ops.
Proof.
  intros Hok Hfit. split; [apply hub_inv_run; [apply hub_inv_new|done|done]|].
  intros id es Hd. apply dropped_unregistered in Hd as [Hd|Hd]; [|done]. by apply elem_of_nil in Hd.
Qed.

(** Fairness of a tick. A collection takes exactly one item from every upstream with
    queued events, whatever the map order. *)
Theorem collect_one_per_upstream (perm : Perm) (h : mergeHub) :
  Perm_ok perm → h_fifos h ≠ ∅ →
  ∃ h' items, collect perm h = (h', Some (items, u64 (h_tickCounter h + 1), idleLocked h')) ∧
    NoDup (map fst items) ∧
    ∀ id, (∃ e, (id, e) ∈ items) ↔ queue (h_fifos h) id ≠ [].
Proof.
  intros Hperm Hne. destruct (collect_spec perm h Hperm Hne) as
    (items & h' & Hc & _ & Hnd & Hit & _). exists h', items. split; [done|]. split; [done|].
  intros id. setoid_rewrite Hit. unfold contributes, queue.
  destruct (h_fifos h !! id) as [f|]; cbn [mbind option_bind]; [|naive_solver].
  pose proof (collect_one_spec true f) as Hs. destruct (collect_one true f) as [item f'].
  destruct (q_events f) as [|e es]; simpl.
  - destruct Hs as [-> _]. naive_solver.
  - destruct Hs as [Hj _]. destruct item; [naive_solver|]. by destruct (take _ es).
Qed.

(** C5: termination. Whatever the ticker, the feeders of other upstreams and the users of
    the downstream stream do between the critical sections of a drain, it ends within
    three steps per flush, one flush for each event queued and one more; and it ends with
    the FIFO of its upstream gone, or because the emission of one of its own flushes
    failed. Nobody else registers the identity or enqueues for it meanwhile. *)
Theorem drainClosedUpstream_ends `{GoStd} (id : upstreamIdentity) (h : mergeHub) (s : Stream)
    (ls : list drain_label) :
  Forall (spares id) ls →
  let st := drain_run id ls (DrClose, (h, s)) in
  ((3 * (queue_length id h + 1) + 3 ≤ own_steps ls)%nat → st.1 = DrDone) ∧
  (st.1 = DrDone → hasFIFO id st.2.1 = false ∨ flush_failed id ls (DrClose, (h, s))).
Proof.
  intros Hok. destruct (drain_run_inv id h s ls Hok) as [[I1 I2] HL]. cbn zeta. split.
  - intros Hn. destruct HL as [HL|HL]; [done|]. cbn [drain_left] in HL.
    assert (flushes id h ≤ queue_length id h + 1)%nat
      by (unfold flushes, queue_length; destruct (h_fifos h !! id); lia).
    destruct (drain_run id ls (DrClose, (h, s))) as [pc [h1 s1]]. cbn [fst snd] in *.
    destruct pc; cbn [drain_left] in HL; [lia..|done].
  - intros Hpc. rewrite Hpc in I2. rewrite hasFIFO_flushes. destruct I2 as [->|I2]; auto.
Qed.

(** Delivery of a tick. The frame of a tick is emitted as one carrier event that the
    downstream stream accepts, and every ordinary (expanded) subscriber of it is sent the
    tick's items that its filter selects, in order, in the form JSON hands on and with the
    downstream scope filled in. *)
Theorem tick_frame_delivers `{GoStd} (tick : Z) (es evs : list Event) (s : Stream)
    (now : bytes) (sub : Subscription) :
  u64_ok tick → tick ≠ 0 → es ≠ [] → Forall event_ok es → mapM norm_event es = Some evs →
  sub_expanded sub = true →
  ∃ ev p, frame_event (normalizeTickFrame es tick) = Some (Ok ev) ∧
    prepare ev (st_scope s) (u64 (st_nextSeq s + 1)) (u64 (st_nextLogicalTime s + 1)) now = Ok p ∧
    wanted p sub
    = List.filter (Match (sub_filter sub))
        ((λ e, set_scope (mergeScope (st_scope s) (ev_Scope e)) e) <$> evs).
Proof.
  intros Ht Hne Hes Hok Hnorm Hsub.
  destruct (tick_carrier tick es evs (st_scope s) (u64 (st_nextSeq s + 1))
    (u64 (st_nextLogicalTime s + 1)) now) as (ev & p & H1 & H2 & H3 & _ & H4); [auto..|].
  exists ev, p. split; [done|]. split; [done|].
  unfold wanted, is_bundle. rewrite Hsub, (bool_decide_eq_true_2 _ H3). simpl.
  unfold FilterBundleEvent. by rewrite H4.
Qed.

(** ** Two flushes at once

    The lock is released between collecting and emitting, and both the ticker
    and a draining feeder flush: the second collection may be emitted first. *)

Definition two_queued : mergeHub :=
  let id := (s2b "skill", s2b "s1") in
  mkHub zero_scope 10 4096 0
    {[ id := mkFIFO id 4096 [prepareMergedEvent (set_seq 1 (sample_event "first"));
                             prepareMergedEvent (set_seq 2 (sample_event "second"))] ]}
    ∅ 0 false None.

Definition flush_now : flush_env :=
  mkFlush id (λ _ _, quiet) id (s2b "2024-05-01T00:00:00Z").

(** The tick ids of the carriers a stream has buffered. *)
Definition buffered_types `{GoStd} (s : Stream) : list (list bytes) :=
  map (λ e, match ExpandBundleEvent e with Ok es => map ev_EventType es | Err _ => [] end)
    (st_buffer s).

Lemma concurrent_flush_reorders :
  match collect id two_queued with
  | (h1, Some (items1, tick1, stop1)) =>
      match collect id h1 with
      | (h2, Some (items2, tick2, stop2)) =>
          let '(h3, s3, _) := @flush_emit plain_std flush_now (map snd items2) tick2 stop2
                                (h2, New zero_scope (mkConfig 8 false)) in
          let '(_, s4, _) := @flush_emit plain_std flush_now (map snd items1) tick1 stop1 (h3, s3) in
          @buffered_types plain_std s4 = [[s2b "second"]; [s2b "first"]]
      | _ => False
      end
  | _ => False
  end.
Proof. vm_compute. reflexivity. Qed.

(** ** Runs on concrete events *)

Definition text_event (body : string) : Event :=
  set_delta (Some (dq :: s2b body ++ [dq])) (sample_event "llm.output.delta").

Definition joined_fifo : upstreamFIFO :=
  mkFIFO (s2b "skill", s2b "s1") 4 [text_event "Hel"; text_event "lo"; sample_event "x"].

Lemma popJoinedHead_joins_witness :
  ∃ item, popJoinedHead joined_fifo
          = Some (item, mkFIFO (s2b "skill", s2b "s1") 4 [sample_event "x"]) ∧
    parse (delta_of item) = Some (JStr (s2b "Hello")).
Proof.
  destruct (popJoinedHead_joins joined_fifo (text_event "Hel")
    [text_event "lo"; sample_event "x"]) as (js & rest & item & H1 & H2 & H3 & H4 & _ & _ & H5).
  { reflexivity. }
  destruct js as [|j1 [|j2 js]].
  - exfalso. simpl in H1. subst rest. vm_compute in H3. discriminate.
  - injection H1 as <- <-. exists item. split; [exact H4|].
    destruct H5 as [_ H5]; [discriminate|repeat constructor|]. rewrite H5. reflexivity.
  - exfalso. injection H1 as <- <- _. inversion H2 as [|? ? _ H2'].
    inversion H2' as [|? ? H6 _]. vm_compute in H6. discriminate.
Defined.

Definition sample_id : upstreamIdentity := (s2b "skill", s2b "s1").
Definition sample_hub_ops : list hub_op :=
  [HBegin; HRegister sample_id; HEnqueue sample_id (text_event "Hel");
   HEnqueue sample_id (text_event "lo"); HCollect reverse; HClose sample_id].

Lemma sample_hub_ops_ok : Forall hub_op_ok sample_hub_ops.
Proof. repeat constructor; intros l; apply reverse_Permutation. Qed.

Lemma hub_conserves_witness :
  let t := traced_run sample_hub_ops (start_trace (newMergeHub zero_scope 10 0)) in
  hub_inv t ∧ map fst (t_ticks t) = [1] ∧ h_canceled (t_hub t) = true.
Proof.
  split; [|split; vm_compute; reflexivity].
  apply (hub_conserves zero_scope 10 0 sample_hub_ops); [apply sample_hub_ops_ok|].
  vm_compute. reflexivity.
Defined.

Lemma collect_one_per_upstream_witness :
  ∃ h' items, collect reverse two_queued = (h', Some (items, 1, idleLocked h')) ∧
    ∃ e, (sample_id, e) ∈ items.
Proof.
  destruct (collect_one_per_upstream reverse two_queued) as (h' & items & H1 & _ & H2).
  - intros l. apply reverse_Permutation.
  - intros E. assert (h_fifos two_queued !! sample_id = None) as E' by (rewrite E; reflexivity).
    vm_compute in E'. discriminate.
  - exists h', items. split; [exact H1|]. apply H2. vm_compute. discriminate.
Defined.

(** The ticker takes the first of two events between the steps of the drain. *)
Definition drained : list drain_label :=
  [DrMine flush_now; DrMine flush_now; DrHub (HCollect id)] ++ replicate 10 (DrMine flush_now).
Definition drained_state : drain_at * (mergeHub * Stream) :=
  @drain_run plain_std sample_id drained (DrClose, (two_queued, New zero_scope (mkConfig 8 false))).

Lemma drainClosedUpstream_ends_witness :
  drained_state.1 = DrDone ∧ List.length (st_buffer drained_state.2.2) = 1%nat ∧
  (hasFIFO sample_id drained_state.2.1 = false ∨
   @flush_failed plain_std sample_id drained (DrClose, (two_queued, New zero_scope (mkConfig 8 false)))).
Proof.
  destruct (@drainClosedUpstream_ends plain_std sample_id two_queued (New zero_scope (mkConfig 8 false)) drained)
    as [H1 H2].
  - unfold drained. repeat (apply List.Forall_cons || apply List.Forall_nil); intros l; reflexivity.
  - split; [apply H1; vm_compute; repeat constructor|]. split; [vm_compute; reflexivity|].
    apply H2, H1. vm_compute. repeat constructor.
Defined.

Lemma tick_frame_delivers_witness :
  ∃ ev, frame_event (normalizeTickFrame [sample_nested] 3) = Some (Ok ev) ∧
    ev_EventType ev = EventMergeBundle.
Proof.
  destruct (@norm_event plain_std sample_nested) as [ev'|] eqn:En; [|vm_compute in En; discriminate].
  destruct (@tick_frame_delivers plain_std 3 [sample_nested] [ev']
    (New zero_scope (mkConfig 8 false)) (s2b "2024-05-01T00:00:00Z")
    (mkSub 1 zero_filter true 16 OverflowDropNewest [] 0 [] false false)) as (ev & p & H1 & _ & _).
  - split; vm_compute; congruence.
  - discriminate.
  - discriminate.
  - constructor; [apply sample_nested_ok|constructor].
  - apply mapM_Some. constructor; [exact En|constructor].
  - reflexivity.
  - exists ev. split; [exact H1|]. vm_compute in H1. injection H1 as <-. reflexivity.
Defined.
