(* ===== verification/Engine.v ===== *)
(** The runner's execution engine ([src/runner/runner.go], [runEngine]): an event
    loop over a growing dependency graph. Nodes start when the last of their
    parents has completed, results may add nodes, every change is recorded
    before it is published, and the first failure stops the loop.

    Calls that can fail outside the engine (the record store, workspaces, agent
    preparation, document delivery) are answered by an oracle, one answer per
    call in call order: [None] for success, [Some e] for the error text. *)
From S2P Require Import Prelude Event.

(** ** Data *)

Record Node := mkNode { n_Id : bytes; n_Parents : list bytes }.
#[export] Instance node_eq_dec : EqDecision Node. Proof. solve_decision. Defined.

Inductive EventType :=
| EventNodeAdded | EventNodeStarted | EventNodeCompleted | EventNodeFailed
| EventEngineIdle | EventEngineStopped.
#[export] Instance event_type_eq_dec : EqDecision EventType. Proof. solve_decision. Defined.

Inductive event_data := NoData | DataOutput (v : any) | DataErr (e : bytes).
Record RunnerEvent := mkREvent { re_Type : EventType; re_NodeID : bytes; re_Data : event_data }.

Inductive RunnerStatus := RsPending | RsRunning | RsIdle | RsFailed | RsCanceled.
#[export] Instance status_eq_dec : EqDecision RunnerStatus. Proof. solve_decision. Defined.

(** [rs_Started] and [rs_Finished]: the time stamps are set. *)
Record RunnerState := mkRState {
  rs_Status : RunnerStatus; rs_Error : bytes; rs_Started : bool; rs_Finished : bool }.

Inductive record :=
| RecInit
| RecStatus (st : RunnerStatus) (e : bytes)
| RecEvent (ev : RunnerEvent).

Record RunnerSnapshot := mkSnap {
  sn_Completed : gmap bytes any; sn_Pending : gmap bytes Z;
  sn_Edges : gmap bytes (list bytes); sn_Nodes : gmap bytes Node; sn_Active : Z }.

Abbreviation inputs_t := (gmap bytes any).

(** The variables of [runEngine], the runner fields it writes, the goroutines in
    flight, and what has been recorded, published and started so far. *)
Record eng := mkEng {
  e_outputs : gmap bytes any;
  e_pending : gmap bytes Z;
  e_nodes : gmap bytes Node;
  e_children : gmap bytes (list bytes);
  e_active : Z;
  e_state : RunnerState;
  e_snapshot : RunnerSnapshot;
  e_running : list bytes;
  e_records : list record;
  e_published : list RunnerEvent;
  e_starts : list (bytes * inputs_t);
  e_calls : nat }.

(** ** A state monad with errors *)

Definition M (A : Type) : Type := eng → eng * res bytes A.
Definition ret {A} (a : A) : M A := λ s, (s, Ok a).
Definition bind {A B} (m : M A) (k : A → M B) : M B :=
  λ s, match m s with (s', Ok a) => k a s' | (s', Err e) => (s', Err e) end.
Definition modify (f : eng → eng) : M unit := λ s, (f s, Ok tt).
(** Run [h] on the state when [m] fails, and fail with the same error. *)
Definition on_err {A} (m : M A) (h : eng → eng) : M A :=
  λ s, match m s with (s', Err e) => (h s', Err e) | r => r end.

Notation "m ;;; k" := (bind m (λ _, k)) (at level 100, k at level 200, right associativity) : go_scope.

(** ** Field updates *)

Definition set_active (f : Z → Z) (s : eng) : eng :=
  let '(mkEng a b c d e st sn r rc p t n) := s in mkEng a b c d (f e) st sn r rc p t n.
Definition set_state (st : RunnerState) (s : eng) : eng :=
  let '(mkEng a b c d e _ sn r rc p t n) := s in mkEng a b c d e st sn r rc p t n.
Definition set_snapshot (sn : RunnerSnapshot) (s : eng) : eng :=
  let '(mkEng a b c d e st _ r rc p t n) := s in mkEng a b c d e st sn r rc p t n.
Definition set_pending (id : bytes) (z : Z) (s : eng) : eng :=
  let '(mkEng a b c d e st sn r rc p t n) := s in
  mkEng a (<[id := z]> b) c d e st sn r rc p t n.
Definition add_record (x : record) (s : eng) : eng :=
  let '(mkEng a b c d e st sn r rc p t n) := s in mkEng a b c d e st sn r (rc ++ [x]) p t n.
Definition publish (ev : RunnerEvent) (s : eng) : eng :=
  let '(mkEng a b c d e st sn r rc p t n) := s in mkEng a b c d e st sn r rc (p ++ [ev]) t n.
Definition set_output (id : bytes) (v : any) (s : eng) : eng :=
  let '(mkEng a b c d e st sn r rc p t n) := s in
  mkEng (<[id := v]> a) b c d e st sn r rc p t n.
(** The goroutine of a node begins, and ends. *)
Definition go_start (id : bytes) (inputs : inputs_t) (s : eng) : eng :=
  let '(mkEng a b c d e st sn r rc p t n) := s in
  mkEng a b c d e st sn (r ++ [id]) rc p (t ++ [(id, inputs)]) n.
Definition go_end (id : bytes) (s : eng) : eng :=
  let '(mkEng a b c d e st sn r rc p t n) := s in
  mkEng a b c d e st sn (List.filter (λ x, negb (bool_decide (x = id))) r) rc p t n.

Section Engine.
Variable has_store : bool.
Variable oracle : nat → option bytes.

(** One fallible outside call. *)
Definition call : M unit := λ s,
  let '(mkEng a b c d e st sn r rc p t n) := s in
  (mkEng a b c d e st sn r rc p t (S n),
   match oracle n with None => Ok tt | Some err => Err err end).

(** ** Recording

    [e_records] are the records whose append reported success. An append that
    fails only when it flushes the file may have left its line there
    ([Log.v]); such a line is not counted, and the failure stops the engine. *)

Definition appendRecord (x : record) : M unit :=
  if has_store then call ;;; modify (add_record x) else ret tt.

(** [transitionState]: the new state and whether anything changed. *)
Definition transitionState (st : RunnerStatus) (errText : bytes) (terminal : bool)
    (cur : RunnerState) : RunnerState * bool :=
  if bool_decide (rs_Status cur = st) && bool_decide (rs_Error cur = errText)
     && (negb terminal || rs_Finished cur)
  then (cur, false)
  else (mkRState st errText
          (rs_Started cur || negb (bool_decide (st = RsPending)))
          (if terminal then true else rs_Finished cur), true).

Definition recordState (st : RunnerStatus) (errText : bytes) (terminal : bool) : M unit := λ s,
  let '(next, changed) := transitionState st errText terminal (e_state s) in
  let s' := set_state next s in
  if changed then appendRecord (RecStatus (rs_Status next) (rs_Error next)) s' else (s', Ok tt).

Definition buildRuntimeSnapshot (s : eng) : RunnerSnapshot :=
  mkSnap (e_outputs s) (e_pending s) (e_children s) (e_nodes s) (e_active s).

Definition emitEvent (ev : RunnerEvent) : M unit :=
  appendRecord (RecEvent ev) ;;;
  modify (λ s, publish ev (set_snapshot (buildRuntimeSnapshot s) s)).

Definition node_event (ty : EventType) (id : bytes) : RunnerEvent := mkREvent ty id NoData.
Definition engine_event (ty : EventType) : RunnerEvent := mkREvent ty [] NoData.

(** [errors.Join]: the texts that are present, one per line. *)
Definition newline : bytes := ["010"%char].
Definition join_errs (errs : list (option bytes)) : option bytes :=
  match omap id errs with
  | [] => None
  | e :: es => Some (e ++ mjoin ((λ x, newline ++ x) <$> es))
  end.

Definition err_of {A} (r : res bytes A) : option bytes :=
  match r with Ok _ => None | Err e => Some e end.

(** [finish]: the final snapshot, the terminal state, the stop event; the
    result is the error the engine returns. *)
Definition finish (st : RunnerStatus) (runErr : bytes) (s : eng) : eng * option bytes :=
  let s := set_snapshot (buildRuntimeSnapshot s) s in
  let '(s, r1) := recordState st runErr true s in
  let '(s, r2) := emitEvent (engine_event EventEngineStopped) s in
  (s, join_errs [Some runErr; err_of r1; err_of r2]).

(** ** Starting and adding nodes *)

Definition node_inputs (n : Node) (s : eng) : inputs_t :=
  foldl (λ m p, <[p := default ANull (e_outputs s !! p)]> m) ∅ (n_Parents n).

Definition runNode (n : Node) : M unit := λ s,
  let inputs := node_inputs n s in
  (call ;;;                                   (* nodeRuntimePaths *)
   call ;;;                                   (* prepareNodeAgent *)
   modify (set_active (λ z, z + 1)) ;;;
   on_err (recordState RsRunning [] false) (set_active (λ z, z - 1)) ;;;
   on_err (emitEvent (node_event EventNodeStarted (n_Id n))) (set_active (λ z, z - 1)) ;;;
   modify (go_start (n_Id n) inputs)) s.

(** Parents without an output, counted with repetition. *)
Definition missing (outputs : gmap bytes any) (parents : list bytes) : nat :=
  List.length (List.filter (λ p, negb (bool_decide (is_Some (outputs !! p)))) parents).

Definition link_child (id : bytes) (ch : gmap bytes (list bytes)) (p : bytes)
  : gmap bytes (list bytes) := <[p := default [] (ch !! p) ++ [id]]> ch.

(** [nodes], [children] and [pendingParents] after one node is entered. *)
Definition enter_node (n : Node) (s : eng) : eng :=
  let '(mkEng a b c d e st sn r rc p t k) := s in
  mkEng a (<[n_Id n := Z.of_nat (missing a (n_Parents n))]> b) (<[n_Id n := n]> c)
    (foldl (link_child (n_Id n)) d (n_Parents n)) e st sn r rc p t k.

Fixpoint addNodesInternal (newNodes : list Node) : M unit := λ s,
  match newNodes with
  | [] => (s, Ok tt)
  | n :: rest =>
      if bool_decide (is_Some (e_nodes s !! n_Id n)) then addNodesInternal rest s
      else
        let pending := missing (e_outputs s) (n_Parents n) in
        (modify (enter_node n) ;;;
         emitEvent (node_event EventNodeAdded (n_Id n)) ;;;
         (if (pending =? 0)%nat then runNode n else ret tt) ;;;
         addNodesInternal rest) s
  end.

(** ** Results *)

Record executionResult := mkResult {
  er_nodeID : bytes; er_output : any; er_newNodes : list Node; er_err : option bytes }.

(** One child of a completed node: delivery, countdown, start. *)
Definition release_child (child : bytes) : M unit :=
  call ;;;                                    (* deliverHandoffToSuccessor *)
  (λ s,
    let left := default 0 (e_pending s !! child) - 1 in
    let s := set_pending child left s in
    if left =? 0 then
      match e_nodes s !! child with
      | Some n => runNode n s
      | None => (s, Ok tt)
      end
    else (s, Ok tt)).

Fixpoint release_children (children : list bytes) : M unit :=
  match children with
  | [] => ret tt
  | c :: cs => release_child c ;;; release_children cs
  end.

Definition idle_check : M unit := λ s,
  if e_active s =? 0 then
    (recordState RsIdle [] false ;;; emitEvent (engine_event EventEngineIdle)) s
  else (s, Ok tt).

(** The success path of one result. *)
Definition complete_node (r : executionResult) : M unit :=
  addNodesInternal (er_newNodes r) ;;;
  modify (set_output (er_nodeID r) (er_output r)) ;;;
  emitEvent (mkREvent EventNodeCompleted (er_nodeID r) (DataOutput (er_output r))) ;;;
  call ;;;                                    (* emitMemoSnapshotEvent *)
  (λ s, release_children (default [] (e_children s !! er_nodeID r)) s) ;;;
  idle_check.

(** ** The loop *)

Inductive engine := Looping (s : eng) | Stopped (s : eng) (err : option bytes).

Inductive input :=
| InCanceled (err : bytes) | InAdd (ns : list Node) | InResult (r : executionResult) | InQuery.

Definition stop_with (st : RunnerStatus) (err : bytes) (s : eng) : engine :=
  let '(s', e) := finish st err s in Stopped s' e.

Definition after (m : eng * res bytes unit) : engine :=
  match m with
  | (s, Ok _) => Looping s
  | (s, Err e) => stop_with RsFailed e s
  end.

Definition loop_step (i : input) (s : eng) : engine :=
  match i with
  | InCanceled err => stop_with RsCanceled err s
  | InAdd ns => after (addNodesInternal ns s)
  | InResult r =>
      let s := set_active (λ z, z - 1) (go_end (er_nodeID r) s) in
      match er_err r with
      | Some e =>
          let '(s, ev) := emitEvent (mkREvent EventNodeFailed (er_nodeID r) (DataErr e)) s in
          stop_with RsFailed (default e (join_errs [Some e; err_of ev])) s
      | None => after (complete_node r s)
      end
  | InQuery => Looping s
  end.

(** The part of [runEngine] before the loop; [None] when already started. *)
Definition engine_start (s : eng) : option engine :=
  if decide (rs_Status (e_state s) = RsPending) then
    let s := set_state (mkRState RsRunning [] true false) s in
    let fail e s := let '(next, _) := transitionState RsFailed e true (e_state s) in
                    Stopped (set_state next s) (Some e) in
    match (call ;;;                           (* provisionWorkspace *)
           appendRecord RecInit ;;; appendRecord (RecStatus RsRunning [])) s with
    | (s', Ok _) => Some (Looping s')
    | (s', Err e) => Some (fail e s')
    end
  else None.

Definition engine_step (i : input) (g : engine) : engine :=
  match g with Looping s => loop_step i s | Stopped _ _ => g end.

Definition engine_run (ins : list input) (g : engine) : engine :=
  foldl (λ g i, engine_step i g) g ins.
End Engine.

(** A runner that has not started; [sn] is its initial snapshot. *)
Definition init_eng (sn : RunnerSnapshot) : eng :=
  mkEng ∅ ∅ ∅ ∅ 0 (mkRState RsPending [] false false) sn [] [] [] [] 0.
Definition empty_snapshot : RunnerSnapshot := mkSnap ∅ ∅ ∅ ∅ 0.
