(* ===== verification/EngineFacts.v ===== *)
(** What the execution engine promises: a node starts at most once and only
    with the outputs of all its parents, pending counts and the active count
    are exact, an idle engine over an acyclic closed graph has completed every
    node, and events are recorded before they are published. *)
From S2P Require Import Prelude Event Engine.

(** ** The graph part of the engine state *)

Definition graph (s : eng) : gmap bytes any * gmap bytes Z * gmap bytes Node *
    gmap bytes (list bytes) * Z * list bytes * list (bytes * inputs_t) :=
  (e_outputs s, e_pending s, e_nodes s, e_children s, e_active s, e_running s, e_starts s).

Definition last_idle (s : eng) : Prop :=
  re_Type <$> last (e_published s) = Some EventEngineIdle.

Definition count (x : bytes) (l : list bytes) : nat :=
  List.length (List.filter (λ y, bool_decide (y = x)) l).

Lemma count_cons x y l : count x (y :: l) = (if decide (y = x) then S (count x l) else count x l).
Proof. unfold count. simpl. case_bool_decide; by case_decide. Qed.
Lemma count_app x l k : count x (l ++ k) = (count x l + count x k)%nat.
Proof. unfold count. by rewrite List.filter_app, length_app. Qed.
Lemma count_elem x l : (0 < count x l)%nat ↔ x ∈ l.
Proof.
  induction l as [|y l IH]; [split; [unfold count; simpl; lia|by intros H%not_elem_of_nil]|].
  rewrite count_cons, elem_of_cons. destruct (decide (y = x)) as [->|]; [split; [by left|lia]|].
  rewrite IH. naive_solver.
Qed.
Lemma count_0 x l : x ∉ l → count x l = 0%nat.
Proof. intros H. destruct (count x l) eqn:E; [done|]. destruct H. apply count_elem. lia. Qed.

(** The children of a completed node, empty when it has none. *)
Definition kids (s : eng) (p : bytes) : list bytes := default [] (e_children s !! p).

(** The invariant, while [cur] is the node whose result is being handled, [ex]
    a node that is due but not yet started, and [l] the children of the last
    completed node that are still to be released. *)
Record ginv (cur ex : option bytes) (l : list bytes) (s : eng) : Prop := {
  g_ids : ∀ id n, e_nodes s !! id = Some n → n_Id n = id;
  g_pend : ∀ id n, e_nodes s !! id = Some n →
    e_pending s !! id = Some (Z.of_nat (missing (e_outputs s) (n_Parents n) + count id l));
  g_child : ∀ p id n, e_outputs s !! p = None → e_nodes s !! id = Some n →
    count id (kids s p) = count p (n_Parents n);
  g_known : ∀ p c, c ∈ kids s p → is_Some (e_nodes s !! c);
  g_todo : ∀ c, c ∈ l → is_Some (e_nodes s !! c);
  g_nodup : NoDup (map fst (e_starts s));
  g_started : ∀ id, id ∈ map fst (e_starts s) ↔
    ex ≠ Some id ∧ ∃ n, e_nodes s !! id = Some n ∧
      (missing (e_outputs s) (n_Parents n) + count id l = 0)%nat;
  g_due : ∀ id, ex = Some id → ∃ n, e_nodes s !! id = Some n ∧
      (missing (e_outputs s) (n_Parents n) + count id l = 0)%nat;
  g_run : ∀ id, id ∈ map fst (e_starts s) ↔
    id ∈ e_running s ∨ is_Some (e_outputs s !! id) ∨ cur = Some id;
  g_disj : ∀ id, id ∈ e_running s → e_outputs s !! id = None ∧ cur ≠ Some id;
  g_cur : ∀ id, cur = Some id → e_outputs s !! id = None;
  g_rundup : NoDup (e_running s);
  g_active : e_active s = Z.of_nat (List.length (e_running s));
  g_inputs : ∀ id m, (id, m) ∈ e_starts s → ∃ n, e_nodes s !! id = Some n ∧
    ∀ p, (p ∈ n_Parents n → ∃ v, e_outputs s !! p = Some v ∧ m !! p = Some v) ∧
         (p ∉ n_Parents n → m !! p = None);
  g_idle : last_idle s → e_active s = 0 }.

(** What holds even after a failure. *)
Record safe (s : eng) : Prop := {
  s_nodup : NoDup (map fst (e_starts s));
  s_inputs : ∀ id m, (id, m) ∈ e_starts s → ∃ n, e_nodes s !! id = Some n ∧
    ∀ p, (p ∈ n_Parents n → ∃ v, e_outputs s !! p = Some v ∧ m !! p = Some v) ∧
         (p ∉ n_Parents n → m !! p = None) }.

Lemma ginv_safe cur ex l s : ginv cur ex l s → safe s.
Proof. intros H. split; apply H. Qed.

Lemma safe_graph s s' : graph s = graph s' → safe s → safe s'.
Proof.
  unfold graph. intros H [H1 H2]. injection H as E1 E2 E3 E4 E5 E6 E7.
  split; rewrite <-?E1, <-?E3, <-?E7; done.
Qed.

Lemma ginv_graph cur ex l s s' :
  graph s = graph s' → (last_idle s' → e_active s' = 0) → ginv cur ex l s → ginv cur ex l s'.
Proof.
  unfold graph. intros H Hi [].
  injection H as E1 E2 E3 E4 E5 E6 E7.
  assert (∀ p, kids s' p = kids s p) as E8 by (intros p; unfold kids; by rewrite E4).
  split; try (rewrite <-?E1, <-?E2, <-?E3, <-?E5, <-?E6, <-?E7; done).
  - intros p id n. rewrite E8, <-E1, <-E3. apply g_child0.
  - intros p c. rewrite E8, <-E3. apply g_known0.
  - done.
Qed.

(** ** Triples *)

Definition triple (P : eng → Prop) (m : M unit) (Q E : eng → Prop) : Prop :=
  ∀ s, P s → match m s with (s', Ok _) => Q s' | (s', Err _) => E s' end.

Lemma triple_bind P Q R E m k :
  triple P m Q E → triple Q k R E → triple P (m ;;; k) R E.
Proof.
  intros H1 H2 s Hs. unfold bind. specialize (H1 s Hs).
  destruct (m s) as [s' [[]|e]]; [by apply H2|done].
Qed.

Lemma triple_conseq P P' Q Q' E E' m :
  (∀ s, P s → P' s) → (∀ s, Q' s → Q s) → (∀ s, E' s → E s) →
  triple P' m Q' E' → triple P m Q E.
Proof.
  intros HP HQ HE H s Hs. specialize (H s (HP s Hs)). destruct (m s) as [s' [[]|e]]; auto.
Qed.

Section Facts.
Variable has_store : bool.
Variable oracle : nat → option bytes.

Local Notation call := (call oracle).
Local Notation emitEvent := (emitEvent has_store oracle).
Local Notation recordState := (recordState has_store oracle).
Local Notation appendRecord := (appendRecord has_store oracle).
Local Notation runNode := (runNode has_store oracle).

(** ** Calls and records leave the graph alone *)

Definition quiet_m (m : M unit) : Prop :=
  ∀ s, graph (m s).1 = graph s ∧ e_published (m s).1 = e_published s.

Lemma quiet_bind m k : quiet_m m → quiet_m k → quiet_m (m ;;; k).
Proof.
  intros H1 H2 s. unfold bind. destruct (H1 s) as [G P].
  destruct (m s) as [s' [[]|e]]; [|done]. simpl in *.
  destruct (H2 s') as [G' P']. by rewrite G', P'.
Qed.
Lemma quiet_call : quiet_m call.
Proof. by intros []. Qed.
Lemma quiet_modify f :
  (∀ s, graph (f s) = graph s ∧ e_published (f s) = e_published s) → quiet_m (modify f).
Proof. intros H s. apply H. Qed.
Lemma quiet_append x : quiet_m (appendRecord x).
Proof.
  unfold Engine.appendRecord. destruct has_store; [|done].
  apply quiet_bind; [apply quiet_call|]. apply quiet_modify. by intros [].
Qed.
Lemma quiet_recordState st e t : quiet_m (recordState st e t).
Proof.
  intros s. unfold Engine.recordState. destruct (transitionState _ _ _ _) as [next changed].
  destruct changed; [|by destruct s].
  destruct (quiet_append (RecStatus (rs_Status next) (rs_Error next)) (set_state next s))
    as [G P]. rewrite G, P. by destruct s.
Qed.

Lemma emitEvent_spec ev s :
  graph (emitEvent ev s).1 = graph s ∧
  match emitEvent ev s with
  | (s', Ok _) => e_published s' = e_published s ++ [ev]
  | (s', Err _) => e_published s' = e_published s
  end.
Proof.
  unfold Engine.emitEvent, bind. destruct (quiet_append (RecEvent ev) s) as [G P].
  destruct (appendRecord (RecEvent ev) s) as [s' [[]|e]]; [|done]. simpl in *.
  rewrite <-G, <-P. by destruct s'.
Qed.

Lemma last_idle_snoc (s s' : eng) ev :
  e_published s' = e_published s ++ [ev] → (last_idle s' ↔ re_Type ev = EventEngineIdle).
Proof. intros H. unfold last_idle. rewrite H, last_snoc. simpl. split; [by intros [= ->]|by intros ->]. Qed.

Lemma triple_quiet cur ex l m :
  quiet_m m → triple (ginv cur ex l) m (ginv cur ex l) safe.
Proof.
  intros Hq s Hs. destruct (Hq s) as [G P].
  destruct (m s) as [s' [[]|e]]; simpl in G, P.
  - eapply ginv_graph; [done| |done]. unfold last_idle. rewrite P.
    unfold graph in G. injection G as _ _ _ _ -> _ _. apply Hs.
  - eapply safe_graph; [done|]. by eapply ginv_safe.
Qed.

Lemma triple_emit cur ex l ev :
  triple (λ s, ginv cur ex l s ∧ (re_Type ev = EventEngineIdle → e_active s = 0))
    (emitEvent ev) (ginv cur ex l) safe.
Proof.
  intros s [Hs Hi]. destruct (emitEvent_spec ev s) as [G P].
  destruct (emitEvent ev s) as [s' [[]|e]]; simpl in G, P.
  - eapply ginv_graph; [done| |done]. rewrite (last_idle_snoc s s' ev P).
    unfold graph in G. injection G as _ _ _ _ -> _ _. apply Hi.
  - eapply safe_graph; [done|]. by eapply ginv_safe.
Qed.

(** ** Starting a node *)

Lemma on_err_spec {A} (m : M A) h s :
  on_err m h s = match m s with (s', Err e) => (h s', Err e) | r => r end.
Proof. done. Qed.

(** [runNode] starts the goroutine, or fails and leaves the graph as it was. *)
Lemma runNode_spec n s :
  match runNode n s with
  | (s', Ok _) =>
      graph s' = (e_outputs s, e_pending s, e_nodes s, e_children s, e_active s + 1,
                  e_running s ++ [n_Id n], e_starts s ++ [(n_Id n, node_inputs n s)]) ∧
      ¬ last_idle s'
  | (s', Err _) => graph s' = graph s
  end.
Proof.
  unfold Engine.runNode. unfold bind at 1.
  destruct (quiet_call s) as [G1 _]. destruct (call s) as [s1 [[]|]]; simpl in G1; [|done].
  unfold bind at 1.
  destruct (quiet_call s1) as [G2 _]. destruct (call s1) as [s2 [[]|]]; simpl in G2; [|congruence].
  rewrite G1 in G2. clear G1.
  unfold bind at 1. unfold modify at 1. set (s3 := set_active (λ z, z + 1) s2).
  assert (graph (set_active (λ z, z - 1) s3) = graph s) as G3.
  { rewrite <-G2. destruct s2. unfold s3, graph. simpl. repeat f_equal. lia. }
  unfold bind at 1. rewrite on_err_spec.
  destruct (quiet_recordState RsRunning [] false s3) as [G4 _].
  destruct (recordState RsRunning [] false s3) as [s4 [[]|]]; simpl in G4.
  2:{ rewrite <-G3. destruct s4, s3. unfold graph in *. simpl in *. congruence. }
  unfold bind at 1. rewrite on_err_spec.
  destruct (emitEvent_spec (node_event EventNodeStarted (n_Id n)) s4) as [G5 P5].
  destruct (emitEvent _ s4) as [s5 [[]|]]; simpl in G5, P5.
  2:{ rewrite <-G3. destruct s5, s4, s3. unfold graph in *. simpl in *. congruence. }
  unfold modify. split.
  - assert (graph s5 = graph s3) as G6 by congruence.
    clear -G2 G6. generalize (node_inputs n s). intros ins.
    destruct s5, s2, s. unfold graph, s3 in *. simpl in *. congruence.
  - intros Hl. assert (last_idle s5) as Hl' by (destruct s5; exact Hl).
    apply (last_idle_snoc _ _ _ P5) in Hl'. done.
Qed.

(** The inputs of a node are the outputs of its parents. *)
Lemma node_inputs_spec n s p :
  node_inputs n s !! p
  = if decide (p ∈ n_Parents n) then Some (default ANull (e_outputs s !! p)) else None.
Proof.
  unfold node_inputs.
  assert (∀ (m : inputs_t) l,
    foldl (λ m p, <[p := default ANull (e_outputs s !! p)]> m) m l !! p
    = if decide (p ∈ l) then Some (default ANull (e_outputs s !! p)) else m !! p) as H.
  { intros m l. revert m. induction l as [|x l IH]; intros m;
      [by rewrite decide_False by by intros ?%not_elem_of_nil|]. cbn [foldl]. rewrite IH.
    destruct (decide (p ∈ l)); [by rewrite decide_True by by right|].
    destruct (decide (p = x)) as [->|Hne].
    - by rewrite lookup_insert_eq, decide_True by left.
    - rewrite lookup_insert_ne, decide_False by (rewrite ?elem_of_cons; naive_solver). done. }
  by rewrite H, lookup_empty.
Qed.

Lemma missing_0 outputs ps :
  missing outputs ps = 0%nat ↔ ∀ p, p ∈ ps → is_Some (outputs !! p).
Proof.
  unfold missing. induction ps as [|p ps IH]; simpl; [split; [by intros _ p ?%not_elem_of_nil|done]|].
  case_bool_decide as Hp; simpl; setoid_rewrite elem_of_cons.
  - rewrite IH. naive_solver.
  - split; [done|]. intros H. destruct Hp. apply H. by left.
Qed.

(** Completing [id] turns its occurrences among the parents from missing to done. *)
Lemma missing_insert outputs id v ps :
  outputs !! id = None →
  (missing (<[id := v]> outputs) ps + count id ps = missing outputs ps)%nat.
Proof.
  intros Hid. induction ps as [|p ps IH]; [done|]. rewrite count_cons. unfold missing in *. simpl.
  destruct (decide (p = id)) as [->|Hne].
  - rewrite lookup_insert_eq, Hid. rewrite bool_decide_eq_true_2 by by eexists.
    rewrite bool_decide_eq_false_2 by by intros []. simpl. lia.
  - rewrite lookup_insert_ne by done. case_bool_decide; simpl; lia.
Qed.

Lemma triple_runNode cur l n id :
  triple (λ s, ginv cur (Some id) l s ∧ e_nodes s !! id = Some n) (runNode n)
    (ginv cur None l) safe.
Proof.
  intros s [Hs Hn]. pose proof (runNode_spec n s) as Hspec.
  destruct (runNode n s) as [s' [[]|e]].
  2:{ eapply safe_graph; [by symmetry|]. by eapply ginv_safe. }
  destruct Hspec as [G Hli]. pose proof (g_ids _ _ _ _ Hs _ _ Hn) as Hid. rewrite Hid in G.
  destruct (g_due _ _ _ _ Hs id eq_refl) as (n' & Hn' & Hm).
  assert (n' = n) as -> by congruence.
  assert (id ∉ map fst (e_starts s)) as Hnst.
  { rewrite (g_started _ _ _ _ Hs). naive_solver. }
  assert (id ∉ e_running s ∧ e_outputs s !! id = None ∧ cur ≠ Some id) as (Hnr & Hno & Hnc).
  { rewrite (g_run _ _ _ _ Hs) in Hnst. split_and!; [naive_solver| |naive_solver].
    destruct (e_outputs s !! id) eqn:E; [|done]. destruct Hnst. right. left. by eexists. }
  unfold graph in G. injection G as E1 E2 E3 E4 E5 E6 E7.
  assert (∀ p, kids s' p = kids s p) as E8 by (intros p; unfold kids; by rewrite E4).
  destruct Hs. split; rewrite ?E1, ?E2, ?E3, ?E5, ?E6, ?E7, ?map_app; cbn [map fst]; try done.
  - intros p x y. rewrite E8. apply g_child0.
  - intros p c. rewrite E8. apply g_known0.
  - apply NoDup_app. split_and!; [done| |apply NoDup_singleton].
    intros x Hx ->%list_elem_of_singleton. done.
  - intros x. rewrite elem_of_app, list_elem_of_singleton, g_started0. simpl.
    split; [intros [[Hx ?]| ->]; [done|]; eauto|]. intros [_ Hx].
    destruct (decide (x = id)) as [->|]; [by right|left]. split; [congruence|done].
  - intros x. rewrite !elem_of_app, !list_elem_of_singleton, g_run0. simpl. naive_solver.
  - intros x. rewrite elem_of_app, list_elem_of_singleton. intros [Hx| ->]; [by apply g_disj0|done].
  - apply NoDup_app. split_and!; [done| |apply NoDup_singleton].
    intros x Hx ->%list_elem_of_singleton. done.
  - rewrite g_active0, length_app. simpl. lia.
  - intros x m. rewrite elem_of_app, list_elem_of_singleton. intros [Hx|[= -> ->]]; [by apply g_inputs0|].
    exists n. split; [done|]. intros p. rewrite node_inputs_spec. split; intros Hp.
    + assert (missing (e_outputs s) (n_Parents n) = 0%nat) as Hm0 by lia.
      rewrite missing_0 in Hm0. destruct (Hm0 p Hp) as [v Hv]. exists v. by rewrite decide_True, Hv.
    + by rewrite decide_False.
Qed.

(** ** Adding nodes *)

Lemma link_children_spec id ps ch p :
  default [] (foldl (link_child id) ch ps !! p)
  = default [] (ch !! p) ++ replicate (count p ps) id.
Proof.
  revert ch. induction ps as [|q ps IH]; intros ch; simpl; [by rewrite app_nil_r|].
  rewrite IH, count_cons. unfold link_child. destruct (decide (q = p)) as [->|Hne].
  - rewrite lookup_insert_eq. simpl. by rewrite <-app_assoc.
  - by rewrite lookup_insert_ne.
Qed.

Lemma count_replicate x y k : count x (replicate k y) = if decide (y = x) then k else 0%nat.
Proof.
  induction k as [|k IH]; simpl; [by case_decide|]. rewrite count_cons, IH. by case_decide.
Qed.

Lemma ginv_enter cur n s :
  ginv cur None [] s → e_nodes s !! n_Id n = None →
  ginv cur (if (missing (e_outputs s) (n_Parents n) =? 0)%nat then Some (n_Id n) else None) []
    (enter_node n s).
Proof.
  intros Hs Hn. destruct s as [a b c d e st sn r rc pu t k]. simpl in *.
  assert (∀ p, kids (enter_node n (mkEng a b c d e st sn r rc pu t k)) p
    = default [] (d !! p) ++ replicate (count p (n_Parents n)) (n_Id n)) as Hk
    by (intros p; apply link_children_spec).
  assert (n_Id n ∉ map fst t) as Hnt.
  { intros H. apply (g_started _ _ _ _ Hs) in H as (_ & n' & H & _). simpl in H. congruence. }
  destruct Hs. unfold kids in *. simpl in *. split; unfold kids; simpl; try done.
  - intros id n' [[<- <-]|[_ H]]%lookup_insert_Some; eauto.
  - intros id n' [[<- <-]|[Hne H]]%lookup_insert_Some.
    + by rewrite lookup_insert_eq, Nat.add_0_r.
    + rewrite lookup_insert_ne by done. by apply g_pend0.
  - intros p id n' Hp. rewrite Hk, count_app, count_replicate.
    intros [[<- <-]|[Hne H]]%lookup_insert_Some.
    + rewrite decide_True by done. rewrite count_0; [done|].
      intros Hin. apply g_known0 in Hin. rewrite Hn in Hin. by destruct Hin.
    + rewrite decide_False by done. rewrite Nat.add_0_r. by apply g_child0.
  - intros p x. rewrite Hk, elem_of_app. intros [Hx|Hx].
    + destruct (g_known0 _ _ Hx) as [y Hy]. rewrite lookup_insert_ne by congruence. by eexists.
    + apply elem_of_replicate in Hx as [-> _]. rewrite lookup_insert_eq. by eexists.
  - intros x Hx. by apply not_elem_of_nil in Hx.
  - intros id. rewrite g_started0. split.
    + intros (_ & n' & H & Hm). assert (id ≠ n_Id n) by congruence.
      split; [destruct (_ =? _)%nat; congruence|]. exists n'. by rewrite lookup_insert_ne.
    + intros (Hex & n' & [[<- <-]|[Hne H]]%lookup_insert_Some & Hm).
      * rewrite Nat.add_0_r in Hm. rewrite Hm in Hex. done.
      * split; [done|]. eauto.
  - intros id Hex. destruct (Nat.eqb_spec (missing a (n_Parents n)) 0) as [Hm|]; [|done].
    injection Hex as <-. exists n. rewrite lookup_insert_eq. split; [done|].
    by rewrite Nat.add_0_r.
  - intros id m Hin. destruct (g_inputs0 _ _ Hin) as (n' & H & Hm). exists n'.
    rewrite lookup_insert_ne by congruence. done.
Qed.

Lemma triple_addNodes cur ns :
  triple (ginv cur None []) (addNodesInternal has_store oracle ns) (ginv cur None []) safe.
Proof.
  induction ns as [|n ns IH]; intros s Hs; [done|]. cbn [addNodesInternal].
  case_bool_decide as Hex; [by apply IH|].
  assert (e_nodes s !! n_Id n = None) as Hn.
  { destruct (e_nodes s !! n_Id n) eqn:E; [|done]. destruct Hex. by eexists. }
  pose proof (ginv_enter cur n s Hs Hn) as Hent.
  set (zero := (missing (e_outputs s) (n_Parents n) =? 0)%nat) in *.
  assert (triple (ginv cur (if zero then Some (n_Id n) else None) [])
    (emitEvent (node_event EventNodeAdded (n_Id n)))
    (ginv cur (if zero then Some (n_Id n) else None) []) safe) as Hemit.
  { eapply triple_conseq; [..|apply triple_emit]; [|done..]. by intros s' Hs'. }
  unfold bind at 1, modify. unfold bind at 1.
  specialize (Hemit _ Hent).
  destruct (emitEvent_spec (node_event EventNodeAdded (n_Id n)) (enter_node n s)) as [G _].
  destruct (emitEvent _ (enter_node n s)) as [s1 [[]|]]; [|done]. simpl in G.
  assert (e_nodes s1 !! n_Id n = Some n) as Hn1.
  { unfold graph in G. injection G as _ _ -> _ _ _ _. destruct s. apply lookup_insert_eq. }
  unfold bind at 1. destruct zero.
  - pose proof (triple_runNode cur [] n (n_Id n) s1 (conj Hemit Hn1)) as Hrun.
    destruct (runNode n s1) as [s2 [[]|]]; [by apply IH|done].
  - by apply IH.
Qed.

(** ** Completing a node *)

Lemma ginv_set_output id v s :
  ginv (Some id) None [] s → is_Some (e_nodes s !! id) →
  ginv None None (kids s id) (set_output id v s).
Proof.
  intros Hs Hid. pose proof (g_cur _ _ _ _ Hs id eq_refl) as Hno.
  assert (∀ c n, e_nodes s !! c = Some n →
    (missing (<[id := v]> (e_outputs s)) (n_Parents n) + count c (kids s id)
     = missing (e_outputs s) (n_Parents n))%nat) as Hsum.
  { intros c n Hc. rewrite (g_child _ _ _ _ Hs id c n Hno Hc). by apply missing_insert. }
  destruct s as [a b c d e st sn r rc pu t k]. destruct Hs. unfold kids in *. simpl in *.
  split; unfold kids; simpl; try done.
  - intros x n Hx. rewrite (g_pend0 _ _ Hx), Nat.add_0_r. by rewrite Hsum.
  - intros p x n Hp. apply lookup_insert_None in Hp as [Hp _]. by apply g_child0.
  - intros x Hx. by eapply g_known0.
  - intros x. rewrite g_started0. split; intros (Hex & n & Hx & Hm); (split; [done|]);
      exists n; (split; [done|]).
    + rewrite Nat.add_0_r in Hm. by rewrite (Hsum x n Hx).
    + rewrite (Hsum x n Hx) in Hm. by rewrite Nat.add_0_r.
  - intros x. rewrite g_run0. split.
    + intros [?|[Ho|[= <-]]]; [by left| |].
      * right. left. destruct Ho as [y Hy]. rewrite lookup_insert_ne by congruence. by eexists.
      * right. left. rewrite lookup_insert_eq. by eexists.
    + intros [?|[Ho|?]]; [by left| |done]. right.
      destruct (decide (x = id)) as [->|Hne]; [by right|left].
      by rewrite lookup_insert_ne in Ho.
  - intros x Hx. destruct (g_disj0 x Hx). rewrite lookup_insert_ne by congruence. done.
  - intros x m Hin. destruct (g_inputs0 _ _ Hin) as (n & Hn & Hp). exists n. split; [done|].
    intros p. destruct (Hp p) as [Hp1 Hp2]. split; [|done]. intros Hin'.
    destruct (Hp1 Hin') as (w & Hw & Hm). exists w. by rewrite lookup_insert_ne by congruence.
Qed.

Lemma triple_release_child c l :
  triple (ginv None None (c :: l)) (release_child has_store oracle c) (ginv None None l) safe.
Proof.
  unfold release_child. eapply triple_bind; [apply triple_quiet, quiet_call|].
  intros s Hs. destruct (g_todo _ _ _ _ Hs c ltac:(by left)) as [n Hn].
  pose proof (g_pend _ _ _ _ Hs c n Hn) as Hp.
  rewrite count_cons, decide_True in Hp by done.
  set (left := default 0 (e_pending s !! c) - 1).
  assert (left = Z.of_nat (missing (e_outputs s) (n_Parents n) + count c l)) as Hleft
    by (subst left; rewrite Hp; simpl; lia).
  clearbody left. clear Hp.
  assert (ginv None (if left =? 0 then Some c else None) l (set_pending c left s)) as Hs'.
  { destruct s as [a b nd d e st sn r rc pu t k]. destruct Hs. unfold kids in *. simpl in *.
    split; unfold kids; simpl; try done.
    - intros x n' Hx. destruct (decide (x = c)) as [->|Hne].
      + assert (n' = n) as -> by congruence. by rewrite lookup_insert_eq, Hleft.
      + rewrite lookup_insert_ne by done. rewrite (g_pend0 _ _ Hx), count_cons.
        by rewrite decide_False by congruence.
    - intros x Hx. apply g_todo0. by right.
    - intros x. rewrite g_started0. destruct (decide (x = c)) as [->|Hne].
      + split; intros (Hex & n' & Hx & Hm); assert (n' = n) as -> by congruence.
        * rewrite count_cons, decide_True in Hm by done. lia.
        * destruct (Z.eqb_spec left 0); [done|lia].
      + split; intros (Hex & n' & Hx & Hm); (split; [destruct (left =? 0); congruence|]);
          exists n'; (split; [done|]); rewrite count_cons, decide_False in * by congruence; done.
    - intros x Hex. destruct (Z.eqb_spec left 0); [|done]. injection Hex as <-.
      exists n. split; [done|lia]. }
  assert (e_nodes (set_pending c left s) = e_nodes s) as En by by destruct s.
  rewrite En, Hn. destruct (left =? 0).
  - apply (triple_runNode None l n c). rewrite En. done.
  - done.
Qed.

Lemma triple_release_children l :
  triple (ginv None None l) (release_children has_store oracle l) (ginv None None []) safe.
Proof.
  induction l as [|c l IH]; [by intros s Hs|]. cbn [release_children].
  eapply triple_bind; [apply triple_release_child|apply IH].
Qed.

Lemma triple_idle_check :
  triple (ginv None None []) (idle_check has_store oracle) (ginv None None []) safe.
Proof.
  intros s Hs. unfold idle_check. destruct (Z.eqb_spec (e_active s) 0) as [Ha|]; [|done].
  unfold bind. destruct (quiet_recordState RsIdle [] false s) as [G _].
  pose proof (triple_quiet None None [] _ (quiet_recordState RsIdle [] false) s Hs) as H1.
  destruct (recordState RsIdle [] false s) as [s1 [[]|]]; [|done]. simpl in G.
  apply (triple_emit None None [] (engine_event EventEngineIdle)). split; [done|].
  intros _. unfold graph in G. by injection G as _ _ _ _ -> _ _.
Qed.

Lemma addNodes_keeps ns id s :
  is_Some (e_nodes s !! id) →
  is_Some (e_nodes (addNodesInternal has_store oracle ns s).1 !! id).
Proof.
  revert s. induction ns as [|n ns IH]; intros s Hid; [done|]. cbn [addNodesInternal].
  case_bool_decide; [by apply IH|].
  assert (∀ s, is_Some (e_nodes s !! id) → is_Some (e_nodes (enter_node n s) !! id)) as Hent.
  { intros []. simpl. rewrite lookup_insert_is_Some. intros. destruct (decide (n_Id n = id)); auto. }
  unfold bind at 1, modify. unfold bind at 1.
  destruct (emitEvent_spec (node_event EventNodeAdded (n_Id n)) (enter_node n s)) as [G _].
  destruct (emitEvent _ (enter_node n s)) as [s1 r1]; simpl in G.
  assert (is_Some (e_nodes s1 !! id)) as H1.
  { unfold graph in G. injection G as _ _ -> _ _ _ _. by apply Hent. }
  destruct r1 as [[]|]; [|done]. unfold bind at 1.
  destruct (_ =? 0)%nat; [|by apply IH].
  pose proof (runNode_spec n s1) as Hr. destruct (runNode n s1) as [s2 [[]|]].
  - destruct Hr as [G2 _]. unfold graph in G2. injection G2 as _ _ E _ _ _ _.
    apply IH. by rewrite E.
  - unfold graph in Hr. injection Hr as _ _ E _ _ _ _. simpl. by rewrite E.
Qed.

Lemma triple_complete r :
  triple (λ s, ginv (Some (er_nodeID r)) None [] s ∧ is_Some (e_nodes s !! er_nodeID r))
    (complete_node has_store oracle r) (ginv None None []) safe.
Proof.
  intros s [Hs Hid]. unfold complete_node. unfold bind at 1.
  pose proof (triple_addNodes _ (er_newNodes r) s Hs) as H1.
  pose proof (addNodes_keeps (er_newNodes r) _ s Hid) as Hid1.
  destruct (addNodesInternal _ _ _ s) as [s1 [[]|]]; [|done]. simpl in Hid1.
  unfold bind at 1, modify.
  pose proof (ginv_set_output (er_nodeID r) (er_output r) s1 H1 Hid1) as H2.
  assert (kids s1 (er_nodeID r) = kids (set_output (er_nodeID r) (er_output r) s1) (er_nodeID r))
    as Hk by by destruct s1. rewrite Hk in H2.
  set (s2 := set_output _ _ s1) in *.
  unfold bind at 1.
  destruct (emitEvent_spec (mkREvent EventNodeCompleted (er_nodeID r) (DataOutput (er_output r))) s2)
    as [G3 _].
  assert (match emitEvent (mkREvent EventNodeCompleted (er_nodeID r) (DataOutput (er_output r))) s2 with
          | (s', Ok _) => ginv None None (kids s2 (er_nodeID r)) s' | (s', Err _) => safe s' end) as H3
    by (apply triple_emit; by split).
  destruct (emitEvent _ s2) as [s3 [[]|]]; [|done]. simpl in G3.
  unfold bind at 1.
  destruct (quiet_call s3) as [G4 _].
  pose proof (triple_quiet None None (kids s2 (er_nodeID r)) _ quiet_call s3 H3) as H4.
  destruct (call s3) as [s4 [[]|]]; [|done]. simpl in G4.
  assert (kids s4 (er_nodeID r) = kids s2 (er_nodeID r)) as Hk4.
  { unfold kids. rewrite G3 in G4. unfold graph in G4. by injection G4 as _ _ _ -> _ _ _. }
  rewrite <-Hk4 in H4.
  unfold bind. pose proof (triple_release_children _ s4 H4) as H5.
  change (default [] (e_children s4 !! er_nodeID r)) with (kids s4 (er_nodeID r)).
  destruct (release_children _ _ _ s4) as [s5 [[]|]]; [|done].
  by apply triple_idle_check.
Qed.

(** ** Reachable engines *)

Lemma graph_finish st e s : graph (finish has_store oracle st e s).1 = graph s.
Proof.
  unfold finish. set (s0 := set_snapshot _ s).
  assert (graph s0 = graph s) as G0 by by destruct s.
  destruct (quiet_recordState st e true s0) as [G1 _].
  destruct (recordState st e true s0) as [s1 r1]. simpl in G1.
  destruct (emitEvent_spec (engine_event EventEngineStopped) s1) as [G2 _].
  destruct (emitEvent _ s1) as [s2 r2]. simpl in *. congruence.
Qed.

(** A result comes from a goroutine in flight. *)
Definition input_ok (i : input) (g : engine) : Prop :=
  match i, g with
  | InResult r, Looping s => er_nodeID r ∈ e_running s
  | _, _ => True
  end.

Inductive reach (sn : RunnerSnapshot) : engine → Prop :=
| reach_start g : engine_start has_store oracle (init_eng sn) = Some g → reach sn g
| reach_step g i : reach sn g → input_ok i g → reach sn (engine_step has_store oracle i g).

Definition engine_inv (g : engine) : Prop :=
  match g with Looping s => ginv None None [] s | Stopped s _ => safe s end.

Lemma ginv_init s : graph s = graph (init_eng empty_snapshot) → ¬ last_idle s →
  ginv None None [] s.
Proof.
  intros G Hl. eapply ginv_graph; [by symmetry|done|].
  assert (∀ A (m : gmap bytes A) k x, m = ∅ → m !! k = Some x → False) as He
    by (intros A m k x ->; by rewrite lookup_empty).
  assert (∀ A (x : A) l, l = [] → x ∈ l → False) as Hn
    by (intros A x l -> []%elem_of_nil).
  split; unfold kids; simpl; try done; try (by constructor);
    try (intros; exfalso; by eauto using eq_refl).
  - intros p c. rewrite lookup_empty. simpl. by intros ?%Hn.
  - intros id. rewrite elem_of_nil. split; [done|]. intros (_ & n & H & _). by eapply He.
  - intros id. rewrite !elem_of_nil. split; [done|]. intros [[]|[[x H]|H]]; [by eapply He|done].
Qed.

Lemma quiet_start : quiet_m (call ;;; appendRecord RecInit ;;; appendRecord (RecStatus RsRunning [])).
Proof.
  apply quiet_bind; [apply quiet_call|]. apply quiet_bind; apply quiet_append.
Qed.

Lemma engine_start_inv sn g :
  engine_start has_store oracle (init_eng sn) = Some g → engine_inv g.
Proof.
  unfold engine_start. rewrite decide_True by done.
  set (s0 := set_state _ _). destruct (quiet_start s0) as [G P].
  intros H. destruct ((call ;;; _) s0) as [s' [[]|e]]; simpl in G, P; injection H as <-; simpl.
  - apply ginv_init; [by rewrite G|]. unfold last_idle. by rewrite P.
  - destruct (transitionState _ _ _ _) as [next ch]. simpl.
    apply (safe_graph s'); [|apply (ginv_safe None None []), ginv_init; [by rewrite G|]].
    + by destruct s'.
    + unfold last_idle. by rewrite P.
Qed.

Lemma inv_stop st e s : safe s → engine_inv (stop_with has_store oracle st e s).
Proof.
  intros Hs. unfold stop_with. pose proof (graph_finish st e s) as G.
  destruct (finish _ _ _ _ _) as [s' e']. simpl in *. eapply safe_graph; [by symmetry|done].
Qed.

Lemma inv_after (P : eng → Prop) m s :
  triple P m (ginv None None []) safe → P s → engine_inv (after has_store oracle (m s)).
Proof.
  intros H Hs. specialize (H s Hs). destruct (m s) as [s' [[]|e]]; [done|]. by apply inv_stop.
Qed.

(** Taking a goroutine out of flight. *)
Lemma ginv_end id s :
  ginv None None [] s → id ∈ e_running s →
  ginv (Some id) None [] (set_active (λ z, z - 1) (go_end id s)) ∧
  is_Some (e_nodes (set_active (λ z, z - 1) (go_end id s)) !! id).
Proof.
  intros Hs Hin. pose proof Hs as Hs0.
  assert (∃ n, e_nodes s !! id = Some n) as [n Hn].
  { assert (id ∈ map fst (e_starts s)) as H by (apply (g_run _ _ _ _ Hs); by left).
    apply (g_started _ _ _ _ Hs) in H as (_ & n & H & _). eauto. }
  destruct s as [a b c d e st sn r rc pu t k]. simpl in *.
  set (r' := List.filter (λ x, negb (bool_decide (x = id))) r).
  assert (∀ x, x ∈ r' ↔ x ∈ r ∧ x ≠ id) as Hr'.
  { intros x. unfold r'. rewrite elem_of_list_filter', negb_true_iff, bool_decide_eq_false. done. }
  assert (List.length r = S (List.length r')) as Hlen.
  { pose proof (g_rundup _ _ _ _ Hs) as Hnd. simpl in Hnd. clear -Hnd Hin.
    unfold r'. induction Hnd as [|x l Hx Hnd IH]; [by apply not_elem_of_nil in Hin|]. simpl.
    destruct (decide (x = id)) as [->|Hne].
    - rewrite bool_decide_eq_true_2 by done. simpl. f_equal. f_equal. symmetry.
      apply list_filter_all. intros y Hy. apply negb_true_iff, bool_decide_eq_false. congruence.
    - rewrite bool_decide_eq_false_2 by done. simpl. f_equal. apply IH.
      apply elem_of_cons in Hin as [->|]; done. }
  split; [|by eexists]. destruct Hs. simpl in *. split; unfold kids in *; simpl; try done.
  - intros x. rewrite Hr', g_run0. destruct (decide (x = id)) as [->|]; naive_solver.
  - intros x [Hx Hne]%Hr'. destruct (g_disj0 x Hx). split; congruence.
  - intros x [= <-]. by apply g_disj0.
  - unfold r'. apply NoDup_ListNoDup, List.NoDup_filter, NoDup_ListNoDup. done.
  - fold r'. lia.
  - intros Hl. unfold last_idle in *. simpl in *. specialize (g_idle0 Hl). lia.
Qed.

Lemma engine_step_inv i g : engine_inv g → input_ok i g → engine_inv (engine_step has_store oracle i g).
Proof.
  destruct g as [s|s e]; [|done]. intros Hs Hi. destruct i as [err|ns|r|]; simpl.
  - apply inv_stop. by eapply ginv_safe.
  - by apply (inv_after (ginv None None [])); [apply triple_addNodes|].
  - destruct (ginv_end _ _ Hs Hi) as [He Hid].
    destruct (er_err r) as [e|].
    + destruct (emitEvent_spec (mkREvent EventNodeFailed (er_nodeID r) (DataErr e))
        (set_active (λ z, z - 1) (go_end (er_nodeID r) s))) as [G _].
      destruct (emitEvent _ (set_active _ _)) as [s1 r1]. simpl in G.
      apply inv_stop. eapply safe_graph; [by symmetry|]. by eapply ginv_safe.
    + by apply (inv_after (λ s, ginv (Some (er_nodeID r)) None [] s ∧
        is_Some (e_nodes s !! er_nodeID r))); [apply triple_complete|].
  - done.
Qed.

Lemma reach_inv sn g : reach sn g → engine_inv g.
Proof.
  induction 1 as [g H|g i _ IH Hi]; [by eapply engine_start_inv|by apply engine_step_inv].
Qed.

(** ** Recording before publishing *)

Definition recorded (s : eng) : list RunnerEvent :=
  omap (λ x, match x with RecEvent ev => Some ev | _ => None end) (e_records s).

Definition wal (s : eng) : Prop := has_store = true → recorded s = e_published s.

Definition keeps (P : eng → Prop) (m : M unit) : Prop := ∀ s, P s → P (m s).1.

Lemma keeps_bind P m k : keeps P m → keeps P k → keeps P (m ;;; k).
Proof.
  intros H1 H2 s Hs. unfold bind. specialize (H1 s Hs).
  destruct (m s) as [s' [[]|e]]; [by apply H2|done].
Qed.
Lemma keeps_on_err P (m : M unit) h : keeps P m → (∀ s, P s → P (h s)) → keeps P (on_err m h).
Proof.
  intros H1 H2 s Hs. rewrite on_err_spec. specialize (H1 s Hs).
  destruct (m s) as [s' [[]|e]]; [done|by apply H2].
Qed.
Lemma keeps_modify P f : (∀ s, P s → P (f s)) → keeps P (modify f).
Proof. intros H s. apply H. Qed.
Lemma keeps_ret P : keeps P (ret tt).
Proof. by intros s. Qed.

Lemma wal_eq s s' : e_records s' = e_records s → e_published s' = e_published s → wal s → wal s'.
Proof. unfold wal, recorded. by intros -> ->. Qed.

Lemma wal_call : keeps wal call.
Proof. intros [] Hs. by eapply wal_eq; [..|exact Hs]. Qed.

Lemma wal_recordState st e t : keeps wal (recordState st e t).
Proof.
  intros s Hs. unfold Engine.recordState. destruct (transitionState _ _ _ _) as [next ch].
  assert (wal (set_state next s)) as Hs' by (destruct s; by eapply wal_eq; [..|exact Hs]).
  destruct ch; [|done]. unfold Engine.appendRecord. destruct has_store eqn:Hst; [|done].
  unfold bind. pose proof (wal_call _ Hs') as H1.
  destruct (call (set_state next s)) as [s1 [[]|]]; [|done]. simpl in *.
  intros _. specialize (H1 Hst). unfold recorded in *. destruct s1. simpl in *.
  by rewrite omap_app, H1, app_nil_r.
Qed.

Lemma wal_emitEvent ev : keeps wal (emitEvent ev).
Proof.
  intros s Hs. unfold Engine.emitEvent, Engine.appendRecord, bind, wal in *.
  destruct has_store; [|done]. specialize (Hs eq_refl). intros _.
  destruct s. unfold Engine.call. simpl in *. destruct (oracle _); [done|]. simpl in *.
  unfold recorded in *. simpl in *. by rewrite omap_app, Hs.
Qed.

Ltac seq_keeps := repeat lazymatch goal with |- keeps _ (bind _ _) => apply keeps_bind end.

Lemma wal_runNode n : keeps wal (runNode n).
Proof.
  intros s. unfold Engine.runNode. generalize (node_inputs n s). intros ins. revert s.
  assert (∀ f, (∀ s, e_records (f s) = e_records s ∧ e_published (f s) = e_published s) →
    ∀ s, wal s → wal (f s)) as Hf.
  { intros f H s. destruct (H s). by apply wal_eq. }
  apply keeps_bind; seq_keeps; try apply wal_call.
  - apply keeps_modify, Hf. by intros [].
  - apply keeps_on_err; [apply wal_recordState|apply Hf; by intros []].
  - apply keeps_on_err; [apply wal_emitEvent|apply Hf; by intros []].
  - apply keeps_modify, Hf. by intros [].
Qed.

Lemma wal_addNodes ns : keeps wal (addNodesInternal has_store oracle ns).
Proof.
  induction ns as [|n ns IH]; intros s Hs; [done|]. cbn [addNodesInternal].
  case_bool_decide; [by apply IH|]. revert s H Hs. intros s _ Hs.
  generalize (missing (e_outputs s) (n_Parents n)) as k. intros k.
  assert (keeps wal (modify (enter_node n) ;;; emitEvent (node_event EventNodeAdded (n_Id n)) ;;;
    (if (k =? 0)%nat then runNode n else ret tt) ;;; addNodesInternal has_store oracle ns)) as H;
    [|by apply H].
  seq_keeps.
  - apply keeps_modify. intros [] Hs'. by eapply wal_eq; [..|exact Hs'].
  - apply wal_emitEvent.
  - destruct (_ =? _)%nat; [apply wal_runNode|apply keeps_ret].
  - apply IH.
Qed.

Lemma wal_release cs : keeps wal (release_children has_store oracle cs).
Proof.
  induction cs as [|c cs IH]; [by intros s|]. cbn [release_children].
  apply keeps_bind; [|done]. apply keeps_bind; [apply wal_call|]. intros s Hs.
  set (left := default 0 (e_pending s !! c) - 1). cbv zeta. set (s' := set_pending c left s).
  assert (wal s') as Hs' by (destruct s; by eapply wal_eq; [..|exact Hs]).
  destruct (_ =? 0); [|done]. destruct (e_nodes s' !! c); [by apply wal_runNode|done].
Qed.

Lemma wal_complete r : keeps wal (complete_node has_store oracle r).
Proof.
  unfold complete_node. seq_keeps.
  - apply wal_addNodes.
  - apply keeps_modify. intros [] Hs. by eapply wal_eq; [..|exact Hs].
  - apply wal_emitEvent.
  - apply wal_call.
  - intros s. apply wal_release.
  - intros s Hs. unfold idle_check. destruct (_ =? 0); [|done].
    apply keeps_bind; [apply wal_recordState|apply wal_emitEvent|done].
Qed.

Definition engine_state (g : engine) : eng := match g with Looping s => s | Stopped s _ => s end.

Lemma wal_finish st e s : wal s → wal (finish has_store oracle st e s).1.
Proof.
  intros Hs. unfold finish. set (s0 := set_snapshot _ s).
  assert (wal s0) as H0 by (destruct s; by eapply wal_eq; [..|exact Hs]).
  pose proof (wal_recordState st e true s0 H0) as H1.
  destruct (recordState st e true s0) as [s1 r1]. simpl in H1.
  pose proof (wal_emitEvent (engine_event EventEngineStopped) s1 H1) as H2.
  by destruct (emitEvent _ s1) as [s2 r2].
Qed.

Lemma wal_stop st e s : wal s → wal (engine_state (stop_with has_store oracle st e s)).
Proof.
  intros Hs. unfold stop_with. pose proof (wal_finish st e s Hs) as H.
  by destruct (finish _ _ _ _ _).
Qed.

Lemma wal_after m s : keeps wal m → wal s → wal (engine_state (after has_store oracle (m s))).
Proof.
  intros Hm Hs. specialize (Hm s Hs). destruct (m s) as [s' [[]|e]]; [done|]. by apply wal_stop.
Qed.

Lemma wal_step i g : wal (engine_state g) → wal (engine_state (engine_step has_store oracle i g)).
Proof.
  destruct g as [s|s e]; [|done]. intros Hs. destruct i as [err|ns|r|]; simpl.
  - by apply wal_stop.
  - apply wal_after; [apply wal_addNodes|done].
  - assert (wal (set_active (λ z, z - 1) (go_end (er_nodeID r) s))) as Hs'
      by (destruct s; by eapply wal_eq; [..|exact Hs]).
    destruct (er_err r) as [e|]; [|by apply wal_after; [apply wal_complete|]].
    pose proof (wal_emitEvent (mkREvent EventNodeFailed (er_nodeID r) (DataErr e)) _ Hs') as H1.
    destruct (emitEvent _ (set_active _ _)) as [s1 r1]. by apply wal_stop.
  - done.
Qed.

Lemma wal_reach sn g : reach sn g → wal (engine_state g).
Proof.
  induction 1 as [g H|g i _ IH _]; [|by apply wal_step].
  unfold engine_start in H. rewrite decide_True in H by done.
  assert (keeps wal (call ;;; appendRecord RecInit ;;; appendRecord (RecStatus RsRunning []))) as Hk.
  { assert (∀ x, (∀ ev, x ≠ RecEvent ev) → keeps wal (appendRecord x)) as Ha.
    { intros x Hx. unfold Engine.appendRecord. destruct has_store eqn:Hst; [|apply keeps_ret].
      apply keeps_bind; [apply wal_call|]. apply keeps_modify. intros s Hs _.
      specialize (Hs Hst). unfold recorded in *. destruct s. simpl in *.
      rewrite omap_app, Hs. simpl. destruct x; [by rewrite app_nil_r..|]. by destruct (Hx ev). }
    apply keeps_bind; [apply wal_call|]. apply keeps_bind; by apply Ha. }
  set (s0 := set_state _ _) in H. assert (wal s0) as H0 by by intros _.
  specialize (Hk s0 H0). destruct ((call ;;; _) s0) as [s' [[]|e]]; injection H as <-; [done|].
  simpl in *. destruct (transitionState _ _ _ _) as [next ch]. destruct s'.
  by eapply wal_eq; [..|exact Hk].
Qed.
End Facts.

(** ** The engine's promises *)

(** Parents are nodes of the graph, and a rank decreases along them. *)
Definition closed (s : eng) : Prop :=
  ∀ id n p, e_nodes s !! id = Some n → p ∈ n_Parents n → is_Some (e_nodes s !! p).
Definition acyclic (s : eng) : Prop :=
  ∃ rank : bytes → nat, ∀ id n p, e_nodes s !! id = Some n → p ∈ n_Parents n →
    (rank p < rank id)%nat.

Lemma idle_all_done s :
  ginv None None [] s → e_active s = 0 → closed s → acyclic s →
  ∀ id, is_Some (e_nodes s !! id) → is_Some (e_outputs s !! id).
Proof.
  intros Hs Ha Hc [rank Hr].
  assert (e_running s = []) as Hrun.
  { pose proof (g_active _ _ _ _ Hs) as H. rewrite Ha in H. destruct (e_running s); [done|].
    simpl in H. lia. }
  assert (∀ k id, (rank id < k)%nat → is_Some (e_nodes s !! id) → is_Some (e_outputs s !! id)) as H.
  2:{ intros id. by apply (H (S (rank id))); lia. }
  induction k as [|k IH]; intros id Hk [n Hn]; [lia|].
  assert (id ∈ map fst (e_starts s)) as Hst.
  { apply (g_started _ _ _ _ Hs). split; [done|]. exists n. split; [done|].
    unfold count. simpl. rewrite Nat.add_0_r. apply missing_0. intros p Hp.
    apply IH; [specialize (Hr _ _ _ Hn Hp); lia|]. by eapply Hc. }
  apply (g_run _ _ _ _ Hs) in Hst as [Hst|[Hst|Hst]]; [|done|done].
  rewrite Hrun in Hst. by apply elem_of_nil in Hst.
Qed.

(** A result handled without failure ends with the idle check. *)
Lemma result_idle hs oracle s r s' :
  engine_step hs oracle (InResult r) (Looping s) = Looping s' → e_active s' = 0 → last_idle s'.
Proof.
  cbn [engine_step loop_step]. destruct (er_err r) as [e|].
  { destruct (emitEvent _ _ _ _) as [s1 r1]. unfold stop_with.
    by destruct (finish _ _ _ _ _). }
  set (s0 := set_active _ _). clearbody s0. unfold complete_node.
  unfold bind at 1. destruct (addNodesInternal _ _ _ _) as [s1 [[]|e]].
  2:{ simpl. unfold stop_with. by destruct (finish _ _ _ _ _). }
  unfold bind at 1, modify. unfold bind at 1. destruct (emitEvent _ _ _ _) as [s3 [[]|e]].
  2:{ simpl. unfold stop_with. by destruct (finish _ _ _ _ _). }
  unfold bind at 1. destruct (call _ s3) as [s4 [[]|e]].
  2:{ simpl. unfold stop_with. by destruct (finish _ _ _ _ _). }
  unfold bind at 1. destruct (release_children _ _ _ _) as [s5 [[]|e]].
  2:{ simpl. unfold stop_with. by destruct (finish _ _ _ _ _). }
  unfold idle_check. destruct (e_active s5 =? 0) eqn:Ha.
  2:{ simpl. intros [= <-]. lia. }
  unfold bind. destruct (recordState _ _ _ _ _ s5) as [s6 [[]|e]].
  2:{ simpl. unfold stop_with. by destruct (finish _ _ _ _ _). }
  destruct (emitEvent_spec hs oracle (engine_event EventEngineIdle) s6) as [_ P].
  destruct (emitEvent _ _ _ s6) as [s7 [[]|e]]; simpl.
  - intros [= <-] _. by apply (last_idle_snoc _ _ _ P).
  - unfold stop_with. by destruct (finish _ _ _ _ _).
Qed.

Lemma recordState_state hs oracle st e s :
  rs_Status (e_state (recordState hs oracle st e true s).1) = st ∧
  rs_Error (e_state (recordState hs oracle st e true s).1) = e ∧
  rs_Finished (e_state (recordState hs oracle st e true s).1) = true.
Proof.
  unfold recordState, transitionState.
  destruct (_ && _ && _) eqn:E.
  - apply andb_prop in E as [[E1 E2]%andb_prop E3]. simpl in E3.
    apply bool_decide_eq_true in E1, E2. by destruct s.
  - unfold appendRecord, bind, call, modify. destruct s. destruct hs; simpl; [|done].
    by destruct (oracle _).
Qed.

Lemma emitEvent_state hs oracle ev s : e_state (emitEvent hs oracle ev s).1 = e_state s.
Proof.
  unfold emitEvent, appendRecord, bind, call, modify. destruct s. destruct hs; simpl; [|done].
  by destruct (oracle _).
Qed.

Lemma finish_state hs oracle st e s s' r :
  finish hs oracle st e s = (s', r) →
  rs_Status (e_state s') = st ∧ rs_Error (e_state s') = e ∧ rs_Finished (e_state s') = true ∧
  (∃ tail, r = Some (e ++ tail)) ∧
  (r = Some e → re_Type <$> last (e_published s') = Some EventEngineStopped).
Proof.
  unfold finish. set (s0 := set_snapshot _ s).
  pose proof (recordState_state hs oracle st e s0) as (H1 & H2 & H3).
  destruct (recordState _ _ _ _ _ s0) as [s1 r1]. simpl in *.
  pose proof (emitEvent_state hs oracle (engine_event EventEngineStopped) s1) as H4.
  destruct (emitEvent_spec hs oracle (engine_event EventEngineStopped) s1) as [_ P].
  destruct (emitEvent _ _ _ s1) as [s2 r2]. simpl in H4. intros [= <- <-].
  rewrite H4. split_and!; try done.
  - unfold join_errs. by destruct r1, r2; simpl; eexists.
  - unfold join_errs. destruct r2 as [u|x]; simpl; [intros _; by rewrite P, last_snoc|].
    destruct r1; simpl; intros [= Hx]; exfalso.
    + rewrite app_nil_r in Hx. apply (f_equal List.length) in Hx. rewrite length_app in Hx. simpl in Hx. lia.
    + apply (f_equal List.length) in Hx. rewrite !length_app in Hx. simpl in Hx. lia.
Qed.

(** C6: however additions, results, queries, cancellation and failing calls
    interleave, and also after the engine has stopped: every node is started at
    most once, only nodes of the graph are started, and a started node was given
    exactly its parents' outputs, all of which exist, and nothing else. *)
Theorem engine_starts hs oracle sn g :
  reach hs oracle sn g →
  NoDup (map fst (e_starts (engine_state g))) ∧
  ∀ id m, (id, m) ∈ e_starts (engine_state g) →
    ∃ n, e_nodes (engine_state g) !! id = Some n ∧
    ∀ p, (p ∈ n_Parents n → ∃ v, e_outputs (engine_state g) !! p = Some v ∧ m !! p = Some v) ∧
         (p ∉ n_Parents n → m !! p = None).
Proof.
  intros Hr%reach_inv. assert (safe (engine_state g)) as [H1 H2]; [|done].
  destruct g as [s|s e]; [by apply (ginv_safe None None [])|done].
Qed.

(** C7: while the engine loops, the pending count of every node is the number
    of its parents without an output, the active count is the number of
    goroutines in flight, and a node has been started exactly when none of its
    parents is missing, which is when it is in flight or has completed, never
    both. *)
Theorem engine_counts hs oracle sn s :
  reach hs oracle sn (Looping s) →
  e_active s = Z.of_nat (List.length (e_running s)) ∧ NoDup (e_running s) ∧
  (∀ id, id ∈ e_running s → e_outputs s !! id = None) ∧
  ∀ id n, e_nodes s !! id = Some n →
    n_Id n = id ∧
    e_pending s !! id = Some (Z.of_nat (missing (e_outputs s) (n_Parents n))) ∧
    (missing (e_outputs s) (n_Parents n) = 0%nat ↔
       id ∈ e_running s ∨ is_Some (e_outputs s !! id)).
Proof.
  intros Hr%reach_inv. simpl in Hr. split_and!; [apply Hr|apply Hr|intros id Hid; by apply (g_disj _ _ _ _ Hr)|].
  intros id n Hn. split_and!; [by eapply g_ids|rewrite (g_pend _ _ _ _ Hr _ _ Hn); unfold count; simpl; by rewrite Nat.add_0_r|].
  pose proof (g_started _ _ _ _ Hr id) as H1. pose proof (g_run _ _ _ _ Hr id) as H2.
  unfold count in H1. simpl in H1. split; intros H.
  - assert (id ∈ map fst (e_starts s)) as H3.
    { apply H1. split; [done|]. exists n. by rewrite H. }
    apply H2 in H3. naive_solver.
  - assert (id ∈ map fst (e_starts s)) as H3 by (apply H2; naive_solver).
    apply H1 in H3 as (_ & n' & Hn' & H3). assert (n' = n) as -> by congruence. lia.
Qed.

(** C8: idleness. In every reachable state whose last event announces idleness,
    nothing is in flight, and if moreover the graph is closed and acyclic every
    node has completed: no node is forgotten. And a result that the engine
    handles and survives announces idleness when it was the last one in flight.
    (An engine that gets no result to handle, as with no nodes at all or with
    nodes in a circle, announces nothing: [cyclic_never_idle].) *)
Theorem engine_idle hs oracle sn s :
  reach hs oracle sn (Looping s) →
  (last_idle s →
   e_running s = [] ∧
   (closed s → acyclic s → ∀ id, is_Some (e_nodes s !! id) → is_Some (e_outputs s !! id))) ∧
  ∀ r s', er_nodeID r ∈ e_running s → engine_step hs oracle (InResult r) (Looping s) = Looping s' →
    e_running s' = [] → last_idle s'.
Proof.
  intros Hr. split.
  - apply reach_inv in Hr. simpl in Hr. intros Hi. pose proof (g_idle _ _ _ _ Hr Hi) as H0.
    split; [|intros Hc Ha; by apply idle_all_done].
    pose proof (g_active _ _ _ _ Hr) as Ha. rewrite H0 in Ha. destruct (e_running s); [done|]. simpl in Ha. lia.
  - intros r s' Hin Hstep H. pose proof (reach_step _ _ _ _ (InResult r) Hr Hin) as Hr'.
    rewrite Hstep in Hr'. apply reach_inv in Hr'. simpl in Hr'. eapply result_idle; [done|].
    by rewrite (g_active _ _ _ _ Hr'), H.
Qed.

(** C9: with a record store, at every point the published events are exactly
    the recorded ones in the same order: nothing is published before it is
    recorded, and nothing recorded is left unpublished. *)
Theorem engine_write_ahead oracle sn g :
  reach true oracle sn g →
  omap (λ x, match x with RecEvent ev => Some ev | _ => None end) (e_records (engine_state g))
  = e_published (engine_state g).
Proof. intros H%wal_reach. by apply H. Qed.

(** C10: a step that stops the engine leaves a finished state, canceled for a
    canceled context and failed otherwise, whose error is at the head of the
    error returned; the stop event is the last one published unless recording
    it or the state failed too; and no input changes a stopped engine. *)
Theorem engine_stops hs oracle i s s' e :
  engine_step hs oracle i (Looping s) = Stopped s' e →
  rs_Status (e_state s') = (if i is InCanceled _ then RsCanceled else RsFailed) ∧
  rs_Finished (e_state s') = true ∧
  (∃ tail, e = Some (rs_Error (e_state s') ++ tail)) ∧
  (e = Some (rs_Error (e_state s')) → re_Type <$> last (e_published s') = Some EventEngineStopped) ∧
  (∀ err, i = InCanceled err → rs_Error (e_state s') = err) ∧
  (∀ r err, i = InResult r → er_err r = Some err → ∃ tail, rs_Error (e_state s') = err ++ tail) ∧
  ∀ ins, engine_run hs oracle ins (Stopped s' e) = Stopped s' e.
Proof.
  assert (∀ ins, engine_run hs oracle ins (Stopped s' e) = Stopped s' e) as Hrun
    by (by induction ins).
  assert (∀ st err s0, stop_with hs oracle st err s0 = Stopped s' e →
    rs_Status (e_state s') = st ∧ rs_Error (e_state s') = err ∧ rs_Finished (e_state s') = true ∧
    (∃ tail, e = Some (err ++ tail)) ∧
    (e = Some err → re_Type <$> last (e_published s') = Some EventEngineStopped)) as Hstop.
  { intros st err s0. unfold stop_with. destruct (finish _ _ _ _ _) as [s1 e1] eqn:E.
    intros [= <- <-]. by eapply finish_state. }
  assert (∀ m, after hs oracle m = Stopped s' e → ∃ err s0, stop_with hs oracle RsFailed err s0 = Stopped s' e)
    as Hafter.
  { intros [s0 [[]|err]]; simpl; [done|]. eauto. }
  intros Hstep. destruct i as [err|ns|r|]; cbn [engine_step loop_step] in Hstep.
  - apply Hstop in Hstep as (-> & -> & -> & H4 & H5). split_and!; naive_solver.
  - apply Hafter in Hstep as (err & s0 & (-> & -> & -> & H4 & H5)%Hstop). split_and!; naive_solver.
  - destruct (er_err r) as [x|] eqn:Ex.
    + destruct (emitEvent _ _ _ _) as [s1 r1].
      apply Hstop in Hstep as (-> & H2 & -> & H4 & H5). rewrite H2. split_and!; naive_solver.
    + apply Hafter in Hstep as (err & s0 & (-> & -> & -> & H4 & H5)%Hstop).
      split_and!; naive_solver.
  - done.
Qed.

(** ** A diamond *)

Definition okn : nat → option bytes := λ _, None.
Definition nd (id : string) (ps : list string) : Node := mkNode (s2b id) (s2b <$> ps).
Definition done_ (id : string) (v : any) : input := InResult (mkResult (s2b id) v [] None).
Definition diamond : list Node :=
  [nd "d" ["b"; "c"]; nd "a" []; nd "b" ["a"]; nd "c" ["a"]]%string.
Definition diamond_inputs : list input :=
  [InAdd diamond; done_ "a" ANull; done_ "c" ANull; done_ "b" ANull; done_ "d" ANull].
Definition start0 : engine := default (Stopped (init_eng empty_snapshot) None)
  (engine_start true okn (init_eng empty_snapshot)).
Definition run_ok (hs : bool) (oracle : nat → option bytes) :=
  fix go (ins : list input) (g : engine) : bool :=
  match ins with
  | [] => true
  | i :: ins =>
      (match i, g with
       | InResult r, Looping s => bool_decide (er_nodeID r ∈ e_running s)
       | _, _ => true end) && go ins (engine_step hs oracle i g)
  end.

Lemma reach_run hs oracle sn ins g :
  reach hs oracle sn g → run_ok hs oracle ins g = true →
  reach hs oracle sn (engine_run hs oracle ins g).
Proof.
  revert g. induction ins as [|i ins IH]; intros g Hg; [done|]. cbn [run_ok engine_run foldl].
  intros [H1 H2]%andb_prop. apply IH; [|done]. constructor; [done|].
  destruct i, g; try done. by apply bool_decide_eq_true in H1.
Qed.

Lemma reach_diamond k : run_ok true okn (take k diamond_inputs) start0 = true →
  reach true okn empty_snapshot (engine_run true okn (take k diamond_inputs) start0).
Proof. intros. apply reach_run; [by constructor|done]. Qed.

Definition diamond_at (k : nat) : eng :=
  engine_state (engine_run true okn (take k diamond_inputs) start0).

Lemma engine_starts_witness :
  reach true okn empty_snapshot (Looping (diamond_at 5)) ∧
  NoDup (map fst (e_starts (diamond_at 5))).
Proof.
  assert (reach true okn empty_snapshot (Looping (diamond_at 5))) as H
    by exact (reach_diamond 5 eq_refl).
  split; [done|]. exact (proj1 (engine_starts true okn empty_snapshot (Looping (diamond_at 5)) H)).
Defined.

Lemma engine_counts_witness :
  reach true okn empty_snapshot (Looping (diamond_at 2)) ∧
  e_active (diamond_at 2) = Z.of_nat (List.length (e_running (diamond_at 2))) ∧
  e_running (diamond_at 2) = [s2b "b"; s2b "c"].
Proof.
  assert (reach true okn empty_snapshot (Looping (diamond_at 2))) as H
    by exact (reach_diamond 2 eq_refl).
  split; [done|]. split; [|by vm_compute].
  exact (proj1 (engine_counts true okn empty_snapshot (diamond_at 2) H)).
Defined.

Lemma engine_idle_witness :
  last_idle (diamond_at 5) ∧ e_running (diamond_at 5) = [].
Proof.
  assert (last_idle (diamond_at 5)) as H.
  { refine (proj2 (engine_idle true okn empty_snapshot (diamond_at 4) (reach_diamond 4 eq_refl))
      (mkResult (s2b "d") ANull [] None) (diamond_at 5) _ _ _).
    - apply (bool_decide_eq_true_1 _). by vm_compute.
    - by vm_compute.
    - by vm_compute. }
  split; [exact H|].
  exact (proj1 (proj1 (engine_idle true okn empty_snapshot (diamond_at 5) (reach_diamond 5 eq_refl)) H)).
Defined.

Lemma engine_write_ahead_witness :
  List.length (e_published (diamond_at 2)) = 8%nat ∧
  omap (λ x, match x with RecEvent ev => Some ev | _ => None end) (e_records (diamond_at 2))
  = e_published (diamond_at 2).
Proof.
  split; [by vm_compute|].
  exact (engine_write_ahead okn empty_snapshot (Looping (diamond_at 2)) (reach_diamond 2 eq_refl)).
Defined.

Lemma engine_stops_witness :
  ∃ s', engine_step true okn (InCanceled (s2b "stop")) (Looping (diamond_at 1))
        = Stopped s' (Some (s2b "stop")) ∧ rs_Status (e_state s') = RsCanceled.
Proof.
  eexists. split; [vm_compute; reflexivity|].
  refine (proj1 (engine_stops true okn (InCanceled (s2b "stop")) (diamond_at 1) _ (Some (s2b "stop")) _)).
  by vm_compute.
Defined.

(** A cyclic plan, and a plan without nodes, leave the engine looping with
    nothing in flight and no idle event, whatever is asked of it. *)
Lemma cyclic_never_idle k :
  ∀ ns, ns = [nd "a" ["b"]; nd "b" ["a"]]%string ∨ ns = [] →
  ∃ s, engine_run true okn (InAdd ns :: replicate k InQuery) start0 = Looping s ∧
       e_running s = [] ∧ ¬ last_idle s.
Proof.
  assert (∀ ns s, engine_step true okn (InAdd ns) start0 = Looping s →
    engine_run true okn (InAdd ns :: replicate k InQuery) start0 = Looping s) as Hq.
  { intros ns s H. cbn [engine_run foldl]. rewrite H. by clear; induction k. }
  assert (∀ ns (_ : unit), (let g := engine_step true okn (InAdd ns) start0 in
    (if g is Looping _ then true else false) && bool_decide (e_running (engine_state g) = []) &&
    negb (bool_decide (re_Type <$> last (e_published (engine_state g)) = Some EventEngineIdle))) = true →
    ∃ s, engine_run true okn (InAdd ns :: replicate k InQuery) start0 = Looping s ∧
      e_running s = [] ∧ ¬ last_idle s) as H.
  { intros ns x. cbv zeta. destruct (engine_step true okn (InAdd ns) start0) as [s|s e] eqn:E; [|done].
    intros [[_ H2%bool_decide_eq_true]%andb_prop H3%negb_true_iff%bool_decide_eq_false]%andb_prop.
    exists s. by split; [apply Hq|split]. }
  intros ns [-> | ->]; apply (H _ tt); vm_compute; reflexivity.
Qed.
