(* ===== verification/Lifecycle.v ===== *)
(** The runner's phased lifecycle ([src/runner/lifecycle.go] and the entry
    points of [src/runner/runner.go]): polishing, review, replanning, execution,
    report and settling. The state is shared by callers, the polish goroutine,
    the engine goroutine and the observer that closes [Done]; every locked
    section is one step, and the steps of the threads interleave freely. *)
From S2P Require Import Prelude Event Plan Engine.

(** ** Data *)

Inductive RunnerPhase :=
| PhaseCreated | PhasePolishing | PhaseAwaitingReview | PhaseAwaitingReplan
| PhaseExecuting | PhaseReport | PhaseSettled.
#[export] Instance phase_eq_dec : EqDecision RunnerPhase. Proof. solve_decision. Defined.

(** An error: its text and what [errors.Is] finds in it. *)
Record error := mkError { err_text : bytes; err_canceled : bool; err_deadline : bool }.
#[export] Instance error_eq_dec : EqDecision error. Proof. solve_decision. Defined.
Definition plain_error (text : bytes) : error := mkError text false false.
Definition ErrRunnerAlreadyStarted : error :=
  plain_error (s2b "orchestrate: runner already started").
Definition ErrInvalidPhase : error :=
  plain_error (s2b "orchestrate: runner in wrong phase for this transition").
Definition ErrPlanRequired : error :=
  plain_error (s2b "orchestrate: runner has no plan attached").

(** What a thread does after announcing a phase. *)
Inductive after_emit := KDone | KPolish | KLoop | KReport.

(** The program points of the threads the entry points leave running. *)
Inductive thread :=
| Emit (k : after_emit)                    (* emitPhaseChangedEvent, about to read the status *)
| EmitPhase (st : RunnerStatus) (k : after_emit)   (* about to read the phase and emit *)
| PolishRun                                (* runPolishStage, fanOutPolish in progress *)
| PolishReview                             (* transitionPhase(PhaseAwaitingReview) *)
| PolishAbort (e : error)                  (* r.Abort(err) of a failed polish *)
| AbortCapture (e : option error)          (* Abort after its locked section *)
| Reason (text : bytes)                    (* RejectPolishedPlan after its locked section *)
| ClearLifecycle                           (* ReplanWith after its locked section *)
| Launch                                   (* launchEngine *)
| AddInitial                               (* launchEngine's AddNodes *)
| EngineBegin                              (* runEngine, before its first locked section *)
| EngineLoop                               (* runEngine's event loop *)
| Settle (e : option error)                (* settle *)
| SettleCapture (e : option error)
| SettleReport (e : option error)
| ReportBegin | ReportRun | SettleEnd
| CompleteStore (cancel : bool)            (* Complete after its locked section: it read a cancelEngine *)
| CompleteCancel.

Inductive observer := ObsStart | ObsWait | ObsExit.

Record runner := mkRunner {
  r_state : RunnerState;
  r_phase : RunnerPhase;
  r_plan : option CoarsePlan;
  r_nodes : gmap bytes Node;
  r_snapshot : RunnerSnapshot;
  r_started : bool;                        (* startOnce has run *)
  r_startErr : option error;
  r_cancel : bool;                         (* cancelEngine is set *)
  r_canceled : bool;                       (* and has been called *)
  r_clean : bool;                          (* completedCleanly *)
  r_settled : bool;                        (* settleOnce has run *)
  r_engineErr : option error;
  r_fragments : option (gmap bytes any);
  r_polishErr : option error;
  r_summaries : option (gmap bytes any);
  r_reportErr : option error;
  r_replanReason : bytes;
  r_managed : bool;                        (* managedStartOnce has run *)
  r_managedErr : option error;
  r_emitted : list (RunnerPhase * RunnerStatus);
  r_unread : nat;                          (* events queued at the observer *)
  r_observer : observer;
  r_done : bool;
  r_threads : list thread }.

(** ** Field updates *)

Definition set_phase (p : RunnerPhase) (s : runner) : runner :=
  let '(mkRunner a _ c d e f g h i j k l m n o q r t u v w x y z) := s in
  mkRunner a p c d e f g h i j k l m n o q r t u v w x y z.
Definition set_rstate (st : RunnerState) (s : runner) : runner :=
  let '(mkRunner _ b c d e f g h i j k l m n o q r t u v w x y z) := s in
  mkRunner st b c d e f g h i j k l m n o q r t u v w x y z.
Definition set_plan (p : option CoarsePlan) (s : runner) : runner :=
  let '(mkRunner a b _ d e f g h i j k l m n o q r t u v w x y z) := s in
  mkRunner a b p d e f g h i j k l m n o q r t u v w x y z.
Definition set_nodes (ns : gmap bytes Node) (sn : RunnerSnapshot) (s : runner) : runner :=
  let '(mkRunner a b c _ _ f g h i j k l m n o q r t u v w x y z) := s in
  mkRunner a b c ns sn f g h i j k l m n o q r t u v w x y z.
Definition set_rsnapshot (sn : RunnerSnapshot) (s : runner) : runner :=
  set_nodes (r_nodes s) sn s.
Definition mark_started (s : runner) : runner :=
  let '(mkRunner a b c d e _ g _ i j k l m n o q r t u v w x y z) := s in
  mkRunner a b c d e true g true i j k l m n o q r t u v w x y z.
Definition launch_failed (err : error) (s : runner) : runner :=
  let '(mkRunner a b c d e f _ h _ j k l m n o q r t u v w x y z) := s in
  mkRunner a b c d e f (Some err) h true j k l m n o q r t u v w x y z.
Definition complete_cleanly (s : runner) : runner :=
  let '(mkRunner a b c d e f g h i _ k l m n o q r t u v w x y z) := s in
  mkRunner a b c d e f g h i true k l m n o q r t u v w x y z.
Definition cancel_engine (s : runner) : runner :=
  let '(mkRunner a b c d e f g h _ j k l m n o q r t u v w x y z) := s in
  mkRunner a b c d e f g h true j k l m n o q r t u v w x y z.
Definition mark_settled (s : runner) : runner :=
  let '(mkRunner a b c d e f g h i j _ l m n o q r t u v w x y z) := s in
  mkRunner a b c d e f g h i j true l m n o q r t u v w x y z.
Definition set_polish (fr : option (gmap bytes any)) (err : option error) (s : runner) : runner :=
  let '(mkRunner a b c d e f g h i j k l _ _ o q r t u v w x y z) := s in
  mkRunner a b c d e f g h i j k l fr err o q r t u v w x y z.
Definition set_report (sm : option (gmap bytes any)) (err : option error) (s : runner) : runner :=
  let '(mkRunner a b c d e f g h i j k l m n _ _ r t u v w x y z) := s in
  mkRunner a b c d e f g h i j k l m n sm err r t u v w x y z.
Definition set_reason (text : bytes) (s : runner) : runner :=
  let '(mkRunner a b c d e f g h i j k l m n o q _ t u v w x y z) := s in
  mkRunner a b c d e f g h i j k l m n o q text t u v w x y z.
Definition set_managed (err : option error) (s : runner) : runner :=
  let '(mkRunner a b c d e f g h i j k l m n o q r _ _ v w x y z) := s in
  mkRunner a b c d e f g h i j k l m n o q r true err v w x y z.
Definition set_observer (unread : nat) (o' : observer) (dn : bool) (s : runner) : runner :=
  let '(mkRunner a b c d e f g h i j k l m n o q r t u v _ _ _ z) := s in
  mkRunner a b c d e f g h i j k l m n o q r t u v unread o' dn z.
Definition set_threads (ts : list thread) (s : runner) : runner :=
  let '(mkRunner a b c d e f g h i j k l m n o q r t u v w x y _) := s in
  mkRunner a b c d e f g h i j k l m n o q r t u v w x y ts.
Definition spawn (t : thread) (s : runner) : runner := set_threads (r_threads s ++ [t]) s.

(** [captureEngineErr]: the first error stays. *)
Definition captureEngineErr (err : option error) (s : runner) : runner :=
  let '(mkRunner a b c d e f g h i j k l m n o q r t u v w x y z) := s in
  mkRunner a b c d e f g h i j k (match l with Some _ => l | None => err end)
    m n o q r t u v w x y z.

(** The observer's subscription holds 32 events and drops newer ones. *)
Definition observerBuffer : nat := 32.
Definition emitPhaseChanged (st : RunnerStatus) (s : runner) : runner :=
  let '(mkRunner a b c d e f g h i j k l m n o q r t u v w x y z) := s in
  mkRunner a b c d e f g h i j k l m n o q r t u (v ++ [(b, st)]) (w `min` (observerBuffer - 1) + 1)%nat
    x y z.

(** ** Snapshots and construction *)

(** [buildInitialRunnerSnapshot]; the children of a parent are listed in the
    order the map is ranged over, [order]. *)
Definition buildInitialRunnerSnapshot (order : list (bytes * Node)) : RunnerSnapshot :=
  mkSnap ∅
    (foldl (λ m e, <[e.1 := Z.of_nat (List.length (n_Parents e.2))]> m) ∅ order)
    (foldl (λ m e, foldl (link_child e.1) m (n_Parents e.2)) ∅ order)
    (foldl (λ m e, <[e.1 := e.2]> m) ∅ order) 0.

(** The plan is bound to the runner when it names none. *)
Definition bind_plan (id : bytes) (p : CoarsePlan) : CoarsePlan :=
  let q := default p (CloneCoarsePlan (Some p)) in
  if bool_decide (pl_RunnerID q = []) then mkPlan (pl_Request q) id (pl_Nodes q) else q.

(** A node map, given in the order it is ranged over. *)
Definition node_map (nodes : list (bytes * Node)) : gmap bytes Node := list_to_map nodes.

Definition New (id : bytes) (plan : option CoarsePlan) (nodes : list (bytes * Node)) : runner :=
  mkRunner (mkRState RsPending [] false false) PhaseCreated (bind_plan id <$> plan)
    (node_map nodes) (buildInitialRunnerSnapshot nodes) false None false false false false None
    None None None None [] false None [] 0 ObsStart false [].

(** ** Polish and report over all nodes

    [outcomes] lists what the agents' goroutines did, in the order they took
    the lock. *)

Inductive polish_outcome :=
| PolishOk (frag : any) | PolishFailed (e : error).

Definition wrap_error (pre id : bytes) (e : error) : error :=
  mkError (pre ++ id ++ s2b ": " ++ err_text e) (err_canceled e) (err_deadline e).
Definition first_error (old : option error) (new : error) : option error :=
  match old with Some _ => old | None => Some new end.

Definition polish_one (acc : gmap bytes any * option error) (x : bytes * polish_outcome)
  : gmap bytes any * option error :=
  match x.2 with
  | PolishOk frag => (<[x.1 := frag]> acc.1, acc.2)
  | PolishFailed e => (acc.1, first_error acc.2 (wrap_error (s2b "polish ") x.1 e))
  end.
Definition fanOutPolish (outcomes : list (bytes * polish_outcome))
  : gmap bytes any * option error := foldl polish_one (∅, None) outcomes.

(** A completed node without an agent is reported missing by the loop that
    starts the goroutines. *)
Inductive report_outcome :=
| ReportOk (summary : any) | ReportFailed (e : error) | ReportMissing.

Definition report_one (acc : gmap bytes any * option error) (x : bytes * report_outcome)
  : gmap bytes any * option error :=
  match x.2 with
  | ReportOk summary => (<[x.1 := summary]> acc.1, acc.2)
  | ReportFailed e => (acc.1, first_error acc.2 (wrap_error (s2b "report ") x.1 e))
  | ReportMissing =>
      (acc.1, first_error acc.2 (plain_error (s2b "report " ++ x.1 ++ s2b ": missing agent")))
  end.
Definition fanOutReport (outcomes : list (bytes * report_outcome))
  : gmap bytes any * option error := foldl report_one (∅, None) outcomes.

(** ** Steps of threads *)

(** What a step of a thread needs from outside: the outcomes of the agents,
    what the engine does next, whether queueing the initial nodes failed. *)
Inductive answer :=
| ANothing
| APolish (outcomes : list (bytes * polish_outcome))
| AReport (outcomes : list (bytes * report_outcome))
| ALaunched (err : option error)
| AEngineState (st : RunnerStatus) (errText : bytes) (terminal : bool)
| AEngineSnapshot (sn : RunnerSnapshot)
| AEngineEnd (err : option error).

Definition abort_state (runErr : option error) : RunnerState :=
  let status := match runErr with
                | Some e => if err_canceled e || err_deadline e then RsCanceled else RsFailed
                | None => RsFailed
                end in
  mkRState status (match runErr with Some e => err_text e | None => [] end) false true.

(** [Abort]'s locked section. *)
Definition abort_lock (runErr : option error) (s : runner) : runner :=
  set_phase PhaseSettled (set_rstate (abort_state runErr) s).

Definition after_thread (k : after_emit) : list thread :=
  match k with KDone => [] | KPolish => [PolishRun] | KLoop => [EngineLoop] | KReport => [ReportRun] end.

(** [settle] up to its first unlock: a canceled engine counts as finished when
    [Complete] asked for it. *)
Definition settle_begin (engineErr : option error) (s : runner) : runner * option error :=
  let s := mark_settled s in
  match engineErr with
  | Some e =>
      if r_clean s && err_canceled e
      then (set_rstate (mkRState RsIdle [] false true) s, None) else (s, engineErr)
  | None => (s, None)
  end.

(** One step: the new state and the threads that replace this one. *)
Definition thread_step (t : thread) (a : answer) (s : runner) : option (runner * list thread) :=
  match t, a with
  | Emit k, ANothing => Some (s, [EmitPhase (rs_Status (r_state s)) k])
  | EmitPhase st k, ANothing => Some (emitPhaseChanged st s, after_thread k)
  | PolishRun, APolish outcomes =>
      let '(fragments, err) := fanOutPolish outcomes in
      Some (set_polish (Some fragments) err s,
            match err with Some e => [PolishAbort e] | None => [PolishReview] end)
  | PolishReview, ANothing => Some (set_phase PhaseAwaitingReview s, [Emit KDone])
  | PolishAbort e, ANothing => Some (abort_lock (Some e) s, [AbortCapture (Some e)])
  | AbortCapture e, ANothing => Some (captureEngineErr e s, [Emit KDone])
  | Reason text, ANothing => Some (set_reason text s, [Emit KDone])
  | ClearLifecycle, ANothing =>
      Some (set_reason [] (set_report None None (set_polish None None s)), [Emit KPolish])
  | Launch, ANothing =>
      if r_started s then Some (s, [])     (* ErrRunnerAlreadyStarted *)
      else Some (mark_started s, [EngineBegin; AddInitial])
  | AddInitial, ALaunched err =>
      Some (match err with Some e => launch_failed e s | None => s end, [])
  | EngineBegin, ANothing =>
      if decide (rs_Status (r_state s) = RsPending) then
        Some (set_rstate (mkRState RsRunning [] true false) s, [Emit KLoop])
      else Some (s, [Settle (Some ErrRunnerAlreadyStarted)])
  | EngineLoop, AEngineState st e terminal =>
      Some (set_rstate (transitionState st e terminal (r_state s)).1 s, [EngineLoop])
  | EngineLoop, AEngineSnapshot sn => Some (set_rsnapshot sn s, [EngineLoop])
  | EngineLoop, AEngineEnd err => Some (s, [Settle err])
  | Settle err, ANothing =>
      if r_settled s then Some (s, [])
      else let '(s, runErr) := settle_begin err s in Some (s, [SettleCapture runErr])
  | SettleCapture err, ANothing => Some (captureEngineErr err s, [SettleReport err])
  | SettleReport err, ANothing =>
      Some (s, match err, r_plan s with None, Some _ => [ReportBegin] | _, _ => [SettleEnd] end)
  | ReportBegin, ANothing => Some (set_phase PhaseReport s, [Emit KReport])
  | ReportRun, AReport outcomes =>
      let '(summaries, err) := fanOutReport outcomes in
      Some (captureEngineErr err (set_report (Some summaries) err s), [SettleEnd])
  | SettleEnd, ANothing => Some (set_phase PhaseSettled s, [Emit KDone])
  | CompleteStore cancel, ANothing => Some (complete_cleanly s, if cancel then [CompleteCancel] else [])
  | CompleteCancel, ANothing => Some (cancel_engine s, [])
  | _, _ => None
  end.

(** ** Entry points

    Each is its locked section; what the caller does after the lock becomes a
    thread. The result is the error returned at once, [None] when the call goes
    on. [agents] is what [prepareNodeAgents] answers. *)

Section Lifecycle.
Variable id : bytes.

Definition prepareEngineLaunch (agents : option error) (from : RunnerPhase)
    (mutate : runner → runner) (s : runner) : runner * option error :=
  match agents with
  | Some e => (s, Some e)
  | None =>
      if negb (bool_decide (rs_Status (r_state s) = RsPending)) then (s, Some ErrRunnerAlreadyStarted)
      else if negb (bool_decide (r_phase s = from)) then (s, Some ErrInvalidPhase)
      else (spawn Launch (set_phase PhaseExecuting (mutate s)), None)
  end.

Definition Start (agents : option error) : runner → runner * option error :=
  prepareEngineLaunch agents PhaseCreated (λ s, s).

Definition StartPolish (agents : option error) (s : runner) : runner * option error :=
  match agents, r_plan s with
  | Some e, _ => (s, Some e)
  | None, None => (s, Some ErrPlanRequired)
  | None, Some _ =>
      if bool_decide (r_phase s = PhaseCreated) || bool_decide (r_phase s = PhaseAwaitingReplan)
      then (spawn (Emit KPolish) (set_phase PhasePolishing s), None)
      else (s, Some ErrInvalidPhase)
  end.

Definition AcceptPolishedPlan (plan : option CoarsePlan) (agents : option error) (s : runner)
  : runner * option error :=
  match plan with
  | None => (s, Some ErrPlanRequired)
  | Some p => prepareEngineLaunch agents PhaseAwaitingReview (set_plan (Some (bind_plan id p))) s
  end.

Definition RejectPolishedPlan (reason : bytes) (s : runner) : runner * option error :=
  if bool_decide (r_phase s = PhaseAwaitingReview)
  then (spawn (Reason reason) (set_phase PhaseAwaitingReplan s), None)
  else (s, Some ErrInvalidPhase).

Definition ReplanWith (plan : option CoarsePlan) (nodes : list (bytes * Node))
    (agents : option error) (s : runner) : runner * option error :=
  match plan, agents with
  | None, _ => (s, Some ErrPlanRequired)
  | Some _, Some e => (s, Some e)
  | Some p, None =>
      if bool_decide (r_phase s = PhaseAwaitingReplan) then
        (spawn ClearLifecycle
           (set_phase PhasePolishing
              (set_nodes (node_map nodes) (buildInitialRunnerSnapshot nodes)
                 (set_plan (Some (bind_plan id p)) s))), None)
      else (s, Some ErrInvalidPhase)
  end.

(** [Complete] up to its [Wait]: the phase and [cancelEngine] are read together,
    [completedCleanly] is stored and the engine canceled afterwards. *)
Definition Complete (s : runner) : runner * option error :=
  if bool_decide (r_phase s = PhaseExecuting) then (spawn (CompleteStore (r_cancel s)) s, None)
  else (s, Some ErrInvalidPhase).

Definition Abort_ (runErr : option error) (s : runner) : runner * option error :=
  (spawn (AbortCapture runErr) (abort_lock runErr s), None).

(** [ctxErr] is what [ctx.Err] gives; the managed driver is a client of the
    other entry points. *)
Definition StartManaged (ctxErr : option error) (s : runner) : runner * option error :=
  match ctxErr with
  | Some e => ((Abort_ (Some e) s).1, Some e)
  | None =>
      if r_managed s then (s, Some ErrRunnerAlreadyStarted)
      else
        let err := match r_plan s with
                   | None => Some ErrPlanRequired
                   | Some _ => if bool_decide (r_phase s = PhaseCreated) then None
                               else Some ErrInvalidPhase
                   end in
        (set_managed err s, err)
  end.

(** [Wait] returns once [Done] is closed; [None] while it blocks. *)
Definition Wait (s : runner) : option (option error) :=
  if r_done s then Some (r_engineErr s) else None.

(** [view.go]: which states may be dropped from a registry. *)
Definition IsRemovable (st : RunnerState) : bool :=
  match rs_Status st with RsPending | RsFailed | RsCanceled => true | RsRunning | RsIdle => false end.

(** The observer goroutine of [startSettleObserver]: it looks at the phase when
    it starts and after every event it receives. *)
Definition observer_step (s : runner) : option runner :=
  let look unread :=
    if bool_decide (r_phase s = PhaseSettled) then set_observer unread ObsExit true s
    else set_observer unread ObsWait (r_done s) s in
  match r_observer s, r_unread s with
  | ObsStart, u => Some (look u)
  | ObsWait, S u => Some (look u)
  | ObsWait, O | ObsExit, _ => None
  end.

(** ** Runs *)

Inductive op :=
| OpStart (agents : option error) | OpStartPolish (agents : option error)
| OpAccept (plan : option CoarsePlan) (agents : option error) | OpReject (reason : bytes)
| OpReplan (plan : option CoarsePlan) (nodes : list (bytes * Node)) (agents : option error)
| OpComplete | OpStartManaged (ctxErr : option error) | OpAbort (runErr : option error).

Definition do_op (o : op) (s : runner) : runner * option error :=
  match o with
  | OpStart agents => Start agents s
  | OpStartPolish agents => StartPolish agents s
  | OpAccept plan agents => AcceptPolishedPlan plan agents s
  | OpReject reason => RejectPolishedPlan reason s
  | OpReplan plan nodes agents => ReplanWith plan nodes agents s
  | OpComplete => Complete s
  | OpStartManaged ctxErr => StartManaged ctxErr s
  | OpAbort runErr => Abort_ runErr s
  end.

(** A call, a step of the [i]-th thread, a step of the observer, or the end of
    the observer because the runner's own context ended. *)
Inductive label := LOp (o : op) | LThread (i : nat) (a : answer) | LObserve | LObserverCancel.

(** The engine never goes back to pending, and ends in a finished state with an
    error. *)
Definition answer_ok (a : answer) (s : runner) : bool :=
  match a with
  | AEngineState st _ _ => negb (bool_decide (st = RsPending))
  | AEngineEnd err =>
      rs_Finished (r_state s)
      && (bool_decide (rs_Status (r_state s) = RsFailed)
          || bool_decide (rs_Status (r_state s) = RsCanceled))
      && bool_decide (is_Some err)
  | _ => true
  end.

Definition do_label (l : label) (s : runner) : option runner :=
  match l with
  | LOp o => Some (do_op o s).1
  | LThread i a =>
      t ← r_threads s !! i;
      if answer_ok a s then
        '(s', ts) ← thread_step t a s;
        Some (set_threads (take i (r_threads s) ++ ts ++ drop (S i) (r_threads s)) s')
      else None
  | LObserve => observer_step s
  | LObserverCancel =>
      match r_observer s with
      | ObsExit => None
      | _ => Some (set_observer (r_unread s) ObsExit (r_done s) s)
      end
  end.

Fixpoint run_labels (ls : list label) (s : runner) : option runner :=
  match ls with [] => Some s | l :: ls => s' ← do_label l s; run_labels ls s' end.
End Lifecycle.
