(* ===== verification/LifecycleFacts.v ===== *)
(** What the lifecycle promises over every interleaving of callers, polish and
    engine goroutines and the observer: the engine is launched and settled at
    most once, phases move along the documented edges, a settled runner has a
    finished state, and no settling is missed by those who wait for it. *)
From S2P Require Import Prelude Event Plan Engine Lifecycle.

(** ** Counting threads *)

Definition weight (f : thread → bool) (ts : list thread) : nat := List.length (List.filter f ts).

Lemma weight_app f a b : weight f (a ++ b) = (weight f a + weight f b)%nat.
Proof. unfold weight. by rewrite List.filter_app, length_app. Qed.
Lemma weight_cons f t ts : weight f (t :: ts) = ((if f t then 1 else 0) + weight f ts)%nat.
Proof. unfold weight. simpl. by destruct (f t). Qed.

(** Replacing the [i]-th thread. *)
Lemma weight_replace f ts i t new :
  ts !! i = Some t →
  (weight f (take i ts ++ new ++ drop (S i) ts) + (if f t then 1 else 0)
   = weight f ts + weight f new)%nat.
Proof.
  intros H. rewrite <-(take_drop_middle ts i t H) at 3.
  rewrite !weight_app, weight_cons. lia.
Qed.

Lemma weight_pos f ts t : t ∈ ts → f t = true → (0 < weight f ts)%nat.
Proof.
  intros Hin Hf. induction ts as [|x ts IH]; [by apply not_elem_of_nil in Hin|].
  rewrite weight_cons. apply elem_of_cons in Hin as [->|Hin]; [rewrite Hf; lia|].
  specialize (IH Hin). lia.
Qed.
Lemma weight_0 f ts : weight f ts = 0%nat → ∀ t, t ∈ ts → f t = false.
Proof.
  intros H t Ht. destruct (f t) eqn:E; [|done]. pose proof (weight_pos f ts t Ht E). lia.
Qed.

(** Everything holds of the replaced list that holds of the rest and of the
    new threads. *)
Lemma elem_of_replace {A} (ts : list A) i new t :
  t ∈ take i ts ++ new ++ drop (S i) ts → t ∈ ts ∨ t ∈ new.
Proof.
  rewrite !elem_of_app. intros [H|[H|H]]; [left|by right|left].
  - by eapply elem_of_take in H as (j & Hj%list_elem_of_lookup_2 & _).
  - rewrite <-(take_drop (S i) ts), elem_of_app. by right.
Qed.

(** ** Roles *)

Definition polisher (t : thread) : bool :=
  match t with
  | Emit KPolish | EmitPhase _ KPolish | PolishRun | PolishReview | PolishAbort _
  | ClearLifecycle => true
  | _ => false
  end.
Definition enginer (t : thread) : bool :=
  match t with
  | Launch | EngineBegin | Emit KLoop | EmitPhase _ KLoop | EngineLoop | Settle _ | SettleCapture _
  | SettleReport _ | ReportBegin | Emit KReport | EmitPhase _ KReport | ReportRun | SettleEnd => true
  | _ => false
  end.
Definition launcher (t : thread) : bool := match t with Launch => true | _ => false end.
(** Past [runEngine]'s first locked section. *)
Definition begun (t : thread) : bool :=
  enginer t && match t with Launch | EngineBegin => false | _ => true end.
Definition unsettled (t : thread) : bool :=
  match t with
  | Launch | EngineBegin | Emit KLoop | EmitPhase _ KLoop | EngineLoop | Settle _ => true
  | _ => false
  end.

Definition b2n (b : bool) : nat := if b then 1 else 0.

(** ** What the steps do to the fields the invariants speak of *)

Record core := mkCore {
  c_st : RunnerStatus; c_fin : bool; c_ph : RunnerPhase;
  c_go : bool; c_set : bool; c_clean : bool; c_err : bool }.

Definition some_err (e : option error) : bool := match e with Some _ => true | None => false end.

Definition core_of (s : runner) : core :=
  mkCore (rs_Status (r_state s)) (rs_Finished (r_state s)) (r_phase s) (r_started s) (r_settled s)
    (r_clean s) (some_err (r_engineErr s)).

Definition bad (st : RunnerStatus) : Prop := st = RsFailed ∨ st = RsCanceled.

Inductive eff : thread → core → core → list thread → Prop :=
| eff_emit c k st : eff (Emit k) c c [EmitPhase st k]
| eff_emitted c st k : eff (EmitPhase st k) c c (after_thread k)
| eff_polished c : eff PolishRun c c [PolishReview]
| eff_unpolished c e : eff PolishRun c c [PolishAbort e]
| eff_review st fin ph go set cl er :
    eff PolishReview (mkCore st fin ph go set cl er) (mkCore st fin PhaseAwaitingReview go set cl er)
      [Emit KDone]
| eff_abort e st st' fin ph go set cl er : bad st' →
    eff (PolishAbort e) (mkCore st fin ph go set cl er) (mkCore st' true PhaseSettled go set cl er)
      [AbortCapture (Some e)]
| eff_capture e st fin ph go set cl er :
    eff (AbortCapture e) (mkCore st fin ph go set cl er)
      (mkCore st fin ph go set cl (er || some_err e)) [Emit KDone]
| eff_reason c text : eff (Reason text) c c [Emit KDone]
| eff_clear c : eff ClearLifecycle c c [Emit KPolish]
| eff_relaunch c : c_go c = true → eff Launch c c []
| eff_launch st fin ph set cl er :
    eff Launch (mkCore st fin ph false set cl er) (mkCore st fin ph true set cl er)
      [EngineBegin; AddInitial]
| eff_added c : eff AddInitial c c []
| eff_begin fin ph go set cl er :
    eff EngineBegin (mkCore RsPending fin ph go set cl er) (mkCore RsRunning false ph go set cl er)
      [Emit KLoop]
| eff_nobegin c : c_st c ≠ RsPending → eff EngineBegin c c [Settle (Some ErrRunnerAlreadyStarted)]
| eff_loop st fin st' fin' ph go set cl er : st' ≠ RsPending →
    eff EngineLoop (mkCore st fin ph go set cl er) (mkCore st' fin' ph go set cl er) [EngineLoop]
| eff_looped c : eff EngineLoop c c [EngineLoop]
| eff_ended c e : c_fin c = true → bad (c_st c) → eff EngineLoop c c [Settle (Some e)]
| eff_resettle c e : c_set c = true → eff (Settle e) c c []
| eff_settle_clean e st fin ph go er :
    eff (Settle (Some e)) (mkCore st fin ph go false true er) (mkCore RsIdle true ph go true true er)
      [SettleCapture None]
| eff_settle e st fin ph go cl er :
    eff (Settle e) (mkCore st fin ph go false cl er) (mkCore st fin ph go true cl er) [SettleCapture e]
| eff_scapture e st fin ph go set cl er :
    eff (SettleCapture e) (mkCore st fin ph go set cl er)
      (mkCore st fin ph go set cl (er || some_err e)) [SettleReport e]
| eff_sreport c : eff (SettleReport None) c c [ReportBegin]
| eff_snoreport c e : eff (SettleReport e) c c [SettleEnd]
| eff_report st fin ph go set cl er :
    eff ReportBegin (mkCore st fin ph go set cl er) (mkCore st fin PhaseReport go set cl er) [Emit KReport]
| eff_reported b st fin ph go set cl er :
    eff ReportRun (mkCore st fin ph go set cl er) (mkCore st fin ph go set cl (er || b)) [SettleEnd]
| eff_end st fin ph go set cl er :
    eff SettleEnd (mkCore st fin ph go set cl er) (mkCore st fin PhaseSettled go set cl er) [Emit KDone]
| eff_store b st fin ph go set cl er new : new = [CompleteCancel] ∨ new = [] →
    eff (CompleteStore b) (mkCore st fin ph go set cl er) (mkCore st fin ph go set true er) new
| eff_cancel c : eff CompleteCancel c c [].

Lemma transition_status st e t cur : rs_Status (transitionState st e t cur).1 = st.
Proof.
  unfold transitionState. destruct (_ && _) eqn:E; [|done].
  by apply andb_prop in E as [[E1%bool_decide_eq_true _]%andb_prop _].
Qed.

Lemma abort_state_bad e : bad (rs_Status (abort_state e)) ∧ rs_Finished (abort_state e) = true.
Proof.
  unfold abort_state, bad. destruct e as [e|]; simpl; [|by auto].
  destruct (_ || _); auto.
Qed.

Lemma some_err_first (a b : option error) :
  some_err (match a with Some _ => a | None => b end) = some_err a || some_err b.
Proof. by destruct a. Qed.

Lemma thread_eff t a s s' ts :
  answer_ok a s = true → thread_step t a s = Some (s', ts) → eff t (core_of s) (core_of s') ts.
Proof.
  intros Ha H. destruct t, a; try discriminate H; destruct s; cbn in H;
    try (injection H as <- <-; unfold core_of; cbn -[some_err]; rewrite ?some_err_first; by constructor).
  - destruct (fanOutPolish outcomes) as [fr [e|]]; injection H as <- <-; constructor.
  - injection H as <- <-. destruct (abort_state_bad (Some e)) as [Hb Hf]. unfold core_of; cbn in *. by constructor.
  - destruct r_started; injection H as <- <-; unfold core_of; cbn; by constructor.
  - injection H as <- <-. destruct err; cbn; constructor.
  - destruct (decide _) as [E|E]; injection H as <- <-; [|by constructor]. unfold core_of; cbn in E |- *. rewrite E. constructor.
  - injection H as <- <-. unfold core_of; cbn in Ha |- *. constructor. apply negb_true_iff, bool_decide_eq_false in Ha.
    by rewrite transition_status.
  - injection H as <- <-. cbn in Ha. apply andb_prop in Ha as [[Hf Hst]%andb_prop He%bool_decide_eq_true].
    destruct err as [e|]; [|by destruct He]. constructor; [done|].
    by apply orb_prop in Hst as [Hst%bool_decide_eq_true|Hst%bool_decide_eq_true]; [left|right].
  - destruct r_settled; [injection H as <- <-; unfold core_of; cbn; by constructor|].
    destruct e as [e|]; cbn in H; [|injection H as <- <-; unfold core_of; cbn; constructor].
    destruct (r_clean && err_canceled e) eqn:E; injection H as <- <-; unfold core_of; cbn; [|constructor].
    apply andb_prop in E as [-> _]. constructor.
  - injection H as <- <-. destruct e, r_plan; constructor.
  - destruct (fanOutReport outcomes) as [sm err]. injection H as <- <-.
    unfold core_of; cbn -[some_err]. rewrite some_err_first. constructor.
  - injection H as <- <-. unfold core_of; cbn. constructor. destruct cancel; auto.
Qed.

(** Calls: the threads they leave; [quiet] calls are all but an outside abort. *)
Inductive op_eff : bool → core → core → list thread → Prop :=
| op_same q c : op_eff q c c []
| op_launch q fin ph go set cl er : ph = PhaseCreated ∨ ph = PhaseAwaitingReview →
    op_eff q (mkCore RsPending fin ph go set cl er) (mkCore RsPending fin PhaseExecuting go set cl er) [Launch]
| op_polish q t st fin ph go set cl er :
    ph = PhaseCreated ∧ t = Emit KPolish ∨ ph = PhaseAwaitingReplan ∧ (t = Emit KPolish ∨ t = ClearLifecycle) →
    op_eff q (mkCore st fin ph go set cl er) (mkCore st fin PhasePolishing go set cl er) [t]
| op_reject q text st fin go set cl er :
    op_eff q (mkCore st fin PhaseAwaitingReview go set cl er)
      (mkCore st fin PhaseAwaitingReplan go set cl er) [Reason text]
| op_complete q b st fin go set cl er :
    op_eff q (mkCore st fin PhaseExecuting go set cl er) (mkCore st fin PhaseExecuting go set cl er) [CompleteStore b]
| op_abort e st st' fin ph go set cl er : bad st' →
    op_eff false (mkCore st fin ph go set cl er) (mkCore st' true PhaseSettled go set cl er) [AbortCapture e].

Definition quiet_op (o : op) : bool :=
  match o with OpAbort _ | OpStartManaged (Some _) => false | _ => true end.

Lemma prepare_eff q agents from mutate s :
  from = PhaseCreated ∨ from = PhaseAwaitingReview →
  core_of (mutate s) = core_of s → r_threads (mutate s) = r_threads s →
  ∃ ts, op_eff q (core_of s) (core_of (prepareEngineLaunch agents from mutate s).1) ts ∧
    r_threads (prepareEngineLaunch agents from mutate s).1 = r_threads s ++ ts.
Proof.
  intros Hf Hc Ht. unfold prepareEngineLaunch.
  destruct agents as [e|]; [exists []; rewrite app_nil_r; split; [constructor|done]|].
  destruct (bool_decide (rs_Status _ = _)) eqn:E1; cbn [negb];
    [|exists []; rewrite app_nil_r; split; [constructor|done]].
  destruct (bool_decide (r_phase s = from)) eqn:E2; cbn [negb];
    [|exists []; rewrite app_nil_r; split; [constructor|done]].
  apply bool_decide_eq_true in E1, E2. exists [Launch]. cbn [fst]. split.
  - assert (core_of (spawn Launch (set_phase PhaseExecuting (mutate s)))
      = mkCore RsPending (c_fin (core_of s)) PhaseExecuting (c_go (core_of s)) (c_set (core_of s))
          (c_clean (core_of s)) (c_err (core_of s))) as ->.
    { rewrite <-Hc in *. unfold core_of in *. destruct (mutate s). cbn in *. congruence. }
    unfold core_of at 1. rewrite E1, E2. by constructor.
  - rewrite <-Ht. by destruct (mutate s).
Qed.

Lemma do_op_eff id o s :
  ∃ ts, op_eff (quiet_op o) (core_of s) (core_of (do_op id o s).1) ts ∧
    r_threads (do_op id o s).1 = r_threads s ++ ts.
Proof.
  assert (∀ q, ∃ ts, op_eff q (core_of s) (core_of s) ts ∧ r_threads s = r_threads s ++ ts) as Hsame
    by (intros q; exists []; rewrite app_nil_r; split; [constructor|done]).
  assert (∀ e, ∃ ts, op_eff false (core_of s) (core_of (Abort_ e s).1) ts ∧
    r_threads (Abort_ e s).1 = r_threads s ++ ts) as Habort.
  { intros e. exists [AbortCapture e]. destruct (abort_state_bad e) as [Hb Hf]. destruct s.
    split; [|done]. unfold core_of. cbn in Hb |- *. by constructor. }
  destruct o as [agents|agents|plan agents|reason|plan nodes agents| |ctxErr|runErr]; cbn [do_op quiet_op].
  - apply prepare_eff; auto.
  - unfold StartPolish. destruct agents; [done|]. destruct (r_plan s) eqn:?; [|done].
    destruct (_ || _) eqn:E; [|done]. exists [Emit KPolish]. destruct s. unfold core_of. cbn in *. split; [|done].
    constructor. apply orb_prop in E as [E%bool_decide_eq_true|E%bool_decide_eq_true]; auto.
  - unfold AcceptPolishedPlan. destruct plan; [|done]. apply prepare_eff; [auto|by destruct s..].
  - unfold RejectPolishedPlan. destruct (bool_decide _) eqn:E; [|done]. apply bool_decide_eq_true in E.
    exists [Reason reason]. destruct s. unfold core_of. cbn in *. subst. split; [constructor|done].
  - unfold ReplanWith. destruct plan, agents; try done. destruct (bool_decide _) eqn:E; [|done].
    apply bool_decide_eq_true in E. exists [ClearLifecycle]. destruct s. unfold core_of. cbn in *. split; [|done].
    constructor. auto.
  - unfold Complete. destruct (bool_decide _) eqn:E; [|done]. apply bool_decide_eq_true in E.
    exists [CompleteStore (r_cancel s)]. destruct s. unfold core_of. cbn in *. subst. split; [apply op_complete|done].
  - unfold StartManaged. destruct ctxErr as [e|]; [apply Habort|]. destruct (r_managed s); [done|].
    exists []. rewrite app_nil_r. destruct s. unfold core_of. cbn in *. split; [constructor|done].
  - apply Habort.
Qed.

Lemma observer_eff s s' : observer_step s = Some s' →
  core_of s' = core_of s ∧ r_threads s' = r_threads s.
Proof.
  unfold observer_step. destruct s. cbn. destruct r_observer, r_unread; try done;
    destruct (bool_decide _); by intros [= <-].
Qed.

(** ** The invariant of all runs, outside aborts included

    In terms of counts, so that it is preserved by arithmetic. *)

Definition at_phase (p : RunnerPhase) (c : core) : nat := b2n (bool_decide (c_ph c = p)).

Record linv (c : core) (ths : list thread) : Prop := {
  l_one : (weight enginer ths ≤ 1)%nat;
  l_launch : (weight launcher ths + b2n (c_go c) ≤ 1)%nat;
  l_notgo : (weight enginer ths ≤ weight launcher ths + b2n (c_go c))%nat;
  l_unsettled : (weight unsettled ths + b2n (c_set c) ≤ 1)%nat;
  l_pending : c_st c = RsPending →
    (weight polisher ths = at_phase PhasePolishing c ∧
     weight enginer ths = at_phase PhaseExecuting c ∧
     weight begun ths = 0 ∧ at_phase PhaseReport c = 0 ∧ at_phase PhaseSettled c = 0 ∧
     b2n (c_go c) ≤ at_phase PhaseExecuting c ∧ b2n (c_set c) = 0)%nat }.

Lemma weights_le ths :
  (weight launcher ths ≤ weight enginer ths)%nat ∧ (weight unsettled ths ≤ weight enginer ths)%nat ∧
  (weight begun ths ≤ weight enginer ths)%nat.
Proof.
  induction ths as [|t ths (IH1 & IH2 & IH3)]; [done|]. rewrite !weight_cons.
  split_and!; destruct t as [[]|? []| | | | | | | | | | | | | | | | | |]; simpl; lia.
Qed.

(** Decide equalities between phases that are constructors. *)
Ltac phases :=
  repeat match goal with
  | H : context [bool_decide (?a = ?b)] |- _ =>
      let v := eval vm_compute in (bool_decide (a = b)) in
      change (bool_decide (a = b)) with v in H
  | |- context [bool_decide (?a = ?b)] =>
      let v := eval vm_compute in (bool_decide (a = b)) in
      change (bool_decide (a = b)) with v
  end.

(** What [Complete] leaves to do. *)
Ltac stored := match goal with H : _ = [CompleteCancel] ∨ _ |- _ => destruct H as [-> | ->] end.

Lemma linv_thread c ths i t c' new :
  linv c ths → ths !! i = Some t → eff t c c' new →
  linv c' (take i ths ++ new ++ drop (S i) ths).
Proof.
  intros [H1 H2 H3 H4 H5] Ht He.
  pose proof (weight_replace enginer ths i t new Ht) as W1.
  pose proof (weight_replace launcher ths i t new Ht) as W2.
  pose proof (weight_replace unsettled ths i t new Ht) as W3.
  pose proof (weight_replace polisher ths i t new Ht) as W4.
  pose proof (weight_replace begun ths i t new Ht) as W5.
  pose proof (weights_le ths) as (V1 & V2 & V3).
  revert W1 W2 W3 W4 W5. generalize (take i ths ++ new ++ drop (S i) ths). intros ths' W1 W2 W3 W4 W5.
  assert ((if begun t then 1 else 0) ≤ weight begun ths)%nat as V4.
  { destruct (begun t) eqn:E; [|lia]. by eapply weight_pos; [eapply list_elem_of_lookup_2|]. }
  clear Ht.
  assert (∀ P Q : Prop, (c_st c = RsPending → P) → (c_st c ≠ RsPending ∨ P → Q) → Q) as Hcase.
  { intros P Q HP HQ. apply HQ. destruct (decide (c_st c = RsPending)); auto. }
  apply (Hcase _ _ H5). clear H5 Hcase. intros H5.
  destruct He; try stored; unfold weight, at_phase in *; cbn in *; try destruct k; cbn in *.
  all: split; unfold weight, at_phase; cbn; try lia.
  all: intros Hp; (destruct H5 as [H5|H5]; [try congruence; try (by destruct H5)|]); try lia.
  all: try (match goal with Hb : bad _ |- _ => destruct Hb; congruence end).
  all: try (match goal with E : c_go _ = true |- _ => rewrite E in *; cbn in *; lia end).
  all: try congruence.
  all: try (destruct ph; phases; cbn in *; lia).
  all: try (destruct (c_ph c); phases; cbn in *; lia).
Qed.

Lemma linv_op q c c' new ths : linv c ths → op_eff q c c' new → linv c' (ths ++ new).
Proof.
  intros [H1 H2 H3 H4 H5] He. pose proof (weights_le ths) as (V1 & V2 & V3).
  assert (∀ f, weight f (ths ++ new) = (weight f ths + weight f new)%nat) as W
    by (intros f; apply weight_app).
  assert (c_st c ≠ RsPending ∨ c_st c = RsPending) as Hcase
    by (destruct (decide (c_st c = RsPending)); auto).
  destruct He as [q c|q fin ph go set cl er Hph|q t st fin ph go set cl er Hph|q text st fin go set cl er
    |q b st fin go set cl er|e st st' fin ph go set cl er Hb]; cbn in *;
    (destruct Hcase as [Hst|Hst]; [|specialize (H5 Hst)]).
  all: try (destruct Hph as [[-> ->]|[-> [-> | ->]]]); try (destruct Hph as [-> | ->]).
  all: split; unfold at_phase in *; cbn in *; rewrite ?W; unfold weight in *; cbn;
    try (intros Hp; destruct Hb; congruence); try (intros Hp; congruence).
  all: try (phases; cbn in *; lia).
  all: try (destruct ph; phases; cbn in *; lia).
  all: repeat (case_bool_decide; simplify_eq); cbn in *; lia.
Qed.

(** ** Runs without outside aborts *)

Definition reporter (t : thread) : bool :=
  match t with Emit KReport | EmitPhase _ KReport | ReportRun => true | _ => false end.
Definition executor (t : thread) : bool :=
  enginer t && negb (reporter t) && match t with SettleEnd => false | _ => true end.

(** The state is final. *)
Definition final (c : core) : Prop :=
  c_fin c = true ∧ (c_st c = RsIdle ∨ c_st c = RsFailed ∨ c_st c = RsCanceled).
Definition happy (c : core) : Prop := c_st c = RsIdle ∧ c_clean c = true.

(** What the position of a thread says about the state. *)
Definition okay (c : core) (t : thread) : Prop :=
  match t with
  | Launch | EngineBegin => c_st c = RsPending
  | Settle e => e ≠ None ∧ final c
  | SettleCapture (Some _) => final c
  | SettleCapture None | SettleReport None | ReportBegin | Emit KReport | EmitPhase _ KReport
  | ReportRun => final c ∧ happy c
  | SettleReport (Some _) => final c ∧ c_err c = true
  | SettleEnd => final c ∧ (happy c ∨ c_err c = true)
  | AbortCapture e => e ≠ None
  | _ => True
  end.

Definition capturer (t : thread) : bool := match t with AbortCapture _ => true | _ => false end.

Definition counts (c : core) (ths : list thread) : Prop :=
  (weight polisher ths = at_phase PhasePolishing c ∧
   weight enginer ths = at_phase PhaseExecuting c + at_phase PhaseReport c ∧
   weight reporter ths ≤ at_phase PhaseReport c ∧
   weight executor ths ≤ at_phase PhaseExecuting c)%nat.

Record qinv (c : core) (ths : list thread) : Prop := {
  q_counts : counts c ths;
  q_okay : ∀ t, t ∈ ths → okay c t;
  q_final : c_ph c = PhaseSettled →
    final c ∧ (happy c ∨ c_err c = true ∨ (0 < weight capturer ths)%nat) }.

(** Raising [clean] and [err] keeps every thread's claim. *)
Lemma okay_mono c c' t :
  c_st c' = c_st c → c_fin c' = c_fin c → (c_clean c = true → c_clean c' = true) →
  (c_err c = true → c_err c' = true) → okay c t → okay c' t.
Proof.
  unfold okay, final, happy. intros -> -> H1 H2.
  destruct t as [[]|? []| | | | | | | | | | | |[]|[]| | | | |]; naive_solver.
Qed.
Lemma okay_other c c' t : enginer t = false → okay c t → okay c' t.
Proof. by destruct t as [[]|? []| | | | | | | | | | | | | | | | | |]. Qed.

(** When an engine thread moves, the others make no claim. *)
Lemma others_okay c c' ths i t t' :
  (weight enginer ths ≤ 1)%nat → ths !! i = Some t → enginer t = true →
  (∀ x, x ∈ ths → okay c x) → t' ∈ take i ths ++ drop (S i) ths → okay c' t'.
Proof.
  intros Hw Ht He Hok Ht'.
  pose proof (weight_replace enginer ths i t [] Ht) as W. rewrite He in W.
  assert (weight enginer (take i ths ++ [] ++ drop (S i) ths) = 0)%nat as W0
    by (unfold weight in *; simpl in *; lia).
  apply (okay_other c); [by apply (weight_0 _ _ W0)|]. apply Hok.
  apply (elem_of_replace ths i []) in Ht' as [?|?%not_elem_of_nil]; done.
Qed.

Lemma elem_of_parts {A} (ths : list A) i new x :
  x ∈ take i ths ++ new ++ drop (S i) ths → x ∈ take i ths ++ drop (S i) ths ∨ x ∈ new.
Proof. rewrite !elem_of_app. tauto. Qed.

Lemma okay_new t c c' new : eff t c c' new → okay c t → Forall (okay c') new.
Proof.
  intros He Hok.
  destruct He as [| c st k| | | | | | | | | | | | c Hc | | | c e Hf Hb | | | e | e | c | c e | | | | |]; try stored; cbn in *;
    try destruct k; cbn; try (exfalso; congruence);
    repeat (apply List.Forall_cons || apply List.Forall_nil); cbn; unfold final, happy in *; cbn in *;
    try done; try (by intuition auto).
  - destruct e; [|by destruct Hok]. cbn. intuition auto.
  - destruct e; cbn in *; unfold final, happy in *; cbn in *; intuition auto using orb_true_r.
  - destruct e; cbn in *; unfold final, happy in *; intuition auto.
Qed.

Lemma okay_step c ths i t c' new :
  linv c ths → qinv c ths → ths !! i = Some t → eff t c c' new →
  ∀ x, x ∈ take i ths ++ new ++ drop (S i) ths → okay c' x.
Proof.
  intros HL HQ Ht He x Hx.
  assert (okay c t) as Hok by (apply (q_okay _ _ HQ); by eapply list_elem_of_lookup_2).
  apply elem_of_parts in Hx as [Hx|Hx].
  2:{ pose proof (okay_new _ _ _ _ He Hok) as HF. rewrite List.Forall_forall in HF.
      by apply HF, list_elem_of_In. }
  destruct (enginer t) eqn:Et.
  { eapply others_okay; [apply HL|done|done|apply HQ|done]. }
  assert (x ∈ ths) as Hxin by (apply (elem_of_replace ths i []) in Hx as [?|?%not_elem_of_nil]; done).
  assert (okay c x) as Hokx by by apply (q_okay _ _ HQ).
  destruct (q_counts _ _ HQ) as (P & E & _ & _). clear Hok.
  pose proof (λ H, weight_pos polisher ths t (list_elem_of_lookup_2 _ _ _ Ht) H) as V.
  destruct He; try discriminate Et; try exact Hokx;
    try (eapply okay_mono; [..|exact Hokx]; simpl; try done; intros ->; done).
  apply (okay_other (mkCore st fin ph go set cl er)); [|done].
  apply (weight_0 enginer ths); [|done]. specialize (V eq_refl).
  unfold at_phase in *. cbn in *. repeat (case_bool_decide; simplify_eq); cbn in *; lia.
Qed.

Lemma reporters_le ths :
  (weight reporter ths + weight executor ths ≤ weight enginer ths)%nat.
Proof.
  induction ths as [|t ths IH]; [done|]. rewrite !weight_cons.
  destruct t as [[]|? []| | | | | | | | | | | | | | | | | |]; simpl; lia.
Qed.

(** The counting part, and where a step can move the phase. *)
Definition edge (p q : RunnerPhase) : Prop :=
  (p, q) ∈ [(PhaseCreated, PhasePolishing); (PhaseCreated, PhaseExecuting);
            (PhasePolishing, PhaseAwaitingReview); (PhasePolishing, PhaseSettled);
            (PhaseAwaitingReview, PhaseExecuting); (PhaseAwaitingReview, PhaseAwaitingReplan);
            (PhaseAwaitingReplan, PhasePolishing); (PhaseExecuting, PhaseReport);
            (PhaseExecuting, PhaseSettled); (PhaseReport, PhaseSettled)].

Lemma at_phase_eq p c : at_phase p c = 1%nat ↔ c_ph c = p.
Proof. unfold at_phase. by case_bool_decide. Qed.

Lemma weight_ge (f : thread → bool) (ths : list thread) i t : ths !! i = Some t → ((if f t then 1 else 0) ≤ weight f ths)%nat.
Proof.
  intros Ht. destruct (f t) eqn:E; [|lia]. by eapply weight_pos; [eapply list_elem_of_lookup_2|].
Qed.

Ltac edge_in := right; apply (bool_decide_eq_true_1 _); by vm_compute.

Lemma counts_thread c ths i t c' new :
  linv c ths → counts c ths → ths !! i = Some t → eff t c c' new →
  counts c' (take i ths ++ new ++ drop (S i) ths) ∧ (c_ph c = c_ph c' ∨ edge (c_ph c) (c_ph c')).
Proof.
  intros HL (Q1 & Q2 & Q3 & Q4) Ht He. unfold counts.
  pose proof (weight_replace polisher ths i t new Ht) as W1.
  pose proof (weight_replace enginer ths i t new Ht) as W2.
  pose proof (weight_replace reporter ths i t new Ht) as W3.
  pose proof (weight_replace executor ths i t new Ht) as W4.
  pose proof (weight_ge polisher ths i t Ht) as V1.
  pose proof (weight_ge reporter ths i t Ht) as V3.
  pose proof (weight_ge executor ths i t Ht) as V4.
  pose proof (weight_ge launcher ths i t Ht) as V6.
  pose proof (weight_ge unsettled ths i t Ht) as V7.
  pose proof (weight_ge enginer ths i t Ht) as V8.
  pose proof (reporters_le ths) as V5.
  pose proof (l_launch _ _ HL) as L1. pose proof (l_unsettled _ _ HL) as L2.
  pose proof (l_one _ _ HL) as L3. clear HL.
  revert W1 W2 W3 W4. generalize (take i ths ++ new ++ drop (S i) ths). intros ths' W1 W2 W3 W4.
  pose proof (reporters_le ths') as V9. clear Ht. unfold at_phase, edge in *.
  destruct He; try stored; cbn in *; try destruct k; unfold weight in *; cbn in *;
    try (split; [lia|by left]);
    try match goal with H : c_go _ = true |- _ => rewrite H in L1; cbn in L1; lia end;
    try match goal with H : c_set _ = true |- _ => rewrite H in L2; cbn in L2; lia end;
    destruct ph; phases; cbn in *; try lia; (split; [lia|]); first [by left|edge_in].
Qed.

Lemma counts_op c c' new ths :
  counts c ths → op_eff true c c' new →
  counts c' (ths ++ new) ∧ (c_ph c = c_ph c' ∨ edge (c_ph c) (c_ph c')).
Proof.
  intros (Q1 & Q2 & Q3 & Q4) He. unfold counts, edge. rewrite !weight_app. unfold at_phase in *.
  inversion He as [q c0|q fin ph go set cl er Hph|q t st fin ph go set cl er Hph
    |q text st fin go set cl er|q b st fin go set cl er|]; subst; cbn in *;
    try (destruct Hph as [[-> ->]|[-> [-> | ->]]]); try (destruct Hph as [-> | ->]);
    unfold weight in *; phases; cbn in *; (split; [lia|]); first [by left|edge_in].
Qed.

Lemma okay_op c c' new ths :
  qinv c ths → op_eff true c c' new → ∀ x, x ∈ ths ++ new → okay c' x.
Proof.
  intros HQ He x Hx.
  assert (okay c x → okay c' x) as Hmono.
  { inversion He; subst; try done; apply okay_mono; cbn; done. }
  apply elem_of_app in Hx as [Hx|Hx]; [by apply Hmono, HQ|].
  inversion He as [q c0|q fin ph go set cl er Hph|q t st fin ph go set cl er Hph
    |q text st fin go set cl er|q b st fin go set cl er|]; subst; cbn in *;
    rewrite ?elem_of_cons, ?elem_of_nil in Hx; try done.
  - by destruct Hx as [->|[]].
  - by destruct Hx as [->|[]], Hph as [[_ ->]|[_ [-> | ->]]].
  - by destruct Hx as [->|[]].
  - by destruct Hx as [->|[]].
Qed.

Lemma settled_idle c ths t :
  counts c ths → c_ph c = PhaseSettled → t ∈ ths → enginer t = false ∧ polisher t = false.
Proof.
  intros (P & E & _ & _) Hph Ht. unfold at_phase in *. rewrite Hph in P, E. phases. cbn in *.
  split; by eapply weight_0.
Qed.

Lemma final_step c ths i t c' new :
  qinv c ths → ths !! i = Some t → eff t c c' new → c_ph c' = PhaseSettled →
  final c' ∧ (happy c' ∨ c_err c' = true ∨
    (0 < weight capturer (take i ths ++ new ++ drop (S i) ths))%nat).
Proof.
  intros HQ Ht He Hph. assert (t ∈ ths) as Hin by by eapply list_elem_of_lookup_2.
  pose proof (weight_replace capturer ths i t new Ht) as W.
  pose proof (q_okay _ _ HQ t Hin) as Hok.
  destruct (decide (c_ph c = PhaseSettled)) as [Hc|Hc].
  - destruct (settled_idle _ _ t (q_counts _ _ HQ) Hc Hin) as [Hne Hnp].
    destruct (q_final _ _ HQ Hc) as [Hf Hh].
    destruct He; try stored; try destruct k; try discriminate Hne; try discriminate Hnp; cbn in *;
      try (split; [done|]; destruct Hh as [[? ?]|[Hh|Hh]]; [by left|by right; left|right; right; lia]).
    split; [done|]. right. left. destruct e; [by rewrite orb_true_r|done].
  - destruct He; cbn in *; try congruence.
    + split; [split; [done|destruct H; auto]|]. right. right. lia.
    + destruct Hok as [Hf [Hh|Hh]]; split; auto.
Qed.

Lemma qinv_thread c ths i t c' new :
  linv c ths → qinv c ths → ths !! i = Some t → eff t c c' new →
  qinv c' (take i ths ++ new ++ drop (S i) ths) ∧ (c_ph c = c_ph c' ∨ edge (c_ph c) (c_ph c')).
Proof.
  intros HL HQ Ht He.
  destruct (counts_thread _ _ _ _ _ _ HL (q_counts _ _ HQ) Ht He) as [HC Hedge]. split; [|done].
  split; [done|by eapply okay_step|by eapply final_step].
Qed.

Lemma qinv_op c c' new ths :
  qinv c ths → op_eff true c c' new →
  qinv c' (ths ++ new) ∧ (c_ph c = c_ph c' ∨ edge (c_ph c) (c_ph c')).
Proof.
  intros HQ He. destruct (counts_op _ _ _ _ (q_counts _ _ HQ) He) as [HC Hedge]. split; [|done].
  split; [done|by eapply okay_op|]. intros Hph.
  inversion He; subst; try discriminate Hph. rewrite weight_app.
  destruct (q_final _ _ HQ Hph) as [Hf [Hh|[Hh|Hh]]]; (split; [done|]); auto. right. right. lia.
Qed.

(** ** Runs *)

Section Runs.
Variable id : bytes.
Variable plan : option CoarsePlan.
Variable nodes : list (bytes * Node).

Definition quiet_label (l : label) : bool := match l with LOp o => quiet_op o | _ => true end.
Definition patient (l : label) : bool := match l with LObserverCancel => false | _ => true end.

(** States reached by labels that satisfy [ok]. *)
Inductive runs (ok : label → bool) : runner → Prop :=
| runs_new : runs ok (New id plan nodes)
| runs_step s l s' : runs ok s → ok l = true → do_label id l s = Some s' → runs ok s'.

Lemma label_eff l s s' :
  do_label id l s = Some s' →
  (∃ i t new, r_threads s !! i = Some t ∧ eff t (core_of s) (core_of s') new ∧
     r_threads s' = take i (r_threads s) ++ new ++ drop (S i) (r_threads s)) ∨
  (∃ new, op_eff (quiet_label l) (core_of s) (core_of s') new ∧ r_threads s' = r_threads s ++ new).
Proof.
  destruct l as [o|i a| |]; cbn [do_label quiet_label].
  - intros [= <-]. right. apply do_op_eff.
  - destruct (r_threads s !! i) as [t|] eqn:Ht; [|done]. cbn [mbind option_bind].
    destruct (answer_ok a s) eqn:Ha; [|done].
    destruct (thread_step t a s) as [[s1 new]|] eqn:E; [|done]. cbn [mbind option_bind]. intros [= <-].
    left. exists i, t, new. split; [done|]. apply thread_eff in E; [|done].
    assert (core_of (set_threads (take i (r_threads s) ++ new ++ drop (S i) (r_threads s)) s1) = core_of s1)
      as -> by by destruct s1. split; [done|]. by destruct s1.
  - intros [Hc Ht]%observer_eff. right. exists []. rewrite Hc, Ht, app_nil_r. split; [constructor|done].
  - intros H. right. exists []. rewrite app_nil_r.
    assert (s' = set_observer (r_unread s) ObsExit (r_done s) s) as ->
      by (destruct (r_observer s); simplify_eq; done).
    destruct s. split; [constructor|done].
Qed.

Lemma runs_linv ok s : runs ok s → linv (core_of s) (r_threads s).
Proof.
  induction 1 as [|s l s' _ IH _ Hl]; [split; cbn; try lia; by intros _; vm_compute|].
  apply label_eff in Hl as [(i & t & new & Ht & He & ->)|(new & He & ->)].
  - by eapply linv_thread.
  - by eapply linv_op.
Qed.

Lemma runs_qinv s : runs quiet_label s → qinv (core_of s) (r_threads s).
Proof.
  induction 1 as [|s l s' Hr IH Hq Hl].
  { split; [by vm_compute|by intros t ?%not_elem_of_nil|done]. }
  pose proof (runs_linv _ _ Hr) as HL.
  apply label_eff in Hl as [(i & t & new & Ht & He & ->)|(new & He & ->)].
  - by eapply qinv_thread.
  - rewrite Hq in He. by eapply qinv_op.
Qed.

(** *** The observer *)

Definition emitter (t : thread) : bool :=
  match t with Emit _ | EmitPhase _ _ | AbortCapture _ => true | _ => false end.

(** Someone will wake the observer. *)
Definition awake (s : runner) (ths : list thread) : Prop :=
  (0 < r_unread s)%nat ∨ (0 < weight emitter ths)%nat.

Local Ltac by_wake :=
  cbn in *; split_and!; [done|done|]; intros Hw Hp; try discriminate Hp;
  try specialize (Hw Hp); lia.

Lemma thread_awake t a s s' new i :
  r_threads s !! i = Some t → thread_step t a s = Some (s', new) →
  r_observer s' = r_observer s ∧ r_done s' = r_done s ∧
  ((r_phase s = PhaseSettled → awake s (r_threads s)) → r_phase s' = PhaseSettled →
   awake s' (take i (r_threads s) ++ new ++ drop (S i) (r_threads s))).
Proof.
  intros Ht H. pose proof (weight_replace emitter _ i t new Ht) as W.
  unfold awake. generalize dependent (take i (r_threads s) ++ new ++ drop (S i) (r_threads s)).
  generalize (r_threads s). clear Ht. intros ths ths' W.
  destruct t, a; try discriminate H; destruct s; cbn in H; unfold weight in *;
    try (injection H as <- <-; by_wake).
  - destruct (fanOutPolish outcomes) as [fr [e|]]; injection H as <- <-; by_wake.
  - destruct r_started; injection H as <- <-; by_wake.
  - injection H as <- <-. destruct err; by_wake.
  - destruct (decide _); injection H as <- <-; by_wake.
  - destruct r_settled; [|unfold settle_begin in H; destruct e as [e|]; [cbn in H; destruct (_ && _)|]];
      injection H as <- <-; by_wake.
  - destruct (fanOutReport outcomes) as [sm err]; injection H as <- <-; by_wake.
Qed.

Lemma op_awake o s :
  r_observer (do_op id o s).1 = r_observer s ∧ r_done (do_op id o s).1 = r_done s ∧
  ((r_phase s = PhaseSettled → awake s (r_threads s)) → r_phase (do_op id o s).1 = PhaseSettled →
   awake (do_op id o s).1 (r_threads (do_op id o s).1)).
Proof.
  assert (∀ e, let s' := (Abort_ e s).1 in
    r_observer s' = r_observer s ∧ r_done s' = r_done s ∧ awake s' (r_threads s')) as Habort.
  { intros e. destruct s. cbn. split_and!; [done|done|]. right. rewrite weight_app. cbn. lia. }
  assert (∀ s' : runner, s' = s → r_observer s' = r_observer s ∧ r_done s' = r_done s ∧
    ((r_phase s = PhaseSettled → awake s (r_threads s)) → r_phase s' = PhaseSettled →
     awake s' (r_threads s'))) as Hsame by (intros s' ->; auto).
  assert (∀ agents from mutate, from ≠ PhaseSettled → (∀ s, r_observer (mutate s) = r_observer s ∧ r_done (mutate s) = r_done s) →
    let s' := (prepareEngineLaunch agents from mutate s).1 in
    r_observer s' = r_observer s ∧ r_done s' = r_done s ∧
    ((r_phase s = PhaseSettled → awake s (r_threads s)) → r_phase s' = PhaseSettled →
     awake s' (r_threads s'))) as Hprep.
  { intros agents from mutate Hf Hm. unfold prepareEngineLaunch. destruct agents; [by apply Hsame|].
    repeat (destruct (negb _); [by apply Hsame|]). destruct (Hm s) as [H1 H2]. cbn.
    destruct (mutate s). cbn in *. split_and!; done. }
  destruct o as [agents|agents|pl agents|reason|pl ns agents| |ctxErr|runErr]; cbn [do_op].
  - by apply Hprep.
  - unfold StartPolish. destruct agents, (r_plan s); try by apply Hsame.
    destruct (_ || _); [|by apply Hsame]. destruct s. by cbn.
  - unfold AcceptPolishedPlan. destruct pl; [|by apply Hsame]. apply Hprep; [done|]. by intros [].
  - unfold RejectPolishedPlan. destruct (bool_decide _); [|by apply Hsame]. destruct s. by cbn.
  - unfold ReplanWith. destruct pl, agents; try by apply Hsame.
    destruct (bool_decide _); [|by apply Hsame]. destruct s. by cbn.
  - unfold Complete. destruct (bool_decide _) eqn:E; [|by apply Hsame]. apply bool_decide_eq_true in E. destruct s. cbn in *.
    split_and!; [done|done|]. by subst.
  - unfold StartManaged. destruct ctxErr as [e|]; [destruct (Habort (Some e)) as (? & ? & ?); by split_and!|].
    destruct (r_managed s); [by apply Hsame|]. destruct s. cbn. split_and!; [done|done|]. unfold awake. by cbn.
  - destruct (Habort runErr) as (? & ? & ?); by split_and!.
Qed.

(** No wake-up is lost, outside aborts included. *)
Lemma runs_awake s : runs patient s →
  (r_observer s = ObsExit → r_done s = true) ∧
  (r_phase s = PhaseSettled → r_observer s = ObsWait → awake s (r_threads s)).
Proof.
  intros Hr.
  assert ((r_observer s = ObsExit → r_done s = true) ∧
    (r_observer s = ObsWait → r_phase s = PhaseSettled → awake s (r_threads s))) as [H1 H2];
    [|by split; [|intros; apply H2]].
  induction Hr as [|s l s' _ [IH1 IH2] Hp Hl]; [done|].
  destruct l as [o|i a| |]; [| | |discriminate Hp]; cbn [do_label] in Hl.
  - injection Hl as <-. destruct (op_awake o s) as (-> & -> & Hw). split; [done|].
    intros Ho. apply Hw. by apply IH2.
  - destruct (r_threads s !! i) as [t|] eqn:Ht; [|done]. cbn [mbind option_bind] in Hl.
    destruct (answer_ok a s); [|done].
    destruct (thread_step t a s) as [[s1 new]|] eqn:E; [|done]. cbn [mbind option_bind] in Hl.
    injection Hl as <-. destruct (thread_awake _ _ _ _ _ _ Ht E) as (Ho & Hd & Hw).
    assert (∀ ths, r_observer (set_threads ths s1) = r_observer s1 ∧ r_done (set_threads ths s1) = r_done s1 ∧
      r_phase (set_threads ths s1) = r_phase s1 ∧ r_unread (set_threads ths s1) = r_unread s1 ∧
      r_threads (set_threads ths s1) = ths) as Hs by by destruct s1.
    destruct (Hs (take i (r_threads s) ++ new ++ drop (S i) (r_threads s))) as (-> & -> & -> & Hu & ->).
    rewrite Ho, Hd. split; [done|]. intros Hwait Hph. unfold awake. rewrite Hu. apply Hw; [|done].
    by apply IH2.
  - unfold observer_step in Hl. destruct (r_observer s) eqn:Ho; [| |done].
    + injection Hl as <-. case_bool_decide as Hph; destruct s; cbn in *; [done|].
      split; [done|]. by intros _ ?.
    + destruct (r_unread s) as [|u]; [done|]. injection Hl as <-.
      case_bool_decide as Hph; destruct s; cbn in *; [done|]. split; [done|]. by intros _ ?.
Qed.

(** *** The promises *)

Lemma quiet_patient_sub (P : label → bool) s :
  runs (λ l, quiet_label l && P l) s → runs quiet_label s ∧ runs P s.
Proof.
  induction 1 as [|s l s' _ [IH1 IH2] H Hl]; [by split; constructor|].
  apply andb_prop in H as [H1 H2]. by split; eapply runs_step.
Qed.

(** Without an abort from outside, every step of every interleaving keeps
    the phase or moves it along one of the ten documented edges; no edge leaves
    the settled phase. *)
Theorem phase_edges s l s' :
  runs quiet_label s → quiet_label l = true → do_label id l s = Some s' →
  (r_phase s' = r_phase s ∨ edge (r_phase s) (r_phase s')) ∧
  (r_phase s = PhaseSettled → r_phase s' = PhaseSettled).
Proof.
  intros Hr Hq Hl.
  assert (r_phase s = r_phase s' ∨ edge (r_phase s) (r_phase s')) as Hedge.
  { pose proof (runs_linv _ _ Hr) as HL. pose proof (runs_qinv _ Hr) as HQ.
    apply label_eff in Hl as [(i & t & new & Ht & He & _)|(new & He & _)].
    - by eapply (qinv_thread (core_of s)) in He as [_ ?].
    - rewrite Hq in He. by eapply (qinv_op (core_of s)) in He as [_ ?]. }
  split; [destruct Hedge; auto|]. intros Hs. rewrite Hs in Hedge. destruct Hedge as [?|Hedge]; [done|].
  unfold edge in Hedge. rewrite !elem_of_cons, elem_of_nil in Hedge.
  repeat (destruct Hedge as [Hedge|Hedge]; [congruence|]). done.
Qed.

(** [Done] is closed only on a settled runner. *)
Lemma done_settled s : runs quiet_label s → r_done s = true → r_phase s = PhaseSettled.
Proof.
  induction 1 as [|s l s' Hr IH Hq Hl]; [done|]. intros Hd.
  assert (r_done s = true → r_phase s' = PhaseSettled) as Hold
    by (intros Hds; by apply (phase_edges s l s'); [..|apply IH]).
  destruct l as [o|i a| |]; cbn [do_label] in Hl.
  - injection Hl as <-. apply Hold. by destruct (op_awake o s) as (_ & <- & _).
  - destruct (r_threads s !! i) as [t|] eqn:Ht; [|done]. cbn [mbind option_bind] in Hl.
    destruct (answer_ok a s); [|done].
    destruct (thread_step t a s) as [[s1 new]|] eqn:E; [|done]. cbn [mbind option_bind] in Hl.
    injection Hl as <-. apply Hold. destruct (thread_awake _ _ _ _ _ _ Ht E) as (_ & <- & _).
    by destruct s1.
  - unfold observer_step in Hl. destruct (r_observer s), (r_unread s); try done; injection Hl as <-;
      case_bool_decide; destruct s; cbn in *; try done; by apply Hold.
  - apply Hold. destruct (r_observer s); try done; injection Hl as <-; destruct s; done.
Qed.

(** C11: whatever callers do, aborts at any moment included, the engine is
    launched and settled at most once: there is never more than one thread on
    the engine's path, a caller that reserved the launch finds it free, so that
    its [launchEngine] never reports an already started runner, and a thread
    that arrives at [settle] finds it not yet done. *)
Theorem launched_once ok s :
  runs ok s →
  (List.length (List.filter enginer (r_threads s)) ≤ 1)%nat ∧
  (Launch ∈ r_threads s → r_started s = false) ∧
  ∀ e, Settle e ∈ r_threads s → r_settled s = false.
Proof.
  intros HL%runs_linv. split_and!.
  - apply HL.
  - intros Hin. pose proof (weight_pos launcher _ _ Hin eq_refl). pose proof (l_launch _ _ HL) as H1.
    cbn in H1. destruct (r_started s); [cbn in *; lia|done].
  - intros e Hin. pose proof (weight_pos unsettled _ _ Hin eq_refl). pose proof (l_unsettled _ _ HL) as H1.
    cbn in H1. destruct (r_settled s); [cbn in *; lia|done].
Qed.

(** Without an abort from outside, a settled runner is final: its state is
    finished, with status idle, failed or canceled; and unless it completed
    cleanly and is idle, it holds an engine error, or is the polish failure
    whose error is about to be captured. *)
Theorem settled_final s :
  runs quiet_label s → r_phase s = PhaseSettled →
  rs_Finished (r_state s) = true ∧
  (rs_Status (r_state s) = RsIdle ∨ rs_Status (r_state s) = RsFailed ∨
   rs_Status (r_state s) = RsCanceled) ∧
  ((rs_Status (r_state s) = RsIdle ∧ r_clean s = true) ∨ r_engineErr s ≠ None ∨
   ∃ e, AbortCapture (Some e) ∈ r_threads s).
Proof.
  intros HQ%runs_qinv Hs. destruct (q_final _ _ HQ Hs) as [[Hf Hst] Hh]. split_and!; [done|done|].
  destruct Hh as [[H1 H2]|[Hh|Hh]]; [by left|right; left|right; right].
  - cbn in Hh. by destruct (r_engineErr s).
  - unfold weight in Hh. destruct (List.filter capturer (r_threads s)) as [|t ts] eqn:E; [cbn in Hh; lia|].
    assert (t ∈ List.filter capturer (r_threads s)) as Ht by (rewrite E; by left).
    apply elem_of_list_filter' in Ht as [Ht Hc]. pose proof (q_okay _ _ HQ t Ht) as Hok.
    destruct t; try discriminate Hc. destruct e as [e|]; [|done]. by exists e.
Qed.

(** A call of [Complete] that is not yet waiting. *)
Definition completer (t : thread) : Prop := match t with CompleteStore _ | CompleteCancel => True | _ => False end.

Lemma completers_silent ths : Forall completer ths → weight emitter ths = 0%nat.
Proof. induction 1 as [|t ths Ht _ IH]; [done|]. rewrite weight_cons, IH. by destruct t. Qed.

(** With nothing left running, the observer of a settled runner closes [Done]. *)
Lemma settled_observed s :
  runs patient s → r_phase s = PhaseSettled → Forall completer (r_threads s) →
  ∃ s', (s' = s ∨ do_label id LObserve s = Some s') ∧ r_done s' = true ∧
    r_engineErr s' = r_engineErr s.
Proof.
  intros Hp Hph Hth. destruct (runs_awake _ Hp) as [He Hw]. destruct (r_observer s) eqn:Ho.
  - exists (set_observer (r_unread s) ObsExit true s). split; [right|by destruct s].
    cbn [do_label]. unfold observer_step. by rewrite Ho, Hph.
  - specialize (Hw Hph eq_refl). unfold awake in Hw.
    pose proof (completers_silent _ Hth). destruct (r_unread s) as [|u] eqn:Hu; [lia|].
    exists (set_observer u ObsExit true s). split; [right|by destruct s].
    cbn [do_label]. unfold observer_step. by rewrite Ho, Hph, Hu.
  - exists s. split; [by left|]. split; [by apply He|done].
Qed.

End Runs.

(** ** Polishing and reporting over all nodes *)

Lemma first_error_some e x : first_error (Some e) x = Some e.
Proof. done. Qed.

Definition failed_polish (x : bytes * polish_outcome) : option error :=
  match x.2 with PolishFailed e => Some (wrap_error (s2b "polish ") x.1 e) | PolishOk _ => None end.

Lemma fanOutPolish_from (outs : list (bytes * polish_outcome)) m err :
  NoDup outs.*1 →
  ∀ fr err', foldl polish_one (m, err) outs = (fr, err') →
  (∀ n v, fr !! n = Some v ↔ (n, PolishOk v) ∈ outs ∨ (m !! n = Some v ∧ ∀ w, (n, PolishOk w) ∉ outs)) ∧
  err' = match err with Some e => Some e | None => head (omap failed_polish outs) end.
Proof.
  revert m err. induction outs as [|[n o] outs IH]; intros m err Hnd fr err'; cbn [foldl].
  { intros [= <- <-]. split; [|by destruct err]. intros k v. split.
    - intros H. right. split; [done|]. intros w. by intros ?%elem_of_nil.
    - by intros [?%elem_of_nil|[H _]]. }
  cbn [fmap list_fmap] in Hnd. apply NoDup_cons in Hnd as [Hn Hnd]. intros Hf.
  destruct o as [v|e]; cbn [polish_one fst snd] in Hf.
  - destruct (IH _ _ Hnd _ _ Hf) as [H1 H2]. split; [|done]. intros k w. rewrite H1, elem_of_cons.
    assert (∀ w', (n, PolishOk w') ∉ outs) as Hno.
    { intros w' Hin. apply Hn. apply list_elem_of_fmap. by exists (n, PolishOk w'). }
    destruct (decide (k = n)) as [->|Hne].
    + rewrite lookup_insert_eq. split.
      * intros [Hin|[[= ->] _]]; [by destruct (Hno w)|by left; left].
      * intros [[[= ->]|Hin]|[_ Hall]]; [by right|by destruct (Hno w)|].
        destruct (Hall v). by left.
    + rewrite lookup_insert_ne by done. split.
      * intros [Hin|[Hm Hall]]; [by left; right|]. right. split; [done|]. intros w'.
        rewrite elem_of_cons. intros [[= ->]|Hin]; [done|by destruct (Hall w')].
      * intros [[[= ->]|Hin]|[Hm Hall]]; [done|by left|]. right. split; [done|]. intros w' Hin.
        destruct (Hall w'). by right.
  - destruct (IH _ _ Hnd _ _ Hf) as [H1 H2]. split.
    + intros k w. rewrite H1, elem_of_cons. split.
      * intros [Hin|[Hm Hall]]; [by left; right|]. right. split; [done|]. intros w'.
        rewrite elem_of_cons. intros [[=]|Hin]; by destruct (Hall w').
      * intros [[[=]|Hin]|[Hm Hall]]; [by left|]. right. split; [done|]. intros w' Hin.
        destruct (Hall w'). by right.
    + rewrite H2. by destruct err.
Qed.

(** Polishing all nodes collects the fragment of exactly the nodes whose
    polish succeeded, whatever order the goroutines finish in, and fails with
    the first failure, named after its node, exactly when one failed. *)
Theorem fanOutPolish_spec (outs : list (bytes * polish_outcome)) :
  NoDup outs.*1 →
  (∀ n v, (fanOutPolish outs).1 !! n = Some v ↔ (n, PolishOk v) ∈ outs) ∧
  ((fanOutPolish outs).2 = None ↔ ∀ n e, (n, PolishFailed e) ∉ outs) ∧
  ∀ before n e after, outs = before ++ (n, PolishFailed e) :: after →
    (∀ n' e', (n', PolishFailed e') ∉ before) →
    (fanOutPolish outs).2 = Some (wrap_error (s2b "polish ") n e).
Proof.
  intros Hnd. destruct (fanOutPolish outs) as [fr err] eqn:E.
  destruct (fanOutPolish_from _ _ _ Hnd _ _ E) as [H1 H2]. cbn [fst snd].
  assert (∀ l, (∀ n e, (n, PolishFailed e) ∉ l) → omap failed_polish l = []) as Hnone.
  { intros l. induction l as [|[n [v|e]] l IH]; intros H; [done| |].
    - apply IH. intros n' e' Hin. destruct (H n' e'). by right.
    - destruct (H n e). by left. }
  split_and!.
  - intros n v. rewrite H1, lookup_empty. split; [by intros [?|[? _]]|by left].
  - rewrite H2. split; [|by intros ->%Hnone]. intros Hh n e Hin.
    assert (wrap_error (s2b "polish ") n e ∈ omap failed_polish outs) as Ho
      by (apply list_elem_of_omap; by exists (n, PolishFailed e)).
    destruct (omap failed_polish outs); [by apply elem_of_nil in Ho|done].
  - intros before n e after -> Hb. by rewrite H2, omap_app, Hnone.
Qed.

(** ** Instances *)

Lemma runs_labels id plan nodes ok ls s s' :
  runs id plan nodes ok s → forallb ok ls = true → run_labels id ls s = Some s' →
  runs id plan nodes ok s'.
Proof.
  revert s. induction ls as [|l ls IH]; intros s Hs Hok Hl; cbn in *; [by simplify_eq|].
  apply andb_prop in Hok as [H1 H2]. destruct (do_label id l s) as [s1|] eqn:E; [|done].
  apply (IH s1); [|done|done]. by eapply runs_step.
Qed.

Definition step0 : label := LThread 0 ANothing.
Definition a_plan : CoarsePlan := mkPlan (s2b "do") [] (Some [mkPNode (s2b "a") (s2b "go") (s2b "t") []]).
Definition a_nodes : list (bytes * Node) := [(s2b "a", mkNode (s2b "a") [])].
Definition ctx_canceled : error := mkError (s2b "context canceled") true false.

(** The managed path: polish, accept, execute, complete, report, settle. *)
Definition polish_labels : list label :=
  [LOp (OpStartPolish None); step0; step0;
   LThread 0 (APolish [(s2b "a", PolishOk (AStr (s2b "ok")))]); step0; step0; step0].
Definition execute_labels : list label :=
  [LOp (OpAccept (Some a_plan) None); step0; LThread 1 (ALaunched None); step0; step0; step0;
   LThread 0 (AEngineState RsRunning [] false); LThread 0 (AEngineState RsIdle [] false);
   LOp OpComplete; LThread 1 ANothing; LThread 1 ANothing; LThread 0 (AEngineState RsCanceled (s2b "context canceled") true);
   LThread 0 (AEngineEnd (Some ctx_canceled))].
Definition settle_labels : list label :=
  [step0; step0; step0; step0; step0; step0; LThread 0 (AReport [(s2b "a", ReportOk ANull)]);
   step0; step0; step0].
Definition the_runner : runner := New (s2b "r") (Some a_plan) a_nodes.
Definition run_to (ls : list label) : runner := default the_runner (run_labels (s2b "r") ls the_runner).
Definition finished_run : runner := run_to (polish_labels ++ execute_labels ++ settle_labels).

Lemma runs_to ok ls :
  forallb ok ls = true → bool_decide (is_Some (run_labels (s2b "r") ls the_runner)) = true →
  runs (s2b "r") (Some a_plan) a_nodes ok (run_to ls).
Proof.
  intros H1 [s Hs]%bool_decide_eq_true. unfold run_to. rewrite Hs.
  eapply runs_labels; [apply runs_new|done|done].
Qed.

Lemma launched_once_witness :
  Launch ∈ r_threads (run_to (polish_labels ++ take 1 execute_labels)) ∧
  r_started (run_to (polish_labels ++ take 1 execute_labels)) = false.
Proof.
  assert (Launch ∈ r_threads (run_to (polish_labels ++ take 1 execute_labels))) as H
    by (vm_compute; left).
  split; [exact H|].
  refine (proj1 (proj2 (launched_once _ _ _ (λ _, true) _ (runs_to _ _ _ _))) H); by vm_compute.
Defined.

Lemma settled_final_witness :
  r_phase finished_run = PhaseSettled ∧ rs_Finished (r_state finished_run) = true.
Proof.
  assert (runs (s2b "r") (Some a_plan) a_nodes quiet_label finished_run) as H
    by (apply runs_to; by vm_compute).
  assert (r_phase finished_run = PhaseSettled) as Hs by by vm_compute.
  split; [exact Hs|]. exact (proj1 (settled_final _ _ _ _ H Hs)).
Defined.


Lemma fanOutPolish_spec_witness :
  (fanOutPolish [(s2b "a", PolishOk ANull); (s2b "b", PolishFailed ctx_canceled)]).2
  = Some (wrap_error (s2b "polish ") (s2b "b") ctx_canceled).
Proof.
  refine (proj2 (proj2 (fanOutPolish_spec _ _)) [(s2b "a", PolishOk ANull)] (s2b "b") ctx_canceled [] _ _).
  - by apply (bool_decide_eq_true_1 _).
  - done.
  - intros n e. rewrite elem_of_cons, elem_of_nil. by intros [[=]|[]].
Defined.

(** *** What an abort from outside can do *)

(** An abort while agents polish is undone by the polish goroutine: the settled
    runner goes back to awaiting review, and when the observer looks only
    afterwards, [Done] is never closed although nothing is left running. *)
Definition revived : runner :=
  run_to [LOp (OpStartPolish None); step0; step0; LOp (OpAbort (Some (plain_error (s2b "stop"))));
          LThread 0 (APolish []); step0; step0; step0; step0; step0; step0; LObserve; LObserve; LObserve; LObserve].
Lemma abort_undone :
  r_phase revived = PhaseAwaitingReview ∧ rs_Status (r_state revived) = RsFailed ∧
  r_threads revived = [] ∧ r_unread revived = 0%nat ∧ r_done revived = false.
Proof. by vm_compute. Qed.

(** A polish failure settles the runner before its error is captured: an
    observer woken by an earlier event lets [Wait] return without an error. *)
Definition early_wait : runner :=
  run_to [LOp (OpStartPolish None); step0; step0;
          LThread 0 (APolish [(s2b "a", PolishFailed ctx_canceled)]); step0; LObserve].
Lemma wait_misses_error :
  Wait early_wait = Some None ∧ AbortCapture (Some (wrap_error (s2b "polish ") (s2b "a") ctx_canceled))
    ∈ r_threads early_wait.
Proof. split; vm_compute; [done|left]. Qed.

(** A call of [Complete] between the change of phase and the launch reads no
    [cancelEngine]: it waits for an engine that nobody has told to stop. *)
Definition uncancelled : runner :=
  run_to [LOp (OpStart None); LOp OpComplete; LThread 1 ANothing; step0; LThread 1 (ALaunched None); step0; step0; step0].
Lemma complete_cancels_nothing :
  r_threads uncancelled = [EngineLoop] ∧ r_clean uncancelled = true ∧ r_canceled uncancelled = false.
Proof. by vm_compute. Qed.
