(* ===== verification/Driver.v ===== *)
(** The managed driver of a runner ([src/runner/lifecycle.go]: [StartManaged],
    [runManagedLifecycle], [waitForPhase], [acceptAndComplete]): the goroutine that
    takes a runner from its plan to its end. It is one more client of the entry
    points of [Lifecycle.v], whose threads and callers run beside it; each read of
    the phase, each call and each event it receives is a step of its own. The
    planner is asked through [Plan.v]. *)
From S2P Require Import Prelude Event Plan Engine Lifecycle.

(** ** Data *)

(** The events of the engine that pass the filter of [acceptAndComplete]. *)
Inductive note := NIdle | NFailed | NStopped.
#[export] Instance note_eq_dec : EqDecision note. Proof. solve_decision. Defined.

(** The subscription the driver holds, with what it has not read yet: phase
    changes with a buffer of 8, or events of the engine with one of 32. *)
Inductive subscription :=
| NoSub | PhaseSub (unread : list RunnerPhase) | EngineSub (unread : list note).

Inductive dpc :=
| DOff                                  (* not spawned *)
| DStart                                (* StartPolish *)
| DCheck                                (* waitForPhase, its first look at the phase *)
| DSubscribe | DRecheck                 (* its subscription, and the look after it *)
| DNext                                 (* its sub.Next *)
| DGot (phase : RunnerPhase)            (* an event that names [phase] has been received *)
| DAgain                                (* it names the phase wanted: one more look *)
| DWaitSettled                          (* r.Wait(context.Background()) *)
| DReview | DReject (reason : bytes) | DReplan (reason : bytes)
| DReplanWith (plan : CoarsePlan) (nodes : list (bytes * Node))
| DSubscribeEngine | DPlan | DAccept (plan : option CoarsePlan)
| DLaunching                            (* in launchEngine *)
| DNextNote                             (* sub.Next of acceptAndComplete *)
| DComplete
| DWaitEngine (under_ctx : bool)        (* r.Wait(ctx), r.Wait(context.Background()) *)
| DFailed (e : error)                   (* about to look at Done *)
| DAbort (e : error) | DEnd.

(** [d_notes] is what the engine has published so far, [d_reviews] the outcomes of
    the planner's reviews. *)
Record driver := mkDriver {
  d_pc : dpc; d_sub : subscription; d_notes : list note; d_reviews : list bool; d_aborted : bool }.
Definition driver0 : driver := mkDriver DOff NoSub [] [] false.

Definition go (pc : dpc) (d : driver) : driver :=
  mkDriver pc (d_sub d) (d_notes d) (d_reviews d) (d_aborted d).
Definition hold (sub : subscription) (pc : dpc) (d : driver) : driver :=
  mkDriver pc sub (d_notes d) (d_reviews d) (d_aborted d).
(** Leaving a function that cancels its subscription. *)
Definition leave (pc : dpc) (d : driver) : driver := hold NoSub pc d.
Definition reviewed (approved : bool) (d : driver) : driver :=
  mkDriver (d_pc d) (d_sub d) (d_notes d) (d_reviews d ++ [approved]) (d_aborted d).
Definition has_aborted (d : driver) : driver :=
  mkDriver DEnd NoSub (d_notes d) (d_reviews d) true.

(** A full subscription drops what is newer. *)
Definition hand_over {A} (buffer : nat) (unread : list A) (x : A) : list A :=
  if (List.length unread <? buffer)%nat then unread ++ [x] else unread.
Definition phaseBuffer : nat := 8.
Definition engineBuffer : nat := 32.

(** The phases announced between [s] and [s'] reach the subscription. *)
Definition hear (s s' : runner) (d : driver) : driver :=
  match d_sub d with
  | PhaseSub u =>
      hold (PhaseSub (foldl (hand_over phaseBuffer) u
        (fst <$> drop (List.length (r_emitted s)) (r_emitted s')))) (d_pc d) d
  | _ => d
  end.
Definition publish_note (n : note) (d : driver) : driver :=
  mkDriver (d_pc d)
    (match d_sub d with EngineSub u => EngineSub (hand_over engineBuffer u n) | sub => sub end)
    (d_notes d ++ [n]) (d_reviews d) (d_aborted d).

(** ** Steps

    What a call does after its locked section but before it returns is a thread of
    [Lifecycle.v], which may trail the driver here, except for [launchEngine], for
    which the driver waits. *)

(** What the driver is given: the outcome of [prepareNodeAgents], how much of the
    history of the stream a new subscription is too late for, the planner's
    replies and the prompt as marshalled, the closing of the stream, or the error
    of a call that its context or the stream made fail. *)
Inductive danswer :=
| AGo | AAgents (e : option error) | ASubscribed (late : nat)
| AReplies (replies : option (nat → bytes → res bytes bytes)) (prompt : res bytes bytes)
| AClosed | AFails (e : error).

Section Driver.
Variable id : bytes.
(** Which characters other than ASCII continue an identifier, and the wording of
    the retry, as in [Plan.v]. *)
Variable unicode_alnum : bytes → bool.
Variable retry_prompt : parse_err → bytes.
(** How the errors of an exchange with the planner read. *)
Variable explain : exchange_err → error.
Variable planNodeBuilder : option (CoarsePlan → res bytes (list (bytes * Node))).

Definition want : RunnerPhase := PhaseAwaitingReview.
Definition default_reason : bytes := s2b "planner review requested replanning".

(** A call of an entry point of the runner. *)
Definition call_op (o : op) (next : dpc) (d : driver) (s : runner) : driver * runner :=
  match do_op id o s with
  | (s', None) => (go next d, s')
  | (s', Some e) => (leave (DFailed e) d, s')
  end.

(** [waitForPhase] over a look at the phase. *)
Definition look (s : runner) (other : dpc) (d : driver) : driver :=
  if bool_decide (r_phase s = want) then leave DReview d
  else if bool_decide (r_phase s = PhaseSettled) then go DWaitSettled d
  else go other d.

Definition after_event (phase : RunnerPhase) : dpc :=
  if bool_decide (phase = want) then DAgain
  else if bool_decide (phase = PhaseSettled) then DWaitSettled else DNext.

Definition on_note (n : note) : dpc :=
  match n with NIdle => DComplete | NFailed | NStopped => DWaitEngine true end.

(** [launchEngine] is over. *)
Definition launched_out (s : runner) : bool :=
  forallb (λ t, match t with Launch | AddInitial => false | _ => true end) (r_threads s).

Definition review (r : res exchange_err PlanReview) (d : driver) : driver :=
  match r with
  | Err e => leave (DFailed (explain e)) d
  | Ok rv =>
      if rv_Approved rv then go DSubscribeEngine (reviewed true d)
      else go (DReject (if is_empty (rv_Reason rv) then default_reason else rv_Reason rv))
             (reviewed false d)
  end.

Definition waited (done_ : dpc) (d : driver) (s : runner) : option driver :=
  match Wait s with
  | Some None => Some (leave done_ d)
  | Some (Some e) => Some (leave (DFailed e) d)
  | None => None
  end.

(** One step of the driver; [None] while it blocks. *)
Definition drive_step (a : danswer) (d : driver) (s : runner) : option (driver * runner) :=
  match d_pc d, a with
  | DStart, AAgents e => Some (call_op (OpStartPolish e) DCheck d s)
  | DCheck, AGo =>
      Some (if bool_decide (r_phase s = want) then go DReview d else go DSubscribe d, s)
  | DSubscribe, ASubscribed late =>
      Some (hold (PhaseSub (take phaseBuffer (drop late (fst <$> r_emitted s)))) DRecheck d, s)
  | DRecheck, AGo => Some (look s DNext d, s)
  | DNext, AGo =>
      match d_sub d with PhaseSub (p :: u) => Some (hold (PhaseSub u) (DGot p) d, s) | _ => None end
  | DNext, AClosed => Some (go DWaitSettled d, s)
  | DGot p, AGo => Some (look s (after_event p) d, s)
  | DAgain, AGo =>
      Some (if bool_decide (r_phase s = want) then leave DReview d else go DNext d, s)
  | DWaitSettled, AGo => d' ← waited DReview d s; Some (d', s)
  | DReview, AReplies replies prompt =>
      Some (review (reviewPolishedPlan unicode_alnum retry_prompt replies prompt).1 d, s)
  | DReject reason, AGo => Some (call_op (OpReject reason) (DReplan reason) d s)
  | DReplan _, AReplies replies prompt =>
      Some (match (replanPolishedPlan unicode_alnum retry_prompt replies planNodeBuilder
                     prompt).1 with
            | Err e => leave (DFailed (explain e)) d
            | Ok (plan, nodes) => go (DReplanWith plan nodes) d
            end, s)
  | DReplanWith plan nodes, AAgents e => Some (call_op (OpReplan (Some plan) nodes e) DCheck d s)
  | DSubscribeEngine, ASubscribed late =>
      Some (hold (EngineSub (take engineBuffer (drop late (d_notes d)))) DPlan d, s)
  | DPlan, AGo => Some (go (DAccept (CloneCoarsePlan (r_plan s))) d, s)
  | DAccept plan, AAgents e => Some (call_op (OpAccept plan e) DLaunching d s)
  | DLaunching, AGo =>
      if launched_out s then
        Some (match r_startErr s with Some e => leave (DFailed e) d | None => go DNextNote d end, s)
      else None
  | DNextNote, AGo =>
      match d_sub d with
      | EngineSub (n :: u) => Some (hold (EngineSub u) (on_note n) d, s)
      | _ => None
      end
  | DNextNote, AClosed => Some (go (DWaitEngine false) d, s)
  | DComplete, AGo => Some (call_op OpComplete (DWaitEngine true) d s)
  | DWaitEngine _, AGo => d' ← waited DEnd d s; Some (d', s)
  | (DSubscribe | DNext | DSubscribeEngine | DNextNote | DWaitEngine true), AFails e =>
      Some (leave (DFailed e) d, s)
  | DFailed e, AGo => Some (if r_done s then go DEnd d else go (DAbort e) d, s)
  | DAbort e, AGo => Some (has_aborted d, (do_op id (OpAbort (Some e)) s).1)
  | _, _ => None
  end.

(** A call, a thread or the observer of the runner; the engine publishing; or the
    driver. [StartManaged] spawns the driver when it returns no error. *)
Inductive dlabel := DOther (l : label) | DSays (n : note) | DMove (a : danswer).

(** The engine publishes from its loop. *)
Definition looping (s : runner) : bool :=
  existsb (λ t, match t with EngineLoop => true | _ => false end) (r_threads s).

Definition dstep (l : dlabel) (d : driver) (s : runner) : option (driver * runner) :=
  match l with
  | DOther (LOp (OpStartManaged ctxErr)) =>
      let '(s', err) := StartManaged ctxErr s in
      Some (match err with None => go DStart d | Some _ => d end, s')
  | DOther l => s' ← do_label id l s; Some (hear s s' d, s')
  | DSays n => if looping s then Some (publish_note n d, s) else None
  | DMove a => drive_step a d s
  end.

Fixpoint run_driver (ls : list dlabel) (d : driver) (s : runner) : option (driver * runner) :=
  match ls with
  | [] => Some (d, s)
  | l :: ls => '(d', s') ← dstep l d s; run_driver ls d' s'
  end.
End Driver.
