(* ===== verification/DriverFacts.v ===== *)
(** The managed driver keeps to the protocol of the runner: its calls find the
    runner in the phase they need or settled and done, the engine is launched only
    after the planner has approved, and the driver waits only while somebody else
    moves. *)
From S2P Require Import Prelude Json Event Plan PlanFacts Engine Lifecycle LifecycleFacts Driver.

(** ** What one step of a runner does *)

(** Go through the branches of a thread's step. *)
Ltac branches H :=
  repeat first
    [ progress (unfold settle_begin in H; cbn in H)
    | match type of H with
      | context [fanOutPolish ?o] => destruct (fanOutPolish o) as [? [?|]]
      | context [fanOutReport ?o] => destruct (fanOutReport o) as [? ?]
      | context [if ?b then _ else _] => destruct b
      | context [match ?x with Some _ => _ | None => _ end] => destruct x
      end ].

Lemma nothing_new (l : list (RunnerPhase * RunnerStatus)) p :
  ∃ l', l = l ++ l' ∧ ∀ x, x ∈ l' → x.1 = p.
Proof. exists []. rewrite app_nil_r. split; [done|]. by intros x ?%elem_of_nil. Qed.

Lemma thread_keeps t a s s' new :
  thread_step t a s = Some (s', new) →
  r_managed s' = r_managed s ∧ r_done s' = r_done s ∧
  (r_started s' = r_started s ∨ t = Launch) ∧
  ∃ new_phases, r_emitted s' = r_emitted s ++ new_phases ∧
    ∀ x, x ∈ new_phases → x.1 = r_phase s'.
Proof.
  intros H. pose proof nothing_new. destruct t, a; try discriminate H; destruct s; cbn in H;
    try (injection H as <- <-; cbn; split_and!; [done..|auto|];
         first [apply Hnil | eexists; split; [done|by intros x ->%list_elem_of_singleton]]).
  all: branches H; injection H as <- <-; cbn; by split_and!; auto.
Qed.

(** The only moves of the phase that are not a caller's. *)
Definition drift (p q : RunnerPhase) : Prop :=
  p = q ∨ p = PhasePolishing ∧ (q = PhaseAwaitingReview ∨ q = PhaseSettled) ∨
  p = PhaseExecuting ∧ (q = PhaseReport ∨ q = PhaseSettled) ∨ p = PhaseReport ∧ q = PhaseSettled.

Lemma thread_drift c ths i t c' new :
  counts c ths → ths !! i = Some t → eff t c c' new → drift (c_ph c) (c_ph c').
Proof.
  intros (P & E & R & X) Ht He. unfold drift.
  pose proof (weight_ge polisher _ _ _ Ht) as V1. pose proof (weight_ge enginer _ _ _ Ht) as V2.
  pose proof (weight_ge executor _ _ _ Ht) as V3. unfold at_phase in *.
  destruct He; cbn in *; auto;
    (destruct ph; unfold b2n in *; repeat case_bool_decide; try done; try lia; auto 6).
Qed.

(** What steps that are no calls leave alone. *)
Definition goes_on (s s' : runner) : Prop :=
  drift (r_phase s) (r_phase s') ∧ r_managed s' = r_managed s ∧
  (r_done s = true → r_done s' = true) ∧
  (r_started s' = true → r_started s = true ∨ r_phase s = PhaseExecuting ∨ r_phase s = PhaseReport) ∧
  ∃ new_phases, r_emitted s' = r_emitted s ++ new_phases ∧ ∀ x, x ∈ new_phases → x.1 = r_phase s'.

Section Steps.
Variable id : bytes.
Variable plan : option CoarsePlan.
Variable nodes : list (bytes * Node).
Abbreviation reaches := (LifecycleFacts.runs id plan nodes).

Lemma engine_phase s t : reaches quiet_label s → t ∈ r_threads s → enginer t = true →
  r_phase s = PhaseExecuting ∨ r_phase s = PhaseReport.
Proof.
  intros HQ%runs_qinv Hin Ht. destruct (q_counts _ _ HQ) as (_ & E & _).
  pose proof (weight_pos enginer _ _ Hin Ht) as V. unfold at_phase in E. cbn in E.
  destruct (r_phase s); auto; phases; cbn in E; lia.
Qed.

Lemma step_goes_on l s s' :
  reaches quiet_label s → (∀ o, l ≠ LOp o) → do_label id l s = Some s' → goes_on s s'.
Proof.
  intros Hr Hl Hs. destruct l as [o|i a| |]; [by destruct (Hl o)|..]; cbn [do_label] in Hs.
  - destruct (r_threads s !! i) as [t|] eqn:Ht; [|done]. cbn [mbind option_bind] in Hs.
    destruct (answer_ok a s) eqn:Ha; [|done].
    destruct (thread_step t a s) as [[s1 new]|] eqn:E; [|done]. cbn [mbind option_bind] in Hs.
    injection Hs as <-. pose proof (thread_keeps _ _ _ _ _ E) as (Hm & Hd & Hst & Hem).
    pose proof (thread_eff _ _ _ _ _ Ha E) as He.
    pose proof (thread_drift _ _ _ _ _ _ (q_counts _ _ (runs_qinv _ _ _ _ Hr)) Ht He) as Hdr.
    assert (goes_on s s1) as H.
    { split_and!; [done|done|by rewrite Hd| |done]. intros Hs1.
      destruct Hst as [<-| ->]; [by left|]. right.
      by eapply engine_phase; [|by eapply list_elem_of_lookup_2|]. }
    by destruct s1.
  - unfold observer_step in Hs. destruct s. cbn in *. unfold goes_on, drift. cbn.
    destruct r_observer, r_unread; try done; destruct (bool_decide _); injection Hs as <-; cbn;
      split_and!; auto; apply nothing_new.
  - assert (s' = set_observer (r_unread s) ObsExit (r_done s) s) as ->
      by (destruct (r_observer s); by simplify_eq). destruct s. unfold goes_on, drift. cbn.
    split_and!; auto. apply nothing_new.
Qed.

(** ** Waking up

    The driver that waits for an event after the phase has left polishing will
    find one. *)

Definition rung (u : list RunnerPhase) (s : runner) : Prop :=
  r_phase s ≠ PhasePolishing → u ≠ [] ∨ (0 < weight emitter (r_threads s))%nat.
Definition heard (u : list RunnerPhase) (s s' : runner) : list RunnerPhase :=
  foldl (hand_over phaseBuffer) u (fst <$> drop (List.length (r_emitted s)) (r_emitted s')).

Lemma hand_over_some {A} n (u : list A) x : (0 < n)%nat → hand_over n u x ≠ [].
Proof.
  intros Hn. unfold hand_over. destruct (_ <? _)%nat eqn:E; [by destruct u|].
  apply Nat.ltb_ge in E. intros ->. cbn in E. lia.
Qed.
Lemma delivers_keep {A} n (xs u : list A) : (0 < n)%nat → u ≠ [] → foldl (hand_over n) u xs ≠ [].
Proof.
  intros Hn. revert u. induction xs as [|x xs IH]; intros u Hu; [done|].
  cbn. by apply IH, hand_over_some.
Qed.
Lemma heard_keep u s s' : u ≠ [] → heard u s s' ≠ [].
Proof. apply delivers_keep. unfold phaseBuffer. lia. Qed.
Lemma heard_nothing u s s' : r_emitted s' = r_emitted s → heard u s s' = u.
Proof. intros H. unfold heard. by rewrite H, drop_all. Qed.

(** A thread that moves the phase announces it next. *)
Lemma thread_rings t a s s' new i :
  r_threads s !! i = Some t → thread_step t a s = Some (s', new) →
  (r_phase s' = r_phase s ∨ (0 < weight emitter new)%nat) ∧
  (emitter t = false ∨ (0 < weight emitter new)%nat ∨
   ∃ x, r_emitted s' = r_emitted s ++ [x]).
Proof.
  intros Ht H. destruct t, a; try discriminate H; destruct s; cbn in H;
    try (injection H as <- <-; cbn; by split; eauto using Nat.lt_0_1).
  all: branches H; injection H as <- <-; cbn; auto.
Qed.

Lemma rung_same u s s' :
  r_emitted s' = r_emitted s → r_threads s' = r_threads s → r_phase s' = r_phase s →
  rung u s → rung (heard u s s') s'.
Proof. intros He Ht Hp Hu. rewrite heard_nothing by done. unfold rung. by rewrite Hp, Ht. Qed.

Lemma step_rings l s s' u :
  (∀ o, l ≠ LOp o) → do_label id l s = Some s' → rung u s → rung (heard u s s') s'.
Proof.
  intros Hl Hs Hu. destruct l as [o|i a| |]; [by destruct (Hl o)|..]; cbn [do_label] in Hs.
  - destruct (r_threads s !! i) as [t|] eqn:Ht; [|done]. cbn [mbind option_bind] in Hs.
    destruct (answer_ok a s); [|done].
    destruct (thread_step t a s) as [[s1 new]|] eqn:E; [|done]. cbn [mbind option_bind] in Hs.
    injection Hs as <-. destruct (thread_rings _ _ _ _ _ _ Ht E) as [H1 H2].
    pose proof (weight_replace emitter _ i t new Ht) as W. pose proof (weight_ge emitter _ _ _ Ht) as V.
    set (ths := take i (r_threads s) ++ new ++ drop (S i) (r_threads s)) in *.
    assert (rung (heard u s s1) (set_threads ths s1)) as H; [|by destruct s1].
    assert (r_phase (set_threads ths s1) = r_phase s1 ∧ r_threads (set_threads ths s1) = ths) as [P1 P2]
      by by destruct s1. unfold rung. rewrite P1, P2. intros Hp.
    destruct H1 as [H1|H1]; [|right; lia]. rewrite H1 in Hp.
    destruct (Hu Hp) as [Hne|Hw]; [left; by apply heard_keep|].
    destruct H2 as [H2|[H2|[x H2]]]; [rewrite H2 in W; right; lia|right; lia|left].
    unfold heard. rewrite H2, drop_app_length. apply hand_over_some. unfold phaseBuffer. lia.
  - apply rung_same; [..|done]; unfold observer_step in Hs; destruct s; cbn in *;
      destruct r_observer, r_unread; try done; destruct (bool_decide _); by injection Hs as <-.
  - apply rung_same; [..|done]; destruct s; cbn in *; destruct r_observer; by simplify_eq.
Qed.

(** *** What a subscription tells *)

Definition told (u : list RunnerPhase) (s : runner) : Prop :=
  PhaseSettled ∈ u → r_phase s = PhaseSettled.

Lemma op_emitted o s : r_emitted (do_op id o s).1 = r_emitted s.
Proof.
  destruct o as [agents|agents|pl agents|reason|pl ns agents| |ctxErr|runErr]; cbn [do_op];
    unfold Start, AcceptPolishedPlan, prepareEngineLaunch, StartPolish, RejectPolishedPlan, ReplanWith,
      Complete, StartManaged;
    repeat match goal with
    | |- context [if ?b then _ else _] => destruct b
    | |- context [match ?x with Some _ => _ | None => _ end] => destruct x
    end; by destruct s.
Qed.

(** Only a settled runner has announced that it is. *)
Lemma emitted_settled s : reaches quiet_label s → told (r_emitted s).*1 s.
Proof.
  induction 1 as [|s l s' Hr IH Hq Hl]; [by intros ?%elem_of_nil|].
  pose proof (phase_edges _ _ _ _ _ _ Hr Hq Hl) as [_ Hstay]. unfold told in *.
  destruct l as [o|i a| |]; [injection Hl as <-; rewrite op_emitted; auto|..].
  all: apply step_goes_on in Hl as (_ & _ & _ & _ & new & Hnew & Hin); [|done|done].
  all: rewrite Hnew, fmap_app, elem_of_app; intros [H|H]; [by auto|].
  all: apply list_elem_of_fmap in H as (x & -> & Hx); by rewrite <-(Hin x).
Qed.

Lemma delivered_in {A} n (xs u : list A) x : x ∈ foldl (hand_over n) u xs → x ∈ u ∨ x ∈ xs.
Proof.
  revert u. induction xs as [|y xs IH]; intros u; cbn; [by left|]. intros [H|H]%IH.
  - unfold hand_over in H. destruct (_ <? _)%nat; [|by left].
    apply elem_of_app in H as [H|H%list_elem_of_singleton]; [by left|right; subst; by left].
  - right. by right.
Qed.
Lemma step_tells l s s' u :
  reaches quiet_label s → quiet_label l = true → do_label id l s = Some s' →
  told u s → told (heard u s s') s'.
Proof.
  intros Hr Hq Hl Hu. pose proof (runs_step _ _ _ _ _ _ _ Hr Hq Hl) as Hr'.
  pose proof (phase_edges _ _ _ _ _ _ Hr Hq Hl) as [_ Hstay].
  intros [H|H]%delivered_in; [by auto|]. apply (emitted_settled _ Hr').
  apply list_elem_of_fmap in H as (x & -> & Hx). apply list_elem_of_fmap. exists x. split; [done|].
  rewrite <-(take_drop (List.length (r_emitted s)) (r_emitted s')). apply elem_of_app. by right.
Qed.

Lemma step_tells_got l s s' p u :
  reaches quiet_label s → quiet_label l = true → do_label id l s = Some s' →
  told (p :: u) s → told (p :: heard u s s') s'.
Proof.
  intros Hr Hq Hl Hu. pose proof (phase_edges _ _ _ _ _ _ Hr Hq Hl) as [_ Hstay].
  intros [<-|H]%elem_of_cons; [by apply Hstay, Hu; left|].
  apply (step_tells l s s' u); [done..| |done]. intros Hin. apply Hu. by right.
Qed.

(** ** Where the driver is and where the runner is *)

Definition polishing (s : runner) : Prop :=
  r_phase s = PhasePolishing ∨ r_phase s = PhaseAwaitingReview ∨ r_phase s = PhaseSettled.
(** A runner to review or to accept is waiting for it, or is over. *)
Definition reviewable (s : runner) : Prop :=
  r_phase s = PhaseAwaitingReview ∨ r_phase s = PhaseSettled ∧ r_done s = true.
Definition executing (s : runner) : Prop :=
  r_phase s = PhaseExecuting ∨ r_phase s = PhaseReport ∨ r_phase s = PhaseSettled.
Definition launched (s : runner) : Prop :=
  r_phase s = PhaseExecuting ∨ r_phase s = PhaseReport ∨ r_started s = true.

(** The planner has rejected each time so far; or, after rejections, approved. *)
Definition rejected (d : driver) : Prop := ∃ n, d_reviews d = replicate n false.
Definition approved (d : driver) : Prop := ∃ n, d_reviews d = replicate n false ++ [true].
Definition fresh (d : driver) : Prop := rejected d ∧ d_notes d = [].
Definition kept_notes (d : driver) : Prop :=
  ∃ u, d_sub d = EngineSub u ∧ (d_notes d ≠ [] → u ≠ []).

Definition at_pc (d : driver) (s : runner) : Prop :=
  match d_pc d with
  | DOff | DStart => r_phase s = PhaseCreated ∧ fresh d
  | DCheck | DSubscribe => polishing s ∧ fresh d
  | DRecheck => polishing s ∧ fresh d ∧ ∃ u, d_sub d = PhaseSub u ∧ told u s
  | DGot p => polishing s ∧ fresh d ∧ ∃ u, d_sub d = PhaseSub u ∧ told (p :: u) s
  | DNext | DAgain => polishing s ∧ fresh d ∧ ∃ u, d_sub d = PhaseSub u ∧ told u s ∧ rung u s
  | DWaitSettled => r_phase s = PhaseSettled ∧ fresh d
  | DReview | DReject _ => reviewable s ∧ fresh d
  | DReplan _ | DReplanWith _ _ => r_phase s = PhaseAwaitingReplan ∧ fresh d
  | DSubscribeEngine => reviewable s ∧ approved d ∧ d_notes d = []
  | DPlan | DAccept _ => reviewable s ∧ approved d ∧ d_notes d = [] ∧ d_sub d = EngineSub []
  | DLaunching | DNextNote => executing s ∧ approved d ∧ kept_notes d
  | DComplete | DWaitEngine _ => executing s ∧ approved d
  | DFailed _ | DAbort _ => rejected d ∨ approved d
  | DEnd => r_done s = true ∧ (rejected d ∨ approved d)
  end.

Record dinv (d : driver) (s : runner) : Prop := {
  v_runs : reaches (λ l, quiet_label l && patient l) s;
  v_on : d_pc d ≠ DOff → r_managed s = true;
  v_at : at_pc d s;
  v_launched : launched s → approved d;
  v_alive : d_aborted d = false }.

Lemma both_not d : rejected d → approved d → False.
Proof.
  intros [n Hn] [m Hm]. rewrite Hn in Hm.
  assert (true ∈ replicate n false) as [H _]%elem_of_replicate; [|done].
  rewrite Hm. apply elem_of_app. right. by apply list_elem_of_singleton.
Qed.
Lemma rejected_more d : rejected d → rejected (reviewed false d).
Proof. intros [n Hn]. exists (S n). cbn [reviewed d_reviews]. by rewrite Hn, replicate_S_end. Qed.
Lemma approved_now d : rejected d → approved (reviewed true d).
Proof. intros [n Hn]. exists n. cbn. by rewrite Hn. Qed.
Lemma fresh_not_launched d s : dinv d s → fresh d → ¬ launched s.
Proof. intros HI [Hf _] Hl. by eapply both_not; [|apply (v_launched _ _ HI)]. Qed.

(** Steps beside the driver's keep what it knows. *)
Lemma drift_stays s s' : goes_on s s' →
  (polishing s → polishing s') ∧ (reviewable s → reviewable s') ∧ (executing s → executing s') ∧
  (launched s' → launched s).
Proof.
  intros (Hd & _ & Hdone & Hst & _). unfold polishing, reviewable, executing, launched, drift in *.
  split_and!; intuition (try congruence); auto 6.
Qed.
Lemma hear_keeps s s' d :
  d_pc (hear s s' d) = d_pc d ∧ d_notes (hear s s' d) = d_notes d ∧
  d_reviews (hear s s' d) = d_reviews d ∧ d_aborted (hear s s' d) = d_aborted d ∧
  d_sub (hear s s' d) = match d_sub d with PhaseSub u => PhaseSub (heard u s s') | sub => sub end.
Proof. unfold hear. destruct d as [pc sub ns rs ab]. by destruct sub. Qed.

Lemma other_keeps l d s s' :
  dinv d s → (∀ o, l ≠ LOp o) → patient l = true → do_label id l s = Some s' →
  dinv (hear s s' d) s'.
Proof.
  intros HI Hl Hp Hs. destruct (hear_keeps s s' d) as (E1 & E2 & E3 & E4 & E5).
  destruct (quiet_patient_sub _ _ _ _ _ (v_runs _ _ HI)) as [Hq _].
  pose proof (step_goes_on _ _ _ Hq Hl Hs) as Hgo.
  assert (quiet_label l = true) as Hql by by destruct l as [o| | |]; [destruct (Hl o)|..].
  pose proof (λ u, step_tells l s s' u Hq Hql Hs) as Htell.
  pose proof (λ p u, step_tells_got l s s' p u Hq Hql Hs) as Hgot.
  destruct (drift_stays _ _ Hgo) as (K1 & K2 & K3 & K4). destruct Hgo as (Hd & Hm & Hdone & _).
  split.
  - eapply runs_step; [apply HI| |done]. by rewrite Hql, Hp.
  - rewrite E1, Hm. apply HI.
  - pose proof (v_at _ _ HI) as H. unfold at_pc in *. unfold fresh, rejected, approved, kept_notes in *.
    rewrite E1, E2, E3, E5. destruct (d_pc d); try (by intuition).
    all: unfold drift in Hd; try (intuition congruence).
    all: try (destruct H as (H1 & H2 & H3 & ->); tauto).
    all: destruct H as (H1 & H2 & u & -> & H4); split_and!; [tauto..|eexists; split; [done|]].
    all: by intuition eauto using step_rings.
  - intros L. unfold approved. rewrite E3. by apply (v_launched _ _ HI), K4.
  - rewrite E4. apply HI.
Qed.

(** ** The driver's own steps *)

(** Between which phases a call that succeeds moves the runner. *)
Definition moves (o : op) (p q : RunnerPhase) : Prop :=
  match o with
  | OpStartPolish _ => (p = PhaseCreated ∨ p = PhaseAwaitingReplan) ∧ q = PhasePolishing
  | OpReject _ => p = PhaseAwaitingReview ∧ q = PhaseAwaitingReplan
  | OpReplan _ _ _ => p = PhaseAwaitingReplan ∧ q = PhasePolishing
  | OpAccept _ _ => p = PhaseAwaitingReview ∧ q = PhaseExecuting
  | OpComplete => p = PhaseExecuting ∧ q = PhaseExecuting
  | _ => False
  end.
Definition drivers_op (o : op) : bool :=
  match o with
  | OpStartPolish _ | OpReject _ | OpReplan _ _ _ | OpAccept _ _ | OpComplete => true
  | _ => false
  end.

Lemma call_result o s :
  drivers_op o = true →
  ∃ s' e, do_op id o s = (s', e) ∧ r_managed s' = r_managed s ∧ r_started s' = r_started s ∧
    match e with Some _ => s' = s | None => moves o (r_phase s) (r_phase s') end.
Proof.
  assert (∀ e : error, ∃ s' e', (s, Some e) = (s', e') ∧ r_managed s' = r_managed s ∧
    r_started s' = r_started s ∧
    match e' with Some _ => s' = s | None => moves o (r_phase s) (r_phase s') end) as Hsame
    by (intros e; by exists s, (Some e)).
  destruct o as [agents|agents|pl agents|reason|pl ns agents| |ctxErr|runErr]; try done; intros _; cbn [do_op].
  - unfold StartPolish. destruct agents, (r_plan s); try apply Hsame.
    destruct (_ || _) eqn:E; [|apply Hsame]. eexists _, None. split; [done|]. destruct s. cbn in *.
    split_and!; [done|done| |done].
    apply orb_prop in E as [E%bool_decide_eq_true|E%bool_decide_eq_true]; auto.
  - unfold AcceptPolishedPlan, prepareEngineLaunch. destruct pl, agents; try apply Hsame.
    destruct (negb _); [apply Hsame|]. destruct (negb _) eqn:E; [apply Hsame|].
    apply negb_false_iff, bool_decide_eq_true in E. eexists _, None. split; [done|]. by destruct s.
  - unfold RejectPolishedPlan. destruct (bool_decide _) eqn:E; [|apply Hsame].
    apply bool_decide_eq_true in E. eexists _, None. split; [done|]. by destruct s.
  - unfold ReplanWith. destruct pl, agents; try apply Hsame.
    destruct (bool_decide _) eqn:E; [|apply Hsame].
    apply bool_decide_eq_true in E. eexists _, None. split; [done|]. by destruct s.
  - unfold Complete. destruct (bool_decide _) eqn:E; [|apply Hsame].
    apply bool_decide_eq_true in E. eexists _, None. split; [done|]. by destruct s.
Qed.

(** A step that leaves the runner alone: only the place has to be justified. *)
Lemma at_place d d' s :
  dinv d s → d_aborted d' = false → d_pc d ≠ DOff → at_pc d' s → (launched s → approved d') → dinv d' s.
Proof. intros HI Ha Hon Hat Hl. split; [apply HI|by intros _; apply HI|done..]. Qed.

Lemma call_keeps d s o next d' s' :
  dinv d s → d_pc d ≠ DOff → drivers_op o = true → rejected d ∨ approved d →
  (moves o (r_phase s) (r_phase s') → r_started s' = r_started s →
    at_pc (go next d) s' ∧ (launched s' → approved d)) →
  call_op id o next d s = (d', s') → dinv d' s'.
Proof.
  intros HI Hon Ho Hd Hnext. unfold call_op.
  destruct (call_result o s Ho) as (s1 & e & E & Hm & Hst & He). rewrite E.
  destruct e as [e|]; intros [= <- <-].
  - subst s1. apply (at_place d); [done|apply HI|done|exact Hd|exact (v_launched _ _ HI)].
  - destruct (Hnext He Hst) as [Hat Hl]. split; [|by intros _; rewrite Hm; apply HI|done..|apply HI].
    apply (runs_step _ _ _ _ s (LOp o)); [apply HI|by destruct o|cbn [do_label]; by rewrite E].
Qed.

Lemma fail_keeps d s e :
  dinv d s → d_pc d ≠ DOff → rejected d ∨ approved d → dinv (leave (DFailed e) d) s.
Proof. intros HI Hon Hd. apply (at_place d); [done|apply HI|done|exact Hd|exact (v_launched _ _ HI)]. Qed.

Lemma go_keeps d s sub pc :
  dinv d s → d_pc d ≠ DOff → at_pc (hold sub pc d) s → dinv (hold sub pc d) s.
Proof. intros HI Hon Hat. apply (at_place d); [done|apply HI|done|done|exact (v_launched _ _ HI)]. Qed.

Lemma look_keeps d s other :
  dinv d s → d_pc d ≠ DOff → polishing s → fresh d →
  (r_phase s = PhasePolishing → at_pc (go other d) s) → dinv (look s other d) s.
Proof.
  intros HI Hon Hp Hf Hother. unfold look, want.
  case_bool_decide as H1; [apply go_keeps; [done..|]; by split; [left|]|].
  case_bool_decide as H2; apply (go_keeps d s (d_sub d)); try done. apply Hother.
  by destruct Hp as [?|[?|?]].
Qed.

Lemma waited_keeps d s next d' :
  dinv d s → d_pc d ≠ DOff → rejected d ∨ approved d →
  (r_phase s = PhaseSettled → r_done s = true → at_pc (leave next d) s) →
  waited next d s = Some d' → dinv d' s.
Proof.
  intros HI Hon Hd Hnext. unfold waited, Wait.
  destruct (r_done s) eqn:Hdone; [|done]. destruct (r_engineErr s); intros [= <-]; [by apply fail_keeps|].
  apply go_keeps; [done..|]. apply Hnext; [|done].
  destruct (quiet_patient_sub _ _ _ _ _ (v_runs _ _ HI)) as [Hq _]. by eapply done_settled.
Qed.

Lemma review_keeps explain r d s :
  dinv d s → d_pc d ≠ DOff → reviewable s → fresh d → dinv (review explain r d) s.
Proof.
  intros HI Hon Hs [Hr Hn]. pose proof (fresh_not_launched _ _ HI (conj Hr Hn)) as Hnl. destruct r as [rv|e]; cbn.
  - destruct (rv_Approved rv); (apply (at_place d); [done|apply HI|done| |done]); cbn.
    + split_and!; [done|by apply approved_now|done].
    + split_and!; [done|split; [by apply rejected_more|done]].
  - apply fail_keeps; auto.
Qed.

Variable unicode_alnum : bytes → bool.
Variable retry_prompt : parse_err → bytes.
Variable explain : exchange_err → error.
Variable planNodeBuilder : option (CoarsePlan → res bytes (list (bytes * Node))).
Abbreviation drive := (drive_step id unicode_alnum retry_prompt explain planNodeBuilder).

Definition over (d : driver) (s : runner) : Prop :=
  d_aborted d = true ∧ d_pc d = DEnd ∧ r_managed s = true.

Lemma calm s s' :
  ¬ launched s → r_started s' = r_started s → r_phase s' = PhasePolishing ∨ r_phase s' = PhaseAwaitingReplan →
  ¬ launched s'.
Proof. unfold launched. intros H Hst Hp. rewrite Hst. intuition congruence. Qed.

(** The place after a call, a step, a failure. *)
Local Ltac by_call HI Hpc Hm :=
  injection Hm as Hm; eapply call_keeps; [exact HI|by rewrite Hpc|..|exact Hm]; [done|tauto|];
  unfold at_pc; cbn [moves go d_pc]; intros Hp Hst.
Local Ltac by_place HI Hpc :=
  apply (go_keeps _ _ _ _ HI); [by rewrite Hpc|]; unfold at_pc; cbn [hold d_pc d_sub].

Lemma told_part n m u s : told u s → told (take n (drop m u)) s.
Proof.
  intros H Hin. apply H. rewrite <-(take_drop m u), <-(take_drop n (drop m u)), !elem_of_app. auto.
Qed.

(** From the start to the end of [waitForPhase]. *)
Lemma move_waiting a d s d' s' :
  dinv d s → a ≠ AClosed → drive a d s = Some (d', s') →
  match d_pc d with
  | DStart | DCheck | DSubscribe | DRecheck | DNext | DGot _ | DAgain | DWaitSettled => True
  | _ => False
  end → dinv d' s'.
Proof.
  intros HI Ha Hm Hw. pose proof (v_at _ _ HI) as Hat. unfold at_pc in Hat.
  assert (fresh d → rejected d ∨ approved d) as Hfr by (intros [? _]; by left).
  pose proof (fresh_not_launched _ _ HI) as Hnl. unfold drive_step in Hm.
  destruct (d_pc d) eqn:Hpc, a; try discriminate Hm; try done; try (injection Hm as <- <-).
  - by_call HI Hpc Hm. split; [unfold polishing; tauto|]. intros HL.
    destruct (calm s s'); [|done|naive_solver|done]. tauto.
  - case_bool_decide as E; by_place HI Hpc; [|tauto]. split; [by left|tauto].
  - by_place HI Hpc. split_and!; [tauto..|]. eexists. split; [done|]. apply told_part, emitted_settled.
    by destruct (quiet_patient_sub _ _ _ _ _ (v_runs _ _ HI)).
  - apply fail_keeps; [done|by rewrite Hpc|tauto].
  - destruct Hat as (H1 & H2 & u & H3 & H4). apply look_keeps; [done|by rewrite Hpc|done..|].
    intros Hp. split; [done|]. split; [done|]. exists u. split_and!; [done..|by intros ?].
  - destruct Hat as (H1 & H2 & u & H3 & H4 & _). rewrite H3 in Hm. destruct u as [|p u]; [done|].
    injection Hm as <- <-. by_place HI Hpc. split; [done|]. split; [done|]. by exists u.
  - apply fail_keeps; [done|by rewrite Hpc|tauto].
  - destruct Hat as (H1 & H2 & u & H3 & H4). apply look_keeps; [done|by rewrite Hpc|done..|]. intros Hp.
    assert (at_pc (go DNext d) s) as Hnext.
    { split; [done|]. split; [done|]. exists u. split_and!; [done| |by intros ?].
      intros Hin. apply H4. by right. }
    unfold after_event. case_bool_decide; [exact Hnext|]. case_bool_decide; [subst|exact Hnext].
    exfalso. rewrite H4 in Hp; [done|by left].
  - case_bool_decide as E; by_place HI Hpc; [|tauto]. split; [by left|tauto].
  - destruct (waited DReview d s) as [d1|] eqn:E; [|done]. injection Hm as <- <-.
    eapply waited_keeps; [done|by rewrite Hpc|tauto| |done]. intros Hs Hd. split; [by right|tauto].
Qed.

(** Reviewing and replanning. *)
Lemma move_planning a d s d' s' :
  dinv d s → drive a d s = Some (d', s') →
  match d_pc d with DReview | DReject _ | DReplan _ | DReplanWith _ _ => True | _ => False end →
  dinv d' s'.
Proof.
  intros HI Hm Hw. pose proof (v_at _ _ HI) as Hat. unfold at_pc in Hat.
  assert (fresh d → rejected d ∨ approved d) as Hfr by (intros [? _]; by left).
  pose proof (fresh_not_launched _ _ HI) as Hnl. unfold drive_step in Hm.
  destruct (d_pc d) eqn:Hpc, a; try discriminate Hm; try done.
  - injection Hm as <- <-. apply review_keeps; [done|by rewrite Hpc|tauto..].
  - by_call HI Hpc Hm. split; [tauto|]. intros HL. destruct (calm s s'); [|done|naive_solver|done]. tauto.
  - destruct (replanPolishedPlan _ _ _ _ _).1 as [[pl ns]|e]; injection Hm as <- <-.
    + by_place HI Hpc. tauto.
    + apply fail_keeps; [done|by rewrite Hpc|tauto].
  - by_call HI Hpc Hm. split; [unfold polishing; tauto|]. intros HL.
    destruct (calm s s'); [|done|naive_solver|done]. tauto.
Qed.

(** From the approval to the end. *)
Lemma move_executing a d s d' s' :
  dinv d s → a ≠ AClosed → drive a d s = Some (d', s') →
  match d_pc d with
  | DSubscribeEngine | DPlan | DAccept _ | DLaunching | DNextNote | DComplete | DWaitEngine _
  | DFailed _ | DAbort _ | DEnd => True
  | _ => False
  end → dinv d' s' ∨ over d' s'.
Proof.
  intros HI Ha Hm Hw. pose proof (v_at _ _ HI) as Hat. unfold at_pc in Hat. unfold drive_step in Hm.
  destruct (d_pc d) as [| | | | | | | | | | | | | | | | | | |[]| | |] eqn:Hpc, a;
    try discriminate Hm; try done; try (injection Hm as <- <-).
  - left. by_place HI Hpc. destruct Hat as (H1 & H2 & H3). rewrite H3, drop_nil, take_nil. tauto.
  - left. apply fail_keeps; [done|by rewrite Hpc|tauto].
  - left. by_place HI Hpc. tauto.
  - left. destruct Hat as (_ & Happ & Hn & Hsub). by_call HI Hpc Hm.
    split; [|done]. split; [left; naive_solver|]. split; [done|]. exists []. split; [done|].
    intros Hne. by destruct Hne.
  - left. destruct (launched_out s); [|done]. destruct (r_startErr s); injection Hm as <- <-.
    + apply fail_keeps; [done|by rewrite Hpc|tauto].
    + by_place HI Hpc. tauto.
  - left. destruct Hat as (H1 & H2 & u & Hu & _). rewrite Hu in Hm. destruct u as [|n u]; [done|].
    injection Hm as <- <-. by destruct n; by_place HI Hpc.
  - left. apply fail_keeps; [done|by rewrite Hpc|tauto].
  - left. destruct Hat as [H1 H2]. by_call HI Hpc Hm. split; [|done]. split; [left; naive_solver|done].
  - left. destruct (waited DEnd d s) as [d1|] eqn:E; [|done]. injection Hm as <- <-.
    eapply waited_keeps; [done|by rewrite Hpc|tauto| |done]. intros _ Hd. split; [done|right; exact (proj2 Hat)].
  - left. apply fail_keeps; [done|by rewrite Hpc|tauto].
  - left. destruct (waited DEnd d s) as [d1|] eqn:E; [|done]. injection Hm as <- <-.
    eapply waited_keeps; [done|by rewrite Hpc|tauto| |done]. intros _ Hd. split; [done|right; exact (proj2 Hat)].
  - left. destruct (r_done s) eqn:Hd; by_place HI Hpc; tauto.
  - right. split_and!; [done..|]. pose proof (v_on _ _ HI) as Hon. rewrite Hpc in Hon.
    specialize (Hon ltac:(done)). by destruct s.
Qed.

(** ** Runs with one driver and no other caller

    Anything else may interleave: the threads of the runner, its observer, what
    the engine publishes, repeated calls of [StartManaged], and answers of every
    kind but the closing of the stream. *)
Definition alone (l : dlabel) : bool :=
  match l with
  | DOther (LOp (OpStartManaged None)) => true
  | DOther (LOp _) | DOther LObserverCancel | DMove AClosed => false
  | _ => true
  end.

Abbreviation dsteps := (dstep id unicode_alnum retry_prompt explain planNodeBuilder).

Inductive driven : driver → runner → Prop :=
| driven_new : driven driver0 (New id plan nodes)
| driven_step d s l d' s' :
    driven d s → alone l = true → dsteps l d s = Some (d', s') → driven d' s'.

Lemma looping_launched d s : dinv d s → looping s = true → r_phase s = PhaseExecuting ∨ r_phase s = PhaseReport.
Proof.
  intros HI (t & Ht & E)%existsb_exists.
  destruct (quiet_patient_sub _ _ _ _ _ (v_runs _ _ HI)) as [Hq _].
  apply (engine_phase s t); [done|by apply list_elem_of_In|by destruct t].
Qed.

Lemma says_keeps n d s : dinv d s → looping s = true → dinv (publish_note n d) s.
Proof.
  intros HI Hl. pose proof (looping_launched _ _ HI Hl) as Hp.
  assert (launched s) as HL by (unfold launched; tauto).
  pose proof (λ H, fresh_not_launched _ _ HI H HL) as Hnf.
  pose proof (v_launched _ _ HI HL) as Happ.
  assert (reviewable s → False) as Hnr by (unfold reviewable; intuition congruence).
  split; [apply HI|apply HI| |by intros _|apply HI].
  pose proof (v_at _ _ HI) as Hat. unfold at_pc in *. cbn [publish_note d_pc].
  destruct (d_pc d); try (exfalso; tauto); try exact Hat.
  all: destruct Hat as (H1 & H2 & u & Hu & _); split; [done|]; split; [done|]; unfold kept_notes; cbn;
    rewrite Hu; eexists; split; [done|]; intros _; apply hand_over_some; unfold engineBuffer; lia.
Qed.

Lemma managed_keeps d s d' s' :
  dinv d s → dsteps (DOther (LOp (OpStartManaged None))) d s = Some (d', s') → dinv d' s'.
Proof.
  intros HI. cbn [dstep]. destruct (StartManaged None s) as [s1 err] eqn:E. intros [= <- <-].
  assert (reaches (λ l, quiet_label l && patient l) s1) as Hr.
  { apply (runs_step _ _ _ _ s (LOp (OpStartManaged None))); [apply HI|done|]. cbn [do_label do_op]. by rewrite E. }
  unfold StartManaged in E. destruct (r_managed s) eqn:Hm; injection E as <- <-; [done|].
  assert (d_pc d = DOff) as Hoff.
  { destruct (d_pc d) eqn:Hpc; [done|..]; exfalso; rewrite (v_on _ _ HI) in Hm by congruence; done. }
  pose proof (v_at _ _ HI) as Hat. unfold at_pc in Hat. rewrite Hoff in Hat. destruct Hat as [Hph Hf].
  pose proof (fresh_not_launched _ _ HI Hf) as Hnl.
  destruct (r_plan s); [rewrite bool_decide_eq_true_2 in * by done|];
    (split; [exact Hr|by destruct s| |intros HL; destruct Hnl; by destruct s|apply HI]).
  - destruct s. by split.
  - unfold at_pc. rewrite Hoff. destruct s. by split.
Qed.

Lemma hear_over d s s' :
  d_aborted d = true → d_pc d = DEnd → r_managed s' = true → over (hear s s' d) s'.
Proof. destruct (hear_keeps s s' d) as (E1 & _ & _ & E4 & _). intros. unfold over. by rewrite E1, E4. Qed.

Lemma over_keeps l d s d' s' :
  over d s → alone l = true → dsteps l d s = Some (d', s') → over d' s'.
Proof.
  intros (Ha & Hpc & Hm) Hl. destruct l as [[o|i a| |]|n|a]; cbn [dstep do_label].
  - destruct o as [| | | | | |[]|]; try done. unfold StartManaged. rewrite Hm. by intros [= <- <-].
  - destruct (r_threads s !! i) as [t|]; [|done]. cbn [mbind option_bind].
    destruct (answer_ok a s); [|done].
    destruct (thread_step t a s) as [[s1 new]|] eqn:E; [|done]. cbn [mbind option_bind]. intros [= <- <-].
    apply thread_keeps in E as [E _]. apply hear_over; [done..|]. rewrite <-Hm, <-E. by destruct s1.
  - unfold observer_step. destruct (r_observer s), (r_unread s); try done; cbn; intros [= <- <-];
      (apply hear_over; [done..|]; destruct (bool_decide _); by destruct s).
  - done.
  - destruct (looping s); [|done]. by intros [= <- <-].
  - unfold drive_step. by rewrite Hpc.
Qed.

Lemma driven_inv d s : driven d s → dinv d s ∨ over d s.
Proof.
  induction 1 as [|d s l d' s' _ [HI|HO] Hl Hs]; [left|..].
  - split; [constructor|done| |by intros [?|[?|?]]|done]. split; [done|]. split; [by exists 0%nat|done].
  - destruct l as [l|n|a].
    + left. destruct l as [o|i a| |]; [|cbn [dstep] in Hs..|done].
      * destruct o as [| | | | | |[]|]; try done. by eapply managed_keeps.
      * destruct (do_label id (LThread i a) s) as [s1|] eqn:E; [|done]. injection Hs as <- <-.
        by apply (other_keeps (LThread i a) d s s1).
      * destruct (do_label id LObserve s) as [s1|] eqn:E; [|done]. injection Hs as <- <-.
        by apply (other_keeps LObserve d s s1).
    + left. cbn in Hs. destruct (looping s) eqn:E; [|done]. injection Hs as <- <-. by apply says_keeps.
    + cbn [dstep] in Hs. assert (a ≠ AClosed) as Ha by by intros ->.
      destruct (d_pc d) eqn:Hpc; try (left; eapply move_waiting; [done..|by rewrite Hpc]);
        try (left; eapply move_planning; [done..|by rewrite Hpc]);
        try (eapply move_executing; [done..|by rewrite Hpc]).
      unfold drive_step in Hs. by rewrite Hpc in Hs.
  - right. by eapply over_keeps.
Qed.

(** ** The promises *)

Lemma reviews_shape d s : dinv d s → rejected d ∨ approved d.
Proof.
  intros HI. pose proof (v_at _ _ HI) as H. unfold at_pc, fresh in H. destruct (d_pc d); tauto.
Qed.

(** Calls of [Complete] hold nobody up. *)
Lemma completers_idle s : Forall completer (r_threads s) →
  weight polisher (r_threads s) = 0%nat ∧ weight enginer (r_threads s) = 0%nat ∧ launched_out s = true.
Proof.
  unfold launched_out. induction 1 as [|t ths Ht _ (IH1 & IH2 & IH3)]; [done|]. rewrite !weight_cons, IH1, IH2.
  cbn [forallb]. rewrite IH3. by destruct t.
Qed.

(** What the phase is when nothing of the runner is running. *)
Lemma idle_phase s :
  reaches quiet_label s → Forall completer (r_threads s) →
  r_phase s ≠ PhasePolishing ∧ r_phase s ≠ PhaseExecuting ∧ r_phase s ≠ PhaseReport.
Proof.
  intros HQ%runs_qinv Ht. destruct (q_counts _ _ HQ) as (P & E & _).
  destruct (completers_idle _ Ht) as (P0 & E0 & _). rewrite P0 in P. rewrite E0 in E.
  unfold at_phase in *. cbn in P, E. destruct (r_phase s); phases; cbn in *; split_and!; (done || lia).
Qed.

(** An answer that is not a failure. *)
Definition willing (a : danswer) : bool := match a with AFails _ | AClosed => false | _ => true end.
Definition goes (d : driver) (s : runner) : Prop := ∃ a, willing a = true ∧ is_Some (drive a d s).

Lemma waiting_goes d s :
  dinv d s → Forall completer (r_threads s) → r_phase s = PhaseSettled →
  (∀ s', r_done s' = true → goes d s') →
  ∃ s', (s' = s ∨ do_label id LObserve s = Some s') ∧ goes d s'.
Proof.
  intros HI Ht Hp Hgo. destruct (quiet_patient_sub _ _ _ _ _ (v_runs _ _ HI)) as [_ Hpat].
  destruct (settled_observed _ _ _ _ Hpat Hp Ht) as (s' & Hs & Hd & _). exists s'. auto.
Qed.

Lemma wait_goes d s next : r_done s = true → is_Some (waited next d s).
Proof. intros Hd. unfold waited, Wait. rewrite Hd. destruct (r_engineErr s); by eexists. Qed.

Lemma never_stuck d s :
  dinv d s → Forall completer (r_threads s) → d_pc d ≠ DOff → d_pc d ≠ DEnd →
  (d_pc d = DNextNote → d_notes d ≠ []) →
  ∃ s', (s' = s ∨ do_label id LObserve s = Some s') ∧ goes d s'.
Proof.
  intros HI Ht Hoff Hend Hnote. pose proof (v_at _ _ HI) as Hat. unfold at_pc in Hat.
  destruct (quiet_patient_sub _ _ _ _ _ (v_runs _ _ HI)) as [Hq _].
  destruct (idle_phase _ Hq Ht) as (Np & Ne & Nr).
  assert (∀ a, willing a = true → is_Some (drive a d s) →
    ∃ s', (s' = s ∨ do_label id LObserve s = Some s') ∧ goes d s') as Hnow.
  { intros a Ha Hgo. exists s. split; [by left|by exists a]. }
  assert (∀ next (P : ∀ s, drive AGo d s = d' ← waited next d s; Some (d', s)), r_phase s = PhaseSettled →
    ∃ s', (s' = s ∨ do_label id LObserve s = Some s') ∧ goes d s') as Hwait.
  { intros next P Hp. apply waiting_goes; [done..|]. intros s' Hd. exists AGo. split; [done|]. rewrite P.
    destruct (wait_goes d s' next Hd) as [d' ->]. by eexists. }
  destruct (d_pc d) eqn:Hpc; try done;
    try (by apply (Hnow AGo); [|unfold drive_step; rewrite Hpc; eexists]);
    try (by apply (Hnow (AAgents None)); [|unfold drive_step; rewrite Hpc; eexists]);
    try (by apply (Hnow (ASubscribed 0)); [|unfold drive_step; rewrite Hpc; eexists]);
    try (by apply (Hnow (AReplies None (Ok []))); [|unfold drive_step; rewrite Hpc; eexists]).
  - destruct Hat as (_ & _ & u & Hu & _ & Hrung). specialize (Hrung Np). pose proof (completers_silent _ Ht) as Hw0.
    destruct u as [|p u]; [destruct Hrung as [Hn|Hn]; [done|lia]|].
    apply (Hnow AGo); [done|]. unfold drive_step. rewrite Hpc, Hu. by eexists.
  - apply (Hwait DReview); [|tauto]. intros s'. unfold drive_step. by rewrite Hpc.
  - apply (Hnow AGo); [done|]. unfold drive_step. rewrite Hpc. destruct (completers_idle _ Ht) as (_ & _ & ->). by eexists.
  - destruct Hat as (_ & _ & u & Hu & Hkeep). specialize (Hkeep (Hnote eq_refl)).
    destruct u as [|n u]; [done|]. apply (Hnow AGo); [done|]. unfold drive_step. rewrite Hpc, Hu. by eexists.
  - apply (Hwait DEnd); [|unfold executing in Hat; tauto]. intros s'. unfold drive_step. rewrite Hpc.
    by destruct under_ctx.
Qed.

(** What the runner is like when the driver is about to call it. *)
Definition protocol (d : driver) (s : runner) : Prop :=
  match d_pc d with
  | DStart => r_phase s = PhaseCreated
  | DReview | DReject _ | DAccept _ => reviewable s
  | DReplan _ | DReplanWith _ _ => r_phase s = PhaseAwaitingReplan
  | DComplete => executing s
  | DEnd => r_done s = true
  | _ => True
  end.

End Steps.

(** ** Instances *)

Section Instances.
Let nobody : bytes → bool := λ _, false.
Let retry : parse_err → bytes := λ _, s2b "again".
Let no_luck : exchange_err → error := λ _, plain_error (s2b "planner").
Let builder : option (CoarsePlan → res bytes (list (bytes * Node))) := Some (λ _, Ok a_nodes).

Lemma driven_run ls d s d' s' :
  driven (s2b "r") (Some a_plan) a_nodes nobody retry no_luck builder d s →
  forallb alone ls = true →
  run_driver (s2b "r") nobody retry no_luck builder ls d s = Some (d', s') →
  driven (s2b "r") (Some a_plan) a_nodes nobody retry no_luck builder d' s'.
Proof.
  revert d s. induction ls as [|l ls IH]; intros d s Hd Hok Hr; cbn in *; [by simplify_eq|].
  apply andb_prop in Hok as [H1 H2]. destruct (dstep _ _ _ _ _ l d s) as [[d1 s1]|] eqn:E; [|done].
  apply (IH d1 s1); [|done|done]. by eapply driven_step.
Qed.

Definition drive_to (ls : list dlabel) : option (driver * runner) :=
  run_driver (s2b "r") nobody retry no_luck builder ls driver0 the_runner.
Definition after_run (ls : list dlabel) : driver * runner := default (driver0, the_runner) (drive_to ls).
Lemma driven_to ls :
  forallb alone ls = true → bool_decide (is_Some (drive_to ls)) = true →
  driven (s2b "r") (Some a_plan) a_nodes nobody retry no_luck builder (after_run ls).1 (after_run ls).2.
Proof.
  intros H1 H2. unfold after_run. apply bool_decide_eq_true in H2 as [[d s] E].
  rewrite E. eapply driven_run; [apply driven_new|done|exact E].
Qed.

Let says (v : json) : danswer := AReplies (Some (λ _ _, Ok (print v))) (Ok (s2b "prompt")).
Definition ruling (b : bool) : json := review_json (mkRResp (Some b) (if b then [] else s2b "too vague") None).
Let step0 : dlabel := DOther (LThread 0 ANothing).
Let polished : dlabel := DOther (LThread 0 (APolish [(s2b "a", PolishOk ANull)])).

(** The planner rejects the first plan, which arrives as an event, and approves
    the second, which the first look finds polished. *)
Definition to_approval : list dlabel :=
  [DOther (LOp (OpStartManaged None)); DMove (AAgents None); DMove AGo; DMove (ASubscribed 0); DMove AGo;
   step0; step0; polished; step0; step0; step0; DMove AGo; DMove AGo; DMove (says (ruling false));
   DMove AGo; DMove (says (JObj [field "plan" (plan_json a_plan)])); DMove (AAgents None);
   step0; step0; step0; step0; step0; step0; polished; step0; step0; step0; DMove AGo;
   DMove (says (ruling true))].
Definition to_engine : list dlabel :=
  to_approval ++
  [DMove (ASubscribed 0); DMove AGo; DMove (AAgents None); step0; DOther (LThread 1 (ALaunched None));
   DMove AGo; step0; step0; step0].
Definition to_settled : list dlabel :=
  to_engine ++
  [DSays NIdle; DMove AGo; DMove AGo; DOther (LThread 1 ANothing); DOther (LThread 1 ANothing);
   DOther (LThread 0 (AEngineState RsCanceled (s2b "context canceled") true));
   DOther (LThread 0 (AEngineEnd (Some ctx_canceled)))] ++ (DOther <$> settle_labels).


(** The engine fails before its loop, as when the workspace cannot be provisioned
    or the first record cannot be stored: the runner settles, Done is closed, and
    the driver waits for an event that nobody will publish. *)
Definition start_fails : list dlabel :=
  to_engine ++
  [DOther (LThread 0 (AEngineState RsFailed (s2b "no workspace") true));
   DOther (LThread 0 (AEngineEnd (Some (plain_error (s2b "no workspace")))));
   step0; step0; step0; step0; step0; step0; DOther LObserve].
Lemma start_failure_strands_driver :
  match drive_to start_fails with
  | Some (d, s) =>
      d_pc d = DNextNote ∧ r_phase s = PhaseSettled ∧ r_done s = true ∧ r_threads s = [] ∧
      drive_step (s2b "r") nobody retry no_luck builder AGo d s = None
  | None => False
  end.
Proof. by vm_compute. Qed.
End Instances.
