(* ===== verification/Queue.v ===== *)
(** The execution queue of the orchestrator ([orchestrator/queue.go], and
    [RemoveRunner], [StartRunner] and [watchRunnerDone] of
    [orchestrator/orchestrator.go]): slots, the priority queue of runners that
    wait for one, and the goroutines that start, watch, cancel and release them.
    Every section under [o.mu], and every call of a runner, is one step; the
    steps of the goroutines interleave freely.

    A [*queuedRunner] is a position in the list of all entries, because the
    heap, the index by id and the watchers share it. A context is a number; the
    contexts that are done are part of the state. *)
From S2P Require Import Prelude GoText Heap Engine Lifecycle.

(** ** What the queue needs of a runner *)

Class ManagedRunner (R : Type) := {
  mr_StartManaged : option error → R → R * option error;
  mr_Abort : option error → R → R;
  mr_status : R → RunnerStatus;
  mr_removable : R → bool;
  mr_done : R → bool;                    (* [Done] is closed *)
  mr_new : R → Prop;                     (* as [newRunnerFromPlan] makes it *)
  mr_step : R → R → Prop }.              (* a step of its own goroutines and other callers *)

(** ** Data *)

Record queuedRunner := mkEntry {
  qe_id : bytes;                         (* runner.ID() *)
  qe_ctx : nat;
  qe_priority : Z;
  qe_order : Z;
  qe_canceled : bool;
  qe_done : bool }.                      (* done is closed *)
Definition zero_entry : queuedRunner := mkEntry [] 0 0 0 false false.

(** The program points of the goroutines. *)
Inductive action :=
| ASubmit (id : bytes) (ctx : nat) (priority : Z)    (* submitManagedRunner *)
| ABegin (id : bytes)                    (* startManagedRunner's first locked section *)
| AManage (id : bytes) (ctx : nat) (watch : bool)    (* runner.StartManaged; then watch the runner *)
| AFailed (id : bytes) (e : error)       (* its locked section after a failure *)
| AAbortPending (id : bytes) (e : error)
| AAbort (id : bytes) (e : error)        (* runner.Abort *)
| AWatch (entry : nat)                   (* watchQueuedRunner *)
| ARemove (entry : nat)                  (* cancelQueuedRunner *)
| ADone (id : bytes).                    (* watchRunnerDone *)

Section Queue.
Context {R : Type} {mr : ManagedRunner R}.

Record orch := mkOrch {
  o_max : Z;                             (* maxRunningRunners *)
  o_objects : gmap bytes R;              (* every runner, by id *)
  o_runners : gset bytes;                (* the keys of runners *)
  o_running : gset bytes;                (* runningRunnerIDs *)
  o_byID : gmap bytes nat;               (* queuedRunnerByID *)
  o_queue : list nat;                    (* queuedRunners *)
  o_entries : list queuedRunner;
  o_nextOrder : Z;                       (* nextQueueOrder, a uint64 *)
  o_dead : gset nat;
  o_started : gset bytes;                (* StartManaged returned nil; seen by nothing *)
  o_threads : list (list action) }.

Implicit Types s : orch.

(** What [ctx.Err] gives once the context is done. *)
Context (ctx_error : nat → error).
Definition ctx_Err (dead : gset nat) (ctx : nat) : option error :=
  if bool_decide (ctx ∈ dead) then Some (ctx_error ctx) else None.

(** Field updates. *)
Definition set_running (running : gset bytes) s : orch :=
  let '(mkOrch a b c _ e f g h i j k) := s in mkOrch a b c running e f g h i j k.
Definition set_object (id : bytes) (r : R) s : orch :=
  let '(mkOrch a b c d e f g h i j k) := s in mkOrch a (<[id := r]> b) c d e f g h i j k.
Definition set_queue (byID : gmap bytes nat) (queue : list nat) (es : list queuedRunner) s : orch :=
  let '(mkOrch a b c d _ _ _ h i j k) := s in mkOrch a b c d byID queue es h i j k.
Definition put_threads (ts : list (list action)) s : orch :=
  let '(mkOrch a b c d e f g h i j _) := s in mkOrch a b c d e f g h i j ts.
Definition add_started (id : bytes) s : orch :=
  let '(mkOrch a b c d e f g h i j k) := s in mkOrch a b c d e f g h i ({[ id ]} ∪ j) k.

Definition entry_at (es : list queuedRunner) (e : nat) : queuedRunner := default zero_entry (es !! e).

(** ** The heap *)

Definition entry_less (a b : queuedRunner) : bool :=
  if qe_priority a =? qe_priority b then qe_order a <? qe_order b
  else qe_priority b <? qe_priority a.
Definition Less (es : list queuedRunner) (a b : nat) : bool := entry_less (entry_at es a) (entry_at es b).

(** [deactivate], and with a cancellation. *)
Definition deactivate (q : queuedRunner) : queuedRunner :=
  mkEntry (qe_id q) (qe_ctx q) (qe_priority q) (qe_order q) (qe_canceled q) true.
Definition cancel (q : queuedRunner) : queuedRunner :=
  mkEntry (qe_id q) (qe_ctx q) (qe_priority q) (qe_order q) true (qe_done q).

Fixpoint pop_live (fuel : nat) (es : list queuedRunner) (queue : list nat) : option nat * list nat :=
  match fuel with
  | O => (None, queue)
  | S fuel =>
      match heap_pop (Less es) queue with
      | None => (None, queue)
      | Some (e, queue) =>
          if qe_canceled (entry_at es e) then pop_live fuel es queue else (Some e, queue)
      end
  end.

Definition popQueuedRunnerLocked s : option nat * orch :=
  let '(e, queue) := pop_live (List.length (o_queue s)) (o_entries s) (o_queue s) in
  (e, set_queue (o_byID s) queue (o_entries s) s).

(** ** Dispatching *)

Definition has_slot s : bool :=
  (o_max s =? 0) || (Z.of_nat (size (o_running s)) <? o_max s).

Fixpoint collect_starts (fuel : nat) s (toStart toCancel : list nat) : list nat * list nat * orch :=
  match fuel with
  | O => (toStart, toCancel, s)
  | S fuel =>
      if has_slot s then
        match popQueuedRunnerLocked s with
        | (None, s) => (toStart, toCancel, s)
        | (Some e, s) =>
            let q := entry_at (o_entries s) e in
            let s := set_queue (delete (qe_id q) (o_byID s)) (o_queue s)
                       (alter deactivate e (o_entries s)) s in
            if qe_canceled q then collect_starts fuel s toStart toCancel
            else if ctx_Err (o_dead s) (qe_ctx q) then
              collect_starts fuel
                (set_queue (o_byID s) (o_queue s) (alter cancel e (o_entries s)) s)
                toStart (toCancel ++ [e])
            else
              let s := if 0 <? o_max s then set_running ({[ qe_id q ]} ∪ o_running s) s else s in
              collect_starts fuel s (toStart ++ [e]) toCancel
        end
      else (toStart, toCancel, s)
  end.

Definition collectQueuedStartsLocked s : list nat * list nat * orch :=
  collect_starts (S (List.length (o_queue s))) s [] [].

(** [startManagedRunner], and [finishQueuedDispatch] of what was collected. *)
Definition startManagedRunner (id : bytes) (ctx : nat) (watch : bool) : list action :=
  [ABegin id; AManage id ctx watch].
Definition finishQueuedDispatch (es : list queuedRunner) (toStart toCancel : list nat) : list action :=
  ((λ e, AAbort (qe_id (entry_at es e)) (ctx_error (qe_ctx (entry_at es e)))) <$> toCancel) ++
  mjoin ((λ e, startManagedRunner (qe_id (entry_at es e)) (qe_ctx (entry_at es e)) false) <$> toStart).
Definition collect_dispatch s : orch * list action :=
  let '(toStart, toCancel, s) := collectQueuedStartsLocked s in
  (s, finishQueuedDispatch (o_entries s) toStart toCancel).

(** Take an entry out of the index; the heap still has it. *)
Definition drop_entry (id : bytes) (e : nat) s : orch :=
  set_queue (delete id (o_byID s)) (o_queue s)
    (alter (λ q, deactivate (cancel q)) e (o_entries s)) s.

Definition releaseRunnerExecutionSlot (id : bytes) s : orch * list action :=
  collect_dispatch (set_running (o_running s ∖ {[ id ]}) s).

Definition removeQueuedRunner (e : nat) s : orch * list action :=
  let id := qe_id (entry_at (o_entries s) e) in
  if bool_decide (o_byID s !! id = Some e) then collect_dispatch (drop_entry id e s) else (s, []).

(** The queueing branch of [submitManagedRunner]. *)
Definition enqueue_runner (id : bytes) (ctx : nat) (priority : Z) s : orch :=
  let '(mkOrch a b c d byID queue es order i j k) := s in
  let es' := es ++ [mkEntry id ctx priority order false false] in
  mkOrch a b c d (<[id := List.length es]> byID) (heap_push (Less es') (List.length es) queue) es'
    (u64 (order + 1)) i j k.

(** ** Steps *)

(** One action: the state, what the goroutine goes on with, and the goroutines
    it starts. [done_first] is the choice of a [select] with both cases ready;
    [None] is an action that waits. *)
Definition do_action (done_first : bool) (a : action) s : option (orch * list action * list (list action)) :=
  match a with
  | ASubmit id ctx priority =>
      match ctx_Err (o_dead s) ctx with
      | Some e => Some (s, [AAbort id e], [])
      | None =>
          if has_slot s then
            Some (if 0 <? o_max s then set_running ({[ id ]} ∪ o_running s) s else s,
                  startManagedRunner id ctx true, [])
          else Some (enqueue_runner id ctx priority s, [ADone id], [[AWatch (List.length (o_entries s))]])
      end
  | ABegin id =>
      Some (match o_byID s !! id with Some e => drop_entry id e s | None => s end, [], [])
  | AManage id ctx watch =>
      r ← o_objects s !! id;
      let '(r, err) := mr_StartManaged (ctx_Err (o_dead s) ctx) r in
      let s := set_object id r s in
      match err with
      | Some e => Some (s, [AFailed id e], [])
      | None => Some (add_started id s, [], if watch then [[ADone id]] else [])
      end
  | AFailed id e =>
      let '(s, dispatch) := releaseRunnerExecutionSlot id s in
      Some (s, AAbortPending id e :: dispatch, [])
  | AAbortPending id e =>
      r ← o_objects s !! id;
      Some (if bool_decide (mr_status r = RsPending) then set_object id (mr_Abort (Some e) r) s else s, [], [])
  | AAbort id e =>
      r ← o_objects s !! id;
      Some (set_object id (mr_Abort (Some e) r) s, [], [])
  | AWatch entry =>
      let q := entry_at (o_entries s) entry in
      match qe_done q, ctx_Err (o_dead s) (qe_ctx q) with
      | true, None => Some (s, [], [])
      | true, Some _ => Some (s, if done_first then [] else [ARemove entry], [])
      | false, Some _ => Some (s, [ARemove entry], [])
      | false, None => None
      end
  | ARemove entry =>
      let q := entry_at (o_entries s) entry in
      let '(s, dispatch) := removeQueuedRunner entry s in
      Some (s, AAbort (qe_id q) (ctx_error (qe_ctx q)) :: dispatch, [])
  | ADone id =>
      r ← o_objects s !! id;
      if mr_done r then
        let '(s, dispatch) := releaseRunnerExecutionSlot id s in Some (s, dispatch, [])
      else None
  end.

(** The locked part of [RemoveRunner], after the log has been deleted. *)
Inductive remove_err := ErrRunnerNotFound | ErrRunnerActive.
Definition RemoveRunner (id : bytes) s : orch * option remove_err * list action :=
  match o_objects s !! id with
  | Some r =>
      if bool_decide (id ∈ o_runners s) then
        if negb (mr_removable r) then (s, Some ErrRunnerActive, [])
        else
          let s := match o_byID s !! id with Some e => drop_entry id e s | None => s end in
          let '(mkOrch a b c d e f g h i j k) := s in
          let '(s, dispatch) := collect_dispatch (mkOrch a b (c ∖ {[ id ]}) d e f g h i j k) in
          (s, None, dispatch)
      else (s, Some ErrRunnerNotFound, [])
  | None => (s, Some ErrRunnerNotFound, [])
  end.

(** A new runner registered by [materializeRequest] and handed to
    [submitManagedRunner], a step of the [i]-th goroutine, a call of
    [RemoveRunner] or [StartRunner], contexts that end, and a step of a runner. *)
Inductive olabel :=
| LSubmit (id : bytes) (ctx : nat) (priority : Z) (r : R)
| LGo (i : nat) (done_first : bool)
| LRemoveRunner (id : bytes)
| LStartRunner (id : bytes) (ctx : nat)
| LCancel (ctxs : gset nat)
| LRunner (id : bytes) (r : R).

Definition do_olabel (l : olabel) s : option orch :=
  match l with
  | LSubmit id ctx priority r =>
      if bool_decide (o_objects s !! id = None) && (0 <=? priority) && (priority <=? 4) then
        let '(mkOrch a b c d e f g h i j k) := s in
        Some (mkOrch a (<[id := r]> b) ({[ id ]} ∪ c) d e f g h i j (k ++ [[ASubmit id ctx priority]]))
      else None
  | LGo i done_first =>
      t ← o_threads s !! i;
      match t with
      | [] => None
      | a :: rest =>
          '(s, next, new) ← do_action done_first a s;
          Some (put_threads (<[i := next ++ rest]> (o_threads s) ++ new) s)
      end
  | LRemoveRunner id =>
      let '(s, _, dispatch) := RemoveRunner id s in Some (put_threads (o_threads s ++ [dispatch]) s)
  | LStartRunner id ctx =>
      if bool_decide (id ∈ o_runners s) then
        Some (put_threads (o_threads s ++ [startManagedRunner id ctx false]) s)
      else Some s
  | LCancel ctxs =>
      let '(mkOrch a b c d e f g h i j k) := s in Some (mkOrch a b c d e f g h (ctxs ∪ i) j k)
  | LRunner id r => Some (set_object id r s)
  end.

(** A runner only takes steps of its own. *)
Definition label_ok (l : olabel) s : Prop :=
  match l with
  | LSubmit _ _ _ r => mr_new r
  | LRunner id r' => ∃ r, o_objects s !! id = Some r ∧ mr_step r r'
  | _ => True
  end.

Definition new_orch (max : Z) : orch := mkOrch max ∅ ∅ ∅ ∅ [] [] 0 ∅ ∅ [].

(** States reached by labels that satisfy [ok]. *)
Inductive oruns (ok : olabel → bool) (max : Z) : orch → Prop :=
| oruns_new : oruns ok max (new_orch max)
| oruns_step s l s' :
    oruns ok max s → ok l = true → label_ok l s → do_olabel l s = Some s' → oruns ok max s'.

End Queue.
Arguments orch R : clear implicits.
Arguments olabel R : clear implicits.
