(* ===== verification/QueueFacts.v ===== *)
(** The execution queue serves runners by priority and age, never holds a slot
    back while a runner waits, and keeps the number of executing runners within
    the limit; stated over every interleaving of its goroutines. *)
From S2P Require Import Prelude GoText Heap Engine Lifecycle LifecycleFacts Queue.

Lemma size_minus (X : gset bytes) (x : bytes) : (size (X ∖ {[ x ]}) ≤ size X)%nat.
Proof. apply subseteq_size. set_solver. Qed.

(** ** The order of the entries *)

Lemma entry_less_asym a b : entry_less a b = true → entry_less b a = false.
Proof.
  unfold entry_less. destruct (Z.eqb_spec (qe_priority a) (qe_priority b)), (Z.eqb_spec (qe_priority b) (qe_priority a));
    intros H; apply Z.ltb_lt in H; apply Z.ltb_ge; lia.
Qed.

Lemma entry_le_trans a b c :
  entry_less b a = false → entry_less c b = false → entry_less c a = false.
Proof.
  unfold entry_less. destruct (Z.eqb_spec (qe_priority b) (qe_priority a)),
    (Z.eqb_spec (qe_priority c) (qe_priority b)), (Z.eqb_spec (qe_priority c) (qe_priority a));
    rewrite !Z.ltb_ge; lia.
Qed.

Lemma Less_asym es a b : Less es a b = true → Less es b a = false.
Proof. apply entry_less_asym. Qed.
Lemma Less_trans es a b c : le (Less es) a b → le (Less es) b c → le (Less es) a c.
Proof. unfold le, Less. apply entry_le_trans. Qed.

Lemma heap_less_ext {A} (less less' : A → A → bool) l :
  (∀ a b, a ∈ l → b ∈ l → less a b = less' a b) → heap less l → heap less' l.
Proof.
  intros H Hh p c Hc a b Ha Hb. unfold le. rewrite <-H; [by apply (Hh p c)|..]; by eapply list_elem_of_lookup_2.
Qed.

(** Updates that keep an entry's place in the order, and its runner. *)
Definition keeps (f : queuedRunner → queuedRunner) : Prop :=
  ∀ q, qe_id (f q) = qe_id q ∧ qe_ctx (f q) = qe_ctx q ∧ qe_priority (f q) = qe_priority q ∧
    qe_order (f q) = qe_order q.

Lemma entry_alter f es e e' :
  entry_at (alter f e es) e' = if decide (e = e' ∧ (e < List.length es)%nat) then f (entry_at es e') else entry_at es e'.
Proof.
  unfold entry_at. destruct (decide (e = e')) as [->|].
  - rewrite list_lookup_alter_eq. destruct (es !! e') as [q|] eqn:E.
    + rewrite decide_True; [done|]. split; [done|]. by apply lookup_lt_Some in E.
    + rewrite decide_False; [done|]. intros [_ H]. apply lookup_ge_None in E. lia.
  - rewrite list_lookup_alter_ne by done. rewrite decide_False; [done|]. by intros [? _].
Qed.

Lemma entry_keeps f es e e' : keeps f →
  qe_id (entry_at (alter f e es) e') = qe_id (entry_at es e') ∧
  qe_ctx (entry_at (alter f e es) e') = qe_ctx (entry_at es e') ∧
  qe_priority (entry_at (alter f e es) e') = qe_priority (entry_at es e') ∧
  qe_order (entry_at (alter f e es) e') = qe_order (entry_at es e').
Proof. intros Hf. rewrite entry_alter. by destruct (decide _). Qed.

Lemma Less_alter f es e a b : keeps f → Less (alter f e es) a b = Less es a b.
Proof.
  intros Hf. unfold Less, entry_less.
  destruct (entry_keeps f es e a Hf) as (_ & _ & -> & ->).
  by destruct (entry_keeps f es e b Hf) as (_ & _ & -> & ->).
Qed.

Lemma heap_alter f es e l : keeps f → heap (Less es) l → heap (Less (alter f e es)) l.
Proof. intros Hf. apply heap_less_ext. intros a b _ _. by rewrite Less_alter. Qed.

Lemma entry_app es q e : (e < List.length es)%nat → entry_at (es ++ [q]) e = entry_at es e.
Proof. intros He. unfold entry_at. by rewrite lookup_app_l. Qed.

(** ** The heap against the index *)

Definition live (es : list queuedRunner) (e : nat) : Prop := qe_canceled (entry_at es e) = false.

(** The index holds exactly the entries of the heap that are not canceled. *)
Record qcore (es : list queuedRunner) (queue : list nat) (byID : gmap bytes nat) : Prop := {
  qc_heap : heap (Less es) queue;
  qc_nodup : NoDup queue;
  qc_bound : ∀ e, e ∈ queue → (e < List.length es)%nat;
  qc_index : ∀ id e, byID !! id = Some e ↔ e ∈ queue ∧ live es e ∧ qe_id (entry_at es e) = id }.

Lemma pop_live_spec fuel es queue :
  heap (Less es) queue → (List.length queue ≤ fuel)%nat →
  let '(oe, queue') := pop_live fuel es queue in
  heap (Less es) queue' ∧ ∃ skipped, Forall (λ e, ¬ live es e) skipped ∧
    match oe with
    | Some e => queue ≡ₚ skipped ++ e :: queue' ∧ live es e ∧ ∀ e', e' ∈ queue → live es e' → le (Less es) e e'
    | None => queue' = [] ∧ queue ≡ₚ skipped
    end.
Proof.
  revert queue. induction fuel as [|fuel IH]; intros queue Hh Hf; cbn [pop_live].
  { destruct queue; [|simpl in Hf; lia]. split; [done|]. exists []. split; [constructor|done]. }
  pose proof (heap_pop_spec (Less es) (Less_asym es) (Less_trans es) queue Hh) as Hp.
  destruct (heap_pop (Less es) queue) as [[e q]|].
  2: { subst. split; [done|]. exists []. split; [constructor|done]. }
  destruct Hp as (Hperm & Hq & Hmin). destruct (qe_canceled (entry_at es e)) eqn:Ec.
  - specialize (IH q Hq). pose proof (Permutation_length Hperm) as Hlen. simpl in Hlen.
    specialize (IH ltac:(lia)). destruct (pop_live fuel es q) as [oe q'].
    destruct IH as (Hq' & sk & Hsk & H). split; [done|]. exists (e :: sk). split.
    { constructor; [|done]. unfold live. by rewrite Ec. }
    destruct oe as [e1|].
    + destruct H as (Hp1 & Hl & Hm). split_and!; [by rewrite Hperm, Hp1|done|].
      intros e' He' Hl'. apply Hm; [|done]. rewrite Hperm in He'. apply elem_of_cons in He' as [->|?]; [|done].
      unfold live in Hl'. congruence.
    + destruct H as [-> Hp1]. split; [done|]. by rewrite Hperm, Hp1.
  - split; [done|]. exists []. split; [constructor|]. split_and!; [done|done|]. intros e' He' _. by apply Hmin.
Qed.

Lemma keeps_deactivate : keeps deactivate. Proof. by intros q. Qed.
Lemma keeps_cancel : keeps cancel. Proof. by intros q. Qed.
Lemma keeps_both : keeps (λ q, deactivate (cancel q)). Proof. by intros q. Qed.

Lemma live_deactivate es e e' : live (alter deactivate e es) e' ↔ live es e'.
Proof. unfold live. rewrite entry_alter. by destruct (decide _). Qed.

(** What is popped leaves the index, the rest stays indexed. *)
Lemma qcore_pop es queue byID :
  qcore es queue byID →
  let '(oe, queue') := pop_live (List.length queue) es queue in
  match oe with
  | Some e =>
      qcore (alter deactivate e es) queue' (delete (qe_id (entry_at es e)) byID) ∧
      byID !! qe_id (entry_at es e) = Some e ∧ e ∉ queue' ∧ (List.length queue' < List.length queue)%nat ∧
      ∀ id e', byID !! id = Some e' → le (Less es) e e'
  | None => queue' = [] ∧ byID = ∅
  end.
Proof.
  intros [Hh Hn Hb Hi]. pose proof (pop_live_spec (List.length queue) es queue Hh ltac:(lia)) as H.
  destruct (pop_live _ es queue) as [oe queue']. destruct H as (Hh' & sk & Hsk & H).
  rewrite Forall_forall in Hsk. destruct oe as [e|].
  - destruct H as (Hp & Hl & Hm).
    assert (NoDup (sk ++ e :: queue')) as Hn' by by rewrite <-Hp.
    apply NoDup_app in Hn' as (_ & Hdis & [He Hn']%NoDup_cons).
    assert (e ∈ queue) as Hin by (rewrite Hp; apply elem_of_app; right; by left).
    split_and!; [|by apply Hi|done| |].
    + split; [by apply heap_alter; [apply keeps_deactivate|]|done| |].
      * intros e' He'. rewrite length_alter. apply Hb. rewrite Hp. apply elem_of_app. right. by right.
      * intros id e'. rewrite lookup_delete_Some, Hi, live_deactivate.
        destruct (entry_keeps deactivate es e e' keeps_deactivate) as (-> & _). split.
        -- intros (Hne & Hq & Hlive & Hid). split_and!; [|done|done].
           rewrite Hp in Hq. apply elem_of_app in Hq as [Hq|[->|Hq]%elem_of_cons]; [by destruct (Hsk e')|congruence|done].
        -- intros (Hq & Hlive & Hid). split_and!; [|rewrite Hp; apply elem_of_app; right; by right|done|done].
           intros E. assert (byID !! id = Some e') as H1.
           { apply Hi. split_and!; [rewrite Hp; apply elem_of_app; right; by right|done|done]. }
           assert (byID !! id = Some e) as H2 by (apply Hi; by split_and!). congruence.
    + pose proof (Permutation_length Hp) as Hlen. rewrite length_app in Hlen. simpl in Hlen. lia.
    + intros id e' He'. apply Hi in He' as (Hq & Hlive & _). by apply Hm.
  - destruct H as [-> Hp]. split; [done|]. apply map_eq. intros id. rewrite lookup_empty.
    destruct (byID !! id) as [e|] eqn:E; [|done]. apply Hi in E as (Hq & Hl & _). rewrite Hp in Hq.
    by destruct (Hsk e).
Qed.

Lemma qcore_cancel es queue byID e :
  qcore es queue byID → e ∉ queue → qcore (alter cancel e es) queue byID.
Proof.
  intros [Hh Hn Hb Hi] He. split; [by apply heap_alter; [apply keeps_cancel|]|done| |].
  - intros e' He'. rewrite length_alter. by apply Hb.
  - intros id e'. rewrite Hi. destruct (entry_keeps cancel es e e' keeps_cancel) as (-> & _).
    split; intros (Hq & Hl & Hid); (split_and!; [done| |done]); unfold live in *; revert Hl;
      rewrite entry_alter; (rewrite decide_False; [done|]); intros [-> _]; done.
Qed.

Lemma qcore_drop es queue byID id e :
  qcore es queue byID → byID !! id = Some e →
  qcore (alter (λ q, deactivate (cancel q)) e es) queue (delete id byID).
Proof.
  intros [Hh Hn Hb Hi] He. split; [by apply heap_alter; [apply keeps_both|]|done| |].
  - intros e' He'. rewrite length_alter. by apply Hb.
  - pose proof (proj1 (Hi id e) He) as (Hq & Hl & Hid).
    intros id' e'. rewrite lookup_delete_Some, Hi.
    destruct (entry_keeps _ es e e' keeps_both) as (-> & _).
    unfold live in *. rewrite entry_alter. split.
    + intros (Hne & Hq' & Hl' & Hid'). split_and!; [done| |done].
      rewrite decide_False; [done|]. intros [-> _]. congruence.
    + intros (Hq' & Hl' & Hid'). destruct (decide (e = e' ∧ (e < List.length es)%nat)) as [[-> _]|Hne]; [done|].
      split_and!; [|done|done|done]. intros <-. destruct Hne. split; [|by apply Hb].
      assert (byID !! id = Some e') by by apply Hi. congruence.
Qed.

Lemma qcore_push es queue byID q :
  qcore es queue byID → byID !! qe_id q = None → qe_canceled q = false →
  qcore (es ++ [q]) (heap_push (Less (es ++ [q])) (List.length es) queue)
    (<[qe_id q := List.length es]> byID).
Proof.
  intros [Hh Hn Hb Hi] Hid Hc. set (n := List.length es). set (es' := es ++ [q]).
  pose proof (heap_push_perm (Less es') n queue) as Hp.
  assert (n ∉ queue) as Hnew by (intros Hin; specialize (Hb _ Hin); unfold n in Hb; lia).
  assert (entry_at es' n = q) as Hq.
  { unfold entry_at, es', n. by rewrite lookup_app_r, Nat.sub_diag. }
  assert (∀ e, e ∈ queue → entry_at es' e = entry_at es e) as Hold by (intros e He; apply entry_app; by apply Hb).
  split.
  - apply heap_push_heap; [apply Less_asym|apply Less_trans|]. eapply heap_less_ext; [|exact Hh].
    intros a b Ha Hb'. unfold Less. by rewrite !Hold.
  - rewrite Hp. by apply NoDup_cons.
  - intros e. rewrite Hp. intros [->|He]%elem_of_cons; unfold es'; rewrite length_app; simpl; [unfold n; lia|].
    specialize (Hb _ He). lia.
  - intros id e. rewrite Hp, elem_of_cons, lookup_insert_Some. unfold live. split.
    + intros [[<- <-]|[Hne He]]; [rewrite Hq; auto|]. apply Hi in He as (Hin & Hl & Hide).
      rewrite Hold by done. auto.
    + intros ([->|Hin] & Hl & Hide); [left; by rewrite Hq in Hide|]. rewrite Hold in Hl, Hide by done. right.
      assert (byID !! id = Some e) as He by by apply Hi. split; [|done]. intros E. congruence.
Qed.

(** ** What the queue relies on

    [Done] stays closed, and a runner that is done cannot be started. *)
Class ManagedLaws (R : Type) {mr : ManagedRunner R} := {
  mr_ok : R → Prop;
  ok_new r : mr_new r → mr_ok r;
  ok_start e r : mr_ok r → mr_ok (mr_StartManaged e r).1;
  ok_abort e r : mr_ok r → mr_ok (mr_Abort e r);
  ok_step r r' : mr_ok r → mr_step r r' → mr_ok r';
  done_start e r : mr_done r = true → mr_done (mr_StartManaged e r).1 = true;
  done_abort e r : mr_done r = true → mr_done (mr_Abort e r) = true;
  done_step r r' : mr_step r r' → mr_done r = true → mr_done r' = true;
  start_done e r : mr_ok r → mr_done r = true → (mr_StartManaged e r).2 ≠ None }.

Section Facts.
Context {R : Type} {mr : ManagedRunner R} {laws : ManagedLaws R} (ctx_error : nat → error).
Implicit Types s : orch R.

(** ** The state of the queue *)

(** Everything but [qs_full] holds in the middle of a dispatch. *)
Record qslots s : Prop := {
  qs_core : qcore (o_entries s) (o_queue s) (o_byID s);
  qs_slots : Z.of_nat (size (o_running s)) ≤ o_max s;
  qs_orders : ∀ e q, o_entries s !! e = Some q → qe_order q = u64 (Z.of_nat e);
  qs_next : o_nextOrder s = u64 (Z.of_nat (List.length (o_entries s))) }.

(** No entry waits while a slot is free. *)
Record qinv s : Prop := {
  qi_slots : qslots s;
  qi_full : has_slot s = true → o_queue s = [] }.

(** The fields dispatching leaves alone. *)
Definition rest s : Z * gmap bytes R * gset bytes * gset nat * gset bytes * list (list action) :=
  (o_max s, o_objects s, o_runners s, o_dead s, o_started s, o_threads s).

Definition same_ids (es es' : list queuedRunner) : Prop :=
  ∀ e, qe_id (entry_at es' e) = qe_id (entry_at es e) ∧ qe_ctx (entry_at es' e) = qe_ctx (entry_at es e).

Definition ids (es : list queuedRunner) (l : list nat) : list bytes := (λ e, qe_id (entry_at es e)) <$> l.
Definition b2n (b : bool) : nat := if b then 1 else 0.
Definition indexed s (id : bytes) : nat := b2n (bool_decide (is_Some (o_byID s !! id))).
Definition occurs (id : bytes) (l : list bytes) : nat := List.length (List.filter (λ x, bool_decide (x = id)) l).

Lemma occurs_app id l l' : occurs id (l ++ l') = (occurs id l + occurs id l')%nat.
Proof. unfold occurs. by rewrite List.filter_app, length_app. Qed.
Lemma occurs_one id x : occurs id [x] = b2n (bool_decide (x = id)).
Proof. unfold occurs. simpl. by destruct (bool_decide _). Qed.

Lemma same_ids_alter f es e : keeps f → same_ids es (alter f e es).
Proof. intros Hf e'. destruct (entry_keeps f es e e' Hf) as (? & ? & _). done. Qed.
Lemma same_ids_trans es es' es'' : same_ids es es' → same_ids es' es'' → same_ids es es''.
Proof. intros H1 H2 e. destruct (H1 e), (H2 e). split; congruence. Qed.
Lemma ids_same es es' l : same_ids es es' → ids es' l = ids es l.
Proof. intros H. unfold ids. apply list_fmap_ext. intros i e _. apply H. Qed.

Lemma orders_alter f (es : list queuedRunner) e :
  keeps f → (∀ e q, es !! e = Some q → qe_order q = u64 (Z.of_nat e)) →
  ∀ e' q, alter f e es !! e' = Some q → qe_order q = u64 (Z.of_nat e').
Proof.
  intros Hf H e' q Hq. destruct (decide (e = e')) as [->|].
  - rewrite list_lookup_alter_eq in Hq. destruct (es !! e') as [q0|] eqn:E; [|done]. simpl in Hq.
    injection Hq as <-. destruct (Hf q0) as (_ & _ & _ & ->). by apply H.
  - rewrite list_lookup_alter_ne in Hq by done. by apply H.
Qed.

(** A map of the entries that keeps the index right keeps the queue's state. *)
Lemma qslots_entry f e s queue byID :
  keeps f → qslots s → qcore (alter f e (o_entries s)) queue byID →
  qslots (set_queue byID queue (alter f e (o_entries s)) s).
Proof.
  intros Hf [Hc Hs Ho Hn] Hc'. destruct s. cbn in *. split; cbn; [done|done|by apply orders_alter|].
  by rewrite length_alter.
Qed.

(** What a dispatch did: the slots it gave, and the entries it took. *)
Definition dispatched s s' (start : list nat) : Prop :=
  qslots s' ∧ rest s' = rest s ∧ same_ids (o_entries s) (o_entries s') ∧
  (∀ id, (occurs id (ids (o_entries s) start) + indexed s' id ≤ indexed s id)%nat) ∧
  (∀ id, id ∈ o_running s' ↔ id ∈ o_running s ∨ (0 < o_max s ∧ id ∈ ids (o_entries s) start)).

Lemma dispatched_refl s : qslots s → dispatched s s [].
Proof.
  intros H. split_and!; [done|done|by intros e| |].
  - intros id. unfold occurs. simpl. lia.
  - intros id. unfold ids. rewrite fmap_nil, elem_of_nil. intuition.
Qed.

Lemma dispatched_trans s s1 s2 a b :
  dispatched s s1 a → dispatched s1 s2 b → dispatched s s2 (a ++ b).
Proof.
  intros (_ & Hr1 & Hi1 & Ho1 & Hg1) (H & Hr2 & Hi2 & Ho2 & Hg2).
  assert (ids (o_entries s) (a ++ b) = ids (o_entries s) a ++ ids (o_entries s1) b) as Hids.
  { rewrite (ids_same _ _ _ Hi1). apply fmap_app. }
  split_and!; [done|congruence|by eapply same_ids_trans| |].
  - intros id. rewrite Hids, occurs_app. specialize (Ho1 id). specialize (Ho2 id). lia.
  - intros id. rewrite Hg2, Hg1, Hids, elem_of_app. unfold rest in Hr1.
    assert (o_max s1 = o_max s) as -> by congruence. tauto.
Qed.

Lemma has_slot_pos s : qslots s → has_slot s = true → 0 < o_max s →
  Z.of_nat (size (o_running s)) + 1 ≤ o_max s.
Proof.
  intros _ H Hm. unfold has_slot in H. apply orb_true_iff in H as [H%Z.eqb_eq|H%Z.ltb_lt]; lia.
Qed.

(** Taking one entry out of a non-empty queue. *)
Lemma pop_locked s :
  qslots s →
  match popQueuedRunnerLocked s with
  | (None, s') => dispatched s s' [] ∧ o_queue s' = []
  | (Some e, s') =>
      let q := entry_at (o_entries s') e in
      let s'' := set_queue (delete (qe_id q) (o_byID s')) (o_queue s') (alter deactivate e (o_entries s')) s' in
      o_entries s' = o_entries s ∧ qe_canceled q = false ∧ o_byID s !! qe_id q = Some e ∧ e ∉ o_queue s'' ∧
      (List.length (o_queue s'') < List.length (o_queue s))%nat ∧ qslots s'' ∧ rest s'' = rest s ∧
      o_byID s'' = delete (qe_id q) (o_byID s) ∧ o_running s'' = o_running s
  end.
Proof.
  intros Hs. unfold popQueuedRunnerLocked. pose proof (qcore_pop _ _ _ (qs_core _ Hs)) as H.
  destruct (pop_live _ _ _) as [[e|] queue'].
  - destruct H as (Hc & Hid & Hne & Hlen & _).
    assert (live (o_entries s) e) as Hl by by apply (qc_index _ _ _ (qs_core _ Hs)) in Hid as (_ & ? & _).
    pose proof (qslots_entry deactivate e s queue' _ keeps_deactivate Hs Hc) as Hq.
    destruct s. cbn in *. by split_and!.
  - destruct H as [-> Hid]. assert (o_byID s = ∅) as Hid' by done. split; [|by destruct s].
    destruct s as [mx ob rs run byID qu es no de st ts]. cbn in *. subst. destruct Hs as [Hc Hsl Ho Hn]. cbn in *. split_and!.
    + split; cbn; [|done|done|done]. split.
      * apply heap_nil.
      * constructor.
      * by intros e ?%elem_of_nil.
      * intros id e. rewrite lookup_empty. split; [done|]. by intros [?%elem_of_nil _].
    + done.
    + by intros e.
    + intros id. unfold occurs. simpl. done.
    + intros id. unfold ids. rewrite fmap_nil, elem_of_nil. tauto.
Qed.

Lemma indexed_delete s s' id0 e id :
  o_byID s !! id0 = Some e → o_byID s' = delete id0 (o_byID s) →
  (occurs id [id0] + indexed s' id ≤ indexed s id)%nat ∧ (indexed s' id ≤ indexed s id)%nat.
Proof.
  intros He E. rewrite occurs_one. unfold indexed. rewrite E.
  destruct (decide (id0 = id)) as [->|].
  - rewrite lookup_delete_eq, He. rewrite !bool_decide_eq_true_2 by eauto.
    rewrite bool_decide_eq_false_2 by by intros [? ?]. simpl. lia.
  - rewrite lookup_delete_ne by done. rewrite (bool_decide_eq_false_2 (id0 = id)) by done. simpl. lia.
Qed.

Lemma collect_starts_spec fuel s a b :
  qslots s → (List.length (o_queue s) < fuel)%nat →
  let '(toStart, toCancel, s') := collect_starts ctx_error fuel s a b in
  ∃ start, toStart = a ++ start ∧ dispatched s s' start ∧ (has_slot s' = true → o_queue s' = []).
Proof.
  revert s a b. induction fuel as [|fuel IH]; intros s a b Hs Hf; [lia|]. cbn [collect_starts].
  destruct (has_slot s) eqn:Eh.
  2: { exists []. rewrite app_nil_r. split_and!; [done|by apply dispatched_refl|congruence]. }
  pose proof (pop_locked s Hs) as Hp. destruct (popQueuedRunnerLocked s) as [[e|] s1].
  2: { destruct Hp as [Hd Hq]. exists []. by rewrite app_nil_r. }
  cbv zeta in Hp |- *. set (q := entry_at (o_entries s1) e) in *. set (s2 := set_queue _ _ _ s1) in *.
  destruct Hp as (Hes & Hc & Hid & Hne & Hlen & Hs2 & Hrest & Hby & Hrun). rewrite Hc.
  assert (same_ids (o_entries s) (o_entries s2)) as Hsame.
  { rewrite <-Hes. replace (o_entries s2) with (alter deactivate e (o_entries s1)) by by destruct s1.
    apply same_ids_alter, keeps_deactivate. }
  assert (∀ s3 l, qslots s3 → rest s3 = rest s2 → same_ids (o_entries s2) (o_entries s3) →
    o_byID s3 = o_byID s2 → l = [] ∨ l = [e] →
    (∀ id, id ∈ o_running s3 ↔ id ∈ o_running s ∨ (0 < o_max s ∧ id ∈ ids (o_entries s) l)) →
    dispatched s s3 l) as Hdisp.
  { intros s3 l H3 Hr3 Hi3 Hb3 Hl Hg3. split_and!; [done|congruence|by eapply same_ids_trans| |done].
    intros id. rewrite <-Hb3 in Hby. destruct (indexed_delete s s3 (qe_id q) e id Hid Hby).
    destruct Hl as [->| ->]; [done|]. unfold ids. rewrite fmap_cons, fmap_nil, <-Hes. done. }
  destruct (ctx_Err ctx_error (o_dead s2) (qe_ctx q)).
  - set (s3 := set_queue _ _ _ s2).
    assert (qslots s3) as Hs3 by (apply qslots_entry; [apply keeps_cancel|done|by apply qcore_cancel; [apply Hs2|]]).
    assert (dispatched s s3 []) as Hd3.
    { apply Hdisp; [done|by destruct s2| |by destruct s2|by left|].
      - replace (o_entries s3) with (alter cancel e (o_entries s2)) by by destruct s2.
        apply same_ids_alter, keeps_cancel.
      - intros id. unfold ids. rewrite fmap_nil, elem_of_nil.
        replace (o_running s3) with (o_running s2) by by destruct s2. rewrite Hrun. tauto. }
    specialize (IH s3 a (b ++ [e]) Hs3). replace (o_queue s3) with (o_queue s2) in IH by by destruct s2.
    specialize (IH ltac:(lia)). destruct (collect_starts _ fuel s3 _ _) as [[x y] s4].
    destruct IH as (start & -> & Hd & Hf4). exists start. split_and!; [done| |done].
    exact (dispatched_trans _ _ _ [] _ Hd3 Hd).
  - set (s3 := if _ <? _ then _ else _).
    assert (o_max s2 = o_max s) as Hmax by (unfold rest in Hrest; congruence).
    assert (o_entries s3 = o_entries s2 ∧ o_queue s3 = o_queue s2 ∧ o_byID s3 = o_byID s2 ∧ rest s3 = rest s2 ∧
      o_nextOrder s3 = o_nextOrder s2 ∧
      o_running s3 = if 0 <? o_max s then {[qe_id q]} ∪ o_running s else o_running s)
      as (E1 & E2 & E3 & E4 & E5 & E6).
    { unfold s3. rewrite Hmax, <-Hrun. destruct (0 <? o_max s); [|by split_and!]. by destruct s2. }
    assert (qslots s3) as Hs3.
    { destruct Hs2 as [H1 H2 H3 H4]. split; [by rewrite E1, E2, E3| |by rewrite E1|by rewrite E1, E5].
      assert (o_max s3 = o_max s) as -> by (unfold rest in E4; congruence). rewrite E6.
      destruct (Z.ltb_spec 0 (o_max s)) as [Hm|Hm]; [|by rewrite <-Hmax, <-Hrun].
      pose proof (has_slot_pos s Hs Eh Hm). pose proof (size_union_alt {[qe_id q]} (o_running s)) as Hsz.
      pose proof (size_minus (o_running s) (qe_id q)).
      rewrite size_singleton in Hsz. lia. }
    assert (dispatched s s3 [e]) as Hd3.
    { apply Hdisp; [done|done|rewrite E1; by intros ?|done|by right|]. intros id.
      rewrite E6. unfold ids. rewrite fmap_cons, fmap_nil, <-Hes. fold q.
      rewrite list_elem_of_singleton. destruct (Z.ltb_spec 0 (o_max s)) as [Hm|Hm].
      - rewrite elem_of_union, elem_of_singleton. tauto.
      - split; [by left|]. intros [|[? _]]; [done|lia]. }
    specialize (IH s3 (a ++ [e]) b Hs3). rewrite E2 in IH. specialize (IH ltac:(lia)).
    destruct (collect_starts _ fuel s3 _ _) as [[x y] s4]. destruct IH as (start & -> & Hd & Hf4).
    exists (e :: start). split_and!; [by rewrite <-app_assoc| |done].
    exact (dispatched_trans _ _ _ [e] _ Hd3 Hd).
Qed.

(** ** The goroutines *)

Definition cnt (f : action → bool) (l : list action) : nat := List.length (List.filter f l).
Definition is_submit (id : bytes) (a : action) : bool :=
  match a with ASubmit id' _ _ => bool_decide (id' = id) | _ => false end.
Definition is_manage (id : bytes) (a : action) : bool :=
  match a with AManage id' _ _ => bool_decide (id' = id) | _ => false end.
Definition is_unwatched (id : bytes) (a : action) : bool :=
  match a with AManage id' _ watch => negb watch && bool_decide (id' = id) | _ => false end.
Definition is_failed (id : bytes) (a : action) : bool :=
  match a with AFailed id' _ => bool_decide (id' = id) | _ => false end.
Definition is_done (id : bytes) (a : action) : bool :=
  match a with ADone id' => bool_decide (id' = id) | _ => false end.

Lemma cnt_app f l l' : cnt f (l ++ l') = (cnt f l + cnt f l')%nat.
Proof. unfold cnt. by rewrite List.filter_app, length_app. Qed.
Lemma cnt_cons f a l : cnt f (a :: l) = (b2n (f a) + cnt f l)%nat.
Proof. unfold cnt. simpl. by destruct (f a). Qed.
Lemma cnt_nil f : cnt f [] = 0%nat.
Proof. done. Qed.

Definition pending (f : action → bool) s : nat := cnt f (mjoin (o_threads s)).

(** The next action of a goroutine is replaced by what follows it. *)
Lemma cnt_thread f (ts : list (list action)) i a rest next new :
  ts !! i = Some (a :: rest) →
  (cnt f (mjoin (<[i := next ++ rest]> ts ++ new)) + b2n (f a) =
   cnt f (mjoin ts) + cnt f next + cnt f (mjoin new))%nat.
Proof.
  intros Hi. rewrite <-(take_drop_middle ts i (a :: rest) Hi) at 2.
  rewrite insert_take_drop by by eapply lookup_lt_Some.
  rewrite !join_app, !join_cons, !cnt_app, !cnt_cons. lia.
Qed.

(** Dispatching starts each collected entry once, unwatched. *)
Lemma dispatch_cnt es a b id :
  let d := finishQueuedDispatch ctx_error es a b in
  cnt (is_manage id) d = occurs id (ids es a) ∧ cnt (is_unwatched id) d = occurs id (ids es a) ∧
  cnt (is_submit id) d = 0%nat ∧ cnt (is_failed id) d = 0%nat ∧ cnt (is_done id) d = 0%nat.
Proof.
  unfold finishQueuedDispatch. cbv zeta.
  assert (∀ f, (∀ i e, f (AAbort i e) = false) →
    cnt f ((λ e, AAbort (qe_id (entry_at es e)) (ctx_error (qe_ctx (entry_at es e)))) <$> b) = 0%nat) as Hb.
  { intros f Hf. induction b as [|e b IH]; [done|]. rewrite fmap_cons, cnt_cons, Hf. done. }
  rewrite !cnt_app, !Hb by done. unfold startManagedRunner. cbn [Nat.add].
  induction a as [|e a IH]; [done|]. destruct IH as (I1 & I2 & I3 & I4 & I5).
  rewrite fmap_cons, join_cons.
  change (e :: a) with ([e] ++ a). unfold ids in *. rewrite fmap_app, occurs_app, fmap_cons, fmap_nil, occurs_one.
  rewrite !cnt_app, I1, I2, I3, I4, I5, !cnt_cons, !cnt_nil. cbn. destruct (bool_decide _); lia.
Qed.

(** What a section that collects starts does, with what it leaves to dispatch. *)
Record collected s s' (acts : list action) : Prop := {
  co_inv : qinv s';
  co_rest : rest s' = rest s;
  co_tokens id : (cnt (is_manage id) acts + indexed s' id ≤ indexed s id)%nat;
  co_running id : id ∈ o_running s' ↔ id ∈ o_running s ∨ (0 < o_max s ∧ (0 < cnt (is_manage id) acts)%nat);
  co_unwatched id : cnt (is_unwatched id) acts = cnt (is_manage id) acts;
  co_other id : cnt (is_submit id) acts = 0%nat ∧ cnt (is_failed id) acts = 0%nat ∧ cnt (is_done id) acts = 0%nat }.

Lemma occurs_pos id l : (0 < occurs id l)%nat ↔ id ∈ l.
Proof.
  unfold occurs. induction l as [|x l IH]; [simpl; split; [lia|by intros ?%elem_of_nil]|]. simpl.
  rewrite elem_of_cons. destruct (decide (x = id)) as [->|].
  - rewrite bool_decide_eq_true_2 by done. simpl. split; [by left|intros _; lia].
  - rewrite bool_decide_eq_false_2 by done. rewrite IH. split; [by right|]. intros [->|]; done.
Qed.

Lemma collect_dispatch_spec s :
  qslots s → let '(s', acts) := collect_dispatch ctx_error s in collected s s' acts.
Proof.
  intros Hs. unfold collect_dispatch, collectQueuedStartsLocked.
  pose proof (collect_starts_spec (Datatypes.S (List.length (o_queue s))) s [] [] Hs ltac:(lia)) as H.
  destruct (collect_starts _ _ _ _ _) as [[toStart toCancel] s'].
  destruct H as (start & -> & (Hq & Hr & Hsame & Htok & Hrun) & Hfull). cbn [app].
  assert (∀ id, let d := finishQueuedDispatch ctx_error (o_entries s') start toCancel in
    cnt (is_manage id) d = occurs id (ids (o_entries s) start) ∧ cnt (is_unwatched id) d = cnt (is_manage id) d ∧
    cnt (is_submit id) d = 0%nat ∧ cnt (is_failed id) d = 0%nat ∧ cnt (is_done id) d = 0%nat) as Hd.
  { intros id. destruct (dispatch_cnt (o_entries s') start toCancel id) as (H1 & H2 & H3 & H4 & H5).
    rewrite (ids_same _ _ _ Hsame) in H1, H2. cbv zeta. rewrite H1, H2. by split_and!. }
  split; [by split|done|..]; intros id; destruct (Hd id) as (H1 & H2 & H3 & H4 & H5).
  - rewrite H1. apply Htok.
  - rewrite Hrun, H1, occurs_pos. done.
  - done.
  - done.
Qed.

(** ** What an action does *)

Definition finished s (id : bytes) : Prop := ∃ r, o_objects s !! id = Some r ∧ mr_done r = true.
Definition objects_ok s : Prop := ∀ id r, o_objects s !! id = Some r → mr_ok r.
Definition started s (id : bytes) : nat := b2n (bool_decide (id ∈ o_started s)).

(** The claims on a runner: being submitted, waiting, being started, having
    failed to start, and having been started. *)
Definition claims (l : list action) (id : bytes) : nat :=
  (cnt (is_submit id) l + cnt (is_manage id) l + cnt (is_failed id) l)%nat.
Definition claim (a : action) (id : bytes) : nat := claims [a] id.

Record effect a s s' (next : list action) (new : list (list action)) : Prop := {
  e_inv : qinv s';
  e_max : o_max s' = o_max s;
  e_threads : o_threads s' = o_threads s;
  e_objects id : o_objects s' !! id = None ↔ o_objects s !! id = None;
  e_ok : objects_ok s → objects_ok s';
  e_finished id : finished s id → finished s' id;
  e_submit id : (cnt (is_submit id) next + cnt (is_submit id) (mjoin new) + indexed s' id
                 ≤ b2n (is_submit id a) + indexed s id)%nat;
  e_claims id : (claims next id + claims (mjoin new) id + indexed s' id + started s' id
                 ≤ claim a id + indexed s id + started s id)%nat;
  e_managed id : 0 < o_max s → (0 < cnt (is_manage id) next + cnt (is_manage id) (mjoin new))%nat →
    id ∈ o_running s';
  e_started id : started s' id = started s id ∨ is_manage id a = true;
  e_removed id : id ∈ o_running s → id ∈ o_running s' ∨ is_failed id a = true ∨ finished s id;
  e_indexed id : (indexed s' id ≤ indexed s id + cnt (is_done id) next)%nat;
  e_unwatched id : (cnt (is_unwatched id) next + cnt (is_unwatched id) (mjoin new) ≤ indexed s id)%nat;
  e_done id : is_done id a = true → finished s id;
  e_added id : id ∈ o_running s' → id ∈ o_running s ∨ (0 < cnt (is_manage id) next)%nat;
  e_gone id : is_failed id a = true ∨ is_done id a = true → id ∈ o_running s' → (0 < cnt (is_manage id) next)%nat;
  e_manage id : objects_ok s → is_manage id a = true →
    (0 < cnt (is_failed id) next + cnt (is_done id) (mjoin new))%nat ∨ (is_unwatched id a = true ∧ ¬ finished s id) }.

Lemma b2n_le b : (b2n b ≤ 1)%nat.
Proof. destruct b; simpl; lia. Qed.
Lemma b2n_pos b : (0 < b2n b)%nat ↔ b = true.
Proof. destruct b; simpl; split; done || lia. Qed.

Lemma manage_unwatched id l : (cnt (is_unwatched id) l ≤ cnt (is_manage id) l)%nat.
Proof.
  induction l as [|a l IH]; [done|]. rewrite !cnt_cons.
  destruct a; cbn [is_unwatched is_manage b2n]; try lia. destruct watch, (bool_decide _); cbn; lia.
Qed.

(** A section that only collects starts after changing the slots or the index. *)
Lemma effect_collected a s s1 s' pre acts :
  collected s1 s' acts → o_max s1 = o_max s → o_objects s1 = o_objects s → o_started s1 = o_started s →
  o_threads s1 = o_threads s → (∀ id, (indexed s1 id ≤ indexed s id)%nat) →
  (∀ id, id ∈ o_running s1 → id ∈ o_running s) →
  (∀ id, id ∈ o_running s → id ∈ o_running s1 ∨ is_failed id a = true ∨ finished s id) →
  (∀ id, is_failed id a = true ∨ is_done id a = true → id ∉ o_running s1) →
  (∀ id, is_done id a = true → finished s id) →
  (∀ id, is_submit id a = false ∧ is_manage id a = false) →
  (∀ f id, f = is_submit id ∨ f = is_manage id ∨ f = is_failed id ∨ f = is_done id ∨ f = is_unwatched id → cnt f pre = 0%nat) →
  effect a s s' (pre ++ acts) [].
Proof.
  intros Hc Hmax Hobj Hst Hth Hidx Hsub Hkeep Hgone Hdone Ha Hpre.
  destruct Hc as [Hinv Hrest Htok Hrun Hunw Hoth]. unfold rest in Hrest.
  assert (o_max s' = o_max s ∧ o_objects s' = o_objects s ∧ o_started s' = o_started s ∧ o_threads s' = o_threads s)
    as (E1 & E2 & E3 & E4) by (split_and!; congruence).
  assert (∀ id, started s' id = started s id) as Hstarted by (intros id; unfold started; by rewrite E3).
  assert (∀ f id, f = is_submit id ∨ f = is_manage id ∨ f = is_failed id ∨ f = is_done id ∨ f = is_unwatched id →
    cnt f (pre ++ acts) = cnt f acts) as Hcnt.
  { intros f id Hf. by rewrite cnt_app, (Hpre f id Hf). }
  split; try done.
  - intros id. by rewrite E2.
  - intros Hok id r. rewrite E2. apply Hok.
  - intros id. unfold finished. by rewrite E2.
  - intros id. rewrite (Hcnt (is_submit id) id) by auto. destruct (Hoth id) as (-> & _ & _).
    specialize (Htok id). specialize (Hidx id). change (mjoin []) with (@nil action). rewrite cnt_nil. lia.
  - intros id. unfold claims. rewrite !(Hcnt _ id) by auto. destruct (Hoth id) as (-> & -> & _).
    specialize (Htok id). specialize (Hidx id). rewrite Hstarted. change (mjoin []) with (@nil action).
    rewrite !cnt_nil. lia.
  - intros id Hm. rewrite (Hcnt (is_manage id) id) by auto. change (mjoin []) with (@nil action). rewrite cnt_nil.
    intros Hp. apply Hrun. right. rewrite Hmax. split; [done|lia].
  - intros id. by left.
  - intros id Hid. destruct (Hkeep id Hid) as [H|H]; [left; apply Hrun; by left|by right].
  - intros id. specialize (Htok id). specialize (Hidx id). lia.
  - intros id. rewrite (Hcnt (is_unwatched id) id), Hunw by auto. specialize (Htok id). specialize (Hidx id).
    change (mjoin []) with (@nil action). rewrite cnt_nil. lia.
  - intros id Hid. rewrite (Hcnt (is_manage id) id) by auto. apply Hrun in Hid as [Hid|[_ Hid]]; [left; auto|by right].
  - intros id Hg Hid. rewrite (Hcnt (is_manage id) id) by auto. apply Hrun in Hid as [Hid|[_ Hid]]; [|done].
    by destruct (Hgone id Hg).
  - intros id _ Hm. destruct (Ha id) as [_ H]. congruence.
Qed.

(** The queue's part of the state. *)
Definition queue_part s : Z * gset bytes * gmap bytes nat * list nat * list queuedRunner * Z * gset bytes * list (list action) :=
  (o_max s, o_running s, o_byID s, o_queue s, o_entries s, o_nextOrder s, o_started s, o_threads s).

Lemma qinv_part s s' : queue_part s' = queue_part s → qinv s → qinv s'.
Proof.
  unfold queue_part. intros H [[H1 H2 H3 H4] H5].
  assert (o_max s' = o_max s ∧ o_running s' = o_running s ∧ o_byID s' = o_byID s ∧ o_queue s' = o_queue s ∧
    o_entries s' = o_entries s ∧ o_nextOrder s' = o_nextOrder s) as (E1 & E2 & E3 & E4 & E5 & E6)
    by (split_and!; congruence).
  split; [split|unfold has_slot in *]; by rewrite ?E1, ?E2, ?E3, ?E4, ?E5, ?E6.
Qed.

Lemma claims_zero (l : list action) id :
  claims l id = 0%nat → cnt (is_submit id) l = 0%nat ∧ cnt (is_manage id) l = 0%nat ∧
  cnt (is_failed id) l = 0%nat ∧ cnt (is_unwatched id) l = 0%nat.
Proof. unfold claims. intros H. pose proof (manage_unwatched id l). lia. Qed.

(** An action that leaves the queue alone and passes no claim on. *)
Lemma effect_objects a s s' next :
  qinv s → queue_part s' = queue_part s → (∀ id, o_objects s' !! id = None ↔ o_objects s !! id = None) →
  (objects_ok s → objects_ok s') → (∀ id, finished s id → finished s' id) →
  (∀ id, claims next id = 0%nat) → (∀ id, is_manage id a = false ∧ is_failed id a = false ∧ is_done id a = false) →
  effect a s s' next [].
Proof.
  intros Hinv Hpart Hnone Hok Hfin Hnext Ha. pose proof (qinv_part _ _ Hpart Hinv) as Hinv'.
  unfold queue_part in Hpart.
  assert (o_max s' = o_max s ∧ o_running s' = o_running s ∧ o_threads s' = o_threads s ∧
    (∀ id, indexed s' id = indexed s id) ∧ (∀ id, started s' id = started s id)) as (E1 & E2 & E3 & E4 & E5).
  { assert (o_byID s' = o_byID s ∧ o_started s' = o_started s) as [Eb Es] by (split; congruence).
    unfold indexed, started. rewrite Eb, Es. split_and!; congruence || done. }
  split; try done; intros id; change (mjoin []) with (@nil action); rewrite ?E1, ?E2, ?E4, ?E5, ?cnt_nil;
    destruct (claims_zero _ _ (Hnext id)) as (C1 & C2 & C3 & C4); rewrite ?C1, ?C2, ?C4;
    destruct (Ha id) as (A1 & A2 & A3).
  - lia.
  - rewrite (Hnext id). unfold claims. rewrite !cnt_nil. lia.
  - lia.
  - by left.
  - by left.
  - lia.
  - lia.
  - congruence.
  - by left.
  - intros [?|?]; congruence.
  - intros _ ?. congruence.
Qed.

Lemma finished_set s id r r' id' :
  o_objects s !! id = Some r → (mr_done r = true → mr_done r' = true) →
  finished s id' → finished (set_object id r' s) id'.
Proof.
  intros Hr Hd (r0 & H0 & Hd0). unfold finished. replace (o_objects (set_object id r' s)) with (<[id := r']> (o_objects s)) by by destruct s.
  destruct (decide (id = id')) as [->|]; [|exists r0; by rewrite lookup_insert_ne].
  exists r'. rewrite lookup_insert_eq. split; [done|]. apply Hd. congruence.
Qed.

Lemma objects_set s id r' : mr_ok r' → objects_ok s → objects_ok (set_object id r' s).
Proof.
  intros Hok H id' r0. replace (o_objects (set_object id r' s)) with (<[id := r']> (o_objects s)) by by destruct s.
  rewrite lookup_insert_Some. intros [[_ <-]|[_ ?]]; [done|by eapply H].
Qed.

Lemma none_set s id r r' id' :
  o_objects s !! id = Some r → o_objects (set_object id r' s) !! id' = None ↔ o_objects s !! id' = None.
Proof.
  intros Hr. replace (o_objects (set_object id r' s)) with (<[id := r']> (o_objects s)) by by destruct s.
  rewrite lookup_insert_None. split; [by intros [? _]|]. intros H. split; [done|]. congruence.
Qed.

Lemma effect_set_object a s id r r' next :
  qinv s → o_objects s !! id = Some r → (mr_ok r → mr_ok r') → (mr_done r = true → mr_done r' = true) →
  (∀ id, claims next id = 0%nat) → (∀ id, is_manage id a = false ∧ is_failed id a = false ∧ is_done id a = false) →
  effect a s (set_object id r' s) next [].
Proof.
  intros Hi Hr Hok Hd Hn Ha. apply effect_objects; try done.
  - by destruct s.
  - intros id'. by apply none_set with r.
  - intros H. apply objects_set; [apply Hok; by eapply H|done].
  - intros id'. by apply finished_set with r.
Qed.

Lemma effect_same a s next :
  qinv s → (∀ id, claims next id = 0%nat) →
  (∀ id, is_manage id a = false ∧ is_failed id a = false ∧ is_done id a = false) → effect a s s next [].
Proof. intros Hi Hn Ha. by apply effect_objects. Qed.

Lemma qslots_running s running :
  qslots s → Z.of_nat (size running) ≤ o_max s → qslots (set_running running s).
Proof. intros [H1 H2 H3 H4] Hs. by destruct s. Qed.

Lemma qslots_less s id : qslots s → qslots (set_running (o_running s ∖ {[ id ]}) s).
Proof.
  intros H. apply qslots_running; [done|].
  pose proof (size_minus (o_running s) id).
  pose proof (qs_slots _ H). lia.
Qed.

Lemma qslots_drop s id e : qslots s → o_byID s !! id = Some e → qslots (drop_entry id e s).
Proof.
  intros H He. unfold drop_entry. apply qslots_entry; [apply keeps_both|done|].
  apply qcore_drop; [apply H|done].
Qed.

Lemma indexed_drop s id e id' : (indexed (drop_entry id e s) id' ≤ indexed s id')%nat.
Proof.
  unfold indexed. replace (o_byID (drop_entry id e s)) with (delete id (o_byID s)) by by destruct s.
  destruct (decide (id = id')) as [->|].
  - rewrite lookup_delete_eq, bool_decide_eq_false_2 by by intros [? ?]. simpl. lia.
  - by rewrite lookup_delete_ne.
Qed.

(** *** Each action *)

Lemma effect_submit_now id ctx priority s :
  qinv s → has_slot s = true →
  effect (ASubmit id ctx priority) s (if 0 <? o_max s then set_running ({[ id ]} ∪ o_running s) s else s)
    (startManagedRunner id ctx true) [].
Proof.
  intros Hi Hh. pose proof (qi_full _ Hi Hh) as Hq. set (s' := if _ <? _ then _ else _).
  assert (o_queue s' = o_queue s ∧ o_byID s' = o_byID s ∧ rest s' = rest s ∧
    o_running s' = if 0 <? o_max s then {[ id ]} ∪ o_running s else o_running s) as (E1 & E2 & E3 & E4).
  { unfold s'. destruct (0 <? o_max s); [by destruct s|by split_and!]. }
  unfold rest in E3.
  assert (o_max s' = o_max s ∧ o_objects s' = o_objects s ∧ o_started s' = o_started s ∧ o_threads s' = o_threads s)
    as (F1 & F2 & F3 & F4) by (split_and!; congruence).
  assert (∀ id', indexed s' id' = indexed s id') as G1 by (intros id'; unfold indexed; by rewrite E2).
  assert (∀ id', started s' id' = started s id') as G2 by (intros id'; unfold started; by rewrite F3).
  split; try done; unfold startManagedRunner; try (intros id'; change (mjoin []) with (@nil action);
    rewrite ?cnt_cons, ?cnt_nil, ?G1, ?G2; cbn [is_submit is_manage is_unwatched is_failed is_done b2n negb andb];
    pose proof (b2n_pos (bool_decide (id = id')))).
  - split; [|by rewrite E1]. unfold s'. destruct (Z.ltb_spec 0 (o_max s)) as [Hm|Hm]; [|apply Hi].
    apply qslots_running; [apply Hi|]. pose proof (has_slot_pos s (qi_slots _ Hi) Hh Hm).
    pose proof (size_union_alt {[id]} (o_running s)) as Hsz.
    pose proof (size_minus (o_running s) id).
    rewrite size_singleton in Hsz. lia.
  - by rewrite F2.
  - intros Hok id' r. rewrite F2. apply Hok.
  - unfold finished. by rewrite F2.
  - lia.
  - unfold claim, claims. rewrite !cnt_cons, !cnt_nil. cbn [is_submit is_manage is_failed b2n]. lia.
  - intros Hm Hp. rewrite E4, (proj2 (Z.ltb_lt 0 _) Hm). assert (0 < b2n (bool_decide (id = id')))%nat as Hb by lia.
    apply H, bool_decide_eq_true in Hb. set_solver.
  - by left.
  - intros Hr. left. rewrite E4. destruct (0 <? o_max s); set_solver.
  - lia.
  - lia.
  - rewrite E4. destruct (0 <? o_max s); [|by left]. intros [->%elem_of_singleton|?]%elem_of_union; [right|by left].
    rewrite bool_decide_eq_true_2 by done. simpl. lia.
  - intros [?|?]; done.
Qed.

Lemma effect_enqueue id ctx priority s :
  qinv s → has_slot s = false → indexed s id = 0%nat →
  effect (ASubmit id ctx priority) s (enqueue_runner id ctx priority s) [ADone id]
    [[AWatch (List.length (o_entries s))]].
Proof.
  intros [[Hc Hs Ho Hn] Hf] Hh Hidx.
  assert (o_byID s !! id = None) as Hid.
  { unfold indexed in Hidx. destruct (o_byID s !! id) eqn:E; [|done].
    rewrite bool_decide_eq_true_2 in Hidx by eauto. simpl in Hidx. lia. }
  set (s' := enqueue_runner id ctx priority s).
  assert (o_max s' = o_max s ∧ o_objects s' = o_objects s ∧ o_started s' = o_started s ∧ o_threads s' = o_threads s ∧
    o_running s' = o_running s ∧ o_byID s' = <[id := List.length (o_entries s)]> (o_byID s)) as (F1 & F2 & F3 & F4 & F5 & F6)
    by by destruct s.
  assert (∀ id', (indexed s' id' ≤ b2n (bool_decide (id = id')) + indexed s id')%nat) as G1.
  { intros id'. unfold indexed. rewrite F6. destruct (decide (id = id')) as [->|].
    - rewrite (bool_decide_eq_true_2 (id' = id')) by done. pose proof (b2n_le (bool_decide (is_Some (<[id':=List.length (o_entries s)]> (o_byID s) !! id')))). simpl. lia.
    - rewrite lookup_insert_ne by done. lia. }
  assert (∀ id', started s' id' = started s id') as G2 by (intros id'; unfold started; by rewrite F3).
  split; try done; try (intros id'; change (mjoin [[AWatch (List.length (o_entries s))]]) with [AWatch (List.length (o_entries s))];
    rewrite ?cnt_cons, ?cnt_nil, ?G2; cbn [is_submit is_manage is_unwatched is_failed is_done b2n negb andb];
    specialize (G1 id'); pose proof (b2n_pos (bool_decide (id = id')))).
  - split.
    + unfold s'. destruct s as [mx ob rs run byID qu es no de st ts]. cbn in *. split; cbn.
      * apply (qcore_push es qu byID (mkEntry id ctx priority no false false)); [done|done|done].
      * done.
      * intros e q [Hq|[Hge Hq]]%lookup_app_Some; [by apply Ho|].
        apply list_lookup_singleton_Some in Hq as [Hz <-]. cbn. rewrite Hn. do 2 f_equal. lia.
      * rewrite length_app, Hn. cbn. unfold u64. rewrite Zplus_mod_idemp_l. f_equal. lia.
    + replace (has_slot s') with (has_slot s) by (unfold has_slot; by rewrite F1, F5). congruence.
  - by rewrite F2.
  - intros Hok id' r. rewrite F2. apply Hok.
  - unfold finished. by rewrite F2.
  - unfold claim, claims. rewrite !cnt_cons, !cnt_nil. cbn [is_submit is_manage is_failed b2n]. lia.
  - intros _ Hp. lia.
  - by left.
  - rewrite F5. by left.
  - lia.
  - lia.
  - rewrite F5. by left.
  - intros [?|?]; done.
Qed.

Lemma effect_manage id ctx watch s r r' err :
  qinv s → o_objects s !! id = Some r →
  mr_StartManaged (ctx_Err ctx_error (o_dead s) ctx) r = (r', err) →
  effect (AManage id ctx watch) s
    (match err with Some _ => set_object id r' s | None => add_started id (set_object id r' s) end)
    (match err with Some e => [AFailed id e] | None => [] end)
    (match err with Some _ => [] | None => if watch then [[ADone id]] else [] end).
Proof.
  intros Hi Hr Hm. pose proof (ok_start (ctx_Err ctx_error (o_dead s) ctx) r) as Hok.
  pose proof (done_start (ctx_Err ctx_error (o_dead s) ctx) r) as Hd.
  pose proof (start_done (ctx_Err ctx_error (o_dead s) ctx) r) as Hsd. rewrite Hm in Hok, Hd, Hsd. cbn [fst snd] in *.
  set (s' := match err with Some _ => _ | None => _ end).
  assert (o_max s' = o_max s ∧ o_objects s' = o_objects (set_object id r' s) ∧ o_threads s' = o_threads s ∧
    o_running s' = o_running s ∧ o_byID s' = o_byID s ∧ o_queue s' = o_queue s ∧ o_entries s' = o_entries s ∧
    o_nextOrder s' = o_nextOrder s ∧
    o_started s' = match err with Some _ => o_started s | None => {[ id ]} ∪ o_started s end)
    as (F1 & F2 & F3 & F4 & F5 & F6 & F7 & F8 & F9) by (unfold s'; destruct s, err; done).
  assert (∀ id', indexed s' id' = indexed s id') as G1 by (intros id'; unfold indexed; by rewrite F5).
  assert (∀ id', (started s' id' ≤ started s id' + match err with Some _ => 0 | None => b2n (bool_decide (id = id')) end)%nat ∧
    (started s' id' = started s id' ∨ bool_decide (id = id') = true)) as G2.
  { intros id'. unfold started. rewrite F9. destruct err; [split; [lia|by left]|].
    destruct (decide (id = id')) as [->|].
    - rewrite (bool_decide_eq_true_2 (id' = id')) by done. pose proof (b2n_le (bool_decide (id' ∈ {[id']} ∪ o_started s))).
      split; [simpl; lia|by right].
    - rewrite (bool_decide_ext (id' ∈ {[id]} ∪ o_started s) (id' ∈ o_started s)) by set_solver. split; [lia|by left]. }
  split; try done; try (intros id'; rewrite ?G1; destruct (G2 id') as [G3 G4]).
  - destruct Hi as [[H1 H2 H3 H4] H5].
    split; [split|unfold has_slot in *]; by rewrite ?F1, ?F4, ?F5, ?F6, ?F7, ?F8.
  - rewrite F2. by apply none_set with r.
  - intros H. assert (objects_ok (set_object id r' s)) as H' by (apply objects_set; [apply Hok; by eapply H|done]).
    intros id' r0. rewrite F2. apply H'.
  - intros H. apply (finished_set s id r r') in H; [|done|done]. unfold finished in *. by rewrite F2.
  - destruct err, watch; cbn; lia.
  - unfold claim, claims. destruct err, watch; cbn; destruct (bool_decide _); cbn in *; lia.
  - destruct err, watch; cbn; lia.
  - destruct G4; [by left|by right].
  - rewrite F4. by left.
  - destruct err; lia.
  - destruct err, watch; cbn; lia.
  - rewrite F4. by left.
  - intros [?|?]; done.
  - intros Hall Hman. apply bool_decide_eq_true in Hman as <-. destruct err as [e|].
    + left. cbn. rewrite bool_decide_eq_true_2 by done. cbn. lia.
    + destruct watch; [left; cbn; rewrite bool_decide_eq_true_2 by done; cbn; lia|]. right. split.
      * cbn. by apply bool_decide_eq_true_2.
      * intros (r0 & H0 & Hd0). assert (r0 = r) as -> by congruence. by destruct (Hsd (Hall _ _ Hr) Hd0).
Qed.

Lemma release_spec id s :
  qinv s → let '(s', acts) := releaseRunnerExecutionSlot ctx_error id s in
  collected (set_running (o_running s ∖ {[ id ]}) s) s' acts.
Proof. intros Hi. apply collect_dispatch_spec, qslots_less, Hi. Qed.

Lemma effect_release a id s s' pre acts :
  collected (set_running (o_running s ∖ {[ id ]}) s) s' acts →
  a = ADone id ∧ finished s id ∨ (∃ e, a = AFailed id e) →
  (∀ f id, f = is_submit id ∨ f = is_manage id ∨ f = is_failed id ∨ f = is_done id ∨ f = is_unwatched id → cnt f pre = 0%nat) →
  effect a s s' (pre ++ acts) [].
Proof.
  intros Hc Ha Hpre. set (s1 := set_running _ s) in *.
  assert (o_running s1 = o_running s ∖ {[ id ]}) as Hr by by destruct s.
  assert (∀ id', is_failed id' a = true ∨ is_done id' a = true → id' = id) as Hid.
  { intros id' [H|H]; destruct Ha as [[-> _]|[e ->]]; try done; by apply bool_decide_eq_true in H. }
  apply (effect_collected a s s1 s' pre acts); try done; try by destruct s.
  - intros id'. rewrite Hr. set_solver.
  - intros id' Hin. rewrite Hr. destruct (decide (id' = id)) as [->|]; [right|left; set_solver].
    destruct Ha as [[-> ?]|[e ->]]; [by right|left; by apply bool_decide_eq_true_2].
  - intros id' H. rewrite Hr, (Hid _ H). set_solver.
  - intros id' H. destruct Ha as [[-> ?]|[e ->]]; [|done]. rewrite (Hid id'); [done|by right].
  - intros id'. by destruct Ha as [[-> ?]|[e ->]].
Qed.

Lemma effect_begin id e s :
  qinv s → o_byID s !! id = Some e → effect (ABegin id) s (drop_entry id e s) [] [].
Proof.
  intros Hi E.
  assert (∀ id', started (drop_entry id e s) id' = started s id') as G by by destruct s.
  assert (o_running (drop_entry id e s) = o_running s ∧ o_max (drop_entry id e s) = o_max s ∧
    o_queue (drop_entry id e s) = o_queue s ∧ o_objects (drop_entry id e s) = o_objects s)
    as (E1 & E2 & E3 & E4) by by destruct s.
  split; try done; try (intros id'; pose proof (indexed_drop s id e id') as Hd; change (mjoin []) with (@nil action);
    rewrite ?cnt_nil, ?G, ?E1).
  - split; [by apply qslots_drop; [apply Hi|]|]. unfold has_slot. rewrite E1, E2, E3. apply Hi.
  - by destruct s.
  - by rewrite E4.
  - unfold objects_ok. by rewrite E4.
  - unfold finished. by rewrite E4.
  - lia.
  - unfold claim, claims. rewrite ?cnt_cons, !cnt_nil. cbn. lia.
  - lia.
  - by left.
  - by left.
  - lia.
  - lia.
  - by left.
  - intros [?|?]; done.
Qed.

Lemma action_effect d a s s' next new :
  qinv s → (∀ id ctx p, a = ASubmit id ctx p → indexed s id = 0%nat) →
  do_action ctx_error d a s = Some (s', next, new) → effect a s s' next new.
Proof.
  intros Hi Hsub H.
  destruct a as [id ctx p|id|id ctx watch|id e|id e|id e|entry|entry|id]; cbn [do_action] in H.
  - destruct (ctx_Err _ _ _) as [e|]; [injection H as <- <- <-; by apply effect_same|].
    destruct (has_slot s) eqn:Eh; injection H as <- <- <-.
    + by apply effect_submit_now.
    + apply effect_enqueue; [done|done|by eapply Hsub].
  - injection H as <- <- <-. destruct (o_byID s !! id) as [e|] eqn:E; [|by apply effect_same].
    by apply effect_begin.
  - destruct (o_objects s !! id) as [r|] eqn:Hr; [|done]. cbn [mbind option_bind] in H.
    destruct (mr_StartManaged _ r) as [r' err] eqn:Em. pose proof (effect_manage id ctx watch s r r' err Hi Hr Em) as He.
    destruct err as [e|]; injection H as <- <- <-; exact He.
  - pose proof (release_spec id s Hi) as Hc. destruct (releaseRunnerExecutionSlot _ _ _) as [s1 acts].
    injection H as <- <- <-. apply (effect_release _ id s s1 [AAbortPending id e] acts Hc); [right; by eexists|].
    intros f id' [->|[->|[->|[->| ->]]]]; done.
  - destruct (o_objects s !! id) as [r|] eqn:Hr; [|done]. cbn [mbind option_bind] in H. injection H as <- <- <-.
    destruct (bool_decide _); [|by apply effect_same].
    apply effect_set_object with r; [done|done|apply ok_abort|apply done_abort|done|done].
  - destruct (o_objects s !! id) as [r|] eqn:Hr; [|done]. cbn [mbind option_bind] in H. injection H as <- <- <-.
    apply effect_set_object with r; [done|done|apply ok_abort|apply done_abort|done|done].
  - destruct (qe_done _), (ctx_Err _ _ _) as [e|]; try done; injection H as <- <- <-; apply effect_same; try done.
    intros id. by destruct d.
  - unfold removeQueuedRunner in H. destruct (bool_decide _) eqn:E; [|injection H as <- <- <-; by apply effect_same].
    apply bool_decide_eq_true in E. set (id := qe_id _) in *.
    pose proof (collect_dispatch_spec (drop_entry id entry s) (qslots_drop s id entry (qi_slots _ Hi) E)) as Hc.
    destruct (collect_dispatch _ _) as [s1 acts]. injection H as <- <- <-.
    apply (effect_collected (ARemove entry) s _ s1 [AAbort id (ctx_error (qe_ctx (entry_at (o_entries s) entry)))] acts Hc);
      try done; try by destruct s.
    + apply indexed_drop.
    + intros id' Hin. left. by destruct s.
    + intros id' [?|?]; done.
    + intros f id' [->|[->|[->|[->| ->]]]]; done.
  - destruct (o_objects s !! id) as [r|] eqn:Hr; [|done]. cbn [mbind option_bind] in H.
    destruct (mr_done r) eqn:Hd; [|done]. pose proof (release_spec id s Hi) as Hc.
    destruct (releaseRunnerExecutionSlot _ _ _) as [s1 acts]. injection H as <- <- <-.
    apply (effect_release _ id s s1 [] acts Hc); [left; split; [done|by exists r]|done].
Qed.

(** ** The invariants of all runs *)

(** Counters of actions that carry a claim or watch a runner. *)
Definition tracked (f : action → bool) : Prop :=
  ∃ id, f = is_submit id ∨ f = is_manage id ∨ f = is_failed id ∨ f = is_done id ∨ f = is_unwatched id.

(** [s'] is [s1] with goroutines that went from those of [s] as [a] did. *)
Definition moves a s s1 s' (next : list action) (new : list (list action)) : Prop :=
  (∃ ts, s' = put_threads ts s1) ∧
  ∀ f, tracked f → (pending f s' + b2n (f a) = pending f s + cnt f next + cnt f (mjoin new))%nat.

Record base s : Prop := {
  b_inv : qinv s;
  b_ok : objects_ok s;
  b_submit id : (pending (is_submit id) s + indexed s id ≤ 1)%nat;
  b_fresh id : o_objects s !! id = None → (pending (is_submit id) s + indexed s id = 0)%nat }.

Definition total s (id : bytes) : nat :=
  (pending (is_submit id) s + pending (is_manage id) s + pending (is_failed id) s + indexed s id + started s id)%nat.

(** Without calls of [StartRunner], every claim comes from one submission. *)
Record claimed s : Prop := {
  c_total id : (total s id ≤ 1)%nat;
  c_fresh id : o_objects s !! id = None → total s id = 0%nat;
  c_held id : 0 < o_max s → (0 < pending (is_manage id) s + started s id)%nat → id ∈ o_running s ∨ finished s id;
  c_watched id : (0 < indexed s id + pending (is_unwatched id) s)%nat →
    (0 < pending (is_done id) s)%nat ∨ finished s id;
  c_release id : id ∈ o_running s →
    (0 < pending (is_failed id) s + pending (is_manage id) s + pending (is_done id) s)%nat }.

Ltac counts Hp id :=
  pose proof (Hp (is_submit id) ltac:(exists id; tauto)) as ?Hp1;
  pose proof (Hp (is_manage id) ltac:(exists id; tauto)) as ?Hp2;
  pose proof (Hp (is_failed id) ltac:(exists id; tauto)) as ?Hp3;
  pose proof (Hp (is_done id) ltac:(exists id; tauto)) as ?Hp4;
  pose proof (Hp (is_unwatched id) ltac:(exists id; tauto)) as ?Hp5.

Lemma put_threads_same ts s :
  (qinv (put_threads ts s) ↔ qinv s) ∧ (objects_ok (put_threads ts s) ↔ objects_ok s) ∧
  (∀ id, indexed (put_threads ts s) id = indexed s id) ∧ (∀ id, started (put_threads ts s) id = started s id) ∧
  (∀ id, finished (put_threads ts s) id ↔ finished s id) ∧ o_objects (put_threads ts s) = o_objects s ∧
  o_running (put_threads ts s) = o_running s ∧ o_max (put_threads ts s) = o_max s.
Proof.
  split_and!; try by destruct s.
  split; intros [[H1 H2 H3 H4] H5]; destruct s; (split; [split|]); done.
Qed.

Lemma base_moves a s s1 s' next new :
  base s → effect a s s1 next new → moves a s s1 s' next new → base s'.
Proof.
  intros [Hi Hok Hs Hf] He [[ts ->] Hp].
  destruct (put_threads_same ts s1) as (P1 & P2 & P3 & _ & _ & P6 & _ & _).
  split; [apply P1, He|apply P2, He, Hok|..]; intros id; pose proof (e_submit _ _ _ _ _ He id) as H;
    pose proof (Hp (is_submit id) ltac:(exists id; tauto)) as Hp1; rewrite P3.
  - specialize (Hs id). lia.
  - rewrite P6. intros Hn. apply He in Hn. specialize (Hf id Hn). lia.
Qed.

Lemma claim_split a id :
  claim a id = (b2n (is_submit id a) + b2n (is_manage id a) + b2n (is_failed id a))%nat.
Proof. unfold claim, claims. rewrite !cnt_cons, !cnt_nil. lia. Qed.

Lemma started_le s id : (started s id ≤ 1)%nat.
Proof. apply b2n_le. Qed.
Lemma indexed_le s id : (indexed s id ≤ 1)%nat.
Proof. apply b2n_le. Qed.

Lemma pending_head (f : action → bool) s i a acts :
  o_threads s !! i = Some (a :: acts) → (b2n (f a) ≤ pending f s)%nat.
Proof.
  intros Hi. unfold pending. rewrite <-(take_drop_middle _ _ _ Hi), join_app, join_cons, !cnt_app, cnt_cons. lia.
Qed.

Lemma claimed_moves a s s1 s' next new :
  base s → claimed s → effect a s s1 next new → moves a s s1 s' next new →
  (∀ f, tracked f → (b2n (f a) ≤ pending f s)%nat) → claimed s'.
Proof.
  intros [_ Hok _ _] [Ht Hfr Hh Hw Hr] He [[ts ->] Hp] Ha.
  destruct (put_threads_same ts s1) as (_ & _ & P3 & P4 & P5 & P6 & P7 & P8).
  assert (∀ id, (total (put_threads ts s1) id ≤ total s id)%nat) as Htot.
  { intros id. pose proof (e_claims _ _ _ _ _ He id) as H. unfold total. rewrite P3, P4.
    rewrite claim_split in H. unfold claims in H. counts Hp id. lia. }
  split; intros id; counts Hp id; counts Ha id; specialize (Ht id).
  - specialize (Htot id). lia.
  - rewrite P6. intros Hn. apply He in Hn. specialize (Hfr id Hn). specialize (Htot id). lia.
  - rewrite P4, P7, P8, P5. intros Hm H. rewrite (e_max _ _ _ _ _ He) in Hm.
    destruct (decide (0 < cnt (is_manage id) next + cnt (is_manage id) (mjoin new))%nat) as [Hn|Hn].
    { left. by apply (e_managed _ _ _ _ _ He). }
    assert (0 < pending (is_manage id) s + started s id)%nat as H0.
    { destruct (e_started _ _ _ _ _ He id) as [E|E]; [rewrite E in H; lia|rewrite E in *; simpl in *; lia]. }
    destruct (Hh id Hm H0) as [Hrun|Hfin]; [|right; by apply He].
    destruct (e_removed _ _ _ _ _ He id Hrun) as [|[Hf|Hf]]; [by left| |right; by apply He].
    exfalso. rewrite Hf in *. unfold total in Ht. simpl in *. lia.
  - rewrite P3, P5. intros H. pose proof (e_indexed _ _ _ _ _ He id) as Hi.
    pose proof (e_unwatched _ _ _ _ _ He id) as Hu.
    destruct (is_done id a) eqn:Ed; [right; by apply He, (e_done _ _ _ _ _ He)|]. simpl in *.
    destruct (decide (0 < cnt (is_done id) next)%nat); [left; lia|].
    destruct (Hw id) as [|Hfin]; [lia|left; lia|right; by apply He].
  - rewrite P7. intros Hrun.
    destruct (decide (0 < cnt (is_manage id) next)%nat); [lia|].
    destruct (e_added _ _ _ _ _ He id Hrun) as [Hrun'|]; [|lia]. specialize (Hr id Hrun').
    destruct (is_failed id a) eqn:E1; [pose proof (e_gone _ _ _ _ _ He id (or_introl E1) Hrun); lia|].
    destruct (is_done id a) eqn:E2; [pose proof (e_gone _ _ _ _ _ He id (or_intror E2) Hrun); lia|].
    destruct (is_manage id a) eqn:E3; [|simpl in *; lia].
    destruct (e_manage _ _ _ _ _ He id Hok E3) as [Hm|[Hu Hnf]]; [lia|]. rewrite Hu in *. simpl in *.
    destruct (Hw id) as [|Hfin]; [lia|lia|done].
Qed.

(** ** Runs *)

Lemma pending_snoc f s s1 acts :
  o_threads s1 = o_threads s →
  pending f (put_threads (o_threads s1 ++ [acts]) s1) = (pending f s + cnt f acts)%nat.
Proof.
  intros E. unfold pending. rewrite <-E.
  replace (o_threads (put_threads _ s1)) with (o_threads s1 ++ [acts]) by by destruct s1.
  rewrite join_app, join_cons, !cnt_app. change (mjoin []) with (@nil action). rewrite cnt_nil. lia.
Qed.

Lemma tracked_watch f : tracked f → f (AWatch 0) = false.
Proof. by intros [id [->|[->|[->|[->| ->]]]]]. Qed.

(** A label that is no submission and no call of [StartRunner] is the effect of
    an action of a goroutine, or of one that carries no claim. *)
Lemma label_moves l s s' :
  base s → label_ok l s → do_olabel ctx_error l s = Some s' →
  (∃ a s1 next new, effect a s s1 next new ∧ moves a s s1 s' next new ∧
     ∀ f, tracked f → (b2n (f a) ≤ pending f s)%nat) ∨
  (∃ id ctx priority r, l = LSubmit id ctx priority r) ∨ (∃ id ctx, l = LStartRunner id ctx).
Proof.
  intros Hb Hok H. assert (∀ f, tracked f → (b2n (f (AWatch 0)) ≤ pending f s)%nat) as Hw.
  { intros f Hf. rewrite (tracked_watch f Hf). simpl. lia. }
  destruct l as [id ctx p r|i d|id|id ctx|ctxs|id r']; cbn [do_olabel label_ok] in *.
  - right. left. by eexists _, _, _, _.
  - left. destruct (o_threads s !! i) as [[|a acts]|] eqn:Hi; try done. cbn [mbind option_bind] in H.
    destruct (do_action ctx_error d a s) as [[[s1 next] new]|] eqn:Ea; [|done]. cbn [mbind option_bind] in H.
    injection H as <-. assert (effect a s s1 next new) as He.
    { apply (action_effect d); [apply Hb| |done]. intros id ctx p ->.
      pose proof (pending_head (is_submit id) s i _ acts Hi) as Hp. pose proof (b_submit _ Hb id).
      cbn in Hp. rewrite bool_decide_eq_true_2 in Hp by done. simpl in Hp. lia. }
    exists a, s1, next, new. split; [done|]. split; [|intros f _; by eapply pending_head]. split; [by eexists|].
    intros f _. unfold pending. rewrite (e_threads _ _ _ _ _ He).
    replace (o_threads (put_threads _ s1)) with (<[i:=next ++ acts]> (o_threads s) ++ new) by by destruct s1.
    by apply cnt_thread.
  - left. destruct (RemoveRunner ctx_error id s) as [[s1 err] acts] eqn:Er. injection H as <-.
    assert (effect (AWatch 0) s s1 acts []) as He.
    { assert (effect (AWatch 0) s s [] []) as Hsame by by apply effect_same; [apply Hb|..].
      unfold RemoveRunner in Er. destruct (o_objects s !! id); [|by injection Er as <- <- <-].
      destruct (bool_decide _); [|by injection Er as <- <- <-].
      destruct (negb _); [by injection Er as <- <- <-|].
      set (s2 := match o_byID s !! id with Some e => drop_entry id e s | None => s end) in *.
      assert (qslots s2) as Hs2.
      { unfold s2. destruct (o_byID s !! id) eqn:E; [apply qslots_drop; [apply Hb|done]|apply Hb]. }
      assert (o_max s2 = o_max s ∧ o_objects s2 = o_objects s ∧ o_started s2 = o_started s ∧
        o_threads s2 = o_threads s ∧ o_running s2 = o_running s) as (E1 & E2 & E3 & E4 & E5).
      { unfold s2. destruct (o_byID s !! id); by destruct s. }
      assert (∀ id', (indexed s2 id' ≤ indexed s id')%nat) as Hix.
      { intros id'. unfold s2. destruct (o_byID s !! id); [apply indexed_drop|done]. }
      destruct s2 as [a b c d e f g h i0 j k] eqn:Es2.
      pose proof (collect_dispatch_spec (mkOrch a b (c ∖ {[id]}) d e f g h i0 j k)) as Hc.
      destruct (collect_dispatch _ _) as [s3 acts3]. injection Er as <- <- <-.
      apply (effect_collected (AWatch 0) s (mkOrch a b (c ∖ {[id]}) d e f g h i0 j k) s3 [] acts3); try done.
      - apply Hc. destruct Hs2 as [H1 H2 H3 H4]. by split.
      - intros id'. cbn in *. by rewrite E5.
      - intros id'. left. cbn in *. by rewrite E5.
      - intros id' [?|?]; done. }
    exists (AWatch 0), s1, acts, []. split; [done|]. split; [|done]. split; [by eexists|].
    intros f Hf. rewrite (pending_snoc f s s1 acts (e_threads _ _ _ _ _ He)), (tracked_watch f Hf).
    change (mjoin []) with (@nil action). rewrite cnt_nil. simpl. lia.
  - right. right. by eexists _, _.
  - left. exists (AWatch 0), s', [], []. split; [|split; [|done]].
    + apply effect_objects; try done; [apply Hb|..]; destruct s; injection H as <-; done.
    + split; [exists (o_threads s'); by destruct s'|]. intros f Hf. rewrite (tracked_watch f Hf). unfold pending.
      replace (o_threads s') with (o_threads s) by (destruct s; by injection H as <-).
      change (mjoin []) with (@nil action). rewrite cnt_nil. simpl. lia.
  - left. destruct Hok as (r & Hr & Hstep). injection H as <-. exists (AWatch 0), (set_object id r' s), [], [].
    split; [|split; [|done]].
    + apply effect_set_object with r; [apply Hb|done|by intros ?; eapply ok_step|by eapply done_step|done|done].
    + split; [exists (o_threads s); by destruct s|]. intros f Hf. rewrite (tracked_watch f Hf).
      replace (pending f (set_object id r' s)) with (pending f s) by by destruct s.
      change (mjoin []) with (@nil action). rewrite cnt_nil. simpl. lia.
Qed.

Definition no_start (l : olabel R) : bool := match l with LStartRunner _ _ => false | _ => true end.

Lemma pending_put f ts s : pending f (put_threads ts s) = cnt f (mjoin ts).
Proof. unfold pending. by destruct s. Qed.

(** A submission registers its runner and makes one claim on it. *)
Lemma submit_state id ctx p r s s' :
  do_olabel ctx_error (LSubmit id ctx p r) s = Some s' →
  o_objects s !! id = None ∧ o_objects s' = <[id := r]> (o_objects s) ∧ o_running s' = o_running s ∧
  o_max s' = o_max s ∧ (qinv s → qinv s') ∧ (∀ id', indexed s' id' = indexed s id') ∧
  (∀ id', started s' id' = started s id') ∧
  ∀ f, pending f s' = (pending f s + b2n (f (ASubmit id ctx p)))%nat.
Proof.
  cbn [do_olabel]. destruct (_ && _) eqn:E; [|done]. destruct s as [a b c d e f g h i j k]. intros [= <-].
  apply andb_true_iff in E as [[E _]%andb_true_iff _]. apply bool_decide_eq_true in E.
  split_and!; try done.
  - intros [[H1 H2 H3 H4] H5]. by split; [split|].
  - intros f0. unfold pending. cbn [o_threads]. rewrite join_app, join_cons, !cnt_app, cnt_cons.
    change (mjoin []) with (@nil action). rewrite !cnt_nil. lia.
Qed.

Lemma base_step s l s' : base s → label_ok l s → do_olabel ctx_error l s = Some s' → base s'.
Proof.
  intros Hb Hok H.
  destruct (label_moves l s s' Hb Hok H) as [(a & s1 & next & new & He & Hm & _)|[(id & ctx & p & r & ->)|(id & ctx & ->)]].
  - by eapply base_moves.
  - destruct (submit_state _ _ _ _ _ _ H) as (Hn & Ho & _ & _ & Hi & Hx & _ & Hp).
    split; [apply Hi, Hb|..].
    + intros id' r'. rewrite Ho, lookup_insert_Some. intros [[_ <-]|[_ ?]]; [by apply ok_new|by eapply (b_ok _ Hb)].
    + intros id'. rewrite Hp, Hx. pose proof (b_submit _ Hb id'). cbn. destruct (decide (id = id')) as [->|].
      * pose proof (b_fresh _ Hb id' Hn). pose proof (b2n_le (bool_decide (id' = id'))). lia.
      * rewrite bool_decide_eq_false_2 by done. simpl. lia.
    + intros id'. rewrite Ho, lookup_insert_None. intros [Hn' Hne]. rewrite Hp, Hx.
      pose proof (b_fresh _ Hb id' Hn'). cbn. rewrite bool_decide_eq_false_2 by done. simpl. lia.
  - cbn in H. destruct (bool_decide _); [|by injection H as <-]. injection H as <-.
    destruct (put_threads_same (o_threads s ++ [startManagedRunner id ctx false]) s)
      as (P1 & P2 & P3 & _ & _ & P6 & _ & _).
    split; [apply P1, Hb|apply P2, Hb|..]; intros id'; rewrite P3, (pending_snoc _ s s) by done;
      change (cnt (is_submit id') (startManagedRunner id ctx false)) with 0%nat; rewrite Nat.add_0_r;
      [apply Hb|rewrite P6; apply Hb].
Qed.

Lemma claimed_step s l s' :
  base s → claimed s → no_start l = true → label_ok l s → do_olabel ctx_error l s = Some s' → claimed s'.
Proof.
  intros Hb Hc Hl Hok H.
  destruct (label_moves l s s' Hb Hok H) as [(a & s1 & next & new & He & Hm & Ha)|[(id & ctx & p & r & ->)|(id & ctx & ->)]];
    [by eapply claimed_moves| |done].
  destruct (submit_state _ _ _ _ _ _ H) as (Hn & Ho & Hr & Hmax & _ & Hx & Hst & Hp).
  destruct Hc as [Ht Hf Hh Hw Hre].
  assert (∀ id', finished s id' → finished s' id') as Hfin.
  { intros id' (r0 & H0 & Hd). exists r0. rewrite Ho. rewrite lookup_insert_ne by congruence. done. }
  assert (∀ id', total s' id' = (total s id' + b2n (bool_decide (id = id')))%nat) as Htot.
  { intros id'. unfold total. rewrite !Hp, Hx, Hst. cbn. lia. }
  split; intros id'.
  - rewrite Htot. destruct (decide (id = id')) as [<-|].
    + rewrite (Hf id Hn). pose proof (b2n_le (bool_decide (id = id))). lia.
    + rewrite bool_decide_eq_false_2 by done. specialize (Ht id'). simpl. lia.
  - rewrite Ho, lookup_insert_None. intros [Hn' Hne]. rewrite Htot, bool_decide_eq_false_2, (Hf id' Hn') by done. done.
  - rewrite Hmax, Hp, Hst, Hr. cbn. intros Hm H0. destruct (Hh id' Hm ltac:(lia)); [by left|right; auto].
  - rewrite Hx, !Hp. cbn. intros H0. destruct (Hw id' ltac:(lia)); [left; lia|right; auto].
  - rewrite Hr, !Hp. cbn. intros H0. specialize (Hre id' H0). lia.
Qed.

Lemma base_new max : 0 ≤ max → base (new_orch max).
Proof.
  intros Hm. assert (∀ id, (pending (is_submit id) (new_orch max) + indexed (new_orch max) id = 0)%nat) as H0.
  { intros id. unfold pending, indexed. cbn. by rewrite bool_decide_eq_false_2 by by intros [? ?]. }
  split; [|by intros id r|by intros id; rewrite H0; lia|done]. split; [|done]. split; cbn; [|rewrite size_empty; exact Hm|done|done].
  split; [apply heap_nil|constructor|by intros e ?%elem_of_nil|]. intros id e. rewrite lookup_empty.
  split; [done|]. by intros [?%elem_of_nil _].
Qed.

Lemma runs_base ok max s : 0 ≤ max → oruns ctx_error ok max s → base s.
Proof. intros Hm. induction 1 as [|s l s' _ IH _ Hl H]; [by apply base_new|by eapply base_step]. Qed.

Lemma runs_claimed max s : 0 ≤ max → oruns ctx_error no_start max s → claimed s.
Proof.
  intros Hm. induction 1 as [|s l s' Hr IH Hok Hl H].
  - assert (∀ id, total (new_orch (R := R) max) id = 0%nat) as H0.
    { intros id. unfold total, pending, indexed, started. cbn.
      rewrite !bool_decide_eq_false_2; [done|set_solver|by intros [? ?]]. }
    assert (∀ f, pending f (new_orch (R := R) max) = 0%nat) as Hp by done.
    split; try done; intros id; rewrite ?H0; try lia; rewrite ?Hp; specialize (H0 id); unfold total in H0; lia.
  - eapply claimed_step; try done. by eapply runs_base.
Qed.

Lemma runs_max ok max s : 0 ≤ max → oruns ctx_error ok max s → o_max s = max.
Proof.
  intros Hm. induction 1 as [|s l s' Hr IH Hok Hl H]; [done|]. rewrite <-IH.
  destruct (label_moves l s s' (runs_base _ _ _ Hm Hr) Hl H)
    as [(a & s1 & next & new & He & [[ts ->] _] & _)|[(id & ctx & p & r & ->)|(id & ctx & ->)]].
  - destruct (put_threads_same ts s1) as (_ & _ & _ & _ & _ & _ & _ & ->). apply He.
  - by apply submit_state in H as (_ & _ & _ & ? & _).
  - cbn in H. destruct (bool_decide _); injection H as <-; by destruct s.
Qed.

(** ** Properties *)

(** In every interleaving, the runner that gets the next free slot is a
    waiting one of the highest priority, and of those the one that was queued
    first; when nothing is popped, no runner waits. *)
Theorem queue_serves_in_order ok max s :
  0 ≤ max → oruns ctx_error ok max s → Z.of_nat (List.length (o_entries s)) < two64 →
  match popQueuedRunnerLocked s with
  | (None, _) => o_byID s = ∅
  | (Some e, _) =>
      let q := entry_at (o_entries s) e in
      o_byID s !! qe_id q = Some e ∧ qe_canceled q = false ∧
      ∀ id e', o_byID s !! id = Some e' →
        let q' := entry_at (o_entries s) e' in
        e' = e ∨ qe_priority q' < qe_priority q ∨ (qe_priority q' = qe_priority q ∧ (e < e')%nat)
  end.
Proof.
  intros Hm Hr Hlen. pose proof (b_inv _ (runs_base _ _ _ Hm Hr)) as [[Hc _ Ho _] _].
  unfold popQueuedRunnerLocked. pose proof (qcore_pop _ _ _ Hc) as H.
  destruct (pop_live _ _ _) as [[e|] queue']; [|by destruct H].
  destruct H as (_ & Hid & _ & _ & Hbest). cbv zeta.
  pose proof (proj1 (qc_index _ _ _ Hc _ _) Hid) as (Hin & Hl & _). split_and!; [done|done|].
  intros id e' He'. specialize (Hbest _ _ He').
  apply (qc_index _ _ _ Hc) in He' as (Hin' & _ & _).
  pose proof (qc_bound _ _ _ Hc _ Hin) as Hb. pose proof (qc_bound _ _ _ Hc _ Hin') as Hb'.
  assert (∀ x, (x < List.length (o_entries s))%nat → qe_order (entry_at (o_entries s) x) = Z.of_nat x) as Hord.
  { intros x Hx. unfold entry_at. destruct (lookup_lt_is_Some_2 _ _ Hx) as [q Hq]. rewrite Hq. cbn.
    rewrite (Ho _ _ Hq). apply Z.mod_small. lia. }
  unfold le, Less, entry_less in Hbest. rewrite !Hord in Hbest by done.
  destruct (Z.eqb_spec (qe_priority (entry_at (o_entries s) e')) (qe_priority (entry_at (o_entries s) e))) as [E|E];
    apply Z.ltb_ge in Hbest; [|right; left; lia].
  destruct (decide (e' = e)) as [->|]; [by left|right; right; split; [done|lia]].
Qed.

(** C21: In every interleaving, calls of StartRunner included, no more slots are
    taken than there are, no runner waits while a slot is free, and the index
    holds exactly the entries of the heap that are not canceled, each once. *)
Theorem queue_invariant ok max s :
  0 ≤ max → oruns ctx_error ok max s →
  Z.of_nat (size (o_running s)) ≤ max ∧
  (has_slot s = true → o_queue s = [] ∧ o_byID s = ∅) ∧
  heap (Less (o_entries s)) (o_queue s) ∧ NoDup (o_queue s) ∧
  (∀ id e, o_byID s !! id = Some e ↔
    e ∈ o_queue s ∧ qe_canceled (entry_at (o_entries s) e) = false ∧ qe_id (entry_at (o_entries s) e) = id).
Proof.
  intros Hm Hr. pose proof (runs_max _ _ _ Hm Hr) as Hmax.
  pose proof (b_inv _ (runs_base _ _ _ Hm Hr)) as [[Hc Hs _ _] Hf]. rewrite Hmax in Hs.
  split_and!; [done| |apply Hc|apply Hc|apply Hc].
  intros Hh. specialize (Hf Hh). split; [done|]. apply map_eq. intros id. rewrite lookup_empty.
  destruct (o_byID s !! id) as [e|] eqn:E; [|done]. apply (qc_index _ _ _ Hc) in E as (Hin & _).
  rewrite Hf in Hin. by apply elem_of_nil in Hin.
Qed.

(** C20: without calls of StartRunner, and with a limit, the runners that have
    been started and are not done are at most as many as the limit, whatever
    their callers do; no runner is started twice; and every slot is held by a
    runner that a goroutine is about to start, to release, or to release once it
    is done. *)
Theorem slots_respected max s :
  0 < max → oruns ctx_error no_start max s →
  (∀ X : gset bytes, (∀ id, id ∈ X → id ∈ o_started s ∧ ¬ finished s id) → Z.of_nat (size X) ≤ max) ∧
  (∀ id, (pending (is_manage id) s + b2n (bool_decide (id ∈ o_started s)) ≤ 1)%nat) ∧
  (∀ id, id ∈ o_running s → ∃ t a, t ∈ o_threads s ∧ a ∈ t ∧
    (is_failed id a = true ∨ is_manage id a = true ∨ is_done id a = true)).
Proof.
  intros Hm Hr. assert (0 ≤ max) as Hm0 by lia. pose proof (runs_claimed _ _ Hm0 Hr) as [Ht _ Hh _ Hre].
  pose proof (runs_max _ _ _ Hm0 Hr) as Hmax. pose proof (qs_slots _ (qi_slots _ (b_inv _ (runs_base _ _ _ Hm0 Hr)))) as Hs.
  rewrite Hmax in Hh, Hs. split_and!.
  - intros X HX. etrans; [|exact Hs]. apply inj_le, subseteq_size. intros id Hid.
    destruct (HX id Hid) as [Hst Hnf]. destruct (Hh id Hm) as [|]; [|done|done].
    unfold started. rewrite bool_decide_eq_true_2 by done. simpl. lia.
  - intros id. specialize (Ht id). unfold total, started in Ht. lia.
  - intros id Hid. specialize (Hre id Hid).
    assert (∃ f, (f = is_failed id ∨ f = is_manage id ∨ f = is_done id) ∧ (0 < pending f s)%nat) as (f & Hf & Hp).
    { destruct (decide (0 < pending (is_failed id) s)%nat); [eauto|].
      destruct (decide (0 < pending (is_manage id) s)%nat); [eauto|]. exists (is_done id). split; [auto|lia]. }
    unfold pending, cnt in Hp. destruct (List.filter f (mjoin (o_threads s))) as [|a l] eqn:E; [simpl in Hp; lia|].
    assert (In a (List.filter f (mjoin (o_threads s)))) as Hin by (rewrite E; by left).
    apply List.filter_In in Hin as [Hin Hfa]. apply list_elem_of_In, list_elem_of_join in Hin as (t & Ha & Ht0).
    exists t, a. split_and!; [done|done|]. destruct Hf as [->|[->| ->]]; auto.
Qed.

End Facts.

(** ** The runners of the lifecycle *)

#[export] Instance runner_managed : ManagedRunner runner := {|
  mr_StartManaged := StartManaged;
  mr_Abort e r := (Abort_ e r).1;
  mr_status r := rs_Status (r_state r);
  mr_removable r := IsRemovable (r_state r);
  mr_done := r_done;
  mr_new r := ∃ id plan nodes, r = New id plan nodes;
  mr_step r r' := ∃ id l, do_label id l r = Some r' |}.

Lemma thread_done t a s s' ts : thread_step t a s = Some (s', ts) → r_done s' = r_done s.
Proof.
  destruct s. destruct t; cbn; intros H; repeat (case_match; simplify_eq/=; try done).
  unfold settle_begin in *. repeat (case_match; simplify_eq/=; try done).
Qed.

Lemma op_done id o s : r_done (do_op id o s).1 = r_done s.
Proof.
  destruct s. destruct o; cbn [do_op];
    unfold Start, StartPolish, AcceptPolishedPlan, RejectPolishedPlan, ReplanWith, Complete, StartManaged,
      prepareEngineLaunch; cbn; by repeat case_match.
Qed.

Lemma eff_created t c c' new : eff t c c' new → c_ph c ≠ PhaseCreated → c_ph c' ≠ PhaseCreated.
Proof. by destruct 1. Qed.
Lemma op_eff_created q c c' new : op_eff q c c' new → c_ph c ≠ PhaseCreated → c_ph c' ≠ PhaseCreated.
Proof. by destruct 1. Qed.

(** No step returns to the created phase, and [Done] is closed in the settled one. *)
Lemma label_done id l s s' :
  do_label id l s = Some s' →
  (r_phase s ≠ PhaseCreated → r_phase s' ≠ PhaseCreated) ∧ (r_done s = true → r_done s' = true) ∧
  (r_done s' = true → r_done s = true ∨ r_phase s' = PhaseSettled).
Proof.
  intros H. split.
  { apply label_eff in H as [(i & t & new & _ & He & _)|(new & He & _)];
      [exact (eff_created _ _ _ _ He)|exact (op_eff_created _ _ _ _ He)]. }
  destruct l as [o|i a| |]; cbn in H.
  - injection H as <-. rewrite op_done. auto.
  - destruct (r_threads s !! i) as [t|]; [|done]. cbn in H. destruct (answer_ok a s); [|done].
    destruct (thread_step t a s) as [[s1 ts]|] eqn:E; [|done]. cbn in H. injection H as <-.
    apply thread_done in E. assert (r_done (set_threads (take i (r_threads s) ++ ts ++ drop (S i) (r_threads s)) s1) = r_done s1) as ->
      by by destruct s1. rewrite E. auto.
  - unfold observer_step in H. destruct s. cbn in *. destruct r_observer, r_unread; try done;
      destruct (bool_decide _) eqn:Eb; injection H as <-; cbn; auto;
      apply bool_decide_eq_true in Eb; auto.
  - destruct s. cbn in *. destruct r_observer; try done; injection H as <-; cbn; auto.
Qed.

#[export] Instance runner_laws : ManagedLaws runner.
Proof.
  assert (∀ id o s, (r_done s = true → r_phase s ≠ PhaseCreated) →
    r_done (do_op id o s).1 = true → r_phase (do_op id o s).1 ≠ PhaseCreated) as Hop.
  { intros id o s Hs Hd. destruct (label_done id (LOp o) s _ eq_refl) as (H & _ & _). apply H, Hs.
    by rewrite op_done in Hd. }
  refine {| mr_ok r := r_done r = true → r_phase r ≠ PhaseCreated |}.
  - by intros r (id & plan & nodes & ->).
  - intros e r Hr. exact (Hop [] (OpStartManaged e) r Hr).
  - intros e r Hr. exact (Hop [] (OpAbort e) r Hr).
  - intros r r' Hr (id & l & Hl) Hd. destruct (label_done id l r r' Hl) as (H1 & _ & H3).
    destruct (H3 Hd) as [|Hs]; [by apply H1, Hr|]. by rewrite Hs.
  - intros e r Hd. cbn. pose proof (op_done [] (OpStartManaged e) r) as H. cbn in H. by rewrite H.
  - intros e r Hd. by destruct r.
  - intros r r' (id & l & Hl). by destruct (label_done id l r r' Hl) as (_ & H & _).
  - intros e r Hr Hd. cbn. unfold StartManaged. destruct e; [done|]. destruct (r_managed r); [done|]. cbn.
    destruct (r_plan r); [|done]. by rewrite bool_decide_eq_false_2 by by apply Hr.
Qed.

(** ** A concrete orchestrator *)

Definition ctx_err (ctx : nat) : error := ctx_canceled.
Fixpoint run_olabels (ls : list (olabel runner)) (s : orch runner) : option (orch runner) :=
  match ls with [] => Some s | l :: ls => s' ← do_olabel ctx_err l s; run_olabels ls s' end.
Definition simple_label (ok : olabel runner → bool) (l : olabel runner) : Prop :=
  ok l = true ∧ ∀ s : orch runner, label_ok l s.

Lemma oruns_labels ok max ls s s' :
  oruns ctx_err ok max s → Forall (simple_label ok) ls → run_olabels ls s = Some s' → oruns ctx_err ok max s'.
Proof.
  intros Hr Hls. revert s Hr. induction Hls as [|l ls [Hok Hl] _ IH]; intros s Hr H; cbn in H; [by simplify_eq|].
  destruct (do_olabel ctx_err l s) as [s1|] eqn:E; [|done]. apply (IH s1); [|done].
  by eapply oruns_step.
Qed.

Definition queue_runner (id : bytes) : runner := New id (Some a_plan) a_nodes.
Definition submit_label (id : string) (priority : Z) : olabel runner :=
  LSubmit (s2b id) 1 priority (queue_runner (s2b id)).
(** One slot: [a] is started, [b], [c] and [d] wait. *)
Definition queue_labels : list (olabel runner) :=
  [submit_label "a" 0; LGo 0 true; LGo 0 true; LGo 0 true;
   submit_label "b" 1; LGo 2 true; submit_label "c" 4; LGo 4 true; submit_label "d" 4; LGo 6 true].
Definition queue_state : orch runner := default (new_orch 1) (run_olabels queue_labels (new_orch 1)).

Lemma queue_state_runs ok : (∀ l, l ∈ queue_labels → ok l = true) → oruns ctx_err ok 1 queue_state.
Proof.
  intros Hok. apply (oruns_labels ok 1 queue_labels (new_orch 1)); [constructor| |by vm_compute].
  apply Forall_forall. intros l Hl. split; [by apply Hok|]. intros s.
  unfold queue_labels in Hl. repeat (apply elem_of_cons in Hl as [->|Hl];
    [first [exact I|by eexists _, _, _]|]). by apply elem_of_nil in Hl.
Qed.

Lemma queue_serves_in_order_witness :
  match popQueuedRunnerLocked queue_state with
  | (Some e, _) => e = 1%nat ∧ qe_id (entry_at (o_entries queue_state) e) = s2b "c" ∧
      ∀ id e', o_byID queue_state !! id = Some e' →
        e' = e ∨ qe_priority (entry_at (o_entries queue_state) e') < 4 ∨
        (qe_priority (entry_at (o_entries queue_state) e') = 4 ∧ (e < e')%nat)
  | (None, _) => False
  end.
Proof.
  pose proof (queue_serves_in_order ctx_err (λ _, true) 1 queue_state ltac:(lia)
    (queue_state_runs (λ _, true) (λ _ _, eq_refl)) ltac:(by vm_compute)) as H.
  assert ((popQueuedRunnerLocked queue_state).1 = Some 1%nat) as E by (vm_compute; reflexivity).
  destruct (popQueuedRunnerLocked queue_state) as [o s']. cbn [fst] in E. subst o. destruct H as (_ & _ & H).
  split; [reflexivity|]. split; [vm_compute; reflexivity|]. exact H.
Defined.

Lemma queue_invariant_witness :
  has_slot queue_state = false ∧ size (o_byID queue_state) = 3%nat ∧
  Z.of_nat (size (o_running queue_state)) ≤ 1 ∧ NoDup (o_queue queue_state).
Proof.
  pose proof (queue_invariant ctx_err (λ _, true) 1 queue_state ltac:(lia)
    (queue_state_runs (λ _, true) (λ _ _, eq_refl))) as (H1 & _ & _ & H4 & _).
  split; [vm_compute; reflexivity|]. split; [vm_compute; reflexivity|]. exact (conj H1 H4).
Defined.

Lemma slots_respected_witness :
  s2b "a" ∈ o_started queue_state ∧
  (∀ X : gset bytes, (∀ id, id ∈ X → id ∈ o_started queue_state ∧ ¬ finished queue_state id) →
    Z.of_nat (size X) ≤ 1).
Proof.
  split; [apply (bool_decide_eq_true_1 _); vm_compute; reflexivity|].
  apply (slots_respected ctx_err 1 queue_state); [lia|]. apply queue_state_runs.
  apply Forall_forall. repeat (apply List.Forall_cons; [reflexivity|]). apply List.Forall_nil.
Defined.

(** [StartRunner] on a runner that has been started aborts it when it is still
    polishing, and gives its slot to the next runner although it is not done. *)
Lemma restart_aborts_runner :
  let s := default queue_state (run_olabels
    [LStartRunner (s2b "a") 1; LGo 8 true; LGo 8 true; LGo 8 true; LGo 8 true] queue_state) in
  (r_phase <$> o_objects queue_state !! s2b "a") = Some PhaseCreated ∧
  (r_phase <$> o_objects s !! s2b "a") = Some PhaseSettled ∧
  bool_decide (s2b "a" ∈ o_running s) = false ∧ bool_decide (s2b "c" ∈ o_running s) = true.
Proof. vm_compute. done. Qed.
