(* ===== verification/Log.v ===== *)
(** The append-only JSON Lines stores: [llm/session.go] ([JSONStore]) and, line
    for line the same over another record type, [runner/store.go] and
    [runner/codec.go] ([JSONRunnerStore]). The file system is a map from paths
    to contents; every system call can fail, by an oracle; an operation runs
    under the per-log mutex and is one step. [time.Now] is an argument. *)
From S2P Require Import Prelude Json GoText Text.

(** ** [path/filepath] on Unix *)

Definition Clean_seg (rooted : bool) (stack : list bytes) (seg : bytes) : list bytes :=
  if bool_decide (seg = []) || bool_decide (seg = s2b ".") then stack
  else if bool_decide (seg = s2b "..") then
    match stack with
    | [] => if rooted then [] else [seg]
    | top :: stack' => if bool_decide (top = s2b "..") then seg :: stack else stack'
    end
  else seg :: stack.

Definition is_rooted (p : bytes) : bool :=
  match p with c :: _ => Ascii.eqb c "/" | [] => false end.

(** The elements of a cleaned path. *)
Definition Clean_segs (p : bytes) : list bytes :=
  reverse (foldl (Clean_seg (is_rooted p)) [] (SplitByte "/" p)).

Definition Clean (p : bytes) : bytes :=
  match is_rooted p, Join (Clean_segs p) (s2b "/") with
  | true, s => "/"%char :: s
  | false, [] => s2b "."
  | false, s => s
  end.

(** [filepath.Join] of two elements, the second not empty. *)
Definition Join2 (dir name : bytes) : bytes :=
  match dir with [] => Clean name | _ => Clean (dir ++ s2b "/" ++ name) end.

(** ** Records *)

(** What a store needs of its record type: the sequence number, whether the
    record is the init anchor, the stamping [Append] does (the sequence number,
    and the time unless it is set), and [encoding/json] on the type. *)
Class LogRecord (R : Type) := {
  rec_Seq : R → Z;
  rec_init : R → bool;
  rec_stamp : Z → bytes → R → R;
  rec_marshal : R → option bytes;
  rec_unmarshal : bytes → option R }.

Inductive log_err :=
| ErrNilRecord | ErrEmptyID | ErrSeparator | ErrHidden
| ErrIO | ErrCorrupt (line : Z) | ErrTooLong | ErrMarshal
| ErrNotFound | ErrNotInitialised | ErrAlreadyInitialised.
#[export] Instance log_err_eq_dec : EqDecision log_err. Proof. solve_decision. Defined.

(** ** The environment *)

(** The system calls that can fail. *)
Inductive call :=
| COpen | CFlock | CStat | CScan | CWrite | CSync | CRestat
| CSeek | CTemp | CTmpWrite | CTmpClose | CRename | CRemove.

(** [io_read] is [Some n] when reading fails after [n] bytes; a failed write
    has appended the first [io_short] bytes. *)
Record io := mkIO { io_ok : call → bool; io_read : option nat; io_short : nat }.
Definition io_fine : io := mkIO (λ _, true) None 0.

(** [runnerLogState] and [sessionState]. *)
Record logState := mkState {
  st_lastSeq : Z; st_hasInit : bool; st_size : Z; st_cached : bool }.
Definition zero_state : logState := mkState 0 false 0 false.
Definition uncache (m : logState) : logState :=
  mkState (st_lastSeq m) (st_hasInit m) (st_size m) false.

(** The files, and the states one store object keeps. *)
Record world := mkWorld { w_files : gmap bytes bytes; w_states : gmap bytes logState }.
Definition set_file (p data : bytes) (w : world) : world :=
  mkWorld (<[p := data]> (w_files w)) (w_states w).
Definition set_state (id : bytes) (m : logState) (w : world) : world :=
  mkWorld (w_files w) (<[id := m]> (w_states w)).

Definition len (s : bytes) : Z := Z.of_nat (List.length s).

(** ** Identifiers and paths *)

Definition validateID (id : bytes) : option log_err :=
  if bool_decide (id = []) then Some ErrEmptyID
  else if bool_decide ("/"%char ∈ id) || bool_decide (bsl ∈ id) || Contains id (s2b "..")
  then Some ErrSeparator
  else match id with c :: _ => if Ascii.eqb c "." then Some ErrHidden else None | [] => None end.

Definition log_path (root id : bytes) : res log_err bytes :=
  match validateID id with
  | Some e => Err e
  | None => Ok (Join2 root (id ++ s2b ".jsonl"))
  end.

Definition getState (id : bytes) (w : world) : logState * world :=
  match w_states w !! id with
  | Some st => (st, w)
  | None => (zero_state, set_state id zero_state w)
  end.

(** ** Reading a file *)

(** [bufio.ScanLines] under a buffer of 8 MiB: the lines, without a trailing
    carriage return, and whether a line that does not fit stopped the scan. *)
Definition max_token : Z := 8 * 1024 * 1024.

Definition dropCR (l : bytes) : bytes :=
  match reverse l with
  | c :: r => if Ascii.eqb c "013" then reverse r else l
  | [] => []
  end.

Fixpoint scan_pieces (ps : list bytes) : list bytes * bool :=
  match ps with
  | [] => ([], false)
  | p :: ps' =>
      match p, ps' with
      | [], [] => ([], false)
      | _, _ =>
          if max_token <=? len p then ([], true)
          else let '(ls, long) := scan_pieces ps' in (dropCR p :: ls, long)
      end
  end.

Definition ScanLines (data : bytes) : list bytes * bool := scan_pieces (SplitByte "010" data).

(** A log per identifier. *)
Abbreviation logs T := (gmap bytes (list T)).

Section Store.
Context {R : Type} {rec : LogRecord R}.

(** [out], [pending] with [pendOK], [pendLine] and [lineNo]. *)
Record decoder := mkDecoder {
  d_out : list R; d_pending : option R; d_pendLine : Z; d_lineNo : Z }.

Definition decode_line (d : decoder) (line : bytes) : res log_err decoder :=
  let lineNo := d_lineNo d + 1 in
  match TrimSpace line with
  | [] => Ok (mkDecoder (d_out d) (d_pending d) (d_pendLine d) lineNo)
  | _ =>
      match d_pending d with
      | Some r => Ok (mkDecoder (d_out d ++ [r]) (rec_unmarshal line) lineNo lineNo)
      | None =>
          if 0 <? d_pendLine d then Err (ErrCorrupt (d_pendLine d))
          else Ok (mkDecoder (d_out d) (rec_unmarshal line) lineNo lineNo)
      end
  end.

Fixpoint decode_lines (d : decoder) (lines : list bytes) : res log_err decoder :=
  match lines with
  | [] => Ok d
  | l :: ls => let? d' := decode_line d l in decode_lines d' ls
  end.

Definition decodeEvents (i : io) (data : bytes) : res log_err (list R) :=
  let '(lines, long) := ScanLines (match io_read i with Some n => take n data | None => data end) in
  let? d := decode_lines (mkDecoder [] None 0 0) lines in
  if long then Err ErrTooLong
  else if io_read i is Some _ then Err ErrIO
  else Ok (d_out d ++ option_list (d_pending d)).

Definition scanLastSeq (i : io) (p : bytes) (w : world) : res log_err (Z * bool) :=
  match w_files w !! p with
  | None => Ok (0, false)
  | Some data =>
      if negb (io_ok i CScan) then Err ErrIO
      else
        let? events := decodeEvents i data in
        Ok (foldl (λ '(last, hasInit) ev,
              (if last <? rec_Seq ev then rec_Seq ev else last, hasInit || rec_init ev))
            (0, false) events)
  end.

(** ** Append

    Up to the encoded line: open (which creates the file), lock, stat, the last
    sequence number from the cache or the file, the init rules, the stamp. *)
Definition Append_open (i : io) (p : bytes) (w : world) : res log_err bytes * world :=
  if negb (io_ok i COpen) then (Err ErrIO, w)
  else
    let data := default [] (w_files w !! p) in
    (Ok data, set_file p data w).

Definition Append_last (i : io) (p : bytes) (m : logState) (data : bytes) (w : world)
  : res log_err (Z * bool) :=
  if negb (io_ok i CFlock) then Err ErrIO
  else if negb (io_ok i CStat) then Err ErrIO
  else if st_cached m && (len data =? st_size m) then Ok (st_lastSeq m, st_hasInit m)
  else scanLastSeq i p w.

Definition Append_check (r : R) (hasInit : bool) : option log_err :=
  if rec_init r && hasInit then Some ErrAlreadyInitialised
  else if negb (rec_init r) && negb hasInit then Some ErrNotInitialised
  else None.

Definition newline : bytes := ["010"%char].
Definition Append_line (r : R) : res log_err bytes :=
  match rec_marshal r with Some l => Ok (l ++ newline) | None => Err ErrMarshal end.

(** Write, sync and stat again; the cache is set last, and dropped on a
    failure. *)
Definition Append_write (i : io) (p id line : bytes) (r : R) (hasInit : bool) (m : logState)
    (w : world) : res log_err Z * world :=
  let data := default [] (w_files w !! p) in
  if negb (io_ok i CWrite) then
    (Err ErrIO, set_state id (uncache m) (set_file p (data ++ take (io_short i) line) w))
  else
    let w := set_file p (data ++ line) w in
    if negb (io_ok i CSync) then (Err ErrIO, set_state id (uncache m) w)
    else if negb (io_ok i CRestat) then (Ok (rec_Seq r), set_state id (uncache m) w)
    else (Ok (rec_Seq r),
          set_state id (mkState (rec_Seq r) (hasInit || rec_init r) (len (data ++ line)) true) w).

(** The result, the caller's record afterwards and the world. *)
Definition Append (root : bytes) (i : io) (now id : bytes) (rec : option R) (w : world)
  : res log_err Z * option R * world :=
  match rec with
  | None => (Err ErrNilRecord, None, w)
  | Some r =>
      match log_path root id with
      | Err e => (Err e, rec, w)
      | Ok p =>
          let '(m, w) := getState id w in
          let '(opened, w) := Append_open i p w in
          match (let? data := opened in Append_last i p m data w) with
          | Err e => (Err e, rec, w)
          | Ok (lastSeq, hasInit) =>
              match Append_check r hasInit with
              | Some e => (Err e, rec, w)
              | None =>
                  let r := rec_stamp (i64 (lastSeq + 1)) now r in
                  match Append_line r with
                  | Err e => (Err e, Some r, w)
                  | Ok line =>
                      let '(result, w) := Append_write i p id line r hasInit m w in
                      (result, Some r, w)
                  end
              end
          end
      end
  end.

(** ** Load, Truncate, Delete *)

Definition Load (root : bytes) (i : io) (id : bytes) (w : world) : res log_err (list R) * world :=
  match log_path root id with
  | Err e => (Err e, w)
  | Ok p =>
      let '(_, w) := getState id w in
      match w_files w !! p with
      | None => (Err ErrNotFound, w)
      | Some data => (if negb (io_ok i COpen) then Err ErrIO else decodeEvents i data, w)
      end
  end.

(** The events a truncation keeps. *)
Definition Truncate_keep (toSeq : Z) (ev : R) : bool :=
  if toSeq <=? 0 then rec_init ev else negb (toSeq <? rec_Seq ev).

Definition Truncate_buf (toSeq : Z) (events : list R) : res log_err bytes :=
  match mapM rec_marshal (List.filter (Truncate_keep toSeq) events) with
  | Some lines => Ok (mjoin ((λ l, l ++ newline) <$> lines))
  | None => Err ErrMarshal
  end.

(** The kept events go to a temporary file, whose name starts with a dot and
    so is no log's, which replaces the log when it is complete. *)
Definition Truncate (root : bytes) (i : io) (id : bytes) (toSeq : Z) (w : world)
  : res log_err unit * world :=
  match log_path root id with
  | Err e => (Err e, w)
  | Ok p =>
      let '(m, w) := getState id w in
      match w_files w !! p with
      | None => (Err ErrNotFound, w)
      | Some data =>
          if negb (io_ok i COpen && io_ok i CFlock && io_ok i CSeek) then (Err ErrIO, w)
          else
            match decodeEvents i data with
            | Err e => (Err e, w)
            | Ok events =>
                let w := set_state id (uncache m) w in
                match Truncate_buf toSeq events with
                | Err e => (Err e, w)
                | Ok buf =>
                    if negb (io_ok i CTemp && io_ok i CTmpWrite && io_ok i CTmpClose && io_ok i CRename)
                    then (Err ErrIO, w)
                    else (Ok tt, set_file p buf w)
                end
            end
      end
  end.

Definition Delete (root : bytes) (i : io) (id : bytes) (w : world) : res log_err unit * world :=
  match log_path root id with
  | Err e => (Err e, w)
  | Ok p =>
      let '(m, w) := getState id w in
      let w := set_state id (uncache m) w in
      match w_files w !! p with
      | None => (Err ErrNotFound, w)
      | Some _ =>
          if negb (io_ok i CRemove) then (Err ErrIO, w)
          else (Ok tt, mkWorld (delete p (w_files w)) (w_states w))
      end
  end.

(** A new process over the same files, and a process that dies after [n] bytes
    of the line it appends. *)
Definition reopen (w : world) : world := mkWorld (w_files w) ∅.
Definition Append_crash (root now id : bytes) (r : R) (n : nat) (w : world) : world :=
  reopen (Append root (mkIO (λ c, match c with CWrite => false | _ => true end) None n)
            now id (Some r) w).2.

(** ** Runs of operations *)

Inductive log_op :=
| OpAppend (now id : bytes) (rec : option R)
| OpLoad (id : bytes)
| OpTruncate (id : bytes) (toSeq : Z)
| OpDelete (id : bytes)
| OpReopen.

Inductive log_out :=
| OutSeq (r : res log_err Z)
| OutLog (r : res log_err (list R))
| OutUnit (r : res log_err unit).

Definition do_log (root : bytes) (op : log_op) (w : world) : log_out * world :=
  match op with
  | OpAppend now id rec =>
      let '(r, _, w) := Append root io_fine now id rec w in (OutSeq r, w)
  | OpLoad id => let '(r, w) := Load root io_fine id w in (OutLog r, w)
  | OpTruncate id n => let '(r, w) := Truncate root io_fine id n w in (OutUnit r, w)
  | OpDelete id => let '(r, w) := Delete root io_fine id w in (OutUnit r, w)
  | OpReopen => (OutUnit (Ok tt), reopen w)
  end.

(** ** The log a store promises

    A log per identifier, as the list of its records; an empty list is a log
    that was created by a refused first record. *)
Class LogLaws := {
  rec_ok : R → Prop;
  now_ok : bytes → Prop;
  rec_norm : R → R;
  rec_stamp_Seq n now r : rec_Seq (rec_stamp n now r) = n;
  rec_stamp_init n now r : rec_init (rec_stamp n now r) = rec_init r;
  rec_stamp_ok n now r : rec_ok r → now_ok now → 0 ≤ n < two63 → rec_ok (rec_stamp n now r);
  rec_norm_Seq r : rec_Seq (rec_norm r) = rec_Seq r;
  rec_norm_init r : rec_init (rec_norm r) = rec_init r;
  rec_norm_line r l : rec_ok r → rec_marshal r = Some l → rec_marshal (rec_norm r) = Some l;
  rec_read r l : rec_ok r → rec_marshal r = Some l → rec_unmarshal l = Some (rec_norm r);
  rec_partial r l p t : rec_ok r → rec_marshal r = Some l → l = p ++ t → t ≠ [] →
    rec_unmarshal p = None;
  rec_line r l : rec_ok r → rec_marshal r = Some l →
    "010"%char ∉ l ∧ "013"%char ∉ l ∧ TrimSpace l ≠ [] }.

(** The log with one more record: what [Load] returns after [Append]. *)
Definition spec_append `{LogLaws} (now id : bytes) (r : R) (st : logs R) : res log_err Z * logs R :=
  match validateID id with
  | Some e => (Err e, st)
  | None =>
      let log := default [] (st !! id) in
      let st := <[id := log]> st in
      match rec_init r, log with
      | true, _ :: _ => (Err ErrAlreadyInitialised, st)
      | false, [] => (Err ErrNotInitialised, st)
      | _, _ =>
          let seq := Z.of_nat (S (List.length log)) in
          match rec_marshal (rec_stamp seq now r) with
          | None => (Err ErrMarshal, st)
          | Some _ => (Ok seq, <[id := log ++ [rec_norm (rec_stamp seq now r)]]> st)
          end
      end
  end.

Definition spec_found {T : Type} (id : bytes) (st : logs R) (f : list R → T) : res log_err T :=
  match validateID id, st !! id with
  | Some e, _ => Err e
  | None, None => Err ErrNotFound
  | None, Some log => Ok (f log)
  end.

(** [toSeq <= 0] keeps the init record, otherwise the first [toSeq] records. *)
Definition spec_keep (toSeq : Z) (log : list R) : list R :=
  take (Z.to_nat (Z.max 1 toSeq)) log.

Definition spec_log `{LogLaws} (op : log_op) (st : logs R) : log_out * logs R :=
  match op with
  | OpAppend _ _ None => (OutSeq (Err ErrNilRecord), st)
  | OpAppend now id (Some r) => let '(o, st) := spec_append now id r st in (OutSeq o, st)
  | OpLoad id => (OutLog (spec_found id st (λ log, log)), st)
  | OpTruncate id n =>
      (OutUnit (spec_found id st (λ _, tt)),
       if validateID id is Some _ then st else alter (spec_keep n) id st)
  | OpDelete id =>
      (OutUnit (spec_found id st (λ _, tt)),
       if validateID id is Some _ then st else delete id st)
  | OpReopen => (OutUnit (Ok tt), st)
  end.

Fixpoint run_with {T : Type} (step : log_op → T → log_out * T) (ops : list log_op) (s : T)
  : list log_out * T :=
  match ops with
  | [] => ([], s)
  | op :: ops =>
      let '(o, s) := step op s in
      let '(os, s) := run_with step ops s in (o :: os, s)
  end.

End Store.
Arguments LogLaws R {rec}.
Arguments log_op R : clear implicits.
Arguments log_out R : clear implicits.
