(* ===== verification/LogFacts.v ===== *)
(** The append-only stores against the log they promise: where a ologs file
    lies, what reading a file returns, the refinement of the abstract log by
    every operation, and what a crash during an append leaves. *)
From S2P Require Import Prelude Json GoText Text Event Log.

(** ** Paths *)

Lemma SplitByte_nonempty c s : SplitByte c s ≠ [].
Proof.
  destruct s as [|d s]; simpl; [done|]. destruct (Ascii.eqb d c); [done|].
  by destruct (SplitByte c s).
Qed.

Lemma SplitByte_lines c ls t :
  Forall (λ l, c ∉ l) ls → c ∉ t →
  SplitByte c (mjoin ((λ l, l ++ [c]) <$> ls) ++ t) = ls ++ [t].
Proof.
  intros Hls Ht. induction Hls as [|l ls Hl Hls IH]; [by apply SplitByte_one|].
  rewrite fmap_cons, join_cons, <-!app_assoc. cbn [app].
  by rewrite SplitByte_sep, (SplitByte_one c l), IH.
Qed.

(** The directory part of a ologs path: the elements of the cleaned root. *)
Definition dir_prefix (root : bytes) : bytes :=
  (if is_rooted root then s2b "/" else [])
  ++ mjoin ((λ seg, seg ++ s2b "/") <$> Clean_segs root).

Lemma Join_snoc segs a sep : Join (segs ++ [a]) sep = mjoin ((λ s, s ++ sep) <$> segs) ++ a.
Proof.
  destruct segs as [|s segs]; [apply app_nil_r|].
  change (Join ((s :: segs) ++ [a]) sep) with (s ++ mjoin (app sep <$> segs ++ [a])).
  revert s. induction segs as [|s' segs IH]; intros s.
  - cbn. by rewrite !app_nil_r, <-app_assoc.
  - change ((s' :: segs) ++ [a]) with (s' :: segs ++ [a]).
    rewrite (fmap_cons _ s), join_cons, <-(app_assoc _ _ a), <-IH.
    by rewrite fmap_cons, join_cons, <-!app_assoc.
Qed.

(** A file name: one path element, and neither of the two special ones. *)
Definition file_name (name : bytes) : Prop :=
  "/"%char ∉ name ∧ name ≠ [] ∧ name ≠ s2b "." ∧ name ≠ s2b "..".

Lemma Clean_seg_name rooted stack name : file_name name → Clean_seg rooted stack name = name :: stack.
Proof.
  intros (_ & H0 & H1 & H2). unfold Clean_seg. by rewrite !bool_decide_eq_false_2.
Qed.

Lemma not_rooted name : "/"%char ∉ name → is_rooted name = false.
Proof.
  destruct name as [|d name]; [done|]. intros [Hd _]%not_elem_of_cons. simpl.
  destruct (Ascii.eqb_spec d "/"); congruence.
Qed.

Lemma Join2_child dir name : file_name name → Join2 dir name = dir_prefix dir ++ name.
Proof.
  intros Hn. pose proof Hn as (Hs & H0 & _). destruct dir as [|c dir].
  - cbn [Join2]. unfold Clean. rewrite not_rooted by done.
    assert (Clean_segs name = [name]) as ->.
    { unfold Clean_segs. rewrite SplitByte_one by done. simpl. by rewrite Clean_seg_name. }
    simpl. rewrite app_nil_r. by destruct name.
  - unfold Join2, Clean. change (is_rooted ((c :: dir) ++ s2b "/" ++ name)) with (is_rooted (c :: dir)).
    assert (Clean_segs ((c :: dir) ++ s2b "/" ++ name) = Clean_segs (c :: dir) ++ [name]) as ->.
    { unfold Clean_segs. change (is_rooted ((c :: dir) ++ s2b "/" ++ name)) with (is_rooted (c :: dir)).
      change (s2b "/" ++ name) with ("/"%char :: name).
      rewrite SplitByte_sep, foldl_app, (SplitByte_one _ name) by done.
      cbn [foldl]. by rewrite Clean_seg_name, reverse_cons. }
    rewrite Join_snoc. unfold dir_prefix.
    destruct (is_rooted (c :: dir)); [by rewrite <-app_assoc|]. cbn [app].
    destruct (mjoin _ ++ name) eqn:E; [|done].
    by apply app_nil in E as [_ ->].
Qed.

(** The identifiers that are accepted. *)
Definition safe_id (id : bytes) : Prop :=
  id ≠ [] ∧ "/"%char ∉ id ∧ bsl ∉ id ∧ ¬ (∃ a b, id = a ++ s2b ".." ++ b) ∧ head id ≠ Some "."%char.

Lemma Contains_false s sub : Contains s sub = false → ¬ (∃ a b, s = a ++ sub ++ b).
Proof.
  intros H (a & b & ->). destruct sub as [|c sub]; [done|]. cbn [Contains] in H.
  apply bool_decide_eq_false in H. apply H. clear H. induction a as [|d a [i Hi]].
  - change ([] ++ (c :: sub) ++ b) with (c :: sub ++ b). cbn [LastIndex].
    rewrite (proj2 (after_prefix_spec (c :: sub ++ b) (c :: sub) b) eq_refl).
    by destruct (LastIndex _ _).
  - change ((d :: a) ++ ?t) with (d :: a ++ t). cbn [LastIndex]. by rewrite Hi.
Qed.

Lemma validateID_None id : validateID id = None → safe_id id.
Proof.
  unfold validateID, safe_id. destruct (bool_decide_reflect (id = [])) as [|H0]; [done|].
  destruct (bool_decide_reflect ("/"%char ∈ id)) as [|H1]; [done|].
  destruct (bool_decide_reflect (bsl ∈ id)) as [|H2]; [done|]. cbn [orb].
  destruct (Contains id _) eqn:H3; [done|]. apply Contains_false in H3.
  destruct id as [|c id]; [done|]. simpl.
  destruct (Ascii.eqb_spec c "."); [done|]. intros _. split_and!; [done..|congruence].
Qed.

Lemma Contains_true s sub : Contains s sub = true → ∃ a b, s = a ++ sub ++ b.
Proof.
  destruct sub as [|c sub]; [by exists [], s|]. cbn [Contains].
  intros [i Hi]%bool_decide_eq_true. apply LastIndex_Some in Hi as (a & b & -> & _). by exists a, b.
Qed.

Lemma validateID_Some id e : validateID id = Some e →
  e = ErrEmptyID ∧ id = [] ∨
  e = ErrSeparator ∧ ("/"%char ∈ id ∨ bsl ∈ id ∨ ∃ a b, id = a ++ s2b ".." ++ b) ∨
  e = ErrHidden ∧ head id = Some "."%char.
Proof.
  unfold validateID. destruct (bool_decide_reflect (id = [])) as [|H0]; [intros [= <-]; by left|].
  destruct (bool_decide_reflect ("/"%char ∈ id)) as [|H1]; [intros [= <-]; right; left; by auto|].
  destruct (bool_decide_reflect (bsl ∈ id)) as [|H2]; [intros [= <-]; right; left; by auto|]. cbn [orb].
  destruct (Contains id _) eqn:H3.
  { intros [= <-]. right; left. apply Contains_true in H3. by auto. }
  destruct id as [|c id]; [done|]. destruct (Ascii.eqb_spec c "."); [|done].
  intros [= <-]. right; right. split; [done|]. simpl. congruence.
Qed.

Lemma log_file_name id : safe_id id → file_name (id ++ s2b ".jsonl").
Proof.
  intros (H0 & H1 & _ & _ & H4). destruct id as [|c id]; [done|]. split_and!; [|done|..].
  - rewrite elem_of_app. intros [H|H]; [done|]. revert H.
    apply (bool_decide_eq_false_1 _). by vm_compute.
  - intros [= -> _]. done.
  - intros [= -> _]. done.
Qed.

Lemma log_path_Ok root id p :
  log_path root id = Ok p → safe_id id ∧ p = dir_prefix root ++ id ++ s2b ".jsonl".
Proof.
  unfold log_path. destruct (validateID id) eqn:E; [done|]. intros [= <-].
  apply validateID_None in E. split; [done|]. by apply Join2_child, log_file_name.
Qed.

Lemma log_path_inj root id id' p :
  log_path root id = Ok p → log_path root id' = Ok p → id = id'.
Proof.
  intros [_ ->]%log_path_Ok [_ H]%log_path_Ok. by simplify_list_eq.
Qed.

Lemma log_path_validate root id :
  match validateID id with
  | Some e => log_path root id = Err e
  | None => ∃ p, log_path root id = Ok p
  end.
Proof. unfold log_path. destruct (validateID id); eauto. Qed.

(** ** Lines *)

(** The bytes of an encoded record: no line break, not blank, short enough. *)
Definition text_line (l : bytes) : Prop :=
  "010"%char ∉ l ∧ "013"%char ∉ l ∧ TrimSpace l ≠ [] ∧ len l < max_token.

Lemma dropCR_id l : "013"%char ∉ l → dropCR l = l.
Proof.
  intros H. unfold dropCR. destruct (reverse l) as [|c r] eqn:E; [by destruct l using rev_ind; rewrite ?reverse_app in E|].
  destruct (Ascii.eqb_spec c "013") as [->|]; [|done].
  destruct H. rewrite <-(reverse_involutive l), E, elem_of_reverse. by left.
Qed.

Lemma scan_pieces_lines ls t :
  Forall text_line ls → "013"%char ∉ t → len t < max_token →
  scan_pieces (ls ++ [t]) = (ls ++ (if is_empty t then [] else [t]), false).
Proof.
  intros Hls Ht Hlen. induction Hls as [|l ls (Hn & Hr & Hb & Hl) Hls IH].
  - simpl. destruct t as [|c t]; [done|]. rewrite (proj2 (Z.leb_gt _ _)) by done. by rewrite dropCR_id.
  - change ((l :: ls) ++ [t]) with (l :: ls ++ [t]). cbn [scan_pieces]. rewrite IH.
    assert (∃ c l', l = c :: l') as (c & l' & ->) by (destruct l; [done|eauto]).
    rewrite (proj2 (Z.leb_gt _ _)) by done. by rewrite dropCR_id.
Qed.

Lemma ScanLines_lines ls t :
  Forall text_line ls → "010"%char ∉ t → "013"%char ∉ t → len t < max_token →
  ScanLines (mjoin ((λ l, l ++ newline) <$> ls) ++ t) =
    (ls ++ (if is_empty t then [] else [t]), false).
Proof.
  intros Hls Hn Hr Hl. unfold ScanLines. rewrite SplitByte_lines; [by apply scan_pieces_lines| |done].
  eapply Forall_impl; [exact Hls|]. by intros l [].
Qed.

Section Facts.
Context {R : Type} {rec : LogRecord R}.
Implicit Types (w : world) (st : logs R) (root id p : bytes) (m : logState) (log : list R) (ls : list bytes) (r : R).

(** ** Reading back *)

Definition seen (d : decoder) : list R := d_out d ++ option_list (d_pending d).
Definition clean (d : decoder (R := R)) : Prop := d_pending d = None → d_pendLine d ≤ 0.

(** A line and the record it holds. *)
Definition holds (l : bytes) (r : R) : Prop :=
  text_line l ∧ rec_marshal r = Some l ∧ rec_unmarshal l = Some r.

Lemma decode_line_text d l : clean d → TrimSpace l ≠ [] →
  ∃ d', decode_line d l = Ok d' ∧ seen d' = seen d ++ option_list (rec_unmarshal l) ∧
    (rec_unmarshal l ≠ None → clean d').
Proof.
  intros Hc Hl. unfold decode_line. destruct (TrimSpace l); [done|]. unfold seen.
  destruct (d_pending d) as [r|] eqn:E.
  - eexists. split_and!; [done| |by intros ? ?]. done.
  - unfold clean in Hc. rewrite E in Hc. specialize (Hc eq_refl).
    rewrite (proj2 (Z.ltb_ge _ _)) by done.
    eexists. split_and!; [done|by simpl; rewrite app_nil_r|by intros ? ?].
Qed.

Lemma decode_lines_hold d ls rs : clean d → Forall2 holds ls rs →
  ∃ d', decode_lines d ls = Ok d' ∧ seen d' = seen d ++ rs ∧ clean d'.
Proof.
  intros Hc H. revert d Hc. induction H as [|l r ls rs ((_ & _ & Hb & _) & _ & Hu) _ IH]; intros d Hc.
  - exists d. by rewrite app_nil_r.
  - destruct (decode_line_text d l Hc Hb) as (d1 & H1 & Hs & Hc1). rewrite Hu in Hs, Hc1.
    destruct (IH d1) as (d2 & H2 & Hs2 & Hc2); [by apply Hc1|].
    exists d2. simpl. rewrite H1. split_and!; [done| |done]. rewrite Hs2, Hs, <-app_assoc. done.
Qed.

Lemma decode_lines_app d ls ls' :
  decode_lines d (ls ++ ls') = let? d' := decode_lines d ls in decode_lines d' ls'.
Proof.
  revert d. induction ls as [|l ls IH]; intros d; [done|]. simpl.
  destruct (decode_line d l); [apply IH|done].
Qed.

Definition file_of (ls : list bytes) : bytes := mjoin ((λ l, l ++ newline) <$> ls).

(** A file of whole lines and a tail that ends in no newline: the records of
    the lines, and the tail's if it holds one. *)
Lemma decode_file ls rs t :
  Forall2 holds ls rs → "010"%char ∉ t → "013"%char ∉ t → len t < max_token →
  decodeEvents io_fine (file_of ls ++ t) =
    Ok (rs ++ if decide (TrimSpace t = []) then [] else option_list (rec_unmarshal t)).
Proof.
  intros H Hn Hr Hl. unfold decodeEvents. cbn [io_read io_fine].
  assert (Forall text_line ls) as Hls.
  { eapply Forall2_Forall_l; [exact H|]. apply Forall_forall. by intros r _ l []. }
  unfold file_of. rewrite ScanLines_lines by done.
  destruct (decode_lines_hold (mkDecoder [] None 0 0) ls rs) as (d & Hd & Hs & Hc); [done|done|].
  rewrite decode_lines_app, Hd. unfold seen in Hs. cbn [d_out d_pending option_list app] in Hs.
  destruct t as [|c t].
  - simpl. rewrite Hs. by rewrite app_nil_r.
  - cbn [is_empty decode_lines]. destruct (decide _) as [Hb|Hb].
    + unfold decode_line. rewrite Hb. simpl. rewrite Hs. by rewrite app_nil_r.
    + destruct (decode_line_text d (c :: t) Hc Hb) as (d1 & -> & H1 & _).
      simpl. unfold seen in H1. by rewrite H1, Hs.
Qed.

Lemma decode_whole ls rs :
  Forall2 holds ls rs → decodeEvents io_fine (file_of ls) = Ok rs.
Proof.
  intros H. rewrite <-(app_nil_r (file_of ls)), (decode_file ls rs []); try done.
  - simpl. by rewrite app_nil_r.
  - by intros ?%elem_of_nil.
  - by intros ?%elem_of_nil.
Qed.

(** ** The relation to the abstract log *)

Definition log_wf (log : list R) : Prop :=
  ∀ k r, log !! k = Some r → rec_Seq r = Z.of_nat (S k) ∧ rec_init r = (k =? 0)%nat.

Definition nonempty (log : list R) : bool := match log with [] => false | _ => true end.

(** What a cache entry claims of a log. *)
Definition cache_ok (m : logState) (log : option (list R)) : Prop :=
  st_cached m = true →
  ∃ l, log = Some l ∧ st_lastSeq m = Z.of_nat (List.length l) ∧ st_hasInit m = nonempty l.

Definition file_ok (file : option bytes) (log : option (list R)) : Prop :=
  match log with
  | None => file = None
  | Some l => log_wf l ∧ ∃ ls, Forall2 holds ls l ∧ file = Some (file_of ls)
  end.

Definition stored (root : bytes) (w : world) (st : logs R) : Prop :=
  ∀ id p, log_path root id = Ok p →
    file_ok (w_files w !! p) (st !! id) ∧
    ∀ m, w_states w !! id = Some m → cache_ok m (st !! id).

Lemma stored_init root : stored root (mkWorld ∅ ∅) ∅.
Proof. intros id p Hp. rewrite !lookup_empty. by split. Qed.

Lemma stored_update root w st id p m file olog :
  stored root w st → log_path root id = Ok p →
  file_ok file olog → cache_ok m olog →
  stored root (mkWorld (partial_alter (λ _, file) p (w_files w)) (<[id := m]> (w_states w)))
    (partial_alter (λ _, olog) id st).
Proof.
  intros H Hp Hf Hm id' p' Hp'. simpl. destruct (decide (id' = id)) as [->|Hne].
  - assert (p' = p) as -> by congruence. rewrite !lookup_partial_alter_eq, lookup_insert_eq.
    split; [done|]. by intros m' [= <-].
  - assert (p ≠ p') by (intros ->; by pose proof (log_path_inj _ _ _ _ Hp Hp')).
    rewrite !lookup_partial_alter_ne, lookup_insert_ne by done. by apply H.
Qed.

Lemma stored_state root w st id p m :
  stored root w st → log_path root id = Ok p → cache_ok m (st !! id) →
  stored root (set_state id m w) st.
Proof.
  intros H Hp Hm. destruct (H _ _ Hp) as [Hf _].
  pose proof (stored_update root w st id p m _ _ H Hp Hf Hm) as Hu.
  by rewrite !partial_alter_self in Hu.
Qed.

Lemma getState_stored root w st id p :
  stored root w st → log_path root id = Ok p →
  cache_ok (getState id w).1 (st !! id) ∧ stored root (getState id w).2 st ∧
  w_files (getState id w).2 = w_files w.
Proof.
  intros H Hp. unfold getState. destruct (w_states w !! id) as [m|] eqn:E; simpl.
  - split_and!; [|done|done]. by apply (H _ _ Hp).
  - split_and!; [by intros ?| |done]. apply (stored_state root w st id p); [done|done|by intros ?].
Qed.

Lemma reopen_stored root w st : stored root w st → stored root (reopen w) st.
Proof.
  intros H id p Hp. destruct (H id p Hp) as [Hf _]. split; [done|].
  intros m. simpl. by rewrite lookup_empty.
Qed.

(** The scan finds the length of the log. *)
Lemma scan_log log :
  log_wf log →
  foldl (λ '(last, hasInit) ev,
    (if last <? rec_Seq ev then rec_Seq ev else last, hasInit || rec_init ev)) (0, false) log
  = (Z.of_nat (List.length log), nonempty log).
Proof.
  induction log as [|r log IH] using rev_ind; intros H; [done|].
  rewrite foldl_app, IH by (intros k x Hk; apply H; rewrite lookup_app_l; [done|by eapply lookup_lt_Some]).
  destruct (H (List.length log) r) as [H1 H2].
  { rewrite lookup_app_r, Nat.sub_diag by done. done. }
  simpl. rewrite H1, H2. rewrite (proj2 (Z.ltb_lt _ _)) by lia.
  rewrite length_app. f_equal; [simpl; lia|]. by destruct log.
Qed.

Lemma Append_last_spec root w (st : logs R) id p m log ls :
  log_path root id = Ok p → cache_ok m (st !! id) → default [] (st !! id) = log →
  log_wf log → Forall2 holds ls log → w_files w !! p = Some (file_of ls) →
  Append_last io_fine p m (file_of ls) w = Ok (Z.of_nat (List.length log), nonempty log).
Proof.
  intros Hp Hm Hlog Hwf Hls Hf. unfold Append_last. cbn [io_ok io_fine negb].
  destruct (st_cached m) eqn:Ec; [destruct (len _ =? _); [|]|]; cbn [andb].
  - destruct (Hm Ec) as (l & Hl & -> & ->). rewrite Hl in Hlog. by subst.
  - unfold scanLastSeq. rewrite Hf. cbn. rewrite (decode_whole ls log) by done. by rewrite scan_log.
  - unfold scanLastSeq. rewrite Hf. cbn. rewrite (decode_whole ls log) by done. by rewrite scan_log.
Qed.

Lemma file_ok_default olog file :
  file_ok file olog →
  ∃ ls, Forall2 holds ls (default [] olog) ∧ log_wf (default [] olog) ∧ default [] file = file_of ls.
Proof.
  destruct olog as [log|]; simpl; [by intros (Hwf & ls & Hls & ->); eauto|intros ->].
  exists []. split_and!; [constructor|by intros k r|done].
Qed.

Lemma cache_ok_default m olog : cache_ok m olog → cache_ok m (Some (default [] olog)).
Proof. intros H Hc. destruct (H Hc) as (l & -> & H1 & H2). by exists l. Qed.

Lemma file_of_snoc ls l : file_of (ls ++ [l]) = file_of ls ++ l ++ newline.
Proof.
  unfold file_of. rewrite fmap_app, join_app. f_equal. by rewrite fmap_cons, join_cons, app_nil_r.
Qed.

Lemma log_wf_snoc log r :
  log_wf log → rec_Seq r = Z.of_nat (S (List.length log)) → rec_init r = negb (nonempty log) →
  log_wf (log ++ [r]).
Proof.
  intros Hwf Hs Hi k x Hk. apply lookup_app_Some in Hk as [Hk|[Hl Hk]]; [by apply Hwf|].
  destruct (k - List.length log)%nat eqn:E; [|done]. simplify_eq/=.
  assert (k = List.length log) as -> by lia. split; [done|]. rewrite Hi. by destruct log.
Qed.

(** Opening for an append: the file exists, and the log is the one of the
    abstract state, empty if it was missing. *)
Lemma Append_open_stored root w st id p :
  stored root w st → log_path root id = Ok p →
  let log := default [] (st !! id) in
  ∃ ls, Forall2 holds ls log ∧ log_wf log ∧
    let '(m, w1) := getState id w in
    let '(opened, w2) := Append_open io_fine p w1 in
    opened = Ok (file_of ls) ∧ w_files w2 !! p = Some (file_of ls) ∧
    Append_last io_fine p m (file_of ls) w2 = Ok (Z.of_nat (List.length log), nonempty log) ∧
    stored root w2 (<[id := log]> st) ∧
    w_files w2 = <[p := file_of ls]> (w_files w).
Proof.
  intros H Hp. simpl. destruct (getState_stored _ _ _ _ _ H Hp) as (Hm & H1 & Hfiles).
  destruct (H _ _ Hp) as [Hf _]. destruct (file_ok_default _ _ Hf) as (ls & Hls & Hwf & Hdata).
  exists ls. split_and!; [done|done|].
  destruct (getState id w) as [m w1] eqn:Eg. cbn [fst snd] in *. unfold Append_open.
  cbn [io_ok io_fine negb]. rewrite Hfiles, Hdata.
  assert (w_files (set_file p (file_of ls) w1) !! p = Some (file_of ls)) as Hlook
    by (simpl; apply lookup_insert_eq).
  split_and!; [done|apply lookup_insert_eq| | |done].
  - by apply (Append_last_spec root _ st id p m (default [] (st !! id)) ls).
  - pose proof (stored_update root w1 st id p m (Some (file_of ls)) (Some (default [] (st !! id))) H1 Hp) as Hu.
    assert (file_ok (Some (file_of ls)) (Some (default [] (st !! id)))) as Hf' by (split; eauto).
    specialize (Hu Hf' (cache_ok_default _ _ Hm)).
    assert (w_states w1 !! id = Some m) as Hst.
    { revert Eg. unfold getState. destruct (w_states w !! id) eqn:E; intros [= <- <-]; [done|].
      simpl. apply lookup_insert_eq. }
    intros id' p' Hp'. specialize (Hu id' p' Hp'). simpl in Hu. rewrite insert_id in Hu by done.
    exact Hu.
Qed.

Context {laws : LogLaws R}.

(** The line of an accepted record is a text line. *)
Lemma stamped_holds n now r l :
  rec_ok r → now_ok now → 0 ≤ n < two63 →
  rec_marshal (rec_stamp n now r) = Some l → len l < max_token →
  holds l (rec_norm (rec_stamp n now r)).
Proof.
  intros Hok Hnow Hn Hl Hlen. pose proof (rec_stamp_ok n now r Hok Hnow Hn) as Hs.
  destruct (rec_line _ _ Hs Hl) as (H1 & H2 & H3). split; [done|].
  split; [by apply rec_norm_line|by apply rec_read].
Qed.

(** A record the codec represents whose line fits the scanner's buffer at every
    sequence number up to [N]. *)
Definition fits (N : nat) (now : bytes) (r : R) : Prop :=
  rec_ok r ∧ now_ok now ∧ ∀ k l, (k ≤ N)%nat →
    rec_marshal (rec_stamp (Z.of_nat k) now r) = Some l → len l < max_token.

Lemma stored_snoc root w st id p m ls log l r data :
  stored root w st → log_path root id = Ok p → Forall2 holds ls log → log_wf log →
  holds l r → rec_Seq r = Z.of_nat (S (List.length log)) → rec_init r = negb (nonempty log) →
  data = file_of ls ++ l ++ newline →
  m = mkState (rec_Seq r) true (len data) true →
  stored root (set_state id m (set_file p data w)) (<[id := log ++ [r]]> st).
Proof.
  intros H Hp Hls Hwf Hl Hs Hi -> ->. apply (stored_update root w st id p _ (Some _) (Some _)); [done|done| |].
  - split; [by apply log_wf_snoc|]. exists (ls ++ [l]). rewrite file_of_snoc. split; [|done].
    apply Forall2_app; [done|]. constructor; [done|constructor].
  - intros _. eexists. split; [done|]. simpl. rewrite Hs, length_app. simpl.
    split; [f_equal; lia|]. by destruct log.
Qed.

Lemma spec_check {T : Type} r log (K : T) (f : log_err → T) :
  match rec_init r, log with
  | true, _ :: _ => f ErrAlreadyInitialised
  | false, [] => f ErrNotInitialised
  | _, _ => K
  end = match Append_check r (nonempty log) with Some e => f e | None => K end.
Proof. unfold Append_check. by destruct (rec_init r), log. Qed.

Lemma Append_check_None r log :
  Append_check r (nonempty log) = None → rec_init r = negb (nonempty log).
Proof. unfold Append_check. by destruct (rec_init r), log. Qed.

Lemma append_refines N root w st now id r :
  stored root w st → fits N now r → Z.of_nat N < two63 →
  (S (List.length (default [] (st !! id))) ≤ N)%nat →
  let '(res, _, w') := Append root io_fine now id (Some r) w in
  let '(res', st') := spec_append now id r st in res = res' ∧ stored root w' st'.
Proof.
  intros H (Hok & Hnow & Hfit) HN Hb. unfold Append, spec_append. pose proof (log_path_validate root id) as Hv.
  destruct (validateID id) as [e|]; [by rewrite Hv|]. destruct Hv as [p Hp]. rewrite Hp.
  destruct (Append_open_stored root w st id p H Hp) as (ls & Hls & Hwf & Ho).
  destruct (getState id w) as [m w1]. destruct (Append_open io_fine p w1) as [opened w2].
  destruct Ho as (-> & Hfile & Hlast & H2 & _). rewrite Hlast. set (log := default [] (st !! id)) in *.
  rewrite (spec_check r log _ (λ e, (Err e, <[id := log]> st))).
  destruct (Append_check r (nonempty log)) as [e|] eqn:Ec; [done|].
  apply Append_check_None in Ec. set (seq := Z.of_nat (S (List.length log))) in *.
  replace (i64 _) with seq by (rewrite i64_small; unfold seq, two63 in *; lia).
  unfold Append_line. destruct (rec_marshal _) as [l|] eqn:Eml; [|by split].
  assert (holds l (rec_norm (rec_stamp seq now r))) as Hl
    by (eapply stamped_holds; [done|done|unfold seq; lia|done|by eapply Hfit]).
  unfold Append_write. cbn [io_ok io_fine negb]. rewrite Hfile. cbn [default].
  split; [by rewrite rec_stamp_Seq|]. rewrite <-(insert_insert_eq st id _ log).
  apply (stored_snoc root _ _ id p _ ls log l); rewrite ?rec_norm_Seq, ?rec_norm_init, ?rec_stamp_Seq, ?rec_stamp_init; try done.
  - by rewrite insert_insert_eq.
  - f_equal. rewrite Ec. by destruct (nonempty log).
Qed.

Lemma filter_take (f : R → bool) k log :
  (∀ i r, log !! i = Some r → f r = (i <? k)%nat) → List.filter f log = take k log.
Proof.
  revert k. induction log as [|r log IH]; intros k H; [by rewrite take_nil|]. simpl.
  rewrite (H 0%nat r) by done. destruct k as [|k]; simpl.
  - apply list_filter_none. intros x Hx. apply list_elem_of_lookup_1 in Hx as [i Hi].
    by rewrite (H (S i) x).
  - f_equal. apply IH. intros i x Hi. by rewrite (H (S i) x).
Qed.

Lemma Truncate_keep_take n log :
  log_wf log → List.filter (Truncate_keep n) log = spec_keep n log.
Proof.
  intros Hwf. apply filter_take. intros i r Hr. destruct (Hwf _ _ Hr) as [Hs Hi].
  unfold Truncate_keep. destruct (Z.leb_spec n 0); rewrite ?Hs, ?Hi; apply eq_bool_prop_intro;
    rewrite ?negb_prop_intro, ?Is_true_true; rewrite ?Nat.eqb_eq, ?Nat.ltb_lt, ?negb_true_iff, ?Z.ltb_ge; lia.
Qed.

Lemma mapM_marshal ls log : Forall2 holds ls log → mapM rec_marshal log = Some ls.
Proof. intros H. apply mapM_Some. eapply Forall2_flip, Forall2_impl; [exact H|]. by intros l r (_ & ? & _). Qed.

Lemma Truncate_refines root w st id n :
  stored root w st →
  let '(res, w') := Truncate root io_fine id n w in
  let '(out, st') := spec_log (OpTruncate id n) st in
  OutUnit res = out ∧ stored root w' st'.
Proof.
  intros H. unfold Truncate, spec_log, spec_found. pose proof (log_path_validate root id) as Hv.
  destruct (validateID id) as [e|]; [by rewrite Hv|]. destruct Hv as [p Hp]. rewrite Hp.
  destruct (getState_stored _ _ _ _ _ H Hp) as (Hm & H1 & Hfiles).
  destruct (getState id w) as [m w1]. cbn [fst snd] in *. rewrite Hfiles.
  destruct (H _ _ Hp) as [Hf _]. unfold alter.
  destruct (st !! id) as [log|] eqn:El; cbn [file_ok] in Hf.
  2: { rewrite Hf. split; [done|]. unfold map_alter. rewrite partial_alter_id; [done|by rewrite El]. }
  destruct Hf as (Hwf & ls & Hls & ->). cbn [io_ok io_fine negb andb].
  rewrite (decode_whole ls log Hls). unfold Truncate_buf. rewrite Truncate_keep_take by done.
  unfold spec_keep. rewrite (mapM_marshal (take (Z.to_nat (Z.max 1 n)) ls)) by by apply Forall2_take.
  split; [done|]. unfold map_alter.
  rewrite (partial_alter_ext _ (λ _, Some (take (Z.to_nat (Z.max 1 n)) log))) by (by intros ? <-; rewrite El).
  apply (stored_update root w1 st id p (uncache m) (Some _) (Some _)); [done|done| |done].
  split; [|exists (take (Z.to_nat (Z.max 1 n)) ls); split; [by apply Forall2_take|done]].
  intros k r Hk. apply lookup_take_Some in Hk as [Hk _]. by apply Hwf.
Qed.

Lemma Delete_refines root w st id :
  stored root w st →
  let '(res, w') := Delete root io_fine id w in
  let '(out, st') := spec_log (OpDelete id) st in
  OutUnit res = out ∧ stored root w' st'.
Proof.
  intros H. unfold Delete, spec_log, spec_found. pose proof (log_path_validate root id) as Hv.
  destruct (validateID id) as [e|]; [by rewrite Hv|]. destruct Hv as [p Hp]. rewrite Hp.
  destruct (getState_stored _ _ _ _ _ H Hp) as (Hm & H1 & Hfiles).
  destruct (getState id w) as [m w1]. cbn [fst snd] in *. simpl. rewrite Hfiles.
  destruct (H _ _ Hp) as [Hf _].
  destruct (st !! id) as [log|] eqn:El; cbn [file_ok] in Hf.
  - destruct Hf as (Hwf & ls & Hls & ->). split; [done|]. rewrite <-Hfiles.
    apply (stored_update root w1 st id p (uncache m) None None); [done|done|done|done].
  - rewrite Hf. split; [done|]. rewrite (delete_id st id El).
    apply (stored_state root w1 st id p); [done|done|]. by intros ?.
Qed.

Lemma Load_refines root w st id :
  stored root w st →
  let '(res, w') := Load root io_fine id w in
  let '(out, st') := spec_log (OpLoad id) st in
  OutLog res = out ∧ stored root w' st'.
Proof.
  intros H. unfold Load, spec_log, spec_found. pose proof (log_path_validate root id) as Hv.
  destruct (validateID id) as [e|]; [by rewrite Hv|]. destruct Hv as [p Hp]. rewrite Hp.
  destruct (getState_stored _ _ _ _ _ H Hp) as (Hm & H1 & Hfiles).
  destruct (getState id w) as [m w1]. cbn [fst snd] in *. rewrite Hfiles.
  destruct (H _ _ Hp) as [Hf _].
  destruct (st !! id) as [log|] eqn:El; cbn [file_ok] in Hf; [|by rewrite Hf].
  destruct Hf as (Hwf & ls & Hls & ->). cbn [io_ok io_fine negb].
  by rewrite (decode_whole ls log Hls).
Qed.

(** ** Runs *)

Definition op_fits (N : nat) (op : log_op R) : Prop :=
  match op with OpAppend now _ (Some r) => fits N now r | _ => True end.

Definition small (N n : nat) (st : logs R) : Prop :=
  ∀ id log, st !! id = Some log → (List.length log + n ≤ N)%nat.

Lemma do_log_refines N n root w st op :
  stored root w st → op_fits N op → Z.of_nat N < two63 → small N (S n) st → (S n ≤ N)%nat →
  (do_log root op w).1 = (spec_log op st).1 ∧ stored root (do_log root op w).2 (spec_log op st).2.
Proof.
  intros H Hop HN Hs Hn. destruct op as [now id [r|]|id|id k|id|]; cbn [do_log].
  - assert (S (List.length (default [] (st !! id))) ≤ N)%nat as Hb.
    { destruct (st !! id) as [log|] eqn:E; simpl; [specialize (Hs _ _ E); lia|lia]. }
    pose proof (append_refines N root w st now id r H Hop HN Hb) as Ha. cbn [spec_log].
    destruct (Append _ _ _ _ _ _) as [[res r'] w']. destruct (spec_append _ _ _ _) as [res' st'].
    by destruct Ha as [-> ?].
  - done.
  - pose proof (Load_refines root w st id H) as Hl. by destruct (Load _ _ _ _), (spec_log _ _), Hl as [-> ?].
  - pose proof (Truncate_refines root w st id k H) as Hl.
    by destruct (Truncate _ _ _ _ _), (spec_log _ _), Hl as [-> ?].
  - pose proof (Delete_refines root w st id H) as Hl. by destruct (Delete _ _ _ _), (spec_log _ _), Hl as [-> ?].
  - split; [done|]. by apply reopen_stored.
Qed.

Lemma spec_log_small N op st n : small N (S n) st → (S n ≤ N)%nat → small N n (spec_log op st).2.
Proof.
  intros Hs Hn.
  assert (small N n st) as Hw by (intros id log E; specialize (Hs _ _ E); lia).
  assert (∀ id log, (List.length log + n ≤ N)%nat → ∀ st, small N n st → small N n (<[id := log]> st)) as Hi.
  { intros id log Hl st' Hst' id' log'. destruct (decide (id = id')) as [->|].
    - rewrite lookup_insert_eq. by intros [= <-].
    - rewrite lookup_insert_ne by done. apply Hst'. }
  destruct op as [now id [r|]|id|id k|id|]; cbn [spec_log snd]; try done.
  - unfold spec_append. destruct (validateID id); [done|].
    assert (S (List.length (default [] (st !! id)) + n) ≤ N)%nat as Hl.
    { destruct (st !! id) as [log|] eqn:E; simpl; [specialize (Hs _ _ E); lia|lia]. }
    rewrite (spec_check r _ _ (λ e, (Err e, <[id := _]> st))).
    destruct (Append_check _ _); simpl; [apply Hi; [lia|done]|].
    destruct (rec_marshal _); simpl; repeat (apply Hi; [rewrite ?length_app; simpl; lia|]); done.
  - destruct (validateID id); [done|]. intros id' log' E. apply lookup_alter_Some in E as [(<- & log & E & ->)|[_ E]].
    + specialize (Hw _ _ E). unfold spec_keep. rewrite length_take. lia.
    + by apply Hw in E.
  - destruct (validateID id); [done|]. intros id' log' E. apply lookup_delete_Some in E as [_ E]. by apply Hw in E.
Qed.

Lemma run_refines N k root ops w st :
  stored root w st → Forall (op_fits N) ops → Z.of_nat N < two63 →
  small N (List.length ops + k) st → (List.length ops + k ≤ N)%nat →
  (run_with (do_log root) ops w).1 = (run_with spec_log ops st).1 ∧
  stored root (run_with (do_log root) ops w).2 (run_with spec_log ops st).2 ∧
  small N k (run_with spec_log ops st).2.
Proof.
  intros H Hops HN. revert w st H. induction ops as [|op ops IH]; intros w st H Hs Hn; [done|].
  inversion Hops as [|? ? Hop Hops']; subst. cbn [List.length] in Hs, Hn.
  cbn [Nat.add] in Hs, Hn.
  destruct (do_log_refines N (List.length ops + k) root w st op H Hop HN Hs Hn) as [Ho H1].
  destruct (IH Hops' _ _ H1) as [Hos H2]; [by apply spec_log_small|lia|].
  simpl. destruct (do_log root op w) as [o w1], (spec_log op st) as [o' st1]. cbn [fst snd] in *.
  destruct (run_with (do_log root) ops w1), (run_with spec_log ops st1). cbn [fst snd] in *. by subst.
Qed.

(** ** A crash during an append *)

(** The abstract logs after a crash that wrote [n] bytes of the line: with the
    record if all of its text was written, else without. *)
Definition spec_crash (now id : bytes) (r : R) (n : nat) (st : logs R) : logs R :=
  let log := default [] (st !! id) in
  let line := default [] (rec_marshal (rec_stamp (Z.of_nat (S (List.length log))) now r)) in
  if decide (n < List.length line)%nat then <[id := log]> st else (spec_append now id r st).2.

(** A [Load] sees its own file only. *)
Lemma Load_file root w id st :
  (∀ p, log_path root id = Ok p →
     match st !! id with
     | None => w_files w !! p = None
     | Some log => ∃ data, w_files w !! p = Some data ∧ decodeEvents io_fine data = Ok log
     end) →
  (Load root io_fine id w).1 = spec_found id st (λ log, log).
Proof.
  intros H. unfold Load, spec_found. pose proof (log_path_validate root id) as Hv.
  destruct (validateID id) as [e|]; [by rewrite Hv|]. destruct Hv as [p Hp]. rewrite Hp.
  specialize (H p Hp). assert (w_files (getState id w).2 = w_files w) as Hf.
  { unfold getState. by destruct (w_states w !! id). }
  destruct (getState id w) as [m w1]. cbn [snd] in Hf. rewrite Hf.
  destruct (st !! id) as [log|]; [|by rewrite H]. destruct H as (data & -> & H). by rewrite <-H.
Qed.

Lemma file_ok_decode file olog : file_ok file olog →
  match olog with
  | None => file = None
  | Some log => ∃ data, file = Some data ∧ decodeEvents io_fine data = Ok log
  end.
Proof. destruct olog; [|done]. intros (_ & ls & Hls & ->). exists (file_of ls). by rewrite (decode_whole ls l). Qed.

Lemma decode_partial ls log l r n :
  Forall2 holds ls log → holds l r → (∀ p t, l = p ++ t → t ≠ [] → rec_unmarshal p = None) →
  decodeEvents io_fine (file_of ls ++ take n (l ++ newline)) =
    Ok (log ++ if decide (n < List.length l)%nat then [] else [r]).
Proof.
  intros Hls Hlr Hpart. pose proof Hlr as ((Hn & Hr & Hb & Hl) & _ & Hu). destruct (decide _) as [Hlt|Hge].
  - rewrite take_app_le by lia.
    assert (∀ c, c ∉ l → c ∉ take n l) as Hin.
    { intros c Hc Hx. apply Hc. rewrite <-(take_drop n l). apply elem_of_app. by left. }
    rewrite (decode_file ls log) by first [done|by apply Hin|unfold len in *; rewrite length_take; lia].
    rewrite (Hpart (take n l) (drop n l)); [by destruct (decide _)|by rewrite take_drop|].
    intros Hd. apply (f_equal List.length) in Hd. rewrite length_drop in Hd. simpl in Hd. lia.
  - destruct (decide (n = List.length l)) as [->|Hne].
    + rewrite take_app_length, (decode_file ls log), Hu by done. by rewrite decide_False.
    + rewrite take_ge by (rewrite length_app; simpl; lia).
      rewrite <-file_of_snoc. apply decode_whole, Forall2_app; [done|]. constructor; [done|constructor].
Qed.

(** The environment in which the write stops after [n] bytes. *)
Definition crash_io (n : nat) : io := mkIO (λ c, match c with CWrite => false | _ => true end) None n.

Lemma crash_append N root w st now id r n p :
  stored root w st → fits N now r → Z.of_nat N < two63 → log_path root id = Ok p →
  (S (List.length (default [] (st !! id))) ≤ N)%nat →
  ∃ data log, w_files (Append_crash root now id r n w) = <[p := data]> (w_files w) ∧
    spec_crash now id r n st !! id = Some log ∧ decodeEvents io_fine data = Ok log.
Proof.
  intros H (Hok & Hnow & Hfit) HN Hp Hb. unfold Append_crash, Append, spec_crash, spec_append. cbn [reopen w_files].
  pose proof (log_path_validate root id) as Hv.
  destruct (validateID id) as [e|] eqn:Ev; [by rewrite Hp in Hv|]. rewrite Hp.
  destruct (Append_open_stored root w st id p H Hp) as (ls & Hls & Hwf & Ho).
  fold (crash_io n). change (Append_open (crash_io n)) with (Append_open io_fine).
  change (Append_last (crash_io n)) with (Append_last io_fine).
  destruct (getState id w) as [m w1]. destruct (Append_open io_fine p w1) as [opened w2].
  destruct Ho as (-> & Hfile & -> & _ & Hfiles). set (log := default [] (st !! id)) in *.
  set (seq := Z.of_nat (S (List.length log))) in *.
  assert (decodeEvents io_fine (file_of ls) = Ok log) as Hlog by by apply decode_whole.
  rewrite (spec_check r log _ (λ e, (Err e, <[id := log]> st))).
  destruct (Append_check r (nonempty log)) as [e|] eqn:Ec.
  { exists (file_of ls), log. cbn [snd]. split_and!; [done| |done].
    destruct (decide _); apply lookup_insert_eq. }
  replace (i64 _) with seq by (rewrite i64_small; unfold seq, two63 in *; lia).
  unfold Append_line. destruct (rec_marshal _) as [l|] eqn:Eml.
  2: { exists (file_of ls), log. cbn [snd]. split_and!; [done| |done].
    destruct (decide _); apply lookup_insert_eq. }
  assert (holds l (rec_norm (rec_stamp seq now r))) as Hl
    by (eapply stamped_holds; [done|done|unfold seq; lia|done|by eapply Hfit]).
  assert (rec_ok (rec_stamp seq now r)) as Hsok by (apply rec_stamp_ok; [done|done|unfold seq; lia]).
  unfold Append_write. cbn [io_ok crash_io io_short negb snd]. rewrite Hfile. cbn [default].
  eexists _, _. split_and!; [cbn [set_state set_file w_files]; rewrite Hfiles; apply insert_insert_eq| |].
  2: { eapply decode_partial; [done|exact Hl|]. intros p' t Ht Hne. by eapply rec_partial. }
  cbn [default]. destruct (decide _); rewrite ?app_nil_r; simpl; apply lookup_insert_eq.
Qed.

Lemma spec_crash_other now id id' r n st : id' ≠ id → spec_crash now id r n st !! id' = st !! id'.
Proof.
  intros Hne. unfold spec_crash. destruct (decide _); [by rewrite lookup_insert_ne|].
  unfold spec_append. destruct (validateID id); [done|].
  rewrite (spec_check r _ _ (λ e, (Err e, <[id := _]> st))).
  destruct (Append_check _ _); simpl; [by rewrite lookup_insert_ne|].
  destruct (rec_marshal _); simpl; by rewrite !lookup_insert_ne.
Qed.

Lemma crash_Load N root w st now id r n id' :
  stored root w st → fits N now r → Z.of_nat N < two63 →
  (S (List.length (default [] (st !! id))) ≤ N)%nat →
  (Load root io_fine id' (Append_crash root now id r n w)).1 =
    spec_found id' (spec_crash now id r n st) (λ log, log).
Proof.
  intros H Hfit HN Hb. apply Load_file. intros p' Hp'.
  destruct (log_path root id) as [p|e] eqn:Hp.
  - destruct (crash_append N root w st now id r n p H Hfit HN Hp Hb) as (data & log & Hf & Hs & Hd).
    rewrite Hf. destruct (decide (id' = id)) as [->|Hne].
    + assert (p' = p) as -> by congruence. rewrite Hs. exists data. by rewrite lookup_insert_eq.
    + assert (p ≠ p') by (intros ->; by pose proof (log_path_inj _ _ _ _ Hp Hp')).
      rewrite spec_crash_other, lookup_insert_ne by done. by apply file_ok_decode, H.
  - assert (id' ≠ id) by congruence. rewrite spec_crash_other by done.
    unfold Append_crash, Append. rewrite Hp. by apply file_ok_decode, H.
Qed.

End Facts.

(** ** Properties *)

(** C14: refinement. Without I/O failures, every operation of a store that starts on an empty
    directory answers as the abstract logs do, whatever the sequence of appends, loads,
    truncations, deletions and restarts: sequence numbers run from 1 without gaps, each log
    starts with its only init record, a truncation keeps the first [toSeq] records (the init
    record for [toSeq <= 0]), and [Load] returns the records in order as JSON hands them on. *)
Theorem store_refines_log `{LogRecord R, !LogLaws R} (root : bytes) (ops : list (log_op R)) :
  Forall (op_fits (List.length ops)) ops → Z.of_nat (List.length ops) < two63 →
  (run_with (do_log root) ops (mkWorld ∅ ∅)).1 = (run_with spec_log ops ∅).1.
Proof.
  intros Hops HN.
  apply (run_refines (List.length ops) 0 root ops _ ∅); [apply stored_init|done|done| |lia].
  intros id log. by rewrite lookup_empty.
Qed.

(** C15: crash safety. When the process dies in an append after [n] bytes of the line, a new
    process loads every log as it was before the append, with the new record added exactly
    when all of its text was written; no other log changes and no load fails. *)
Theorem crash_keeps_logs `{LogRecord R, !LogLaws R} (root now id : bytes) (r : R) (n : nat)
    (ops : list (log_op R)) (id' : bytes) :
  let N := S (List.length ops) in
  Forall (op_fits N) ops → fits N now r → Z.of_nat N < two63 →
  let w := (run_with (do_log root) ops (mkWorld ∅ ∅)).2 in
  let st := (run_with spec_log ops ∅).2 in
  (Load root io_fine id' (Append_crash root now id r n w)).1 =
    spec_found id' (spec_crash now id r n st) (λ log, log).
Proof.
  intros N Hops Hr HN w st.
  destruct (run_refines N 1 root ops (mkWorld ∅ ∅) ∅) as (_ & Hst & Hs);
    [apply stored_init|done|done|intros ? ?; by rewrite lookup_empty|unfold N; lia|].
  apply (crash_Load N); [exact Hst|done|done|]. unfold st.
  destruct (_ !! id) as [log|] eqn:E; simpl; [specialize (Hs _ _ E)|]; lia.
Qed.

(** A log's path is a file name directly inside the cleaned root directory,
    distinct identifiers name distinct files, and the identifiers refused are the empty one,
    those with a path separator or two dots, and those that start with a dot. *)
Theorem log_path_spec (root id : bytes) :
  match log_path root id with
  | Ok p => p = dir_prefix root ++ id ++ s2b ".jsonl" ∧ safe_id id ∧
            ∀ id', log_path root id' = Ok p → id' = id
  | Err e => e = ErrEmptyID ∧ id = [] ∨
             e = ErrSeparator ∧
               ("/"%char ∈ id ∨ bsl ∈ id ∨ ∃ a b, id = a ++ s2b ".." ++ b) ∨
             e = ErrHidden ∧ head id = Some "."%char
  end.
Proof.
  destruct (log_path root id) as [p|e] eqn:E.
  - destruct (log_path_Ok _ _ _ E) as [H1 H2]. split_and!; [done|done|].
    intros id' E'. by eapply log_path_inj.
  - unfold log_path in E. destruct (validateID id) as [e'|] eqn:Ev; [|done].
    injection E as ->. by apply validateID_Some.
Qed.
