(* ===== verification/Record.v ===== *)
(** The runner's log records ([runner/record.go]) and their JSON codec: the
    instance of the append-only store that [JSONRunnerStore] is, and the proof
    that it meets the store's laws. *)
From S2P Require Import Prelude Json GoText Text Event Bundle Plan PlanFacts Log LogFacts.

(** ** Data *)

Definition RunnerRecordInit : bytes := s2b "init".
Definition RunnerRecordStatus : bytes := s2b "status".
Definition RunnerRecordEvent : bytes := s2b "event".

(** [DataJSON] is empty for a nil raw message. *)
Record StoredRunnerEvent := mkStored {
  se_Type : bytes; se_NodeID : bytes; se_DataEncoding : bytes;
  se_DataJSON : bytes; se_DataText : bytes }.
#[export] Instance stored_eq_dec : EqDecision StoredRunnerEvent. Proof. solve_decision. Defined.

Record RunnerRecord := mkRecord {
  rr_Seq : Z; rr_Kind : bytes; rr_Timestamp : bytes;
  rr_Status : bytes; rr_Error : bytes; rr_Event : option StoredRunnerEvent }.
#[export] Instance runner_record_eq_dec : EqDecision RunnerRecord. Proof. solve_decision. Defined.

Definition zero_stored : StoredRunnerEvent := mkStored [] [] [] [] [].
Definition zero_record : RunnerRecord := mkRecord 0 [] zero_time [] [] None.

(** ** Encoding *)

Definition omit_raw (name : string) (raw : bytes) : option (list (bytes * json)) :=
  match raw with [] => Some [] | _ => v ← parse raw; Some [field name (html_tree v)] end.

Definition stored_json (s : StoredRunnerEvent) : option json :=
  raw ← omit_raw "data_json" (se_DataJSON s);
  Some (JObj (field "type" (jstr (se_Type s)) :: omit_str "node_id" (se_NodeID s)
              ++ omit_str "data_encoding" (se_DataEncoding s) ++ raw
              ++ omit_str "data_text" (se_DataText s))).

Definition omit_event (e : option StoredRunnerEvent) : option (list (bytes * json)) :=
  match e with None => Some [] | Some s => j ← stored_json s; Some [field "event" j] end.

Definition record_json (r : RunnerRecord) : option json :=
  ev ← omit_event (rr_Event r);
  Some (JObj ([field "seq" (JNum (dec (rr_Seq r))); field "kind" (jstr (rr_Kind r));
               field "ts" (JStr (rr_Timestamp r))]
              ++ omit_str "status" (rr_Status r) ++ omit_str "error" (rr_Error r) ++ ev)).

(** ** Decoding *)

Definition decode_i64 (old : Z) (raw : bytes) : option Z :=
  match top_of raw with
  | Some TNull => Some old
  | Some (TNum l) => parse_int64 l
  | _ => None
  end.

(** Facts about the line of an object, whatever its type. *)
Lemma object_line ms : wf (JObj ms) →
  "010"%char ∉ print (JObj ms) ∧ "013"%char ∉ print (JObj ms) ∧ TrimSpace (print (JObj ms)) ≠ [].
Proof.
  intros Hwf. pose proof (print_printable _ Hwf) as Hp. rewrite Forall_forall in Hp. split_and!.
  - intros H. apply Hp in H. vm_compute in H. congruence.
  - intros H. apply Hp in H. vm_compute in H. congruence.
  - destruct (trim_around [] ms []) as (a & b & H & _). rewrite app_nil_r in H.
    change ([] ++ print (JObj ms)) with (print (JObj ms)) in H. rewrite H. apply print_obj_nonnil.
Qed.

Lemma object_partial {A} (step : bytes → bytes → A → option A) old ms p t :
  wf (JObj ms) → print (JObj ms) = p ++ t → t ≠ [] → decode_struct step old p = None.
Proof.
  intros Hwf Hp Ht. unfold decode_struct, top_of. by rewrite (parse_prefix_obj ms p t).
Qed.

Definition stored_field (k raw : bytes) (s : StoredRunnerEvent) : option StoredRunnerEvent :=
  let '(mkStored a b c d e) := s in
  if field_is "type" k then x ← decode_str a raw; Some (mkStored x b c d e)
  else if field_is "node_id" k then x ← decode_str b raw; Some (mkStored a x c d e)
  else if field_is "data_encoding" k then x ← decode_str c raw; Some (mkStored a b x d e)
  else if field_is "data_json" k then Some (mkStored a b c raw e)
  else if field_is "data_text" k then x ← decode_str e raw; Some (mkStored a b c d x)
  else Some s.

Section Codec.
Context {std : GoStd}.

Definition record_field (k raw : bytes) (r : RunnerRecord) : option RunnerRecord :=
  let '(mkRecord sq kd ts st er ev) := r in
  if field_is "seq" k then x ← decode_i64 sq raw; Some (mkRecord x kd ts st er ev)
  else if field_is "kind" k then x ← decode_str kd raw; Some (mkRecord sq x ts st er ev)
  else if field_is "ts" k then x ← decode_time ts raw; Some (mkRecord sq kd x st er ev)
  else if field_is "status" k then x ← decode_str st raw; Some (mkRecord sq kd ts x er ev)
  else if field_is "error" k then x ← decode_str er raw; Some (mkRecord sq kd ts st x ev)
  else if field_is "event" k then
    x ← decode_ptr zero_stored (decode_struct stored_field) ev raw;
    Some (mkRecord sq kd ts st er x)
  else Some r.

(** The stamping [JSONRunnerStore.Append] does, and its record type. *)
Definition record_stamp (seq : Z) (now : bytes) (r : RunnerRecord) : RunnerRecord :=
  mkRecord seq (rr_Kind r) (if decide (rr_Timestamp r = zero_time) then now else rr_Timestamp r)
    (rr_Status r) (rr_Error r) (rr_Event r).

#[export] Instance runner_log_record : LogRecord RunnerRecord := {|
  rec_Seq := rr_Seq;
  rec_init r := bool_decide (rr_Kind r = RunnerRecordInit);
  rec_stamp := record_stamp;
  rec_marshal r := print <$> record_json r;
  rec_unmarshal := decode_struct record_field zero_record |}.

(** [JSONRunnerStore]: the store over runner records. *)
Definition decodeRunnerRecords : io → bytes → res log_err (list RunnerRecord) := decodeEvents.
Definition scanLastRunnerSeq : io → bytes → world → res log_err (Z * bool) := scanLastSeq.
Definition RunnerStore_Append := Append (R := RunnerRecord).
Definition RunnerStore_Load := Load (R := RunnerRecord).
Definition RunnerStore_Delete := Delete.

(** ** The codec meets the store's laws *)

Definition time_ok (ts : bytes) : Prop := body ts ∧ time_parse ts = Some ts.
Definition stored_ok (s : StoredRunnerEvent) : Prop :=
  utf8 (se_Type s) ∧ utf8 (se_NodeID s) ∧ utf8 (se_DataEncoding s) ∧ utf8 (se_DataText s).
Definition record_ok (r : RunnerRecord) : Prop :=
  - two63 ≤ rr_Seq r < two63 ∧ utf8 (rr_Kind r) ∧ time_ok (rr_Timestamp r) ∧
  utf8 (rr_Status r) ∧ utf8 (rr_Error r) ∧
  match rr_Event r with Some s => stored_ok s | None => True end.

(** What a record reads back as: the raw message compacted. *)
Definition norm_raw (raw : bytes) : bytes :=
  match raw with [] => [] | _ => default [] (compact raw) end.
Definition norm_stored (s : StoredRunnerEvent) : StoredRunnerEvent :=
  mkStored (se_Type s) (se_NodeID s) (se_DataEncoding s) (norm_raw (se_DataJSON s)) (se_DataText s).
Definition norm_record (r : RunnerRecord) : RunnerRecord :=
  mkRecord (rr_Seq r) (rr_Kind r) (rr_Timestamp r) (rr_Status r) (rr_Error r)
    (norm_stored <$> rr_Event r).

Lemma omit_raw_wf name raw ms :
  body (s2b name) → omit_raw name raw = Some ms → Forall (λ m, body m.1 ∧ wf m.2) ms.
Proof.
  intros Hb H. destruct raw as [|c raw]; cbn [omit_raw] in H; [by simplify_eq; constructor|].
  destruct (parse _) eqn:E; [|done]. cbn in H. simplify_eq. constructor; [|constructor].
  split; [done|]. by eapply wf_html_tree, parse_wf.
Qed.

Lemma omit_raw_norm name raw ms : omit_raw name raw = Some ms → omit_raw name (norm_raw raw) = Some ms.
Proof.
  destruct raw as [|c raw]; [done|]. cbn [omit_raw norm_raw]. unfold compact.
  destruct (parse (c :: raw)) as [v|] eqn:E; [|done]. cbn. intros H.
  assert (wf (html_tree v)) as Hwf by by eapply wf_html_tree, parse_wf.
  destruct (print_head _ Hwf) as (d & t & Hd & _). unfold omit_raw. rewrite Hd, <-Hd, parse_print by done.
  cbn. by rewrite html_tree_idemp by by eapply parse_wf.
Qed.

Lemma stored_json_norm s j : stored_json s = Some j → stored_json (norm_stored s) = Some j.
Proof.
  unfold stored_json. destruct (omit_raw _ _) as [raw|] eqn:E; [|done]. intros H.
  cbn [norm_stored se_DataJSON se_Type se_NodeID se_DataEncoding se_DataText].
  by rewrite (omit_raw_norm _ _ _ E).
Qed.

Lemma record_json_norm r j : record_json r = Some j → record_json (norm_record r) = Some j.
Proof.
  unfold record_json, norm_record. destruct r as [a b c d e [s|]]; [|done]. cbn.
  destruct (stored_json s) as [j'|] eqn:E; [|done]. by rewrite (stored_json_norm _ _ E).
Qed.

Lemma stored_json_wf s j : stored_json s = Some j → wf j.
Proof.
  unfold stored_json. destruct (omit_raw _ _) as [raw|] eqn:E; [|done]. intros [= <-].
  apply omit_raw_wf in E; [|simpl; name_body]. constructor.
  apply field_cons; [simpl; name_body|apply jstr_wf|].
  repeat (apply Forall_app; split); try done; apply omit_str_wf; simpl; name_body.
Qed.

Lemma record_json_wf r j : body (rr_Timestamp r) → record_json r = Some j → wf j.
Proof.
  intros Hts. unfold record_json. destruct (omit_event _) as [ev|] eqn:E; [|done]. intros [= <-].
  constructor. apply field_cons; [simpl; name_body|apply wf_num, num_ok_dec|].
  apply field_cons; [simpl; name_body|apply jstr_wf|].
  apply field_cons; [simpl; name_body|by apply wf_str|].
  repeat (apply Forall_app; split); [apply omit_str_wf; simpl; name_body..|].
  destruct (rr_Event r) as [s|]; [|by simplify_eq/=]. cbn in E.
  destruct (stored_json s) eqn:Es; [|done]. cbn in E. simplify_eq.
  apply field_cons; [simpl; name_body|by eapply stored_json_wf|constructor].
Qed.

Lemma decode_i64_dec old z : - two63 ≤ z < two63 → decode_i64 old (print (JNum (dec z))) = Some z.
Proof.
  intros Hz. unfold decode_i64. rewrite top_of_print by (constructor; apply num_ok_dec).
  cbn [top_tree]. by apply parse_int64_dec.
Qed.

Lemma decode_time_print old ts : time_ok ts → decode_time old (print (JStr ts)) = Some ts.
Proof.
  intros [Hb Ht]. unfold decode_time. rewrite top_of_print by by constructor. cbn [top_tree]. done.
Qed.

Lemma decode_stored s j :
  stored_ok s → stored_json s = Some j →
  decode_struct stored_field zero_stored (print j) = Some (norm_stored s).
Proof.
  intros (H1 & H2 & H3 & H4) Hj. pose proof (stored_json_wf _ _ Hj) as Hwf.
  unfold stored_json in Hj. destruct s as [a b c d e]. cbn in Hj, H1, H2, H3, H4.
  destruct (omit_raw _ _) as [raw|] eqn:E; [|done]. cbn [mbind option_bind] in Hj. injection Hj as <-.
  rewrite decode_struct_print by done. change (?x :: ?l ++ ?k) with ([x] ++ l ++ k).
  rewrite !fold_members_app. unfold fold_members at 5. cbn [foldl field fst snd mbind option_bind].
  change (stored_field _ ?raw _) with (x ← decode_str [] raw; Some (mkStored x [] [] [] [])).
  rewrite decode_str_jstr by done. cbn [mbind option_bind].
  rewrite (fold_omit_str _ _ _ (λ x, mkStored a x [] [] [])) by done.
  rewrite (fold_omit_str _ _ _ (λ x, mkStored a b x [] [])) by done.
  assert (fold_members stored_field (Some (mkStored a b c [] [])) raw
    = Some (mkStored a b c (norm_raw d) [])) as ->.
  { destruct d as [|x d]; cbn [omit_raw] in E; [by injection E as <-|].
    destruct (parse (x :: d)) as [v|] eqn:Ev; [|done]. cbn [mbind option_bind] in E. injection E as <-.
    unfold fold_members. cbn [foldl field fst snd mbind option_bind]. unfold stored_field. name_tests.
    unfold norm_raw, compact. by rewrite Ev. }
  by rewrite (fold_omit_str _ _ _ (λ x, mkStored a b c (norm_raw d) x)).
Qed.

Lemma decode_record r j :
  record_ok r → record_json r = Some j →
  decode_struct record_field zero_record (print j) = Some (norm_record r).
Proof.
  intros (H1 & H2 & H3 & H4 & H5 & H6) Hj. pose proof (record_json_wf _ _ (proj1 H3) Hj) as Hwf.
  unfold record_json in Hj. destruct r as [a b c d e ev]. cbn [rr_Seq rr_Kind rr_Timestamp rr_Status rr_Error rr_Event] in *.
  destruct (omit_event ev) as [ms|] eqn:E; [|done]. cbn [mbind option_bind] in Hj. injection Hj as <-.
  rewrite decode_struct_print by done. change (?x :: ?y :: ?z :: ?l ++ ?k) with ([x; y; z] ++ l ++ k).
  rewrite !fold_members_app. unfold fold_members at 4. cbn [foldl field fst snd mbind option_bind].
  unfold record_field, zero_record. name_tests. rewrite decode_i64_dec by done. cbn [mbind option_bind].
  rewrite decode_str_jstr by done. cbn [mbind option_bind]. rewrite decode_time_print by done.
  cbn [mbind option_bind]. fold record_field.
  rewrite (fold_omit_str _ _ _ (λ x, mkRecord a b c x [] None)) by done.
  rewrite (fold_omit_str _ _ _ (λ x, mkRecord a b c d x None)) by done.
  destruct ev as [s|]; cbn [omit_event] in E; [|by injection E as <-].
  destruct (stored_json s) as [j|] eqn:Es; [|done]. cbn [mbind option_bind] in E. injection E as <-.
  unfold fold_members. cbn [foldl field fst snd mbind option_bind]. unfold record_field. name_tests.
  unfold decode_ptr. pose proof (stored_json_wf _ _ Es) as Hws.
  rewrite top_of_print by done. unfold stored_json in Es.
  destruct (omit_raw _ _) eqn:Er; [|done]. cbn [mbind option_bind] in Es. injection Es as <-.
  cbn [top_tree default]. rewrite (decode_stored s); [done|done|]. unfold stored_json. by rewrite Er.
Qed.

Lemma record_json_obj r j : record_json r = Some j → ∃ ms, j = JObj ms.
Proof. unfold record_json. destruct (omit_event _); intros; simplify_eq/=; eauto. Qed.

#[export] Instance runner_log_laws : LogLaws RunnerRecord.
Proof.
  refine {| rec_ok := record_ok; now_ok := time_ok; rec_norm := norm_record |}; try done.
  - intros n now r (H1 & H2 & H3 & H4 & H5 & H6) Hnow Hn. split_and!; try done.
    + simpl. unfold two63 in *. lia.
    + simpl. unfold two63 in *. lia.
    + simpl. by destruct (decide _).
  - cbn. intros r l _ H. destruct (record_json r) as [j|] eqn:E; [|done].
    by rewrite (record_json_norm _ _ E).
  - cbn. intros r l Hok H. destruct (record_json r) as [j|] eqn:E; [|done]. cbn in H. simplify_eq.
    by apply decode_record.
  - cbn. intros r l p t Hok H Hp Ht. destruct (record_json r) as [j|] eqn:E; [|done]. cbn in H. simplify_eq.
    destruct (record_json_obj _ _ E) as [ms ->]. apply (object_partial _ _ ms p t); try done.
    eapply record_json_wf; [|done]. by apply Hok.
  - cbn. intros r l Hok H. destruct (record_json r) as [j|] eqn:E; [|done]. cbn in H. simplify_eq.
    destruct (record_json_obj _ _ E) as [ms ->]. apply object_line.
    eapply record_json_wf; [|done]. by apply Hok.
Defined.

End Codec.

(** ** Properties *)

(** round trip. A runner record whose strings are UTF-8, whose sequence number is an
    [int64] and whose time the standard library prints reads back from its line with the same
    fields, the raw message of its event compacted and HTML-escaped, and writing what was read
    gives the same line again. *)
Theorem record_roundtrip `{GoStd} (r : RunnerRecord) (l : bytes) :
  record_ok r → rec_marshal r = Some l →
  rec_unmarshal l = Some (norm_record r) ∧ rec_marshal (norm_record r) = Some l.
Proof.
  intros Hr Hl. split; [exact (rec_read (LogLaws := runner_log_laws) r l Hr Hl)|].
  exact (rec_norm_line (LogLaws := runner_log_laws) r l Hr Hl).
Qed.

(** *** Concrete logs *)

Definition sample_now : bytes := s2b "2024-05-01T00:00:00Z".
Definition init_record : RunnerRecord := mkRecord 0 RunnerRecordInit zero_time [] [] None.
Definition status_record : RunnerRecord :=
  mkRecord 0 RunnerRecordStatus zero_time (s2b "running") [] None.
Definition event_record : RunnerRecord :=
  mkRecord 0 RunnerRecordEvent zero_time [] []
    (Some (mkStored (s2b "node.completed") (s2b "n1") (s2b "json") (s2b " { } ") [])).

Lemma sample_time_ok ts : forallb (λ c, (32 <=? code c)%N && (code c <? 128)%N
    && negb (Ascii.eqb c dq) && negb (Ascii.eqb c bsl)) ts = true → @time_ok plain_std ts.
Proof.
  intros H. split; [|done]. induction ts as [|c ts IH]; [constructor|]. simpl in H.
  rewrite !andb_true_iff, !negb_true_iff, !Ascii.eqb_neq, N.leb_le in H.
  destruct H as ((((? & _) & ?) & ?) & ?). constructor; [done|done|done|by apply IH].
Qed.

(** Small records fit at every sequence number of a short run. *)
Ltac fits_small :=
  split;
    [unfold rec_ok, runner_log_laws, record_ok; split_and!;
     try match goal with |- match ?e with _ => _ end => unfold stored_ok; cbn; split_and! end;
     first [done|by apply sample_time_ok|by apply utf8_ascii|vm_compute; congruence]
    |split; [by apply sample_time_ok|]];
  intros k l Hk Hl;
  do 8 (destruct k as [|k]; [vm_compute in Hl; injection Hl as <-; by vm_compute|]); lia.

Lemma init_fits : @fits _ _ (@runner_log_laws plain_std) 7 sample_now init_record.
Proof. fits_small. Qed.
Lemma status_fits : @fits _ _ (@runner_log_laws plain_std) 7 sample_now status_record.
Proof. fits_small. Qed.
Lemma event_fits : @fits _ _ (@runner_log_laws plain_std) 7 sample_now event_record.
Proof. fits_small. Qed.

Definition sample_root : bytes := s2b "/var//runs/./x/..".
Definition sample_ops : list (log_op RunnerRecord) :=
  [OpAppend sample_now (s2b "r1") (Some init_record);
   OpAppend sample_now (s2b "r1") (Some status_record);
   OpReopen;
   OpAppend sample_now (s2b "r1") (Some event_record);
   OpTruncate (s2b "r1") 2;
   OpAppend sample_now (s2b "a/b") (Some init_record)].

Lemma sample_ops_fit N : (N ≤ 7)%nat → Forall (@op_fits _ _ (@runner_log_laws plain_std) N) sample_ops.
Proof.
  intros HN. assert (∀ now r, @fits _ _ (@runner_log_laws plain_std) 7 now r →
    @fits _ _ (@runner_log_laws plain_std) N now r) as Hf.
  { intros now r (H1 & H2 & H3). split_and!; [done|done|]. intros k l Hk. apply H3. lia. }
  do 6 (apply List.Forall_cons;
    [first [exact I|apply Hf, init_fits|apply Hf, status_fits|apply Hf, event_fits]|]).
  apply List.Forall_nil.
Qed.

Lemma store_refines_log_witness :
  (run_with (@do_log _ (@runner_log_record plain_std) sample_root) sample_ops (mkWorld ∅ ∅)).1
  = [OutSeq (Ok 1); OutSeq (Ok 2); OutUnit (Ok tt); OutSeq (Ok 3); OutUnit (Ok tt);
     OutSeq (Err ErrSeparator)].
Proof.
  rewrite (@store_refines_log _ _ (@runner_log_laws plain_std) sample_root sample_ops).
  - vm_compute. reflexivity.
  - apply sample_ops_fit. simpl. lia.
  - vm_compute. reflexivity.
Defined.

(** Ten bytes of a record are not seen; the whole text without its newline is. *)
Lemma crash_keeps_logs_witness :
  let after n := (@Load _ (@runner_log_record plain_std) sample_root io_fine (s2b "r1")
    (@Append_crash _ (@runner_log_record plain_std) sample_root sample_now (s2b "r1") status_record n
      (run_with (@do_log _ (@runner_log_record plain_std) sample_root) sample_ops (mkWorld ∅ ∅)).2)).1 in
  (λ r, match r with Ok l => rr_Seq <$> l | Err _ => [] end) (after 10%nat) = [1; 2] ∧
  (λ r, match r with Ok l => rr_Seq <$> l | Err _ => [] end) (after 100%nat) = [1; 2; 3].
Proof.
  pose proof (λ n, @crash_keeps_logs _ _ (@runner_log_laws plain_std) sample_root sample_now (s2b "r1")
    status_record n sample_ops (s2b "r1") (sample_ops_fit 7 (le_n 7)) status_fits eq_refl) as H.
  cbv zeta in H |- *. split; [rewrite (H 10%nat)|rewrite (H 100%nat)]; vm_compute; reflexivity.
Defined.

Lemma record_roundtrip_witness :
  ∃ l r, @rec_marshal _ (@runner_log_record plain_std) event_record = Some l ∧
    @rec_unmarshal _ (@runner_log_record plain_std) l = Some r ∧
    rr_Event r = Some (mkStored (s2b "node.completed") (s2b "n1") (s2b "json") (s2b "{}") []).
Proof.
  destruct (@rec_marshal _ (@runner_log_record plain_std) event_record) as [l|] eqn:E;
    [|vm_compute in E; discriminate].
  exists l, (norm_record event_record). split; [reflexivity|]. split; [|vm_compute; reflexivity].
  apply (@record_roundtrip plain_std event_record l (proj1 event_fits) E).
Defined.

(** ** What the stores do not survive

    A record appended after a crash lands on the crash's partial line: it is
    reported as written and lost, and the next one makes the log unreadable. *)
Lemma append_after_crash :
  let S := @runner_log_record plain_std in
  let app r w := @Append _ S sample_root io_fine sample_now (s2b "r1") (Some r) w in
  let load w := (@Load _ S sample_root io_fine (s2b "r1") w).1 in
  let w0 := (app init_record (mkWorld ∅ ∅)).2 in
  let w1 := @Append_crash _ S sample_root sample_now (s2b "r1") status_record 5 w0 in
  let w2 := (app status_record w1).2 in
  let w3 := (app status_record w2).2 in
  (app status_record w1).1.1 = Ok 2 ∧
  (∃ l, load w2 = Ok l ∧ rr_Seq <$> l = [1]) ∧
  load w3 = Err (ErrCorrupt 2).
Proof. vm_compute. split_and!; [done|eexists; split; reflexivity|done]. Qed.

(** A first record that is refused, or cut short by a crash, leaves an empty log
    where [Load] promises [ErrNotFound]. *)
Lemma refused_first_record :
  let S := @runner_log_record plain_std in
  let '(res, _, w) := @Append _ S sample_root io_fine sample_now (s2b "r1") (Some status_record)
                        (mkWorld ∅ ∅) in
  res = Err ErrNotInitialised ∧ (@Load _ S sample_root io_fine (s2b "r1") w).1 = Ok [].
Proof. vm_compute. done. Qed.

(** The cache trusts the size of the file: another process that replaces the log
    by one of the same size makes the next append reuse a sequence number. *)
Definition long_status : RunnerRecord :=
  mkRecord 0 RunnerRecordStatus zero_time [] (s2b "xxxxxxxxxxxxxxxxxxxxxxxxxxxxxxxxxxxxxxxxxxx") None.
Definition short_status : RunnerRecord := mkRecord 0 RunnerRecordStatus zero_time [] [] None.

Lemma stale_cache :
  let S := @runner_log_record plain_std in
  let app r w := @Append _ S sample_root io_fine sample_now (s2b "r1") (Some r) w in
  let a := (app long_status (app init_record (mkWorld ∅ ∅)).2).2 in
  let b := (Delete sample_root io_fine (s2b "r1") (reopen a)).2 in
  let b := (app short_status (app short_status (app init_record b).2).2).2 in
  let c := app short_status (mkWorld (w_files b) (w_states a)) in
  c.1.1 = Ok 3 ∧
  ∃ l, (@Load _ S sample_root io_fine (s2b "r1") c.2).1 = Ok l ∧ rr_Seq <$> l = [1; 2; 3; 3].
Proof. vm_compute. split; [done|]. eexists. split; reflexivity. Qed.
