(* ===== verification/EventLog.v ===== *)
(** The request event log and the replay cursor of the JSON backend:
    [store/event_log.go] and [store/cursor.go], over files as in [Log.v].

    [EventLogStore] is the interface readers of a log are proved against, with
    its laws; the JSON store is an instance. A log has no protection against a
    torn last line ([torn_append] below), unlike the record stores of [Log.v]. *)
From Stdlib Require Import Sorted.
From S2P Require Import Prelude Json GoText Text Event Bundle Plan PlanFacts Log LogFacts Record.

(** ** Identifiers and paths *)

(** [validateStoreID] is [validateID] of the record stores, word for word. *)
Definition validateStoreID : bytes → option log_err := validateID.

Definition store_path (root id suffix : bytes) : res log_err bytes :=
  match validateStoreID id with Some e => Err e | None => Ok (Join2 root (id ++ suffix)) end.

(** ** The interface *)

Inductive elog_err :=
| ErrMissing (what : bytes)
| ErrExceeds (what : bytes)
| ErrBadDelta
| ErrStoreID (e : log_err)
| ErrSystem
| ErrEncodeEvent
| ErrDecodeEntry (i : Z)
| ErrCursorNegative
| ErrCursorNotFound
| ErrCursorDecode.

Class EventLogStore (S : Type) := {
  AppendEvent : Event → S → res elog_err () * S;
  LoadEvents : bytes → Z → Filter → S → res elog_err (list Event) }.

Definition from_first (from : Z) : Z := if from =? 0 then 1 else from.

(** What a load selects from the frames of a request. *)
Definition select_frames (from : Z) (f : Filter) (es : list Event) : list Event :=
  List.filter (λ e, negb (ev_SequenceNumber e <? from_first from) && Match f e) es.

(** Events that can be stored: their fields are text and numbers JSON keeps. *)
Definition event_fits `{GoStd} (e : Event) : Prop := event_ok e ∧ is_Some (norm_event e).

(** Frames in the order of their numbers. *)
Definition in_order : list Event → Prop := StronglySorted (λ a b, ev_SequenceNumber a ≤ ev_SequenceNumber b).

(** A store keeps the frames of each request as they were appended; that a load
    returns them is promised for frames appended in order. *)
Class EventLogLaws `{GoStd} (S : Type) `{EventLogStore S} := {
  (** What can be read is fine; the frames of a request. *)
  log_ok : S → Prop;
  frames : S → bytes → list Event;
  append_ok e s s' : log_ok s → event_fits e → AppendEvent e s = (Ok (), s') →
    log_ok s' ∧ ∃ e', norm_event e = Some e' ∧ scope_RequestID (ev_Scope e) ≠ [] ∧ ∀ id,
      frames s' id = frames s id ++ (if bool_decide (id = scope_RequestID (ev_Scope e)) then [e'] else []);
  append_err e s s' err : log_ok s → AppendEvent e s = (Err err, s') → log_ok s' ∧ ∀ id, frames s' id = frames s id;
  load_frames id from f s : log_ok s → validateStoreID id = None → 0 ≤ from → in_order (frames s id) →
    LoadEvents id from f s = Ok (select_frames from f (frames s id)) }.

(** ** The JSON store *)

(** [validateJSONEventLogEvent]. *)
Definition validateJSONEventLogEvent (e : Event) : option elog_err :=
  if is_empty (scope_RequestID (ev_Scope e)) then Some (ErrMissing (s2b "scope.request_id"))
  else if ev_SequenceNumber e =? 0 then Some (ErrMissing (s2b "sequence_number"))
  else if ev_LogicalTime e =? 0 then Some (ErrMissing (s2b "logical_time"))
  else if is_empty (ev_EventType e) then Some (ErrMissing (s2b "event_type"))
  else if is_empty (src_Layer (ev_From e)) then Some (ErrMissing (s2b "from.layer"))
  else if is_empty (ev_Status e) then Some (ErrMissing (s2b "status"))
  else if bool_decide (ev_Timestamp e = zero_time) then Some (ErrMissing (s2b "timestamp"))
  else match ev_Delta e with
       | Some d => if json_Valid d then None else Some ErrBadDelta
       | None => None
       end.

Abbreviation files := (gmap bytes bytes).

(** Append: the file is created on opening; a failed write leaves what
    [io_short] says of the line. *)
Definition JSON_AppendEvent (root : bytes) (i : io) (e : Event) (fs : files) : res elog_err () * files :=
  match validateJSONEventLogEvent e with
  | Some err => (Err err, fs)
  | None =>
      match store_path root (scope_RequestID (ev_Scope e)) (s2b ".jsonl") with
      | Err err => (Err (ErrStoreID err), fs)
      | Ok p =>
          if negb (io_ok i COpen) then (Err ErrSystem, fs)
          else
            let data := default [] (fs !! p) in
            match event_json e with
            | None => (Err ErrEncodeEvent, <[p := data]> fs)
            | Some j =>
                let line := print j ++ newline in
                if negb (io_ok i CWrite) then (Err ErrSystem, <[p := data ++ take (io_short i) line]> fs)
                else (if io_ok i CSync then Ok () else Err ErrSystem, <[p := data ++ line]> fs)
            end
      end
  end.

(** One [Decode] of a [json.Decoder]: the text of the next value and what is left. *)
Inductive decoded := DecEOF | DecErr | DecText (raw rest : bytes).

Definition decode_next (s : bytes) : decoded :=
  let s := skip_ws s in
  if is_empty s then DecEOF
  else
    match parse_val (S (List.length s)) s with
    | None => DecErr
    | Some (_, r) => DecText (take (List.length s - List.length r) s) r
    end.

Section json_store.
Context `{GoStd}.

(** The events of a file; [i] counts them. Every value takes a byte at least. *)
Fixpoint decode_stream (fuel : nat) (i : Z) (s : bytes) : res elog_err (list Event) :=
  match fuel with
  | O => Err (ErrDecodeEntry i)
  | S fuel =>
      match decode_next s with
      | DecEOF => Ok []
      | DecErr => Err (ErrDecodeEntry i)
      | DecText raw rest =>
          match decode_event zero_event raw with
          | None => Err (ErrDecodeEntry i)
          | Some e => let? es := decode_stream fuel (i + 1) rest in Ok (e :: es)
          end
      end
  end.
Definition decode_file (data : bytes) : res elog_err (list Event) := decode_stream (S (List.length data)) 1 data.

Definition JSON_LoadEvents (root : bytes) (i : io) (requestID : bytes) (from : Z) (f : Filter) (fs : files)
  : res elog_err (list Event) :=
  if is_empty requestID then Err (ErrMissing (s2b "scope.request_id"))
  else
    match store_path root requestID (s2b ".jsonl") with
    | Err err => Err (ErrStoreID err)
    | Ok p =>
        match fs !! p with
        | None => Ok []
        | Some data =>
            if negb (io_ok i COpen) then Err ErrSystem
            else let? es := decode_file data in Ok (select_frames from f es)
        end
    end.
End json_store.

(** ** The store meets the interface *)

Section json_laws.
Context `{GoStd} (root : bytes).

Definition log_lines (js : list json) : bytes := mjoin ((λ j, print j ++ newline) <$> js).

(** A line and the event it reads back as. *)
Definition frame_of (j : json) (e' : Event) : Prop :=
  ∃ e, event_fits e ∧ event_json e = Some j ∧ norm_event e = Some e'.

Lemma decode_line_next j e' rest : frame_of j e' →
  decode_next (print j ++ newline ++ rest) = DecText (print j) (newline ++ rest) ∧ decode_event zero_event (print j) = Some e'.
Proof.
  intros (e&[Hok _]&Hj&Hn). pose proof (event_json_wf _ _ Hok Hj) as Hwf. split; [|by rewrite (decode_event_json _ _ Hok Hj)].
  unfold decode_next. rewrite skip_ws_print by done.
  assert (is_empty (print j ++ newline ++ rest) = false) as -> by by destruct (print_head j Hwf) as (c&t&->&_).
  rewrite (proj1 (parse_print_fuel _) j (newline ++ rest) Hwf); [|done|].
  - f_equal. rewrite length_app, Nat.add_sub. by rewrite take_app_length.
  - pose proof (jsize_print j Hwf). rewrite length_app. lia.
Qed.

Lemma decode_newline s : decode_next (newline ++ s) = decode_next s.
Proof. done. Qed.

Lemma decode_lines js es : Forall2 frame_of js es → ∀ fuel i pre, (pre = [] ∨ pre = newline) →
  (List.length (log_lines js) < fuel)%nat → decode_stream fuel i (pre ++ log_lines js) = Ok es.
Proof.
  induction 1 as [|j e js es Hj _ IH]; intros fuel i pre Hpre Hf.
  { destruct fuel as [|fuel]; [simpl in Hf; lia|]. cbn [decode_stream log_lines fmap list_fmap mjoin].
    by destruct Hpre as [-> | ->]. }
  destruct fuel as [|fuel]; [lia|]. cbn [decode_stream].
  change (log_lines (j :: js)) with ((print j ++ newline) ++ log_lines js) in *. rewrite <- app_assoc in *.
  destruct (decode_line_next j e (log_lines js) Hj) as [Hn Hd].
  assert (decode_next (pre ++ print j ++ newline ++ log_lines js) = DecText (print j) (newline ++ log_lines js)) as ->.
  { destruct Hpre as [-> | ->]; [done|]. by rewrite decode_newline. }
  rewrite Hd. rewrite (IH fuel (i + 1) newline); [done|by right|].
  rewrite !length_app in Hf. simpl in Hf. lia.
Qed.

Lemma decode_file_lines js es : Forall2 frame_of js es → decode_file (log_lines js) = Ok es.
Proof. intros Hf. unfold decode_file. apply (decode_lines js es Hf _ _ []); [by left|lia]. Qed.

Definition files_ok (fs : files) : Prop := ∀ p data, fs !! p = Some data → ∃ js es, data = log_lines js ∧ Forall2 frame_of js es.

Definition file_frames (fs : files) (id : bytes) : list Event :=
  match store_path root id (s2b ".jsonl") with
  | Ok p => match decode_file (default [] (fs !! p)) with Ok es => es | Err _ => [] end
  | Err _ => []
  end.

Lemma store_path_inj id id' p : store_path root id (s2b ".jsonl") = Ok p → store_path root id' (s2b ".jsonl") = Ok p → id' = id.
Proof. intros H1 H2. by eapply (log_path_inj root). Qed.

Lemma file_frames_insert fs id id' p data : store_path root id (s2b ".jsonl") = Ok p →
  file_frames (<[p := data]> fs) id' =
    if bool_decide (id' = id) then match decode_file data with Ok es => es | Err _ => [] end else file_frames fs id'.
Proof.
  intros Hp. unfold file_frames. case_bool_decide as Hid.
  - subst id'. by rewrite Hp, lookup_insert_eq.
  - destruct (store_path root id' _) as [p'|] eqn:Hp'; [|done]. rewrite lookup_insert_ne; [done|].
    intros <-. apply Hid. by eapply store_path_inj.
Qed.

Lemma files_ok_lines fs p : files_ok fs → ∃ js es, default [] (fs !! p) = log_lines js ∧ Forall2 frame_of js es.
Proof.
  intros Hok. destruct (fs !! p) as [data|] eqn:E; [by eapply Hok|]. by exists [], [].
Qed.

#[local] Instance json_event_log : EventLogStore files := {|
  AppendEvent := JSON_AppendEvent root io_fine;
  LoadEvents := JSON_LoadEvents root io_fine |}.

Lemma json_append e fs fs' : files_ok fs → event_fits e → AppendEvent e fs = (Ok (), fs') →
  files_ok fs' ∧ ∃ e', norm_event e = Some e' ∧ scope_RequestID (ev_Scope e) ≠ [] ∧ ∀ id,
    file_frames fs' id = file_frames fs id ++ (if bool_decide (id = scope_RequestID (ev_Scope e)) then [e'] else []).
Proof.
  intros Hok Hfit Ha. unfold AppendEvent, json_event_log, JSON_AppendEvent in Ha.
  assert (validateJSONEventLogEvent e = None → scope_RequestID (ev_Scope e) ≠ []) as Hid.
  { unfold validateJSONEventLogEvent. by destruct (scope_RequestID _). }
  destruct (validateJSONEventLogEvent e); [done|]. destruct (store_path _ _ _) as [p|] eqn:Hp; [|done].
  cbn [io_ok io_fine negb] in Ha. destruct (event_json e) as [j|] eqn:Hj; [|done]. injection Ha as <-.
  destruct (files_ok_lines fs p Hok) as (js&es&Hd&Hf). rewrite Hd.
  destruct Hfit as [Hev [e' Hn]]. assert (Forall2 frame_of (js ++ [j]) (es ++ [e'])) as Hf'.
  { apply Forall2_app; [done|]. repeat constructor. exists e. split_and!; [split; [done|by exists e']|done..]. }
  assert (log_lines js ++ print j ++ newline = log_lines (js ++ [j])) as Hl.
  { unfold log_lines. rewrite fmap_app, join_app. f_equal. cbn. by rewrite app_nil_r. }
  rewrite Hl. split.
  - intros q data. destruct (decide (q = p)) as [->|Hq].
    + rewrite lookup_insert_eq. intros [= <-]. by exists (js ++ [j]), (es ++ [e']).
    + rewrite lookup_insert_ne by done. by apply Hok.
  - exists e'. split_and!; [done|by apply Hid|]. intros id. rewrite (file_frames_insert _ _ _ _ _ Hp).
    case_bool_decide as E; [|by rewrite app_nil_r]. subst id.
    rewrite (decode_file_lines _ _ Hf'). unfold file_frames. by rewrite Hp, Hd, (decode_file_lines _ _ Hf).
Qed.

Lemma json_append_err e fs fs' err : files_ok fs → AppendEvent e fs = (Err err, fs') →
  files_ok fs' ∧ ∀ id, file_frames fs' id = file_frames fs id.
Proof.
  intros Hok Ha. unfold AppendEvent, json_event_log, JSON_AppendEvent in Ha.
  destruct (validateJSONEventLogEvent e); [by injection Ha as <- <-|].
  destruct (store_path _ _ _) as [p|] eqn:Hp; [|by injection Ha as <- <-].
  cbn [io_ok io_fine negb] in Ha. destruct (event_json e) as [j|] eqn:Hj; [done|]. injection Ha as <- <-. split.
  - intros q data. destruct (decide (q = p)) as [->|Hq].
    + rewrite lookup_insert_eq. intros [= <-]. by apply files_ok_lines.
    + rewrite lookup_insert_ne by done. by apply Hok.
  - intros id. rewrite (file_frames_insert _ _ _ _ _ Hp). case_bool_decide as E; [|done]. subst id.
    unfold file_frames. by rewrite Hp.
Qed.

Lemma json_load id from f fs : files_ok fs → validateStoreID id = None →
  LoadEvents id from f fs = Ok (select_frames from f (file_frames fs id)).
Proof.
  intros Hok Hid. destruct id as [|c id]; [by vm_compute in Hid|].
  unfold LoadEvents, json_event_log, JSON_LoadEvents, file_frames, store_path. rewrite Hid. cbn [is_empty io_ok io_fine negb].
  destruct (fs !! _) as [data|] eqn:E; [|done].
  destruct (Hok _ _ E) as (js&es&->&Hf). change (default [] (Some (log_lines js))) with (log_lines js). by rewrite (decode_file_lines _ _ Hf).
Qed.

#[local] Instance json_event_log_laws : EventLogLaws files := {|
  log_ok := files_ok; frames := file_frames;
  append_ok := json_append; append_err := json_append_err;
  load_frames id from f s Hok Hid _ _ := json_load id from f s Hok Hid |}.
End json_laws.

(** ** Cursors *)

Record SnapshotCursor := mkCursor {
  sc_RequestID : bytes; sc_RunnerID : bytes; sc_CheckpointSequence : Z; sc_EventSequence : Z; sc_UpdatedAt : bytes }.
Definition zero_cursor : SnapshotCursor := mkCursor [] [] 0 0 zero_time.
#[export] Instance cursor_eq_dec : EqDecision SnapshotCursor. Proof. solve_decision. Defined.

Definition cursor_json (c : SnapshotCursor) : json :=
  JObj [field "RequestID" (jstr (sc_RequestID c)); field "RunnerID" (jstr (sc_RunnerID c));
        field "CheckpointSequence" (JNum (dec (sc_CheckpointSequence c)));
        field "EventSequence" (JNum (dec (sc_EventSequence c))); field "UpdatedAt" (JStr (sc_UpdatedAt c))].

Definition validateJSONSnapshotCursor (c : SnapshotCursor) : option elog_err :=
  if is_empty (sc_RequestID c) then Some (ErrMissing (s2b "request_id"))
  else if sc_CheckpointSequence c <? 0 then Some ErrCursorNegative else None.

Definition stamp_cursor (now : bytes) (c : SnapshotCursor) : SnapshotCursor :=
  if bool_decide (sc_UpdatedAt c = zero_time)
  then mkCursor (sc_RequestID c) (sc_RunnerID c) (sc_CheckpointSequence c) (sc_EventSequence c) now else c.

(** The temporary file is removed whatever happens. *)
Definition SaveCursor (root : bytes) (i : io) (now : bytes) (c : SnapshotCursor) (fs : files) : res elog_err () * files :=
  match validateJSONSnapshotCursor c with
  | Some err => (Err err, fs)
  | None =>
      match store_path root (sc_RequestID c) (s2b ".json") with
      | Err err => (Err (ErrStoreID err), fs)
      | Ok p =>
          if forallb (io_ok i) [CTemp; CTmpWrite; CSync; CTmpClose; CRename] then
            (Ok (), <[p := print (cursor_json (stamp_cursor now c))]> fs)
          else (Err ErrSystem, fs)
      end
  end.

Section cursor.
Context `{GoStd}.

Definition cursor_field (k raw : bytes) (c : SnapshotCursor) : option SnapshotCursor :=
  let '(mkCursor a b n m t) := c in
  if field_is "RequestID" k then x ← decode_str a raw; Some (mkCursor x b n m t)
  else if field_is "RunnerID" k then x ← decode_str b raw; Some (mkCursor a x n m t)
  else if field_is "CheckpointSequence" k then x ← decode_i64 n raw; Some (mkCursor a b x m t)
  else if field_is "EventSequence" k then x ← decode_u64 m raw; Some (mkCursor a b n x t)
  else if field_is "UpdatedAt" k then x ← decode_time t raw; Some (mkCursor a b n m x)
  else Some c.

Definition LoadCursor (root : bytes) (i : io) (requestID : bytes) (fs : files) : res elog_err SnapshotCursor :=
  match store_path root requestID (s2b ".json") with
  | Err err => Err (ErrStoreID err)
  | Ok p =>
      match fs !! p with
      | None => Err ErrCursorNotFound
      | Some data =>
          if negb (io_ok i COpen) then Err ErrSystem
          else match decode_struct cursor_field zero_cursor data with Some c => Ok c | None => Err ErrCursorDecode end
      end
  end.

Definition cursor_fits (c : SnapshotCursor) : Prop :=
  utf8 (sc_RequestID c) ∧ utf8 (sc_RunnerID c) ∧ - two63 ≤ sc_CheckpointSequence c < two63
  ∧ u64_ok (sc_EventSequence c) ∧ time_ok (sc_UpdatedAt c).

Lemma decode_cursor c : cursor_fits c → decode_struct cursor_field zero_cursor (print (cursor_json c)) = Some c.
Proof.
  intros (H1&H2&H3&H4&H5). destruct c as [a b n m t]. cbn in H1, H2, H3, H4, H5. unfold cursor_json.
  rewrite decode_struct_print.
  - unfold fold_members. cbn [foldl sc_RequestID sc_RunnerID sc_CheckpointSequence sc_EventSequence sc_UpdatedAt field fst snd].
    unfold cursor_field, zero_cursor. cbn [mbind option_bind]. name_tests.
    rewrite decode_str_jstr by done. cbn [mbind option_bind]. name_tests.
    rewrite decode_str_jstr by done. cbn [mbind option_bind]. name_tests.
    rewrite decode_i64_dec by done. cbn [mbind option_bind]. name_tests.
    rewrite decode_u64_dec by done. cbn [mbind option_bind]. name_tests.
    by rewrite decode_time_print.
  - constructor. repeat (apply field_cons; [simpl; name_body|cbn; first [apply jstr_wf|constructor; first [apply num_ok_dec|apply H5]]|]).
    constructor.
Qed.

(** A cursor that was saved is the one loaded; one that was not leaves the files
    as they were. *)
Lemma cursor_saved root i now c fs r fs' : cursor_fits (stamp_cursor now c) → SaveCursor root i now c fs = (r, fs') →
  match r with
  | Ok _ => LoadCursor root io_fine (sc_RequestID c) fs' = Ok (stamp_cursor now c)
  | Err _ => fs' = fs
  end.
Proof.
  intros Hfit. unfold SaveCursor, LoadCursor. destruct (validateJSONSnapshotCursor c); [by intros [= <- <-]|].
  destruct (store_path _ _ _) as [p|]; [|by intros [= <- <-]].
  destruct (forallb _ _); intros [<- <-]%pair_equal_spec; [|done]. rewrite lookup_insert_eq. cbn [io_ok io_fine negb].
  by rewrite decode_cursor.
Qed.
End cursor.

(** ** A torn line *)

Definition log_root : bytes := s2b "/var/events".
Definition logged (n : Z) : Event :=
  mkEvent (s2b "status.progress") (mkSource (s2b "runner") [] []) n StatusRunning None n
    (s2b "2024-05-01T00:00:00Z") (mkScope (s2b "q-1") [] [] []) None.
Definition short_write (n : nat) : io := mkIO (λ c, match c with CWrite => false | _ => true end) None n.

(** A write that fails after a few bytes makes the log unreadable, for good:
    the events before it are lost to every later load. *)
Lemma torn_append :
  let fs1 := (JSON_AppendEvent log_root io_fine (logged 1) ∅).2 in
  let fs2 := (JSON_AppendEvent log_root (short_write 5) (logged 2) fs1).2 in
  let '(r, fs3) := JSON_AppendEvent log_root io_fine (logged 3) fs2 in
  let load := @JSON_LoadEvents plain_std log_root io_fine (s2b "q-1") 0 zero_filter in
  option_map (fmap ev_SequenceNumber) (match load fs1 with Ok es => Some es | Err _ => None end) = Some [1]
  ∧ load fs2 = Err (ErrDecodeEntry 2) ∧ r = Ok () ∧ load fs3 = Err (ErrDecodeEntry 2).
Proof. by vm_compute. Qed.
