(* ===== verification/Describe.v ===== *)
(** The describe view of a request, [orchestrator/describe.go]: a fold of the
    event log of [EventLog.v], against its interface, resumed from a cursor.

    [describe_resumes]: continuing from the saved cursor gives the view a replay
    from the beginning would. *)
From S2P Require Import Prelude Json GoText Text Event Bundle Plan Record Log EventLog.

(** ** Data *)

Definition EventStatusStarted : bytes := s2b "status.started".
Definition EventStatusCompleted : bytes := s2b "status.completed".
Definition EventStatusFailed : bytes := s2b "status.failed".
Definition EventRunnerPhaseChanged : bytes := s2b "runner.phase.changed".
Definition EventRunnerNodeAdded : bytes := s2b "runner.node.added".
Definition EventRunnerNodeStarted : bytes := s2b "runner.node.started".
Definition EventRunnerNodeCompleted : bytes := s2b "runner.node.completed".
Definition EventRunnerNodeFailed : bytes := s2b "runner.node.failed".
Definition EventArtifactCreated : bytes := s2b "artifact.created".
Definition RunnerStatusFailed : bytes := s2b "failed".

Record DescribeNode := mkDNode {
  dn_ID : bytes; dn_SkillName : bytes; dn_TaskDescription : bytes; dn_DependsOn : list bytes;
  dn_Status : bytes; dn_Error : bytes }.
Definition zero_dnode : DescribeNode := mkDNode [] [] [] [] [] [].

Record DescribeArtifact := mkDArtifact {
  da_NodeID : bytes; da_Path : bytes; da_ResourceType : bytes; da_Description : bytes; da_Stage : bytes }.

Record DescribeView := mkView {
  dv_RequestID : bytes; dv_RunnerID : bytes; dv_Phase : bytes; dv_Status : bytes;
  dv_Nodes : gmap bytes DescribeNode; dv_Artifacts : list DescribeArtifact;
  dv_LatestCheckpointSequence : Z; dv_LatestEventSequence : Z }.
Definition fresh_view (requestID : bytes) : DescribeView := mkView requestID [] [] [] ∅ [] 0 0.

Definition set_request (x : bytes) (v : DescribeView) : DescribeView :=
  mkView x (dv_RunnerID v) (dv_Phase v) (dv_Status v) (dv_Nodes v) (dv_Artifacts v)
    (dv_LatestCheckpointSequence v) (dv_LatestEventSequence v).
Definition set_runner (x : bytes) (v : DescribeView) : DescribeView :=
  mkView (dv_RequestID v) x (dv_Phase v) (dv_Status v) (dv_Nodes v) (dv_Artifacts v)
    (dv_LatestCheckpointSequence v) (dv_LatestEventSequence v).
Definition set_view_phase (ph st : bytes) (v : DescribeView) : DescribeView :=
  mkView (dv_RequestID v) (dv_RunnerID v) ph st (dv_Nodes v) (dv_Artifacts v)
    (dv_LatestCheckpointSequence v) (dv_LatestEventSequence v).
Definition set_node (n : DescribeNode) (v : DescribeView) : DescribeView :=
  mkView (dv_RequestID v) (dv_RunnerID v) (dv_Phase v) (dv_Status v) (<[dn_ID n := n]> (dv_Nodes v)) (dv_Artifacts v)
    (dv_LatestCheckpointSequence v) (dv_LatestEventSequence v).
Definition set_artifacts (l : list DescribeArtifact) (v : DescribeView) : DescribeView :=
  mkView (dv_RequestID v) (dv_RunnerID v) (dv_Phase v) (dv_Status v) (dv_Nodes v) l
    (dv_LatestCheckpointSequence v) (dv_LatestEventSequence v).
Definition raise_latest (checkpoint event : Z) (v : DescribeView) : DescribeView :=
  mkView (dv_RequestID v) (dv_RunnerID v) (dv_Phase v) (dv_Status v) (dv_Nodes v) (dv_Artifacts v)
    (Z.max (dv_LatestCheckpointSequence v) checkpoint) (Z.max (dv_LatestEventSequence v) event).

(** ** Helpers *)

Definition metadataString (m : metadata) (key : string) : bytes :=
  match m with
  | Some es => match map_get (s2b key) es with Some (AStr s) => s | _ => [] end
  | None => []
  end.

Fixpoint firstNonEmpty (values : list bytes) : bytes :=
  match values with
  | [] => []
  | v :: vs => if is_empty (TrimSpace v) then firstNonEmpty vs else v
  end.

Fixpoint upsertArtifact (a : DescribeArtifact) (l : list DescribeArtifact) : list DescribeArtifact :=
  match l with
  | [] => [a]
  | b :: l =>
      if bool_decide (da_NodeID b = da_NodeID a) && bool_decide (da_Path b = da_Path a) then a :: l
      else b :: upsertArtifact a l
  end.

(** ** The deltas the view reads *)

Definition runner_id_field (k raw : bytes) (d : bytes) : option bytes :=
  if field_is "runner_id" k then decode_str d raw else Some d.

Definition phase_field (k raw : bytes) (d : bytes * bytes) : option (bytes * bytes) :=
  if field_is "phase" k then x ← decode_str d.1 raw; Some (x, d.2)
  else if field_is "status" k then x ← decode_str d.2 raw; Some (d.1, x)
  else Some d.

(** [ad_backing] is the array behind [DependsOn]. *)
Record added_delta := mkAdded {
  ad_NodeID : bytes; ad_SkillName : bytes; ad_TaskDescription : bytes; ad_DependsOn : list bytes; ad_backing : list bytes }.

Definition added_field (k raw : bytes) (d : added_delta) : option added_delta :=
  let '(mkAdded n s t deps back) := d in
  if field_is "node_id" k then x ← decode_str n raw; Some (mkAdded x s t deps back)
  else if field_is "skill_name" k then x ← decode_str s raw; Some (mkAdded n x t deps back)
  else if field_is "task_description" k then x ← decode_str t raw; Some (mkAdded n s x deps back)
  else if field_is "depends_on" k then
    match top_of raw with
    | Some TNull | Some (TArr []) => Some (mkAdded n s t [] [])
    | Some (TArr raws) =>
        xs ← decode_strs back raws;
        Some (mkAdded n s t xs (xs ++ drop (List.length xs) back))
    | _ => None
    end
  else Some d.

Definition node_field (k raw : bytes) (d : bytes * bytes) : option (bytes * bytes) :=
  if field_is "node_id" k then x ← decode_str d.1 raw; Some (x, d.2)
  else if field_is "error" k then x ← decode_str d.2 raw; Some (d.1, x)
  else Some d.

(** [da_NodeID] comes from the scope. *)
Definition artifact_field (k raw : bytes) (d : DescribeArtifact) : option DescribeArtifact :=
  let '(mkDArtifact n p r de s) := d in
  if field_is "path" k then x ← decode_str p raw; Some (mkDArtifact n x r de s)
  else if field_is "resource_type" k then x ← decode_str r raw; Some (mkDArtifact n p x de s)
  else if field_is "description" k then x ← decode_str de raw; Some (mkDArtifact n p r x s)
  else if field_is "stage" k then x ← decode_str s raw; Some (mkDArtifact n p r de x)
  else Some d.

(** ** Applying an event *)

Inductive describe_err :=
| ErrNoRequestID
| ErrCursorRequest
| ErrViewRequest
| ErrLoad (e : elog_err)
| ErrExpand (seq : Z) (e : stream_err)
| ErrApply (seq : Z) (what : bytes)
| ErrSave (e : elog_err)
| ErrNoEventLog.

Definition event_is (e : Event) (types : list bytes) : bool := bool_decide (ev_EventType e ∈ types).

Definition delta_of (e : Event) : bytes := default [] (ev_Delta e).

Definition node_of (v : DescribeView) (id : bytes) : DescribeNode := default zero_dnode (dv_Nodes v !! id).

(** What the scope of an event says; a foreign request is an error. *)
Definition apply_scope (e : Event) (v : DescribeView) : option bytes * DescribeView :=
  let rid := scope_RequestID (ev_Scope e) in
  if negb (is_empty rid) && negb (is_empty (dv_RequestID v)) && negb (bool_decide (dv_RequestID v = rid)) then
    (Some (s2b "event request does not match describe view request"), v)
  else
    let v := if is_empty (dv_RequestID v) then set_request rid v else v in
    let run := scope_RunnerID (ev_Scope e) in
    (None, if negb (is_empty run) && is_empty (dv_RunnerID v) then set_runner run v else v).

Definition apply_status (e : Event) (v : DescribeView) : DescribeView :=
  let v := match decode_struct runner_id_field [] (delta_of e) with
           | Some run => if negb (is_empty run) && is_empty (dv_RunnerID v) then set_runner run v else v
           | None => v
           end in
  if event_is e [EventStatusFailed] then set_view_phase (dv_Phase v) RunnerStatusFailed v else v.

Definition apply_phase (e : Event) (v : DescribeView) : option bytes * DescribeView :=
  match decode_struct phase_field ([], []) (delta_of e) with
  | None => (Some (s2b "decode runner phase delta"), v)
  | Some (ph, st) => (None, set_view_phase (or_base ph (dv_Phase v)) (or_base st (dv_Status v)) v)
  end.

Definition apply_added (e : Event) (v : DescribeView) : option bytes * DescribeView :=
  match decode_struct added_field (mkAdded [] [] [] [] []) (delta_of e) with
  | None => (Some (s2b "decode runner node-added delta"), v)
  | Some d =>
      let id := firstNonEmpty [ad_NodeID d; scope_NodeID (ev_Scope e)] in
      if is_empty id then (Some (s2b "runner node-added event missing node_id"), v)
      else
        let n := node_of v id in
        (None, set_node (mkDNode id
          (firstNonEmpty [ad_SkillName d; dn_SkillName n; metadataString (ev_Metadata e) "skill_name"])
          (firstNonEmpty [ad_TaskDescription d; dn_TaskDescription n])
          (ad_DependsOn d) (ev_Status e) (dn_Error n)) v)
  end.

Definition apply_node (e : Event) (v : DescribeView) : option bytes * DescribeView :=
  match decode_struct node_field ([], []) (delta_of e) with
  | None => (Some (s2b "decode runner node delta"), v)
  | Some (nid, err) =>
      let id := firstNonEmpty [nid; scope_NodeID (ev_Scope e)] in
      if is_empty id then (Some (s2b "runner node event missing node_id"), v)
      else
        let n := node_of v id in
        (None, set_node (mkDNode id
          (or_base (dn_SkillName n) (metadataString (ev_Metadata e) "skill_name"))
          (dn_TaskDescription n) (dn_DependsOn n) (ev_Status e)
          (if event_is e [EventRunnerNodeFailed] then TrimSpace err else dn_Error n)) v)
  end.

Definition apply_artifact (e : Event) (v : DescribeView) : option bytes * DescribeView :=
  match decode_struct artifact_field (mkDArtifact (scope_NodeID (ev_Scope e)) [] [] [] []) (delta_of e) with
  | None => (Some (s2b "decode artifact delta"), v)
  | Some a =>
      if is_empty (TrimSpace (da_Path a)) then (Some (s2b "artifact event missing path"), v)
      else (None, set_artifacts (upsertArtifact a (dv_Artifacts v)) v)
  end.

Definition applyEvent (e : Event) (v : DescribeView) : option bytes * DescribeView :=
  match apply_scope e v with
  | (Some err, v) => (Some err, v)
  | (None, v) =>
      if event_is e [EventStatusStarted; EventStatusProgress; EventStatusCompleted; EventStatusFailed] then
        (None, apply_status e v)
      else if event_is e [EventRunnerPhaseChanged] then apply_phase e v
      else if event_is e [EventRunnerNodeAdded] then apply_added e v
      else if event_is e [EventRunnerNodeStarted; EventRunnerNodeCompleted; EventRunnerNodeFailed] then apply_node e v
      else if event_is e [EventArtifactCreated] then apply_artifact e v
      else (None, v)
  end.

(** ** Replay *)

Section replay.
Context `{GoStd} {S : Type} `{EventLogStore S}.

Fixpoint apply_events (es : list Event) (v : DescribeView) : option bytes * DescribeView :=
  match es with
  | [] => (None, v)
  | e :: es => match applyEvent e v with (Some err, v) => (Some err, v) | (None, v) => apply_events es v end
  end.

(** One frame of the log; the view, which is shared, stays as it was left. *)
Definition apply_frame (raw : Event) (v : DescribeView) : option describe_err * DescribeView :=
  match ExpandBundleEvent raw with
  | Err e => (Some (ErrExpand (ev_SequenceNumber raw) e), v)
  | Ok es =>
      match apply_events es v with
      | (Some what, v) => (Some (ErrApply (ev_SequenceNumber raw) what), v)
      | (None, v) => (None, raise_latest (dv_LatestCheckpointSequence v) (ev_SequenceNumber raw) v)
      end
  end.

Fixpoint apply_frames (raws : list Event) (v : DescribeView) : option describe_err * DescribeView :=
  match raws with
  | [] => (None, v)
  | raw :: raws =>
      match apply_frame raw v with (Some err, v) => (Some err, v) | (None, v) => apply_frames raws v end
  end.

(** The view object, when there is one, is left changed even by an error. *)
Definition ReplayDescribeView (requestID : bytes) (view : option DescribeView) (cursor : SnapshotCursor) (s : S)
  : option describe_err * option DescribeView :=
  let requestID := or_base requestID (sc_RequestID cursor) in
  if is_empty requestID then (Some ErrNoRequestID, view)
  else if negb (is_empty (sc_RequestID cursor)) && negb (bool_decide (sc_RequestID cursor = requestID)) then
    (Some ErrCursorRequest, view)
  else
    let v := default (fresh_view requestID) view in
    let v := if is_empty (dv_RequestID v) then set_request requestID v else v in
    if negb (bool_decide (dv_RequestID v = requestID)) then (Some ErrViewRequest, Some v)
    else
      let v := raise_latest (sc_CheckpointSequence cursor) (sc_EventSequence cursor) v in
      let from := if 0 <? sc_EventSequence cursor then u64 (sc_EventSequence cursor + 1) else 1 in
      match LoadEvents requestID from zero_filter s with
      | Err e => (Some (ErrLoad e), Some v)
      | Ok raws => let '(err, v) := apply_frames raws v in (err, Some v)
      end.

(** [DescribeView.SnapshotCursor]. *)
Definition view_cursor (v : DescribeView) : SnapshotCursor :=
  mkCursor (dv_RequestID v) (dv_RunnerID v) (dv_LatestCheckpointSequence v) (dv_LatestEventSequence v) zero_time.

(** [DescribeRequest] over an event log and, when there is one, the files of a
    cursor store. *)
Definition DescribeRequest (requestID : bytes) (s : option S) (root : bytes) (i : io) (now : bytes) (fs : option files)
  : res describe_err DescribeView * option files :=
  if is_empty (TrimSpace requestID) then (Err ErrNoRequestID, fs)
  else
    match s with
    | None => (Err ErrNoEventLog, fs)
    | Some s =>
        match ReplayDescribeView requestID None zero_cursor s with
        | (Some err, _) => (Err err, fs)
        | (None, None) => (Err ErrNoRequestID, fs)
        | (None, Some v) =>
            match fs with
            | None => (Ok v, fs)
            | Some files =>
                match SaveCursor root i now (view_cursor v) files with
                | (Ok _, files) => (Ok v, Some files)
                | (Err e, files) => (Err (ErrSave e), Some files)
                end
            end
        end
    end.
End replay.

(** ** Facts *)

(** Frames numbered in ascending order after [k], the largest number not used. *)
Fixpoint ascending (k : Z) (es : list Event) : Prop :=
  match es with
  | [] => True
  | e :: es => k < ev_SequenceNumber e < two64 - 1 ∧ ascending (ev_SequenceNumber e) es
  end.

Fixpoint last_seq (k : Z) (es : list Event) : Z :=
  match es with [] => k | e :: es => last_seq (ev_SequenceNumber e) es end.

Lemma ascending_app k es more : ascending k (es ++ more) ↔ ascending k es ∧ ascending (last_seq k es) more.
Proof. revert k. induction es as [|e es IH]; intros k; simpl; [tauto|]. rewrite IH. tauto. Qed.

Lemma ascending_above k es : ascending k es → Forall (λ e, k < ev_SequenceNumber e) es.
Proof.
  revert k. induction es as [|e es IH]; intros k; [by constructor|]. intros [[Hk _] Ha]. constructor; [done|].
  eapply Forall_impl; [by apply IH|]. simpl. lia.
Qed.

Lemma ascending_in_order k es : ascending k es → in_order es.
Proof.
  revert k. induction es as [|e es IH]; intros k; [by constructor|]. intros [_ Ha]. constructor; [by eapply IH|].
  eapply Forall_impl; [by apply ascending_above|]. simpl. lia.
Qed.

Lemma ascending_bounds k es : ascending k es →
  k ≤ last_seq k es ∧ Forall (λ e, k < ev_SequenceNumber e ≤ last_seq k es) es.
Proof.
  revert k. induction es as [|e es IH]; intros k; simpl; [split; [lia|constructor]|].
  intros [Hk He]. destruct (IH _ He) as [Hl Hall]. split; [lia|]. constructor; [lia|].
  eapply List.Forall_impl; [|exact Hall]. simpl. lia.
Qed.

Lemma ascending_small k es : ascending k es → k < two64 - 1 → last_seq k es < two64 - 1.
Proof. revert k. induction es as [|e es IH]; intros k; simpl; [done|]. intros [? ?] _. apply IH; [done|lia]. Qed.

(** A selection from a number takes all frames from it on, and none before it. *)
Lemma select_after from es more : 0 < from → ascending 0 (es ++ more) → last_seq 0 es < from ≤ last_seq 0 es + 1 →
  select_frames from zero_filter (es ++ more) = more.
Proof.
  intros Hfrom [Ha Hm]%ascending_app Hf. assert (from_first from = from) as Hff.
  { unfold from_first. destruct (Z.eqb_spec from 0); lia. }
  unfold select_frames. rewrite Hff, List.filter_app.
  apply ascending_bounds in Ha as [_ Ha]. apply ascending_bounds in Hm as [_ Hm].
  revert Ha Hm Hf. generalize (last_seq (last_seq 0 es) more), (last_seq 0 es). intros m l Ha Hm Hf.
  transitivity ([] ++ more); [|done]. f_equal.
  - induction Ha as [|e es He _ IH]; [done|]. simpl. rewrite (proj2 (Z.ltb_lt _ _)) by lia. exact IH.
  - induction Hm as [|e rest He _ IH]; [done|]. simpl. rewrite (proj2 (Z.ltb_ge _ _)) by lia. simpl. by rewrite IH.
Qed.

Section facts.
Context `{GoStd}.

(** What no event changes: the request, and the checkpoint. *)
Definition keeps (v v' : DescribeView) : Prop :=
  dv_RequestID v' = dv_RequestID v ∧ dv_LatestCheckpointSequence v' = dv_LatestCheckpointSequence v
  ∧ dv_LatestEventSequence v' = dv_LatestEventSequence v.

Lemma apply_scope_keeps e v : dv_RequestID v ≠ [] → keeps v (apply_scope e v).2.
Proof.
  intros Hv. unfold apply_scope, keeps. destruct v as [[|c r] ? ? ? ? ? ? ?]; [done|]. simpl.
  repeat case_match; done.
Qed.

Lemma applyEvent_keeps e v : dv_RequestID v ≠ [] → keeps v (applyEvent e v).2.
Proof.
  intros Hv. pose proof (apply_scope_keeps e v Hv) as Hk. unfold applyEvent.
  destruct (apply_scope e v) as [[err|] v1]; [done|]. cbn [snd] in Hk.
  enough (∀ w, keeps v1 w → keeps v w) as Ht; [|unfold keeps in *; intuition congruence].
  assert (keeps v1 (apply_status e v1)) by (unfold apply_status; destruct (decode_struct _ _ _); repeat case_match; done).
  assert (keeps v1 (apply_phase e v1).2) by (unfold apply_phase; by destruct (decode_struct _ _ _) as [[]|]).
  assert (keeps v1 (apply_added e v1).2) by (unfold apply_added; destruct (decode_struct _ _ _); [by case_match|done]).
  assert (keeps v1 (apply_node e v1).2) by (unfold apply_node; destruct (decode_struct _ _ _) as [[]|]; [by case_match|done]).
  assert (keeps v1 (apply_artifact e v1).2) by (unfold apply_artifact; destruct (decode_struct _ _ _); [by case_match|done]).
  repeat case_match; apply Ht; done.
Qed.

Lemma apply_events_keeps es v : dv_RequestID v ≠ [] → keeps v (apply_events es v).2.
Proof.
  revert v. induction es as [|e es IH]; intros v Hv; simpl; [done|].
  pose proof (applyEvent_keeps e v Hv) as Hk. destruct (applyEvent e v) as [[err|] v1]; [done|]. cbn [snd] in Hk.
  assert (dv_RequestID v1 ≠ []) as Hv1 by by destruct Hk as [-> _].
  specialize (IH v1 Hv1). unfold keeps in *. intuition congruence.
Qed.

Lemma apply_frames_latest es v v' : dv_RequestID v ≠ [] → ascending (dv_LatestEventSequence v) es →
  apply_frames es v = (None, v') →
  dv_RequestID v' = dv_RequestID v ∧ dv_LatestCheckpointSequence v' = dv_LatestCheckpointSequence v
  ∧ dv_LatestEventSequence v' = last_seq (dv_LatestEventSequence v) es.
Proof.
  revert v. induction es as [|e es IH]; intros v Hv; [by intros _ [= <-]|]. cbn [ascending last_seq apply_frames].
  intros [He Hes]. unfold apply_frame. destruct (ExpandBundleEvent e) as [evs|]; [|done].
  pose proof (apply_events_keeps evs v Hv) as Hk. destruct (apply_events evs v) as [[err|] v1]; [done|].
  destruct Hk as (Hr&Hc&Hl). cbn [snd] in *. intros Ha. apply IH in Ha.
  - destruct Ha as (->&->&->). cbn. rewrite Hl, Hc, Z.max_id, (Z.max_r (dv_LatestEventSequence v)) by lia. done.
  - cbn. by rewrite Hr.
  - cbn. by rewrite Hl, (Z.max_r (dv_LatestEventSequence v)) by lia.
Qed.

Lemma apply_frames_app es more v : apply_frames (es ++ more) v =
  match apply_frames es v with (Some err, v) => (Some err, v) | (None, v) => apply_frames more v end.
Proof. revert v. induction es as [|e es IH]; intros v; simpl; [done|]. destruct (apply_frame e v) as [[]]; [done|apply IH]. Qed.

Lemma raise_latest_id v :
  raise_latest (dv_LatestCheckpointSequence v) (dv_LatestEventSequence v) v = v.
Proof. destruct v. unfold raise_latest. cbn. by rewrite !Z.max_id. Qed.
End facts.

(** ** Properties *)

Section properties.
Context `{GoStd} {S : Type} `{EventLogStore S} `{!EventLogLaws S}.

(** A replay from the beginning, and one that goes on. *)
Lemma replay_fresh id s : log_ok s → validateStoreID id = None → ascending 0 (frames s id) →
  ReplayDescribeView id None zero_cursor s =
  (let '(err, v) := apply_frames (frames s id) (fresh_view id) in (err, Some v)).
Proof.
  intros Hok Hid Ha. destruct id as [|c id]; [by vm_compute in Hid|]. unfold ReplayDescribeView. cbn -[apply_frames raise_latest].
  rewrite bool_decide_eq_true_2 by done. cbn -[apply_frames raise_latest]. rewrite load_frames by (done || by eapply ascending_in_order).
  assert (select_frames 1 zero_filter (frames s (c :: id)) = frames s (c :: id)) as ->; [|done].
  apply (select_after 1 [] (frames s (c :: id))); [lia|done|simpl; lia].
Qed.

Lemma replay_from id v c s es more : log_ok s → validateStoreID id = None → frames s id = es ++ more →
  ascending 0 (es ++ more) → dv_RequestID v = id → dv_LatestEventSequence v = last_seq 0 es →
  sc_RequestID c = id → sc_CheckpointSequence c = dv_LatestCheckpointSequence v →
  sc_EventSequence c = dv_LatestEventSequence v →
  ReplayDescribeView id (Some v) c s = (let '(err, v) := apply_frames more v in (err, Some v)).
Proof.
  intros Hok Hid Hf Ha Hv Hl Hc Hcc Hce. pose proof Ha as [Ha1 Ha2]%ascending_app.
  pose proof (ascending_bounds _ _ Ha1) as [Hl0 _]. pose proof (ascending_small _ _ Ha1 ltac:(unfold two64; lia)) as Hsm.
  unfold ReplayDescribeView. cbv zeta. rewrite Hc, Hcc, Hce. cbn [default from_option Datatypes.id].
  assert (id ≠ []) as Hne by (intros ->; by vm_compute in Hid).
  assert (or_base id id = id) as -> by by destruct id. assert (is_empty id = false) as -> by by destruct id.
  rewrite (bool_decide_eq_true_2 (id = id)) by done. cbn [negb andb].
  assert (is_empty (dv_RequestID v) = false) as Hev by (rewrite Hv; by destruct id).
  rewrite Hev, bool_decide_eq_true_2 by done. cbn [negb]. rewrite raise_latest_id.
  rewrite load_frames; [|done|done|destruct (0 <? _); [apply Z.mod_pos_bound|]; done|rewrite Hf; by eapply ascending_in_order]. rewrite Hf, select_after; [done| |done|].
  - destruct (Z.ltb_spec 0 (dv_LatestEventSequence v)); [|lia]. rewrite Hl. unfold u64. rewrite Z.mod_small; lia.
  - destruct (Z.ltb_spec 0 (dv_LatestEventSequence v)); rewrite Hl in *; [|lia]. unfold u64. rewrite Z.mod_small; lia.
Qed.

(** C29: Resuming is replaying: the view of a log, carried on from its saved cursor
    when the log has grown, is the view a replay of the whole log builds, and it
    fails exactly when, and where, that replay fails. *)
Theorem describe_resumes id s s' v now more : log_ok s → log_ok s' → validateStoreID id = None →
  frames s' id = frames s id ++ more → ascending 0 (frames s id ++ more) →
  ReplayDescribeView id None zero_cursor s = (None, Some v) →
  ReplayDescribeView id (Some v) (stamp_cursor now (view_cursor v)) s' = ReplayDescribeView id None zero_cursor s'.
Proof.
  intros Hok Hok' Hid Hf Ha. pose proof Ha as [Ha1 _]%ascending_app.
  rewrite (replay_fresh id s), (replay_fresh id s') by (done || by rewrite Hf).
  rewrite Hf, apply_frames_app. destruct (apply_frames (frames s id) (fresh_view id)) as [err v1] eqn:E.
  intros [= -> ->]. assert (id ≠ []) as Hne by (intros ->; by vm_compute in Hid).
  destruct (apply_frames_latest (frames s id) (fresh_view id) v Hne Ha1 E) as (Hr&Hc&Hl). cbn in Hr, Hc, Hl.
  apply (replay_from id v _ s' (frames s id) more); try done.
  all: unfold stamp_cursor; cbn; by case_bool_decide.
Qed.
End properties.

(** The view never incorporates a checkpoint: its sequence number stays zero. *)
Lemma checkpoint_stays_zero `{GoStd} {S : Type} `{EventLogStore S} `{!EventLogLaws S} id s v : log_ok s → validateStoreID id = None →
  ascending 0 (frames s id) → ReplayDescribeView id None zero_cursor s = (None, Some v) →
  dv_LatestCheckpointSequence v = 0.
Proof.
  intros Hok Hid Ha. rewrite replay_fresh by done. destruct (apply_frames _ _) as [err v1] eqn:E. intros [= -> ->].
  assert (id ≠ []) as Hne by (intros ->; by vm_compute in Hid).
  by destruct (apply_frames_latest (frames s id) (fresh_view id) v Hne Ha E) as (_&->&_).
Qed.

(** ** Witness *)

#[local] Instance replay_std : GoStd := plain_std.
#[local] Instance replay_store : EventLogStore files := json_event_log log_root.
#[local] Instance replay_laws : EventLogLaws files := json_event_log_laws log_root.

Definition described (n : Z) (ty : bytes) (delta : string) : Event :=
  mkEvent ty (mkSource (s2b "runner") [] []) n StatusRunning (Some (s2b delta)) n
    (s2b "2024-05-01T00:00:00Z") (mkScope (s2b "q-1") (s2b "r-1") (s2b "n1") []) None.
Definition node_started : Event := described 1 EventRunnerNodeStarted "{}".
Definition status_seen : Event := described 2 EventStatusProgress "{}".
Definition append_to (fs : files) (e : Event) : files := (JSON_AppendEvent log_root io_fine e fs).2.
Definition log_before : files := append_to ∅ node_started.
Definition log_after : files := append_to log_before status_seen.

Lemma described_fits n ty delta : 0 ≤ n < 1000 → forallb (λ c, (code c <? 128)%N) ty = true →
  is_Some (compact (s2b delta)) → event_fits (described n ty delta).
Proof.
  intros Hn Hty [d Hd]. split.
  - unfold event_ok, described, u64_ok, two64. cbn. split_and!; try (apply utf8_ascii; done); try lia.
    + name_body.
    + done.
  - unfold described, norm_event, norm_delta. cbn -[compact]. rewrite Hd. by eexists.
Qed.

Lemma append_to_ok fs e : files_ok fs → event_fits e → (JSON_AppendEvent log_root io_fine e fs).1 = Ok () →
  files_ok (append_to fs e).
Proof.
  intros Hok Hf Ha. refine (proj1 (json_append log_root e fs (append_to fs e) Hok Hf _)).
  unfold append_to, AppendEvent, json_event_log. rewrite <- Ha. by destruct (JSON_AppendEvent _ _ _ _).
Qed.

Lemma log_before_ok : files_ok log_before.
Proof.
  apply append_to_ok; [intros p data Hd; by rewrite lookup_empty in Hd| |by vm_compute].
  apply described_fits; [lia|done|]. by eexists; vm_compute.
Qed.

Lemma log_after_ok : files_ok log_after.
Proof.
  apply append_to_ok; [exact log_before_ok| |by vm_compute].
  apply described_fits; [lia|done|]. by eexists; vm_compute.
Qed.

Definition view_before : DescribeView :=
  mkView (s2b "q-1") (s2b "r-1") [] [] {[ s2b "n1" := mkDNode (s2b "n1") [] [] [] StatusRunning [] ]} [] 0 1.

Lemma describe_resumes_witness :
  ReplayDescribeView (s2b "q-1") None zero_cursor log_before = (None, Some view_before) ∧
  ReplayDescribeView (s2b "q-1") (Some view_before) (stamp_cursor [] (view_cursor view_before)) log_after
    = ReplayDescribeView (s2b "q-1") None zero_cursor log_after.
Proof.
  split; [by vm_compute|]. eapply (describe_resumes (s2b "q-1") log_before log_after view_before []).
  - exact log_before_ok.
  - exact log_after_ok.
  - by vm_compute.
  - by vm_compute.
  - vm_compute. split_and!; done.
  - by vm_compute.
Defined.
