(* ===== verification/RequestLog.v ===== *)
(** How the events of a request reach its log: the queue and the two goroutines
    of [orchestrator/request.go], one that drains the subscription of the request
    stream and one that appends to the event log.

    [request_log_faithful] is about all their interleavings. *)
From S2P Require Import Prelude Json GoText Text Event Bundle Plan Record Log EventLog Describe.

(** ** The queue *)

(** [head] counts the consumed entries at the front of [events], which are zeroed;
    [wake] is a channel of capacity one. *)
Record requestEventLogQueue := mkEQueue {
  q_events : list Event; q_head : nat; q_closed : bool; q_wake : bool }.
Definition newRequestEventLogQueue : requestEventLogQueue := mkEQueue [] 0 false false.

Definition Enqueue (e : Event) (q : requestEventLogQueue) : bool * requestEventLogQueue :=
  if q_closed q then (false, q)
  else (true, mkEQueue (q_events q ++ [e]) (q_head q) (q_closed q) true).

Definition queue_Close (q : requestEventLogQueue) : requestEventLogQueue :=
  if q_closed q then q else mkEQueue (q_events q) (q_head q) true true.

Definition compact_min : nat := 1024.

(** The locked part of [Next]: an event, the end, or a wait. *)
Inductive next_result := NextEvent (e : Event) | NextEnd | NextWait.

Definition queue_next (q : requestEventLogQueue) : next_result * requestEventLogQueue :=
  match q_events q !! q_head q with
  | Some e =>
      let events := <[q_head q := zero_event]> (q_events q) in
      let head := S (q_head q) in
      (NextEvent e,
       if (head =? List.length events)%nat then mkEQueue [] 0 (q_closed q) (q_wake q)
       else if (compact_min <=? head)%nat && (List.length events <=? head * 2)%nat then
         mkEQueue (drop head events) 0 (q_closed q) (q_wake q)
       else mkEQueue events head (q_closed q) (q_wake q))
  | None => (if q_closed q then NextEnd else NextWait, q)
  end.

(** ** Terminal events *)

Definition PhaseSettled : bytes := s2b "settled".
Definition settled_statuses : list bytes := s2b <$> ["idle"; "failed"; "canceled"]%string.

Definition terminal_event (e : Event) : bool :=
  if bool_decide (src_Layer (ev_From e) = s2b "orchestrator") && bool_decide (ev_EventType e = EventStatusFailed) then true
  else if negb (bool_decide (ev_EventType e = EventRunnerPhaseChanged)) then false
  else match decode_struct phase_field ([], []) (delta_of e) with
       | None => false
       | Some (ph, st) => bool_decide (ph = PhaseSettled) && bool_decide (st ∈ settled_statuses)
       end.

Definition requestStreamTerminal `{GoStd} (e : Event) : bool :=
  match ExpandBundleEvent e with Ok es => existsb terminal_event es | Err _ => false end.

(** ** The goroutines *)

(** [drainRequestEventLogSubscription]: receiving, with an event in hand, ended
    but with its deferred calls to make, gone. *)
Inductive drain_pc := DrainNext | DrainGot (e : Event) | DrainLeave | DrainGone.

(** [persistQueuedRequestEventLog]. *)
Inductive persist_pc := PersistCheck | PersistWait | PersistHas (e : Event) | PersistGone.

(** What the subscription answers. *)
Inductive sub_answer := SubEvent (e : Event) | SubEnd | SubFailed.

Section system.
Context `{GoStd} {S : Type} `{EventLogStore S}.

(** [rl_seen] and [rl_tried] record what was received and what was appended, with
    the result; [rl_ctx] is set once the persisting goroutine saw its context end. *)
Record rl_state := mkRL {
  rl_queue : requestEventLogQueue; rl_drain : drain_pc; rl_persist : persist_pc; rl_store : S;
  rl_seen : list Event; rl_tried : list (Event * bool); rl_ctx : bool }.

Definition rl_start (s : S) : rl_state := mkRL newRequestEventLogQueue DrainNext PersistCheck s [] [] false.

Inductive rl_label := RDrain (a : sub_answer) | RPersist | RCanceled.

Definition drain_step (a : sub_answer) (st : rl_state) : option rl_state :=
  let '(mkRL q d p s seen tried c) := st in
  match d with
  | DrainNext =>
      match a with
      | SubEvent e => Some (mkRL q (DrainGot e) p s (seen ++ [e]) tried c)
      | SubEnd | SubFailed => Some (mkRL q DrainLeave p s seen tried c)
      end
  | DrainGot e =>
      let '(ok, q) := Enqueue e q in
      Some (mkRL q (if negb ok then DrainLeave else if requestStreamTerminal e then DrainLeave else DrainNext) p s seen tried c)
  | DrainLeave => Some (mkRL (queue_Close q) DrainGone p s seen tried c)
  | DrainGone => None
  end.

Definition succeeded {E A} (r : res E A) : bool := match r with Ok _ => true | Err _ => false end.

Definition set_wake (b : bool) (q : requestEventLogQueue) : requestEventLogQueue :=
  mkEQueue (q_events q) (q_head q) (q_closed q) b.

Definition persist_step (st : rl_state) : option rl_state :=
  let '(mkRL q d p s seen tried c) := st in
  match p with
  | PersistCheck =>
      let '(r, q) := queue_next q in
      Some (mkRL q d match r with NextEvent e => PersistHas e | NextEnd => PersistGone | NextWait => PersistWait end
              s seen tried c)
  | PersistWait => if q_wake q then Some (mkRL (set_wake false q) d PersistCheck s seen tried c) else None
  | PersistHas e =>
      let '(r, s) := AppendEvent e s in
      Some (mkRL q d PersistCheck s seen (tried ++ [(e, succeeded r)]) c)
  | PersistGone => None
  end.

Definition rl_step (l : rl_label) (st : rl_state) : option rl_state :=
  match l with
  | RDrain a => drain_step a st
  | RPersist => persist_step st
  | RCanceled =>
      match rl_persist st with
      | PersistWait => Some (mkRL (rl_queue st) (rl_drain st) PersistGone (rl_store st) (rl_seen st) (rl_tried st) true)
      | _ => None
      end
  end.

Inductive rl_reach (s : S) : rl_state → Prop :=
| rl_reach_start : rl_reach s (rl_start s)
| rl_reach_step l st st' : rl_reach s st → rl_step l st = Some st' → rl_reach s st'.
End system.

(** ** Facts *)

(** What is waiting in the queue. *)
Definition waiting (q : requestEventLogQueue) : list Event := drop (q_head q) (q_events q).

Lemma waiting_Enqueue e q : (q_head q ≤ List.length (q_events q))%nat → q_closed q = false →
  waiting (Enqueue e q).2 = waiting q ++ [e].
Proof. intros Hh Hc. unfold Enqueue. rewrite Hc. unfold waiting. simpl. rewrite drop_app_le; done. Qed.

(** The queue is a first-in first-out queue of what waits; it is compacted behind
    the scenes, and its head stays in range. *)
Lemma queue_next_spec q : (q_head q ≤ List.length (q_events q))%nat →
  let '(r, q') := queue_next q in
  (q_head q' ≤ List.length (q_events q'))%nat ∧ q_closed q' = q_closed q ∧ q_wake q' = q_wake q
  ∧ match waiting q with
    | e :: es => r = NextEvent e ∧ waiting q' = es
    | [] => r = (if q_closed q then NextEnd else NextWait) ∧ q' = q
    end.
Proof.
  intros Hh. unfold queue_next, waiting. destruct (q_events q !! q_head q) as [e|] eqn:E.
  - rewrite (drop_S _ _ _ E). apply lookup_lt_Some in E. rewrite length_insert.
    destruct (Nat.eqb_spec (S (q_head q)) (List.length (q_events q))) as [Hl|Hl].
    + cbn [q_head q_closed q_wake q_events]. split_and!; [simpl; lia|done..|]. by rewrite (drop_ge (q_events q)) by lia.
    + assert (drop (S (q_head q)) (<[q_head q:=zero_event]> (q_events q)) = drop (S (q_head q)) (q_events q)) as Hd
        by by rewrite drop_insert_lt by lia.
      destruct (_ && _); cbn [q_head q_closed q_wake q_events]; rewrite Hd.
      * split_and!; [lia|done..].
      * rewrite length_insert. split_and!; [lia|done..].
  - apply lookup_ge_None in E. by rewrite (drop_ge (q_events q)) by lia.
Qed.

#[local] Arguments waiting : simpl never.

Section faithful.
Context `{GoStd} {S : Type} `{EventLogStore S} `{!EventLogLaws S} (s0 : S) (id : bytes).

Definition in_hand (p : persist_pc) : list Event := match p with PersistHas e => [e] | _ => [] end.
Definition received (d : drain_pc) : list Event := match d with DrainGot e => [e] | _ => [] end.
Definition leaving (d : drain_pc) : Prop := match d with DrainLeave | DrainGone => True | _ => False end.

(** The frames the appends that succeeded added for the request. *)
Definition added (tried : list (Event * bool)) : list Event :=
  omap (λ '(e, ok), if ok && bool_decide (scope_RequestID (ev_Scope e) = id) then norm_event e else None) tried.

(** What holds throughout. *)
Record rl_inv (st : rl_state) : Prop := {
  ri_head : (q_head (rl_queue st) ≤ List.length (q_events (rl_queue st)))%nat;
  ri_fifo : (rl_tried st).*1 ++ in_hand (rl_persist st) ++ waiting (rl_queue st) ++ received (rl_drain st) = rl_seen st;
  ri_closed : q_closed (rl_queue st) = true ↔ rl_drain st = DrainGone;
  ri_wake : rl_persist st = PersistWait → waiting (rl_queue st) ≠ [] ∨ q_closed (rl_queue st) = true →
    q_wake (rl_queue st) = true;
  ri_gone : rl_persist st = PersistGone → rl_ctx st = false → waiting (rl_queue st) = [] ∧ rl_drain st = DrainGone;
  ri_terminal : ∃ l, rl_seen st = l ++ received (rl_drain st) ∧ (leaving (rl_drain st) ∨ existsb requestStreamTerminal l = false);
  ri_last : ∀ l1 e l2, rl_seen st = l1 ++ e :: l2 → l2 ≠ [] → requestStreamTerminal e = false;
  ri_store : log_ok (rl_store st);
  ri_fits : Forall event_fits (rl_seen st);
  ri_frames : frames (rl_store st) id = frames s0 id ++ added (rl_tried st) }.

Definition answer_fits (a : sub_answer) : Prop := match a with SubEvent e => event_fits e | _ => True end.
Definition label_fits (l : rl_label) : Prop := match l with RDrain a => answer_fits a | _ => True end.

(** Reachable when the stream delivers events that can be stored. *)
Inductive rl_runs : rl_state → Prop :=
| rl_runs_start : rl_runs (rl_start s0)
| rl_runs_step l st st' : rl_runs st → label_fits l → rl_step l st = Some st' → rl_runs st'.

Lemma added_app l1 l2 : added (l1 ++ l2) = added l1 ++ added l2.
Proof. apply omap_app. Qed.

Lemma inv_start : log_ok s0 → rl_inv (rl_start s0).
Proof.
  intros Hok. split; cbn; try done; try lia.
  - exists []. split; [done|by right].
  - intros l1 e l2 E. by destruct l1.
  - by rewrite app_nil_r.
Qed.

Lemma Enqueue_open e q : q_closed q = false → Enqueue e q = (true, mkEQueue (q_events q ++ [e]) (q_head q) false true).
Proof. unfold Enqueue. by intros ->. Qed.

Lemma inv_drain a st st' : rl_inv st → answer_fits a → drain_step a st = Some st' → rl_inv st'.
Proof.
  intros [Hh Hf Hc Hw Hg Ht Hl Hs Hfit Hfr] Ha. destruct st as [q d p s seen tried c]. cbn in *.
  destruct d as [|e| |]; cbn [drain_step]; [|..].
  - destruct a as [e| |]; intros [= <-]; split; cbn in *; try done.
    + by rewrite !app_nil_r in *; rewrite <- Hf, <- !app_assoc.
    + rewrite Hc. split; done.
    + intros Hp Hx. by destruct (Hg Hp Hx).
    + exists seen. split; [done|]. right. destruct Ht as (l&->&[[]|Ht]). by rewrite app_nil_r.
    + intros l1 x l2 E Hne. destruct l2 as [|y l2 _] using rev_ind; [done|].
      rewrite app_comm_cons, app_assoc in E. apply app_inj_tail in E as [E _].
      destruct Ht as (l&->&[[]|Ht]). rewrite app_nil_r in E. rewrite E, existsb_app in Ht.
      apply orb_false_iff in Ht as [_ Ht]. by apply orb_false_iff in Ht as [Ht _].
    + apply Forall_app; split; [done|by apply Forall_singleton].
    + rewrite Hc. split; done.
    + intros Hp Hx. by destruct (Hg Hp Hx).
    + destruct Ht as (l&->&_). exists l. split; [done|by left].
    + rewrite Hc. split; done.
    + intros Hp Hx. by destruct (Hg Hp Hx).
    + destruct Ht as (l&->&_). exists l. split; [done|by left].
  - assert (q_closed q = false) as Hq by (apply not_true_iff_false; intros Hq; by apply Hc in Hq).
    rewrite Enqueue_open by done. intros [= <-].
    pose proof (waiting_Enqueue e q Hh Hq) as Hwt. rewrite Enqueue_open in Hwt by done. cbn [snd] in Hwt.
    split; cbn; try done.
    + rewrite length_app. lia.
    + rewrite Hwt, <- Hf. by destruct (requestStreamTerminal e); rewrite !app_nil_r, ?app_assoc.
    + destruct (requestStreamTerminal e); done.
    + intros Hp Hx. by destruct (Hg Hp Hx).
    + destruct Ht as (l&->&[[]|Ht]). exists (l ++ [e]). destruct (requestStreamTerminal e) eqn:E; rewrite app_nil_r;
        (split; [done|]); [by left|right]. rewrite existsb_app, Ht. simpl. by rewrite E.
  - assert (q_closed q = false) as Hq by (apply not_true_iff_false; intros Hq; by apply Hc in Hq).
    intros [= <-]. unfold queue_Close. rewrite Hq.
    split; cbn; try done.
    + intros Hp Hx. by destruct (Hg Hp Hx).
  - done.
Qed.

Lemma inv_persist st st' : rl_inv st → persist_step st = Some st' → rl_inv st'.
Proof.
  intros [Hh Hf Hc Hw Hg Ht Hl Hs Hfit Hfr]. destruct st as [q d p s seen tried c]. cbn in *.
  destruct p as [| |e|]; cbn [persist_step]; [|..|done].
  - pose proof (queue_next_spec q Hh) as Hn. destruct (queue_next q) as [r q']. intros [= <-].
    destruct Hn as (Hh'&Hc'&Hw'&Hn). destruct (waiting q) as [|e es] eqn:Hwt.
    + destruct Hn as [-> ->]. split; cbn; try done.
      * rewrite <- Hf, Hwt. by destruct (q_closed q).
      * destruct (q_closed q) eqn:E; [done|]. rewrite Hwt. intros _ [?|?]; congruence.
      * destruct (q_closed q) eqn:E; [|done]. intros _ _. split; [done|by apply Hc].
    + destruct Hn as [-> Hn]. split; cbn; try done; [by rewrite Hn, <- Hf|by rewrite Hc'].
  - destruct (q_wake q); [|done]. intros [= <-]. split; cbn; done.
  - destruct (AppendEvent e s) as [r s'] eqn:Ha. intros [= <-].
    assert (event_fits e) as He.
    { rewrite Forall_forall in Hfit. apply Hfit. rewrite <- Hf. apply elem_of_app. right. by left. }
    assert (log_ok s' ∧ frames s' id = frames s id ++ added [(e, succeeded r)]) as [Hs' Hfr'].
    { unfold added. simpl. destruct r as [[]|err]; cbn [succeeded andb].
      - destruct (append_ok _ _ _ Hs He Ha) as (Hok&e'&Hn&_&Hfs). split; [done|]. rewrite Hfs, Hn. f_equal.
        case_bool_decide; case_bool_decide; congruence.
      - destruct (append_err _ _ _ _ Hs Ha) as [Hok Hfs]. split; [done|]. by rewrite Hfs, app_nil_r. }
    split; cbn; try done.
    + by rewrite fmap_app, <- Hf, <- !app_assoc.
    + by rewrite Hfr', Hfr, added_app, app_assoc.
Qed.

Lemma rl_runs_inv st : log_ok s0 → rl_runs st → rl_inv st.
Proof.
  intros Hok Hr. induction Hr as [|l st st' _ IH Hl Hst]; [by apply inv_start|].
  destruct l as [a| |]; [by eapply inv_drain|by eapply inv_persist|].
  destruct IH as [Hh Hf Hc Hw Hg Ht Hl' Hs Hfit Hfr]. destruct st as [q d p s seen tried c]. cbn in *.
  destruct p; try done. injection Hst as <-. by split.
Qed.
End faithful.

(** ** Properties *)

Section properties.
Context `{GoStd} {S : Type} `{EventLogStore S} `{!EventLogLaws S}.

(** C30: In every interleaving, and whatever the subscription and the store answer:
    the log of the request grows by exactly the events whose append succeeded;
    those that were tried are the received ones in order, none lost or repeated;
    nothing is taken after a terminal event; once the persisting goroutine has
    ended, its context not canceled, all that was received was tried; and until
    then it can take a step unless nothing waits and the drain still runs. *)
Theorem request_log_faithful (s0 : S) id st : log_ok s0 → rl_runs s0 st →
  (∃ rest, (rl_tried st).*1 ++ rest = rl_seen st)
  ∧ frames (rl_store st) id = frames s0 id ++ added id (rl_tried st)
  ∧ (∀ l1 e l2, rl_seen st = l1 ++ e :: l2 → l2 ≠ [] → requestStreamTerminal e = false)
  ∧ (rl_persist st = PersistGone → rl_ctx st = false → rl_drain st = DrainGone ∧ (rl_tried st).*1 = rl_seen st)
  ∧ (persist_step st = None → rl_persist st ≠ PersistGone →
       (rl_tried st).*1 ++ received (rl_drain st) = rl_seen st ∧ rl_drain st ≠ DrainGone).
Proof.
  intros Hok Hr. destruct (rl_runs_inv s0 id st Hok Hr) as [Hh Hf Hc Hw Hg Ht Hl Hs Hfit Hfr].
  destruct st as [q d p s seen tried c]. cbn in *. split_and!; [by eexists|done|done|..].
  - intros Hp Hx. destruct (Hg Hp Hx) as [Hq Hd]. split; [done|]. by rewrite Hp, Hq, Hd, app_nil_r in Hf.
  - destruct p as [| |e|]; [by destruct (queue_next q)| |by destruct (AppendEvent e s)|done].
    destruct (q_wake q) eqn:Hwk; [done|]. intros _ _. specialize (Hw eq_refl).
    assert (waiting q = [] ∧ q_closed q ≠ true) as [Hq Hcl].
    { split; [|by intros E; specialize (Hw (or_intror E))].
      destruct (waiting q) as [|e es]; [done|]. assert (e :: es ≠ []) as Hne by done. by specialize (Hw (or_introl Hne)). }
    rewrite Hq in Hf. split; [done|]. intros Hd. by apply Hcl, Hc.
Qed.
End properties.

(** ** Witness *)

#[local] Instance rlog_std : GoStd := plain_std.
#[local] Instance rlog_store : EventLogStore files := json_event_log log_root.
#[local] Instance rlog_laws : EventLogLaws files := json_event_log_laws log_root.

Fixpoint rl_run (ls : list rl_label) (st : rl_state) : option rl_state :=
  match ls with [] => Some st | l :: ls => st' ← rl_step l st; rl_run ls st' end.

Lemma rl_run_runs s0 ls st st' : Forall label_fits ls → rl_runs s0 st → rl_run ls st = Some st' → rl_runs s0 st'.
Proof.
  intros Hls. revert st. induction Hls as [|l ls Hl _ IH]; intros st Hr; simpl; [by intros [= <-]|].
  destruct (rl_step l st) as [st1|] eqn:E; [|done]. apply IH. by eapply rl_runs_step.
Qed.

Definition settled_event : Event :=
  mkEvent EventRunnerPhaseChanged (mkSource (s2b "runner") [] []) 2 StatusCompleted
    (Some (s2b "{" ++ dq :: s2b "phase" ++ dq :: s2b ":" ++ dq :: s2b "settled" ++ dq :: s2b "," ++
           dq :: s2b "status" ++ dq :: s2b ":" ++ dq :: s2b "idle" ++ dq :: s2b "}")) 2
    (s2b "2024-05-01T00:00:00Z") (mkScope (s2b "q-1") [] [] []) None.

(** The consumer waits first; the settled phase ends both goroutines. *)
Definition rl_labels : list rl_label :=
  [RPersist; RDrain (SubEvent node_started); RDrain SubEnd; RPersist; RDrain (SubEvent settled_event);
   RDrain SubEnd; RPersist; RPersist; RDrain SubEnd; RPersist; RPersist; RPersist].

Lemma rl_labels_fit : Forall label_fits rl_labels.
Proof.
  assert (event_fits node_started) by (apply described_fits; [lia|done|by eexists; vm_compute]).
  assert (event_fits settled_event).
  { split; [|eexists; by vm_compute]. unfold event_ok, settled_event, u64_ok, two64. cbn.
    split_and!; try (apply utf8_ascii; done); try lia; [name_body|done]. }
  unfold rl_labels. repeat (apply List.Forall_cons; [done|]). apply List.Forall_nil.
Qed.

Definition rl_ended (o : option (@rl_state files)) : bool :=
  match o with
  | Some st => match rl_persist st with PersistGone => negb (rl_ctx st) | _ => false end
               && bool_decide (List.length (rl_seen st) = 2%nat)
  | None => false
  end.

Lemma request_log_faithful_witness : ∃ st, rl_runs ∅ st ∧ rl_persist st = PersistGone ∧ List.length (rl_seen st) = 2%nat
  ∧ (rl_tried st).*1 = rl_seen st.
Proof.
  assert (rl_ended (rl_run rl_labels (rl_start ∅)) = true) as He by by vm_compute.
  destruct (rl_run rl_labels (rl_start ∅)) as [st|] eqn:E; [|done]. exists st.
  assert (rl_runs ∅ st) as Hr by (eapply rl_run_runs; [exact rl_labels_fit|constructor|exact E]).
  assert (log_ok (∅ : files)) as Hok by (intros p data Hd; by rewrite lookup_empty in Hd).
  destruct (request_log_faithful ∅ (s2b "q-1") st Hok Hr) as (_&_&_&Hend&_).
  apply andb_true_iff in He as [Hp Hl]. destruct (rl_persist st); try done.
  apply negb_true_iff in Hp. split_and!; [done..|by apply bool_decide_eq_true_1 in Hl|by apply Hend].
Defined.
