(* ===== verification/Tools.v ===== *)
(** The file tools of a skill, [llm/internal/builtin]: [read_file], [write_file],
    [edit_file], [delete_file], [move_file], [list_dir], [pwd], [file_excerpt],
    [grep] and [pipeline_search_replace], from the JSON text of their arguments to
    the calls they make and the text they return. *)
From S2P Require Import Prelude Json GoText Text Event Bundle Plan Record Path Os Tree Workspace Excerpt.

(** ** Results *)

(** The name of the tool, which every message starts with, is left out. *)
Inductive tool_err :=
| ErrArguments
| ErrTool (msg : bytes)
| ErrPath (e : ws_err)
| ErrSystem (e : os_err).

Abbreviation tool_prog := (prog (res tool_err bytes)).

Definition fail (msg : string) : tool_prog := Ret (Err (ErrTool (s2b msg))).
Definition done_ (out : bytes) : tool_prog := Ret (Ok out).

(** [json.Unmarshal] of the arguments over the zero value. *)
Definition with_args {A} (step : bytes → bytes → A → option A) (zero : A) (arguments : bytes)
  (k : A → tool_prog) : tool_prog :=
  match decode_struct step zero arguments with None => Ret (Err ErrArguments) | Some args => k args end.

Notation "'resolve' p := w ',' a 'in' k" := (try_bind ErrPath (ResolvePath (Some w) a) (λ p, k))
  (at level 10, p name, w at level 9, a at level 9, k at level 200) : go_scope.
Notation "'sys' x := c 'in' k" := (try_bind ErrSystem (ask c) (λ x, k))
  (at level 10, x name, c at level 100, k at level 200) : go_scope.

(** [sort.Strings]. *)
Fixpoint insert_string (s : bytes) (l : list bytes) : list bytes :=
  match l with
  | [] => [s]
  | x :: l' => if bytes_ltb x s then x :: insert_string s l' else s :: l
  end.
Definition sort_strings (l : list bytes) : list bytes := foldr insert_string [] l.

(** ** read_file *)

Record read_args := mkReadArgs { ra_Path : bytes; ra_Start : option Z; ra_End : option Z }.

Definition read_field (k raw : bytes) (a : read_args) : option read_args :=
  let '(mkReadArgs p s e) := a in
  if field_is "path" k then x ← decode_str p raw; Some (mkReadArgs x s e)
  else if field_is "start_line" k then x ← decode_ptr 0 decode_i64 s raw; Some (mkReadArgs p x e)
  else if field_is "end_line" k then x ← decode_ptr 0 decode_i64 e raw; Some (mkReadArgs p s x)
  else Some a.

Definition read_slice (data : bytes) (start_line end_line : option Z) : res tool_err bytes :=
  match start_line, end_line with
  | None, None => Ok data
  | _, _ =>
      let lines := SplitByte newline data in
      let len := Z.of_nat (List.length lines) in
      let start := default 1 start_line in
      let end_ := default len end_line in
      if start <? 1 then Err (ErrTool (s2b "start_line must be >= 1"))
      else if end_ <? start then
        Err (ErrTool (s2b "end_line (" ++ dec end_ ++ s2b ") must be >= start_line (" ++ dec start ++ s2b ")"))
      else if len <? start then Ok []
      else
        let end_ := if len <? end_ then len else end_ in
        Ok (Join (take (Z.to_nat (end_ - (start - 1))) (drop (Z.to_nat (start - 1)) lines)) [newline])
  end.

Definition read_file (w : workspaceRoot) (arguments : bytes) : tool_prog :=
  with_args read_field (mkReadArgs [] None None) arguments (λ args,
  resolve p := w, (ra_Path args) in
  sys data := ReadFile p in
  Ret (read_slice data (ra_Start args) (ra_End args))).

(** ** write_file *)

Record write_args := mkWriteArgs { wa_Path : bytes; wa_Content : bytes }.

Definition write_field (k raw : bytes) (a : write_args) : option write_args :=
  let '(mkWriteArgs p c) := a in
  if field_is "path" k then x ← decode_str p raw; Some (mkWriteArgs x c)
  else if field_is "content" k then x ← decode_str c raw; Some (mkWriteArgs p x)
  else Some a.

Definition write_file (w : workspaceRoot) (arguments : bytes) : tool_prog :=
  with_args write_field (mkWriteArgs [] []) arguments (λ args,
  resolve p := w, (wa_Path args) in
  sys _u := MkdirAll (Dir p) in
  sys _u := WriteFile p (wa_Content args) in
  done_ (s2b "wrote " ++ dec (Z.of_nat (List.length (wa_Content args))) ++ s2b " bytes to " ++ wa_Path args)).

(** ** edit_file *)

Record edit_args := mkEditArgs { ea_Path : bytes; ea_Old : bytes; ea_New : bytes }.

Definition edit_field (k raw : bytes) (a : edit_args) : option edit_args :=
  let '(mkEditArgs p o n) := a in
  if field_is "path" k then x ← decode_str p raw; Some (mkEditArgs x o n)
  else if field_is "old_string" k then x ← decode_str o raw; Some (mkEditArgs p x n)
  else if field_is "new_string" k then x ← decode_str n raw; Some (mkEditArgs p o x)
  else Some a.

Definition edit_file (w : workspaceRoot) (arguments : bytes) : tool_prog :=
  with_args edit_field (mkEditArgs [] [] []) arguments (λ args,
  if is_empty (ea_Old args) then fail "old_string must not be empty"
  else
    resolve p := w, (ea_Path args) in
    sys data := ReadFile p in
    match Count data (ea_Old args) with
    | O => Ret (Err (ErrTool (s2b "old_string not found in " ++ ea_Path args)))
    | S O =>
        sys _u := WriteFile p (Replace data (ea_Old args) (ea_New args) 1) in
        done_ (s2b "replaced 1 occurrence in " ++ ea_Path args)
    | n => Ret (Err (ErrTool (s2b "old_string is not unique in " ++ ea_Path args ++ s2b " (found "
                              ++ dec (Z.of_nat n) ++ s2b " matches)")))
    end).

(** ** delete_file *)

Record delete_args := mkDeleteArgs { da_Path : bytes; da_Recursive : bool }.

Definition delete_field (k raw : bytes) (a : delete_args) : option delete_args :=
  let '(mkDeleteArgs p r) := a in
  if field_is "path" k then x ← decode_str p raw; Some (mkDeleteArgs x r)
  else if field_is "recursive" k then x ← decode_bool r raw; Some (mkDeleteArgs p x)
  else Some a.

Definition delete_file (w : workspaceRoot) (arguments : bytes) : tool_prog :=
  with_args delete_field (mkDeleteArgs [] false) arguments (λ args,
  resolve p := w, (da_Path args) in
  if da_Recursive args then
    sys _u := RemoveAll p in
    done_ (s2b "removed " ++ da_Path args ++ s2b " (recursive)")
  else
    sys _u := Remove p in
    done_ (s2b "removed " ++ da_Path args)).

(** ** move_file *)

Record move_args := mkMoveArgs { ma_Src : bytes; ma_Dst : bytes }.

Definition move_field (k raw : bytes) (a : move_args) : option move_args :=
  let '(mkMoveArgs s d) := a in
  if field_is "src" k then x ← decode_str s raw; Some (mkMoveArgs x d)
  else if field_is "dst" k then x ← decode_str d raw; Some (mkMoveArgs s x)
  else Some a.

Definition move_file (w : workspaceRoot) (arguments : bytes) : tool_prog :=
  with_args move_field (mkMoveArgs [] []) arguments (λ args,
  resolve srcAbs := w, (ma_Src args) in
  resolve dstAbs := w, (ma_Dst args) in
  sys _u := MkdirAll (Dir dstAbs) in
  sys _u := Rename srcAbs dstAbs in
  done_ (s2b "moved " ++ ma_Src args ++ s2b " -> " ++ ma_Dst args)).

(** ** list_dir and pwd *)

Definition path_field (k raw : bytes) (p : bytes) : option bytes :=
  if field_is "path" k then decode_str p raw else Some p.

Definition list_dir (w : workspaceRoot) (arguments : bytes) : tool_prog :=
  with_args path_field [] arguments (λ path,
  let path := if is_empty path then dot else path in
  resolve p := w, path in
  sys entries := ReadDir p in
  done_ (Join (sort_strings ((λ e, e.1 ++ (if bool_decide (e.2 = KDir) then [slash] else [])) <$> entries))
           [newline])).

Definition pwd (w : workspaceRoot) (_ : bytes) : tool_prog :=
  done_ ((if is_empty (w_skillRoot w) then [] else s2b "skill_root: " ++ w_skillRoot w ++ [newline])
         ++ s2b "temp_root: " ++ w_tempRoot w ++ [newline]
         ++ s2b "workdir: " ++ w_tempRoot w
         ++ mjoin ((λ dir, newline :: s2b "accessible_dir: " ++ dir) <$> w_extraRoots w)).

(** ** Patterns *)

(** Package [regexp]: a compiled pattern finds its matches, as index pairs of the
    whole match and its groups, and expands a template for a match. *)
Record regexp := mkRegexp {
  re_MatchString : bytes → bool;
  re_FindAll : bytes → option nat → list (list Z);
  re_Expand : bytes → bytes → list Z → bytes }.
Class GoRegexp := regexp_Compile : bytes → option regexp.

Definition newLineMatcher `{GoRegexp} (pattern : bytes) (regex : bool) : option (bytes → bool) :=
  if regex then re_MatchString <$> regexp_Compile pattern
  else Some (λ line, Contains line pattern).

Definition invalid_regex : tool_prog := fail "invalid regex".

(** ** file_excerpt *)

Definition fileExcerptDefaultMaxMatches : Z := 5.

Record excerpt_args := mkExcerptArgs {
  xa_Path : bytes; xa_Anchor : bytes; xa_Before : Z; xa_After : Z; xa_Regex : bool; xa_Max : Z }.

Definition excerpt_field (k raw : bytes) (a : excerpt_args) : option excerpt_args :=
  let '(mkExcerptArgs p an b af r m) := a in
  if field_is "path" k then x ← decode_str p raw; Some (mkExcerptArgs x an b af r m)
  else if field_is "anchor_pattern" k then x ← decode_str an raw; Some (mkExcerptArgs p x b af r m)
  else if field_is "before" k then x ← decode_i64 b raw; Some (mkExcerptArgs p an x af r m)
  else if field_is "after" k then x ← decode_i64 af raw; Some (mkExcerptArgs p an b x r m)
  else if field_is "regex" k then x ← decode_bool r raw; Some (mkExcerptArgs p an b af x m)
  else if field_is "max_matches" k then x ← decode_i64 m raw; Some (mkExcerptArgs p an b af r x)
  else Some a.

Definition file_excerpt `{GoRegexp} (w : workspaceRoot) (arguments : bytes) : tool_prog :=
  with_args excerpt_field (mkExcerptArgs [] [] 0 0 false 0) arguments (λ args,
  if is_empty (xa_Anchor args) then fail "anchor_pattern is required"
  else if xa_Before args <? 0 then fail "before must be >= 0"
  else if xa_After args <? 0 then fail "after must be >= 0"
  else if xa_Max args <? 0 then fail "max_matches must be >= 0"
  else
    let maxMatches := if xa_Max args =? 0 then fileExcerptDefaultMaxMatches else xa_Max args in
    resolve p := w, (xa_Path args) in
    sys data := ReadFile p in
    match newLineMatcher (xa_Anchor args) (xa_Regex args) with
    | None => invalid_regex
    | Some matcher => done_ (renderFileExcerpt matcher data (xa_Before args) (xa_After args) maxMatches)
    end).

(** ** grep *)

Definition grepDefaultMaxMatches : Z := 50.

Record grep_args := mkGrepArgs {
  ga_Pattern : bytes; ga_Path : bytes; ga_Text : option bytes; ga_Regex : bool; ga_Context : Z; ga_Max : Z }.

Definition grep_field (k raw : bytes) (a : grep_args) : option grep_args :=
  let '(mkGrepArgs pa p t r c m) := a in
  if field_is "pattern" k then x ← decode_str pa raw; Some (mkGrepArgs x p t r c m)
  else if field_is "path" k then x ← decode_str p raw; Some (mkGrepArgs pa x t r c m)
  else if field_is "text" k then x ← decode_ptr [] decode_str t raw; Some (mkGrepArgs pa p x r c m)
  else if field_is "regex" k then x ← decode_bool r raw; Some (mkGrepArgs pa p t x c m)
  else if field_is "context_lines" k then x ← decode_i64 c raw; Some (mkGrepArgs pa p t r x m)
  else if field_is "max_matches" k then x ← decode_i64 m raw; Some (mkGrepArgs pa p t r c x)
  else Some a.

Definition grep `{GoRegexp} (w : workspaceRoot) (arguments : bytes) : tool_prog :=
  with_args grep_field (mkGrepArgs [] [] None false 0 0) arguments (λ args,
  if is_empty (ga_Pattern args) then fail "pattern is required"
  else if bool_decide (is_empty (ga_Path args) = negb (bool_decide (ga_Text args = None))) then
    (* exactly one of path and text *)
    if ga_Context args <? 0 then fail "context_lines must be >= 0"
    else
      let maxMatches := if ga_Max args <=? 0 then grepDefaultMaxMatches else ga_Max args in
      let search source :=
        match newLineMatcher (ga_Pattern args) (ga_Regex args) with
        | None => invalid_regex
        | Some matcher => done_ (grep_lines matcher source (ga_Context args) maxMatches)
        end in
      match ga_Text args with
      | Some text => search text
      | None =>
          resolve p := w, (ga_Path args) in
          sys data := ReadFile p in
          search data
      end
  else fail "specify exactly one of path or text").

(** ** pipeline_search_replace *)

Record pipeline_args := mkPipelineArgs {
  pa_Path : bytes; pa_Pattern : bytes; pa_Replacement : bytes; pa_Regex : bool; pa_Max : Z }.

Definition pipeline_field (k raw : bytes) (a : pipeline_args) : option pipeline_args :=
  let '(mkPipelineArgs p pt rp r m) := a in
  if field_is "path" k then x ← decode_str p raw; Some (mkPipelineArgs x pt rp r m)
  else if field_is "pattern" k then x ← decode_str pt raw; Some (mkPipelineArgs p x rp r m)
  else if field_is "replacement" k then x ← decode_str rp raw; Some (mkPipelineArgs p pt x r m)
  else if field_is "regex" k then x ← decode_bool r raw; Some (mkPipelineArgs p pt rp x m)
  else if field_is "max_replacements" k then x ← decode_i64 m raw; Some (mkPipelineArgs p pt rp r x)
  else Some a.

(** The text between the matches is copied, the matches are expanded. *)
Fixpoint expand_matches (re : regexp) (replacement content : bytes) (last : Z) (ms : list (list Z)) : bytes :=
  match ms with
  | [] => drop (Z.to_nat last) content
  | m :: ms =>
      let from := default 0 (m !! 0%nat) in
      let to := default 0 (m !! 1%nat) in
      take (Z.to_nat (from - last)) (drop (Z.to_nat last) content)
      ++ re_Expand re replacement content m ++ expand_matches re replacement content to ms
  end.

Definition replacePipelineMatches `{GoRegexp} (content pattern replacement : bytes) (regex : bool)
  (maxReplacements : Z) : res tool_err (bytes * Z) :=
  if negb regex then
    let count := Z.of_nat (Count content pattern) in
    let count := if (0 <? maxReplacements) && (maxReplacements <? count) then maxReplacements else count in
    if count =? 0 then Ok (content, 0)
    else Ok (Replace content pattern replacement (Z.to_nat count), count)
  else
    match regexp_Compile pattern with
    | None => Err (ErrTool (s2b "invalid regex"))
    | Some re =>
        let limit := if 0 <? maxReplacements then Some (Z.to_nat maxReplacements) else None in
        let matches := re_FindAll re content limit in
        match matches with
        | [] => Ok (content, 0)
        | _ => Ok (expand_matches re replacement content 0 matches, Z.of_nat (List.length matches))
        end
    end.

(** The deferred removal of the temporary file runs on every early return. *)
Definition replaceFileAtomically (path data : bytes) : prog (os_res ()) :=
  let dir := Dir path in
  ask (CreateTemp dir (s2b ".pipeline-search-replace-")) ≫= λ tmp,
  match tmp with
  | Err e => Ret (Err e)
  | Ok tmpPath =>
      let cleanup e := ask (Remove tmpPath) ≫= λ _, Ret (Err e) in
      ask (Chmod tmpPath) ≫= λ r,
      match r with
      | Err e => ask (CloseFile tmpPath) ≫= λ _, cleanup e
      | Ok _ =>
          ask (Write tmpPath data) ≫= λ r,
          match r with
          | Err e => ask (CloseFile tmpPath) ≫= λ _, cleanup e
          | Ok _ =>
              ask (CloseFile tmpPath) ≫= λ r,
              match r with
              | Err e => cleanup e
              | Ok _ =>
                  ask (Rename tmpPath path) ≫= λ r,
                  match r with Err e => cleanup e | Ok _ => Ret (Ok ()) end
              end
          end
      end
  end.

Definition pipeline_search_replace `{GoRegexp} (w : workspaceRoot) (arguments : bytes) : tool_prog :=
  with_args pipeline_field (mkPipelineArgs [] [] [] false 0) arguments (λ args,
  if is_empty (pa_Pattern args) then fail "pattern is required"
  else if pa_Max args <? 0 then fail "max_replacements must be >= 0"
  else
    resolve p := w, (pa_Path args) in
    sys _info := Stat p in
    sys content := ReadFile p in
    match replacePipelineMatches content (pa_Pattern args) (pa_Replacement args) (pa_Regex args) (pa_Max args) with
    | Err e => Ret (Err e)
    | Ok (updated, replacements) =>
        let finish := done_ (s2b "replaced " ++ dec replacements ++ s2b " occurrence(s) in " ++ pa_Path args) in
        if 0 <? replacements then
          try _u := replaceFileAtomically p updated or ErrSystem in finish
        else finish
    end).

(** ** What a tool may touch *)

Inductive tool := ReadTool | WriteTool | EditTool | DeleteTool | MoveTool | ListTool | PwdTool
  | ExcerptTool | GrepTool | PipelineTool.

Definition run_tool `{GoRegexp} (t : tool) (w : workspaceRoot) (arguments : bytes) : tool_prog :=
  match t with
  | ReadTool => read_file w arguments
  | WriteTool => write_file w arguments
  | EditTool => edit_file w arguments
  | DeleteTool => delete_file w arguments
  | MoveTool => move_file w arguments
  | ListTool => list_dir w arguments
  | PwdTool => pwd w arguments
  | ExcerptTool => file_excerpt w arguments
  | GrepTool => grep w arguments
  | PipelineTool => pipeline_search_replace w arguments
  end.

(** A call that reads or changes files does so inside the workspace; resolving a
    path may look at any name. A directory to create is the parent of a place
    inside. *)
Definition call_inside `{FileSystem W} (w : workspaceRoot) (s : W) (B : Type) (c : call B) : Prop :=
  match c with
  | Lstat _ | EvalSymlinks _ => True
  | MkdirAll d => ∃ p, inside w s p ∧ d = Dir p
  | CreateTemp p _ | Stat p | ReadFile p | ReadDir p | WriteFile p _ | Chmod p | Write p _ | CloseFile p
  | Remove p | RemoveAll p | FileSize p | Create p => inside w s p
  | Rename p q => inside w s p ∧ inside w s q
  | Abs _ | MkdirTemp _ | Symlink _ _ | Run _ _ _ _ => False
  end.

Section safety.
Context `{FileSystemLaws W} `{GoRegexp} (w : workspaceRoot) (Hw : ws_ok w).
Implicit Types s : W.

#[local] Abbreviation safe p s := (wp (call_inside w) p s (λ _ _, True)).

Lemma inside_after s B (c : call B) p : linkless c = true → inside w s p → inside w (after c s) p.
Proof. intros Hc [Hr Hu]. split; [done|]. by apply linkless_unlinked. Qed.

(** [ResolvePath] only asks harmless questions. *)
Inductive probes {A} : prog A → Prop :=
| probes_ret a : probes (Ret a)
| probes_lstat p k : (∀ r, probes (k r)) → probes (Do (Lstat p) k)
| probes_eval p k : (∀ r, probes (k r)) → probes (Do (EvalSymlinks p) k).

Lemma probes_bind {A B} (p : prog A) (f : A → prog B) :
  probes p → (∀ a, probes (f a)) → probes (p ≫= f).
Proof. intros Hp Hf. induction Hp; simpl; [by apply Hf|by constructor|by constructor]. Qed.

Lemma probes_existing fuel target current ms : probes (existing_prefix fuel target current ms).
Proof.
  revert current ms. induction fuel as [|fuel IH]; intros current ms; simpl; [constructor|].
  constructor. intros [k|[|msg]]; simpl; [|case_bool_decide; [constructor|apply IH]|constructor].
  constructor. intros [q|e]; constructor.
Qed.

Lemma probes_resolve p : probes (ResolvePath (Some w) p).
Proof.
  simpl. destruct (IsAbs p) eqn:Hp.
  - apply probes_bind; [apply probes_existing|]. intros [q|e]; constructor.
  - unfold resolveWorkspacePath. destruct (is_empty p); [constructor|]. rewrite Hp.
    destruct (escapes (Clean p)); [constructor|].
    apply probes_bind; [|intros [q|e]; constructor].
    apply probes_bind; [apply probes_existing|intros [q|e]; constructor].
Qed.

Lemma probes_wp {A} (p : prog A) s Q : probes p →
  wp only_queries p s Q → wp (call_inside w) p s Q.
Proof. intros Hp. revert s. induction Hp; intros s; simpl; [done|..]; intros [_ ?]; split; auto. Qed.

(** The two proof steps of a handler: a path is resolved, a call is made. *)
Lemma resolve_wp (A : Type) a (f : bytes → prog (res tool_err A)) s Q :
  (∀ p, inside w s p → wp (call_inside w) (f p) s Q) → (∀ e, Q (Err e) s) →
  wp (call_inside w) (try_bind ErrPath (ResolvePath (Some w) a) f) s Q.
Proof.
  intros Hf He. apply wp_try. eapply wp_mono; [|apply probes_wp, ResolvePath_wp; [apply probes_resolve|done]].
  intros [p|e] s' [-> Hp]; auto.
Qed.

Lemma sys_wp (A B : Type) (c : call (os_res B)) (f : B → prog (res tool_err A)) s Q :
  call_inside w s _ c → (∀ b, answer c s = Ok b → wp (call_inside w) (f b) (after c s) Q) →
  (∀ e s', Q (Err e) s') → wp (call_inside w) (try_bind ErrSystem (ask c) f) s Q.
Proof.
  intros Hc Hf He. apply wp_try. split; [done|]. simpl. destruct (answer c s) as [b|e] eqn:E; auto.
Qed.

Lemma with_args_wp {A} (step : bytes → bytes → A → option A) zero arguments k s :
  (∀ args, safe (k args) s) → safe (with_args step zero arguments k) s.
Proof. intros Hk. unfold with_args. by destruct (decode_struct _ _ _). Qed.

Lemma mkdir_wp p (f : () → tool_prog) s : inside w s p →
  (∀ s', inside w s' p → safe (f ()) s') → safe (try_bind ErrSystem (ask (MkdirAll (Dir p))) f) s.
Proof.
  intros Hp Hf. apply sys_wp; [by exists p| |done]. intros [] _. apply Hf. by apply inside_after.
Qed.

(** A file below a root that is a directory has its own directory inside. *)
Lemma Dir_inside s p : inside w s p → (∀ r, r ∈ roots w → name_kind s r = Ok KDir) →
  name_kind s p ≠ Ok KDir → inside w s (Dir p).
Proof.
  intros [(r&Hr&(a&b&Ha&Hb&->&->)) [Hroot Hu]] Hdirs Hk.
  destruct b as [|m b _] using rev_ind; [rewrite app_nil_r in Hk; by specialize (Hdirs _ Hr)|].
  apply Forall_app in Hb as [Hb [Hm _]%List.Forall_cons_iff].
  rewrite app_assoc, Dir_abs by (done || by apply Forall_app). split.
  - exists (abs a). split; [done|]. by exists a, b.
  - split; [exists (a ++ b); by rewrite Forall_app|]. intros q (x&y&Hx&Hy&->&E).
    apply Hu. exists x, (y ++ [m]). split_and!; [done|apply Forall_app; split; [done|by apply Forall_singleton]|done|].
    apply abs_inj in E; [|by apply Forall_app..]. by rewrite app_assoc, E, app_assoc.
Qed.

Lemma temp_inside s d pre t : inside w s d → answer (CreateTemp d pre) s = Ok t →
  inside w (after (CreateTemp d pre) s) t.
Proof.
  intros [(r&Hr&Hb) Hu] Ht. destruct (temp_child s d pre t) as (m&Hm&->&Hut); [apply Hu|done|].
  split; [|by apply Hut]. exists r. split; [done|]. destruct Hb as (a&b&Ha&Hpb&->&->).
  unfold child. rewrite path_Join_name by (done || by apply Forall_app).
  exists a, (b ++ [m]). rewrite app_assoc. split_and!; try done.
  apply Forall_app. split; [done|by apply Forall_singleton].
Qed.

(** A call that makes no link keeps places inside. *)
Lemma do_wp {A B} (c : call B) (k : B → prog A) s Q ps : linkless c = true →
  call_inside w s _ c → Forall (inside w s) ps →
  (∀ b s', Forall (inside w s') ps → wp (call_inside w) (k b) s' Q) → wp (call_inside w) (Do c k) s Q.
Proof.
  intros Hc Hi Hps Hk. split; [done|]. apply Hk. eapply Forall_impl; [done|].
  intros p. by apply inside_after.
Qed.

Lemma replace_wp s p data : inside w s p → inside w s (Dir p) →
  wp (call_inside w) (replaceFileAtomically p data) s (λ _ _, True).
Proof.
  intros Hp Hd. split; [done|]. simpl.
  pose proof (inside_after s _ (CreateTemp (Dir p) (s2b ".pipeline-search-replace-")) p eq_refl Hp) as Hp1.
  destruct (answer _ s) as [t|e] eqn:Et; [|done].
  assert (Forall (inside w (after (CreateTemp (Dir p) (s2b ".pipeline-search-replace-")) s)) [t; p]) as Hps
    by (apply List.Forall_cons; [by eapply temp_inside|by apply Forall_singleton]).
  assert (∀ s', Forall (inside w s') [t; p] → inside w s' t) as Ht by (by intros s' []%List.Forall_cons_iff).
  apply (do_wp _ _ _ _ [t; p]); [done|by apply Ht|done|]. intros [[]|e] s1 I1.
  - apply (do_wp _ _ _ _ [t; p]); [done|by apply Ht|done|]. intros [[]|e] s2 I2.
    + apply (do_wp _ _ _ _ [t; p]); [done|by apply Ht|done|]. intros [[]|e] s3 I3; [|by split; [apply Ht|]].
      apply List.Forall_cons_iff in I3 as [I3 [I4 _]%List.Forall_cons_iff].
      split; [done|]. simpl. destruct (answer (Rename t p) s3) as [[]|e] eqn:Er; [done|].
      split; [|done]. by rewrite (rename_failed _ _ _ _ Er).
    + apply (do_wp _ _ _ _ [t; p]); [done|by apply Ht|done|]. intros _ s3 I3. by split; [apply Ht|].
  - apply (do_wp _ _ _ _ [t; p]); [done|by apply Ht|done|]. intros _ s3 I3. by split; [apply Ht|].
Qed.

Lemma run_tool_wp t arguments s : (∀ r, r ∈ roots w → name_kind s r = Ok KDir) →
  safe (run_tool t w arguments) s.
Proof.
  intros Hdirs. destruct t; simpl; try (apply with_args_wp; intros args).
  - apply resolve_wp; [|done]. intros p Hp. by apply sys_wp.
  - apply resolve_wp; [|done]. intros p Hp. apply mkdir_wp; [done|]. intros s' Hs'. by apply sys_wp.
  - destruct (is_empty _); [done|]. apply resolve_wp; [|done]. intros p Hp. apply sys_wp; [done| |done].
    intros data _. rewrite query_state by done.
    destruct (Count data (ea_Old args)) as [|[|n]]; [done| |done]. by apply sys_wp.
  - apply resolve_wp; [|done]. intros p Hp. destruct (da_Recursive args); by apply sys_wp.
  - apply resolve_wp; [|done]. intros p Hp. apply resolve_wp; [|done]. intros q Hq.
    apply sys_wp; [by exists q| |done]. intros [] _. apply sys_wp; [|done|done].
    split; by apply inside_after.
  - apply resolve_wp; [|done]. intros p Hp. by apply sys_wp.
  - done.
  - destruct (is_empty _); [done|]. destruct (_ <? 0); [done|]. destruct (_ <? 0); [done|].
    destruct (_ <? 0); [done|]. apply resolve_wp; [|done]. intros p Hp. apply sys_wp; [done| |done].
    intros data _. by destruct (newLineMatcher _ _).
  - destruct (is_empty (ga_Pattern args)); [done|]. case_bool_decide; [|done]. destruct (_ <? 0); [done|].
    destruct (ga_Text args); [by destruct (newLineMatcher _ _)|].
    apply resolve_wp; [|done]. intros p Hp. apply sys_wp; [done| |done].
    intros data _. by destruct (newLineMatcher _ _).
  - destruct (is_empty _); [done|]. destruct (_ <? 0); [done|]. apply resolve_wp; [|done].
    intros p Hp. apply sys_wp; [done| |done]. intros _ _. rewrite query_state by done.
    apply sys_wp; [done| |done]. intros data Hdata. rewrite query_state by done.
    destruct (replacePipelineMatches _ _ _ _ _) as [[updated n]|e]; [|done].
    destruct (0 <? n); [|done]. apply wp_try. eapply wp_mono; [|apply replace_wp; [done|]].
    + by intros [[]|e] s'.
    + apply Dir_inside; [done|done|]. by eapply read_file_kind.
Qed.
End safety.

(** C23: Whatever arguments a model sends, and whatever the file system holds, every
    call a file tool makes to read, list, create, change, rename or remove something
    is about a place inside the workspace at the time of the call: under one of its
    roots and reached without a symbolic link. *)
Theorem tools_stay_inside `{FileSystemLaws W} `{GoRegexp} (t : tool) w arguments (s : W) :
  ws_ok w → (∀ r, r ∈ roots w → name_kind s r = Ok KDir) →
  wp (call_inside w) (run_tool t w arguments) s (λ _ _, True).
Proof. intros Hw. by apply run_tool_wp. Qed.

(** ** Editing *)

Lemma exec_ask {W} `{FileSystem W} {B} (c : call B) (s : W) : exec (ask c) s = (answer c s, after c s).
Proof. done. Qed.

(** [edit_file] changes a file only when [old_string] is counted exactly once
    in it, and then writes the text with that occurrence replaced and the text before
    and after it kept; otherwise it reports an error and changes nothing. *)
Theorem edit_file_spec `{FileSystemLaws W} (s : W) w arguments args p data :
  decode_struct edit_field (mkEditArgs [] [] []) arguments = Some args →
  ea_Old args ≠ [] →
  exec (ResolvePath (Some w) (ea_Path args)) s = (Ok p, s) →
  answer (ReadFile p) s = Ok data →
  if (Count data (ea_Old args) =? 1)%nat then
    ∃ a b, data = a ++ ea_Old args ++ b ∧ (¬ ∃ x y, b = x ++ ea_Old args ++ y) ∧
      let c := WriteFile p (a ++ ea_New args ++ b) in
      exec (edit_file w arguments) s
      = (match answer c s with
         | Ok _ => Ok (s2b "replaced 1 occurrence in " ++ ea_Path args)
         | Err e => Err (ErrSystem e)
         end, after c s)
  else ∃ msg, exec (edit_file w arguments) s = (Err (ErrTool msg), s).
Proof.
  intros Hargs Hold Hp Hdata. unfold edit_file, with_args. rewrite Hargs.
  destruct (is_empty (ea_Old args)) eqn:Ho; [by destruct (ea_Old args)|].
  rewrite exec_try, Hp. cbn [fst snd]. rewrite exec_try, exec_ask, Hdata. cbn [fst snd].
  rewrite query_state by done. destruct (Count data (ea_Old args)) as [|[|n]] eqn:Hc; cbn [Nat.eqb].
  - by eexists.
  - destruct (Count_first _ _ _ Hold Hc) as (a&b&->&Hb&Hr). exists a, b. split_and!; [done|by apply Count_0|].
    rewrite Hr, Replace_0, exec_try, exec_ask. cbn [fst snd].
    by destruct (answer (WriteFile p (a ++ ea_New args ++ b)) s) as [[]|e].
  - by eexists.
Qed.

(** Occurrences that overlap are counted once: two places match here. *)
Lemma edit_overlap : Count (s2b "aaa") (s2b "aa") = 1%nat. Proof. done. Qed.

(** ** Witnesses *)

#[local] Instance no_regexp : GoRegexp := λ _, None.

Definition edit_text : bytes := s2b "{'path': '/tmp/ws/./here/a', 'old_string': 'ex', 'new_string': 'EX'}".
Definition quoted (s : bytes) : bytes := (λ c, if Ascii.eqb c "'"%char then dq else c) <$> s.

Lemma roots_are_dirs r : r ∈ roots sample_ws → name_kind sample_tree r = Ok KDir.
Proof. intros Hr. cbn in Hr. by apply list_elem_of_singleton in Hr as ->. Defined.

Lemma tools_stay_inside_witness :
  wp (call_inside sample_ws) (run_tool EditTool sample_ws (quoted edit_text)) sample_tree (λ _ _, True).
Proof. exact (tools_stay_inside EditTool sample_ws _ sample_tree sample_ws_ok roots_are_dirs). Defined.

Abbreviation sample_edit := (mkEditArgs (s2b "/tmp/ws/./here/a") (s2b "ex") (s2b "EX")).

Lemma edit_file_spec_witness : ∃ a b, s2b "text" = a ++ ea_Old sample_edit ++ b
  ∧ (¬ ∃ x y, b = x ++ ea_Old sample_edit ++ y)
  ∧ let c := WriteFile (s2b "/tmp/ws/a") (a ++ ea_New sample_edit ++ b) in
    exec (edit_file sample_ws (quoted edit_text)) sample_tree
    = (match answer c sample_tree with
       | Ok _ => Ok (s2b "replaced 1 occurrence in " ++ ea_Path sample_edit)
       | Err e => Err (ErrSystem e)
       end, after c sample_tree).
Proof.
  apply (edit_file_spec sample_tree sample_ws (quoted edit_text) sample_edit (s2b "/tmp/ws/a") (s2b "text")).
  - vm_compute. reflexivity.
  - discriminate.
  - rewrite exec_resolve by exact sample_ws_ok. by f_equal.
  - vm_compute. reflexivity.
Defined.
