(* ===== verification/Policy.v ===== *)
(** Execution policies: [llm/internal/toolpolicy/policy.go], the wrapper of
    [llm/tool_policy.go], the tool sets of [builtin.go] and [tool_config.go], and
    the per-runner snapshots of [runner/tool_policy.go].

    [approvals_respected] follows a session of tool calls: what is switched off
    never runs, and what needs approval runs only when it was approved, for the
    call or for the session. [unknown_policy_runs] is what the code makes of a
    policy it does not know. *)
From S2P Require Import Prelude Json Text Event.

(** ** Policies *)

(** A policy is any string; these are the known ones. *)
Abbreviation ExecPolicy := bytes (only parsing).
Definition ExecPolicyPassby : ExecPolicy := s2b "passby".
Definition ExecPolicyNeedApprove : ExecPolicy := s2b "need_approve".
Definition ExecPolicyOff : ExecPolicy := s2b "off".

Definition policy_Default (p : ExecPolicy) : ExecPolicy := if is_empty p then ExecPolicyPassby else p.

Record CapabilityRef := mkRef { cr_Kind : bytes; cr_Name : bytes }.
#[export] Instance ref_eq_dec : EqDecision CapabilityRef.
Proof. solve_decision. Defined.
#[export] Instance ref_countable : Countable CapabilityRef.
Proof.
  refine (inj_countable' (λ r, (cr_Kind r, cr_Name r)) (λ p, mkRef p.1 p.2) _). by intros [].
Defined.

Definition BuiltinCapability (name : bytes) : CapabilityRef := mkRef (s2b "builtin") name.
Definition ExtraCapability (name : bytes) : CapabilityRef := mkRef (s2b "extra") name.
Definition ToolCapability (name : bytes) : CapabilityRef := mkRef (s2b "tool") name.
Definition MCPCapability (name : bytes) : CapabilityRef := mkRef (s2b "mcp_tool") name.

Abbreviation policies := (gmap CapabilityRef ExecPolicy).

Record BashCommandPolicy := mkBashPolicy { bp_Command : bytes; bp_ArgsPrefix : list bytes; bp_Policy : ExecPolicy }.

Definition ApprovalOutcomeApprove : bytes := s2b "approve".
Definition ApprovalOutcomeDeny : bytes := s2b "deny".
Definition ApprovalOutcomeApproveForSession : bytes := s2b "approve_for_session".

Record Decision := mkDecision {
  d_Capability : CapabilityRef; d_Policy : ExecPolicy; d_Reason : bytes;
  d_ApprovalOutcome : bytes; d_ApprovalReason : bytes }.

Record ApprovalRequest := mkRequest {
  ar_CallID : bytes; ar_ToolName : bytes; ar_ArgumentsSummary : bytes; ar_Capability : CapabilityRef;
  ar_Policy : ExecPolicy; ar_Reason : bytes }.
Record ApprovalResponse := mkResponse { as_Outcome : bytes; as_Reason : bytes }.

Inductive policy_err :=
| DisabledError (c : CapabilityRef) (reason : bytes)
| ApprovalDeniedError (c : CapabilityRef) (reason : bytes)
| ErrInvalidOutcome (outcome : bytes)
| ErrHandler (msg : bytes)
| ErrBase (msg : bytes).

(** ** Approval *)

Record callMetadata := mkMeta { cm_CallID : bytes; cm_ToolName : bytes; cm_ArgumentsSummary : bytes }.
Definition no_meta : callMetadata := mkMeta [] [] [].

Definition approvalHandler := ApprovalRequest → ApprovalResponse * option policy_err.

(** What a context carries: metadata, and a handler or none. *)
Record call_ctx := mkCtx { cx_meta : callMetadata; cx_handler : option approvalHandler }.

Definition or_meta (x y : bytes) : bytes := if is_empty x then y else x.

Definition RequestApproval (ctx : call_ctx) (req : ApprovalRequest) : ApprovalResponse * option policy_err :=
  let meta := cx_meta ctx in
  let req := mkRequest (or_meta (ar_CallID req) (cm_CallID meta)) (or_meta (ar_ToolName req) (cm_ToolName meta))
    (or_meta (ar_ArgumentsSummary req) (cm_ArgumentsSummary meta)) (ar_Capability req) (ar_Policy req) (ar_Reason req) in
  match cx_handler ctx with
  | None =>
      let resp := mkResponse ApprovalOutcomeDeny (s2b "no approver configured") in
      (resp, Some (ApprovalDeniedError (ar_Capability req) (as_Reason resp)))
  | Some handler =>
      match handler req with
      | (resp, Some e) => (resp, Some e)
      | (resp, None) =>
          let o := as_Outcome resp in
          if bool_decide (o = ApprovalOutcomeApprove) || bool_decide (o = ApprovalOutcomeApproveForSession) then (resp, None)
          else if is_empty o || bool_decide (o = ApprovalOutcomeDeny) then
            let reason := if is_empty (as_Reason resp) then s2b "approval denied" else as_Reason resp in
            let resp := mkResponse (if is_empty o then ApprovalOutcomeDeny else o) reason in
            (resp, Some (ApprovalDeniedError (ar_Capability req) reason))
          else (resp, Some (ErrInvalidOutcome o))
      end
  end.

(** ** The wrapper *)

(** A wrapped tool; [base] runs the tool on its arguments and may record a
    decision of its own. *)
Record policyTool := mkPolicyTool {
  pt_Name : bytes; pt_ref : CapabilityRef;
  pt_base : bytes → option Decision → (bytes * option policy_err) * option Decision }.

Definition builtin_names : list bytes := s2b <$>
  ["bash"; "read_file"; "write_file"; "edit_file"; "delete_file"; "move_file"; "grep";
   "pipeline_search_replace"; "file_excerpt"; "artifact_catalog"; "structured_preview"]%string.

Definition ExtraListDir : bytes := s2b "list_dir".
Definition ExtraPwd : bytes := s2b "pwd".
Definition ParseExtraTool (name : bytes) : option bytes :=
  if bool_decide (name = ExtraListDir) then Some ExtraListDir
  else if bool_decide (name = ExtraPwd) then Some ExtraPwd else None.

Definition isBuiltinToolName (name : bytes) : bool :=
  bool_decide (name ∈ builtin_names) || bool_decide (is_Some (ParseExtraTool name)).

Definition capabilityRefForTool (name : bytes) : CapabilityRef :=
  if isBuiltinToolName name then
    match ParseExtraTool name with Some _ => ExtraCapability name | None => BuiltinCapability name end
  else ToolCapability name.

(** [mcp]: the tool is backed by an MCP server. *)
Definition capabilityRefForUnwrapped (name : bytes) (mcp : bool) : CapabilityRef :=
  if mcp then MCPCapability name else capabilityRefForTool name.

Definition wrap_tool (name : bytes) (mcp : bool)
  (base : bytes → option Decision → (bytes * option policy_err) * option Decision) : policyTool :=
  mkPolicyTool name (capabilityRefForUnwrapped name mcp) base.

Definition resolvePolicy (ps : policies) (t : policyTool) : ExecPolicy :=
  match ps !! pt_ref t with
  | Some p => policy_Default p
  | None =>
      match ps !! ToolCapability (pt_Name t) with
      | Some p => policy_Default p
      | None => match ps !! mkRef [] (pt_Name t) with Some p => policy_Default p | None => ExecPolicyPassby end
      end
  end.

(** The policies, shared by all wrapped tools, and the recorded decision. *)
Record pstate := mkPState { ps_policies : policies; ps_recorded : option Decision }.

(** What the tool answered, if it ran. *)
Inductive outcome := Ran (out : bytes) (err : option policy_err) | Refused (err : policy_err).

Definition run_base (t : policyTool) (arguments : bytes) (s : pstate) : outcome * pstate :=
  let '((out, err), rec) := pt_base t arguments (ps_recorded s) in
  (Ran out err, mkPState (ps_policies s) rec).

Definition Execute (ctx : call_ctx) (t : policyTool) (arguments : bytes) (s : pstate) : outcome * pstate :=
  let policy := resolvePolicy (ps_policies s) t in
  let reason := s2b "capability policy" in
  let decision := mkDecision (pt_ref t) policy reason [] [] in
  if bool_decide (policy = ExecPolicyOff) then
    (Refused (DisabledError (pt_ref t) (s2b "capability policy is off")), mkPState (ps_policies s) (Some decision))
  else if bool_decide (policy = ExecPolicyNeedApprove) then
    let '(resp, err) := RequestApproval ctx (mkRequest [] [] [] (pt_ref t) policy reason) in
    let decision := mkDecision (pt_ref t) policy reason (as_Outcome resp) (as_Reason resp) in
    match err with
    | Some e => (Refused e, mkPState (ps_policies s) (Some decision))
    | None =>
        let ps := if bool_decide (as_Outcome resp = ApprovalOutcomeApproveForSession)
                  then <[pt_ref t := ExecPolicyPassby]> (ps_policies s) else ps_policies s in
        run_base t arguments (mkPState ps (Some decision))
    end
  else
    run_base t arguments
      (if bool_decide (policy = ExecPolicyPassby) then s else mkPState (ps_policies s) (Some decision)).

(** ** A session of calls *)

Definition tool_call : Type := call_ctx * policyTool * bytes.

Fixpoint session (calls : list tool_call) (s : pstate) : list outcome * pstate :=
  match calls with
  | [] => ([], s)
  | (ctx, t, arguments) :: calls =>
      let '(o, s) := Execute ctx t arguments s in
      let '(os, s) := session calls s in (o :: os, s)
  end.

Definition approval_request (t : policyTool) : ApprovalRequest :=
  mkRequest [] [] [] (pt_ref t) ExecPolicyNeedApprove (s2b "capability policy").

(** What the approver of the context says to the tool. *)
Definition approves (ctx : call_ctx) (t : policyTool) : Prop :=
  (RequestApproval ctx (approval_request t)).2 = None.
Definition approves_session (ctx : call_ctx) (t : policyTool) : Prop :=
  approves ctx t ∧ as_Outcome (RequestApproval ctx (approval_request t)).1 = ApprovalOutcomeApproveForSession.

(** Tools are wrapped under their own name, and a name is one tool. *)
Definition tools_ok (calls : list tool_call) : Prop :=
  (∀ ctx t a, (ctx, t, a) ∈ calls → cr_Name (pt_ref t) = pt_Name t)
  ∧ ∀ ctx t a ctx' t' a', (ctx, t, a) ∈ calls → (ctx', t', a') ∈ calls → pt_Name t = pt_Name t' → pt_ref t = pt_ref t'.

Definition ran (o : outcome) : Prop := match o with Ran _ _ => True | Refused _ => False end.

Lemma wrap_tool_name name mcp base : cr_Name (pt_ref (wrap_tool name mcp base)) = name.
Proof.
  unfold wrap_tool, capabilityRefForUnwrapped, capabilityRefForTool. simpl.
  destruct mcp; [done|]. destruct (isBuiltinToolName name); [|done]. by destruct (ParseExtraTool name).
Qed.

(** What one call does to the policies, and when it runs. *)
Lemma Execute_policies ctx t a s :
  (ps_policies (Execute ctx t a s).2 = ps_policies s
    ∧ ¬ (resolvePolicy (ps_policies s) t = ExecPolicyNeedApprove ∧ approves_session ctx t))
  ∨ (ps_policies (Execute ctx t a s).2 = <[pt_ref t := ExecPolicyPassby]> (ps_policies s)
    ∧ resolvePolicy (ps_policies s) t = ExecPolicyNeedApprove ∧ approves_session ctx t).
Proof.
  unfold Execute, run_base, approves_session, approves, approval_request.
  case_bool_decide as Hoff; [left; split; [done|]; rewrite Hoff; by intros [? _]|].
  case_bool_decide as Hneed.
  - rewrite Hneed. destruct (RequestApproval ctx _) as [resp [e|]] eqn:Hr; simpl; [left; split; [done|naive_solver]|].
    destruct (pt_base t a _) as [[out err] rec]. simpl. case_bool_decide; [by right|left; naive_solver].
  - left. destruct (pt_base t a _) as [[out err] rec]. simpl. case_bool_decide; naive_solver.
Qed.

Lemma Execute_ran ctx t a s : ran (Execute ctx t a s).1 ↔
  resolvePolicy (ps_policies s) t ≠ ExecPolicyOff
  ∧ (resolvePolicy (ps_policies s) t = ExecPolicyNeedApprove → approves ctx t).
Proof.
  unfold Execute, run_base, approves, approval_request.
  case_bool_decide as Hoff; [simpl; naive_solver|]. case_bool_decide as Hneed.
  - rewrite Hneed. destruct (RequestApproval ctx _) as [resp [e|]]; simpl; [naive_solver|].
    destruct (pt_base t a _) as [[out err] rec]. simpl. naive_solver.
  - destruct (pt_base t a _) as [[out err] rec]. simpl. naive_solver.
Qed.

Lemma resolvePolicy_insert ps t t' : cr_Name (pt_ref t') = pt_Name t' →
  (pt_Name t = pt_Name t' → pt_ref t = pt_ref t') → cr_Name (pt_ref t) = pt_Name t →
  resolvePolicy (<[pt_ref t' := ExecPolicyPassby]> ps) t =
  if bool_decide (pt_Name t = pt_Name t') then ExecPolicyPassby else resolvePolicy ps t.
Proof.
  intros Hn' Hsame Hn. unfold resolvePolicy. case_bool_decide as E.
  - by rewrite Hsame, lookup_insert_eq.
  - rewrite !lookup_insert_ne; [done|..]; intros E'; apply E; rewrite <- Hn'; rewrite E'; done.
Qed.

(** ** Properties *)

(** C26: In any session over any policies, for every call: a tool that is off is
    refused; a tool that needs approval runs exactly when its approver approves
    this call or approved an earlier call of the same tool for the session; any
    other tool runs. *)
Theorem approvals_respected calls s i ctx t a o : tools_ok calls →
  calls !! i = Some (ctx, t, a) → (session calls s).1 !! i = Some o →
  let policy := resolvePolicy (ps_policies s) t in
  (policy = ExecPolicyOff → ¬ ran o)
  ∧ (policy = ExecPolicyNeedApprove → ran o ↔ approves ctx t
      ∨ ∃ j ctx' t' a', (j < i)%nat ∧ calls !! j = Some (ctx', t', a') ∧ pt_Name t' = pt_Name t
          ∧ approves_session ctx' t')
  ∧ (policy ≠ ExecPolicyOff → policy ≠ ExecPolicyNeedApprove → ran o).
Proof.
  revert i s. induction calls as [|[[ctx0 t0] a0] calls IH]; intros i s [Hname Hsame]; [done|].
  cbn [session]. pose proof (Execute_policies ctx0 t0 a0 s) as Hps. pose proof (Execute_ran ctx0 t0 a0 s) as Hran.
  destruct (Execute ctx0 t0 a0 s) as [o0 s1]. cbn [fst snd] in *.
  destruct (session calls s1) as [os s2] eqn:Hses. destruct i as [|i]; cbn [lookup list_lookup fst].
  - intros [= -> -> ->] [= ->]. rewrite Hran. cbv zeta. split_and!; [naive_solver| |naive_solver].
    intros Hp. rewrite Hp. split; [naive_solver|]. intros [Ha|(j&?&?&?&Hj&_)]; [|lia]. by split.
  - intros Hi Ho. assert (tools_ok calls) as Hok.
    { split; [intros; eapply Hname; by right|intros; eapply Hsame; [by right|by right|done]]. }
    specialize (IH i s1 Hok Hi). rewrite Hses in IH. specialize (IH Ho). cbv zeta in IH |- *.
    assert ((ctx, t, a) ∈ calls) as Hin by by eapply list_elem_of_lookup_2.
    assert (∀ P : Prop, (P ↔ approves ctx t ∨ ∃ j ctx' t' a', (j < i)%nat ∧ calls !! j = Some (ctx', t', a')
        ∧ pt_Name t' = pt_Name t ∧ approves_session ctx' t') → ¬ (pt_Name t0 = pt_Name t ∧ approves_session ctx0 t0) →
      P ↔ approves ctx t ∨ ∃ j ctx' t' a', (j < S i)%nat ∧ ((ctx0, t0, a0) :: calls) !! j = Some (ctx', t', a')
        ∧ pt_Name t' = pt_Name t ∧ approves_session ctx' t') as Hshift.
    { intros P -> Hno. split; (intros [?|(j&c&t'&a'&Hj&Hl&?&?)]; [by left|]).
      - right. exists (S j), c, t', a'. split_and!; [lia|done..].
      - destruct j as [|j]; [injection Hl as <- <- <-; tauto|]. right. exists j, c, t', a'. split_and!; [lia|done..]. }
    destruct Hps as [[Hps Hno]|(Hps&Hneed&Hses0)]; rewrite Hps in IH.
    + destruct IH as (H1&H2&H3). split_and!; [done| |done]. intros Hp. apply Hshift; [by apply H2|].
      intros [Hn Hs]. apply Hno. split; [|done]. revert Hp. unfold resolvePolicy. rewrite Hn.
      by rewrite (Hsame ctx0 t0 a0 ctx t a) by (by left || by right || done).
    + rewrite resolvePolicy_insert in IH.
      2: { by eapply Hname; left. } 2: { intros E. eapply Hsame; [by right|by left|done]. } 2: { eapply Hname; by right. }
      case_bool_decide as E.
      * assert (pt_ref t = pt_ref t0) as Hr by (eapply Hsame; [by right|by left|done]).
        assert (resolvePolicy (ps_policies s) t = ExecPolicyNeedApprove) as Hp.
        { rewrite <- Hneed. unfold resolvePolicy. by rewrite Hr, E. }
        destruct IH as (_&_&H3). assert (ran o) as Hro by by apply H3. rewrite Hp. split_and!; [done| |done].
        intros _. split; [|done]. intros _. right. exists 0%nat, ctx0, t0, a0. split_and!; [lia|done|by symmetry|done].
      * destruct IH as (H1&H2&H3). split_and!; [done| |done]. intros Hp. apply Hshift; [by apply H2|].
        intros [Hn _]. by rewrite Hn in E.
Qed.

(** A policy the code does not know lets the tool run. *)
Lemma unknown_policy_runs ctx t a s : resolvePolicy (ps_policies s) t = s2b "Off" → ran (Execute ctx t a s).1.
Proof. intros E. apply Execute_ran. rewrite E. by split. Qed.

(** ** Tool sets *)

Record ToolSetConfig := mkToolSet {
  ts_BashAllow : list bytes; ts_BashBlock : list bytes; ts_BashURLAllowlist : list bytes;
  ts_Extras : list bytes; ts_Policies : policies; ts_BashCommandPolicies : list BashCommandPolicy }.
Definition DefaultToolSetConfig : ToolSetConfig := mkToolSet [] [] [] [] ∅ [].

Definition defaultAllowlist : list bytes := s2b <$>
  ["cat"; "head"; "tail"; "wc"; "file"; "stat"; "ls"; "find"; "du"; "df";
   "echo"; "printf"; "grep"; "egrep"; "fgrep"; "sed"; "awk"; "cut";
   "sort"; "uniq"; "tr"; "tee"; "diff"; "basename"; "dirname"; "realpath"; "set";
   "mkdir"; "touch"; "cp"; "ln";
   "tar"; "zip"; "unzip"; "gzip"; "gunzip"; "bzip2"; "bunzip2"; "xz"; "unxz";
   "pwd"; "env"; "which"; "date"; "sleep"; "xargs"; "test"; "true"; "false";
   "jq"; "yq"; "curl"; "wget"; "make"; "cmake"; "ninja";
   "python"; "python3"; "pip"; "pip3"; "node"; "npm"; "pnpm"; "npx"; "yarn"; "go"; "gofmt";
   "cargo"; "rustc"; "rustup"; "uv"; "uvx"; "poetry"; "pipx";
   "conda"; "mamba"; "micromamba"; "pixi"; "jupyter"; "bash"; "sh"; "git"]%string.

(** [withAllowlistAdjust]: blocked names win. *)
Definition withAllowlistAdjust (allow block : list bytes) : gset bytes :=
  (list_to_set defaultAllowlist ∪ list_to_set allow) ∖ list_to_set block.

Record config := mkConfig {
  cf_bashAllowlist : option (gset bytes); cf_bashAllowlistDisabled : bool;
  cf_bashURLAllowlist : list bytes; cf_BashCommandPolicies : list BashCommandPolicy }.

Definition tool_config (cfg : ToolSetConfig) : config :=
  mkConfig (Some (withAllowlistAdjust (ts_BashAllow cfg) (ts_BashBlock cfg))) false
    (ts_BashURLAllowlist cfg) (ts_BashCommandPolicies cfg).

Definition resolveAllowlist (c : config) : option (gset bytes) :=
  if cf_bashAllowlistDisabled c then None
  else match cf_bashAllowlist c with Some l => Some l | None => Some (list_to_set defaultAllowlist) end.

Lemma allowlist_adjusted cfg : ∃ l, resolveAllowlist (tool_config cfg) = Some l
  ∧ ∀ n, n ∈ l ↔ (n ∈ defaultAllowlist ∨ n ∈ ts_BashAllow cfg) ∧ n ∉ ts_BashBlock cfg.
Proof.
  eexists. split; [done|]. intros n. unfold withAllowlistAdjust.
  by rewrite elem_of_difference, elem_of_union, !elem_of_list_to_set.
Qed.

(** The names of [Tools], in order; an unknown extra is an error, a repeated one
    is skipped. *)
Fixpoint extra_names (seen extras : list bytes) : res bytes (list bytes) :=
  match extras with
  | [] => Ok []
  | name :: extras =>
      match ParseExtraTool name with
      | None => Err name
      | Some _ =>
          if bool_decide (name ∈ seen) then extra_names seen extras
          else let? ns := extra_names (name :: seen) extras in Ok (name :: ns)
      end
  end.
Definition tool_names (cfg : ToolSetConfig) : res bytes (list bytes) :=
  let? ns := extra_names [] (ts_Extras cfg) in Ok (builtin_names ++ ns).

(** ** Policies of a runner *)

(** [skillToolSets]; a configuration handed out is a copy. *)
Abbreviation tool_sets := (gmap bytes ToolSetConfig).

Definition set_policies (cfg : ToolSetConfig) (ps : policies) : ToolSetConfig :=
  mkToolSet (ts_BashAllow cfg) (ts_BashBlock cfg) (ts_BashURLAllowlist cfg) (ts_Extras cfg) ps
    (ts_BashCommandPolicies cfg).
Definition set_bash_policies (cfg : ToolSetConfig) (bs : list BashCommandPolicy) : ToolSetConfig :=
  mkToolSet (ts_BashAllow cfg) (ts_BashBlock cfg) (ts_BashURLAllowlist cfg) (ts_Extras cfg) (ts_Policies cfg) bs.

(** Nodes with their skill and the configuration of their agent, when it has
    one; the first agent seen of a skill gives the snapshot. *)
Fixpoint snapshotSkillToolSets (nodes : list (bytes * option ToolSetConfig)) (sets : tool_sets) : tool_sets :=
  match nodes with
  | [] => sets
  | (skillName, agent) :: nodes =>
      snapshotSkillToolSets nodes
        (match agent with
         | Some cfg => if is_empty skillName then sets else
                       match sets !! skillName with Some _ => sets | None => <[skillName := cfg]> sets end
         | None => sets
         end)
  end.

(** Returns the configuration the agent is left with. *)
Definition applySkillToolSet (skillName : bytes) (agent : option ToolSetConfig) (sets : tool_sets)
  : option ToolSetConfig * tool_sets :=
  match agent with
  | None => (None, sets)
  | Some own =>
      if is_empty skillName then (agent, sets)
      else match sets !! skillName with
           | Some cfg => (Some cfg, sets)
           | None => (Some own, <[skillName := own]> sets)
           end
  end.

Inductive set_err := ErrSkillName | ErrNoSnapshot (skillName : bytes).

Definition update_set (skillName : bytes) (f : ToolSetConfig → ToolSetConfig) (sets : tool_sets)
  : res set_err tool_sets :=
  if is_empty skillName then Err ErrSkillName
  else match sets !! skillName with
       | None => Err (ErrNoSnapshot skillName)
       | Some cfg => Ok (<[skillName := f cfg]> sets)
       end.

Definition SetSkillCapabilityPolicy (skillName : bytes) (ref : CapabilityRef) (policy : ExecPolicy) (sets : tool_sets) :=
  update_set skillName (λ cfg, set_policies cfg (<[ref := policy]> (ts_Policies cfg))) sets.
Definition SetSkillBashCommandPolicies (skillName : bytes) (bs : list BashCommandPolicy) (sets : tool_sets) :=
  update_set skillName (λ cfg, set_bash_policies cfg bs) sets.

Lemma snapshot_keeps nodes sets n cfg : sets !! n = Some cfg → snapshotSkillToolSets nodes sets !! n = Some cfg.
Proof.
  revert sets. induction nodes as [|[m [c|]] nodes IH]; intros sets H; simpl; [done| |by apply IH].
  destruct (is_empty m); [by apply IH|]. destruct (sets !! m) eqn:E; [by apply IH|].
  apply IH. rewrite lookup_insert_ne; [done|]. congruence.
Qed.

(** A policy that was set reaches every later binding of the skill, whatever the
    agents brought, and no other skill. *)
Lemma set_policy_applies n ref p sets sets' nodes own : SetSkillCapabilityPolicy n ref p sets = Ok sets' →
  (∃ cfg, (applySkillToolSet n (Some own) (snapshotSkillToolSets nodes sets')).1 = Some cfg
     ∧ ts_Policies cfg !! ref = Some p)
  ∧ ∀ m, m ≠ n → sets' !! m = sets !! m.
Proof.
  unfold SetSkillCapabilityPolicy, update_set, applySkillToolSet. destruct (is_empty n); [done|].
  destruct (sets !! n) as [cfg|]; [|done]. intros [= <-]. split.
  - eexists. erewrite snapshot_keeps by apply lookup_insert_eq. split; [done|]. apply lookup_insert_eq.
  - intros m Hm. by rewrite lookup_insert_ne.
Qed.

(** ** Witness *)

Definition echo_tool (name : string) : policyTool := wrap_tool (s2b name) false (λ a rec, ((a, None), rec)).
Definition ask_user (o : bytes) : call_ctx := mkCtx no_meta (Some (λ _, (mkResponse o [], None))).
Definition sample_calls : list tool_call :=
  [(ask_user ApprovalOutcomeDeny, echo_tool "bash", []); (ask_user ApprovalOutcomeApproveForSession, echo_tool "bash", []);
   (ask_user ApprovalOutcomeDeny, echo_tool "bash", []); (ask_user ApprovalOutcomeApprove, echo_tool "grep", [])].
Definition sample_policies : pstate :=
  mkPState (<[BuiltinCapability (s2b "bash") := ExecPolicyNeedApprove]> {[mkRef [] (s2b "grep") := ExecPolicyOff]}) None.

Definition ran_b (o : outcome) : bool := match o with Ran _ _ => true | Refused _ => false end.

Example sample_session : ran_b <$> (session sample_calls sample_policies).1 = [false; true; true; false].
Proof. by vm_compute. Qed.

Lemma sample_calls_ok : tools_ok sample_calls.
Proof.
  assert (∀ ctx t a, (ctx, t, a) ∈ sample_calls → t = echo_tool "bash" ∨ t = echo_tool "grep") as H.
  { intros ctx t a Hin. repeat (apply elem_of_cons in Hin as [[= -> -> ->]|Hin]; [auto|]). by apply elem_of_nil in Hin. }
  split.
  - intros ctx t a [->| ->]%H; apply wrap_tool_name.
  - intros ctx t a ctx' t' a' [->| ->]%H [->| ->]%H; done.
Qed.

Lemma approvals_respected_witness :
  ran (Ran [] None) ↔ approves (ask_user ApprovalOutcomeDeny) (echo_tool "bash")
    ∨ ∃ j ctx' t' a', (j < 2)%nat ∧ sample_calls !! j = Some (ctx', t', a')
        ∧ pt_Name t' = pt_Name (echo_tool "bash") ∧ approves_session ctx' t'.
Proof.
  refine (proj1 (proj2 (approvals_respected sample_calls sample_policies 2 (ask_user ApprovalOutcomeDeny)
    (echo_tool "bash") [] (Ran [] None) sample_calls_ok _ _)) _); by vm_compute.
Defined.
