(* ===== verification/Shell.v ===== *)
(** Shell commands before they run: the checks of [llm/internal/builtin/bash.go]
    on the syntax tree of a command.

    The tree comes from [mvdan.cc/sh/v3/syntax], which is a parameter ([Shell]);
    [node] is what [syntax.Walk] shows of it: the nodes the code looks at with
    their fields, and below each node what is walked next.
    [allowlist_decides] states what [checkAllowlist] accepts,
    [policy_is_strictest] which policy a command falls under. *)
From S2P Require Import Prelude Json GoText Text Event Path Os Tree Workspace Policy.

(** ** Syntax *)

(** A part of a word; of a part in double quotes, the literals and the rest. *)
Inductive word_part :=
| Lit (value : bytes)
| SglQuoted (value : bytes)
| DblQuoted (inner : list (option bytes))
| Expansion.
Abbreviation word := (list word_part).

Inductive node :=
| CallExpr (args : list word) (inner : list node)
| Redirect (op : bytes) (target : option word) (inner : list node)
| BinaryCmd (op : bytes) (x y : node)
| Stmt (redirs : list bytes) (inner : list node)
| Inner (inner : list node).

Class Shell := syntax_Parse : bytes → option node.

(** The nodes in the order of [syntax.Walk]. *)
Fixpoint nodes (n : node) : list node :=
  n :: match n with
       | CallExpr _ inner | Redirect _ _ inner | Stmt _ inner | Inner inner => mjoin (nodes <$> inner)
       | BinaryCmd _ x y => nodes x ++ nodes y
       end.

(** The visitors of the checks stop at the first error. *)
Definition first_err {E} (check : node → option E) (n : node) : option E :=
  foldr (λ m r, match check m with Some e => Some e | None => r end) None (nodes n).

Definition static_part (p : word_part) : option bytes :=
  match p with
  | Lit v | SglQuoted v => Some v
  | DblQuoted inner => mjoin <$> mapM id inner
  | Expansion => None
  end.

Definition staticWordValue (w : word) : option bytes := mjoin <$> mapM static_part w.

(** ** Allowlist *)

Inductive shell_err :=
| ErrParseCommand
| ErrDynamicHead
| ErrNotInAllowlist (name : bytes)
| ErrMissingTarget (op : bytes)
| ErrDynamicTarget (op : bytes)
| ErrTarget (target : bytes) (e : ws_err).

Definition head_check (allow : gset bytes) (n : node) : option shell_err :=
  match n with
  | CallExpr (w :: _) _ =>
      match staticWordValue w with
      | None => Some ErrDynamicHead
      | Some head => if bool_decide (Base head ∈ allow) then None else Some (ErrNotInAllowlist (Base head))
      end
  | _ => None
  end.

Section shell.
Context `{Shell}.

Definition checkAllowlist (command : bytes) (allow : gset bytes) : option shell_err :=
  match syntax_Parse command with
  | None => Some ErrParseCommand
  | Some f => first_err (head_check allow) f
  end.

(** ** Redirections *)

Definition isHeredocRedirect (op : bytes) : bool :=
  bool_decide (op ∈ (s2b <$> ["<<"; "<<-"; "<<<"]%string)).

Definition redirect_check (w : workspaceRoot) (n : node) : prog (option shell_err) :=
  match n with
  | Redirect op target _ =>
      if isHeredocRedirect op then Ret None
      else match target with
           | None => Ret (Some (ErrMissingTarget op))
           | Some t =>
               match staticWordValue t with
               | None => Ret (Some (ErrDynamicTarget op))
               | Some target =>
                   ResolvePath (Some w) target ≫= λ r,
                   Ret (match r with Ok _ => None | Err e => Some (ErrTarget target e) end)
               end
           end
  | _ => Ret None
  end.

Fixpoint redirect_checks (w : workspaceRoot) (ns : list node) : prog (option shell_err) :=
  match ns with
  | [] => Ret None
  | n :: ns =>
      redirect_check w n ≫= λ r,
      match r with Some e => Ret (Some e) | None => redirect_checks w ns end
  end.

Definition checkRedirections (command : bytes) (w : workspaceRoot) : prog (option shell_err) :=
  match syntax_Parse command with
  | None => Ret (Some ErrParseCommand)
  | Some f => redirect_checks w (nodes f)
  end.

(** ** Command policies *)

Definition staticCall (args : list word) : option (bytes * list bytes) :=
  match args with
  | [] => None
  | w :: ws => head ← staticWordValue w; args ← mapM staticWordValue ws; Some (head, args)
  end.

Definition git_value_options : list bytes := s2b <$>
  ["-c"; "-C"; "--exec-path"; "--git-dir"; "--work-tree"; "--namespace"; "--config-env"; "--super-prefix"]%string.

(** An option with an attached value starts with a dash like any other. *)
Fixpoint trimLeadingGitOptions (args : list bytes) : list bytes :=
  match args with
  | [] => []
  | token :: rest =>
      if bool_decide (token = s2b "--") then rest
      else if bool_decide (token ∈ git_value_options) then
        match rest with [] => [] | _ :: rest => trimLeadingGitOptions rest end
      else if HasPrefix token (s2b "-") then trimLeadingGitOptions rest
      else args
  end.

Definition normalizeCommandArgs (head : bytes) (args : list bytes) : list bytes :=
  if negb (bool_decide (Base head = s2b "git")) then args else trimLeadingGitOptions args.

Fixpoint equalArgsPrefix (args pre : list bytes) : bool :=
  match pre, args with
  | [], _ => true
  | p :: pre, a :: args => bool_decide (a = p) && equalArgsPrefix args pre
  | _ :: _, [] => false
  end.

Definition bashCommandPolicyRank (p : ExecPolicy) : Z :=
  if bool_decide (p = ExecPolicyOff) then 2 else if bool_decide (p = ExecPolicyNeedApprove) then 1 else 0.

(** A match: the policy's index, its prefix length and the effective policy. *)
Record bash_match := mkMatch { bm_index : nat; bm_prefix : nat; bm_policy : BashCommandPolicy }.
Definition bm_effective (m : bash_match) : ExecPolicy := policy_Default (bp_Policy (bm_policy m)).

Definition betterBashCommandPolicyMatch (m current : bash_match) : bool :=
  let r := bashCommandPolicyRank (bm_effective m) in
  let r' := bashCommandPolicyRank (bm_effective current) in
  if negb (r =? r') then r' <? r
  else if negb (bm_prefix m =? bm_prefix current)%nat then (bm_prefix current <? bm_prefix m)%nat
  else (bm_index m <? bm_index current)%nat.

Definition applies (head : bytes) (normalized : list bytes) (p : BashCommandPolicy) : bool :=
  bool_decide (Base head = Base (bp_Command p)) && equalArgsPrefix normalized (bp_ArgsPrefix p).

(** The matches of one call, in the order of the policies. *)
Definition call_matches (ps : list BashCommandPolicy) (n : node) : list bash_match :=
  match n with
  | CallExpr args _ =>
      match staticCall args with
      | None => []
      | Some (head, args) =>
          omap (λ '(i, p), if applies head (normalizeCommandArgs head args) p
                           then Some (mkMatch i (List.length (bp_ArgsPrefix p)) p) else None)
               (zip (seq 0 (List.length ps)) ps)
      end
  | _ => []
  end.

Definition pick (best : option bash_match) (m : bash_match) : option bash_match :=
  match best with
  | None => Some m
  | Some b => if betterBashCommandPolicyMatch m b then Some m else best
  end.

Definition match_decision (m : bash_match) : Decision :=
  mkDecision (BuiltinCapability (s2b "bash")) (bm_effective m)
    (s2b "matched bash command policy " ++ quote
       (TrimSpace (Join (bp_Command (bm_policy m) :: bp_ArgsPrefix (bm_policy m)) (s2b " ")))) [] [].

Definition classifyBashCommandPolicy (command : bytes) (ps : list BashCommandPolicy)
  : res shell_err (option bash_match) :=
  match ps with
  | [] => Ok None
  | _ =>
      match syntax_Parse command with
      | None => Err ErrParseCommand
      | Some f => Ok (foldl pick None (mjoin (call_matches ps <$> nodes f)))
      end
  end.

(** ** Facts *)

Lemma first_err_None {E} (check : node → option E) f :
  first_err check f = None ↔ ∀ n, n ∈ nodes f → check n = None.
Proof.
  unfold first_err. generalize (nodes f). intros l. induction l as [|n l IH]; simpl; [set_solver|].
  setoid_rewrite elem_of_cons. destruct (check n) eqn:Hc; [|naive_solver].
  split; [done|]. intros Hall. rewrite Hall in Hc by by left. done.
Qed.

Definition bm_rank (m : bash_match) : Z := bashCommandPolicyRank (bm_effective m).

Lemma better_spec m c : betterBashCommandPolicyMatch m c = true ↔
  bm_rank c < bm_rank m ∨ (bm_rank m = bm_rank c ∧ ((bm_prefix c < bm_prefix m)%nat
    ∨ (bm_prefix m = bm_prefix c ∧ (bm_index m < bm_index c)%nat))).
Proof.
  unfold betterBashCommandPolicyMatch. fold (bm_rank m) (bm_rank c).
  destruct (Z.eqb_spec (bm_rank m) (bm_rank c)); simpl.
  - destruct (Nat.eqb_spec (bm_prefix m) (bm_prefix c)); simpl; rewrite Nat.ltb_lt; lia.
  - rewrite Z.ltb_lt. lia.
Qed.

Lemma pick_best ms best :
  match foldl pick best ms with
  | None => best = None ∧ ms = []
  | Some m => (m ∈ ms ∨ best = Some m)
      ∧ ∀ m', m' ∈ ms ∨ best = Some m' → betterBashCommandPolicyMatch m' m = false
  end.
Proof.
  revert best. induction ms as [|x ms IH]; intros best; simpl.
  { destruct best as [b|]; [|done]. split; [by right|]. intros m' [?%elem_of_nil|[= ->]]; [done|].
    apply not_true_iff_false. rewrite better_spec. lia. }
  specialize (IH (pick best x)). destruct (foldl pick (pick best x) ms) as [m|].
  - destruct IH as [Hin Hmax]. setoid_rewrite elem_of_cons.
    assert (∀ b, pick best x = Some b → betterBashCommandPolicyMatch b m = false) as Hb by naive_solver.
    unfold pick in *. destruct best as [b|].
    + destruct (betterBashCommandPolicyMatch x b) eqn:Hxb.
      * split; [naive_solver|]. intros m' [[->|Hm']|[= ->]]; [auto|naive_solver|].
        specialize (Hb x eq_refl). apply not_true_iff_false. apply not_true_iff_false in Hb.
        rewrite better_spec in *. lia.
      * split; [naive_solver|]. intros m' [[->|Hm']|[= ->]]; [|naive_solver|auto].
        specialize (Hb b eq_refl). apply not_true_iff_false in Hxb, Hb. apply not_true_iff_false.
        rewrite better_spec in *. lia.
    + split; [naive_solver|]. intros m' [[->|Hm']|?]; [auto|naive_solver|done].
  - destruct IH as [Hp _]. unfold pick in Hp. by repeat case_match.
Qed.

(** A policy that matches some call of the command. *)
Definition falls_under (f : node) (ps : list BashCommandPolicy) (m : bash_match) : Prop :=
  ∃ args inner head rest, CallExpr args inner ∈ nodes f ∧ staticCall args = Some (head, rest)
    ∧ ps !! bm_index m = Some (bm_policy m) ∧ bm_prefix m = List.length (bp_ArgsPrefix (bm_policy m))
    ∧ applies head (normalizeCommandArgs head rest) (bm_policy m) = true.

Lemma elem_of_zip_seq {A} (l : list A) k i x : (i, x) ∈ zip (seq k (List.length l)) l ↔ (k ≤ i)%nat ∧ l !! (i - k)%nat = Some x.
Proof.
  revert k. induction l as [|y l IH]; intros k; simpl; [set_solver|].
  rewrite elem_of_cons, IH. split.
  - intros [[= -> ->]|[Hk Hl]]; [by rewrite Nat.sub_diag|]. split; [lia|].
    by replace (i - k)%nat with (S (i - S k)) by lia.
  - intros [Hk Hl]. destruct (decide (i = k)) as [->|Hne].
    + rewrite Nat.sub_diag in Hl. injection Hl as ->. by left.
    + right. split; [lia|]. by replace (i - k)%nat with (S (i - S k)) in Hl by lia.
Qed.

Lemma call_matches_spec ps f m : m ∈ mjoin (call_matches ps <$> nodes f) ↔ falls_under f ps m.
Proof.
  rewrite list_elem_of_join. setoid_rewrite list_elem_of_fmap. split.
  - intros (l&Hm&n&->&Hn). destruct n as [args inner| | | |]; try by apply elem_of_nil in Hm.
    simpl in Hm. destruct (staticCall args) as [[head rest]|] eqn:Hs; [|by apply elem_of_nil in Hm].
    apply list_elem_of_omap in Hm as ([i p]&Hip%elem_of_zip_seq&Hm).
    destruct (applies _ _ _) eqn:Ha; [|done]. injection Hm as <-. destruct Hip as [_ Hip].
    rewrite Nat.sub_0_r in Hip. exists args, inner, head, rest. by split_and!.
  - intros (args&inner&head&rest&Hn&Hs&Hi&Hp&Ha). eexists. split; [|by exists (CallExpr args inner)].
    simpl. rewrite Hs. apply list_elem_of_omap. exists (bm_index m, bm_policy m).
    rewrite Ha. split; [apply elem_of_zip_seq; rewrite Nat.sub_0_r; split; [lia|done]|].
    rewrite <- Hp. by destruct m.
Qed.

(** ** Properties *)

(** [checkAllowlist] accepts a command exactly when it parses and every
    simple command anywhere in it, in a pipeline, a subshell or a substitution,
    names an allowed program with no expansion in the name. *)
Theorem allowlist_decides command allow : checkAllowlist command allow = None ↔
  ∃ f, syntax_Parse command = Some f ∧ ∀ w ws inner, CallExpr (w :: ws) inner ∈ nodes f →
    ∃ head, staticWordValue w = Some head ∧ Base head ∈ allow.
Proof.
  unfold checkAllowlist. destruct (syntax_Parse command) as [f|]; [|naive_solver].
  rewrite first_err_None. split.
  - intros Hall. exists f. split; [done|]. intros w ws inner Hn%Hall. simpl in Hn.
    destruct (staticWordValue w) as [head|]; [|done]. exists head. split; [done|]. by case_bool_decide.
  - intros (f'&[= <-]&Hall) n Hn. destruct n as [[|w ws] inner| | | |]; try done.
    destruct (Hall w ws inner Hn) as (head&Hs&Hin). simpl. rewrite Hs. by rewrite bool_decide_eq_true_2.
Qed.

(** Checking the redirections of a command changes nothing, and a command
    that passes redirects only to and from fixed names that resolve inside the
    workspace, here-documents apart. *)
Theorem redirections_confined `{FileSystemLaws W} (s : W) command w : ws_ok w →
  wp only_queries (checkRedirections command w) s (λ r s', s' = s ∧ (r = None →
    ∃ f, syntax_Parse command = Some f ∧ ∀ op target inner, Redirect op target inner ∈ nodes f →
      isHeredocRedirect op = false → ∃ t name p, target = Some t ∧ staticWordValue t = Some name
        ∧ (exec (ResolvePath (Some w) name) s).1 = Ok p ∧ inside w s p)).
Proof.
  intros Hw. unfold checkRedirections. destruct (syntax_Parse command) as [f|]; [|done].
  eapply wp_mono with (Q := λ r s', s' = s ∧ (r = None → ∀ op target inner, Redirect op target inner ∈ nodes f →
    isHeredocRedirect op = false → ∃ t name p, target = Some t ∧ staticWordValue t = Some name
      ∧ (exec (ResolvePath (Some w) name) s).1 = Ok p ∧ inside w s p)); [naive_solver|].
  generalize (nodes f). intros ns. induction ns as [|n ns IH]; cbn [redirect_checks].
  { split; [done|]. intros _ op target inner Hin. by apply elem_of_nil in Hin. }
  apply wp_bind. eapply wp_mono with (Q := λ r s', s' = s ∧ (r = None → ∀ op target inner, n = Redirect op target inner →
    isHeredocRedirect op = false → ∃ t name p, target = Some t ∧ staticWordValue t = Some name
      ∧ (exec (ResolvePath (Some w) name) s).1 = Ok p ∧ inside w s p)).
  - intros [e|] s' [-> Hr]; [by split|]. eapply wp_mono; [|exact IH]. intros r s' [-> Hns]. split; [done|].
    intros -> op target inner [Hn|Hin]%elem_of_cons Hop; [by eapply Hr|by eapply Hns].
  - destruct n as [|op [t|] inner| | |]; cbn [redirect_check]; try done.
    + destruct (isHeredocRedirect op) eqn:Hop; [split; [done|]; intros _ op' target' inner' [= <- <- <-]; congruence|].
      destruct (staticWordValue t) as [name|] eqn:Hs; [|done].
      apply wp_bind. eapply wp_mono; [|apply (wp_both _ _ _ _ _ (ResolvePath_wp s w name Hw) (exec_wp _ _ _ (λ _ _ _, I)))].
      intros r s' [[-> Hr] He]. cbn [wp]. split; [done|]. destruct r as [p|e]; [|done].
      intros _ op' target' inner' [= <- <- <-] _. exists t, name, p. by rewrite He.
    + destruct (isHeredocRedirect op) eqn:Hop; [|done].
      split; [done|]. intros _ op' target' inner' [= <- <- <-]. congruence.
Qed.

(** A command falls under the strictest policy that matches any of its calls
    whose words are all fixed: a policy is returned exactly when one matches, it
    matches, and no other that matches is stricter, or as strict with a longer
    prefix, or with the same prefix and listed earlier. *)
Theorem policy_is_strictest command ps r : classifyBashCommandPolicy command ps = Ok r →
  ps = [] ∧ r = None ∨ ∃ f, syntax_Parse command = Some f ∧
    match r with
    | None => ∀ m, ¬ falls_under f ps m
    | Some m => falls_under f ps m ∧ ∀ m', falls_under f ps m' → betterBashCommandPolicyMatch m' m = false
    end.
Proof.
  unfold classifyBashCommandPolicy. destruct ps as [|p ps]; [intros [= <-]; by left|].
  destruct (syntax_Parse command) as [f|]; [|done]. intros [= <-]. right. exists f. split; [done|].
  pose proof (pick_best (mjoin (call_matches (p :: ps) <$> nodes f)) None) as Hp.
  destruct (foldl pick None _) as [m|].
  - destruct Hp as [[Hm|?] Hmax]; [|done]. split; [by apply call_matches_spec|].
    intros m' Hm'. apply Hmax. left. by apply call_matches_spec.
  - destruct Hp as [_ Hp]. intros m Hm%call_matches_spec. rewrite Hp in Hm. by apply elem_of_nil in Hm.
Qed.
End shell.

(** ** Witnesses *)

(** What the parser makes of [git -C . push > notes; echo "$X"]. *)
Definition lit (s : string) : word := [Lit (s2b s)].
Definition sample_command : bytes := s2b "git -C . push > notes; echo $X".
Definition sample_node : node := Inner
  [Stmt [s2b ">"] [CallExpr [lit "git"; lit "-C"; lit "."; lit "push"] [];
                   Redirect (s2b ">") (Some (lit "notes")) []];
   Stmt [] [CallExpr [lit "echo"; [DblQuoted [None]]] []]].
#[local] Instance sample_shell : Shell := λ c, if bool_decide (c = sample_command) then Some sample_node else None.

Example sample_allowed : checkAllowlist sample_command {[ s2b "git"; s2b "echo" ]} = None
  ∧ checkAllowlist sample_command {[ s2b "git" ]} = Some (ErrNotInAllowlist (s2b "echo")).
Proof. split; by vm_compute. Qed.

Lemma redirections_confined_witness :
  (exec (checkRedirections sample_command sample_ws) sample_tree).1 = None ∧
  ∃ t name p, Some (lit "notes") = Some t ∧ staticWordValue t = Some name
    ∧ (exec (ResolvePath (Some sample_ws) name) sample_tree).1 = Ok p ∧ inside sample_ws sample_tree p.
Proof.
  pose proof (wp_exec _ _ _ _ (redirections_confined sample_tree sample_command sample_ws sample_ws_ok)) as [_ H].
  assert ((exec (checkRedirections sample_command sample_ws) sample_tree).1 = None) as Hr by by vm_compute.
  split; [done|]. destruct (H Hr) as (f&Hf&Hn). replace f with sample_node in Hn by by injection Hf.
  apply (Hn (s2b ">") (Some (lit "notes")) []); [by right; right; right; left|done].
Defined.

Definition push_policies : list BashCommandPolicy :=
  [mkBashPolicy (s2b "echo") [] []; mkBashPolicy (s2b "git") [s2b "push"] ExecPolicyNeedApprove;
   mkBashPolicy (s2b "git") [] ExecPolicyPassby].
Definition push_match : bash_match := mkMatch 1 1 (mkBashPolicy (s2b "git") [s2b "push"] ExecPolicyNeedApprove).

Lemma policy_is_strictest_witness : ∃ f, syntax_Parse sample_command = Some f
  ∧ falls_under f push_policies push_match
  ∧ ∀ m', falls_under f push_policies m' → betterBashCommandPolicyMatch m' push_match = false.
Proof.
  destruct (policy_is_strictest sample_command push_policies (Some push_match)) as [[? _]|H]; [by vm_compute|done|].
  exact H.
Defined.

(** A call with any expansion among its words matches no policy: [git push "$X"]
    is not held back by the policy that covers [git push]. *)
Lemma dynamic_call_unmatched ps ws inner :
  call_matches ps (CallExpr (lit "git" :: lit "push" :: [DblQuoted [None]] :: ws) inner) = [].
Proof. done. Qed.

(** Only the first word of a call is looked up: [env] and [xargs], which are
    allowed by default, run any program. *)
Lemma env_runs_anything `{Shell} command args inner : syntax_Parse command = Some (CallExpr (lit "env" :: args) inner) →
  (∀ n, n ∈ mjoin (nodes <$> inner) → head_check (list_to_set defaultAllowlist) n = None) →
  checkAllowlist command (list_to_set defaultAllowlist) = None.
Proof.
  intros Hp Hin. unfold checkAllowlist. rewrite Hp. apply first_err_None. intros n [->|Hn]%elem_of_cons; [|by apply Hin].
  cbn [head_check]. change (staticWordValue (lit "env")) with (Some (s2b "env")). change (Base (s2b "env")) with (s2b "env").
  cbv beta iota. rewrite bool_decide_eq_true_2; [done|]. apply elem_of_list_to_set.
  apply (bool_decide_eq_true_1 (s2b "env" ∈ defaultAllowlist)). by vm_compute.
Qed.
