(* ===== verification/Url.v ===== *)
(** The part of [net/url.Parse] that the URL allowlist reads: scheme, host and
    path of a URL. Hosts with a bracketed IP literal are left to a parameter. *)
From S2P Require Import Prelude Json GoText Text Event.

(** ** Characters *)

Definition lower (c : ascii) : bool := (97 <=? code c)%N && (code c <=? 122)%N.
Definition upper (c : ascii) : bool := (65 <=? code c)%N && (code c <=? 90)%N.
Definition digit (c : ascii) : bool := (48 <=? code c)%N && (code c <=? 57)%N.
Definition alpha (c : ascii) : bool := lower c || upper c.
Definition one_of (c : ascii) (s : string) : bool := bool_decide (c ∈ s2b s).

Definition ascii_lower (c : ascii) : ascii := if upper c then ascii_of_N (code c + 32) else c.

(** [unhex] of a hexadecimal digit. *)
Definition hex (c : ascii) : option N :=
  if digit c then Some (code c - 48)%N
  else if (97 <=? code c)%N && (code c <=? 102)%N then Some (code c - 87)%N
  else if (65 <=? code c)%N && (code c <=? 70)%N then Some (code c - 55)%N
  else None.

(** ** Escapes *)

Inductive encoding := encodePath | encodeHost | encodeUserPassword | encodeFragment.

(** [shouldEscape] of an ASCII byte of a host. *)
Definition host_char (c : ascii) : bool :=
  alpha c || digit c || one_of c "!$&'()*+,;=:[]<>-_.~" || bool_decide (c = dq).

Definition unescape_host (mode : encoding) : bool := match mode with encodeHost => true | _ => false end.

(** [unescape]: percent escapes are decoded; a host may escape only bytes that are
    not ASCII, and the percent sign. *)
Fixpoint unescape (mode : encoding) (s : bytes) : option bytes :=
  match s with
  | [] => Some []
  | c :: r =>
      if bool_decide (c = "%"%char) then
        match r with
        | a :: b :: r' =>
            match hex a, hex b with
            | Some x, Some y =>
                if unescape_host mode && (x <? 8)%N && negb (bool_decide ([a; b] = s2b "25")) then None
                else cons (ascii_of_N (16 * x + y)) <$> unescape mode r'
            | _, _ => None
            end
        | _ => None
        end
      else if unescape_host mode && (code c <? 128)%N && negb (host_char c) then None
      else cons c <$> unescape mode r
  end.

(** ** Pieces *)

(** [strings.Cut]: before and after the first [c]. *)
Fixpoint Cut (s : bytes) (c : ascii) : bytes * option bytes :=
  match s with
  | [] => ([], None)
  | d :: r => if bool_decide (d = c) then ([], Some r) else let '(a, b) := Cut r c in (d :: a, b)
  end.

(** Before and after the last [c]. *)
Fixpoint cut_last (s : bytes) (c : ascii) : option (bytes * bytes) :=
  match s with
  | [] => None
  | d :: r =>
      match cut_last r c with
      | Some (a, b) => Some (d :: a, b)
      | None => if bool_decide (d = c) then Some ([], r) else None
      end
  end.

Definition ctl_byte (c : ascii) : bool := (code c <? 32)%N || (code c =? 127)%N.

(** [getScheme]: the scheme, empty when there is none, and the rest. [acc] holds
    the bytes read so far, the last first. *)
Fixpoint scheme_from (whole acc s : bytes) : option (bytes * bytes) :=
  match s with
  | [] => Some ([], whole)
  | c :: r =>
      if alpha c then scheme_from whole (c :: acc) r
      else if digit c || one_of c "+-." then
        match acc with [] => Some ([], whole) | _ => scheme_from whole (c :: acc) r end
      else if bool_decide (c = ":"%char) then
        match acc with [] => None | _ => Some (reverse acc, r) end
      else Some ([], whole)
  end.
Definition getScheme (s : bytes) : option (bytes * bytes) := scheme_from s [] s.

(** [validOptionalPort]. *)
Definition validOptionalPort (p : bytes) : bool :=
  match p with [] => true | c :: r => bool_decide (c = ":"%char) && forallb digit r end.

Definition validUserinfo (s : bytes) : bool :=
  forallb (λ c, alpha c || digit c || one_of c "-._:~!$&'()*+,;=%@") s.

(** What is read of a URL. *)
Record url := mkUrl { u_Scheme : bytes; u_Host : bytes; u_Path : bytes }.

(** [parseHost] on a host with a bracket, and [strings.ToLower]. *)
Class GoURL := {
  bracket_host : bytes → option bytes;
  ToLower : bytes → bytes }.

Definition is_ascii (s : bytes) : bool := forallb (λ c, (code c <? 128)%N) s.

Class GoURLLaws `{GoURL} := {
  ToLower_ascii s : is_ascii s = true → ToLower s = ascii_lower <$> s }.

Section url.
Context `{GoURL}.

Definition parseHost (host : bytes) : option bytes :=
  if bool_decide ("["%char ∈ host) then bracket_host host
  else
    let '(_, port) := Cut host ":"%char in
    if match port with Some p => validOptionalPort (":"%char :: p) | None => true end then unescape encodeHost host
    else None.

(** The host of an authority; the user information before it is checked. *)
Definition parseAuthority (authority : bytes) : option bytes :=
  match cut_last authority "@"%char with
  | None => parseHost authority
  | Some (userinfo, host) =>
      h ← parseHost host;
      if validUserinfo userinfo then
        let '(name, password) := Cut userinfo ":"%char in
        _n ← unescape encodeUserPassword name;
        _p ← unescape encodeUserPassword (default [] password);
        Some h
      else None
  end.

Definition has_prefix (s : bytes) (p : string) : bool := HasPrefix s (s2b p).

(** [parse] after the fragment is cut off. *)
Definition parse_rest (scheme rest : bytes) : option url :=
  let '(rest, _) := Cut rest "?"%char in
  if negb (has_prefix rest "/") && negb (bool_decide (scheme = [])) then Some (mkUrl scheme [] [])
  else if negb (has_prefix rest "/") && bool_decide (":"%char ∈ (Cut rest "/"%char).1) then None
  else
    if (negb (bool_decide (scheme = [])) || negb (has_prefix rest "///")) && has_prefix rest "//" then
      let '(authority, path) := Cut (drop 2 rest) "/"%char in
      host ← parseAuthority authority;
      path ← unescape encodePath (match path with Some p => "/"%char :: p | None => [] end);
      Some (mkUrl scheme host path)
    else path ← unescape encodePath rest; Some (mkUrl scheme [] path).

Definition url_Parse (raw : bytes) : option url :=
  let '(u, frag) := Cut raw "#"%char in
  r ← (if existsb ctl_byte u then None
       else if bool_decide (u = s2b "*") then Some (mkUrl [] [] u)
       else '(scheme, rest) ← getScheme u; parse_rest (ascii_lower <$> scheme) rest);
  _f ← unescape encodeFragment (default [] frag);
  Some r.
End url.
