(* ===== verification/UrlAllowlist.v ===== *)
(** The URL allowlist of the bash tool,
    [llm/internal/builtin/url_allowlist.go]: which URLs a command line of curl or
    wget names, through the wrappers the code knows.

    [url_allowlist_enforced] says what an accepted command satisfies, in terms of
    what [env], the shells and curl read from their arguments ([starts],
    [shell_runs], [reads]), and the last section where the check is evaded. *)
From S2P Require Import Prelude Json GoText Text Event Path Os Workspace Policy Shell Url.

#[local] Arguments HasPrefix : simpl never.

(** ** Options *)

Definition letters (s : string) : list ascii := s2b s.
Definition options (l : list string) : list bytes := s2b <$> l.

Definition curlShortArgOptions := letters "doHXuAbcemFTEwD".
Definition curlShortFlags := letters "sSLfIkivOgGJpq".
Definition curlLongArgOptions := options
  ["--data"; "--data-raw"; "--data-binary"; "--data-urlencode"; "--data-ascii"; "--output"; "--header";
   "--request"; "--user"; "--user-agent"; "--cookie"; "--cookie-jar"; "--referer"; "--max-time";
   "--connect-timeout"; "--url"; "--form"; "--form-string"; "--upload-file"; "--retry"; "--retry-delay";
   "--cacert"; "--capath"; "--cert"; "--key"; "--pass"; "--limit-rate"; "--write-out"; "--keepalive-time";
   "--dump-header"]%string.
Definition curlLongFlags := options
  ["--remote-name"; "--silent"; "--show-error"; "--location"; "--fail"; "--head"; "--insecure"; "--include";
   "--verbose"; "--globoff"; "--get"; "--remote-header-name"; "--compressed"; "--no-keepalive"; "--fail-early";
   "--http1.1"; "--http2"; "--http3"; "--no-progress-meter"; "--retry-connrefused"]%string.
Definition curlForbiddenShortOptions := letters "xK".
Definition curlForbiddenLongOptions := options
  ["--proxy"; "--proxy-user"; "--preproxy"; "--proxytunnel"; "--socks4"; "--socks4a"; "--socks5";
   "--socks5-hostname"; "--connect-to"; "--resolve"; "--dns-servers"; "--dns-interface"; "--interface";
   "--config"]%string.
Definition wgetShortArgOptions := letters "OtTUwP".
Definition wgetShortFlags := letters "qvchV".
Definition wgetLongArgOptions := options
  ["--output-document"; "--header"; "--post-data"; "--post-file"; "--user"; "--password"; "--tries"; "--timeout";
   "--connect-timeout"; "--read-timeout"; "--user-agent"; "--limit-rate"; "--wait"; "--directory-prefix"]%string.
Definition wgetLongFlags := options
  ["--quiet"; "--verbose"; "--no-verbose"; "--help"; "--version"; "--no-check-certificate"; "--continue";
   "--adjust-extension"]%string.

(** What a program makes of an option. *)
Inductive option_kind := TakesArg | Flag | Forbidden | Unknown.

Definition member {A} `{EqDecision A} (x : A) (l : list A) : bool := bool_decide (x ∈ l).

Definition short_kind (curl : bool) (r : ascii) : option_kind :=
  if curl && member r curlForbiddenShortOptions then Forbidden
  else if member r (if curl then curlShortArgOptions else wgetShortArgOptions) then TakesArg
  else if member r (if curl then curlShortFlags else wgetShortFlags) then Flag
  else Unknown.
Definition long_kind (curl : bool) (o : bytes) : option_kind :=
  if curl && member o curlForbiddenLongOptions then Forbidden
  else if member o (if curl then curlLongArgOptions else wgetLongArgOptions) then TakesArg
  else if member o (if curl then curlLongFlags else wgetLongFlags) then Flag
  else Unknown.

(** ** Arguments *)

Inductive url_err :=
| ErrParseScript
| ErrPipeline
| ErrStdin (op : bytes)
| ErrEnvDynamic
| ErrScriptFile
| ErrScriptMissing
| ErrScriptDynamic
| ErrXargs
| ErrDynamicURL
| ErrOptionName
| ErrOptionForbidden
| ErrFlagValue (o : bytes)
| ErrUnrecognized
| ErrMissingArgument (o : bytes)
| ErrNoURL
| ErrAtURL
| ErrURLNotAllowed (u : bytes)
| ErrNesting.

Definition url_opt : bytes := s2b "--url".

(** A cluster of short options: the option that waits for its argument, if the
    last one does. [more]: the word goes on after this literal. *)
Fixpoint short_options (curl more : bool) (rs : bytes) : res url_err (option bytes) :=
  match rs with
  | [] => Ok None
  | r :: rest =>
      match short_kind curl r with
      | Forbidden => Err ErrOptionForbidden
      | TakesArg =>
          match rest with
          | [] => if more then Ok None else Ok (Some (s2b "-" ++ [r]))
          | _ => Ok None
          end
      | Flag => short_options curl more rest
      | Unknown => Err ErrUnrecognized
      end
  end.

(** A long option: the URL it carries and the option that waits. *)
Definition long_option (curl : bool) (w : word) (val : bytes) : res url_err (list bytes * option bytes) :=
  let '(optName, value) := Cut val "="%char in
  let? carried :=
    match value with
    | Some _ =>
        if bool_decide (optName = url_opt) then
          match staticWordValue w with
          | None => Err ErrDynamicURL
          | Some entire => Ok (drop (S (List.length optName)) entire)
          end
        else Ok []
    | None => match w with [_] => Ok [] | _ => Err ErrOptionName end
    end in
  match long_kind curl optName with
  | Forbidden => Err ErrOptionForbidden
  | TakesArg =>
      match value with
      | Some _ => Ok (if curl && bool_decide (optName = url_opt) then [carried] else [], None)
      | None => Ok ([], Some optName)
      end
  | Flag => match value with Some _ => Err (ErrFlagValue optName) | None => Ok ([], None) end
  | Unknown => Err ErrUnrecognized
  end.

Definition firstLit (w : word) : option bytes := match w with Lit v :: _ => Some v | _ => None end.

Definition is_option (v : bytes) : bool := HasPrefix v (s2b "-") && negb (bool_decide (v = s2b "-")).

Definition static_url (w : word) : res url_err bytes :=
  match staticWordValue w with None => Err ErrDynamicURL | Some v => Ok v end.

Fixpoint parse_urls (curl : bool) (expectedOpt : option bytes) (inPositionalOnly : bool) (args : list word)
  : res url_err (list bytes) :=
  match args with
  | [] => match expectedOpt with Some o => Err (ErrMissingArgument o) | None => Ok [] end
  | w :: args =>
      match expectedOpt with
      | Some o =>
          if bool_decide (o = url_opt) then
            let? v := static_url w in
            let? us := parse_urls curl None inPositionalOnly args in Ok (v :: us)
          else parse_urls curl None inPositionalOnly args
      | None =>
          let positional :=
            let? v := static_url w in
            let? us := parse_urls curl None inPositionalOnly args in Ok (v :: us) in
          if inPositionalOnly then positional
          else
            match firstLit w with
            | None => positional
            | Some val =>
                if negb (is_option val) then positional
                else if bool_decide (val = s2b "--") then parse_urls curl None true args
                else if HasPrefix val (s2b "--") then
                  let? r := long_option curl w val in
                  let? us := parse_urls curl r.2 false args in Ok (r.1 ++ us)
                else
                  let? e := short_options curl (negb (List.length w =? 1)%nat) (drop 1 val) in
                  parse_urls curl e false args
            end
      end
  end.

Definition curl_name : bytes := s2b "curl".
Definition wget_name : bytes := s2b "wget".
Definition fetcher (name : bytes) : bool := bool_decide (name = curl_name) || bool_decide (name = wget_name).

Definition parseCommandURLs (cmdName : bytes) (args : list word) : res url_err (list bytes) :=
  parse_urls (bool_decide (cmdName = curl_name)) None false args.

(** [parseEnvArgs]: the command [env] runs, empty when there is none. *)
Fixpoint parseEnvArgs (args : list word) : res url_err (bytes * list word) :=
  match args with
  | [] => Ok ([], [])
  | w :: rest =>
      match staticWordValue w with
      | None => Err ErrEnvDynamic
      | Some val =>
          if bool_decide ("="%char ∈ val) then parseEnvArgs rest
          else if HasPrefix val (s2b "-") then
            if bool_decide (val = s2b "-u") || bool_decide (val = s2b "--unset") then
              match rest with [] => Ok ([], []) | _ :: rest => parseEnvArgs rest end
            else parseEnvArgs rest
          else Ok (val, rest)
      end
  end.

Definition hasArgCurlOrWget (args : list word) : bool :=
  existsb (λ w, match staticWordValue w with Some v => fetcher (Base v) | None => false end) args.

(** The word after the first [-c]. *)
Fixpoint dash_c (args : list word) : option (option word) :=
  match args with
  | [] => None
  | w :: rest =>
      if bool_decide (staticWordValue w = Some (s2b "-c")) then Some (head rest) else dash_c rest
  end.

(** Every word after a [-c]. *)
Fixpoint dash_c_scripts (args : list word) : list word :=
  match args with
  | [] => []
  | w :: rest =>
      (if bool_decide (staticWordValue w = Some (s2b "-c")) then take 1 rest else []) ++ dash_c_scripts rest
  end.

Definition is_shell (name : bytes) : bool := bool_decide (name = s2b "bash") || bool_decide (name = s2b "sh").

(** ** Checks *)

Section check.
Context `{Shell} `{GoURL}.

Definition or_slash (p : bytes) : bytes := if bool_decide (p = []) then s2b "/" else p.

Definition urlMatches (targetStr entryStr : bytes) : bool :=
  match url_Parse targetStr, url_Parse entryStr with
  | Some target, Some entry =>
      bool_decide (ToLower (u_Scheme target) = ToLower (u_Scheme entry))
      && bool_decide (ToLower (u_Host target) = ToLower (u_Host entry))
      && (let targetPath := or_slash (u_Path target) in
          let entryPath := or_slash (u_Path entry) in
          bool_decide (entryPath = s2b "/") || bool_decide (targetPath = entryPath)
          || HasPrefix targetPath (entryPath ++ s2b "/"))
  | _, _ => false
  end.

Fixpoint check_urls (allowlist urls : list bytes) : option url_err :=
  match urls with
  | [] => None
  | u :: urls =>
      if HasPrefix u (s2b "@") then Some ErrAtURL
      else if existsb (urlMatches u) allowlist then check_urls allowlist urls
      else Some (ErrURLNotAllowed u)
  end.

Definition checkDirectCurlOrWget (cmdName : bytes) (args : list word) (allowlist : list bytes) : option url_err :=
  match parseCommandURLs cmdName args with
  | Err e => Some e
  | Ok [] => Some ErrNoURL
  | Ok urls => check_urls allowlist urls
  end.

(** Whether a call runs curl or wget; [scripts] answers for a script. *)
Definition curl_call (scripts : bytes → bool) (n : node) : bool :=
  match n with
  | CallExpr (w :: args) _ =>
      match staticWordValue w with
      | None => false
      | Some head =>
          let cmdName := Base head in
          fetcher cmdName
          || (bool_decide (cmdName = s2b "xargs") && hasArgCurlOrWget args)
          || (bool_decide (cmdName = s2b "env") &&
              match parseEnvArgs args with Ok (sub, _) => fetcher (Base sub) | Err _ => fetcher (Base []) end)
          || (is_shell cmdName && existsb (λ w, match staticWordValue w with Some v => scripts v | None => false end)
                                    (dash_c_scripts (w :: args)))
      end
  | _ => false
  end.

(** [n] scripts may be nested. *)
Fixpoint has_curl (n : nat) (f : node) : bool :=
  match n with
  | O => false
  | S n =>
      existsb (curl_call (λ script, match syntax_Parse script with Some f => has_curl n f | None => false end)) (nodes f)
  end.

(** The command behind [env]s; [k] of them may be nested. *)
Fixpoint unwrap_env (k : nat) (cmdName : bytes) (args : list word) : res url_err (bytes * list word) :=
  match k with
  | O => Ok (cmdName, args)
  | S k =>
      if fetcher cmdName || negb (bool_decide (cmdName = s2b "env")) then Ok (cmdName, args)
      else
        let? sub := parseEnvArgs args in
        match sub.1 with [] => Ok (cmdName, args) | _ => unwrap_env k (Base sub.1) sub.2 end
  end.

(** [checkWrapperCommand]; [check_script] checks the script of a [-c]. *)
Definition check_wrapper (check_script : bytes → option url_err) (cmdName : bytes) (args : list word)
  (allowlist : list bytes) : option url_err :=
  match unwrap_env (S (List.length args)) cmdName args with
  | Err e => Some e
  | Ok (cmdName, args) =>
      if fetcher cmdName then checkDirectCurlOrWget cmdName args allowlist
      else if is_shell cmdName then
        match dash_c args with
        | None => Some ErrScriptFile
        | Some None => Some ErrScriptMissing
        | Some (Some scriptWord) =>
            match staticWordValue scriptWord with
            | None => Some ErrScriptDynamic
            | Some script => check_script script
            end
        end
      else if bool_decide (cmdName = s2b "xargs") && hasArgCurlOrWget args then Some ErrXargs
      else None
  end.

(** What the visitor says of one node; [uses] is [hasCurlOrWget]. *)
Definition url_visit (uses : node → bool) (check_script : bytes → option url_err) (allowlist : list bytes) (n : node)
  : option url_err :=
  match n with
  | BinaryCmd op _ y =>
      if (bool_decide (op = s2b "|") || bool_decide (op = s2b "|&")) && uses y then Some ErrPipeline else None
  | Stmt redirs _ =>
      if uses n then
        ErrStdin <$> head (List.filter (λ op, bool_decide ("<"%char ∈ op)) redirs)
      else None
  | CallExpr (w :: args) _ =>
      match staticWordValue w with
      | None => None
      | Some head => check_wrapper check_script (Base head) args allowlist
      end
  | _ => None
  end.

Fixpoint check_url_allowlist (n : nat) (command : bytes) (allowlist : list bytes) : option url_err :=
  match n with
  | O => Some ErrNesting
  | S n =>
      match allowlist with
      | [] => None
      | _ =>
          match syntax_Parse command with
          | None => Some ErrParseScript
          | Some f => first_err (url_visit (has_curl (S n)) (λ s, check_url_allowlist n s allowlist) allowlist) f
          end
      end
  end.

(** A script is shorter than the command it is a word of, so this depth is enough. *)
Definition checkURLAllowlist (command : bytes) (allowlist : list bytes) : option url_err :=
  check_url_allowlist (S (S (List.length command))) command allowlist.
End check.

(** ** What is enforced *)

Section enforced.
Context `{Shell} `{GoURL}.

(** Nothing below [n] is a plain call of curl or wget, or of one through [env] or
    [xargs]. *)
Definition no_fetcher (n : node) : Prop := ∀ m, m ∈ nodes n → curl_call (λ _, false) m = false.

(** Every fetcher of the command, behind [env]s and in the scripts of its shells,
    names only URLs of the allowlist, and none is fed by a pipe. *)
Inductive url_ok (allowlist : list bytes) : bytes → Prop :=
| url_ok_intro command f : syntax_Parse command = Some f →
    (∀ op x y, BinaryCmd op x y ∈ nodes f → op = s2b "|" ∨ op = s2b "|&" → no_fetcher y) →
    (∀ redirs inner op, Stmt redirs inner ∈ nodes f → op ∈ redirs → "<"%char ∈ op → no_fetcher (Stmt redirs inner)) →
    (∀ w args inner head, CallExpr (w :: args) inner ∈ nodes f → staticWordValue w = Some head →
      ∃ name args', unwrap_env (S (List.length args)) (Base head) args = Ok (name, args')
        ∧ (fetcher name = true → ∃ urls, parseCommandURLs name args' = Ok urls ∧ urls ≠ []
            ∧ ∀ u, u ∈ urls → ∃ entry, entry ∈ allowlist ∧ urlMatches u entry = true)
        ∧ (fetcher name = false → is_shell name = true → ∃ w' script, dash_c args' = Some (Some w')
            ∧ staticWordValue w' = Some script ∧ url_ok allowlist script)) →
    url_ok allowlist command.

(** ** What a command starts

    As [env] and the shells read their arguments, for the words whose value is
    fixed; [env_runs] knows the options of [env] that set no directory and split
    no string, and [shell_runs] a script that follows [-c] and single flags. *)

Definition known (w : word) (v : bytes) : Prop := staticWordValue w = Some v.

Definition env_flags : list bytes := options ["-"; "-i"; "--ignore-environment"; "-0"; "--null"; "-v"; "--debug"]%string.

(** From its arguments on [env] comes to these. *)
Inductive env_runs : list word → list word → Prop :=
| env_command w v args : known w v → v ≠ [] → "="%char ∉ v → HasPrefix v (s2b "-") = false →
    env_runs (w :: args) (w :: args)
| env_flag w v args rest : known w v → v ∈ env_flags → env_runs args rest → env_runs (w :: args) rest
| env_unset w v x args rest : known w v → v = s2b "-u" ∨ v = s2b "--unset" → env_runs args rest →
    env_runs (w :: x :: args) rest
| env_assign w v args rest : known w v → "="%char ∈ v → env_runs args rest → env_runs (w :: args) rest.

(** The words of a call start the program [name] on [args], behind [k] [env]s. *)
Inductive starts : nat → list word → bytes → list word → Prop :=
| starts_here w v args : known w v → starts 0 (w :: args) (Base v) args
| starts_env w v args rest k name args' : known w v → Base v = s2b "env" → env_runs args rest →
    starts k rest name args' → starts (S k) (w :: args) name args'.

Definition shell_flags : list bytes := options ["-e"; "-u"; "-x"; "-v"; "-l"; "-i"]%string.

Inductive shell_runs : list word → bytes → Prop :=
| shell_script c w script args : known c (s2b "-c") → known w script → shell_runs (c :: w :: args) script
| shell_flag w v args script : known w v → v ∈ shell_flags → shell_runs args script → shell_runs (w :: args) script.

Lemma env_runs_command args rest : env_runs args rest → ∃ w v more, rest = w :: more ∧ known w v ∧ v ≠ []
  ∧ parseEnvArgs args = Ok (v, more) ∧ (List.length more < List.length args)%nat.
Proof.
  induction 1 as [w v args Hw Hv He Hd|w v args rest Hw Hv _ IH|w v x args rest Hw Hv _ IH|w v args rest Hw Hv _ IH].
  1: { exists w, v, args. cbn [parseEnvArgs]. rewrite Hw, (bool_decide_eq_false_2 ("="%char ∈ v)), Hd by done.
       split_and!; [done..|simpl; lia]. }
  all: destruct IH as (w'&v'&more&->&Hw'&Hv'&IH&Hl); exists w', v', more; split_and!; [done..| |simpl; lia];
    rewrite <- IH; cbn [parseEnvArgs]; rewrite Hw.
  - unfold env_flags, options in Hv. repeat (apply elem_of_cons in Hv as [->|Hv]; [done|]). by apply elem_of_nil in Hv.
  - by destruct Hv as [->| ->].
  - by rewrite bool_decide_eq_true_2.
Qed.

Definition runs_scripts (name : bytes) : Prop := fetcher name = true ∨ is_shell name = true.

Lemma runs_scripts_env name : runs_scripts name → name ≠ s2b "env".
Proof. by intros [?|?] ->. Qed.

Lemma unwrap_starts k w v args name args' fuel : starts k (w :: args) name args' → known w v → runs_scripts name →
  (List.length args < fuel)%nat → unwrap_env fuel (Base v) args = Ok (name, args').
Proof.
  intros Hs. remember (w :: args) as ws eqn:E. revert w v args fuel E.
  induction Hs as [w v args Hw|w v args rest k name args' Hw Hv He Hs IH];
    intros w' v' args1 fuel [= <- <-] Hw' Hn Hf; unfold known in *; simplify_eq;
    (destruct fuel as [|fuel]; [lia|]); cbn [unwrap_env].
  - destruct (fetcher (Base v)) eqn:Hfe; [done|]. by rewrite bool_decide_eq_false_2 by by apply runs_scripts_env.
  - rewrite Hv. apply env_runs_command in He as (c&u&more&->&Hc&Hu&->&Hl). simpl.
    destruct u as [|x u]; [done|]. apply (IH c); [done..|lia].
Qed.

Lemma shell_runs_dash_c args script : shell_runs args script → ∃ w, dash_c args = Some (Some w) ∧ known w script.
Proof.
  induction 1 as [c w script args Hc Hw|w v args script Hw Hv _ IH]; cbn [dash_c].
  - exists w. by rewrite bool_decide_eq_true_2.
  - rewrite bool_decide_eq_false_2; [done|]. rewrite Hw. intros [= ->].
    revert Hv. by apply (bool_decide_eq_false (s2b "-c" ∈ shell_flags)); vm_compute.
Qed.

Lemma dash_c_split args w : dash_c args = Some (Some w) → ∃ pre c post, args = pre ++ c :: w :: post ∧ known c (s2b "-c").
Proof.
  induction args as [|x args IH]; cbn [dash_c]; [done|]. case_bool_decide as Hx.
  - intros [= Hh]. destruct args as [|y post]; [done|]. injection Hh as ->. by exists [], x, post.
  - intros (pre&c&post&->&Hc)%IH. by exists (x :: pre), c, post.
Qed.

(** Nothing in it starts a fetcher, directly or behind one [env]. *)
Definition starts_no_fetcher (n : node) : Prop := ∀ k ws inner name args, CallExpr ws inner ∈ nodes n →
  starts k ws name args → (k ≤ 1)%nat → fetcher name = false.

Lemma no_fetcher_starts n : no_fetcher n → starts_no_fetcher n.
Proof.
  intros Hn k ws inner name args Hin Hs Hk. apply not_true_iff_false. intros Hf. apply Hn in Hin.
  destruct Hs as [w v args Hw|w v args rest k name args' Hw Hv He Hs]; cbn [curl_call] in Hin; rewrite Hw in Hin.
  - by rewrite Hf in Hin.
  - apply env_runs_command in He as (c&u&more&->&Hc&_&He&_). rewrite Hv, He in Hin.
    inversion Hs; subst; [|lia]. unfold known in *. simplify_eq.
    apply orb_false_iff in Hin as [Hin _]. apply orb_false_iff in Hin as [_ Hin]. by rewrite Hf in Hin.
Qed.

(** The nodes a command runs, those of its shells' scripts included. *)
Inductive reach : node → node → Prop :=
| reach_here f n : n ∈ nodes f → reach f n
| reach_script f ws inner k name args script g n : CallExpr ws inner ∈ nodes f → starts k ws name args →
    is_shell name = true → shell_runs args script → syntax_Parse script = Some g → reach g n → reach f n.

(** The URL has the entry's scheme and host, and its path or one below it. *)
Definition covers (entry u : bytes) : Prop := ∃ t x, url_Parse u = Some t ∧ url_Parse entry = Some x
  ∧ ToLower (u_Scheme t) = ToLower (u_Scheme x) ∧ ToLower (u_Host t) = ToLower (u_Host x)
  ∧ (or_slash (u_Path x) = s2b "/" ∨ or_slash (u_Path t) = or_slash (u_Path x)
     ∨ ∃ below, or_slash (u_Path t) = or_slash (u_Path x) ++ s2b "/" ++ below).

Lemma urlMatches_covers u entry : urlMatches u entry = true → covers entry u.
Proof.
  unfold urlMatches, covers. destruct (url_Parse u) as [t|], (url_Parse entry) as [x|]; try done.
  intros [[Hs%bool_decide_eq_true Hh%bool_decide_eq_true]%andb_true_iff Hp]%andb_true_iff.
  exists t, x. split_and!; [done..|].
  apply orb_true_iff in Hp as [[Hp%bool_decide_eq_true|Hp%bool_decide_eq_true]%orb_true_iff|[r Hp]%HasPrefix_spec]; [by left|by right; left|].
  right; right. exists r. by rewrite Hp, <- app_assoc.
Qed.

Lemma shell_no_fetcher name : is_shell name = true → fetcher name = false.
Proof.
  unfold is_shell, fetcher. intros [->%bool_decide_eq_true| ->%bool_decide_eq_true]%orb_true_iff; done.
Qed.

(** What holds of every node a command runs when its own nodes and its scripts' pass. *)
Lemma reach_ok allowlist command f n : url_ok allowlist command → syntax_Parse command = Some f → reach f n →
  ∃ c g, url_ok allowlist c ∧ syntax_Parse c = Some g ∧ n ∈ nodes g.
Proof.
  intros Hok Hf Hr. revert command Hok Hf.
  induction Hr as [f n Hn|f [|w ws] inner k name args script g n Hc Hs Hsh Hrun Hg _ IH]; intros command Hok Hf;
    [by exists command, f|by inversion Hs|].
  apply (IH script); [|done]. destruct Hok as [command f' Hf' _ _ Hcalls]. simplify_eq.
  assert (∃ v, known w v) as [v Hw] by (inversion Hs; eauto).
  destruct (Hcalls w ws inner v Hc Hw) as (name'&args'&Hu&_&Hscript).
  rewrite (unwrap_starts _ _ _ _ _ _ (S (List.length ws)) Hs Hw) in Hu; [|by right|lia]. injection Hu as <- <-.
  apply shell_runs_dash_c in Hrun as (w'&Hd&Hw').
  pose proof (shell_no_fetcher _ Hsh) as Hfe.
  destruct (Hscript Hfe Hsh) as (w''&script'&Hd'&Hw''&Hok). unfold known in *. by simplify_eq.
Qed.

Lemma url_ok_call allowlist c g ws inner k name args : url_ok allowlist c → syntax_Parse c = Some g →
  CallExpr ws inner ∈ nodes g → starts k ws name args →
  (fetcher name = true → ∃ urls, parseCommandURLs name args = Ok urls ∧ urls ≠ []
     ∧ ∀ u, u ∈ urls → ∃ entry, entry ∈ allowlist ∧ urlMatches u entry = true)
  ∧ (is_shell name = true → ∃ pre c w script post, args = pre ++ c :: w :: post ∧ known c (s2b "-c") ∧ known w script).
Proof.
  intros [command f Hparse _ _ Hcalls] Hg Hc Hs. simplify_eq. destruct ws as [|w ws]; [by inversion Hs|].
  assert (∃ v, known w v) as [v Hw] by (inversion Hs; eauto).
  destruct (Hcalls w ws inner v Hc Hw) as (name'&args'&Hu&Hf&Hscript).
  split; intros Hn; rewrite (unwrap_starts _ _ _ _ _ _ (S (List.length ws)) Hs Hw) in Hu; try first [by left|by right|lia];
    injection Hu as <- <-; [by apply Hf|].
  pose proof (shell_no_fetcher _ Hn) as Hfe.
  destruct (Hscript Hfe Hn) as (w'&script&Hd&Hw'&_). apply dash_c_split in Hd as (pre&x&post&->&Hx).
  by exists pre, x, w', script, post.
Qed.

Lemma curl_call_mono (p q : bytes → bool) n : (∀ s, p s = true → q s = true) →
  curl_call p n = true → curl_call q n = true.
Proof.
  intros Hpq. destruct n as [[|w args] inner| | | |]; try done. simpl.
  destruct (staticWordValue w) as [head|]; [|done].
  rewrite !orb_true_iff. intros [?|Hs]; [by left|right].
  apply andb_true_iff in Hs as [-> Hs]. simpl. apply existsb_elem in Hs as (x&Hx&Hs).
  apply existsb_elem. exists x. split; [done|]. destruct (staticWordValue x); [by apply Hpq|done].
Qed.

Lemma has_curl_no_fetcher n f : has_curl (S n) f = false → no_fetcher f.
Proof.
  intros Hc m Hm. apply not_true_iff_false. intros Hcall. apply not_true_iff_false in Hc. apply Hc. cbn [has_curl].
  apply existsb_elem. exists m. split; [done|]. by apply (curl_call_mono (λ _, false)).
Qed.

Lemma check_urls_None allowlist urls : check_urls allowlist urls = None →
  ∀ u, u ∈ urls → ∃ entry, entry ∈ allowlist ∧ urlMatches u entry = true.
Proof.
  induction urls as [|v urls IH]; cbn [check_urls]; intros Hc u; [by intros ?%elem_of_nil|].
  destruct (HasPrefix v (s2b "@")); [done|]. destruct (existsb _ allowlist) eqn:E; [|done].
  intros [->|Hu]%elem_of_cons; [|by apply IH]. by apply existsb_elem in E.
Qed.

Lemma direct_None name args allowlist : checkDirectCurlOrWget name args allowlist = None →
  ∃ urls, parseCommandURLs name args = Ok urls ∧ urls ≠ []
    ∧ ∀ u, u ∈ urls → ∃ entry, entry ∈ allowlist ∧ urlMatches u entry = true.
Proof.
  unfold checkDirectCurlOrWget. destruct (parseCommandURLs name args) as [[|u us]|]; try done.
  intros Hc. exists (u :: us). split_and!; [done..|]. by apply check_urls_None.
Qed.

Lemma check_url_ok n command allowlist : allowlist ≠ [] →
  check_url_allowlist n command allowlist = None → url_ok allowlist command.
Proof.
  intros Hne. revert command. induction n as [|n IH]; intros command; cbn [check_url_allowlist]; [done|].
  destruct allowlist as [|e es]; [done|]. destruct (syntax_Parse command) as [f|] eqn:Hf; [|done].
  rewrite first_err_None. intros Hall. econstructor; [done|..].
  - intros op x y Hb Hop. specialize (Hall _ Hb). cbn [url_visit] in Hall.
    apply (has_curl_no_fetcher n). destruct (has_curl (S n) y); [|done].
    by destruct Hop as [->| ->].
  - intros redirs inner op Hs Hop Hin. specialize (Hall _ Hs). cbn [url_visit] in Hall.
    apply (has_curl_no_fetcher n). destruct (has_curl (S n) _); [|done].
    assert (op ∈ List.filter (λ op, bool_decide ("<"%char ∈ op)) redirs) as Hfil.
    { apply elem_of_list_filter'. split; [done|by apply bool_decide_eq_true]. }
    by destruct (List.filter _ redirs); [apply elem_of_nil in Hfil|].
  - intros w args inner head Hc Hs. specialize (Hall _ Hc). cbn [url_visit] in Hall. rewrite Hs in Hall.
    unfold check_wrapper in Hall. destruct (unwrap_env _ _ _) as [[name args']|]; [|done].
    exists name, args'. split; [done|]. destruct (fetcher name).
    + split; [|done]. intros _. by apply direct_None.
    + split; [done|]. intros _ Hsh. rewrite Hsh in Hall. destruct (dash_c args') as [[w'|]|]; try done.
      destruct (staticWordValue w') as [script|] eqn:Hw; [|done]. exists w', script. split_and!; [done..|by apply IH].
Qed.
End enforced.

(** ** Nesting *)

(** A word of a call with several words is shorter than the command. *)
Class ShellLaws `{Shell} := {
  word_shorter command f args inner w v : syntax_Parse command = Some f → CallExpr args inner ∈ nodes f →
    (2 ≤ List.length args)%nat → w ∈ args → staticWordValue w = Some v → (List.length v < List.length command)%nat }.

Section nesting.
Context `{ShellLaws} `{GoURL}.

Lemma dash_c_in args w : dash_c args = Some (Some w) → w ∈ args ∧ (2 ≤ List.length args)%nat.
Proof.
  induction args as [|x args IH]; simpl; [done|]. case_bool_decide.
  - destruct args as [|y args]; simpl; [done|]. intros [= ->]. split; [by right; left|lia].
  - intros E. destruct (IH E). split; [by right|lia].
Qed.

Lemma parseEnvArgs_in args v rest w : parseEnvArgs args = Ok (v, rest) → w ∈ rest →
  w ∈ args ∧ (List.length rest < List.length args)%nat.
Proof.
  induction args as [args IH] using (induction_ltof1 _ (@List.length word)). unfold ltof in IH.
  destruct args as [|x args]; cbn [parseEnvArgs]; [by intros [= <- <-] ?%elem_of_nil|].
  destruct (staticWordValue x) as [y|]; [|done]. case_bool_decide.
  { intros E Hw.  destruct (IH args ltac:(simpl; lia) E Hw). split; [by right|simpl; lia]. }
  destruct (HasPrefix y (s2b "-")).
  - destruct (bool_decide (y = s2b "-u") || bool_decide (y = s2b "--unset")).
    + destruct args as [|z args]; [by intros [= <- <-] ?%elem_of_nil|]. intros E Hw.
      destruct (IH args ltac:(simpl; lia) E Hw). split; [by right; right|simpl; lia].
    + intros E Hw. destruct (IH args ltac:(simpl; lia) E Hw). split; [by right|simpl; lia].
  - intros [= <- <-] Hw. split; [by right|simpl; lia].
Qed.

Lemma unwrap_env_in k name args name' args' w : unwrap_env k name args = Ok (name', args') → w ∈ args' → w ∈ args.
Proof.
  revert name args. induction k as [|k IH]; intros name args; simpl; [by intros [= <- <-]|].
  destruct (_ || _); [by intros [= <- <-]|]. destruct (parseEnvArgs args) as [[v rest]|] eqn:E; simpl; [|done].
  destruct v; [by intros [= <- <-]|]. intros Hu Hw. by eapply parseEnvArgs_in in E as [? _]; [|by eapply IH].
Qed.

Lemma first_err_ext {E} (p q : node → option E) f : (∀ n, n ∈ nodes f → p n = q n) → first_err p f = first_err q f.
Proof.
  unfold first_err. generalize (nodes f). intros l. induction l as [|n l IH]; intros Hpq; simpl; [done|].
  rewrite Hpq by by left. rewrite IH; [done|]. intros m Hm. apply Hpq. by right.
Qed.

Lemma existsb_ext_in {A} (p q : A → bool) l : (∀ x, x ∈ l → p x = q x) → existsb p l = existsb q l.
Proof.
  induction l as [|x l IH]; intros Hpq; simpl; [done|]. rewrite Hpq by by left.
  rewrite IH; [done|]. intros y Hy. apply Hpq. by right.
Qed.

Lemma dash_c_scripts_in args w : w ∈ dash_c_scripts args → w ∈ args ∧ (2 ≤ List.length args)%nat.
Proof.
  induction args as [|x args IH]; simpl; [by intros ?%elem_of_nil|].
  rewrite elem_of_app. intros [Hw|Hw].
  - case_bool_decide; [|by apply elem_of_nil in Hw]. destruct args as [|y args]; [by apply elem_of_nil in Hw|].
    simpl in Hw. apply list_elem_of_singleton in Hw as ->. split; [by right; left|simpl; lia].
  - destruct (IH Hw). split; [by right|lia].
Qed.

(** Any depth beyond the length of the command gives the same answer. *)
Lemma has_curl_enough n m command f g : syntax_Parse command = Some f → (∀ x, x ∈ nodes g → x ∈ nodes f) →
  (List.length command < n)%nat → (List.length command < m)%nat → has_curl n g = has_curl m g.
Proof.
  revert m command f g. induction n as [|n IH]; intros [|m] command f g Hf Hsub Hn Hm; [lia..|].
  cbn [has_curl]. apply existsb_ext_in. intros x Hx%Hsub.
  destruct x as [[|w args] inner| | | |]; try done. cbn [curl_call].
  destruct (staticWordValue w) as [head|]; [|done]. do 2 f_equal. apply existsb_ext_in.
  intros y Hy%dash_c_scripts_in. destruct (staticWordValue y) as [v|] eqn:Hv; [|done].
  destruct Hy as [Hy Hl]. destruct (syntax_Parse v) as [f'|] eqn:Hf'; [|done].
  assert (List.length v < List.length command)%nat by by eapply word_shorter.
  eapply IH; [done|done|lia..].
Qed.

Lemma nodes_inner inner n x : n ∈ inner → x ∈ nodes n → x ∈ mjoin (nodes <$> inner).
Proof. intros Hn Hx. apply list_elem_of_join. exists (nodes n). split; [done|]. by apply list_elem_of_fmap_2. Qed.

Lemma nodes_inner_length inner n : n ∈ inner → (List.length (nodes n) ≤ List.length (mjoin (nodes <$> inner)))%nat.
Proof.
  induction inner as [|m inner IH]; [by intros ?%elem_of_nil|].
  change (mjoin (nodes <$> m :: inner)) with (nodes m ++ mjoin (nodes <$> inner)). rewrite length_app.
  intros [->|Hn]%elem_of_cons; [lia|]. specialize (IH Hn). lia.
Qed.

Lemma nodes_trans f x y : x ∈ nodes f → y ∈ nodes x → y ∈ nodes f.
Proof.
  enough (∀ k f, (List.length (nodes f) ≤ k)%nat → x ∈ nodes f → y ∈ nodes x → y ∈ nodes f) by eauto.
  induction k as [|k IH]; intros [args inner|op t inner|op l r|rs inner|inner] Hk; cbn [nodes List.length] in Hk; try lia;
    cbn [nodes]; intros [->|Hx]%elem_of_cons Hy; try done; right.
  3: { rewrite length_app in Hk. apply elem_of_app in Hx as [Hx|Hx]; apply elem_of_app; [left|right]; apply IH; (done || lia). }
  all: apply list_elem_of_join in Hx as (ns&Hx&(n&->&Hn)%list_elem_of_fmap); eapply nodes_inner; [done|].
  all: apply IH; [|done..]; pose proof (nodes_inner_length _ _ Hn); lia.
Qed.

Lemma check_wrapper_ext p q name args allowlist : (∀ w v, w ∈ args → staticWordValue w = Some v → p v = q v) →
  check_wrapper p name args allowlist = check_wrapper q name args allowlist.
Proof.
  intros Hpq. unfold check_wrapper. destruct (unwrap_env _ _ _) as [[name' args']|] eqn:E; [|done].
  destruct (fetcher name'); [done|]. destruct (is_shell name'); [|done].
  destruct (dash_c args') as [[w|]|] eqn:Hd; try done. destruct (staticWordValue w) as [v|] eqn:Hv; [|done].
  apply dash_c_in in Hd as [Hw _]. apply (Hpq w); [by eapply unwrap_env_in|done].
Qed.

Lemma check_enough n m command allowlist : (List.length command < n)%nat → (List.length command < m)%nat →
  check_url_allowlist n command allowlist = check_url_allowlist m command allowlist.
Proof.
  revert m command. induction n as [|n IH]; intros [|m] command Hn Hm; [lia..|].
  cbn [check_url_allowlist]. destruct allowlist as [|e es]; [done|].
  destruct (syntax_Parse command) as [f|] eqn:Hf; [|done]. apply first_err_ext. intros x Hx.
  assert (∀ y, (∀ z, z ∈ nodes y → z ∈ nodes f) → has_curl (S n) y = has_curl (S m) y) as Huse.
  { intros y Hy. eapply has_curl_enough; [done|done|lia..]. }
  destruct x as [[|w args] inner| |op l y|rs inner|]; try done; cbn [url_visit].
  - destruct (staticWordValue w) as [head|]; [|done]. apply check_wrapper_ext. intros w' v Hw' Hv.
    assert (List.length v < List.length command)%nat.
    { eapply word_shorter; [done|done| |by right|done]. destruct args; [by apply elem_of_nil in Hw'|simpl; lia]. }
    apply IH; lia.
  - rewrite Huse; [done|]. intros z Hz. eapply nodes_trans; [done|]. cbn [nodes]. right. apply elem_of_app. by right.
  - rewrite Huse; [done|]. intros z Hz. by eapply nodes_trans.
Qed.
End nesting.

(** ** What curl reads

    The options of curl and wget on the values of the words, as their manuals
    describe them: a word that starts with a dash is a cluster of short options
    or a long one, an option takes the rest of its word or the next word, and
    what is left is a URL. *)

(** The value of a word, or the literal it starts with when the rest is not fixed. *)
Inductive arg := Known (v : bytes) | Starts (v : bytes).

Definition shape (w : word) : arg :=
  match staticWordValue w with Some v => Known v | None => Starts (default [] (firstLit w)) end.

#[local] Arguments shape : simpl never.

(** Whether a cluster takes the next word as an argument. *)
Fixpoint read_short (curl : bool) (rs : bytes) : option bool :=
  match rs with
  | [] => Some false
  | r :: rest =>
      match short_kind curl r with
      | TakesArg => Some (bool_decide (rest = []))
      | Flag => read_short curl rest
      | _ => None
      end
  end.

(** Whether a cluster takes what is left of its word, which is not empty, as an
    argument. *)
Fixpoint takes_rest (curl : bool) (rs : bytes) : bool :=
  match rs with
  | [] => false
  | r :: rest =>
      match short_kind curl r with TakesArg => negb (bool_decide (rest = [])) | Flag => takes_rest curl rest | _ => false end
  end.

Fixpoint reads (curl : bool) (args : list arg) : option (list arg) :=
  match args with
  | [] => Some []
  | Known v :: rest =>
      if negb (is_option v) then cons (Known v) <$> reads curl rest
      else if bool_decide (v = s2b "--") then Some rest
      else if HasPrefix v (s2b "--") then
        let '(name, value) := Cut v "="%char in
        match long_kind curl name, value with
        | TakesArg, None =>
            match rest with
            | [] => None
            | u :: rest => (if bool_decide (name = url_opt) then cons u else id) <$> reads curl rest
            end
        | TakesArg, Some x =>
            (if curl && bool_decide (name = url_opt) then cons (Known x) else id) <$> reads curl rest
        | Flag, None => reads curl rest
        | _, _ => None
        end
      else
        match read_short curl (drop 1 v) with
        | Some true => match rest with [] => None | _ :: rest => reads curl rest end
        | Some false => reads curl rest
        | None => None
        end
  | Starts v :: rest =>
      if negb (is_option v) then cons (Starts v) <$> reads curl rest
      else if HasPrefix v (s2b "--") then
        let '(name, value) := Cut v "="%char in
        match long_kind curl name, value with
        | TakesArg, Some _ => if bool_decide (name = url_opt) then None else reads curl rest
        | _, _ => None
        end
      else if takes_rest curl (drop 1 v) then reads curl rest else None
  end.

(** An option is written as one literal, unless what follows belongs to an
    argument that has begun. *)
Definition whole (curl : bool) (w : word) : bool :=
  match w with
  | [Lit _] => true
  | Lit v :: _ => negb (is_option v)
      || (HasPrefix v (s2b "--") && bool_decide ("="%char ∈ v))
      || (negb (HasPrefix v (s2b "--")) && takes_rest curl (drop 1 (default v (staticWordValue w))))
  | _ => true
  end.

(** What is read after an option that may wait for the next word. *)
Definition reads_after (curl : bool) (e : option bytes) (rest : list arg) : option (list arg) :=
  match e with
  | None => reads curl rest
  | Some o =>
      match rest with
      | [] => None
      | u :: rest => (if bool_decide (o = url_opt) then cons u else id) <$> reads curl rest
      end
  end.

Lemma Cut_app a b c n x : Cut a c = (n, Some x) → Cut (a ++ b) c = (n, Some (x ++ b)).
Proof.
  revert n x. induction a as [|d a IH]; intros n x; simpl; [done|]. case_bool_decide; [by intros [= <- <-]|].
  destruct (Cut a c) as [m [y|]]; [|done]. intros [= <- <-]. by rewrite (IH m y).
Qed.

Lemma Cut_Some a c n x : Cut a c = (n, Some x) → a = n ++ c :: x.
Proof.
  revert n x. induction a as [|d a IH]; intros n x; simpl; [done|]. case_bool_decide; [by intros [= <- <-]; subst|].
  destruct (Cut a c) as [m y]. intros [= <- ->]. by rewrite (IH m x) at 1.
Qed.

Lemma Cut_in a c : c ∈ a → ∃ n x, Cut a c = (n, Some x).
Proof.
  induction a as [|d a IH]; simpl; [by intros ?%elem_of_nil|]. case_bool_decide as E; [by eexists _, _|].
  intros [<-|Hc]%elem_of_cons; [done|]. destruct (IH Hc) as (n&x&->). by eexists _, _.
Qed.

Lemma static_cons p w v : staticWordValue (p :: w) = Some v →
  ∃ a b, static_part p = Some a ∧ staticWordValue w = Some b ∧ v = a ++ b.
Proof.
  unfold staticWordValue. simpl. destruct (static_part p) as [a|]; simpl; [|done].
  destruct (mapM static_part w) as [l|]; simpl; [|done]. intros [= <-]. by exists a, (mjoin l).
Qed.

Lemma dashes_app v b : HasPrefix v (s2b "--") = true → v ≠ s2b "--" →
  HasPrefix (v ++ b) (s2b "--") = true ∧ is_option (v ++ b) = true ∧ v ++ b ≠ s2b "--".
Proof.
  intros [r ->]%HasPrefix_spec Hne. destruct r as [|c r]; [by rewrite app_nil_r in Hne|].
  rewrite <- app_assoc. split_and!; [apply HasPrefix_spec; eauto| |done].
  unfold is_option. rewrite bool_decide_eq_false_2, andb_true_r by done. apply HasPrefix_spec. by eexists (s2b "-" ++ _).
Qed.

Lemma fmap_app_nil (o : option (list arg)) : app (Known <$> []) <$> o = o.
Proof. by destruct o. Qed.

Lemma fmap_app_one x (o : option (list arg)) : app (Known <$> [x]) <$> o = cons (Known x) <$> o.
Proof. by destruct o. Qed.

Lemma fmap_id_option {A} (o : option A) : id <$> o = o.
Proof. by destruct o. Qed.

(** A long option is read by its word alone, whatever follows. *)
Lemma long_reads curl w val l e rest : long_option curl w val = Ok (l, e) → firstLit w = Some val → whole curl w = true →
  is_option val = true → val ≠ s2b "--" → HasPrefix val (s2b "--") = true →
  reads curl (shape w :: rest) = app (Known <$> l) <$> reads_after curl e rest.
Proof.
  intros Hl Hf Hw Ho Hne Hp. destruct w as [|[v| | |] w]; try done. injection Hf as ->.
  unfold long_option in Hl. destruct (Cut val "="%char) as [n [x|]] eqn:Hc.
  - pose proof (Cut_Some _ _ _ _ Hc) as Hval. unfold shape. destruct (staticWordValue (Lit val :: w)) as [v|] eqn:Hsv.
    + destruct (static_cons _ _ _ Hsv) as (a&b&[= <-]&_&->). destruct (dashes_app val b Hp Hne) as (Hp'&Ho'&Hne').
      pose proof (Cut_app _ b _ _ _ Hc) as Hc'.
      cbn [reads]. rewrite Ho', bool_decide_eq_false_2, Hp', Hc' by done. cbn [negb].
      assert (drop (S (List.length n)) (val ++ b) = x ++ b) as Hd.
      { rewrite Hval, <- app_assoc. change (n ++ _) with (n ++ ["="%char] ++ (x ++ b)). rewrite app_assoc.
        apply drop_app_length'. rewrite length_app. simpl. lia. }
      rewrite Hd in Hl. destruct (bool_decide (n = url_opt)), curl, (long_kind _ n);
        simpl in Hl; try done; injection Hl as <- <-; cbn [andb reads_after];
        by rewrite ?fmap_app_nil, ?fmap_id_option, ?fmap_app_one.
    + cbn [reads firstLit default from_option id]. rewrite Ho, Hp, Hc. cbn [negb].
      destruct (bool_decide (n = url_opt)), (long_kind curl n); simpl in Hl; try done;
        injection Hl as <- <-; by rewrite andb_false_r, fmap_app_nil.
  - destruct w as [|p w]; [|done]. unfold shape. change (staticWordValue [Lit val]) with (Some (mjoin [val])).
    change (mjoin [val]) with (val ++ []). rewrite app_nil_r.
    cbn [reads]. rewrite Ho, bool_decide_eq_false_2, Hp, Hc by done. cbn [negb].
    destruct (long_kind curl n); simpl in Hl; try done; injection Hl as <- <-; by rewrite fmap_app_nil.
Qed.

(** What the code makes of a cluster, and what is read. *)
Lemma short_options_reads curl rs e : short_options curl false rs = Ok e →
  read_short curl rs = Some (bool_decide (is_Some e)) ∧ e ≠ Some url_opt.
Proof.
  induction rs as [|r rs IH]; simpl; [by intros [= <-]|]. destruct (short_kind curl r); try done.
  destruct rs as [|r' rs]; intros [= <-]; [|done]. split; [done|]. by intros [=].
Qed.

Lemma short_options_more curl rs e : short_options curl true rs = Ok e → e = None.
Proof.
  induction rs as [|r rs IH]; simpl; [by intros [= <-]|]. destruct (short_kind curl r); try done.
  by destruct rs; intros [= <-].
Qed.

Lemma takes_rest_reads curl rs : takes_rest curl rs = true → read_short curl rs = Some false.
Proof.
  induction rs as [|r rs IH]; simpl; [done|]. destruct (short_kind curl r); try done. by case_bool_decide.
Qed.

Lemma short_reads curl w val e rest : short_options curl (negb (List.length w =? 1)%nat) (drop 1 val) = Ok e →
  firstLit w = Some val → whole curl w = true → is_option val = true → HasPrefix val (s2b "--") = false →
  reads curl (shape w :: rest) = reads_after curl e rest.
Proof.
  intros Hs Hf Hw Ho Hp. destruct w as [|[v| | |] w]; try done. injection Hf as ->. destruct w as [|p w].
  - apply short_options_reads in Hs as [Hs He]. unfold shape. change (staticWordValue [Lit val]) with (Some (mjoin [val])).
    change (mjoin [val]) with (val ++ []). rewrite app_nil_r.
    cbn [reads]. rewrite Ho, Hp, Hs. cbn [negb]. rewrite bool_decide_eq_false_2 by (intros ->; done).
    destruct e as [o|]; simpl; [|done]. destruct rest as [|x rest]; [done|]. rewrite bool_decide_eq_false_2 by congruence.
    by rewrite fmap_id_option.
  - apply short_options_more in Hs as ->. cbn [whole] in Hw. rewrite Ho, Hp in Hw. simpl in Hw.
    unfold shape. destruct (staticWordValue (Lit val :: p :: w)) as [v|] eqn:Hsv; cbn [default from_option id] in Hw.
    + destruct (static_cons _ _ _ Hsv) as (a&b&[= <-]&_&->).
      unfold is_option in Ho. apply andb_true_iff in Ho as [[r ->]%HasPrefix_spec Hne%negb_true_iff%bool_decide_eq_false].
      destruct r as [|c r]; [by rewrite app_nil_r in Hne|].
      assert (HasPrefix ((s2b "-" ++ c :: r) ++ b) (s2b "--") = false) as Hp'.
      { apply not_true_iff_false. apply not_true_iff_false in Hp. intros [x [= -> Hx]]%HasPrefix_spec. apply Hp.
        apply HasPrefix_spec. by exists r. }
      cbn [reads]. rewrite Hp', (takes_rest_reads _ _ Hw). unfold is_option.
      rewrite bool_decide_eq_false_2, bool_decide_eq_false_2 by (intros [=]; by subst).
      rewrite (proj2 (HasPrefix_spec _ (s2b "-"))) by by eexists. done.
    + cbn [reads firstLit default from_option id]. rewrite Ho, Hp, Hw. done.
Qed.

Lemma shape_static w v : staticWordValue w = Some v → shape w = Known v.
Proof. unfold shape. by intros ->. Qed.

(** Once only URLs are left, each word is one. *)
Lemma positional_reads curl args us : parse_urls curl None true args = Ok us → shape <$> args = Known <$> us.
Proof.
  revert us. induction args as [|w args IH]; intros us; cbn [parse_urls]; [by intros [= <-]|].
  unfold static_url. destruct (staticWordValue w) as [v|] eqn:Hs; [|done]. simpl.
  destruct (parse_urls curl None true args) as [us'|]; [|done]. intros [= <-].
  apply (f_equal2 cons); [by apply shape_static|by apply IH].
Qed.

Lemma parse_reads curl args us : parse_urls curl None false args = Ok us → Forall (λ w, whole curl w = true) args →
  (∀ u, u ∈ us → is_option u = false) → reads curl (shape <$> args) = Some (Known <$> us).
Proof.
  revert us. induction args as [args IH] using (induction_ltof1 _ (@List.length word)). unfold ltof in IH. intros us.
  destruct args as [|w args]; [by intros [= <-]|]. cbn [parse_urls List.length] in *.
  intros Hp [Hw Hall]%Forall_cons Hus. rewrite fmap_cons.
  assert (∀ e us', parse_urls curl e false args = Ok us' → (∀ u, u ∈ us' → is_option u = false) →
    reads_after curl e (shape <$> args) = Some (Known <$> us')) as Hafter.
  { intros [o|] us' Hp' Hus'; [|by apply IH; [lia|..]].
    destruct args as [|u args]; [done|]. cbn [parse_urls] in Hp'. apply Forall_cons in Hall as [_ Hall].
    rewrite fmap_cons. cbn [reads_after]. case_bool_decide as Ho.
    - unfold static_url in Hp'. destruct (staticWordValue u) as [v|] eqn:Hs; [|done]. simpl in Hp'.
      rewrite (shape_static _ _ Hs).
      destruct (parse_urls curl None false args) as [us''|] eqn:Hr; [|done]. injection Hp' as <-.
      rewrite (IH args ltac:(simpl; lia) us'' Hr Hall); [done|]. intros x Hx. apply Hus'. by right.
    - rewrite (IH args ltac:(simpl; lia) us' Hp' Hall Hus'). by destruct us'. }
  assert ((let? v := static_url w in let? us := parse_urls curl None false args in Ok (v :: us)) = Ok us →
    reads curl (shape w :: (shape <$> args)) = Some (Known <$> us)) as Hpos.
  { unfold static_url. destruct (staticWordValue w) as [v|] eqn:Hs; [|done]. simpl. rewrite (shape_static _ _ Hs).
    destruct (parse_urls curl None false args) as [us'|] eqn:Hr; [|done]. intros [= <-].
    assert (is_option v = false) as Hv by by apply Hus; left. cbn [reads]. rewrite Hv. cbn [negb].
    change (reads curl (shape <$> args)) with (reads_after curl None (shape <$> args)).
    rewrite (Hafter None us' Hr); [done|]. intros x Hx. apply Hus. by right. }
  destruct (firstLit w) as [val|] eqn:Hf; [|by apply Hpos].
  destruct (is_option val) eqn:Ho; cbn [negb] in Hp; [|by apply Hpos].
  case_bool_decide as Hd.
  - subst val. apply positional_reads in Hp. destruct w as [|[v| | |] [|p w]]; try done; [injection Hf as ->; simpl|].
    + by rewrite Hp.
    + injection Hf as ->. done.
  - destruct (HasPrefix val (s2b "--")) eqn:Hpre.
    + destruct (long_option curl w val) as [[l e]|] eqn:Hl; [|done]. simpl in Hp.
      destruct (parse_urls curl e false args) as [us'|] eqn:Hr; [|done]. injection Hp as <-.
      rewrite (long_reads _ _ _ _ _ _ Hl Hf Hw Ho Hd Hpre), (Hafter e us' Hr); [|intros u Hu; apply Hus, elem_of_app; by right].
      simpl. by rewrite fmap_app.
    + destruct (short_options _ _ _) as [e|] eqn:Hs; [|done]. simpl in Hp.
      by rewrite (short_reads _ _ _ _ _ Hs Hf Hw Ho Hpre), (Hafter e us Hp).
Qed.

(** ** URLs that start with a dash *)

Section dash.
Context `{GoURL}.

Lemma parse_rest_scheme scheme rest u : parse_rest scheme rest = Some u → u_Scheme u = scheme.
Proof.
  unfold parse_rest. destruct (Cut rest "?"%char) as [r q]. destruct (_ && _); [by intros [= <-]|].
  destruct (_ && _); [done|]. destruct (_ && _).
  - destruct (Cut (drop 2 r) "/"%char) as [a p]. destruct (parseAuthority a); simpl; [|done].
    destruct (unescape _ _); simpl; [|done]. by intros [= <-].
  - destruct (unescape _ _); simpl; [|done]. by intros [= <-].
Qed.

Lemma dash_no_scheme v u : HasPrefix v (s2b "-") = true → url_Parse v = Some u → u_Scheme u = [].
Proof.
  intros [r ->]%HasPrefix_spec. unfold url_Parse. simpl (s2b "-" ++ r). cbn [Cut].
  rewrite bool_decide_eq_false_2 by done. destruct (Cut r "#"%char) as [a b].
  destruct (existsb ctl_byte _); simpl; [done|]. destruct (parse_rest _ _) as [u'|] eqn:Hr; simpl; [|done].
  destruct (unescape _ _); simpl; [|done]. intros [= <-]. by apply parse_rest_scheme in Hr.
Qed.
End dash.

(** ** Properties *)

Section properties.
Context `{ShellLaws} `{GoURLLaws}.

Definition web_entries (allowlist : list bytes) : Prop :=
  ∀ e u, e ∈ allowlist → url_Parse e = Some u → u_Scheme u = s2b "http" ∨ u_Scheme u = s2b "https".

Lemma urls_read name args allowlist us :
  parseCommandURLs name args = Ok us → web_entries allowlist →
  (∀ u, u ∈ us → ∃ e, e ∈ allowlist ∧ urlMatches u e = true) →
  Forall (λ w, whole (bool_decide (name = curl_name)) w = true) args →
  reads (bool_decide (name = curl_name)) (shape <$> args) = Some (Known <$> us).
Proof.
  intros Hp Hsch Hus Hw. apply parse_reads; [done..|]. intros u Hu. apply not_true_iff_false. intros [Hd _]%andb_true_iff.
  destruct (Hus u Hu) as (e&He&Hm). unfold urlMatches in Hm. destruct (url_Parse u) as [t|] eqn:Ht; [|done].
  destruct (url_Parse e) as [x|] eqn:Hx; [|done]. apply andb_true_iff in Hm as [[Hm%bool_decide_eq_true _]%andb_true_iff _].
  rewrite (dash_no_scheme _ _ Hd Ht) in Hm. by destruct (Hsch e x He Hx) as [E|E]; rewrite E, !ToLower_ascii in Hm.
Qed.

End properties.

(** ** Witnesses *)

(** A parser that knows the commands of a list. *)
Definition table_shell (t : list (bytes * node)) : Shell := λ c, snd <$> find (λ e, bool_decide (e.1 = c)) t.

Definition dq_word (s : string) : word_part := DblQuoted [Some (s2b s)].
Definition call_of (args : list word) : node := Inner [Stmt [] [CallExpr args []]].

Definition fetch_args : list word :=
  [lit "-sL"; [Lit (s2b "-H"); dq_word "A: b"]; lit "-o"; lit "http://evil"; [Lit (s2b "--url="); dq_word "https://ok/a"];
   lit "--"; [SglQuoted (s2b "HTTPS://ok/b")]].

(** A shell behind [env], its script a call of curl. *)
Definition fetch_script : bytes := s2b "curl -sL -H'A: b' -o http://evil --url='https://ok/a' -- HTTPS://ok/b".
Definition fetch_command : bytes := s2b "env X=1 bash -c " ++ ["034"%char] ++ fetch_script ++ ["034"%char].
Definition fetch_words : list word := [lit "env"; lit "X=1"; lit "bash"; lit "-c"; [SglQuoted fetch_script]].
Definition fetch_call : node := CallExpr (lit "curl" :: fetch_args) [].
Definition fetch_table : list (bytes * node) :=
  [(fetch_command, call_of fetch_words); (fetch_script, Inner [Stmt [] [fetch_call]])].
#[local] Instance fetch_shell : Shell := table_shell fetch_table.
#[local] Instance plain_url : GoURL := {| bracket_host _ := None; ToLower s := ascii_lower <$> s |}.

Definition short_words (command : bytes) (n : node) : bool :=
  match n with
  | CallExpr args _ =>
      (List.length args <? 2)%nat
      || forallb (λ w, match staticWordValue w with
                       | Some v => (List.length v <? List.length command)%nat
                       | None => true end) args
  | _ => true
  end.

Lemma forallb_elem {A} (p : A → bool) l x : forallb p l = true → In x l → p x = true.
Proof. rewrite forallb_forall. auto. Qed.

Lemma table_laws t : forallb (λ e, forallb (short_words e.1) (nodes e.2)) t = true → @ShellLaws (table_shell t).
Proof.
  intros Ht. split. intros command f args inner w v Hf Hc Hl Hw Hv.
  unfold syntax_Parse, table_shell in Hf. destruct (find _ t) as [e|] eqn:He; [|done]. injection Hf as <-.
  apply find_some in He as [Hin <-%bool_decide_eq_true].
  apply (forallb_elem _ _ _ Ht) in Hin. apply list_elem_of_In in Hc, Hw.
  apply (forallb_elem _ _ _ Hin), orb_true_iff in Hc as [Hc%Nat.ltb_lt|Hc]; [lia|].
  apply (forallb_elem _ _ _ Hc) in Hw. rewrite Hv in Hw. by apply Nat.ltb_lt.
Qed.

#[local] Instance fetch_laws : @ShellLaws fetch_shell.
Proof. apply table_laws. by vm_compute. Defined.

#[local] Instance plain_url_laws : @GoURLLaws plain_url.
Proof. by split. Defined.

Lemma fetch_reached : reach (call_of fetch_words) fetch_call.
Proof.
  eapply (reach_script _ fetch_words [] 1 (s2b "bash")).
  - right; right; left.
  - apply starts_env with (s2b "env") [lit "bash"; lit "-c"; [SglQuoted fetch_script]]; [done|done| |].
    + apply env_assign with (s2b "X=1"); [done|exact (bool_decide_eq_true_1 ("="%char ∈ s2b "X=1") eq_refl)|].
      apply env_command with (s2b "bash"); [done|done|exact (bool_decide_eq_false_1 ("="%char ∈ s2b "bash") eq_refl)|done].
    + apply (starts_here _ (s2b "bash")). done.
  - done.
  - apply shell_script; done.
  - by vm_compute.
  - apply reach_here. right; right; left.
Defined.


(** ** Around the check

    Commands that pass and fetch from elsewhere. *)

Definition ok_only : list bytes := [s2b "https://ok/api"].

(** The text after a literal of flags is not read: [-s"xhttp://evil"] is the
    forbidden option [-x]. *)
Lemma quoted_cluster_escapes :
  checkDirectCurlOrWget curl_name [[Lit (s2b "-s"); dq_word "xhttp://evil"]; lit "https://ok/api"] ok_only = None
  ∧ reads true (shape <$> [[Lit (s2b "-s"); dq_word "xhttp://evil"]; lit "https://ok/api"]) = None.
Proof. split; by vm_compute. Qed.

(** An empty attached argument: curl takes the next word for it and reads the one
    after that as a URL. *)
Definition empty_attached : list word :=
  [[Lit (s2b "-d"); dq_word ""]; lit "-o"; lit "http://evil"; lit "https://ok/api"].
Lemma empty_argument_escapes :
  checkDirectCurlOrWget curl_name empty_attached ok_only = None
  ∧ reads true (shape <$> empty_attached) = Some [Known (s2b "http://evil"); Known (s2b "https://ok/api")].
Proof. split; by vm_compute. Qed.

(** [env -C dir curl …] and [env -S 'curl …']: the directory, or the whole
    command line, is taken for the command [env] runs; a script file passes for a
    [-c] script when [-c] is one of its arguments; and an option after [-c] passes
    for the script, which is the word after it. *)
Lemma wrappers_escape check_script :
  check_wrapper check_script (s2b "env") [lit "-C"; lit "dir"; lit "curl"; lit "http://evil"] ok_only = None
  ∧ check_wrapper check_script (s2b "env") [lit "-S"; [SglQuoted (s2b "curl http://evil")]] ok_only = None
  ∧ check_wrapper check_script (s2b "bash") [lit "fetch.sh"; lit "-c"; lit "true"] ok_only = check_script (s2b "true")
  ∧ check_wrapper check_script (s2b "bash") [lit "-c"; lit "-x"; [SglQuoted (s2b "curl http://evil")]] ok_only
      = check_script (s2b "-x").
Proof. split_and!; by vm_compute. Qed.

(** At the end of a pipe one [env] is looked through, not two. *)
Lemma pipe_looks_through_one_env scripts args inner :
  curl_call scripts (CallExpr (lit "env" :: lit "curl" :: args) inner) = true
  ∧ curl_call scripts (CallExpr (lit "env" :: lit "env" :: lit "curl" :: args) inner) = false.
Proof. by split. Qed.

(** A path prefix is compared before the path is normalised. *)
Lemma path_prefix_escapes : urlMatches (s2b "https://ok/api/../admin") (s2b "https://ok/api") = true
  ∧ urlMatches (s2b "https://ok/api/%2e%2e/admin") (s2b "https://ok/api") = true.
Proof. split; by vm_compute. Qed.
