(* ===== verification/Bash.v ===== *)
(** The bash tool, [newBashWithConfig] of [llm/internal/builtin/bash.go]: from the
    JSON text of its arguments through the checks of the command to the command
    itself and the text the model is given.

    [bash_runs_cleared] is what holds of every command that is started. *)
From S2P Require Import Prelude Json GoText Text Event Bundle Plan Record Path Os Tree Workspace Excerpt Policy Shell Url UrlAllowlist.

(** ** Arguments and results *)

Record bash_args := mkBashArgs { b_Command : bytes; b_TimeoutSeconds : Z; b_LongRunning : bool; b_OutputFile : bytes }.

Definition bash_field (k raw : bytes) (a : bash_args) : option bash_args :=
  let '(mkBashArgs c t l o) := a in
  if field_is "command" k then x ← decode_str c raw; Some (mkBashArgs x t l o)
  else if field_is "timeout_seconds" k then x ← decode_i64 t raw; Some (mkBashArgs c x l o)
  else if field_is "long_running" k then x ← decode_bool l raw; Some (mkBashArgs c t x o)
  else if field_is "output_file" k then x ← decode_str o raw; Some (mkBashArgs c t l x)
  else Some a.

Inductive bash_err :=
| ErrBashArguments
| ErrBashCommand
| ErrBashTimeout
| ErrBashShell (e : shell_err)
| ErrBashURL (e : url_err)
| ErrBashPolicy (e : policy_err)
| ErrBashPath (e : ws_err)
| ErrBashSystem (e : os_err)
| ErrTimedOut (after : option Z)
| ErrBashRun (msg : bytes).

(** The configuration, whose command policies an approval may change, and the
    decision recorded in the context. *)
Record bash_state := mkBashState { bs_config : config; bs_recorded : option Decision }.

Definition set_command_policies (ps : list BashCommandPolicy) (c : config) : config :=
  mkConfig (cf_bashAllowlist c) (cf_bashAllowlistDisabled c) (cf_bashURLAllowlist c) ps.

(** The output, which is there even with an error, and the state after. *)
Abbreviation bash_prog := (prog ((bytes * option bash_err) * bash_state)).

Definition refuse (e : bash_err) (st : bash_state) : bash_prog := Ret (([], Some e), st).

(** ** Running *)

Definition second : Z := 1000000000.
Definition bashDefaultTimeout : Z := 60 * second.
Definition bashMaxOutputBytes : Z := 16 * 1024.

(** Nanoseconds; the product of durations wraps around. *)
Definition time_limit (a : bash_args) : option Z :=
  if b_LongRunning a then None
  else Some (if 0 <? b_TimeoutSeconds a then i64 (b_TimeoutSeconds a * second) else bashDefaultTimeout).

Definition truncation_notice (total : Z) : bytes :=
  newline :: s2b "... (output truncated, " ++ dec total ++ s2b " bytes total)".

Definition truncateOutput (out : bytes) (max : Z) : bytes :=
  if Z.of_nat (List.length out) <=? max then out
  else take (Z.to_nat max) out ++ truncation_notice (Z.of_nat (List.length out)).

(** How a run that ended is reported. *)
Definition run_error (a : bash_args) (r : command_result) : option bash_err :=
  if rn_late r then Some (ErrTimedOut (time_limit a)) else ErrBashRun <$> rn_err r.

Definition runBashBuffered (w : workspaceRoot) (a : bash_args) : prog (bytes * option bash_err) :=
  ask (Run (w_tempRoot w) (b_Command a) (time_limit a) None) ≫= λ r,
  Ret (truncateOutput (rn_out r) bashMaxOutputBytes, run_error a r).

Definition stream_summary (outputFile : bytes) (size : Z) : bytes :=
  s2b "streamed output to " ++ outputFile ++ s2b " (" ++ dec size ++ s2b " bytes)".

Definition runBashToFile (w : workspaceRoot) (a : bash_args) : prog (bytes * option bash_err) :=
  ResolvePath (Some w) (b_OutputFile a) ≫= λ r,
  match r with
  | Err e => Ret ([], Some (ErrBashPath e))
  | Ok p =>
      ask (MkdirAll (Dir p)) ≫= λ r,
      match r with
      | Err e => Ret ([], Some (ErrBashSystem e))
      | Ok _ =>
          ask (Create p) ≫= λ r,
          match r with
          | Err e => Ret ([], Some (ErrBashSystem e))
          | Ok _ =>
              ask (Run (w_tempRoot w) (b_Command a) (time_limit a) (Some p)) ≫= λ r,
              ask (FileSize p) ≫= λ size,
              ask (CloseFile p) ≫= λ _,
              Ret (stream_summary (b_OutputFile a) (match size with Ok n => n | Err _ => 0 end), run_error a r)
          end
      end
  end.

(** ** The gate of the command policies *)

Definition relax (i : nat) (ps : list BashCommandPolicy) : list BashCommandPolicy :=
  alter (λ p, mkBashPolicy (bp_Command p) (bp_ArgsPrefix p) ExecPolicyPassby) i ps.

Definition record_decision (d : Decision) (st : bash_state) : bash_state := mkBashState (bs_config st) (Some d).

(** What is asked of the approver for a match. *)
Definition match_request (m : bash_match) : ApprovalRequest :=
  let d := match_decision m in mkRequest [] [] [] (d_Capability d) (d_Policy d) (d_Reason d).

Definition gate (ctx : call_ctx) (matched : option bash_match) (st : bash_state) : option bash_err * bash_state :=
  match matched with
  | None => (None, st)
  | Some m =>
      let d := match_decision m in
      if bool_decide (d_Policy d = ExecPolicyOff) then
        (Some (ErrBashPolicy (DisabledError (d_Capability d) (d_Reason d))), record_decision d st)
      else if bool_decide (d_Policy d = ExecPolicyNeedApprove) then
        let '(resp, err) := RequestApproval ctx (match_request m) in
        let st := record_decision
          (mkDecision (d_Capability d) (d_Policy d) (d_Reason d) (as_Outcome resp) (as_Reason resp)) st in
        match err with
        | Some e => (Some (ErrBashPolicy e), st)
        | None =>
            if bool_decide (as_Outcome resp = ApprovalOutcomeApproveForSession) then
              (None, mkBashState (set_command_policies (relax (bm_index m) (cf_BashCommandPolicies (bs_config st)))
                                    (bs_config st)) (bs_recorded st))
            else (None, st)
        end
      else (None, record_decision d st)
  end.

Section bash.
Context `{Shell} `{GoURL}.

Definition bash (w : workspaceRoot) (ctx : call_ctx) (arguments : bytes) (st : bash_state) : bash_prog :=
  match decode_struct bash_field (mkBashArgs [] 0 false []) arguments with
  | None => refuse ErrBashArguments st
  | Some a =>
      let command := b_Command a in
      if is_empty (TrimSpace command) then refuse ErrBashCommand st
      else if b_TimeoutSeconds a <? 0 then refuse ErrBashTimeout st
      else
        match match resolveAllowlist (bs_config st) with None => None | Some l => checkAllowlist command l end with
        | Some e => refuse (ErrBashShell e) st
        | None =>
            checkRedirections command w ≫= λ r,
            match r with
            | Some e => refuse (ErrBashShell e) st
            | None =>
                match checkURLAllowlist command (cf_bashURLAllowlist (bs_config st)) with
                | Some e => refuse (ErrBashURL e) st
                | None =>
                    match classifyBashCommandPolicy command (cf_BashCommandPolicies (bs_config st)) with
                    | Err e => refuse (ErrBashShell e) st
                    | Ok matched =>
                        match gate ctx matched st with
                        | (Some e, st) => refuse e st
                        | (None, st) =>
                            (if negb (is_empty (b_OutputFile a)) then runBashToFile w a else runBashBuffered w a)
                            ≫= λ r, Ret (r, st)
                        end
                    end
                end
            end
        end
  end.
End bash.

(** ** What is cleared *)

Section cleared.
Context `{FileSystemLaws W} `{Shell} `{GoURL}.

(** The approver agrees to a match. *)
Definition match_approved (ctx : call_ctx) (m : bash_match) : Prop := (RequestApproval ctx (match_request m)).2 = None.

(** Every match is allowed to run, or one that is as strict was approved. *)
Definition policies_clear (ctx : call_ctx) (command : bytes) (ps : list BashCommandPolicy) : Prop :=
  ps = [] ∨ ∃ f, syntax_Parse command = Some f ∧ ∀ m, falls_under f ps m →
    bm_effective m ≠ ExecPolicyOff
    ∧ (bm_effective m = ExecPolicyNeedApprove → ∃ m', falls_under f ps m'
         ∧ bm_effective m' = ExecPolicyNeedApprove ∧ match_approved ctx m').

Record cleared (w : workspaceRoot) (s : W) (ctx : call_ctx) (cf : config) (command : bytes) : Prop := {
  cl_heads l : resolveAllowlist cf = Some l → ∃ f, syntax_Parse command = Some f ∧
    ∀ v vs inner, CallExpr (v :: vs) inner ∈ nodes f → ∃ head, staticWordValue v = Some head ∧ Base head ∈ l;
  cl_redirects : ∃ f, syntax_Parse command = Some f ∧ ∀ op target inner, Redirect op target inner ∈ nodes f →
    isHeredocRedirect op = false → ∃ t name p, target = Some t ∧ staticWordValue t = Some name
      ∧ (exec (ResolvePath (Some w) name) s).1 = Ok p ∧ inside w s p;
  cl_urls : cf_bashURLAllowlist cf ≠ [] → url_ok (cf_bashURLAllowlist cf) command;
  cl_policies : policies_clear ctx command (cf_BashCommandPolicies cf) }.

Lemma rank_off p : bashCommandPolicyRank p = 2 → p = ExecPolicyOff.
Proof. unfold bashCommandPolicyRank. by repeat case_bool_decide. Qed.

Lemma rank_cases p : bashCommandPolicyRank p = (if bool_decide (p = ExecPolicyOff) then 2
  else if bool_decide (p = ExecPolicyNeedApprove) then 1 else 0).
Proof. done. Qed.

(** A match that is not better than the one picked is no stricter. *)
Lemma not_better_rank m m' : betterBashCommandPolicyMatch m' m = false → bm_rank m' ≤ bm_rank m.
Proof. intros Hb%not_true_iff_false. rewrite better_spec in Hb. lia. Qed.

(** What the gate lets through, and what it does to the configuration. *)
Lemma gate_spec ctx command m st st' :
  classifyBashCommandPolicy command (cf_BashCommandPolicies (bs_config st)) = Ok m → gate ctx m st = (None, st') →
  policies_clear ctx command (cf_BashCommandPolicies (bs_config st))
  ∧ (bs_config st' = bs_config st ∨ ∃ f x, m = Some x ∧ syntax_Parse command = Some f
       ∧ falls_under f (cf_BashCommandPolicies (bs_config st)) x ∧ match_approved ctx x
       ∧ as_Outcome (RequestApproval ctx (match_request x)).1 = ApprovalOutcomeApproveForSession
       ∧ bs_config st' = set_command_policies (relax (bm_index x) (cf_BashCommandPolicies (bs_config st))) (bs_config st)).
Proof.
  intros [[Hps ->]|(f&Hf&Hm)]%policy_is_strictest Hg; [simpl in Hg; injection Hg as <-; by split; [left|left]|].
  destruct m as [m|]; cbn [gate] in Hg.
  2: { injection Hg as <-. split; [|by left]. right. exists f. split; [done|]. intros m Hm'. by destruct (Hm m). }
  destruct Hm as [Hm Hbest]. change (d_Policy (match_decision m)) with (bm_effective m) in Hg.
  assert (∀ m', falls_under f (cf_BashCommandPolicies (bs_config st)) m' → bm_rank m' ≤ bm_rank m) as Hle
    by (intros m' Hm'; by apply not_better_rank, Hbest).
  unfold bm_rank in Hle. setoid_rewrite rank_cases in Hle.
  case_bool_decide as Hoff; [done|]. case_bool_decide as Hneed.
  - destruct (RequestApproval ctx (match_request m)) as [resp [e|]] eqn:Hr; [done|].
    assert (match_approved ctx m) as Ha by by unfold match_approved; rewrite Hr.
    split.
    + right. exists f. split; [done|]. intros m' Hm'. specialize (Hle m' Hm').
      split; [intros E; rewrite bool_decide_eq_true_2 in Hle by done; lia|]. intros _. by exists m.
    + case_bool_decide as Ho; injection Hg as <-; [|by left]. right. exists f, m.
      split_and!; [done..|by rewrite Hr|done].
  - injection Hg as <-. split; [|by left]. right. exists f. split; [done|]. intros m' Hm'. specialize (Hle m' Hm').
    split; intros E; rewrite E in Hle; simpl in Hle; lia.
Qed.
End cleared.

(** ** Properties *)

Section properties.
Context `{FileSystemLaws W} `{Shell} `{GoURL}.

(** The calls the tool makes: besides looking around, it starts the command it was
    given, cleared in the state [s0] of the call, and makes an output file. *)
Definition bash_call (w : workspaceRoot) (ctx : call_ctx) (cf : config) (s0 : W) (arguments : bytes)
  (s : W) (B : Type) (c : call B) : Prop :=
  match c with
  | Run dir command limit out =>
      dir = w_tempRoot w ∧ cleared w s0 ctx cf command
      ∧ (∃ a, decode_struct bash_field (mkBashArgs [] 0 false []) arguments = Some a
           ∧ command = b_Command a ∧ limit = time_limit a)
      ∧ ∀ p, out = Some p → inside w s p
  | MkdirAll d => ∃ p, inside w s p ∧ d = Dir p
  | Create p => inside w s p
  | CloseFile _ => True
  | _ => query c = true
  end.

Lemma query_bash_call w ctx cf s0 arguments s B (c : call B) :
  only_queries s B c → bash_call w ctx cf s0 arguments s B c.
Proof. unfold only_queries. by destruct c. Qed.

Lemma run_wp w ctx cf s0 arguments a s Q : ws_ok w →
  decode_struct bash_field (mkBashArgs [] 0 false []) arguments = Some a → cleared w s0 ctx cf (b_Command a) → (∀ r s', Q r s') →
  wp (bash_call w ctx cf s0 arguments) (if negb (is_empty (b_OutputFile a)) then runBashToFile w a else runBashBuffered w a) s Q.
Proof.
  intros Hw Ha Hc HQ. destruct (is_empty (b_OutputFile a)); cbn [negb].
  { split; [|by apply HQ]. split_and!; [done|done|by exists a|by intros p]. }
  unfold runBashToFile. apply wp_bind. eapply wp_mono; [|eapply wp_weaken, ResolvePath_wp; [apply query_bash_call|done]].
  intros [p|e] s1 [-> Hp]; [|by apply HQ].
  split; [by exists p|]. assert (inside w (after (MkdirAll (Dir p)) s) p) as Hp1.
  { destruct Hp as [Hr Hu]. split; [done|]. by apply linkless_unlinked. }
  cbn [wp prog_bind]. destruct (answer (MkdirAll (Dir p)) s) as [[]|e]; [|by apply HQ].
  split; [done|]. assert (inside w (after (Create p) (after (MkdirAll (Dir p)) s)) p) as Hp2.
  { destruct Hp1 as [Hr Hu]. split; [done|]. by apply linkless_unlinked. }
  cbn [wp prog_bind]. destruct (answer (Create p) _) as [[]|e]; [|by apply HQ].
  split; [split_and!; [done|done|by exists a|by intros q [= <-]]|].
  do 2 (split; [done|]). by apply HQ.
Qed.

(** C27: Whatever the arguments, the state and the operating system answer, a
    command is started by the bash tool only when the program of every simple
    command in it is on the allowlist, every redirection has a fixed target inside
    the workspace, the URL allowlist if there is one is respected, no command
    policy that is off matches, and a match that needs approval was approved. It
    runs in the workspace, its output file inside it; and the policies change only
    by lifting the one that was approved for the session. *)
Theorem bash_runs_cleared (s : W) w ctx arguments st : ws_ok w →
  wp (bash_call w ctx (bs_config st) s arguments) (bash w ctx arguments st) s (λ r _,
    bs_config r.2 = bs_config st ∨ ∃ x, match_approved ctx x
      ∧ as_Outcome (RequestApproval ctx (match_request x)).1 = ApprovalOutcomeApproveForSession
      ∧ cf_BashCommandPolicies (bs_config st) !! bm_index x = Some (bm_policy x)
      ∧ bs_config r.2 = set_command_policies (relax (bm_index x) (cf_BashCommandPolicies (bs_config st))) (bs_config st)).
Proof.
  intros Hw. unfold bash, refuse.
  destruct (decode_struct _ _ _) as [a|] eqn:Ha; [|by left].
  destruct (is_empty _); [by left|]. destruct (_ <? 0); [by left|].
  destruct (match resolveAllowlist (bs_config st) with None => None | Some l => checkAllowlist (b_Command a) l end)
    as [e|] eqn:Hheads; [by left|].
  apply wp_bind. eapply wp_mono; [|eapply wp_weaken, redirections_confined; [apply query_bash_call|done]].
  intros [e|] s1 [-> Hred]; [by left|]. destruct (checkURLAllowlist _ _) as [e|] eqn:Hurl; [by left|].
  destruct (classifyBashCommandPolicy _ _) as [m|e] eqn:Hcl; [|by left].
  destruct (gate ctx m st) as [[e|] st'] eqn:Hg.
  { unfold gate in Hg. destruct m as [m|]; [|done]. case_bool_decide; [injection Hg as <- <-; by left|].
    case_bool_decide; [|done]. destruct (RequestApproval _ _) as [resp [e'|]]; [injection Hg as <- <-; by left|].
    by case_bool_decide. }
  destruct (gate_spec _ _ _ _ _ Hcl Hg) as [Hpol Hst]. apply wp_bind. eapply run_wp; [done|done| |].
  - split; [|by apply Hred| |done].
    + intros l Hl. rewrite Hl in Hheads. by apply allowlist_decides in Hheads.
    + intros Hne. by eapply check_url_ok.
  - intros r s2. destruct Hst as [?|(f&x&_&_&(?&?&?&?&_&_&Hi&_&_)&Hx)]; [by left|right; exists x; naive_solver].
Qed.
End properties.

(** ** Witness *)

#[local] Instance no_url : GoURL := {| bracket_host _ := None; ToLower s := s |}.
#[local] Instance sample_shell : Shell := λ c, if bool_decide (c = sample_command) then Some sample_node else None.

Definition sample_config : config := mkConfig None false [] push_policies.
Definition sample_arguments : bytes :=
  s2b "{" ++ dq :: s2b "command" ++ dq :: s2b ":" ++ dq :: sample_command ++ dq :: s2b "}".
Definition approve_session : call_ctx := ask_user ApprovalOutcomeApproveForSession.

(** [git push] is approved for the session, runs, and is free from then on. *)
Lemma bash_runs_cleared_witness :
  (exec (bash sample_ws approve_session sample_arguments (mkBashState sample_config None)) sample_tree).1.1
    = (sample_command, None)
  ∧ wp (bash_call sample_ws approve_session sample_config sample_tree sample_arguments)
      (bash sample_ws approve_session sample_arguments (mkBashState sample_config None)) sample_tree (λ r _,
        bs_config r.2 = sample_config ∨ ∃ x, match_approved approve_session x
          ∧ as_Outcome (RequestApproval approve_session (match_request x)).1 = ApprovalOutcomeApproveForSession
          ∧ cf_BashCommandPolicies sample_config !! bm_index x = Some (bm_policy x)
          ∧ bs_config r.2 = set_command_policies (relax (bm_index x) (cf_BashCommandPolicies sample_config)) sample_config).
Proof.
  split; [by vm_compute|].
  exact (bash_runs_cleared sample_tree sample_ws approve_session sample_arguments
    (mkBashState sample_config None) sample_ws_ok).
Defined.

Example bash_relaxed :
  bp_Policy <$> cf_BashCommandPolicies (bs_config (exec (bash sample_ws approve_session sample_arguments
    (mkBashState sample_config None)) sample_tree).1.2) = [[]; ExecPolicyPassby; ExecPolicyPassby].
Proof. by vm_compute. Qed.

(** A timeout of more than 292 years wraps around to one that has passed. *)
Example time_limit_wraps : time_limit (mkBashArgs [] 9300000000 false []) = Some (-9146744073709551616).
Proof. by vm_compute. Qed.
