(* ===== verification/Session.v ===== *)
(** The session records of a conversation: turns ([llm/turn.go], [tool_call.go]),
    the events that record its mutations ([llm/event.go]) and their JSON codec,
    the instance of the append-only store that [JSONStore] is. *)
From S2P Require Import Prelude Json GoText Text Event Bundle Plan PlanFacts Log LogFacts Record.

(** ** Turns

    [Turn] is generic in what stands for its [*ToolCallPayload]: the payload in
    an event, which owns it, a location in a conversation, which may share it. *)

Inductive Role :=
| RoleUser | RoleAssistant | RoleToolCall | RoleToolOutput | RoleReasoning
| RoleOther (name : bytes).
#[export] Instance role_eq_dec : EqDecision Role. Proof. solve_decision. Defined.

Definition role_text (r : Role) : bytes :=
  match r with
  | RoleUser => s2b "user" | RoleAssistant => s2b "assistant" | RoleToolCall => s2b "tool_call"
  | RoleToolOutput => s2b "tool_output" | RoleReasoning => s2b "reasoning" | RoleOther s => s
  end.
Definition role_of (s : bytes) : Role :=
  if bool_decide (s = s2b "user") then RoleUser
  else if bool_decide (s = s2b "assistant") then RoleAssistant
  else if bool_decide (s = s2b "tool_call") then RoleToolCall
  else if bool_decide (s = s2b "tool_output") then RoleToolOutput
  else if bool_decide (s = s2b "reasoning") then RoleReasoning
  else RoleOther s.

Definition TierStableHistory : Z := 1.
Definition TierToolIO : Z := 2.
Definition TierVolatile : Z := 3.

Record ToolCallPayload := mkPayload {
  tp_CallID : bytes; tp_Name : bytes; tp_Arguments : bytes; tp_Output : bytes; tp_Error : bytes }.
#[export] Instance payload_eq_dec : EqDecision ToolCallPayload. Proof. solve_decision. Defined.

(** [Raw] is empty for a nil raw message. *)
Record Turn (P : Type) := mkTurn {
  tn_Role : Role; tn_Text : bytes; tn_Tool : option P; tn_Tier : Z;
  tn_CreatedAt : bytes; tn_Raw : bytes }.
Arguments mkTurn {P}. Arguments tn_Role {P}. Arguments tn_Text {P}. Arguments tn_Tool {P}.
Arguments tn_Tier {P}. Arguments tn_CreatedAt {P}. Arguments tn_Raw {P}.
#[export] Instance turn_eq_dec {P} `{EqDecision P} : EqDecision (Turn P). Proof. solve_decision. Defined.
Abbreviation vturn := (Turn ToolCallPayload).

Record ToolSpec := mkSpec { ts_Name : bytes; ts_Description : bytes; ts_Parameters : metadata }.
#[export] Instance spec_eq_dec : EqDecision ToolSpec. Proof. solve_decision. Defined.

Record TokenUsage := mkUsage {
  us_Input : Z; us_Cached : Z; us_Output : Z; us_Reasoning : Z; us_Total : Z }.
#[export] Instance usage_eq_dec : EqDecision TokenUsage. Proof. solve_decision. Defined.

(** ** Events *)

Inductive EventKind :=
| EventInit | EventAppendUser | EventAppendAssistant | EventAppendReasoning
| EventAppendToolCall | EventAppendToolOutput | EventTrim | EventDropToolDetails
| EventReplaceRange | EventRecordUsage | EventUnknown (name : bytes).
#[export] Instance kind_eq_dec : EqDecision EventKind. Proof. solve_decision. Defined.

Definition kind_text (k : EventKind) : bytes :=
  match k with
  | EventInit => s2b "init" | EventAppendUser => s2b "append_user"
  | EventAppendAssistant => s2b "append_assistant" | EventAppendReasoning => s2b "append_reasoning"
  | EventAppendToolCall => s2b "append_tool_call" | EventAppendToolOutput => s2b "append_tool_output"
  | EventTrim => s2b "trim" | EventDropToolDetails => s2b "drop_tool_details"
  | EventReplaceRange => s2b "replace_range" | EventRecordUsage => s2b "record_usage"
  | EventUnknown s => s
  end.
Definition known_kinds : list EventKind :=
  [EventInit; EventAppendUser; EventAppendAssistant; EventAppendReasoning; EventAppendToolCall;
   EventAppendToolOutput; EventTrim; EventDropToolDetails; EventReplaceRange; EventRecordUsage].
Definition kind_of (s : bytes) : EventKind :=
  match List.find (λ k, bool_decide (kind_text k = s)) known_kinds with
  | Some k => k
  | None => EventUnknown s
  end.

Record SEvent := mkSEvent {
  se_Seq : Z; se_Kind : EventKind; se_Timestamp : bytes;
  se_Instructions : bytes; se_Tools : list ToolSpec; se_Turn : option vturn;
  se_KeepLast : Z; se_From : Z; se_To : Z; se_Replacement : list vturn;
  se_Usage : option TokenUsage }.
#[export] Instance sevent_eq_dec : EqDecision SEvent. Proof. solve_decision. Defined.

Definition zero_payload : ToolCallPayload := mkPayload [] [] [] [] [].
Definition zero_turn : vturn := mkTurn (RoleOther []) [] None 0 zero_time [].
Definition zero_spec : ToolSpec := mkSpec [] [] None.
Definition zero_usage : TokenUsage := mkUsage 0 0 0 0 0.
Definition zero_sevent : SEvent :=
  mkSEvent 0 (EventUnknown []) zero_time [] [] None 0 0 0 [] None.

(** ** Encoding *)

Definition payload_json (p : ToolCallPayload) : json :=
  JObj [field "CallID" (jstr (tp_CallID p)); field "Name" (jstr (tp_Name p));
        field "Arguments" (jstr (tp_Arguments p)); field "Output" (jstr (tp_Output p));
        field "Error" (jstr (tp_Error p))].

Definition turn_json (t : vturn) : option json :=
  raw ← omit_raw "Raw" (tn_Raw t);
  Some (JObj ([field "Role" (jstr (role_text (tn_Role t))); field "Text" (jstr (tn_Text t));
               field "Tool" (match tn_Tool t with None => JNull | Some p => payload_json p end);
               field "Tier" (JNum (dec (tn_Tier t))); field "CreatedAt" (JStr (tn_CreatedAt t))]
              ++ raw)).

Definition params_json (m : metadata) : option json :=
  match m with None => Some JNull | Some es => any_json (AMap es) end.

Definition spec_json (s : ToolSpec) : option json :=
  p ← params_json (ts_Parameters s);
  Some (JObj [field "Name" (jstr (ts_Name s)); field "Description" (jstr (ts_Description s));
              field "Parameters" p]).

Definition usage_json (u : TokenUsage) : json :=
  JObj [field "Input" (JNum (dec (us_Input u))); field "Cached" (JNum (dec (us_Cached u)));
        field "Output" (JNum (dec (us_Output u))); field "Reasoning" (JNum (dec (us_Reasoning u)));
        field "Total" (JNum (dec (us_Total u)))].

(** [omitempty] members: numbers, slices and pointers. *)
Definition omit_int (name : string) (z : Z) : list (bytes * json) :=
  if z =? 0 then [] else [field name (JNum (dec z))].
Definition omit_slice {A} (name : string) (f : A → option json) (l : list A)
  : option (list (bytes * json)) :=
  match l with [] => Some [] | _ => js ← mapM f l; Some [field name (JArr js)] end.
Definition omit_ptr {A} (name : string) (f : A → option json) (p : option A)
  : option (list (bytes * json)) :=
  match p with None => Some [] | Some x => j ← f x; Some [field name j] end.

Definition sevent_json (e : SEvent) : option json :=
  tools ← omit_slice "tools" spec_json (se_Tools e);
  turn ← omit_ptr "turn" turn_json (se_Turn e);
  repl ← omit_slice "replacement" turn_json (se_Replacement e);
  usage ← omit_ptr "usage" (λ u, Some (usage_json u)) (se_Usage e);
  Some (JObj ([field "seq" (JNum (dec (se_Seq e))); field "kind" (jstr (kind_text (se_Kind e)));
               field "ts" (JStr (se_Timestamp e))]
              ++ omit_str "instructions" (se_Instructions e) ++ tools ++ turn
              ++ omit_int "keep_last" (se_KeepLast e) ++ omit_int "from" (se_From e)
              ++ omit_int "to" (se_To e) ++ repl ++ usage)).

(** ** Decoding *)

Definition payload_field (k raw : bytes) (p : ToolCallPayload) : option ToolCallPayload :=
  let '(mkPayload a b c d e) := p in
  if field_is "CallID" k then x ← decode_str a raw; Some (mkPayload x b c d e)
  else if field_is "Name" k then x ← decode_str b raw; Some (mkPayload a x c d e)
  else if field_is "Arguments" k then x ← decode_str c raw; Some (mkPayload a b x d e)
  else if field_is "Output" k then x ← decode_str d raw; Some (mkPayload a b c x e)
  else if field_is "Error" k then x ← decode_str e raw; Some (mkPayload a b c d x)
  else Some p.

Definition usage_field (k raw : bytes) (u : TokenUsage) : option TokenUsage :=
  let '(mkUsage a b c d e) := u in
  if field_is "Input" k then x ← decode_i64 a raw; Some (mkUsage x b c d e)
  else if field_is "Cached" k then x ← decode_i64 b raw; Some (mkUsage a x c d e)
  else if field_is "Output" k then x ← decode_i64 c raw; Some (mkUsage a b x d e)
  else if field_is "Reasoning" k then x ← decode_i64 d raw; Some (mkUsage a b c x e)
  else if field_is "Total" k then x ← decode_i64 e raw; Some (mkUsage a b c d x)
  else Some u.

(** A slice: elements decode over the backing array, which a repeated member
    can find non-zero; the slice and the backing array afterwards. *)
Fixpoint decode_over {A} (zero : A) (dec_ : A → bytes → option A) (backing : list A)
    (raws : list bytes) : option (list A) :=
  match raws with
  | [] => Some []
  | raw :: raws' =>
      x ← dec_ (default zero (head backing)) raw;
      xs ← decode_over zero dec_ (tail backing) raws'; Some (x :: xs)
  end.

Definition decode_slice {A} (zero : A) (dec_ : A → bytes → option A) (backing : list A) (raw : bytes)
  : option (list A * list A) :=
  match top_of raw with
  | Some TNull => Some ([], [])
  | Some (TArr []) => Some ([], [])
  | Some (TArr raws) =>
      xs ← decode_over zero dec_ backing raws; Some (xs, xs ++ drop (List.length xs) backing)
  | _ => None
  end.

Section Codec.
Context {std : GoStd}.

Definition turn_field (k raw : bytes) (t : vturn) : option vturn :=
  let '(mkTurn a b c d e f) := t in
  if field_is "Role" k then x ← decode_str (role_text a) raw; Some (mkTurn (role_of x) b c d e f)
  else if field_is "Text" k then x ← decode_str b raw; Some (mkTurn a x c d e f)
  else if field_is "Tool" k then
    x ← decode_ptr zero_payload (decode_struct payload_field) c raw; Some (mkTurn a b x d e f)
  else if field_is "Tier" k then x ← decode_i64 d raw; Some (mkTurn a b c x e f)
  else if field_is "CreatedAt" k then x ← decode_time e raw; Some (mkTurn a b c d x f)
  else if field_is "Raw" k then Some (mkTurn a b c d e raw)
  else Some t.

Definition spec_field (k raw : bytes) (s : ToolSpec) : option ToolSpec :=
  let '(mkSpec a b c) := s in
  if field_is "Name" k then x ← decode_str a raw; Some (mkSpec x b c)
  else if field_is "Description" k then x ← decode_str b raw; Some (mkSpec a x c)
  else if field_is "Parameters" k then x ← decode_metadata c raw; Some (mkSpec a b x)
  else Some s.

Definition decode_turn : vturn → bytes → option vturn := decode_struct turn_field.
Definition decode_spec : ToolSpec → bytes → option ToolSpec := decode_struct spec_field.

(** An event under decoding, with the backing arrays of its two slices. *)
Record sevent_dec := mkSDec { sd_event : SEvent; sd_tools : list ToolSpec; sd_repl : list vturn }.

Definition sevent_field (k raw : bytes) (d : sevent_dec) : option sevent_dec :=
  let '(mkSDec (mkSEvent sq kd ts ins tools turn keep fr to repl us) bt br) := d in
  if field_is "seq" k then
    x ← decode_i64 sq raw; Some (mkSDec (mkSEvent x kd ts ins tools turn keep fr to repl us) bt br)
  else if field_is "kind" k then
    x ← decode_str (kind_text kd) raw;
    Some (mkSDec (mkSEvent sq (kind_of x) ts ins tools turn keep fr to repl us) bt br)
  else if field_is "ts" k then
    x ← decode_time ts raw; Some (mkSDec (mkSEvent sq kd x ins tools turn keep fr to repl us) bt br)
  else if field_is "instructions" k then
    x ← decode_str ins raw; Some (mkSDec (mkSEvent sq kd ts x tools turn keep fr to repl us) bt br)
  else if field_is "tools" k then
    '(xs, bt) ← decode_slice zero_spec decode_spec bt raw;
    Some (mkSDec (mkSEvent sq kd ts ins xs turn keep fr to repl us) bt br)
  else if field_is "turn" k then
    x ← decode_ptr zero_turn decode_turn turn raw;
    Some (mkSDec (mkSEvent sq kd ts ins tools x keep fr to repl us) bt br)
  else if field_is "keep_last" k then
    x ← decode_i64 keep raw; Some (mkSDec (mkSEvent sq kd ts ins tools turn x fr to repl us) bt br)
  else if field_is "from" k then
    x ← decode_i64 fr raw; Some (mkSDec (mkSEvent sq kd ts ins tools turn keep x to repl us) bt br)
  else if field_is "to" k then
    x ← decode_i64 to raw; Some (mkSDec (mkSEvent sq kd ts ins tools turn keep fr x repl us) bt br)
  else if field_is "replacement" k then
    '(xs, br) ← decode_slice zero_turn decode_turn br raw;
    Some (mkSDec (mkSEvent sq kd ts ins tools turn keep fr to xs us) bt br)
  else if field_is "usage" k then
    x ← decode_ptr zero_usage (decode_struct usage_field) us raw;
    Some (mkSDec (mkSEvent sq kd ts ins tools turn keep fr to repl x) bt br)
  else Some d.

Definition sevent_unmarshal (raw : bytes) : option SEvent :=
  sd_event <$> decode_struct sevent_field (mkSDec zero_sevent [] []) raw.

(** The stamping [JSONStore.Append] does. *)
Definition sevent_stamp (seq : Z) (now : bytes) (e : SEvent) : SEvent :=
  let '(mkSEvent _ kd ts ins tools turn keep fr to repl us) := e in
  mkSEvent seq kd (if decide (ts = zero_time) then now else ts) ins tools turn keep fr to repl us.

#[export] Instance session_log_record : LogRecord SEvent := {|
  rec_Seq := se_Seq;
  rec_init e := bool_decide (se_Kind e = EventInit);
  rec_stamp := sevent_stamp;
  rec_marshal e := print <$> sevent_json e;
  rec_unmarshal := sevent_unmarshal |}.

(** ** The codec meets the store's laws *)

Definition i64_ok (z : Z) : Prop := - two63 ≤ z < two63.
Definition payload_ok (p : ToolCallPayload) : Prop :=
  utf8 (tp_CallID p) ∧ utf8 (tp_Name p) ∧ utf8 (tp_Arguments p) ∧ utf8 (tp_Output p) ∧
  utf8 (tp_Error p).
Definition turn_ok (t : vturn) : Prop :=
  utf8 (role_text (tn_Role t)) ∧ role_of (role_text (tn_Role t)) = tn_Role t ∧
  utf8 (tn_Text t) ∧ match tn_Tool t with Some p => payload_ok p | None => True end ∧
  i64_ok (tn_Tier t) ∧ time_ok (tn_CreatedAt t).
(** Parameters that print the same once they have been read. *)
Definition params_ok (m : metadata) : Prop :=
  match m with
  | None => True
  | Some es => any_ok (AMap es) ∧ ∃ j es', any_json (AMap es) = Some j ∧
                 any_of j = Some (AMap es') ∧ any_json (AMap es') = Some j
  end.
Definition spec_ok (s : ToolSpec) : Prop :=
  utf8 (ts_Name s) ∧ utf8 (ts_Description s) ∧ params_ok (ts_Parameters s).
Definition usage_ok (u : TokenUsage) : Prop :=
  i64_ok (us_Input u) ∧ i64_ok (us_Cached u) ∧ i64_ok (us_Output u) ∧ i64_ok (us_Reasoning u) ∧
  i64_ok (us_Total u).
Definition opt_ok {A} (P : A → Prop) (o : option A) : Prop :=
  match o with Some x => P x | None => True end.
Definition sevent_ok (e : SEvent) : Prop :=
  i64_ok (se_Seq e) ∧
  (utf8 (kind_text (se_Kind e)) ∧ kind_of (kind_text (se_Kind e)) = se_Kind e) ∧
  time_ok (se_Timestamp e) ∧ utf8 (se_Instructions e) ∧ Forall spec_ok (se_Tools e) ∧
  opt_ok turn_ok (se_Turn e) ∧ i64_ok (se_KeepLast e) ∧ i64_ok (se_From e) ∧ i64_ok (se_To e) ∧
  Forall turn_ok (se_Replacement e) ∧ opt_ok usage_ok (se_Usage e).

Definition norm_turn (t : vturn) : vturn :=
  mkTurn (tn_Role t) (tn_Text t) (tn_Tool t) (tn_Tier t) (tn_CreatedAt t) (norm_raw (tn_Raw t)).
Definition norm_params (m : metadata) : metadata :=
  match m with
  | None => None
  | Some es => match (j ← any_json (AMap es); any_of j) with Some (AMap es') => Some es' | _ => m end
  end.
Definition norm_spec (s : ToolSpec) : ToolSpec :=
  mkSpec (ts_Name s) (ts_Description s) (norm_params (ts_Parameters s)).
Definition norm_sevent (e : SEvent) : SEvent :=
  mkSEvent (se_Seq e) (se_Kind e) (se_Timestamp e) (se_Instructions e) (norm_spec <$> se_Tools e)
    (norm_turn <$> se_Turn e) (se_KeepLast e) (se_From e) (se_To e) (norm_turn <$> se_Replacement e)
    (se_Usage e).

(** Well-formed trees, and members that are left out when empty. *)
Ltac wf_fields :=
  repeat (apply field_cons; [simpl; name_body| |]);
  try solve [apply jstr_wf|apply wf_num, num_ok_dec|apply List.Forall_nil].

Lemma payload_json_wf p : wf (payload_json p).
Proof. constructor. wf_fields. Qed.
Lemma usage_json_wf u : wf (usage_json u).
Proof. constructor. wf_fields. Qed.

Lemma turn_json_wf t j : body (tn_CreatedAt t) → turn_json t = Some j → wf j.
Proof.
  intros Hb. unfold turn_json. destruct (omit_raw _ _) as [raw|] eqn:E; [|done]. intros [= <-].
  apply omit_raw_wf in E; [|simpl; name_body]. constructor. wf_fields; [|by apply wf_str|done].
  destruct (tn_Tool t); [apply payload_json_wf|constructor].
Qed.

Lemma params_json_wf m j : params_ok m → params_json m = Some j → wf j.
Proof.
  destruct m as [es|]; [|intros _ [= <-]; constructor]. intros [Hok _]. by apply any_json_wf.
Qed.

Lemma spec_json_wf s j : spec_ok s → spec_json s = Some j → wf j.
Proof.
  intros (_ & _ & Hp). unfold spec_json. destruct (params_json _) as [v|] eqn:E; [|done].
  intros [= <-]. constructor. wf_fields. by eapply params_json_wf.
Qed.

Lemma omit_int_wf name z : body (s2b name) → Forall member_wf (omit_int name z).
Proof. intros Hb. unfold omit_int. destruct (z =? 0); [constructor|]. apply field_cons; [done|apply wf_num, num_ok_dec|constructor]. Qed.

Lemma mapM_json_wf {A} (f : A → option json) (P : A → Prop) l js :
  (∀ x j, P x → f x = Some j → wf j) → Forall P l → mapM f l = Some js → Forall wf js.
Proof.
  intros Hf Hl H. apply mapM_Some in H. induction H as [|x j l js Hx H IH]; [constructor|].
  inversion Hl; subst. constructor; [by eapply Hf|by apply IH].
Qed.

Lemma omit_slice_wf {A} name (f : A → option json) (P : A → Prop) l ms :
  body (s2b name) → (∀ x j, P x → f x = Some j → wf j) → Forall P l →
  omit_slice name f l = Some ms → Forall member_wf ms.
Proof.
  intros Hb Hf Hl H. destruct l as [|x l]; cbn [omit_slice] in H; [by simplify_eq; constructor|].
  destruct (mapM f (x :: l)) as [js|] eqn:E; [|done]. cbn in H. injection H as <-.
  apply field_cons; [done| |constructor]. constructor. by eapply mapM_json_wf.
Qed.

Lemma omit_ptr_wf {A} name (f : A → option json) (P : A → Prop) o ms :
  body (s2b name) → (∀ x j, P x → f x = Some j → wf j) → opt_ok P o →
  omit_ptr name f o = Some ms → Forall member_wf ms.
Proof.
  intros Hb Hf Ho H. destruct o as [x|]; cbn [omit_ptr] in H; [|by simplify_eq; constructor].
  destruct (f x) as [j|] eqn:E; [|done]. cbn in H. injection H as <-.
  apply field_cons; [done|by eapply Hf|constructor].
Qed.

Lemma turn_ok_wf t j : turn_ok t → turn_json t = Some j → wf j.
Proof. intros (_ & _ & _ & _ & _ & Hb & _). by apply turn_json_wf. Qed.

Lemma sevent_json_obj e j : sevent_ok e → sevent_json e = Some j → wf j ∧ ∃ ms, j = JObj ms.
Proof.
  intros (_ & _ & (Hts & _) & _ & Htools & Hturn & _ & _ & _ & Hrepl & _). unfold sevent_json.
  destruct (omit_slice "tools" _ _) as [tools|] eqn:E1; [|done].
  destruct (omit_ptr "turn" _ _) as [turn|] eqn:E2; [|done].
  destruct (omit_slice "replacement" _ _) as [repl|] eqn:E3; [|done].
  destruct (omit_ptr "usage" _ _) as [usage|] eqn:E4; [|done].
  intros [= <-]. split; [|eauto]. constructor. wf_fields; [by apply wf_str|].
  repeat (apply Forall_app; split); try (apply omit_str_wf; simpl; name_body);
    try (apply omit_int_wf; simpl; name_body).
  - eapply omit_slice_wf; [|apply spec_json_wf|done|exact E1]. simpl; name_body.
  - eapply omit_ptr_wf; [|apply turn_ok_wf|done|exact E2]. simpl; name_body.
  - eapply omit_slice_wf; [|apply turn_ok_wf|done|exact E3]. simpl; name_body.
  - eapply (omit_ptr_wf _ _ (λ _, True)); [| | |exact E4].
    + simpl; name_body.
    + intros u j _ [= <-]. apply usage_json_wf.
    + by destruct (se_Usage e).
Qed.

(** *** Reading the members back *)

Lemma decode_payload p :
  payload_ok p → decode_struct payload_field zero_payload (print (payload_json p)) = Some p.
Proof.
  intros (H1 & H2 & H3 & H4 & H5). destruct p as [a b c d e]. cbn in H1, H2, H3, H4, H5.
  pose proof (payload_json_wf (mkPayload a b c d e)) as Hwf. unfold payload_json in *.
  cbn [tp_CallID tp_Name tp_Arguments tp_Output tp_Error] in *. unfold zero_payload.
  rewrite decode_struct_print by done. unfold fold_members.
  cbn [foldl field fst snd mbind option_bind]. unfold payload_field. name_tests.
  repeat (rewrite decode_str_jstr by done; cbn [mbind option_bind]). done.
Qed.

Lemma decode_usage u :
  usage_ok u → decode_struct usage_field zero_usage (print (usage_json u)) = Some u.
Proof.
  intros (H1 & H2 & H3 & H4 & H5). destruct u as [a b c d e]. cbn in H1, H2, H3, H4, H5.
  pose proof (usage_json_wf (mkUsage a b c d e)) as Hwf. unfold usage_json in *.
  cbn [us_Input us_Cached us_Output us_Reasoning us_Total] in *. unfold zero_usage.
  rewrite decode_struct_print by done. unfold fold_members.
  cbn [foldl field fst snd mbind option_bind]. unfold usage_field. name_tests.
  repeat (rewrite decode_i64_dec by done; cbn [mbind option_bind]). done.
Qed.

(** A pointer member: [null] or an object. *)
Lemma decode_ptr_obj {A} (zero : A) (dec_ : A → bytes → option A) ms old :
  wf (JObj ms) → decode_ptr zero dec_ old (print (JObj ms)) =
    Some <$> dec_ (default zero old) (print (JObj ms)).
Proof. intros Hwf. unfold decode_ptr. by rewrite top_of_print. Qed.

Lemma decode_turn_json t j :
  turn_ok t → turn_json t = Some j → decode_turn zero_turn (print j) = Some (norm_turn t).
Proof.
  intros Hok Hj. pose proof (turn_ok_wf _ _ Hok Hj) as Hwf.
  destruct Hok as (H1 & H2 & H3 & H4 & H5 & H6). unfold turn_json in Hj.
  destruct t as [a b c d e f]. cbn [tn_Role tn_Text tn_Tool tn_Tier tn_CreatedAt tn_Raw] in *.
  destruct (omit_raw _ _) as [raw|] eqn:E; [|done]. cbn [mbind option_bind] in Hj. injection Hj as <-.
  unfold decode_turn, zero_turn. rewrite decode_struct_print by done.
  change (?x1 :: ?x2 :: ?x3 :: ?x4 :: ?x5 :: raw) with ([x1; x2; x3; x4; x5] ++ raw).
  rewrite fold_members_app. unfold fold_members at 2.
  cbn [foldl field fst snd mbind option_bind]. unfold turn_field. name_tests.
  cbn [role_text]. rewrite decode_str_jstr by done. cbn [mbind option_bind]. rewrite H2.
  rewrite decode_str_jstr by done. cbn [mbind option_bind].
  assert (decode_ptr zero_payload (decode_struct payload_field) None
    (print (match c with None => JNull | Some p => payload_json p end)) = Some c) as ->.
  { destruct c as [p|]; [|done]. unfold payload_json. rewrite decode_ptr_obj by apply payload_json_wf.
    cbn [default]. fold (payload_json p). by rewrite decode_payload. }
  cbn [mbind option_bind]. rewrite decode_i64_dec by done. cbn [mbind option_bind].
  rewrite decode_time_print by done. cbn [mbind option_bind]. fold turn_field.
  destruct f as [|x f]; cbn [omit_raw] in E; [by injection E as <-|].
  destruct (parse (x :: f)) as [v|] eqn:Ev; [|done]. cbn [mbind option_bind] in E. injection E as <-.
  unfold fold_members. cbn [foldl field fst snd mbind option_bind]. unfold turn_field. name_tests.
  unfold norm_turn, norm_raw, compact. cbn [tn_Role tn_Text tn_Tool tn_Tier tn_CreatedAt tn_Raw].
  by rewrite Ev.
Qed.

Lemma decode_params m j :
  params_ok m → params_json m = Some j → decode_metadata None (print j) = Some (norm_params m).
Proof.
  intros Hok Hj. pose proof (params_json_wf _ _ Hok Hj) as Hwf. unfold decode_metadata.
  rewrite parse_print by done. destruct m as [es|]; [|by injection Hj as <-].
  destruct Hok as (_ & j' & es' & Hj' & Hes & _). cbn [params_json norm_params] in *.
  rewrite Hj. cbn [mbind option_bind]. rewrite Hj in Hj'. injection Hj' as <-. rewrite Hes.
  destruct (any_json_map _ _ Hj) as [ms ->]. cbn [any_of] in Hes.
  destruct (mapM _ ms); [|done]. by injection Hes as <-.
Qed.

Lemma norm_params_json m j : params_ok m → params_json m = Some j → params_json (norm_params m) = Some j.
Proof.
  destruct m as [es|]; [|done]. intros (_ & j' & es' & Hj' & Hes & Hback) Hj. cbn [params_json norm_params] in *.
  rewrite Hj' in Hj |- *. injection Hj as <-. cbn [mbind option_bind]. rewrite Hes. done.
Qed.

Lemma decode_spec_json s j :
  spec_ok s → spec_json s = Some j → decode_spec zero_spec (print j) = Some (norm_spec s).
Proof.
  intros Hok Hj. pose proof (spec_json_wf _ _ Hok Hj) as Hwf. destruct Hok as (H1 & H2 & H3).
  unfold spec_json in Hj. destruct s as [a b c]. cbn [ts_Name ts_Description ts_Parameters] in *.
  destruct (params_json c) as [v|] eqn:E; [|done]. cbn [mbind option_bind] in Hj. injection Hj as <-.
  unfold decode_spec, zero_spec. rewrite decode_struct_print by done. unfold fold_members.
  cbn [foldl field fst snd mbind option_bind]. unfold spec_field. name_tests.
  repeat (rewrite decode_str_jstr by done; cbn [mbind option_bind]).
  by rewrite (decode_params _ _ H3 E).
Qed.

Lemma decode_over_print {A} (zero : A) dec_ (f : A → option json) (g : A → A) l js :
  (∀ x j, x ∈ l → f x = Some j → dec_ zero (print j) = Some (g x)) →
  mapM f l = Some js → decode_over zero dec_ [] (print <$> js) = Some (g <$> l).
Proof.
  intros Hf H. apply mapM_Some in H. induction H as [|x j l js Hx H IH]; [done|].
  rewrite !fmap_cons. cbn [decode_over head tail default]. rewrite (Hf x j) by (done || by left).
  cbn [mbind option_bind]. rewrite IH; [done|]. intros y j' Hy. apply Hf. by right.
Qed.

Section Members.
Context {S : Type} (step : bytes → bytes → S → option S).

Lemma fold_omit_int name z (set : Z → S) :
  i64_ok z →
  (∀ raw, step (unquote (s2b name)) raw (set 0) = x ← decode_i64 0 raw; Some (set x)) →
  fold_members step (Some (set 0)) (omit_int name z) = Some (set z).
Proof.
  intros Hz Hstep. unfold omit_int. destruct (Z.eqb_spec z 0) as [->|]; [done|].
  unfold fold_members. cbn [foldl field fst snd mbind option_bind]. rewrite Hstep.
  by rewrite decode_i64_dec.
Qed.

Lemma fold_omit_slice {A} name (zero : A) dec_ (f : A → option json) (g : A → A) l ms
    (set : list A → list A → S) :
  (∀ x j, x ∈ l → f x = Some j → wf j ∧ dec_ zero (print j) = Some (g x)) →
  omit_slice name f l = Some ms →
  (∀ raw, step (unquote (s2b name)) raw (set [] []) =
     '(xs, b) ← decode_slice zero dec_ [] raw; Some (set xs b)) →
  fold_members step (Some (set [] [])) ms = Some (set (g <$> l) (g <$> l)).
Proof.
  intros Hf H Hstep. destruct l as [|x l]; cbn [omit_slice] in H; [by injection H as <-|].
  destruct (mapM f (x :: l)) as [js|] eqn:E; [|done]. cbn [mbind option_bind] in H. injection H as <-.
  assert (wf (JArr js)) as Hwf.
  { constructor. apply (mapM_json_wf f (λ y, y ∈ x :: l) (x :: l)); [|by apply Forall_forall|done].
    intros y j Hy Hj. by apply (Hf y j). }
  unfold fold_members. cbn [foldl field fst snd mbind option_bind]. rewrite Hstep.
  unfold decode_slice. rewrite top_of_print by done. cbn [top_tree].
  assert (decode_over zero dec_ [] (print <$> js) = Some (g <$> x :: l)) as Hd.
  { eapply decode_over_print; [|exact E]. intros y j Hy Hj. by apply Hf. }
  destruct (print <$> js) as [|p ps] eqn:Ep.
  - apply mapM_Some in E. destruct js; [inversion E|done].
  - rewrite Hd. cbn [mbind option_bind]. by rewrite drop_nil, app_nil_r.
Qed.

Lemma fold_omit_ptr {A} name (zero : A) dec_ (f : A → option json) (g : A → A) o ms
    (set : option A → S) :
  (∀ x j, o = Some x → f x = Some j → wf j ∧ (∃ ms, j = JObj ms) ∧ dec_ zero (print j) = Some (g x)) →
  omit_ptr name f o = Some ms →
  (∀ raw, step (unquote (s2b name)) raw (set None) = x ← decode_ptr zero dec_ None raw; Some (set x)) →
  fold_members step (Some (set None)) ms = Some (set (g <$> o)).
Proof.
  intros Hf H Hstep. destruct o as [x|]; cbn [omit_ptr] in H; [|by injection H as <-].
  destruct (f x) as [j|] eqn:E; [|done]. cbn [mbind option_bind] in H. injection H as <-.
  destruct (Hf x j eq_refl E) as (Hwf & [ms ->] & Hd).
  unfold fold_members. cbn [foldl field fst snd mbind option_bind]. rewrite Hstep, decode_ptr_obj by done.
  cbn [default]. by rewrite Hd.
Qed.
End Members.

Lemma turn_json_obj t j : turn_json t = Some j → ∃ ms, j = JObj ms.
Proof. unfold turn_json. destruct (omit_raw _ _); intros; simplify_eq/=; eauto. Qed.

Lemma decode_sevent e j :
  sevent_ok e → sevent_json e = Some j → sevent_unmarshal (print j) = Some (norm_sevent e).
Proof.
  intros Hok Hj. destruct (sevent_json_obj _ _ Hok Hj) as [Hwf _].
  destruct Hok as (H1 & (H2 & H2') & H3 & H4 & H5 & H6 & H7 & H8 & H9 & H10 & H11).
  unfold sevent_json in Hj. destruct e as [sq kd ts ins tools turn keep fr to repl us].
  cbn [se_Seq se_Kind se_Timestamp se_Instructions se_Tools se_Turn se_KeepLast se_From se_To
       se_Replacement se_Usage] in *.
  destruct (omit_slice "tools" _ _) as [m1|] eqn:E1; [|done].
  destruct (omit_ptr "turn" _ _) as [m2|] eqn:E2; [|done].
  destruct (omit_slice "replacement" _ _) as [m3|] eqn:E3; [|done].
  destruct (omit_ptr "usage" _ _) as [m4|] eqn:E4; [|done].
  cbn [mbind option_bind] in Hj. injection Hj as <-.
  unfold sevent_unmarshal, zero_sevent. rewrite decode_struct_print by done.
  change (?x :: ?y :: ?z :: ?l ++ ?k) with ([x; y; z] ++ l ++ k).
  rewrite !fold_members_app. unfold fold_members at 9. cbn [foldl field fst snd mbind option_bind].
  unfold sevent_field. name_tests. rewrite decode_i64_dec by done. cbn [mbind option_bind kind_text].
  rewrite decode_str_jstr by done. cbn [mbind option_bind]. rewrite H2', decode_time_print by done.
  cbn [mbind option_bind]. fold sevent_field.
  rewrite (fold_omit_str _ _ _ (λ x, mkSDec (mkSEvent sq kd ts x [] None 0 0 0 [] None) [] [])) by done.
  rewrite (fold_omit_slice _ "tools" zero_spec decode_spec spec_json norm_spec tools m1
    (λ x b, mkSDec (mkSEvent sq kd ts ins x None 0 0 0 [] None) b [])); [|..|done|done].
  2: { intros x j Hx Hj. rewrite Forall_forall in H5. specialize (H5 x Hx).
       split; [by eapply spec_json_wf|by apply decode_spec_json]. }
  rewrite (fold_omit_ptr _ "turn" zero_turn decode_turn turn_json norm_turn turn m2
    (λ x, mkSDec (mkSEvent sq kd ts ins _ x 0 0 0 [] None) _ [])); [|..|done|done].
  2: { intros x j -> Hj. split_and!; [by eapply turn_ok_wf|by eapply turn_json_obj|by apply decode_turn_json]. }
  rewrite (fold_omit_int _ "keep_last" keep (λ x, mkSDec (mkSEvent sq kd ts ins _ _ x 0 0 [] None) _ [])) by done.
  rewrite (fold_omit_int _ "from" fr (λ x, mkSDec (mkSEvent sq kd ts ins _ _ keep x 0 [] None) _ [])) by done.
  rewrite (fold_omit_int _ "to" to (λ x, mkSDec (mkSEvent sq kd ts ins _ _ keep fr x [] None) _ [])) by done.
  rewrite (fold_omit_slice _ "replacement" zero_turn decode_turn turn_json norm_turn repl m3
    (λ x b, mkSDec (mkSEvent sq kd ts ins _ _ keep fr to x None) _ b)); [|..|done|done].
  2: { intros x j Hx Hj. rewrite Forall_forall in H10. specialize (H10 x Hx).
       split; [by eapply turn_ok_wf|by apply decode_turn_json]. }
  rewrite (fold_omit_ptr _ "usage" zero_usage (decode_struct usage_field) (λ u, Some (usage_json u)) id us m4
    (λ x, mkSDec (mkSEvent sq kd ts ins _ _ keep fr to _ x) _ _)); [|..|done|done].
  2: { intros x j -> [= <-]. split_and!; [apply usage_json_wf|unfold usage_json; eauto|by apply decode_usage]. }
  cbn. unfold norm_sevent. cbn. by destruct us.
Qed.

(** What was read prints the same line. *)
Lemma turn_json_norm t j : turn_json t = Some j → turn_json (norm_turn t) = Some j.
Proof.
  unfold turn_json. destruct (omit_raw _ _) as [raw|] eqn:E; [|done]. intros H.
  cbn [norm_turn tn_Role tn_Text tn_Tool tn_Tier tn_CreatedAt tn_Raw]. by rewrite (omit_raw_norm _ _ _ E).
Qed.

Lemma spec_json_norm s j : spec_ok s → spec_json s = Some j → spec_json (norm_spec s) = Some j.
Proof.
  intros (_ & _ & Hp). unfold spec_json. destruct (params_json _) as [v|] eqn:E; [|done]. intros H.
  cbn [norm_spec ts_Name ts_Description ts_Parameters]. by rewrite (norm_params_json _ _ Hp E).
Qed.

Lemma omit_slice_norm {A} name (f : A → option json) (g : A → A) l ms :
  (∀ x j, x ∈ l → f x = Some j → f (g x) = Some j) →
  omit_slice name f l = Some ms → omit_slice name f (g <$> l) = Some ms.
Proof.
  intros Hg H. destruct l as [|x l]; [done|]. cbn [omit_slice] in H.
  destruct (mapM f (x :: l)) as [js|] eqn:E; [|done]. rewrite fmap_cons. cbn [omit_slice].
  assert (mapM f (g x :: (g <$> l)) = Some js) as ->; [|done].
  rewrite <-fmap_cons. apply mapM_Some in E. apply mapM_Some. apply Forall2_fmap_l.
  apply Forall2_same_length_lookup in E as [Hlen E]. apply Forall2_same_length_lookup. split; [done|].
  intros i y j Hy Hj. apply Hg; [by eapply list_elem_of_lookup_2|by eapply E].
Qed.

Lemma sevent_json_norm e j : sevent_ok e → sevent_json e = Some j → sevent_json (norm_sevent e) = Some j.
Proof.
  intros (_ & _ & _ & _ & Htools & _). unfold sevent_json, norm_sevent.
  destruct e as [sq kd ts ins tools turn keep fr to repl us].
  cbn [se_Seq se_Kind se_Timestamp se_Instructions se_Tools se_Turn se_KeepLast se_From se_To
       se_Replacement se_Usage] in *.
  destruct (omit_slice "tools" _ tools) as [m1|] eqn:E1; [|done].
  destruct (omit_ptr "turn" _ turn) as [m2|] eqn:E2; [|done].
  destruct (omit_slice "replacement" _ repl) as [m3|] eqn:E3; [|done]. intros H.
  rewrite Forall_forall in Htools.
  rewrite (omit_slice_norm "tools" spec_json norm_spec tools m1); [|intros x k Hx; by apply spec_json_norm, Htools|done].
  rewrite (omit_slice_norm "replacement" turn_json norm_turn repl m3); [|intros; by apply turn_json_norm|done].
  assert (omit_ptr "turn" turn_json (norm_turn <$> turn) = Some m2) as ->; [|done].
  destruct turn as [t|]; [|done]. cbn [omit_ptr fmap option_fmap option_map] in *.
  destruct (turn_json t) as [v|] eqn:Et; [|done]. by rewrite (turn_json_norm _ _ Et).
Qed.

#[export] Instance session_log_laws : LogLaws SEvent.
Proof.
  refine {| rec_ok := sevent_ok; now_ok := time_ok; rec_norm := norm_sevent |}.
  - by intros n now [].
  - by intros n now [].
  - intros n now [sq kd ts ins tools turn keep fr to repl us] (H1 & H2 & H3 & H4) Hnow Hn.
    split; [simpl; unfold i64_ok, two63 in *; lia|]. split; [done|]. split; [|done].
    simpl. by destruct (decide _).
  - done.
  - done.
  - cbn. intros r l Hok H. destruct (sevent_json r) as [j|] eqn:E; [|done].
    by rewrite (sevent_json_norm _ _ Hok E).
  - cbn. intros r l Hok H. destruct (sevent_json r) as [j|] eqn:E; [|done]. cbn in H. simplify_eq.
    by apply decode_sevent.
  - cbn. intros r l p t Hok H Hp Ht. destruct (sevent_json r) as [j|] eqn:E; [|done]. cbn in H. simplify_eq.
    destruct (sevent_json_obj _ _ Hok E) as [Hwf [ms ->]]. unfold sevent_unmarshal.
    by rewrite (object_partial _ _ ms p t).
  - cbn. intros r l Hok H. destruct (sevent_json r) as [j|] eqn:E; [|done]. cbn in H. simplify_eq.
    destruct (sevent_json_obj _ _ Hok E) as [Hwf [ms ->]]. by apply object_line.
Defined.

End Codec.
