(* ===== verification/Conversation.v ===== *)
(** The conversation of [llm/conversation.go] and [conversation_run.go]: the turn
    list and its mutations, automatic shrinking, the session log every mutation
    is recorded in and its replay, and the loop of requests and tool calls.

    A turn's [*ToolCallPayload] is a location in the conversation's heap,
    because [DropToolDetails] writes through it. [time.Now] is a clock indexed
    by the number of calls. What it emits on its
    stream is in [ConversationStream.v]. *)
From Stdlib Require Import SpecFloat.
From S2P Require Import Prelude Json GoText Text Event Log LogFacts Record Session.

(** ** What a conversation needs of a session store *)

Class SessionStore (S : Type) := {
  ss_Append : bytes → bytes → SEvent → S → res log_err Z * S;
  ss_Load : bytes → S → res log_err (list SEvent) * S;
  ss_Truncate : bytes → Z → S → res log_err unit * S }.

(** ** Data *)

Abbreviation loc := nat.
Abbreviation hturn := (Turn loc).

(** [Threshold] is an IEEE 754 double. *)
Record AutoShrinkConfig := mkShrink {
  as_ContextWindow : Z; as_Threshold : spec_float; as_KeepToolExchanges : Z; as_KeepTurns : Z }.

(** [int(float64(window) * threshold)]; out of range, the value of amd64. *)
Definition float64_of (z : Z) : spec_float := binary_normalize 53 1024 z 0 false.
Definition int_of (f : spec_float) : Z :=
  match f with
  | S754_zero _ => 0
  | S754_finite s m e =>
      let n := if 0 <=? e then Z.shiftl (Z.pos m) e else Z.shiftr (Z.pos m) (- e) in
      let z := if s then - n else n in
      if (- two63 <=? z) && (z <? two63) then z else - two63
  | _ => - two63
  end.
Definition shrink_limit (cfg : AutoShrinkConfig) : Z :=
  int_of (SFmul 53 1024 (float64_of (as_ContextWindow cfg)) (as_Threshold cfg)).

(** A summarizer sees the values of the turns. *)
(** The call is numbered, since a summarizer may ask a model. *)
Abbreviation Summarizer := (nat → list vturn → res bytes bytes).

Inductive conv_err :=
| ErrNoStore | ErrBound | ErrHasTurns (n : nat)
| ErrMissingTurn (seq : Z) | ErrUnknownKind (seq : Z) | ErrPanic
| ErrMissingTool (name : bytes)
| ErrStore (i : nat) (e : log_err) | ErrNoSession
| ErrSummarize (text : bytes).

Section Conversation.
Context {S : Type} {store : SessionStore S}.

Record Conversation := mkConv {
  cv_instructions : bytes;
  cv_toolSpecs : list ToolSpec;
  cv_toolNames : list bytes;          (* the keys of toolByName *)
  cv_turns : list hturn;
  cv_usage : TokenUsage;
  cv_autoShrink : AutoShrinkConfig;
  cv_summarizer : option Summarizer;
  cv_maxSteps : Z;
  cv_stores : list S;
  cv_sessionID : bytes;
  cv_replaying : bool;
  cv_lastErr : option log_err;
  cv_heap : list ToolCallPayload;
  cv_clock : nat }.

Implicit Types c : Conversation.

(** Field updates. *)
Definition set_turns (ts : list hturn) (h : list ToolCallPayload) c : Conversation :=
  let '(mkConv a b d _ u f g m s i r l _ k) := c in mkConv a b d ts u f g m s i r l h k.
Definition set_usage (u : TokenUsage) c : Conversation :=
  let '(mkConv a b d t _ f g m s i r l h k) := c in mkConv a b d t u f g m s i r l h k.
Definition set_init (ins : bytes) (specs : list ToolSpec) c : Conversation :=
  let '(mkConv _ _ d t u f g m s i r l h k) := c in mkConv ins specs d t u f g m s i r l h k.
Definition set_replaying (b : bool) c : Conversation :=
  let '(mkConv a b' d t u f g m s i _ l h k) := c in mkConv a b' d t u f g m s i b l h k.
Definition set_session (ss : list S) (id : bytes) (err : option log_err) c : Conversation :=
  let '(mkConv a b d t u f g m _ _ r _ h k) := c in mkConv a b d t u f g m ss id r err h k.
Definition tick c : Conversation :=
  let '(mkConv a b d t u f g m s i r l h k) := c in mkConv a b d t u f g m s i r l h (k + 1).

(** ** Payloads *)

Definition deref (h : list ToolCallPayload) (l : loc) : ToolCallPayload :=
  default zero_payload (h !! l).

(** The value of a turn, and a turn over a fresh copy of its payload. *)
Definition read_turn (h : list ToolCallPayload) (t : hturn) : vturn :=
  mkTurn (tn_Role t) (tn_Text t) (deref h <$> tn_Tool t) (tn_Tier t) (tn_CreatedAt t) (tn_Raw t).
Definition alloc_turn (t : vturn) (h : list ToolCallPayload) : hturn * list ToolCallPayload :=
  match tn_Tool t with
  | None => (mkTurn (tn_Role t) (tn_Text t) None (tn_Tier t) (tn_CreatedAt t) (tn_Raw t), h)
  | Some p => (mkTurn (tn_Role t) (tn_Text t) (Some (List.length h)) (tn_Tier t) (tn_CreatedAt t)
                 (tn_Raw t), h ++ [p])
  end.
Fixpoint alloc_turns (ts : list vturn) (h : list ToolCallPayload) : list hturn * list ToolCallPayload :=
  match ts with
  | [] => ([], h)
  | t :: ts =>
      let '(t', h) := alloc_turn t h in
      let '(ts', h) := alloc_turns ts h in (t' :: ts', h)
  end.

(** ** Recording *)

Context (clock : nat → bytes).

(** One [time.Now]. *)
Definition now c : bytes := clock (cv_clock c).

(** Append an event to every store; the first failure is kept. *)
Fixpoint append_all (id : bytes) (ev : SEvent) (ss : list S) (k : nat) (err : option log_err)
  : list S * nat * option log_err :=
  match ss with
  | [] => ([], k, err)
  | s :: ss =>
      let '(r, s) := ss_Append (clock k) id ev s in
      let err := match r, err with Err e, None => Some e | _, _ => err end in
      let '(ss, k, err) := append_all id ev ss (k + 1) err in (s :: ss, k, err)
  end.

Definition emit (ev : SEvent) c : Conversation :=
  match cv_stores c with
  | [] => c
  | _ =>
      if cv_replaying c then c
      else
        let '(ss, k, err) := append_all (cv_sessionID c) ev (cv_stores c) (cv_clock c) (cv_lastErr c) in
        let '(mkConv a b d t u f g m _ i r _ h _) := c in
        mkConv a b d t u f g m ss i r err h k
  end.

(** Events as the mutating methods build them. *)
Definition turn_event (kind : EventKind) (t : vturn) : SEvent :=
  mkSEvent 0 kind zero_time [] [] (Some t) 0 0 0 [] None.
Definition keep_event (kind : EventKind) (n : Z) : SEvent :=
  mkSEvent 0 kind zero_time [] [] None n 0 0 [] None.
Definition replace_event (from to : Z) (ts : list vturn) : SEvent :=
  mkSEvent 0 EventReplaceRange zero_time [] [] None 0 from to ts None.
Definition usage_event (u : TokenUsage) : SEvent :=
  mkSEvent 0 EventRecordUsage zero_time [] [] None 0 0 0 [] (Some u).
Definition init_event (ins : bytes) (specs : list ToolSpec) : SEvent :=
  mkSEvent 0 EventInit zero_time ins specs None 0 0 0 [] None.

(** ** Appending *)

(** A new turn goes to the end of the list and into the log. *)
Definition append_turn (kind : EventKind) (t : vturn) c : Conversation :=
  let '(t', h) := alloc_turn t (cv_heap c) in
  emit (turn_event kind t) (set_turns (cv_turns c ++ [t']) h c).

Definition AppendUser (text : bytes) c : Conversation :=
  append_turn EventAppendUser (mkTurn RoleUser text None TierVolatile (now c) []) (tick c).
Definition AppendAssistantText (text : bytes) c : Conversation :=
  append_turn EventAppendAssistant (mkTurn RoleAssistant text None TierStableHistory (now c) []) (tick c).
Definition AppendReasoning (text raw : bytes) c : Conversation :=
  if is_empty text && is_empty raw then c
  else append_turn EventAppendReasoning (mkTurn RoleReasoning text None TierToolIO (now c) raw) (tick c).

Record ToolCall := mkCall { tc_CallID : bytes; tc_Name : bytes; tc_Arguments : bytes }.

Definition AppendToolCall (call : ToolCall) c : Conversation :=
  append_turn EventAppendToolCall
    (mkTurn RoleToolCall [] (Some (mkPayload (tc_CallID call) (tc_Name call) (tc_Arguments call) [] []))
       TierToolIO (now c) []) (tick c).
Definition AppendToolOutput (callID output : bytes) (execErr : option bytes) c : Conversation :=
  append_turn EventAppendToolOutput
    (mkTurn RoleToolOutput [] (Some (mkPayload callID [] [] output (default [] execErr)))
       TierToolIO (now c) []) (tick c).

(** ** Trimming *)

(** Move a cut point back past tool outputs and reasoning. *)
Definition stays_with_previous (r : Role) : bool :=
  match r with RoleToolOutput | RoleReasoning => true | _ => false end.
Fixpoint back_up {P} (ts : list (Turn P)) (cut : nat) : nat :=
  match cut with
  | O => O
  | Datatypes.S cut' =>
      match ts !! cut with
      | Some t => if stays_with_previous (tn_Role t) then back_up ts cut' else cut
      | None => cut
      end
  end.

Definition Trim (keepLastTurns : Z) c : Z * Conversation :=
  let keep := if keepLastTurns <? 0 then 0 else keepLastTurns in
  if Z.of_nat (List.length (cv_turns c)) <=? keep then (0, c)
  else
    let cut := back_up (cv_turns c) (List.length (cv_turns c) - Z.to_nat keep) in
    (Z.of_nat cut, emit (keep_event EventTrim keep) (set_turns (drop cut (cv_turns c)) (cv_heap c) c)).

Definition summarizeTruncated (originalBytes : Z) : bytes :=
  s2b "[tool output truncated; " ++ dec originalBytes ++ s2b " bytes]".

Definition set_output (p : ToolCallPayload) (out : bytes) : ToolCallPayload :=
  mkPayload (tp_CallID p) (tp_Name p) (tp_Arguments p) out (tp_Error p).

(** One turn of the backward loop: [(seen, truncated, heap)]. *)
Definition drop_step (keepLastN : Z) (acc : Z * Z * list ToolCallPayload) (t : hturn)
  : Z * Z * list ToolCallPayload :=
  let '(seen, truncated, h) := acc in
  match tn_Role t, tn_Tool t with
  | RoleToolOutput, Some l =>
      let seen := seen + 1 in
      if seen <=? keepLastN then (seen, truncated, h)
      else
        let p := deref h l in
        if is_empty (tp_Output p) then (seen, truncated, h)
        else (seen, truncated + 1,
              <[l := set_output p (summarizeTruncated (len (tp_Output p)))]> h)
  | _, _ => acc
  end.

Definition DropToolDetails (keepLastN : Z) c : Z * Conversation :=
  let keep := if keepLastN <? 0 then 0 else keepLastN in
  let '(_, truncated, h) := foldl (drop_step keep) (0, 0, cv_heap c) (reverse (cv_turns c)) in
  let c := set_turns (cv_turns c) h c in
  (truncated, if 0 <? truncated then emit (keep_event EventDropToolDetails keep) c else c).

(** The clamped bounds of [ReplaceRange]; a negative one makes the slice
    expression panic. *)
Definition clamp_range (from to n : Z) : Z * Z :=
  let from := if from <? 0 then 0 else from in
  let to := if n <? to then n else to in
  (if to <? from then to else from, to).

Definition ReplaceRange (from to : Z) (replacement : list hturn) c : option Conversation :=
  let '(from, to) := clamp_range from to (Z.of_nat (List.length (cv_turns c))) in
  if (from <? 0) || (to <? 0) then None
  else
    let turns := cv_turns c in
    Some (emit (replace_event from to (read_turn (cv_heap c) <$> replacement))
            (set_turns (take (Z.to_nat from) turns ++ replacement ++ drop (Z.to_nat to) turns)
               (cv_heap c) c)).

(** ** Shrinking *)

Definition summaryPrefix : bytes :=
  s2b "Conversation summary (compressed history):" ++ newline.

Definition Compress (summarizer : option Summarizer) (uptoTurn : Z) c
  : res conv_err Z * Conversation :=
  match summarizer with
  | None => (Ok 0, c)
  | Some summarize =>
      if uptoTurn <=? 0 then (Ok 0, c)
      else
        let n := List.length (cv_turns c) in
        let upto := back_up (cv_turns c) (Nat.min (Z.to_nat uptoTurn) n) in
        match upto with
        | O => (Ok 0, c)
        | _ =>
            match summarize (cv_clock c) (read_turn (cv_heap c) <$> take upto (cv_turns c)) with
            | Err e => (Err (ErrSummarize e), c)
            | Ok summary =>
                let turn : hturn := mkTurn RoleAssistant (summaryPrefix ++ summary) None
                                      TierStableHistory (now c) [] in
                match ReplaceRange 0 (Z.of_nat upto) [turn] (tick c) with
                | Some c => (Ok (Z.of_nat upto), c)
                | None => (Err ErrPanic, c)
                end
            end
        end
  end.

Definition maybeAutoShrink c : option conv_err * Conversation :=
  let cfg := cv_autoShrink c in
  if (as_ContextWindow cfg <=? 0) || SFleb (as_Threshold cfg) (S754_zero false) then (None, c)
  else
    let limit := shrink_limit cfg in
    if (limit <=? 0) || (us_Input (cv_usage c) <? limit) then (None, c)
    else
      let c := (DropToolDetails (as_KeepToolExchanges cfg) c).2 in
      let n := Z.of_nat (List.length (cv_turns c)) in
      match cv_summarizer c with
      | Some _ =>
          if as_KeepTurns cfg <? n then
            match Compress (cv_summarizer c) (n - as_KeepTurns cfg) c with
            | (Err e, c) => (Some e, (Trim (as_KeepTurns cfg) c).2)
            | (Ok _, c) => (None, c)
            end
          else (None, (Trim (as_KeepTurns cfg) c).2)
      | None => (None, (Trim (as_KeepTurns cfg) c).2)
      end.

Definition recordUsage (u : TokenUsage) c : option conv_err * Conversation :=
  maybeAutoShrink (emit (usage_event u) (set_usage u c)).

(** ** Replay *)

(** [Event.apply]: the mutation an event records. A replaying conversation does
    not emit. *)
Definition apply (ev : SEvent) c : res conv_err unit * Conversation :=
  match se_Kind ev with
  | EventInit => (Ok tt, set_init (se_Instructions ev) (se_Tools ev) c)
  | EventAppendUser | EventAppendAssistant | EventAppendReasoning
  | EventAppendToolCall | EventAppendToolOutput =>
      match se_Turn ev with
      | None => (Err (ErrMissingTurn (se_Seq ev)), c)
      | Some t =>
          let '(t', h) := alloc_turn t (cv_heap c) in
          (Ok tt, set_turns (cv_turns c ++ [t']) h c)
      end
  | EventTrim => (Ok tt, (Trim (se_KeepLast ev) c).2)
  | EventDropToolDetails => (Ok tt, (DropToolDetails (se_KeepLast ev) c).2)
  | EventReplaceRange =>
      let '(ts, h) := alloc_turns (se_Replacement ev) (cv_heap c) in
      let c := set_turns (cv_turns c) h c in
      match ReplaceRange (se_From ev) (se_To ev) ts c with
      | Some c => (Ok tt, c)
      | None => (Err ErrPanic, c)
      end
  | EventRecordUsage =>
      (Ok tt, match se_Usage ev with Some u => set_usage u c | None => c end)
  | EventUnknown _ => (Err (ErrUnknownKind (se_Seq ev)), c)
  end.

(** The tools an init event needs that are not registered. *)
Definition missing_tool (ev : SEvent) c : option bytes :=
  match se_Kind ev with
  | EventInit =>
      ts_Name <$> List.find (λ s, negb (bool_decide (ts_Name s ∈ cv_toolNames c))) (se_Tools ev)
  | _ => None
  end.

(** Apply a log; [check] is whether the registered tools are checked. *)
Fixpoint replay (check : bool) (evs : list SEvent) c : res conv_err unit * Conversation :=
  match evs with
  | [] => (Ok tt, c)
  | ev :: evs =>
      match apply ev c with
      | (Err e, c) => (Err e, c)
      | (Ok _, c) =>
          match (if check then missing_tool ev c else None) with
          | Some name => (Err (ErrMissingTool name), c)
          | None => replay check evs c
          end
      end
  end.

(** ** Sessions *)

Fixpoint loadSessionEvents (id : bytes) (i : nat) (ss : list S)
  : res conv_err (list SEvent * nat) * list S :=
  match ss with
  | [] => (Err ErrNoSession, [])
  | s :: ss =>
      match ss_Load id s with
      | (Ok evs, s) => (Ok (evs, i), s :: ss)
      | (Err ErrNotFound, s) =>
          let '(r, ss) := loadSessionEvents id (i + 1) ss in (r, s :: ss)
      | (Err e, s) => (Err (ErrStore i e), s :: ss)
      end
  end.

Fixpoint append_events (id : bytes) (evs : list SEvent) (k : nat) (s : S)
  : option log_err * nat * S :=
  match evs with
  | [] => (None, k, s)
  | ev :: evs =>
      match ss_Append (clock k) id ev s with
      | (Err e, s) => (Some e, k + 1, s)
      | (Ok _, s) => append_events id evs (k + 1) s
      end
  end%nat.

(** Copy the log to the stores that have none. *)
Fixpoint mirrorSessionEvents (id : bytes) (source i : nat) (evs : list SEvent) (k : nat) (ss : list S)
  : option conv_err * nat * list S :=
  match ss with
  | [] => (None, k, [])
  | s :: ss =>
      let '(err, k, s) :=
        if bool_decide (i = source) then (None, k, s)
        else match ss_Load id s with
             | (Ok _, s) => (None, k, s)
             | (Err ErrNotFound, s) => append_events id evs k s
             | (Err e, s) => (Some e, k, s)
             end in
      match err with
      | Some e => (Some (ErrStore i e), k, s :: ss)
      | None =>
          let '(r, k, ss) := mirrorSessionEvents id source (i + 1) evs k ss in (r, k, s :: ss)
      end
  end%nat.

(** Seed every store with the init event. *)
Fixpoint seed (id : bytes) (ev : SEvent) (i k : nat) (ss : list S) : option conv_err * nat * list S :=
  match ss with
  | [] => (None, k, [])
  | s :: ss =>
      match ss_Append (clock k) id ev s with
      | (Err e, s) => (Some (ErrStore i e), k + 1, s :: ss)
      | (Ok _, s) => let '(r, k, ss) := seed id ev (i + 1) (k + 1) ss in (r, k, s :: ss)
      end
  end%nat.

Definition set_clock (k : nat) c : Conversation :=
  let '(mkConv a b d t u f g m s i r l h _) := c in mkConv a b d t u f g m s i r l h k.

(** The result, the conversation and the stores. *)
Definition OpenSession (id : bytes) (stores : list S) c
  : res conv_err unit * Conversation * list S :=
  match stores, cv_stores c with
  | [], _ => (Err ErrNoStore, c, stores)
  | _, _ :: _ => (Err ErrBound, c, stores)
  | _, [] =>
      match cv_turns c with
      | _ :: _ => (Err (ErrHasTurns (List.length (cv_turns c))), c, stores)
      | [] =>
          let bind c k ss := (Ok tt, set_session ss id (cv_lastErr c) (set_clock k c), ss) in
          match loadSessionEvents id 0 stores with
          | (Ok (evs, source), ss) =>
              let '(r, c) := replay true evs (set_replaying true c) in
              let c := set_replaying false c in
              match r with
              | Err e => (Err e, c, ss)
              | Ok _ =>
                  match mirrorSessionEvents id source 0 evs (cv_clock c) ss with
                  | (Some e, k, ss) => (Err e, set_clock k c, ss)
                  | (None, k, ss) => bind c k ss
                  end
              end
          | (Err ErrNoSession, ss) =>
              match seed id (init_event (cv_instructions c) (cv_toolSpecs c)) 0 (cv_clock c) ss with
              | (Some e, k, ss) => (Err e, set_clock k c, ss)
              | (None, k, ss) => bind c k ss
              end
          | (Err e, ss) => (Err e, c, ss)
          end
      end
  end.

Fixpoint truncate_all (id : bytes) (toSeq : Z) (i : nat) (ss : list S) : option conv_err * list S :=
  match ss with
  | [] => (None, [])
  | s :: ss =>
      match ss_Truncate id toSeq s with
      | (Err e, s) => (Some (ErrStore i e), s :: ss)
      | (Ok _, s) => let '(r, ss) := truncate_all id toSeq (i + 1) ss in (r, s :: ss)
      end
  end%nat.

(** Roll the log back and reload. *)
Definition TruncateSession (toSeq : Z) c : res conv_err unit * Conversation :=
  match cv_stores c with
  | [] => (Err ErrNoStore, c)
  | ss =>
      let '(r, ss) := truncate_all (cv_sessionID c) toSeq 0 ss in
      let c := set_session ss (cv_sessionID c) (cv_lastErr c) c in
      match r, ss with
      | Some e, _ => (Err e, c)
      | None, [] => (Err ErrNoStore, c)
      | None, s :: ss =>
          let '(loaded, s) := ss_Load (cv_sessionID c) s in
          let c := set_session (s :: ss) (cv_sessionID c) (cv_lastErr c) c in
          match loaded with
          | Err e => (Err (ErrStore 0 e), c)
          | Ok evs =>
              let c := set_usage zero_usage (set_turns [] (cv_heap c) (set_init [] [] c)) in
              let '(r, c) := replay false evs (set_replaying true c) in
              (r, set_replaying false c)
          end
      end
  end.

(** ** Requests *)

Inductive input_item :=
| InMessage (role : Role) (text : bytes)
| InReasoning (raw : bytes)
| InCall (callID name arguments : bytes)
| InOutput (callID output : bytes).

(** What the client is configured with, and whether the SDK decodes a raw
    reasoning item. *)
Record client := mkClient {
  cl_Model : bytes; cl_Effort : bytes; cl_ReplayReasoning : bool;
  cl_decodes : bytes → bool }.

Definition last_user (ts : list vturn) : Z :=
  foldl (λ acc it, match tn_Role it.2 with RoleUser => Z.of_nat it.1 | _ => acc end)
    (-1) (imap pair ts).

Definition input_of (decodes : bytes → bool) (lastUser : Z) (i : nat) (t : vturn) : list input_item :=
  match tn_Role t with
  | RoleUser | RoleAssistant => [InMessage (tn_Role t) (tn_Text t)]
  | RoleReasoning =>
      if is_empty (tn_Raw t) || (Z.of_nat i <=? lastUser) then []
      else if decodes (tn_Raw t) then [InReasoning (tn_Raw t)] else []
  | RoleToolCall =>
      match tn_Tool t with
      | Some p => [InCall (tp_CallID p) (tp_Name p) (tp_Arguments p)]
      | None => []
      end
  | RoleToolOutput =>
      match tn_Tool t with Some p => [InOutput (tp_CallID p) (tp_Output p)] | None => [] end
  | RoleOther _ => []
  end.

Definition buildResponseInput (decodes : bytes → bool) (ts : list vturn) : list input_item :=
  mjoin (imap (input_of decodes (last_user ts)) ts).

Record request := mkRequest {
  rq_Model : bytes; rq_Input : list input_item; rq_Tools : list ToolSpec;
  rq_Instructions : option bytes; rq_Effort : option bytes; rq_Encrypted : bool }.

Definition non_empty (s : bytes) : option bytes := match s with [] => None | _ => Some s end.

Definition buildRequestParams (cl : client) (effort : bytes) c : request :=
  mkRequest (cl_Model cl)
    (buildResponseInput (cl_decodes cl) (read_turn (cv_heap c) <$> cv_turns c))
    (cv_toolSpecs c) (non_empty (cv_instructions c))
    (match effort with [] => non_empty (cl_Effort cl) | _ => Some effort end)
    (cl_ReplayReasoning cl).

(** ** Responses

    Content parts carry their type; a reasoning item its summary and content
    texts, and its raw form when it is to be replayed and round-trips. *)
Inductive output_item :=
| OutMessage (parts : list (bytes * bytes))
| OutCall (call : ToolCall)
| OutReasoning (texts : list bytes) (raw : bytes)
| OutOther.
Record response := mkResponse { rp_Output : list output_item; rp_Usage : TokenUsage }.

Definition output_text (parts : list (bytes * bytes)) : bytes :=
  mjoin ((λ p, if bool_decide (p.1 = s2b "output_text") then p.2 else []) <$> parts).

(** [(text, calls, conversation)] after one output item. *)
Definition apply_item (cl : client) (acc : bytes * list ToolCall * Conversation) (item : output_item)
  : bytes * list ToolCall * Conversation :=
  let '(out, calls, c) := acc in
  match item with
  | OutMessage parts =>
      match output_text parts with
      | [] => acc
      | text => (out ++ text, calls, AppendAssistantText text c)
      end
  | OutCall call => (out, calls ++ [call], AppendToolCall call c)
  | OutReasoning texts raw =>
      let text := Join (List.filter (λ s, negb (is_empty s)) texts) newline in
      let raw := if cl_ReplayReasoning cl then raw else [] in
      if negb (is_empty text) || negb (is_empty raw) then (out, calls, AppendReasoning text raw c)
      else acc
  | OutOther => acc
  end.

Definition applyResponseOutput (cl : client) (resp : response) c
  : bytes * list ToolCall * Conversation :=
  let '(out, calls, c) := foldl (apply_item cl) ([], [], c) (rp_Output resp) in
  (out, calls, (recordUsage (rp_Usage resp) c).2).

(** ** The loop of requests and tool calls

    [ask] is the model, [execute] the registered tools, [quoted] the text
    [fmt] prints for [%q]. *)
Context (ask : nat → request → res bytes response).
Context (execute : nat → ToolCall → bytes * option bytes).
Context (quoted : bytes → bytes).

Inductive run_err :=
| ErrNoClient | ErrStep (step : nat) (e : bytes) | ErrPersist (e : log_err) | ErrMaxSteps (n : Z).

Definition dispatch (call : ToolCall) c : bytes * option bytes :=
  if bool_decide (tc_Name call ∈ cv_toolNames c) then
    match execute (cv_clock c) call with
    | (out, Some err) => (s2b "error: " ++ err ++ newline ++ out, Some err)
    | (out, None) => (out, None)
    end
  else (s2b "error: unknown tool " ++ quoted (tc_Name call),
        Some (s2b "llm: unknown tool " ++ quoted (tc_Name call))).

Definition answer_call c (call : ToolCall) : Conversation :=
  let '(output, execErr) := dispatch call c in
  AppendToolOutput (tc_CallID call) output execErr c.

Definition DefaultMaxSteps : Z := 20.

(** The reply, the error, the requests issued and the conversation. *)
Definition run_result : Type := bytes * option run_err * list request * Conversation.

Fixpoint run_steps (cl : client) (effort : bytes) (budget : Z) (left : nat) (step : nat) c : run_result :=
  match left with
  | O => ([], Some (ErrMaxSteps budget), [], c)
  | Datatypes.S left' =>
      let rq := buildRequestParams cl effort c in
      match ask step rq with
      | Err e => ([], Some (ErrStep step e), [rq], c)
      | Ok resp =>
          let '(text, calls, c) := applyResponseOutput cl resp c in
          match calls with
          | [] => (text, ErrPersist <$> cv_lastErr c, [rq], c)
          | _ =>
              let '(r, rqs, c) :=
                run_steps cl effort budget left' (step + 1) (foldl answer_call c calls) in
              (r, rq :: rqs, c)
          end
      end
  end.

Definition Run (cl : option client) (userInput effort : bytes) c : run_result :=
  match cl with
  | None => ([], Some ErrNoClient, [], c)
  | Some cl =>
      let budget := if cv_maxSteps c <=? 0 then DefaultMaxSteps else cv_maxSteps c in
      run_steps cl effort budget (Z.to_nat budget) 0 (AppendUser userInput c)
  end.

(** ** Usage by role *)

Definition role_bytes (h : list ToolCallPayload) (ts : list hturn) : Z * Z * Z :=
  foldl (λ '(user, assistant, toolIO) t,
    match tn_Role t, deref h <$> tn_Tool t with
    | RoleUser, _ => (user + len (tn_Text t), assistant, toolIO)
    | RoleAssistant, _ => (user, assistant + len (tn_Text t), toolIO)
    | RoleToolCall, Some p => (user, assistant, toolIO + (len (tp_Name p) + len (tp_Arguments p)))
    | RoleToolOutput, Some p => (user, assistant, toolIO + (len (tp_Output p) + len (tp_Error p)))
    | _, _ => (user, assistant, toolIO)
    end) (0, 0, 0) ts.

Record RoleUsage := mkRoleUsage {
  ru_Instructions : Z; ru_Tools : Z; ru_User : Z; ru_Assistant : Z; ru_ToolIO : Z }.

(** The product wraps around like the [int] it is. *)
Definition UsageByRole c : RoleUsage :=
  let budget := i64 (us_Input (cv_usage c) - us_Cached (cv_usage c)) in
  let budget := if budget <? 0 then 0 else budget in
  if budget =? 0 then mkRoleUsage 0 0 0 0 0
  else
    let instr := len (cv_instructions c) in
    let tools := foldl (λ n s, n + (len (ts_Name s) + len (ts_Description s))) 0 (cv_toolSpecs c) in
    let '(user, assistant, toolIO) := role_bytes (cv_heap c) (cv_turns c) in
    let total := instr + tools + user + assistant + toolIO in
    if total =? 0 then mkRoleUsage 0 0 0 0 0
    else
      let alloc b := Z.quot (i64 (budget * b)) total in
      mkRoleUsage (alloc instr) (alloc tools) (alloc user) (alloc assistant) (alloc toolIO).

End Conversation.
Arguments Conversation S : clear implicits.

(** ** The default summarizer

    [ctx] answers the polls of [ctx.Err], in order. *)

Definition maxSummaryBytes : Z := 2400.
Definition maxTurnBytes : Z := 240.

Definition summarizeTurn (t : vturn) (maxBytes : Z) : bytes :=
  let text :=
    match tn_Tool t with
    | Some p =>
        let name := if is_empty (tp_Name p) then tp_CallID p else tp_Name p in
        match tn_Role t with
        | RoleToolCall => s2b "tool call " ++ name ++ s2b " " ++ tp_Arguments p
        | RoleToolOutput =>
            s2b "tool result " ++ name ++ s2b " " ++ tp_Output p
            ++ (if is_empty (tp_Error p) then [] else s2b " error=" ++ tp_Error p)
        | _ => tp_Output p
        end
    | None => tn_Text t
    end in
  match Join (Fields text) (s2b " ") with
  | [] => []
  | text =>
      let text := if maxBytes <? len text then take (Z.to_nat maxBytes) text ++ s2b "..." else text in
      role_text (tn_Role t) ++ s2b ": " ++ text
  end.

(** The body of the loop over the turns; [b] is what has been written. *)
Fixpoint summarize_turns (ctx : nat → option bytes) (i : nat) (ts : list vturn) (b : bytes)
  : res bytes bytes :=
  match ts with
  | [] => Ok b
  | t :: ts =>
      match ctx i with
      | Some e => Err e
      | None =>
          match summarizeTurn t maxTurnBytes with
          | [] => summarize_turns ctx (i + 1) ts b
          | line =>
              if (maxSummaryBytes <? len b + len line + 4)%Z then Ok (b ++ s2b "- ...")
              else summarize_turns ctx (i + 1) ts (b ++ s2b "- " ++ line ++ newline)
          end
      end
  end%nat.

Definition DefaultSummarizerFunc (ctx : nat → option bytes) (ts : list vturn) : res bytes bytes :=
  match ctx 0%nat with
  | Some e => Err e
  | None =>
      match ts with
      | [] => Ok (s2b "No earlier conversation turns.")
      | _ =>
          let? b := summarize_turns ctx 1 ts (s2b "Earlier conversation:" ++ newline) in
          Ok (TrimSpace b)
      end
  end.

(** ** Construction

    A tool, by what its methods return. *)
Record Tool := mkTool { tool_Name : bytes; tool_Description : bytes; tool_Parameters : metadata }.
Inductive new_err := ErrNilTool | ErrEmptyName | ErrDuplicateTool (name : bytes).

Fixpoint tool_specs (seen : list bytes) (tools : list (option Tool))
  : res new_err (list ToolSpec * list bytes) :=
  match tools with
  | [] => Ok ([], seen)
  | None :: _ => Err ErrNilTool
  | Some t :: tools =>
      if is_empty (tool_Name t) then Err ErrEmptyName
      else if bool_decide (tool_Name t ∈ seen) then Err (ErrDuplicateTool (tool_Name t))
      else
        let? r := tool_specs (tool_Name t :: seen) tools in
        Ok (mkSpec (tool_Name t) (tool_Description t) (tool_Parameters t) :: r.1, r.2)
  end.

(** 0.85 is the double [7656119366529843 * 2^-53]. *)
Definition DefaultAutoShrinkConfig : AutoShrinkConfig :=
  mkShrink 0 (S754_finite false 7656119366529843 (-53)) 2 10.

Record ConversationConfig := mkConfig {
  cc_MaxSteps : Z; cc_AutoShrink : option AutoShrinkConfig; cc_Summarizer : option Summarizer }.

Definition NewConversation {S} (instructions : bytes) (tools : list (option Tool))
    (cfg : ConversationConfig) : res new_err (Conversation S) :=
  let? r := tool_specs [] tools in
  Ok (mkConv instructions r.1 r.2 [] zero_usage
        (default DefaultAutoShrinkConfig (cc_AutoShrink cfg))
        (Some (default (λ _, DefaultSummarizerFunc (λ _, None)) (cc_Summarizer cfg)))
        (if cc_MaxSteps cfg <=? 0 then DefaultMaxSteps else cc_MaxSteps cfg)
        [] [] false None [] 0).
