(* ===== verification/ConversationFacts.v ===== *)
(** The conversation against its session log: mutations on turns that share no
    payload are mutations of values, every mutation is the replay of the events
    it records, and a session reopened from any of its stores is the
    conversation that was recorded. *)
From S2P Require Import Prelude Json GoText Text Event Bundle Log LogFacts Record Session Conversation.

(** ** The conversation as a value *)

Record vconv := mkV {
  v_instructions : bytes; v_specs : list ToolSpec; v_turns : list vturn; v_usage : TokenUsage }.

Definition v_trim (keepLast : Z) (ts : list vturn) : list vturn :=
  let keep := if keepLast <? 0 then 0 else keepLast in
  if Z.of_nat (List.length ts) <=? keep then ts
  else drop (back_up ts (List.length ts - Z.to_nat keep)) ts.

(** Outputs from the last to the first, the first [keep] of them untouched. *)
Definition v_output (keep seen : Z) (t : vturn) : vturn :=
  match tn_Role t, tn_Tool t with
  | RoleToolOutput, Some p =>
      if (seen <? keep) || is_empty (tp_Output p) then t
      else mkTurn (tn_Role t) (tn_Text t) (Some (set_output p (summarizeTruncated (len (tp_Output p)))))
             (tn_Tier t) (tn_CreatedAt t) (tn_Raw t)
  | _, _ => t
  end.
Definition is_output {P} (t : Turn P) : bool :=
  match tn_Role t, tn_Tool t with RoleToolOutput, Some _ => true | _, _ => false end.
Fixpoint v_drop_rev (keep seen : Z) (ts : list vturn) : list vturn :=
  match ts with
  | [] => []
  | t :: ts => v_output keep seen t :: v_drop_rev keep (if is_output t then seen + 1 else seen) ts
  end.
Definition v_drop (keepLast : Z) (ts : list vturn) : list vturn :=
  let keep := if keepLast <? 0 then 0 else keepLast in
  reverse (v_drop_rev keep 0 (reverse ts)).

Definition v_replace (from to : Z) (repl ts : list vturn) : option (list vturn) :=
  let '(from, to) := clamp_range from to (Z.of_nat (List.length ts)) in
  if (from <? 0) || (to <? 0) then None
  else Some (take (Z.to_nat from) ts ++ repl ++ drop (Z.to_nat to) ts).

Definition v_set (ts : list vturn) (v : vconv) : vconv :=
  mkV (v_instructions v) (v_specs v) ts (v_usage v).

Definition vapply (ev : SEvent) (v : vconv) : option vconv :=
  match se_Kind ev with
  | EventInit => Some (mkV (se_Instructions ev) (se_Tools ev) (v_turns v) (v_usage v))
  | EventAppendUser | EventAppendAssistant | EventAppendReasoning
  | EventAppendToolCall | EventAppendToolOutput =>
      t ← se_Turn ev; Some (v_set (v_turns v ++ [t]) v)
  | EventTrim => Some (v_set (v_trim (se_KeepLast ev) (v_turns v)) v)
  | EventDropToolDetails => Some (v_set (v_drop (se_KeepLast ev) (v_turns v)) v)
  | EventReplaceRange =>
      ts ← v_replace (se_From ev) (se_To ev) (se_Replacement ev) (v_turns v); Some (v_set ts v)
  | EventRecordUsage =>
      Some (match se_Usage ev with
            | Some u => mkV (v_instructions v) (v_specs v) (v_turns v) u
            | None => v
            end)
  | EventUnknown _ => None
  end.
Fixpoint vreplay (evs : list SEvent) (v : vconv) : option vconv :=
  match evs with [] => Some v | ev :: evs => v ← vapply ev v; vreplay evs v end.

Lemma vreplay_app evs evs' v : vreplay (evs ++ evs') v = v ← vreplay evs v; vreplay evs' v.
Proof.
  revert v. induction evs as [|ev evs IH]; intros v; [done|]. simpl.
  destruct (vapply ev v); [apply IH|done].
Qed.

Section Facts.
Context {S : Type} {store : SessionStore S}.
Implicit Types c : Conversation S.

Definition view c : vconv :=
  mkV (cv_instructions c) (cv_toolSpecs c) (read_turn (cv_heap c) <$> cv_turns c) (cv_usage c).

(** ** Payloads that no two turns share *)

Definition locs (ts : list hturn) : list loc := omap tn_Tool ts.
Definition fresh_in (h : list ToolCallPayload) (ts : list hturn) : Prop :=
  NoDup (locs ts) ∧ Forall (λ l, l < List.length h)%nat (locs ts).
Definition unaliased c : Prop := fresh_in (cv_heap c) (cv_turns c).

Lemma read_turn_app h h' t :
  Forall (λ l, l < List.length h)%nat (locs [t]) → read_turn (h ++ h') t = read_turn h t.
Proof.
  intros Hl. unfold read_turn. destruct t as [r x [l|] ti ca raw]; simpl; [|done].
  unfold locs in Hl. simpl in Hl. apply Forall_cons in Hl as [Hl _].
  unfold deref. by rewrite lookup_app_l.
Qed.

Lemma read_turns_app h h' ts :
  Forall (λ l, l < List.length h)%nat (locs ts) →
  read_turn (h ++ h') <$> ts = read_turn h <$> ts.
Proof.
  induction ts as [|t ts IH]; intros Hl; [done|]. rewrite !fmap_cons.
  unfold locs in Hl. simpl in Hl. f_equal.
  - apply read_turn_app. unfold locs. simpl. destruct (tn_Tool t); [|constructor].
    apply Forall_cons in Hl as [Hl _]. constructor; [done|constructor].
  - apply IH. unfold locs. destruct (tn_Tool t); [by apply Forall_cons in Hl as [_ Hl]|done].
Qed.

Lemma locs_app ts ts' : locs (ts ++ ts') = locs ts ++ locs ts'.
Proof. apply omap_app. Qed.

(** Copies of turns are fresh and read as the originals. *)
Lemma alloc_turn_spec t h t' h' :
  alloc_turn t h = (t', h') →
  ∃ h1, h' = h ++ h1 ∧ read_turn h' t' = t ∧ NoDup (locs [t']) ∧
    Forall (λ l, List.length h ≤ l < List.length h')%nat (locs [t']).
Proof.
  unfold alloc_turn, locs. destruct t as [r x [p|] ti ca raw]; simpl; intros [= <- <-].
  - exists [p]. split_and!; [done| |repeat constructor; by intros ?%elem_of_nil|].
    + unfold read_turn. simpl. unfold deref. by rewrite lookup_app_r, Nat.sub_diag by done.
    + constructor; [|constructor]. rewrite length_app. simpl. lia.
  - exists []. rewrite app_nil_r. split_and!; [done|done|constructor|constructor].
Qed.

Lemma alloc_turns_spec ts h ts' h' :
  alloc_turns ts h = (ts', h') →
  ∃ h1, h' = h ++ h1 ∧ read_turn h' <$> ts' = ts ∧ NoDup (locs ts') ∧
    Forall (λ l, List.length h ≤ l < List.length h')%nat (locs ts').
Proof.
  revert h ts' h'. induction ts as [|t ts IH]; intros h ts' h' H; simpl in H.
  { injection H as <- <-. exists []. rewrite app_nil_r. split_and!; [done|done|constructor|constructor]. }
  destruct (alloc_turn t h) as [t1 ha] eqn:Et. destruct (alloc_turns ts ha) as [ts1 hb] eqn:Ets.
  injection H as <- <-. destruct (alloc_turn_spec _ _ _ _ Et) as (h1 & -> & Hr & Hn & Hl).
  destruct (IH _ _ _ Ets) as (h2 & -> & Hrs & Hns & Hls).
  exists (h1 ++ h2). rewrite app_assoc. split_and!; [done| | |].
  - rewrite fmap_cons. f_equal; [|done]. rewrite read_turn_app; [done|].
    eapply List.Forall_impl; [|exact Hl]. simpl. lia.
  - change (t1 :: ts1) with ([t1] ++ ts1). rewrite locs_app. apply NoDup_app. split_and!; [done| |done].
    intros l Hin1 Hin2. rewrite Forall_forall in Hl, Hls. specialize (Hl _ Hin1). specialize (Hls _ Hin2). lia.
  - change (t1 :: ts1) with ([t1] ++ ts1). rewrite locs_app. apply Forall_app. split.
    + eapply List.Forall_impl; [|exact Hl]. simpl. rewrite !length_app. lia.
    + eapply List.Forall_impl; [|exact Hls]. simpl. rewrite !length_app. lia.
Qed.

Lemma fresh_app h h1 ts ts' :
  fresh_in h ts → NoDup (locs ts') →
  Forall (λ l, List.length h ≤ l < List.length (h ++ h1))%nat (locs ts') →
  fresh_in (h ++ h1) (ts ++ ts').
Proof.
  intros [Hn Hl] Hn' Hl'. unfold fresh_in. rewrite locs_app. rewrite Forall_forall in Hl, Hl'. split.
  - apply NoDup_app. split_and!; [done| |done]. intros l H1 H2.
    specialize (Hl _ H1). specialize (Hl' _ H2). lia.
  - apply Forall_app; split; apply Forall_forall; intros l Hin.
    + specialize (Hl _ Hin). rewrite length_app. lia.
    + specialize (Hl' _ Hin). lia.
Qed.

Lemma fresh_sublist h ts ts' : locs ts' `sublist_of` locs ts → fresh_in h ts → fresh_in h ts'.
Proof.
  intros Hs [Hn Hl]. split; [by eapply sublist_NoDup|].
  rewrite Forall_forall in Hl |- *. intros l Hin. apply Hl. by eapply elem_of_sublist.
Qed.

Lemma locs_drop n ts : locs (drop n ts) `sublist_of` locs ts.
Proof.
  rewrite <-(take_drop n ts) at 2. rewrite locs_app. by apply sublist_inserts_l.
Qed.

(** *** Dropping tool details *)

Lemma drop_step_cases keep seen tr h t :
  ∃ seen' tr' h', drop_step keep (seen, tr, h) t = (seen', tr', h') ∧ tr ≤ tr' ∧
    List.length h' = List.length h ∧ ∀ l, tn_Tool t ≠ Some l → h' !! l = h !! l.
Proof.
  unfold drop_step. destruct (tn_Role t), (tn_Tool t) as [l|]; try by eauto 10 with lia.
  destruct (seen + 1 <=? keep); [by eauto 10 with lia|].
  destruct (is_empty _); [by eauto 10 with lia|].
  do 3 eexists. split_and!; [done|lia|by rewrite length_insert|].
  intros l' Hl. rewrite list_lookup_insert_ne; congruence.
Qed.

Lemma drop_steps_other keep rts seen tr h :
  let '(_, tr', h') := foldl (drop_step keep) (seen, tr, h) rts in
  tr ≤ tr' ∧ List.length h' = List.length h ∧ ∀ l, l ∉ locs rts → h' !! l = h !! l.
Proof.
  revert seen tr h. induction rts as [|t rts IH]; intros seen tr h; [done|]. cbn [foldl].
  destruct (drop_step_cases keep seen tr h t) as (s1 & tr1 & h1 & -> & Hle & Hlen & Ho).
  specialize (IH s1 tr1 h1). destruct (foldl _ _ rts) as [[s2 tr2] h2].
  destruct IH as (IH1 & IH2 & IH3). split_and!; [lia|congruence|].
  intros l Hl. unfold locs in Hl. simpl in Hl. rewrite IH3, Ho; [done| |].
  - intros E. rewrite E in Hl. apply Hl. by left.
  - destruct (tn_Tool t); [by apply not_elem_of_cons in Hl as [_ ?]|done].
Qed.

Lemma read_turn_ext h h' t :
  (∀ l, tn_Tool t = Some l → h !! l = h' !! l) → read_turn h t = read_turn h' t.
Proof.
  intros H. unfold read_turn, deref. destruct t as [r x [l|] ti ca raw]; simpl; [|done].
  by rewrite (H l eq_refl).
Qed.

(** The backward loop over unshared payloads is the value loop, and touches
    nothing when it counts nothing. *)
Lemma drop_steps keep rts seen tr h :
  fresh_in h rts → 0 ≤ seen →
  let '(_, tr', h') := foldl (drop_step keep) (seen, tr, h) rts in
  read_turn h' <$> rts = v_drop_rev keep seen (read_turn h <$> rts) ∧ (tr' = tr → h' = h).
Proof.
  revert seen tr h. induction rts as [|t rts IH]; intros seen tr h [Hn Hl] Hs; [done|].
  cbn [foldl]. destruct (drop_step keep (seen, tr, h) t) as [[seen1 tr1] h1] eqn:Es.
  unfold locs in Hn, Hl. simpl in Hn, Hl.
  assert (fresh_in h1 rts) as Hf1.
  { assert (List.length h1 = List.length h) as Hlen.
    { destruct (drop_step_cases keep seen tr h t) as (? & ? & ? & Hd & _ & ? & _). congruence. }
    split; rewrite ?Hlen; destruct (tn_Tool t); try done;
      [by apply NoDup_cons in Hn as [_ ?]|by apply Forall_cons in Hl as [_ ?]]. }
  assert (∀ l, tn_Tool t = Some l → l ∉ locs rts) as Hnot.
  { intros l El. rewrite El in Hn. by apply NoDup_cons in Hn as [? _]. }
  assert (seen1 = (if is_output (read_turn h t) then seen + 1 else seen) ∧
          read_turn h1 t = v_output keep seen (read_turn h t) ∧ tr ≤ tr1 ∧ (tr1 = tr → h1 = h) ∧
          (∀ u, u ∈ rts → read_turn h1 u = read_turn h u)) as (Hseen & Hread & Htr & Hsame & Hrest).
  { unfold drop_step in Es. unfold is_output, v_output.
    change (tn_Role (read_turn h t)) with (tn_Role t).
    change (tn_Tool (read_turn h t)) with (deref h <$> tn_Tool t).
    assert ((seen, tr, h) = (seen1, tr1, h1) → seen1 = seen ∧ read_turn h1 t = read_turn h t ∧
      tr ≤ tr1 ∧ (tr1 = tr → h1 = h) ∧ ∀ u, u ∈ rts → read_turn h1 u = read_turn h u) as Hkeep.
    { intros [= <- <- <-]. by split_and!. }
    destruct (tn_Role t) eqn:Er, (tn_Tool t) as [l|] eqn:Et;
      cbn [fmap option_fmap option_map]; try by apply Hkeep.
    destruct (Z.leb_spec (seen + 1) keep).
    { injection Es as <- <- <-. rewrite (proj2 (Z.ltb_lt _ _)) by lia. by split_and!. }
    rewrite (proj2 (Z.ltb_ge seen keep)) by lia. cbn [orb].
    destruct (is_empty (tp_Output (deref h l))); injection Es as <- <- <-; [by split_and!|].
    split_and!; [done| |lia|lia|].
    - unfold read_turn. rewrite Er, Et. cbn. do 2 f_equal. unfold deref at 1.
      rewrite list_lookup_insert_eq; [done|]. by apply Forall_cons in Hl as [? _].
    - intros u Hu. apply read_turn_ext. intros l' El'. rewrite list_lookup_insert_ne; [done|].
      intros ->. apply (Hnot l' eq_refl). unfold locs. apply list_elem_of_omap. eauto. }
  assert (0 ≤ seen1) as Hs1 by (rewrite Hseen; destruct (is_output _); lia).
  specialize (IH seen1 tr1 h1 Hf1 Hs1).
  pose proof (drop_steps_other keep rts seen1 tr1 h1) as Ho.
  destruct (foldl (drop_step keep) (seen1, tr1, h1) rts) as [[s2 tr2] h2].
  destruct Ho as (Hle & _ & Hother).
  destruct IH as [IHr IHs]. split.
  - rewrite !fmap_cons. cbn [v_drop_rev]. rewrite <-Hseen, IHr. f_equal.
    + rewrite <-Hread. apply read_turn_ext. intros l El. by apply Hother, Hnot.
    + f_equal. apply list_fmap_ext. intros i u Hu. apply Hrest. by eapply list_elem_of_lookup_2.
  - intros ->. assert (tr1 = tr) as -> by lia. rewrite IHs by lia. by apply Hsame.
Qed.

(** ** What a mutation records

    [emits id x evs y]: from the stores, the clock and the first error [x], the
    events [evs] are appended to every store in order, with clock reads between
    them, and leave [y]. *)
Context (clock : nat → bytes).

Definition chan c : list S * nat * option log_err := (cv_stores c, cv_clock c, cv_lastErr c).

Inductive emits (id : bytes) : list S * nat * option log_err → list SEvent →
    list S * nat * option log_err → Prop :=
| emits_nil x : emits id x [] x
| emits_tick ss k err evs y : emits id (ss, k + 1, err)%nat evs y → emits id (ss, k, err) evs y
| emits_cons ev evs ss k err y :
    emits id (append_all clock id ev ss k err) evs y → emits id (ss, k, err) (ev :: evs) y.

Lemma emits_app id x evs y evs' z : emits id x evs y → emits id y evs' z → emits id x (evs ++ evs') z.
Proof. intros H Hz. induction H; [done|by apply emits_tick; auto|simpl; by apply emits_cons; auto]. Qed.

(** The fields no mutation changes. *)
Definition static c : list bytes * AutoShrinkConfig * option Summarizer * Z * bytes * bool :=
  (cv_toolNames c, cv_autoShrink c, cv_summarizer c, cv_maxSteps c, cv_sessionID c, cv_replaying c).

(** [c'] is [c] after the events [evs]: their replay on its value, their record in its stores. *)
Definition steps c (evs : list SEvent) c' : Prop :=
  unaliased c' ∧ vreplay evs (view c) = Some (view c') ∧
  emits (cv_sessionID c) (chan c) evs (chan c') ∧ static c' = static c.

Lemma steps_refl c : unaliased c → steps c [] c.
Proof. intros H. split_and!; [done|done|constructor|done]. Qed.

Lemma steps_trans c evs c' evs' c'' : steps c evs c' → steps c' evs' c'' → steps c (evs ++ evs') c''.
Proof.
  intros (H1 & H2 & H3 & H4) (H5 & H6 & H7 & H8). split_and!; [done| | |congruence].
  - by rewrite vreplay_app, H2.
  - eapply emits_app; [exact H3|]. by assert (cv_sessionID c = cv_sessionID c') as -> by (unfold static in H4; congruence).
Qed.

Lemma emit_view ev c : view (emit clock ev c) = view c ∧ static (emit clock ev c) = static c ∧
  cv_turns (emit clock ev c) = cv_turns c ∧ cv_heap (emit clock ev c) = cv_heap c.
Proof.
  unfold emit. destruct c as [a b d t u f g m ss i r l h k]; cbn [cv_stores cv_replaying].
  destruct ss as [|s ss]; [done|]. destruct r; [done|]. cbn [cv_sessionID cv_clock cv_lastErr].
  by destruct (append_all _ _ _ _ _ _) as [[ss' k'] err'].
Qed.

Lemma emit_chan ev c y evs :
  cv_replaying c = false → emits (cv_sessionID c) (chan (emit clock ev c)) evs y →
  emits (cv_sessionID c) (chan c) (ev :: evs) y.
Proof.
  intros Hr H. unfold chan at 1. apply emits_cons. revert H. unfold emit, chan.
  destruct c as [a b d t u f g m ss i r l h k]; cbn [cv_stores cv_replaying cv_sessionID cv_clock cv_lastErr] in *.
  destruct ss as [|s ss]; [done|]. rewrite Hr.
  by destruct (append_all _ _ _ _ _ _) as [[ss' k'] err'].
Qed.

(** One update of the turns or the usage, recorded by one event. *)
Lemma steps_emit ev c c1 :
  cv_replaying c = false → vapply ev (view c) = Some (view c1) → unaliased c1 →
  chan c1 = chan c → static c1 = static c → steps c [ev] (emit clock ev c1).
Proof.
  intros Hr Hv Hu Hc Hs. destruct (emit_view ev c1) as (Hv1 & Hs1 & Ht & Hh).
  assert (cv_sessionID c1 = cv_sessionID c ∧ cv_replaying c1 = false) as [Hid Hr1]
    by (unfold static in Hs; split; congruence).
  split_and!.
  - unfold unaliased. by rewrite Ht, Hh.
  - simpl. by rewrite Hv, Hv1.
  - rewrite <-Hc, <-Hid. apply emit_chan; [done|]. constructor.
  - congruence.
Qed.

Lemma steps_tick c : unaliased c → steps c [] (tick c).
Proof.
  intros H. destruct c as [a b d t u f g m ss i r l h k]. split_and!; [done|done| |done].
  cbn. apply emits_tick. constructor.
Qed.

(** *** Appending *)

Definition append_kind (k : EventKind) : bool :=
  match k with
  | EventAppendUser | EventAppendAssistant | EventAppendReasoning
  | EventAppendToolCall | EventAppendToolOutput => true
  | _ => false
  end.

Lemma append_turn_value kind t c :
  append_kind kind = true → unaliased c →
  let '(t', h) := alloc_turn t (cv_heap c) in
  vapply (turn_event kind t) (view c) = Some (view (set_turns (cv_turns c ++ [t']) h c)) ∧
  unaliased (set_turns (cv_turns c ++ [t']) h c).
Proof.
  intros Hk Hu. destruct (alloc_turn t (cv_heap c)) as [t' h] eqn:E.
  destruct (alloc_turn_spec _ _ _ _ E) as (h1 & -> & Hr & Hn & Hl). split.
  - unfold view, vapply, set_turns. destruct c as [a b d ts u f g m ss i r l h k].
    cbn [cv_heap cv_turns cv_instructions cv_toolSpecs cv_usage] in *.
    rewrite fmap_app, (read_turns_app h) by apply Hu.
    destruct kind; try done; by rewrite fmap_cons, Hr.
  - destruct c as [a b d ts u f g m ss i r l h k]. by apply (fresh_app h h1 ts [t']).
Qed.

Lemma append_turn_steps kind t c :
  append_kind kind = true → cv_replaying c = false → unaliased c →
  steps c [turn_event kind t] (append_turn clock kind t c).
Proof.
  intros Hk Hr Hu. unfold append_turn. pose proof (append_turn_value kind t c Hk Hu) as H.
  destruct (alloc_turn t (cv_heap c)) as [t' h]. destruct H as [Hv Hu'].
  apply steps_emit; [done|done|done|by destruct c|by destruct c].
Qed.

Lemma append_now_steps kind t c :
  append_kind kind = true → cv_replaying c = false → unaliased c →
  steps c [turn_event kind t] (append_turn clock kind t (tick c)).
Proof.
  intros Hk Hr Hu. apply (steps_trans c [] (tick c)); [by apply steps_tick|].
  apply append_turn_steps; [done|by destruct c|by destruct c].
Qed.

(** *** Trimming *)

Definition events_trim (n : Z) c : list SEvent :=
  let keep := if n <? 0 then 0 else n in
  if Z.of_nat (List.length (cv_turns c)) <=? keep then [] else [keep_event EventTrim keep].

Lemma back_up_fmap {P Q} (f : Turn P → Turn Q) ts cut :
  (∀ t, tn_Role (f t) = tn_Role t) → back_up (f <$> ts) cut = back_up ts cut.
Proof.
  intros Hf. induction cut as [|cut IH]; [done|]. cbn [back_up]. rewrite list_lookup_fmap.
  destruct (ts !! Datatypes.S cut) as [t|]; [|done]. cbn. rewrite Hf.
  by destruct (stays_with_previous _).
Qed.

Lemma clamp_nonneg n : (if (if n <? 0 then 0 else n) <? 0 then 0 else (if n <? 0 then 0 else n))
  = (if n <? 0 then 0 else n).
Proof. destruct (Z.ltb_spec n 0); [done|]. by rewrite (proj2 (Z.ltb_ge n 0)) by lia. Qed.

Lemma nonneg_if n : 0 ≤ (if n <? 0 then 0 else n).
Proof. destruct (Z.ltb_spec n 0); lia. Qed.

Lemma v_trim_view keep c :
  0 ≤ keep → Z.of_nat (List.length (cv_turns c)) <=? keep = false →
  v_trim keep (v_turns (view c)) =
    v_turns (view (set_turns (drop (back_up (cv_turns c)
      (List.length (cv_turns c) - Z.to_nat keep)) (cv_turns c)) (cv_heap c) c)).
Proof.
  intros Hk E. unfold v_trim. rewrite (proj2 (Z.ltb_ge keep 0)) by done.
  unfold view. destruct c as [a b d ts u f g m ss i r l h k]. cbn [v_turns set_turns cv_heap cv_turns] in *.
  rewrite length_fmap, E, fmap_drop. by rewrite back_up_fmap.
Qed.

Lemma unaliased_drop n c : unaliased c → unaliased (set_turns (drop n (cv_turns c)) (cv_heap c) c).
Proof.
  intros H. destruct c. cbn in *. eapply fresh_sublist; [apply locs_drop|exact H].
Qed.

Lemma Trim_steps n c :
  cv_replaying c = false → unaliased c → steps c (events_trim n c) (Trim clock n c).2.
Proof.
  intros Hr Hu. unfold events_trim, Trim. pose proof (nonneg_if n) as Hk.
  set (keep := if n <? 0 then 0 else n) in *.
  destruct (_ <=? _) eqn:E; [by apply steps_refl|]. cbn [snd].
  apply steps_emit; [done| |by apply unaliased_drop|by destruct c|by destruct c].
  unfold vapply. cbn [keep_event se_Kind se_KeepLast]. rewrite v_trim_view by done. by destruct c.
Qed.

(** *** Dropping tool details *)

Definition events_drop (n : Z) c : list SEvent :=
  let keep := if n <? 0 then 0 else n in
  let '(_, truncated, _) := foldl (drop_step keep) (0, 0, cv_heap c) (reverse (cv_turns c)) in
  if 0 <? truncated then [keep_event EventDropToolDetails keep] else [].

Lemma fresh_reverse h ts : fresh_in h ts → fresh_in h (reverse ts).
Proof.
  intros [Hn Hl]. assert (locs (reverse ts) = reverse (locs ts)) as E.
  { clear. induction ts as [|t ts IH]; [done|]. rewrite reverse_cons, locs_app, IH.
    unfold locs. simpl. destruct (tn_Tool t); [by rewrite reverse_cons|by rewrite app_nil_r]. }
  split; rewrite E; [by rewrite reverse_Permutation|by apply Forall_reverse].
Qed.

Lemma Drop_value n c :
  unaliased c →
  let keep := if n <? 0 then 0 else n in
  let '(_, truncated, h) := foldl (drop_step keep) (0, 0, cv_heap c) (reverse (cv_turns c)) in
  unaliased (set_turns (cv_turns c) h c) ∧
  view (set_turns (cv_turns c) h c) = v_set (v_drop keep (v_turns (view c))) (view c) ∧
  0 ≤ truncated ∧ (truncated = 0 → h = cv_heap c).
Proof.
  intros Hu keep.
  pose proof (drop_steps keep (reverse (cv_turns c)) 0 0 (cv_heap c) (fresh_reverse _ _ Hu) ltac:(lia)) as Hd.
  pose proof (drop_steps_other keep (reverse (cv_turns c)) 0 0 (cv_heap c)) as Ho.
  destruct (foldl _ _ _) as [[s tr] h]. destruct Hd as [Hd Hz]. destruct Ho as (Hle & Hlen & _).
  split_and!; [|..|done|done].
  - destruct c as [a b d ts u f g m ss i r l h0 k]. destruct Hu as [Hn Hl]. split; [done|]. cbn [set_turns cv_heap cv_turns] in *. by rewrite Hlen.
  - unfold v_drop, keep. rewrite clamp_nonneg. fold keep. destruct c as [a b d ts u f g m ss i r l h0 k].
    unfold view, v_set. cbn [v_turns v_instructions v_specs v_usage set_turns cv_heap cv_turns
      cv_instructions cv_toolSpecs cv_usage] in *.
    f_equal. rewrite <-fmap_reverse, <-Hd, <-!fmap_reverse. by rewrite reverse_involutive.
Qed.

Lemma Drop_steps n c :
  cv_replaying c = false → unaliased c → steps c (events_drop n c) (DropToolDetails clock n c).2.
Proof.
  intros Hr Hu. unfold events_drop, DropToolDetails. pose proof (Drop_value n c Hu) as H. cbv zeta in H.
  destruct (foldl _ _ _) as [[s tr] h]. destruct H as (Hu' & Hv & Hle & Hz). cbn [snd].
  destruct (Z.ltb_spec 0 tr).
  - apply steps_emit; [done| |done|by destruct c|by destruct c]. unfold vapply.
    cbn [keep_event se_Kind se_KeepLast]. by rewrite Hv.
  - rewrite Hz by lia. destruct c. by apply steps_refl.
Qed.

(** *** Replacing a range *)

Definition events_replace (from to : Z) (repl : list vturn) c : list SEvent :=
  let '(from, to) := clamp_range from to (Z.of_nat (List.length (cv_turns c))) in
  if (from <? 0) || (to <? 0) then [] else [replace_event from to repl].

Lemma clamp_range_eq from to n :
  clamp_range from to n = (Z.min (Z.max from 0) (Z.min to n), Z.min to n).
Proof.
  unfold clamp_range.
  destruct (Z.ltb_spec from 0), (Z.ltb_spec n to);
    (match goal with |- context [?a <? ?b] => destruct (Z.ltb_spec a b) end); f_equal; lia.
Qed.

Lemma clamp_range_spec from to n f t :
  0 ≤ n → clamp_range from to n = (f, t) → (f <? 0) || (t <? 0) = false →
  0 ≤ f ≤ t ∧ t ≤ n ∧ clamp_range f t n = (f, t).
Proof.
  rewrite clamp_range_eq. intros Hn [= <- <-] [H1%Z.ltb_ge H2%Z.ltb_ge]%orb_false_iff.
  split_and!; [lia..|]. rewrite clamp_range_eq. f_equal; lia.
Qed.

Lemma fresh_replace h ts repl a b :
  fresh_in h (ts ++ repl) → (a ≤ b)%nat → fresh_in h (take a ts ++ repl ++ drop b ts).
Proof.
  intros [Hn Hl] Hab. unfold fresh_in.
  assert (locs (take a ts ++ repl ++ drop b ts) ≡ₚ locs ((take a ts ++ drop b ts) ++ repl)) as Hp.
  { rewrite !locs_app. solve_Permutation. }
  assert (locs ((take a ts ++ drop b ts) ++ repl) `sublist_of` locs (ts ++ repl)) as Hs.
  { rewrite !locs_app. apply sublist_app; [|done]. rewrite <-(take_drop a ts) at 3.
    rewrite locs_app. apply sublist_app; [done|].
    replace (drop b ts) with (drop (b - a) (drop a ts)) by (rewrite drop_drop; f_equal; lia).
    apply locs_drop. }
  rewrite Hp. by apply (fresh_sublist h (ts ++ repl) _ Hs).
Qed.

(** The update of [ReplaceRange] on turns that share no payload. *)
Lemma Replace_value from to repl c f t :
  fresh_in (cv_heap c) (cv_turns c ++ repl) →
  clamp_range from to (Z.of_nat (List.length (cv_turns c))) = (f, t) →
  (f <? 0) || (t <? 0) = false →
  let c1 := set_turns (take (Z.to_nat f) (cv_turns c) ++ repl ++ drop (Z.to_nat t) (cv_turns c))
              (cv_heap c) c in
  unaliased c1 ∧
  v_replace f t (read_turn (cv_heap c) <$> repl) (v_turns (view c)) = Some (v_turns (view c1)) ∧
  view c1 = v_set (v_turns (view c1)) (view c).
Proof.
  intros Hf Hc Hneg. destruct (clamp_range_spec _ _ _ _ _ (Nat2Z.is_nonneg _) Hc Hneg) as (H1 & H2 & H3).
  destruct c as [a b d ts u ff g m ss i r l h k].
  cbn [set_turns cv_heap cv_turns view v_turns] in *. split_and!.
  - by apply fresh_replace; [|lia].
  - unfold v_replace. rewrite length_fmap, H3, Hneg. by rewrite !fmap_app, fmap_take, fmap_drop.
  - done.
Qed.

Lemma ReplaceRange_steps from to repl c :
  cv_replaying c = false → fresh_in (cv_heap c) (cv_turns c ++ repl) →
  steps c (events_replace from to (read_turn (cv_heap c) <$> repl) c)
    (default c (ReplaceRange clock from to repl c)).
Proof.
  intros Hr Hf. unfold events_replace, ReplaceRange.
  pose proof (Replace_value from to repl c) as Hv.
  destruct (clamp_range _ _ _) as [f t]. specialize (Hv f t Hf eq_refl).
  destruct (_ || _) eqn:Hneg.
  - apply steps_refl. eapply fresh_sublist; [|exact Hf]. rewrite locs_app. by apply sublist_inserts_r.
  - destruct (Hv eq_refl) as (Hu & Hvr & Hview). cbn [default].
    apply steps_emit; [done| |done|by destruct c|by destruct c].
    unfold vapply. cbn [replace_event se_Kind se_From se_To se_Replacement]. rewrite Hvr.
    cbn [mbind option_bind]. by rewrite <-Hview.
Qed.

(** *** Summaries and automatic shrinking *)

Definition summary_turn (summary : bytes) c : vturn :=
  mkTurn RoleAssistant (summaryPrefix ++ summary) None TierStableHistory (now clock c) [].

Definition events_compress (summarizer : option Summarizer) (uptoTurn : Z) c : list SEvent :=
  match summarizer with
  | None => []
  | Some summarize =>
      if uptoTurn <=? 0 then []
      else
        let upto := back_up (cv_turns c) (Nat.min (Z.to_nat uptoTurn) (List.length (cv_turns c))) in
        match upto with
        | O => []
        | _ =>
            match summarize (cv_clock c) (read_turn (cv_heap c) <$> take upto (cv_turns c)) with
            | Err _ => []
            | Ok summary => [replace_event 0 (Z.of_nat upto) [summary_turn summary c]]
            end
        end
  end.

Lemma back_up_le {P} (ts : list (Turn P)) cut : (back_up ts cut ≤ cut)%nat.
Proof.
  induction cut as [|cut IH]; cbn [back_up]; [done|]. destruct (ts !! _); [|done].
  destruct (stays_with_previous _); lia.
Qed.

Lemma Compress_steps summarizer upto c :
  cv_replaying c = false → unaliased c →
  steps c (events_compress summarizer upto c) (Compress clock summarizer upto c).2.
Proof.
  intros Hr Hu. unfold events_compress, Compress. destruct summarizer as [sm|]; [|by apply steps_refl].
  destruct (upto <=? 0); [by apply steps_refl|].
  pose proof (back_up_le (cv_turns c) (Nat.min (Z.to_nat upto) (List.length (cv_turns c)))) as Hle.
  destruct (back_up _ _) as [|n]; [by apply steps_refl|].
  destruct (sm _ _) as [summary|e]; [|by apply steps_refl].
  set (turn := mkTurn RoleAssistant _ _ _ _ _ : hturn).
  apply (steps_trans c [] (tick c)); [by apply steps_tick|].
  assert (fresh_in (cv_heap (tick c)) (cv_turns (tick c) ++ [turn])) as Hf.
  { unfold fresh_in. rewrite locs_app, app_nil_r. by destruct c. }
  pose proof (ReplaceRange_steps 0 (Z.of_nat (Datatypes.S n)) [turn] (tick c) ltac:(by destruct c) Hf) as H.
  assert (clamp_range 0 (Z.of_nat (Datatypes.S n)) (Z.of_nat (List.length (cv_turns (tick c))))
    = (0, Z.of_nat (Datatypes.S n))) as Hcl.
  { replace (cv_turns (tick c)) with (cv_turns c) by by destruct c. unfold clamp_range.
    rewrite (proj2 (Z.ltb_ge 0 0)), (proj2 (Z.ltb_ge _ (Z.of_nat (Datatypes.S n)))) by lia.
    by rewrite (proj2 (Z.ltb_ge (Z.of_nat (Datatypes.S n)) 0)) by lia. }
  unfold events_replace, ReplaceRange in *. rewrite Hcl in H |- *.
  rewrite (proj2 (orb_false_iff (0 <? 0) (Z.of_nat (Datatypes.S n) <? 0))) in H |- * by (split; apply Z.ltb_ge; lia).
  exact H.
Qed.

Definition events_shrink c : list SEvent :=
  let cfg := cv_autoShrink c in
  if (as_ContextWindow cfg <=? 0) || SpecFloat.SFleb (as_Threshold cfg) (SpecFloat.S754_zero false) then []
  else
    let limit := shrink_limit cfg in
    if (limit <=? 0) || (us_Input (cv_usage c) <? limit) then []
    else
      let c1 := (DropToolDetails clock (as_KeepToolExchanges cfg) c).2 in
      let n := Z.of_nat (List.length (cv_turns c1)) in
      events_drop (as_KeepToolExchanges cfg) c ++
      match cv_summarizer c1 with
      | Some _ =>
          if as_KeepTurns cfg <? n then
            events_compress (cv_summarizer c1) (n - as_KeepTurns cfg) c1 ++
            match Compress clock (cv_summarizer c1) (n - as_KeepTurns cfg) c1 with
            | (Err _, c2) => events_trim (as_KeepTurns cfg) c2
            | (Ok _, _) => []
            end
          else events_trim (as_KeepTurns cfg) c1
      | None => events_trim (as_KeepTurns cfg) c1
      end.

Lemma steps_inv c evs c' :
  cv_replaying c = false → steps c evs c' → cv_replaying c' = false ∧ unaliased c'.
Proof. intros Hr (Hu & _ & _ & Hs). split; [|done]. unfold static in Hs. congruence. Qed.

Lemma shrink_steps c :
  cv_replaying c = false → unaliased c → steps c (events_shrink c) (maybeAutoShrink clock c).2.
Proof.
  intros Hr Hu. unfold events_shrink, maybeAutoShrink.
  destruct (_ || _); [by apply steps_refl|]. destruct (_ || _); [by apply steps_refl|].
  pose proof (Drop_steps (as_KeepToolExchanges (cv_autoShrink c)) c Hr Hu) as Hd.
  set (c1 := (DropToolDetails clock _ c).2) in *. destruct (steps_inv _ _ _ Hr Hd) as [Hr1 Hu1].
  set (keep := as_KeepTurns _). cbv zeta.
  destruct (cv_summarizer c1) as [sm|] eqn:Es; [|eapply steps_trans; [exact Hd|by apply Trim_steps]].
  destruct (keep <? _); [|eapply steps_trans; [exact Hd|by apply Trim_steps]].
  eapply steps_trans; [exact Hd|].
  pose proof (Compress_steps (Some sm) (Z.of_nat (List.length (cv_turns c1)) - keep) c1 Hr1 Hu1) as Hc.
  destruct (steps_inv _ _ _ Hr1 Hc) as [Hr2 Hu2].
  destruct (Compress _ _ _ _) as [[n|e] c2]; cbn [snd] in *.
  - by rewrite app_nil_r.
  - eapply steps_trans; [exact Hc|]. by apply Trim_steps.
Qed.

Lemma recordUsage_steps u c :
  cv_replaying c = false → unaliased c →
  steps c (usage_event u :: events_shrink (emit clock (usage_event u) (set_usage u c)))
    (recordUsage clock u c).2.
Proof.
  intros Hr Hu. assert (steps c [usage_event u] (emit clock (usage_event u) (set_usage u c))) as H.
  { apply steps_emit; [done|by destruct c|by destruct c|by destruct c|by destruct c]. }
  destruct (steps_inv _ _ _ Hr H) as [Hr1 Hu1].
  apply (steps_trans _ [usage_event u] _ _ _ H). by apply shrink_steps.
Qed.

(** ** Any sequence of mutations *)

(** What a caller does: one call, after making its argument. [ReplaceRange] keeps the
    pointers it is given; a caller that builds its turns, as [Compress] and the
    replay of a log do, has allocated their payloads. One that passes turns it got
    from [Turns] shares payloads, and [shared_payload_replays_apart] shows that the
    log then replays differently; these calls are no [conv_op]. A call with a
    negative end panics before it has changed anything, and the conversation stays
    as it is. *)
Inductive conv_op :=
| CUser (text : bytes)
| CAssistant (text : bytes)
| CReasoning (text raw : bytes)
| CCall (call : ToolCall)
| COutput (callID output : bytes) (execErr : option bytes)
| CTrim (n : Z)
| CDrop (n : Z)
| CReplace (from to : Z) (ts : list vturn)   (* on turns the caller has just made *)
| CCompress (upto : Z)
| CUsage (u : TokenUsage).

Definition do_conv (op : conv_op) c : Conversation S :=
  match op with
  | CUser text => AppendUser clock text c
  | CAssistant text => AppendAssistantText clock text c
  | CReasoning text raw => AppendReasoning clock text raw c
  | CCall call => AppendToolCall clock call c
  | COutput id out err => AppendToolOutput clock id out err c
  | CTrim n => (Trim clock n c).2
  | CDrop n => (DropToolDetails clock n c).2
  | CReplace from to ts =>
      let '(ts', h) := alloc_turns ts (cv_heap c) in
      let c := set_turns (cv_turns c) h c in
      default c (ReplaceRange clock from to ts' c)
  | CCompress upto => (Compress clock (cv_summarizer c) upto c).2
  | CUsage u => (recordUsage clock u c).2
  end.

Definition events_conv (op : conv_op) c : list SEvent :=
  match op with
  | CUser text =>
      [turn_event EventAppendUser (mkTurn RoleUser text None TierVolatile (now clock c) [])]
  | CAssistant text =>
      [turn_event EventAppendAssistant (mkTurn RoleAssistant text None TierStableHistory (now clock c) [])]
  | CReasoning text raw =>
      if is_empty text && is_empty raw then []
      else [turn_event EventAppendReasoning (mkTurn RoleReasoning text None TierToolIO (now clock c) raw)]
  | CCall call =>
      [turn_event EventAppendToolCall
         (mkTurn RoleToolCall [] (Some (mkPayload (tc_CallID call) (tc_Name call) (tc_Arguments call) [] []))
            TierToolIO (now clock c) [])]
  | COutput id out err =>
      [turn_event EventAppendToolOutput
         (mkTurn RoleToolOutput [] (Some (mkPayload id [] [] out (default [] err)))
            TierToolIO (now clock c) [])]
  | CTrim n => events_trim n c
  | CDrop n => events_drop n c
  | CReplace from to ts => events_replace from to ts c
  | CCompress upto => events_compress (cv_summarizer c) upto c
  | CUsage u => usage_event u :: events_shrink (emit clock (usage_event u) (set_usage u c))
  end.

Lemma op_steps op c :
  cv_replaying c = false → unaliased c → steps c (events_conv op c) (do_conv op c).
Proof.
  intros Hr Hu. destruct op as [text|text|text raw|call|id out err|n|n|from to ts|upto|u];
    cbn [events_conv do_conv].
  - by apply append_now_steps.
  - by apply append_now_steps.
  - unfold AppendReasoning. destruct (_ && _); [by apply steps_refl|by apply append_now_steps].
  - by apply append_now_steps.
  - by apply append_now_steps.
  - by apply Trim_steps.
  - by apply Drop_steps.
  - destruct (alloc_turns ts (cv_heap c)) as [ts' h] eqn:E.
    destruct (alloc_turns_spec _ _ _ _ E) as (h1 & -> & Hread & Hn & Hl).
    set (c1 := set_turns (cv_turns c) (cv_heap c ++ h1) c).
    assert (steps c [] c1) as H1.
    { destruct c as [a b d ts0 u f g m ss i r l h k]. split_and!; [|..|constructor|done].
      - pose proof (fresh_app h h1 ts0 [] Hu) as Hf. rewrite app_nil_r in Hf.
        apply Hf; constructor.
      - cbn. unfold view. cbn. do 2 f_equal. symmetry. apply read_turns_app, Hu. }
    assert (cv_replaying c1 = false) as Hr1 by by destruct c.
    assert (fresh_in (cv_heap c1) (cv_turns c1 ++ ts')) as Hf1.
    { destruct c as [a b d ts0 u f g m ss i r l h k]. by apply fresh_app. }
    pose proof (ReplaceRange_steps from to ts' c1 Hr1 Hf1) as H2.
    assert (events_replace from to ts c = events_replace from to (read_turn (cv_heap c1) <$> ts') c1) as ->.
    { unfold events_replace. replace (cv_turns c1) with (cv_turns c) by by destruct c.
      replace (cv_heap c1) with (cv_heap c ++ h1) by by destruct c. by rewrite Hread. }
    by apply (steps_trans c [] c1).
  - by apply Compress_steps.
  - by apply recordUsage_steps.
Qed.

Definition run_conv (ops : list conv_op) c : Conversation S := foldl (λ c op, do_conv op c) c ops.
Fixpoint events_run (ops : list conv_op) c : list SEvent :=
  match ops with
  | [] => []
  | op :: ops => events_conv op c ++ events_run ops (do_conv op c)
  end.

Lemma muts_steps ops c :
  cv_replaying c = false → unaliased c → steps c (events_run ops c) (run_conv ops c).
Proof.
  revert c. induction ops as [|op ops IH]; intros c Hr Hu; [by apply steps_refl|].
  pose proof (op_steps op c Hr Hu) as H. destruct (steps_inv _ _ _ Hr H) as [Hr1 Hu1].
  eapply steps_trans; [exact H|]. by apply IH.
Qed.

(** No mutation records an init event. *)
Definition no_init (ev : SEvent) : Prop := se_Kind ev ≠ EventInit.

Lemma events_trim_kind n c : Forall no_init (events_trim n c).
Proof. unfold events_trim. destruct (_ <=? _); by repeat constructor. Qed.
Lemma events_drop_kind n c : Forall no_init (events_drop n c).
Proof.
  unfold events_drop. destruct (foldl _ _ _) as [[a b] h]. destruct (0 <? b); by repeat constructor.
Qed.
Lemma events_compress_kind sm n c : Forall no_init (events_compress sm n c).
Proof.
  unfold events_compress. destruct sm as [sm|]; [|constructor]. destruct (n <=? 0); [constructor|].
  destruct (back_up _ _); [constructor|]. destruct (sm _ _); by repeat constructor.
Qed.
Lemma events_kind op c : Forall no_init (events_conv op c).
Proof.
  destruct op as [text|text|text raw|call|id out err|n|n|from to ts|upto|u]; cbn [events_conv];
    try (by repeat constructor).
  - destruct (_ && _); by repeat constructor.
  - apply events_trim_kind.
  - apply events_drop_kind.
  - unfold events_replace. destruct (clamp_range _ _ _). destruct (_ || _); by repeat constructor.
  - apply events_compress_kind.
  - constructor; [done|]. unfold events_shrink. destruct (_ || _); [constructor|].
    destruct (_ || _); [constructor|]. apply Forall_app. split; [apply events_drop_kind|].
    destruct (cv_summarizer _); [|apply events_trim_kind]. destruct (_ <? _); [|apply events_trim_kind].
    apply Forall_app. split; [apply events_compress_kind|].
    destruct (Compress _ _ _ _) as [[]]; [constructor|apply events_trim_kind].
Qed.

Lemma events_run_kind ops c : Forall no_init (events_run ops c).
Proof.
  revert c. induction ops as [|op ops IH]; intros c; [constructor|]. simpl.
  apply Forall_app. split; [apply events_kind|apply IH].
Qed.

(** ** Replaying *)

Lemma emit_replaying ev c : cv_replaying c = true → emit clock ev c = c.
Proof. intros Hr. unfold emit. rewrite Hr. by destruct (cv_stores c). Qed.

(** A replayed event changes the value as its mutation did. *)
Definition replays ev c c' v : Prop :=
  apply clock ev c = (Ok tt, c') ∧ view c' = v ∧ unaliased c' ∧ static c' = static c.

Lemma Trim_replay n c :
  cv_replaying c = true → unaliased c →
  view (Trim clock n c).2 = v_set (v_trim n (v_turns (view c))) (view c) ∧
  unaliased (Trim clock n c).2 ∧ static (Trim clock n c).2 = static c.
Proof.
  intros Hr Hu. unfold Trim. pose proof (nonneg_if n) as Hk.
  assert (v_trim n (v_turns (view c)) = v_trim (if n <? 0 then 0 else n) (v_turns (view c))) as ->.
  { unfold v_trim. by rewrite clamp_nonneg. }
  set (keep := if n <? 0 then 0 else n) in *.
  destruct (_ <=? _) eqn:E; cbn [snd].
  - split_and!; [|done|done]. unfold v_trim. rewrite (proj2 (Z.ltb_ge keep 0)) by done.
    unfold view at 2. cbn [v_turns]. rewrite length_fmap, E. by destruct c.
  - rewrite emit_replaying by by destruct c. split_and!; [|by apply unaliased_drop|by destruct c].
    rewrite v_trim_view by done. by destruct c.
Qed.

Lemma Drop_replay n c :
  cv_replaying c = true → unaliased c →
  view (DropToolDetails clock n c).2 = v_set (v_drop n (v_turns (view c))) (view c) ∧
  unaliased (DropToolDetails clock n c).2 ∧ static (DropToolDetails clock n c).2 = static c.
Proof.
  intros Hr Hu. unfold DropToolDetails. pose proof (Drop_value n c Hu) as H. cbv zeta in H.
  assert (v_drop n (v_turns (view c)) = v_drop (if n <? 0 then 0 else n) (v_turns (view c))) as ->.
  { unfold v_drop. by rewrite clamp_nonneg. }
  destruct (foldl _ _ _) as [[s tr] h]. destruct H as (Hu' & Hv & _ & _). cbn [snd].
  rewrite emit_replaying by by destruct c.
  destruct (0 <? tr); (split_and!; [done|done|by destruct c]).
Qed.

Lemma apply_replay ev c v :
  cv_replaying c = true → unaliased c → vapply ev (view c) = Some v → ∃ c', replays ev c c' v.
Proof.
  intros Hr Hu Hv.
  assert (∀ kind, se_Kind ev = kind → append_kind kind = true → ∃ c', replays ev c c' v) as Happ.
  { intros kind Hk Ha. assert (∃ t, se_Turn ev = Some t ∧ vapply (turn_event kind t) (view c) = Some v) as (t & Ht & Ht').
    { unfold vapply in Hv |- *. rewrite Hk in Hv. destruct kind; try done;
        (destruct (se_Turn ev) as [t|]; [|done]); by exists t. }
    pose proof (append_turn_value kind t c Ha Hu) as H.
    unfold replays, apply. rewrite Hk, Ht. destruct (alloc_turn t (cv_heap c)) as [t' h].
    destruct H as [H1 H2]. rewrite Ht' in H1. injection H1 as H1.
    exists (set_turns (cv_turns c ++ [t']) h c). split_and!; [by destruct kind|done|done|by destruct c]. }
  destruct (se_Kind ev) eqn:Hk; try (by apply (Happ _ eq_refl eq_refl)); unfold vapply in Hv; rewrite Hk in Hv;
    unfold replays, apply; rewrite Hk.
  - injection Hv as <-. eexists. split_and!; [done|by destruct c|by destruct c|by destruct c].
  - injection Hv as <-. destruct (Trim_replay (se_KeepLast ev) c Hr Hu) as (H1 & H2 & H3). eauto.
  - injection Hv as <-. destruct (Drop_replay (se_KeepLast ev) c Hr Hu) as (H1 & H2 & H3). eauto.
  - destruct (alloc_turns (se_Replacement ev) (cv_heap c)) as [ts h] eqn:E.
    destruct (alloc_turns_spec _ _ _ _ E) as (h1 & -> & Hread & Hn & Hl).
    destruct c as [a b d ts0 u f g m ss i r l h k].
    assert (fresh_in (h ++ h1) (ts0 ++ ts)) as Hf by by apply fresh_app.
    cbn [set_turns cv_turns cv_heap] in *. unfold ReplaceRange. cbn [cv_turns cv_heap].
    set (c1 := mkConv a b d ts0 u f g m ss i r l (h ++ h1) k).
    assert (read_turn (h ++ h1) <$> ts0 = read_turn h <$> ts0) as Hsame by by apply read_turns_app, Hu.
    unfold v_replace in Hv. cbn [v_turns view cv_heap cv_turns] in Hv. rewrite length_fmap in Hv.
    destruct (clamp_range (se_From ev) (se_To ev) (Z.of_nat (List.length ts0))) as [fr to] eqn:Ec.
    destruct (_ || _) eqn:Hneg; [done|]. cbn [mbind option_bind] in Hv. injection Hv as <-.
    destruct (Replace_value (se_From ev) (se_To ev) ts c1 fr to Hf Ec Hneg) as (H1 & H2 & H3).
    eexists. split_and!; [reflexivity|..]; rewrite emit_replaying by done; [|done|done].
    unfold v_set, view. cbn. f_equal. by rewrite !fmap_app, fmap_take, fmap_drop, Hsame, Hread.
  - injection Hv as <-. eexists. split; [done|]. destruct c, (se_Usage ev); by split_and!.
  - done.
Qed.

Lemma replay_replay evs c v check :
  cv_replaying c = true → unaliased c → vreplay evs (view c) = Some v →
  (∀ ev s, ev ∈ evs → se_Kind ev = EventInit → s ∈ se_Tools ev → ts_Name s ∈ cv_toolNames c) →
  ∃ c', replay clock check evs c = (Ok tt, c') ∧ view c' = v ∧ unaliased c' ∧ static c' = static c.
Proof.
  revert c. induction evs as [|ev evs IH]; intros c Hr Hu Hv Htools; simpl in Hv.
  { injection Hv as <-. exists c. by split_and!. }
  destruct (vapply ev (view c)) as [v1|] eqn:E; [|done]. cbn in Hv.
  destruct (apply_replay ev c v1 Hr Hu E) as (c1 & Ha & Hv1 & Hu1 & Hs1).
  cbn [replay]. rewrite Ha.
  assert (cv_toolNames c1 = cv_toolNames c ∧ cv_replaying c1 = true) as [Hn Hr1]
    by (unfold static in Hs1; split; congruence).
  assert (missing_tool ev c1 = None) as Hm.
  { unfold missing_tool. destruct (se_Kind ev) eqn:Hk; try done.
    destruct (List.find _ _) as [s|] eqn:Ef; [|done]. apply List.find_some in Ef as [Hin Hs].
    apply negb_true_iff, bool_decide_eq_false in Hs. destruct Hs. rewrite Hn.
    apply (Htools ev s); [by left|done|]. by apply list_elem_of_In. }
  rewrite Hm. replace (if check then None else None : option bytes) with (@None bytes) by by destruct check.
  destruct (IH c1 Hr1 Hu1) as (c2 & H2 & Hv2 & Hu2 & Hs2).
  - by rewrite Hv1.
  - rewrite Hn. intros ev' s Hin. apply Htools. by right.
  - exists c2. split_and!; [done|done|done|congruence].
Qed.

End Facts.

(** ** What a session store promises *)

Class SessionLaws (S : Type) {store : SessionStore S} {std : GoStd} := {
  has_logs : S → logs SEvent → Prop;
  law_Append N now id ev s st :
    has_logs s st → fits N now ev → Z.of_nat N < two63 →
    (Datatypes.S (List.length (default [] (st !! id))) ≤ N)%nat →
    let '(r, s') := ss_Append now id ev s in
    let '(r', st') := spec_append now id ev st in r = r' ∧ has_logs s' st';
  law_Load id s st :
    has_logs s st → (ss_Load id s).1 = spec_found id st (λ log, log) ∧ has_logs (ss_Load id s).2 st;
  law_Truncate id n s st :
    has_logs s st → let '(r, s') := ss_Truncate id n s in
    let '(out, st') := spec_log (OpTruncate id n) st in OutUnit r = out ∧ has_logs s' st' }.

(** [JSONStore] keeps it, by the refinement of the append-only store. *)
Definition json_session_store (root : bytes) `{GoStd} : SessionStore world := {|
  ss_Append now id ev w := let '(r, _, w) := Append root io_fine now id (Some ev) w in (r, w);
  ss_Load id w := Load root io_fine id w;
  ss_Truncate id n w := Truncate root io_fine id n w |}.

Definition json_session_laws (root : bytes) `{std : GoStd} :
  @SessionLaws world (json_session_store root) std.
Proof.
  refine {| has_logs := stored root |}.
  - intros N now id ev s st Hs Hfit HN Hlen. cbn [ss_Append json_session_store].
    pose proof (append_refines N root s st now id ev Hs Hfit HN Hlen) as H.
    by destruct (Append _ _ _ _ _ _) as [[r rec] w].
  - intros id s st Hs. cbn [ss_Load json_session_store]. pose proof (Load_refines root s st id Hs) as H. cbn [spec_log] in H.
    destruct (Load _ _ _ _). destruct H as [H ?]. by injection H as ->.
  - intros id n s st Hs. exact (Truncate_refines root s st id n Hs).
Defined.

(** ** Records up to their number and time, and normal forms *)

Definition strip (e : SEvent) : SEvent :=
  let '(mkSEvent _ kd _ ins tools turn keep fr to repl us) := e in
  mkSEvent 0 kd zero_time ins tools turn keep fr to repl us.

Section Restore.
Context {S : Type} {store : SessionStore S} {std : GoStd} {laws : SessionLaws S}.
Context (clock : nat → bytes).

Lemma strip_stamp n now e : strip (norm_sevent (sevent_stamp n now e)) = strip (norm_sevent e).
Proof. by destruct e. Qed.

Lemma vapply_strip e v : vapply (strip e) v = vapply e v.
Proof. by destruct e. Qed.

Lemma vreplay_strip evs evs' v : strip <$> evs = strip <$> evs' → vreplay evs v = vreplay evs' v.
Proof.
  revert evs' v. induction evs as [|e evs IH]; intros [|e' evs'] v H; try done.
  rewrite !fmap_cons in H. injection H as He H. cbn [vreplay].
  rewrite <-(vapply_strip e), He, vapply_strip. destruct (vapply e' v); [|done]. by apply IH.
Qed.

Definition vnorm (v : vconv) : vconv :=
  mkV (v_instructions v) (norm_spec <$> v_specs v) (norm_turn <$> v_turns v) (v_usage v).

Lemma v_drop_rev_norm keep seen ts :
  v_drop_rev keep seen (norm_turn <$> ts) = norm_turn <$> v_drop_rev keep seen ts.
Proof.
  revert seen. induction ts as [|t ts IH]; intros seen; [done|]. rewrite !fmap_cons. cbn [v_drop_rev].
  rewrite IH, fmap_cons. f_equal.
  unfold v_output. destruct t as [r x [p|] ti ca raw]; cbn; [|by destruct r].
  destruct r; try done. by destruct (_ || _).
Qed.

(** Normalising commutes with every event. *)
Lemma vapply_norm e v : vapply (norm_sevent e) (vnorm v) = vnorm <$> vapply e v.
Proof.
  destruct e as [sq kd ts ins tools turn keep fr to repl us], v as [vi vs vt vu].
  unfold vapply, vnorm, norm_sevent, v_set.
  cbn [se_Kind se_Instructions se_Tools se_Turn se_KeepLast se_From se_To se_Replacement se_Usage
       v_instructions v_specs v_turns v_usage].
  destruct kd; cbn [mbind option_bind fmap option_fmap option_map v_turns v_instructions v_specs v_usage];
    try done; try (destruct turn as [t|]; cbn; [|done]; by rewrite fmap_app).
  - do 2 f_equal. unfold v_trim. rewrite length_fmap. destruct (_ <=? _); [done|].
    rewrite fmap_drop, back_up_fmap; done.
  - do 2 f_equal. unfold v_drop. by rewrite <-fmap_reverse, v_drop_rev_norm, fmap_reverse.
  - unfold v_replace. rewrite length_fmap. destruct (clamp_range _ _ _) as [f t].
    destruct (_ || _); [done|]. cbn [mbind option_bind fmap option_fmap option_map v_turns v_instructions v_specs v_usage]. by rewrite !fmap_app, fmap_take, fmap_drop.
  - by destruct us.
Qed.

Lemma vreplay_norm evs v : vreplay (norm_sevent <$> evs) (vnorm v) = vnorm <$> vreplay evs v.
Proof.
  revert v. induction evs as [|e evs IH]; intros v; [done|]. rewrite fmap_cons. cbn [vreplay].
  rewrite vapply_norm. destruct (vapply e v); [apply IH|done].
Qed.

(** ** The logs behind the stores *)

(** [s] holds, for [id], a log of the events [L] up to numbers and times. *)
Definition has_log (id : bytes) (L : list SEvent) (s : S) : Prop :=
  validateID id = None ∧
  ∃ st log, has_logs s st ∧ st !! id = Some log ∧ strip <$> log = strip <$> L.

Definition event_fits (N : nat) (ev : SEvent) : Prop := ∀ k, fits N (clock k) ev.

Lemma append_has_log N id L ev k s r s' :
  has_log id L s → L ≠ [] → no_init ev → event_fits N ev → Z.of_nat N < two63 →
  (List.length L < N)%nat → ss_Append (clock k) id ev s = (Ok r, s') →
  has_log id (L ++ [norm_sevent ev]) s'.
Proof.
  intros (Hid & st & log & Hs & Hlog & Hstrip) HL Hno Hfit HN Hlen Ha.
  assert (List.length log = List.length L) as Hll.
  { apply (f_equal List.length) in Hstrip. by rewrite !length_fmap in Hstrip. }
  pose proof (law_Append N (clock k) id ev s st Hs (Hfit k) HN) as H. rewrite Hlog in H.
  specialize (H ltac:(cbn [default]; unfold Datatypes.id; lia)). rewrite Ha in H. unfold spec_append in H.
  rewrite Hid, Hlog in H. cbn [default] in H. unfold Datatypes.id in H.
  assert (rec_init ev = false) as Hi by by apply bool_decide_eq_false_2.
  rewrite Hi in H. destruct log as [|d log]; [destruct L; [done|simpl in Hll; lia]|].
  destruct (rec_marshal _) as [l|]; [|by destruct H]. destruct H as [_ H].
  split; [done|]. eexists _, _. split_and!; [exact H|apply lookup_insert_eq|].
  rewrite !fmap_app, Hstrip. f_equal. exact (f_equal (λ x, [x]) (strip_stamp _ _ ev)).
Qed.

Lemma seed_has_log N id ev k s st r s' :
  has_logs s st → st !! id = None → se_Kind ev = EventInit → event_fits N ev →
  Z.of_nat N < two63 → (0 < N)%nat → ss_Append (clock k) id ev s = (Ok r, s') →
  has_log id [norm_sevent ev] s'.
Proof.
  intros Hs Hlog Hi Hfit HN Hlen Ha.
  pose proof (law_Append N (clock k) id ev s st Hs (Hfit k) HN) as H. rewrite Hlog in H.
  specialize (H ltac:(cbn; lia)). rewrite Ha in H. unfold spec_append in H.
  destruct (validateID id) eqn:Hid; [by destruct H|]. rewrite Hlog in H. cbn [default] in H.
  assert (rec_init ev = true) as Hi' by by apply bool_decide_eq_true_2.
  rewrite Hi' in H. destruct (rec_marshal _) as [l|]; [|by destruct H]. destruct H as [_ H].
  split; [done|]. eexists _, _. split_and!; [exact H|apply lookup_insert_eq|].
  exact (f_equal (λ x, [x]) (strip_stamp _ _ ev)).
Qed.

Lemma append_all_err id ev ss k e : (append_all clock id ev ss k (Some e)).2 = Some e.
Proof.
  revert k. induction ss as [|s ss IH]; intros k; [done|]. simpl.
  destruct (ss_Append _ _ _ _) as [[] s']; specialize (IH (k + 1)%nat);
    destruct (append_all _ _ _ _ _ _) as [[]]; done.
Qed.

Lemma append_all_logs N id L ev ss k err ss' k' :
  Forall (has_log id L) ss → L ≠ [] → no_init ev → event_fits N ev → Z.of_nat N < two63 →
  (List.length L < N)%nat → append_all clock id ev ss k err = (ss', k', None) →
  err = None ∧ Forall (has_log id (L ++ [norm_sevent ev])) ss'.
Proof.
  intros Hss HL Hno Hfit HN Hlen. revert k err ss'. induction Hss as [|s ss Hs Hss IH]; intros k err ss' Ha.
  { simpl in Ha. injection Ha as <- <- ->. by split. }
  simpl in Ha. destruct (ss_Append _ _ _ _) as [[r|e] s'] eqn:Es.
  - destruct (append_all _ _ _ ss _ _) as [[ss1 k1] err1] eqn:E. injection Ha as <- <- ->.
    destruct (IH _ _ _ E) as [-> H]. split; [done|]. constructor; [|done].
    by eapply append_has_log.
  - assert (∃ e', match err with Some e0 => Some e0 | None => Some e end = Some e') as [e' He] by by destruct err; eauto.
    pose proof (append_all_err id ev ss (k + 1) e') as Hne.
    replace (match err with Some _ => err | None => Some e end) with (Some e') in Ha by by destruct err.
    destruct (append_all _ _ _ ss _ _) as [[ss1 k1] err1]. simpl in Hne. by subst.
Qed.

Lemma emits_err id x evs y : emits clock id x evs y → y.2 = None → x.2 = None.
Proof.
  intros H Hy. induction H as [x|ss k err evs y H IH|ev evs ss k err y H IH]; [done|by apply IH|].
  destruct err as [e|]; [|done]. specialize (IH Hy). by rewrite append_all_err in IH.
Qed.

Lemma emits_logs N id L x evs y :
  emits clock id x evs y → y.2 = None → Forall (has_log id L) x.1.1 → L ≠ [] →
  Forall no_init evs → Forall (event_fits N) evs → Z.of_nat N < two63 →
  (List.length L + List.length evs ≤ N)%nat →
  x.2 = None ∧ Forall (has_log id (L ++ (norm_sevent <$> evs))) y.1.1.
Proof.
  intros H Hy Hx HL Hno Hfit HN. revert L Hx HL.
  induction H as [x|ss k err evs y H IH|ev evs ss k err y H IH]; intros L Hx HL Hlen.
  - rewrite app_nil_r. by split.
  - by apply IH.
  - inversion Hno as [|? ? Hno1 Hno2]; subst. inversion Hfit as [|? ? Hf1 Hf2]; subst. simpl in Hlen.
    destruct (append_all clock id ev ss k err) as [[ss1 k1] err1] eqn:Ea. cbn [fst snd] in *.
    pose proof (emits_err _ _ _ _ H Hy) as He. cbn [snd] in He. subst err1.
    destruct (append_all_logs N id L ev ss k err ss1 k1) as [-> H1]; try done; [lia|].
    destruct (IH Hy Hno2 Hf2 (L ++ [norm_sevent ev])) as [_ H2]; [done|by destruct L|rewrite length_app; simpl; lia|].
    split; [done|]. rewrite fmap_cons. by rewrite <-app_assoc in H2.
Qed.

(** ** Opening a session *)

(** [s] holds no log for [id]. *)
Definition no_log (id : bytes) (s : S) : Prop := ∃ st, has_logs s st ∧ st !! id = None.

Lemma no_log_Load id s :
  no_log id s → no_log id (ss_Load id s).2 ∧
  (ss_Load id s).1 = Err (default ErrNotFound (validateID id)).
Proof.
  intros (st & Hs & Hn). destruct (law_Load id s st Hs) as [-> H]. split; [by exists st|].
  unfold spec_found. rewrite Hn. by destruct (validateID id).
Qed.

Lemma has_log_Load id L s :
  has_log id L s → ∃ log s', ss_Load id s = (Ok log, s') ∧ strip <$> log = strip <$> L.
Proof.
  intros (Hid & st & log & Hs & Hlog & Hstrip). destruct (law_Load id s st Hs) as [H _].
  unfold spec_found in H. rewrite Hid, Hlog in H. destruct (ss_Load id s) as [r s']. simpl in H. subst.
  by eexists _, _.
Qed.

Lemma load_none id i ss :
  validateID id = None → Forall (no_log id) ss →
  ∃ ss', loadSessionEvents id i ss = (Err ErrNoSession, ss') ∧ Forall (no_log id) ss'.
Proof.
  intros Hid Hss. revert i. induction Hss as [|s ss Hs Hss IH]; intros i; [by exists []|].
  destruct (no_log_Load id s Hs) as [Hs' Hl]. simpl. destruct (ss_Load id s) as [r s'].
  simpl in Hl, Hs'. subst r. rewrite Hid. cbn [default].
  destruct (IH (i + 1)%nat) as (ss' & -> & Hss'). exists (s' :: ss'). split; [done|by constructor].
Qed.

Lemma seed_logs N id ev i k ss k' ss' :
  Forall (no_log id) ss → se_Kind ev = EventInit → event_fits N ev → Z.of_nat N < two63 → (0 < N)%nat →
  seed clock id ev i k ss = (None, k', ss') → Forall (has_log id [norm_sevent ev]) ss'.
Proof.
  intros Hss Hk Hfit HN Hlen. revert i k ss'. induction Hss as [|s ss Hs Hss IH]; intros i k ss' H; simpl in H.
  { injection H as <- <-. constructor. }
  destruct (ss_Append _ _ _ _) as [[r|e] s'] eqn:E; [|done].
  destruct (seed _ _ _ _ _ _) as [[r' k1] ss1] eqn:E1. injection H as -> <- <-.
  destruct Hs as (st & Hs & Hn). constructor; [|by eapply IH]. by eapply seed_has_log.
Qed.

(** A session opened on stores that do not know it starts a log in each. *)
Lemma open_new N id stores c c1 ss :
  Forall (no_log id) stores → cv_replaying c = false →
  event_fits N (init_event (cv_instructions c) (cv_toolSpecs c)) → Z.of_nat N < two63 → (0 < N)%nat →
  OpenSession clock id stores c = (Ok tt, c1, ss) →
  cv_turns c = [] ∧ view c1 = view c ∧ unaliased c1 ∧ cv_replaying c1 = false ∧ cv_sessionID c1 = id ∧
  Forall (has_log id [norm_sevent (init_event (cv_instructions c) (cv_toolSpecs c))]) (cv_stores c1).
Proof.
  intros Hss Hr Hfit HN Hlen H. unfold OpenSession in H.
  destruct stores as [|s0 ss0]; [done|]. set (stores := s0 :: ss0) in *. destruct (cv_stores c); [|done].
  destruct (cv_turns c) eqn:Et; [|done].
  assert (validateID id = None) as Hid.
  { destruct (validateID id) as [e|] eqn:Hid; [|done]. exfalso. unfold stores in *. inversion Hss as [|? ? Hs0 _]; subst.
    destruct (no_log_Load id s0 Hs0) as [_ Hl]. simpl in H. destruct (ss_Load id s0) as [r s'].
    simpl in Hl. subst r. rewrite Hid in H. simpl in H.
    assert (e ≠ ErrNotFound) as He by (intros ->; revert Hid; unfold validateID; repeat case_match; done).
    destruct e; done. }
  destruct (load_none id 0 stores Hid Hss) as (ss' & El & Hss'). cbv zeta in H. rewrite El in H.
  destruct (seed _ _ _ _ _ _) as [[[e|] k] ss1] eqn:Es; [done|]. injection H as <- <-.
  apply (seed_logs N) in Es; [|done..]. destruct c. simpl in *. subst.
  split_and!; try done. split; constructor.
Qed.

(** A session opened on a store that has its log replays it. *)
Lemma open_known id L s c v :
  has_log id L s → cv_turns c = [] → cv_stores c = [] → vreplay L (view c) = Some v →
  (∀ ev t, ev ∈ L → se_Kind ev = EventInit → t ∈ se_Tools ev → ts_Name t ∈ cv_toolNames c) →
  ∃ c' ss, OpenSession clock id [s] c = (Ok tt, c', ss) ∧ view c' = v.
Proof.
  intros Hs Ht Hst Hv Htools. destruct (has_log_Load id L s Hs) as (log & s' & Hl & Hstrip).
  unfold OpenSession. rewrite Hst, Ht. cbn [loadSessionEvents]. rewrite Hl. cbv zeta.
  destruct (replay_replay clock log (set_replaying true c) v true) as (c' & -> & Hv' & _ & _).
  - by destruct c.
  - destruct c. cbn in *. subst. split; constructor.
  - rewrite (vreplay_strip _ _ _ Hstrip). by destruct c.
  - intros ev t Hev Hk Hin. apply (list_elem_of_fmap_2 strip) in Hev. rewrite Hstrip in Hev.
    apply list_elem_of_fmap in Hev as (ev' & E & Hev'). replace (cv_toolNames (set_replaying true c)) with (cv_toolNames c) by by destruct c.
    destruct ev as [a b d e f g h i j k l], ev' as [a' b' d' e' f' g' h' i' j' k' l']. cbn in *.
    injection E as -> -> -> -> -> -> -> -> ->. by apply (Htools _ t Hev').
  - cbn [mirrorSessionEvents]. rewrite bool_decide_eq_true_2 by done.
    eexists _, _. split; [done|]. rewrite <-Hv'. by destruct c'.
Qed.

Lemma vnorm_set_init v v0 ins specs :
  v_instructions v = ins → v_specs v = specs → v_turns v = [] →
  v_turns v0 = [] → v_usage v0 = v_usage v →
  vapply (norm_sevent (init_event ins specs)) v0 = Some (vnorm v).
Proof. destruct v, v0. cbn. by intros <- <- -> -> ->. Qed.


End Restore.

(** ** A concrete session *)

Definition sample_clock : nat → bytes := λ _, sample_now.
Definition sample_call : ToolCall := mkCall (s2b "c1") (s2b "grep") (s2b "{}").
Definition sample_conv (S : Type) : Conversation S :=
  mkConv (s2b "be brief") [mkSpec (s2b "grep") (s2b "search") None] [s2b "grep"] [] zero_usage
    DefaultAutoShrinkConfig None 20 [] [] false None [] 0.
Definition sample_muts : list conv_op :=
  [CUser (s2b "hi"); CCall sample_call; COutput (s2b "c1") (s2b "found") None; CDrop 0;
   CAssistant (s2b "done"); CTrim 1].
Definition sample_evs : list SEvent :=
  [init_event (s2b "be brief") [mkSpec (s2b "grep") (s2b "search") None];
   turn_event EventAppendUser (mkTurn RoleUser (s2b "hi") None TierVolatile sample_now []);
   turn_event EventAppendToolCall (mkTurn RoleToolCall []
     (Some (mkPayload (s2b "c1") (s2b "grep") (s2b "{}") [] [])) TierToolIO sample_now []);
   turn_event EventAppendToolOutput (mkTurn RoleToolOutput []
     (Some (mkPayload (s2b "c1") [] [] (s2b "found") [])) TierToolIO sample_now []);
   keep_event EventDropToolDetails 0;
   turn_event EventAppendAssistant
     (mkTurn RoleAssistant (s2b "done") None TierStableHistory sample_now []);
   keep_event EventTrim 1].

Ltac ok_small :=
  match goal with
  | |- i64_ok _ => vm_compute; split; congruence
  | |- time_ok _ => by apply sample_time_ok
  | |- utf8 _ => by apply utf8_ascii
  | |- Forall _ [] => apply List.Forall_nil
  | |- Forall _ (_ :: _) => apply List.Forall_cons; ok_small
  | |- opt_ok _ None => exact I
  | |- opt_ok _ (Some _) => cbn [opt_ok]; ok_small
  | |- turn_ok _ => unfold turn_ok; cbn; ok_small
  | |- spec_ok _ => unfold spec_ok; cbn; ok_small
  | |- payload_ok _ => unfold payload_ok; cbn; ok_small
  | |- _ ∧ _ => split; ok_small
  | |- _ => done
  end.

Lemma sample_evs_fit : Forall (@event_fits plain_std sample_clock 7) sample_evs.
Proof.
  unfold sample_evs.
  do 7 (apply List.Forall_cons; [intros clk; unfold fits; split;
    [unfold rec_ok, session_log_laws, sevent_ok; cbn [init_event turn_event keep_event se_Seq se_Kind se_Timestamp se_Instructions se_Tools se_Turn se_KeepLast se_From se_To se_Replacement se_Usage]; ok_small
    |split; [by apply sample_time_ok|]; intros k l Hk Hl;
     do 8 (destruct k as [|k]; [vm_compute in Hl; injection Hl as <-; by vm_compute|]); lia]|]).
  apply List.Forall_nil.
Qed.

#[local] Existing Instance plain_std.
#[local] Instance sample_store : SessionStore world := json_session_store sample_root.
#[local] Instance sample_laws : SessionLaws world := json_session_laws sample_root.

Definition opened : res conv_err unit * Conversation world * list world :=
  OpenSession sample_clock (s2b "s1") [mkWorld ∅ ∅; mkWorld ∅ ∅] (sample_conv world).
Abbreviation sample_end := (run_conv sample_clock sample_muts opened.1.2).

Lemma no_log_empty id : no_log id (mkWorld ∅ ∅).
Proof. exists ∅. split; [|done]. exact (stored_init sample_root). Qed.


(** Turns that share a payload are truncated together, but replayed one by one. *)
Definition one_output : Conversation world :=
  AppendToolOutput sample_clock (s2b "k") (replicate 3000 "x"%char) None (sample_conv world).
Lemma shared_payload_replays_apart :
  v_turns (view (DropToolDetails sample_clock 1 (default one_output (ReplaceRange sample_clock 1 1 (cv_turns one_output) one_output))).2)
  ≠ v_turns (view (DropToolDetails sample_clock 1
      (do_conv sample_clock (CReplace 1 1 (read_turn (cv_heap one_output) <$> cv_turns one_output)) one_output)).2).
Proof. intros E. vm_compute in E. discriminate E. Qed.
