(* ===== verification/ConversationRun.v ===== *)
(** The conversation between requests: shrinking keeps every tool output behind
    its call, the request loop sends only histories whose calls are all
    answered, and the shares of [UsageByRole] add up to its budget. *)
From Stdlib Require Import SpecFloat.
From S2P Require Import Prelude Json GoText Text Event Log LogFacts Record Session Conversation ConversationFacts.

(** ** Outputs behind their calls *)

(** The [i]-th turn is an output that follows its call with only outputs and
    reasoning between the two. *)
Definition called (ts : list vturn) (i : nat) : Prop :=
  ∃ t p j u q, ts !! i = Some t ∧ tn_Role t = RoleToolOutput ∧ tn_Tool t = Some p ∧
    (j < i)%nat ∧ ts !! j = Some u ∧ tn_Role u = RoleToolCall ∧ tn_Tool u = Some q ∧
    tp_CallID q = tp_CallID p ∧
    ∀ k x, (j < k < i)%nat → ts !! k = Some x → stays_with_previous (tn_Role x) = true.

(** All outputs do: the shape that responses with at most one call leave. *)
Definition paired (ts : list vturn) : Prop :=
  ∀ i t, ts !! i = Some t → tn_Role t = RoleToolOutput → is_Some (tn_Tool t) → called ts i.

Lemma back_up_stop {P} (ts : list (Turn P)) cut t :
  ts !! back_up ts cut = Some t → back_up ts cut = 0%nat ∨ stays_with_previous (tn_Role t) = false.
Proof.
  induction cut as [|cut IH]; cbn [back_up]; [by left|].
  destruct (ts !! S cut) as [u|] eqn:E.
  - destruct (stays_with_previous (tn_Role u)) eqn:Es; [exact IH|].
    rewrite E. intros [= ->]. by right.
  - rewrite E. done.
Qed.

(** The cut backs up over outputs and reasoning only. *)
Lemma back_up_between {P} (ts : list (Turn P)) cut k t :
  (back_up ts cut < k ≤ cut)%nat → ts !! k = Some t → stays_with_previous (tn_Role t) = true.
Proof.
  induction cut as [|cut IH]; cbn [back_up]; [lia|]. intros Hk Ht.
  destruct (ts !! S cut) as [u|] eqn:E; [|lia].
  destruct (stays_with_previous (tn_Role u)) eqn:Es; [|lia].
  destruct (decide (k = S cut)) as [->|]; [congruence|]. apply IH; [lia|done].
Qed.

(** Roles and call ids are all that pairing looks at. *)
Definition same_ids (t u : vturn) : Prop :=
  tn_Role t = tn_Role u ∧ tp_CallID <$> tn_Tool t = tp_CallID <$> tn_Tool u.

Lemma same_call_ids_trans ts us vs : Forall2 same_ids ts us → Forall2 same_ids us vs → Forall2 same_ids ts vs.
Proof.
  intros H. revert vs. induction H as [|t u ts us [H1 H2] _ IH]; intros vs Hv; inversion Hv as [|? v ? ? [H3 H4]];
    subst; constructor; [split; congruence|auto].
Qed.
Lemma same_ids_refl ts : Forall2 same_ids ts ts.
Proof. apply Forall_Forall2_diag, Forall_forall. by split. Qed.

(** A cut does not fall before an output or reasoning. *)
Definition clean_cut (ts : list vturn) (cut : nat) : Prop :=
  ∀ t, ts !! cut = Some t → cut = 0%nat ∨ stays_with_previous (tn_Role t) = false.

(** [us] is [ts] shrunk: a clean cut, details dropped, at most a summary in front. *)
Definition shrunk (cut : nat) (pre ts us : list vturn) : Prop :=
  ∃ rest, us = pre ++ rest ∧ Forall2 same_ids (drop cut ts) rest ∧ clean_cut ts cut ∧
    (List.length pre ≤ 1)%nat ∧ Forall (λ t, tn_Role t ≠ RoleToolOutput) pre.

Lemma clean_same ts us cut : Forall2 same_ids ts us → clean_cut us cut → clean_cut ts cut.
Proof.
  intros Hs Hc t Ht. destruct (Forall2_lookup_l _ _ _ _ _ Hs Ht) as (u & Hu & Hr & _).
  rewrite Hr. by apply Hc.
Qed.
Lemma shrunk_same ts us vs cut pre :
  Forall2 same_ids ts us → shrunk cut pre us vs → shrunk cut pre ts vs.
Proof.
  intros Hs (rest & -> & Hr & Hc & Hl). exists rest. split_and!; [done| |by eapply clean_same|apply Hl..].
  eapply same_call_ids_trans; [by apply Forall2_drop|done].
Qed.
Lemma shrunk_nothing ts us : Forall2 same_ids ts us → shrunk 0 [] ts us.
Proof. intros H. exists us. split_and!; [done|done|by left|cbn; lia|constructor]. Qed.

(** An output that follows its call keeps it. *)
Lemma shrunk_called cut pre ts us i :
  shrunk cut pre ts us → called ts (cut + i) → called us (List.length pre + i).
Proof.
  intros (rest & -> & Hs & Hc & _) (t & p & j & u & q & Hi & Hr & Ht & Hj & Hu & Hur & Hq & Hid & Hb).
  assert (cut ≤ j)%nat as Hle.
  { destruct (decide (cut ≤ j)%nat) as [|Hlt]; [done|]. exfalso.
    destruct (ts !! cut) as [x|] eqn:Ex.
    - destruct (Hc x Ex) as [->|Hst]; [lia|]. destruct (decide (i = 0%nat)) as [->|].
      + rewrite Nat.add_0_r in Hi. simplify_eq. by rewrite Hr in Hst.
      + rewrite (Hb cut x) in Hst; [done|lia|done].
    - apply lookup_ge_None in Ex. apply lookup_lt_Some in Hi. lia. }
  assert (∀ k x, ts !! k = Some x → (cut ≤ k)%nat → ∃ y, (pre ++ rest) !! (List.length pre + (k - cut))%nat = Some y ∧
    same_ids x y) as Hget.
  { intros k x Hk Hck. rewrite lookup_app_r by lia. replace (_ + _ - _)%nat with (k - cut)%nat by lia.
    apply (Forall2_lookup_l _ _ _ _ _ Hs). rewrite lookup_drop. by replace (cut + (k - cut))%nat with k by lia. }
  destruct (Hget _ _ Hi ltac:(lia)) as (t' & Ht' & Hr1 & Hp1). rewrite Ht in Hp1.
  destruct (Hget _ _ Hu Hle) as (u' & Hu' & Hr2 & Hp2). rewrite Hq in Hp2.
  destruct (tn_Tool t') as [p'|] eqn:E1; [|done]. destruct (tn_Tool u') as [q'|] eqn:E2; [|done].
  simplify_eq/=. exists t', p', (List.length pre + (j - cut))%nat, u', q'.
  replace (cut + i - cut)%nat with i in Ht' by lia. split_and!; try done; try congruence; [lia|].
  intros k x Hk Hx. rewrite lookup_app_r in Hx by lia.
  destruct (Forall2_lookup_r _ _ _ _ _ Hs Hx) as (y & Hy & Hry & _). rewrite <-Hry.
  rewrite lookup_drop in Hy. eapply Hb; [|exact Hy]. lia.
Qed.

Lemma shrunk_paired cut pre ts us : shrunk cut pre ts us → paired ts → paired us.
Proof.
  intros H Hp i t Hi Hr Hv. pose proof H as (rest & -> & Hs & _ & _ & Hpre).
  destruct (decide (i < List.length pre)%nat) as [Hlt|Hge].
  { rewrite lookup_app_l in Hi by done. rewrite Forall_lookup in Hpre. by destruct (Hpre _ _ Hi). }
  replace i with (List.length pre + (i - List.length pre))%nat by lia.
  eapply shrunk_called; [exact H|]. rewrite lookup_app_r in Hi by lia.
  destruct (Forall2_lookup_r _ _ _ _ _ Hs Hi) as (x & Hx & Hxr & Hxt). rewrite lookup_drop in Hx.
  eapply Hp; [exact Hx|congruence|]. destruct (tn_Tool x); [done|]. by destruct Hv as [? Hv]; rewrite Hv in Hxt.
Qed.

Section Run.
Context {S : Type} {store : SessionStore S} (clock : nat → bytes).
Implicit Types c : Conversation S.

(** ** Shrinking *)

Definition turns c : list vturn := v_turns (view c).

Lemma turns_emit ev c : turns (emit clock ev c) = turns c.
Proof. unfold turns. by destruct (emit_view clock ev c) as (-> & _). Qed.

Lemma turns_set ts c : turns (set_turns ts (cv_heap c) c) = read_turn (cv_heap c) <$> ts.
Proof. by destruct c. Qed.

Lemma length_turns c : List.length (turns c) = List.length (cv_turns c).
Proof. unfold turns. cbn. by rewrite length_fmap. Qed.

Lemma back_up_turns c cut : back_up (cv_turns c) cut = back_up (turns c) cut.
Proof. unfold turns. cbn. by rewrite back_up_fmap. Qed.

(** [Trim] drops a prefix, keeps at least the turns it is asked to, and more
    only to keep outputs and reasoning with what precedes them. *)
Lemma Trim_turns n c :
  let '(dropped, c') := Trim clock n c in
  turns c' = drop (Z.to_nat dropped) (turns c) ∧ 0 ≤ dropped ∧
  Z.min (Z.of_nat (List.length (turns c))) (Z.max n 0) ≤ Z.of_nat (List.length (turns c')) ∧
  (∀ k t, dropped < Z.of_nat k ≤ Z.of_nat (List.length (turns c)) - Z.max n 0 →
    turns c !! k = Some t → stays_with_previous (tn_Role t) = true) ∧
  clean_cut (turns c) (Z.to_nat dropped).
Proof.
  unfold Trim. assert ((if n <? 0 then 0 else n) = Z.max n 0) as -> by (destruct (Z.ltb_spec n 0); lia).
  destruct (Z.leb_spec (Z.of_nat (List.length (cv_turns c))) (Z.max n 0)) as [Hle|Hgt];
    rewrite <-length_turns in *.
  { split_and!; [done|lia|lia|lia|by left]. }
  rewrite turns_emit, turns_set, fmap_drop, back_up_turns.
  pose proof (back_up_le (turns c) (List.length (turns c) - Z.to_nat (Z.max n 0))) as Hb.
  rewrite Nat2Z.id. change (read_turn (cv_heap c) <$> cv_turns c) with (turns c).
  split_and!; [done|lia|rewrite length_drop; lia| |intros t; apply back_up_stop].
  intros k t Hk. apply (back_up_between _ (List.length (turns c) - Z.to_nat (Z.max n 0))). lia.
Qed.

Lemma Compress_turns sm upto c :
  ∃ cut pre, shrunk cut pre (turns c) (turns (Compress clock sm upto c).2).
Proof.
  assert (∃ cut pre, shrunk cut pre (turns c) (turns c)) as Hsame
    by (exists 0%nat, []; apply shrunk_nothing, same_ids_refl).
  unfold Compress. destruct sm as [sm|]; [|done]. destruct (upto <=? 0); [done|].
  rewrite back_up_turns. set (cut := Nat.min _ _). pose proof (λ t, back_up_stop (turns c) cut t) as Hc.
  destruct (back_up (turns c) cut) as [|m] eqn:E; [done|]. destruct (sm _ _) as [summary|e]; [|done].
  assert (turns (tick c) = turns c ∧ cv_heap (tick c) = cv_heap c ∧ cv_turns (tick c) = cv_turns c)
    as (Ht & Hh & Hts) by by destruct c.
  unfold ReplaceRange. destruct (clamp_range _ _ _) as [f t] eqn:Ec. rewrite clamp_range_eq in Ec.
  injection Ec as <- <-. rewrite Hts, <-length_turns.
  pose proof (back_up_le (turns c) cut) as Hle. rewrite E in Hle.
  assert (cut ≤ List.length (turns c))%nat as Hcl by (unfold cut; rewrite length_turns; lia).
  destruct (_ || _); [done|]. cbn [snd]. rewrite turns_emit, turns_set, !fmap_app, fmap_drop, Hh.
  replace (Z.to_nat (Z.min (Z.max 0 0) _)) with 0%nat by lia. rewrite take_0. cbn [fmap list_fmap app].
  change (read_turn (cv_heap c) <$> cv_turns c) with (turns c).
  replace (Z.to_nat _) with (Datatypes.S m) by lia. eexists (Datatypes.S m), [_].
  exists (drop (Datatypes.S m) (turns c)).
  split_and!; [done|apply same_ids_refl|rewrite <-E; intros t Ht0; rewrite E in *; auto|cbn; lia|by constructor].
Qed.

Lemma Compress_failed sm upto c e c' : Compress clock sm upto c = (Err e, c') → c' = c.
Proof.
  unfold Compress. destruct sm as [sm|]; [|done]. destruct (_ <=? _); [done|].
  destruct (back_up _ _); [done|]. destruct (sm _ _); [|by intros [= _ <-]].
  destruct (ReplaceRange _ _ _ _ _); [done|]. by intros [= _ <-].
Qed.

Lemma drop_step_ids keep acc t l :
  tp_CallID (deref (drop_step keep acc t).2 l) = tp_CallID (deref acc.2 l).
Proof.
  destruct acc as [[seen tr] h]. unfold drop_step. destruct (tn_Role t), (tn_Tool t) as [l'|]; try done.
  destruct (_ <=? _); [done|]. destruct (is_empty _); [done|]. cbn [snd]. unfold deref.
  destruct (decide (l = l')) as [->|]; [|by rewrite list_lookup_insert_ne].
  destruct (decide (l' < List.length h)%nat).
  - by rewrite list_lookup_insert_eq.
  - rewrite !lookup_ge_None_2; [done|lia|rewrite length_insert; lia].
Qed.

Lemma drop_steps_ids keep ts acc l :
  tp_CallID (deref (foldl (drop_step keep) acc ts).2 l) = tp_CallID (deref acc.2 l).
Proof.
  revert acc. induction ts as [|t ts IH]; intros acc; [done|]. cbn [foldl]. by rewrite IH, drop_step_ids.
Qed.

Lemma Drop_turns n c : Forall2 same_ids (turns c) (turns (DropToolDetails clock n c).2).
Proof.
  unfold DropToolDetails. set (keep := if n <? 0 then 0 else n).
  pose proof (drop_steps_ids keep (reverse (cv_turns c)) (0, 0, cv_heap c)) as H.
  destruct (foldl _ _ _) as [[s tr] h]. cbn [fst snd] in *.
  assert (Forall2 same_ids (turns c) (turns (set_turns (cv_turns c) h c))) as Hs.
  { destruct c as [a b d ts u f g m ss i r l h0 k]. unfold turns. cbn in *.
    apply Forall2_fmap_2, Forall_Forall2_diag, Forall_forall. intros t _. split; [done|]. cbn.
    destruct (tn_Tool t); [cbn; by rewrite H|done]. }
  destruct (0 <? tr); [by rewrite turns_emit|done].
Qed.

(** C17: automatic shrinking, whatever the threshold, the clock and the
    summarizer, and also when summarising fails, cuts off a prefix of the turns
    and puts at most one summary in its place; every output that it keeps and
    that followed its call with only outputs and reasoning in between still does.
    So if every output did, every output does. (An output that another call
    separates from its own, as after a response with several calls, may lose it:
    [parallel_calls_cut].) *)
Theorem shrink_keeps_pairs c :
  let c' := (maybeAutoShrink clock c).2 in
  ∃ cut pre, shrunk cut pre (turns c) (turns c') ∧
    (∀ i, called (turns c) (cut + i) → called (turns c') (List.length pre + i)) ∧
    (paired (turns c) → paired (turns c')).
Proof.
  assert (∃ cut pre, shrunk cut pre (turns c) (turns (maybeAutoShrink clock c).2)) as (cut & pre & H).
  2:{ exists cut, pre. split; [done|]. split; [intros i; by apply shrunk_called|by eapply shrunk_paired]. }
  assert (∃ cut pre, shrunk cut pre (turns c) (turns c)) as Hsame
    by (exists 0%nat, []; apply shrunk_nothing, same_ids_refl).
  unfold maybeAutoShrink. destruct (_ || _); [done|]. destruct (_ || _); [done|]. cbv zeta.
  pose proof (Drop_turns (as_KeepToolExchanges (cv_autoShrink c)) c) as Hd.
  set (c1 := (DropToolDetails _ _ c).2) in *. set (keep := as_KeepTurns _).
  assert (∀ n c2, turns c2 = turns c1 → ∃ cut pre, shrunk cut pre (turns c) (turns (Trim clock n c2).2)) as Htrim.
  { intros n c2 H2. pose proof (Trim_turns n c2) as H. destruct (Trim clock n c2) as [d c3].
    destruct H as (H & _ & _ & _ & Hc). rewrite H2 in *. exists (Z.to_nat d), [].
    apply (shrunk_same _ _ _ _ _ Hd). exists (drop (Z.to_nat d) (turns c1)).
    split_and!; [exact H|apply same_ids_refl|done|cbn; lia|constructor]. }
  destruct (cv_summarizer c1) as [sm|]; [|by apply Htrim].
  destruct (keep <? _); [|by apply Htrim].
  destruct (Compress_turns (Some sm) (Z.of_nat (List.length (cv_turns c1)) - keep) c1) as (cut & pre & Hc).
  pose proof (Compress_failed (Some sm) (Z.of_nat (List.length (cv_turns c1)) - keep) c1) as Hf.
  destruct (Compress _ _ _ _) as [[|] c2]; [|by apply Htrim; rewrite (Hf _ _ eq_refl)].
  exists cut, pre. by apply (shrunk_same _ _ _ _ _ Hd).
Qed.

(** ** The request loop *)

Definition call_id (t : vturn) : option bytes :=
  match tn_Role t with RoleToolCall => tp_CallID <$> tn_Tool t | _ => None end.
Definition output_id (t : vturn) : option bytes :=
  match tn_Role t with RoleToolOutput => tp_CallID <$> tn_Tool t | _ => None end.

(** The calls and the outputs of a request. *)
Definition in_calls (input : list input_item) : list bytes :=
  omap (λ it, match it with InCall id _ _ => Some id | _ => None end) input.
Definition in_outputs (input : list input_item) : list bytes :=
  omap (λ it, match it with InOutput id _ => Some id | _ => None end) input.

Definition answered (ts : list vturn) : Prop := omap call_id ts = omap output_id ts.

Lemma input_ids {A} (g : input_item → option A) (f : vturn → option A) decodes lastUser ts k :
  (∀ i t, omap g (input_of decodes lastUser i t) = omap f [t]) →
  omap g (mjoin (imap (λ i, input_of decodes lastUser (k + i)) ts)) = omap f ts.
Proof.
  intros H. revert k. induction ts as [|t ts IH]; intros k; [done|].
  cbn [imap mjoin list_join]. rewrite omap_app, H.
  change (t :: ts) with ([t] ++ ts). rewrite omap_app. f_equal.
  rewrite <-(IH (k + 1)%nat). do 2 f_equal. apply imap_ext. intros i x _. cbn.
  by replace (k + Datatypes.S i)%nat with (k + 1 + i)%nat by lia.
Qed.

Lemma request_ids decodes ts :
  in_calls (buildResponseInput decodes ts) = omap call_id ts ∧
  in_outputs (buildResponseInput decodes ts) = omap output_id ts.
Proof.
  unfold buildResponseInput, in_calls, in_outputs. split.
  - apply (input_ids _ call_id decodes (last_user ts) ts 0). intros i t.
    unfold input_of, call_id. by destruct t as [[] x [p|] ti ca raw]; cbn; repeat case_match.
  - apply (input_ids _ output_id decodes (last_user ts) ts 0). intros i t.
    unfold input_of, output_id. by destruct t as [[] x [p|] ti ca raw]; cbn; repeat case_match.
Qed.

(** What the loop relies on between its steps. *)
Definition shrink_off c : Prop := as_ContextWindow (cv_autoShrink c) ≤ 0.
Definition ready c : Prop := cv_replaying c = false ∧ unaliased c ∧ shrink_off c.

(** [c'] is [c] with the turns [ts] appended. *)
Definition extends c (ts : list vturn) c' : Prop := ready c' ∧ turns c' = turns c ++ ts ∧ static c' = static c.

Lemma extends_trans c ts c1 ts' c2 : extends c ts c1 → extends c1 ts' c2 → extends c (ts ++ ts') c2.
Proof.
  intros (_ & H1 & H2) (H3 & H4 & H5). split_and!; [done| |congruence].
  by rewrite H4, H1, app_assoc.
Qed.

Lemma extends_refl c : ready c → extends c [] c.
Proof. intros H. split_and!; [done|by rewrite app_nil_r|done]. Qed.

Lemma steps_extends c evs c' ts :
  ready c → steps clock c evs c' → v_turns <$> vreplay evs (view c) = Some (turns c ++ ts) → extends c ts c'.
Proof.
  intros (Hr & Hu & Ho) (H1 & H2 & _ & H4) Hv. rewrite H2 in Hv. injection Hv as Hv.
  unfold static in H4. split_and!; [split_and!; [congruence|done|unfold shrink_off in *; congruence]|done|exact H4].
Qed.

Lemma append_extends kind t c :
  append_kind kind = true → ready c → extends c [t] (append_turn clock kind t (tick c)).
Proof.
  intros Hk Hrd. eapply steps_extends; [done|by apply append_now_steps; [|apply Hrd..]|].
  by destruct kind.
Qed.

Lemma usage_extends u c : ready c → extends c [] (recordUsage clock u c).2.
Proof.
  intros Hrd. eapply steps_extends; [done|by apply recordUsage_steps; apply Hrd|].
  assert (events_shrink clock (emit clock (usage_event u) (set_usage u c)) = []) as ->.
  { unfold events_shrink. destruct (emit_view clock (usage_event u) (set_usage u c)) as (_ & Hs & _ & _).
    assert (cv_autoShrink (emit clock (usage_event u) (set_usage u c)) = cv_autoShrink c) as Ha.
    { unfold static in Hs. assert (cv_autoShrink (set_usage u c) = cv_autoShrink c) by by destruct c. congruence. }
    rewrite Ha. destruct Hrd as (_ & _ & Ho). unfold shrink_off in Ho. by rewrite (proj2 (Z.leb_le _ _) Ho). }
  cbn. by rewrite app_nil_r.
Qed.

Lemma reasoning_extends text raw c :
  ready c → ∃ ts, extends c ts (AppendReasoning clock text raw c) ∧
    omap call_id ts = [] ∧ omap output_id ts = [].
Proof.
  intros Hrd. unfold AppendReasoning. destruct (_ && _).
  - exists []. split; [by apply extends_refl|done].
  - eexists. split; [by apply append_extends|done].
Qed.

Lemma apply_item_extends cl out calls c item out' calls' c' :
  ready c → apply_item clock cl (out, calls, c) item = (out', calls', c') →
  ∃ ts new, calls' = calls ++ new ∧ extends c ts c' ∧
    omap call_id ts = tc_CallID <$> new ∧ omap output_id ts = [].
Proof.
  intros Hrd H. assert (∀ ts, calls' = calls → extends c ts c' → omap call_id ts = [] →
    omap output_id ts = [] → ∃ ts new, calls' = calls ++ new ∧ extends c ts c' ∧
    omap call_id ts = tc_CallID <$> new ∧ omap output_id ts = []) as Hnone.
  { intros ts -> Hg H1 H2. exists ts, []. by rewrite app_nil_r. }
  destruct item as [parts|call|texts raw|]; cbn [apply_item] in H; cbv zeta in H.
  - destruct (output_text parts) as [|b text]; simplify_eq.
    + apply (Hnone []); [done|by apply extends_refl|done|done].
    + eapply Hnone; [done|by apply append_extends|done|done].
  - simplify_eq. eexists _, [call]. split_and!; [done|by apply append_extends|done|done].
  - destruct (negb _ || negb _) eqn:E; simplify_eq; [|apply (Hnone []); [done|by apply extends_refl|done|done]].
    edestruct reasoning_extends as (ts & Hg & H1 & H2); [exact Hrd|]. by apply (Hnone ts).
  - simplify_eq. apply (Hnone []); [done|by apply extends_refl|done|done].
Qed.

Lemma apply_items_extends cl items out calls c out' calls' c' :
  ready c → foldl (apply_item clock cl) (out, calls, c) items = (out', calls', c') →
  ∃ ts new, calls' = calls ++ new ∧ extends c ts c' ∧
    omap call_id ts = tc_CallID <$> new ∧ omap output_id ts = [].
Proof.
  revert out calls c. induction items as [|item items IH]; intros out calls c Hrd H; cbn [foldl] in H.
  { simplify_eq. exists [], []. split_and!; [by rewrite app_nil_r|by apply extends_refl|done|done]. }
  destruct (apply_item clock cl (out, calls, c) item) as [[out1 calls1] c1] eqn:E.
  destruct (apply_item_extends _ _ _ _ _ _ _ _ Hrd E) as (ts1 & new1 & -> & Hg1 & Hc1 & Ho1).
  destruct (IH _ _ _ (proj1 Hg1) H) as (ts2 & new2 & -> & Hg2 & Hc2 & Ho2).
  exists (ts1 ++ ts2), (new1 ++ new2). split_and!.
  - by rewrite app_assoc.
  - by eapply extends_trans.
  - by rewrite omap_app, fmap_app, Hc1, Hc2.
  - by rewrite omap_app, Ho1, Ho2.
Qed.

Lemma response_extends cl resp c text calls c' :
  ready c → applyResponseOutput clock cl resp c = (text, calls, c') →
  ∃ ts, extends c ts c' ∧ omap call_id ts = tc_CallID <$> calls ∧ omap output_id ts = [].
Proof.
  intros Hrd H. unfold applyResponseOutput in H.
  destruct (foldl _ _ _) as [[out calls1] c1] eqn:E. injection H as -> -> <-.
  destruct (apply_items_extends _ _ _ _ _ _ _ _ Hrd E) as (ts & new & -> & Hg & Hc & Ho).
  exists ts. split; [|by split]. rewrite <-(app_nil_r ts).
  eapply extends_trans; [exact Hg|]. apply usage_extends, Hg.
Qed.

Context (ask : nat → request → res bytes response).
Context (execute : nat → ToolCall → bytes * option bytes).
Context (quoted : bytes → bytes).

Lemma answers_grow calls c :
  ready c → ∃ ts, extends c ts (foldl (answer_call clock execute quoted) c calls) ∧
    omap call_id ts = [] ∧ omap output_id ts = tc_CallID <$> calls.
Proof.
  revert c. induction calls as [|call calls IH]; intros c Hrd.
  { exists []. split_and!; [by apply extends_refl|done|done]. }
  cbn [foldl]. unfold answer_call at 2. destruct (dispatch _ _ _ _) as [output err].
  set (t := mkTurn RoleToolOutput [] (Some (mkPayload (tc_CallID call) [] [] output (default [] err)))
              TierToolIO (now clock c) [] : vturn).
  assert (extends c [t] (AppendToolOutput clock (tc_CallID call) output err c)) as Hg by by apply append_extends.
  destruct (IH _ (proj1 Hg)) as (ts & Hg2 & Hc & Ho). exists ([t] ++ ts). split_and!.
  - by eapply extends_trans.
  - by rewrite omap_app, Hc.
  - by rewrite omap_app, Ho.
Qed.

Lemma answered_app ts ts' :
  answered ts → omap call_id ts' = omap output_id ts' → answered (ts ++ ts').
Proof. unfold answered. intros H H'. by rewrite !omap_app, H, H'. Qed.

Lemma steps_answered cl effort budget left step c :
  ready c → answered (turns c) →
  let '(_, err, rqs, c') := run_steps clock ask execute quoted cl effort budget left step c in
  (List.length rqs ≤ left)%nat ∧
  Forall (λ rq, in_calls (rq_Input rq) = in_outputs (rq_Input rq)) rqs ∧
  (∃ ts, extends c ts c') ∧ answered (turns c') ∧
  (∀ n, err = Some (ErrMaxSteps n) → n = budget ∧ List.length rqs = left).
Proof.
  revert step c. induction left as [|left IH]; intros step c Hrd Ha; cbn [run_steps].
  { split_and!; [done|constructor|exists []; by apply extends_refl|done|by intros n [= ->]]. }
  set (rq := buildRequestParams cl effort c).
  assert (in_calls (rq_Input rq) = in_outputs (rq_Input rq)) as Hrq.
  { destruct (request_ids (cl_decodes cl) (turns c)) as [H1 H2].
    unfold rq, buildRequestParams. cbn [rq_Input]. unfold turns, view in *. cbn [v_turns] in *.
    by rewrite H1, H2. }
  destruct (ask step rq) as [resp|e].
  2: { split_and!; [simpl; lia|by repeat constructor|exists []; by apply extends_refl|done|done]. }
  destruct (applyResponseOutput clock cl resp c) as [[text calls] c1] eqn:E.
  destruct (response_extends _ _ _ _ _ _ Hrd E) as (ts & Hg & Hc & Ho).
  destruct calls as [|call calls].
  - split_and!; [simpl; lia|by repeat constructor|by eexists| |by destruct (cv_lastErr c1)].
    destruct Hg as (_ & -> & _). apply answered_app; [done|]. by rewrite Hc, Ho.
  - destruct (answers_grow (call :: calls) c1 (proj1 Hg)) as (ts' & Hg' & Hc' & Ho').
    set (c2 := foldl _ c1 _) in *. pose proof (extends_trans _ _ _ _ _ Hg Hg') as Hg2.
    assert (answered (turns c2)) as Ha2.
    { destruct Hg2 as (_ & -> & _). apply answered_app; [done|]. by rewrite !omap_app, Hc, Ho, Hc', Ho', app_nil_r. }
    specialize (IH (step + 1)%nat c2 (proj1 Hg2) Ha2). destruct (run_steps _ _ _ _ _ _ _ _ _ c2) as [[[r err] rqs] c3].
    destruct IH as (H1 & H2 & [ts3 H3] & H4 & H5).
    split_and!; [simpl; lia|by constructor| |done|].
    + exists ((ts ++ ts') ++ ts3). by eapply extends_trans.
    + intros n Hn. destruct (H5 n Hn) as [-> <-]. done.
Qed.

(** C18: with automatic shrinking off, and on a conversation whose tool payloads
    are not shared between turns, whatever the model answers and the tools do, a
    run on an answered history issues at most its budget of requests, each with one output for every call,
    in the order of the calls; it only appends turns, and leaves an answered
    history even when it fails, so that the conversation can be run again. *)
Theorem run_answers_calls cl input effort c :
  ready c → answered (turns c) →
  let '(_, err, rqs, c') := Run clock ask execute quoted cl input effort c in
  let budget := if cv_maxSteps c <=? 0 then DefaultMaxSteps else cv_maxSteps c in
  Z.of_nat (List.length rqs) ≤ budget ∧
  Forall (λ rq, in_calls (rq_Input rq) = in_outputs (rq_Input rq)) rqs ∧
  (∃ ts, turns c' = turns c ++ ts) ∧ answered (turns c') ∧
  (∀ n, err = Some (ErrMaxSteps n) → n = budget ∧ Z.of_nat (List.length rqs) = budget).
Proof.
  intros Hrd Ha. unfold Run. assert (0 ≤ (if cv_maxSteps c <=? 0 then DefaultMaxSteps else cv_maxSteps c)) as Hb
    by (unfold DefaultMaxSteps; destruct (Z.leb_spec (cv_maxSteps c) 0); lia).
  cbv zeta. set (budget := if _ <=? 0 then _ else _) in *.
  destruct cl as [cl|]; [|split_and!; [done|constructor|exists []; by rewrite app_nil_r|done|done]].
  assert (extends c [mkTurn RoleUser input None TierVolatile (now clock c) []] (AppendUser clock input c)) as Hg
    by by apply append_extends.
  pose proof (steps_answered cl effort budget (Z.to_nat budget) 0 _ (proj1 Hg)) as H.
  destruct (run_steps _ _ _ _ _ _ _ _ _ _) as [[[r err] rqs] c']. destruct H as (H1 & H2 & [ts H3] & H4 & H5).
  { destruct Hg as (_ & -> & _). by apply answered_app. }
  split_and!; [lia|done| |done|].
  - destruct (extends_trans _ _ _ _ _ Hg H3) as (_ & -> & _). by eexists.
  - intros n Hn. destruct (H5 n Hn) as [-> Hl]. split; [done|lia].
Qed.

(** ** Usage by role *)

(** The bytes the budget is shared by. *)
Definition usage_bytes c : Z :=
  let '(user, assistant, toolIO) := role_bytes (cv_heap c) (cv_turns c) in
  len (cv_instructions c)
  + foldl (λ n s, n + (len (ts_Name s) + len (ts_Description s))) 0 (cv_toolSpecs c)
  + user + assistant + toolIO.

Lemma len_pos (s : bytes) : 0 ≤ len s.
Proof. unfold len. lia. Qed.

Lemma role_bytes_pos h (ts : list hturn) :
  let '(user, assistant, toolIO) := role_bytes h ts in 0 ≤ user ∧ 0 ≤ assistant ∧ 0 ≤ toolIO.
Proof.
  unfold role_bytes. set (f := λ '(user, assistant, toolIO) t, _).
  assert (∀ acc : Z * Z * Z, 0 ≤ acc.1.1 ∧ 0 ≤ acc.1.2 ∧ 0 ≤ acc.2 →
    let '(user, assistant, toolIO) := foldl f acc ts in 0 ≤ user ∧ 0 ≤ assistant ∧ 0 ≤ toolIO) as H.
  { induction ts as [|t ts IH]; intros [[x y] z] H; cbn [foldl fst snd] in *; [done|]. apply IH.
    unfold f. destruct (tn_Role t), (deref h <$> tn_Tool t) as [p|]; cbn [fst snd]; try lia;
      repeat match goal with |- context [len ?s] => lazymatch goal with
        | _ : 0 ≤ len s |- _ => fail | _ => pose proof (len_pos s) end end; lia. }
  by apply (H (0, 0, 0)).
Qed.

Lemma spec_bytes_pos specs n :
  0 ≤ n → 0 ≤ foldl (λ n s, n + (len (ts_Name s) + len (ts_Description s))) n specs.
Proof.
  revert n. induction specs as [|s specs IH]; intros n Hn; cbn [foldl]; [done|].
  apply IH. pose proof (len_pos (ts_Name s)). pose proof (len_pos (ts_Description s)). lia.
Qed.

(** A share is the floor of its part of the budget. *)
Lemma share_bounds b x total :
  0 ≤ b → 0 ≤ x ≤ total → 0 < total → b * total < two63 →
  let s := Z.quot (i64 (b * x)) total in 0 ≤ s ∧ s * total ≤ b * x < s * total + total.
Proof.
  intros Hb Hx Ht Ho. assert (0 ≤ b * x) by nia. assert (b * x ≤ b * total) by nia.
  rewrite i64_small by (unfold two63 in *; lia). cbv zeta.
  rewrite Z.quot_div_nonneg by lia.
  pose proof (Z.div_mod (b * x) total ltac:(lia)). pose proof (Z.mod_pos_bound (b * x) total ltac:(lia)).
  pose proof (Z.div_pos (b * x) total ltac:(lia) Ht). nia.
Qed.

(** Five floors of the parts of [total] lose fewer than five. *)
Lemma five_shares b total x1 x2 x3 x4 x5 s1 s2 s3 s4 s5 :
  0 < total → total = x1 + x2 + x3 + x4 + x5 →
  s1 * total ≤ b * x1 < s1 * total + total → s2 * total ≤ b * x2 < s2 * total + total →
  s3 * total ≤ b * x3 < s3 * total + total → s4 * total ≤ b * x4 < s4 * total + total →
  s5 * total ≤ b * x5 < s5 * total + total →
  b - 5 < s1 + s2 + s3 + s4 + s5 ≤ b.
Proof.
  intros Ht -> H1 H2 H3 H4 H5. set (total := x1 + x2 + x3 + x4 + x5) in *.
  assert (b * total = b * x1 + b * x2 + b * x3 + b * x4 + b * x5) as Hb by (unfold total; ring).
  split.
  - apply (Z.mul_lt_mono_pos_r total); [done|]. lia.
  - apply (Z.mul_le_mono_pos_r _ _ total); [done|]. lia.
Qed.

(** C19: when no more tokens are cached than were sent and the products of the uncached
    ones with the bytes of the conversation fit an [int], no share is negative; the
    shares of a conversation that holds any text add up to the uncached input tokens,
    less a rounding of fewer than five, and those of one that holds none are zero. *)
Theorem usage_by_role_bounds c :
  let u := cv_usage c in
  let budget := us_Input u - us_Cached u in
  0 ≤ us_Cached u ≤ us_Input u → us_Input u < two63 →
  budget * usage_bytes c < two63 →
  let '(mkRoleUsage instr tools user assistant toolIO) := UsageByRole c in
  0 ≤ instr ∧ 0 ≤ tools ∧ 0 ≤ user ∧ 0 ≤ assistant ∧ 0 ≤ toolIO ∧
  let sum := instr + tools + user + assistant + toolIO in
  (0 < usage_bytes c → budget - 5 < sum ≤ budget) ∧ (usage_bytes c = 0 → sum = 0).
Proof.
  intros u budget Hc Hi Ho. unfold UsageByRole. fold u. fold budget.
  rewrite (i64_small budget) by (unfold budget, two63 in *; lia).
  rewrite (proj2 (Z.ltb_ge budget 0)) by (unfold budget; lia).
  destruct (Z.eqb_spec budget 0); [by split_and!; try lia|].
  pose proof (role_bytes_pos (cv_heap c) (cv_turns c)) as Hr.
  pose proof (len_pos (cv_instructions c)) as H1.
  pose proof (spec_bytes_pos (cv_toolSpecs c) 0 ltac:(done)) as H2.
  unfold usage_bytes in *. destruct (role_bytes _ _) as [[user assistant] toolIO].
  set (instr := len (cv_instructions c)) in *. set (tools := foldl _ 0 _) in *.
  set (total := instr + tools + user + assistant + toolIO) in *.
  destruct (Z.eqb_spec total 0) as [H0|H0]; [by split_and!; try lia|]. assert (0 < total) as Ht by lia.
  pose proof (share_bounds budget instr total) as B1. pose proof (share_bounds budget tools total) as B2.
  pose proof (share_bounds budget user total) as B3. pose proof (share_bounds budget assistant total) as B4.
  pose proof (share_bounds budget toolIO total) as B5. cbv zeta in *.
  specialize (B1 ltac:(lia) ltac:(lia) Ht Ho). specialize (B2 ltac:(lia) ltac:(lia) Ht Ho).
  specialize (B3 ltac:(lia) ltac:(lia) Ht Ho). specialize (B4 ltac:(lia) ltac:(lia) Ht Ho).
  specialize (B5 ltac:(lia) ltac:(lia) Ht Ho).
  split_and!; [apply B1|apply B2|apply B3|apply B4|apply B5|intros _|by intros ?];
    apply (five_shares budget total instr tools user assistant toolIO); try done;
    first [apply B1|apply B2|apply B3|apply B4|apply B5].
Qed.

End Run.

(** ** Concrete conversations *)

#[local] Existing Instance plain_std.
#[local] Instance run_store : SessionStore world := json_session_store sample_root.

Definition with_turns (ts : list vturn) (cfg : AutoShrinkConfig) (u : TokenUsage) : Conversation world :=
  let '(ts, h) := alloc_turns ts [] in
  mkConv (s2b "be brief") [mkSpec (s2b "grep") (s2b "search") None] [s2b "grep"] ts u cfg None 20 [] []
    false None h 0.
Definition call_turn (id : string) : vturn :=
  mkTurn RoleToolCall [] (Some (mkPayload (s2b id) (s2b "grep") (s2b "{}") [] [])) TierToolIO [] [].
Definition output_turn (id : string) : vturn :=
  mkTurn RoleToolOutput [] (Some (mkPayload (s2b id) [] [] (s2b "found") [])) TierToolIO [] [].
Definition user_turn : vturn := mkTurn RoleUser (s2b "hi") None TierVolatile [] [].
(** A window of 100 tokens, shrunk at half. *)
Definition half : AutoShrinkConfig := mkShrink 100 (S754_finite false 4503599627370496 (-53)) 0 1.

Lemma shrink_keeps_pairs_witness :
  let c := with_turns [user_turn; call_turn "c1"; output_turn "c1"] half (mkUsage 80 0 0 0 80) in
  List.length (turns (maybeAutoShrink sample_clock c).2) = 2%nat ∧
  paired (turns (maybeAutoShrink sample_clock c).2).
Proof.
  intros c. split; [vm_compute; reflexivity|].
  destruct (shrink_keeps_pairs sample_clock c) as (cut & pre & _ & _ & H). apply H.
  intros [|[|[|i]]] t Hi Hr Ht; simpl in Hi; try done; simplify_eq/=; try done.
  eexists _, _, 1%nat, (call_turn "c1"), _. split_and!; [done|done|done|lia|done|done|done|done|]. intros k x Hk. lia.
Defined.

(** With two calls in a response the cut falls between them, and the output of
    the first is left without its call. *)
Lemma parallel_calls_cut :
  let c := with_turns [user_turn; call_turn "c1"; call_turn "c2"; output_turn "c1"; output_turn "c2"]
             half (mkUsage 80 0 0 0 80) in
  let ts := turns (Trim sample_clock 2 c).2 in
  omap call_id (turns c) = omap output_id (turns c) ∧
  omap call_id ts = [s2b "c2"] ∧ omap output_id ts = [s2b "c1"; s2b "c2"].
Proof. vm_compute. done. Qed.

(** A model that calls a tool once and then replies. *)
Definition one_call (step : nat) (rq : request) : res bytes response :=
  match step with
  | O => Ok (mkResponse [OutCall sample_call] (mkUsage 10 0 1 0 11))
  | _ => Ok (mkResponse [OutMessage [(s2b "output_text", s2b "done")]] (mkUsage 12 0 1 0 13))
  end.
Definition plain_client : client := mkClient (s2b "m") [] false (λ _, true).

Lemma run_answers_calls_witness :
  let run := Run sample_clock one_call (λ _ _, (s2b "found", None)) (λ s, s) (Some plain_client)
               (s2b "hi") [] (sample_conv world) in
  run.1.1.1 = s2b "done" ∧ List.length run.1.2 = 2%nat ∧
  Forall (λ rq, in_calls (rq_Input rq) = in_outputs (rq_Input rq)) run.1.2 ∧
  answered (turns run.2).
Proof.
  intros run. split; [vm_compute; reflexivity|]. split; [vm_compute; reflexivity|].
  assert (ready (sample_conv world)) as Hrd.
  { split; [reflexivity|]. split; [split; [apply NoDup_nil_2|apply List.Forall_nil]|]. vm_compute. congruence. }
  pose proof (run_answers_calls sample_clock one_call (λ _ _, (s2b "found", None)) (λ s, s)
    (Some plain_client) (s2b "hi") [] (sample_conv world) Hrd eq_refl) as H.
  fold run in H. destruct run as [[[r err] rqs] c']. destruct H as (_ & H2 & _ & H4 & _).
  exact (conj H2 H4).
Defined.

Lemma usage_by_role_bounds_witness :
  let c := with_turns [user_turn; call_turn "c1"; output_turn "c1"] half (mkUsage 80 10 0 0 80) in
  let r := UsageByRole c in
  70 - 5 < ru_Instructions r + ru_Tools r + ru_User r + ru_Assistant r + ru_ToolIO r ≤ 70.
Proof.
  intros c r. pose proof (usage_by_role_bounds c) as H. cbv zeta in H. fold r in H.
  change (us_Input (cv_usage c)) with 80 in H. change (us_Cached (cv_usage c)) with 10 in H.
  specialize (H ltac:(lia) ltac:(by vm_compute) ltac:(by vm_compute)).
  destruct r as [a b d e f]. cbn [ru_Instructions ru_Tools ru_User ru_Assistant ru_ToolIO].
  destruct H as (_ & _ & _ & _ & _ & H & _). apply H. by vm_compute.
Defined.
