(* ===== verification/Skill.v ===== *)
(** Skills ([llm/skill.go], [builtin_tools.go], [mcp.go]): how a skill is loaded,
    how its set of tools is put together, copied and bound to a conversation.

    Skills share workspaces through pointers: a built-in tool keeps the workspace it
    was made over, and [copy] clones the skill's own. A [*workspaceRoot] is a
    position in the list of all workspaces. *)
From S2P Require Import Prelude GoText Json Text Event Path Os Tree Workspace Channel Policy Log Session Conversation.

(** ** Tools *)

(** What [mcpclient.Server] says of itself. *)
Record ToolMetadata := mkToolMeta { tm_Name : bytes; tm_Description : bytes }.
Record Server := mkServer { srv_Name : bytes; srv_Tools : list ToolMetadata }.
#[export] Instance tool_meta_eq_dec : EqDecision ToolMetadata. Proof. solve_decision. Defined.
#[export] Instance server_eq_dec : EqDecision Server. Proof. solve_decision. Defined.

(** A [Tool]: a built-in one over a workspace, one of an MCP server, or another. *)
Inductive SkillTool :=
| BuiltinTool (ws : nat) (name : bytes)
| McpTool (server : Server) (meta : ToolMetadata)
| OtherTool (name : bytes) (impl : nat).
#[export] Instance skill_tool_eq_dec : EqDecision SkillTool. Proof. solve_decision. Defined.

Definition namespacedMCPName (server tool : bytes) : bytes :=
  if is_empty server then tool else if is_empty tool then server else server ++ s2b "__" ++ tool.

Definition st_Name (t : SkillTool) : bytes :=
  match t with
  | BuiltinTool _ name | OtherTool name _ => name
  | McpTool server meta => namespacedMCPName (srv_Name server) (tm_Name meta)
  end.

Definition MCPTools (srv : option Server) : list SkillTool :=
  match srv with None => [] | Some srv => McpTool srv <$> srv_Tools srv end.

Inductive skill_err :=
| ErrNilSkill | ErrBoundSkill | ErrNoWorkspace | ErrNoPlayground
| ErrUnknownExtra (name : bytes)
| ErrSkillNilTool | ErrToolNoName | ErrToolTwice (name : bytes)
| ErrWorkspace (e : ws_err)
| ErrMissingSkillFile (dir : bytes) | ErrOpenSkill (e : os_err) | ErrInspectEnv (e : os_err)
| ErrFrontMatter (e : fm_err)
| ErrNilOption (i : nat).

(** A [Tool] value may be nil. *)
Fixpoint validate_from (seen : list bytes) (tools : list (option SkillTool)) : option skill_err :=
  match tools with
  | [] => None
  | None :: _ => Some ErrSkillNilTool
  | Some t :: tools =>
      if is_empty (st_Name t) then Some ErrToolNoName
      else if bool_decide (st_Name t ∈ seen) then Some (ErrToolTwice (st_Name t))
      else validate_from (st_Name t :: seen) tools
  end.
Definition validateTools (tools : list (option SkillTool)) : option skill_err := validate_from [] tools.

(** ** Skills *)

(** The front matter of SKILL.md. *)
Record skill_meta := mkSkillMeta { sm_Name : bytes; sm_Description : bytes; sm_License : bytes }.

(** [C] is what a bound skill holds: a conversation over a client. *)
Record Skill (C : Type) := mkSkill {
  sk_meta : skill_meta; sk_Instruction : bytes;
  sk_workspace : option nat; sk_envFiles : list bytes; sk_toolSet : ToolSetConfig;
  sk_tools : list (option SkillTool); sk_conv : option C; sk_eventStream : option nat }.
Arguments mkSkill {C}. Arguments sk_meta {C}. Arguments sk_Instruction {C}. Arguments sk_workspace {C}.
Arguments sk_envFiles {C}. Arguments sk_toolSet {C}. Arguments sk_tools {C}. Arguments sk_conv {C}.
Arguments sk_eventStream {C}.

Abbreviation heap := (list workspaceRoot).

Section Skill.
Context {C : Type}.
Notation skill := (Skill C).

Definition set_tools (ts : list (option SkillTool)) (s : skill) : skill :=
  let '(mkSkill m i w e c _ v st) := s in mkSkill m i w e c ts v st.
Definition set_toolSet (cfg : ToolSetConfig) (s : skill) : skill :=
  let '(mkSkill m i w e _ ts v st) := s in mkSkill m i w e cfg ts v st.
Definition set_name (n : bytes) (s : skill) : skill :=
  let '(mkSkill (mkSkillMeta _ d l) i w e c ts v st) := s in mkSkill (mkSkillMeta n d l) i w e c ts v st.
Definition sk_Name (s : skill) : bytes := sm_Name (sk_meta s).

(** The workspace a pointer leads to. *)
Definition deref_ws (h : heap) (w : option nat) : option workspaceRoot := w ≫= λ w, h !! w.

(** [Skill.copy]: the workspace is cloned, the tools are kept. *)
Definition copySkill (h : heap) (s : skill) : heap * skill :=
  let '(mkSkill m i w e c ts _ _) := s in
  match deref_ws h w with
  | Some root => (h ++ [root], mkSkill m i (Some (List.length h)) e c ts None None)
  | None => (h, mkSkill m i None e c ts None None)
  end.

Definition WithTools (tools : list (option SkillTool)) (s : skill) : res skill_err skill :=
  let combined := sk_tools s ++ tools in
  match validateTools combined with Some e => Err e | None => Ok (set_tools combined s) end.

Fixpoint applySkillOptions (i : nat) (opts : list (option (list (option SkillTool)))) (s : skill)
  : res skill_err skill :=
  match opts with
  | [] => Ok s
  | None :: _ => Err (ErrNilOption i)
  | Some tools :: opts => let? s := WithTools tools s in applySkillOptions (S i) opts s
  end.

(** ** Loading *)

Definition SkillFile : bytes := s2b "SKILL.md".

(** [newFromFS], [raw] being what opening and reading SKILL.md gave. *)
Definition newFromFS `{FrontMatter skill_meta} (raw : os_res bytes) (displayDir : bytes) (w : nat)
    (envFiles : list bytes) (cfg : ToolSetConfig) : res skill_err skill :=
  match raw with
  | Err NotExist => Err (ErrMissingSkillFile displayDir)
  | Err e => Err (ErrOpenSkill e)
  | Ok raw =>
      match Parse skill_meta raw with
      | Err e => Err (ErrFrontMatter e)
      | Ok (m, rest) => Ok (mkSkill m rest (Some w) envFiles cfg [] None None)
      end
  end.

Abbreviation skill_prog := (prog (res skill_err (heap * skill))).

(** The skill, over a workspace that is cleaned up when it fails. *)
Definition finish_new (h : heap) (root : workspaceRoot) (opts : list (option (list (option SkillTool))))
    (r : res skill_err skill) : skill_prog :=
  match (let? s := r in applySkillOptions 0 opts s) with
  | Ok s => Ret (Ok (h ++ [root], s))
  | Err e => cleanup (Some root) ≫= λ _, Ret (Err e)
  end.

(** [NewSkill] over an [fs.FS] whose SKILL.md reads as [file]. *)
Definition NewSkill_fs `{FrontMatter skill_meta} (h : heap) (file : os_res bytes) (cfg : ToolSetConfig)
    (opts : list (option (list (option SkillTool)))) : skill_prog :=
  try root := newTempWorkspaceRoot or ErrWorkspace in
  finish_new h root opts (newFromFS file (s2b "skill filesystem") (List.length h) [] cfg).

(** [NewSkill] over the path of a directory. *)
Definition NewSkill_dir `{FrontMatter skill_meta} (h : heap) (dir : bytes) (cfg : ToolSetConfig)
    (opts : list (option (list (option SkillTool)))) : skill_prog :=
  try root := newWorkspaceRoot dir or ErrWorkspace in
  let envFile := path_Join [w_skillRoot root; s2b ".env"] in
  ask (Stat envFile) ≫= λ st,
  let load envFiles :=
    ask (ReadFile (path_Join [w_skillRoot root; SkillFile])) ≫= λ file,
    finish_new h root opts (newFromFS file (w_skillRoot root) (List.length h) envFiles cfg) in
  match st with
  | Ok _ => load [envFile]
  | Err NotExist => load []
  | Err e => cleanup (Some root) ≫= λ _, Ret (Err (ErrInspectEnv e))
  end.

(** ** Tools of a skill *)

Definition unbound (s : option skill) : res skill_err skill :=
  match s with
  | None => Err ErrNilSkill
  | Some s => match sk_conv s with Some _ => Err ErrBoundSkill | None => Ok s end
  end.

(** [SetAccessibleDirs] changes the workspace that the skill and its tools share. *)
Definition SetAccessibleDirs (h : heap) (s : option skill) (dirs : list bytes) : prog (res skill_err heap) :=
  match unbound s with
  | Err e => Ret (Err e)
  | Ok s =>
      match sk_workspace s with
      | None => Ret (Err ErrNoWorkspace)
      | Some w => try root := setAccessibleDirs (h !! w) dirs or ErrWorkspace in Ret (Ok (<[w := root]> h))
      end
  end.

Definition BuiltinTools (h : heap) (s : option skill) : res skill_err (list SkillTool) :=
  match s with
  | None => Err ErrNilSkill
  | Some s =>
      match sk_workspace s, deref_ws h (sk_workspace s) with
      | Some w, Some root =>
          if is_empty (w_tempRoot root) then Err ErrNoPlayground
          else match tool_names (sk_toolSet s) with
               | Err name => Err (ErrUnknownExtra name)
               | Ok names => Ok (BuiltinTool w <$> names)
               end
      | _, _ => Err ErrNoPlayground
      end
  end.

Definition AddTools (h : heap) (s : option skill) (tools : list (option SkillTool))
  : res skill_err (heap * skill) :=
  let? s := unbound s in
  let combined := sk_tools s ++ tools in
  match validateTools combined with
  | Some e => Err e
  | None => let '(h, bound) := copySkill h s in Ok (h, set_tools combined bound)
  end.

(** Neither nil nor named like a built-in tool. *)
Definition is_custom (t : option SkillTool) : bool :=
  match t with None => false | Some t => negb (isBuiltinToolName (st_Name t)) end.

Definition SetAccessibleDirsAndBuiltinTools (h : heap) (s : option skill) (dirs : list bytes) : skill_prog :=
  match unbound s with
  | Err e => Ret (Err e)
  | Ok s =>
      let '(h, copy) := copySkill h s in
      let copy := set_tools (List.filter is_custom (sk_tools copy)) copy in
      try h := SetAccessibleDirs h (Some copy) dirs or id in
      Ret (let? builtinTools := BuiltinTools h (Some copy) in
           let tools := sk_tools copy ++ (Some <$> builtinTools) in
           match validateTools tools with
           | Some e => Err e
           | None => Ok (h, set_tools tools copy)
           end)
  end.

Definition skill_AccessibleDirs (h : heap) (s : skill) : list bytes :=
  match deref_ws h (sk_workspace s) with Some root => w_extraRoots root | None => [] end.

Definition has_builtin (ts : list (option SkillTool)) : bool :=
  existsb (λ t, match t with Some t => isBuiltinToolName (st_Name t) | None => false end) ts.

Definition WithToolSetConfig (h : heap) (s : option skill) (cfg : ToolSetConfig) : skill_prog :=
  match unbound s with
  | Err e => Ret (Err e)
  | Ok s =>
      let '(h, copy) := copySkill h s in
      let copy := set_toolSet cfg copy in
      if has_builtin (sk_tools copy)
      then SetAccessibleDirsAndBuiltinTools h (Some copy) (skill_AccessibleDirs h copy)
      else Ret (Ok (h, copy))
  end.

(** ** All skills of a process *)

Record skills := mkSkills { ss_heap : heap; ss_all : list skill }.
Definition no_skills : skills := mkSkills [] [].

Inductive skill_op :=
| OpNewFs (file : os_res bytes) (cfg : ToolSetConfig) (opts : list (option (list (option SkillTool))))
| OpNewDir (dir : bytes) (cfg : ToolSetConfig) (opts : list (option (list (option SkillTool))))
| OpAddTools (i : nat) (tools : list (option SkillTool))
| OpRebuild (i : nat) (dirs : list bytes)
| OpConfigure (i : nat) (cfg : ToolSetConfig)
| OpSetDirs (i : nat) (dirs : list bytes)
| OpRename (i : nat) (name : bytes)                         (* AddSkills gives a copy its alias *)
| OpBound (i : nat) (conv : C) (stream : option nat).       (* the skill that Bind returns *)

Definition add_skill (st : skills) (r : res skill_err (heap * skill)) : skills :=
  match r with Ok (h, s) => mkSkills h (ss_all st ++ [s]) | Err _ => st end.

(** An operation that fails leaves no skill behind. *)
Definition do_skill_op `{FrontMatter skill_meta} (op : skill_op) (st : skills) : prog skills :=
  let h := ss_heap st in
  let at_ i := ss_all st !! i in
  match op with
  | OpNewFs file cfg opts => NewSkill_fs h file cfg opts ≫= λ r, Ret (add_skill st r)
  | OpNewDir dir cfg opts => NewSkill_dir h dir cfg opts ≫= λ r, Ret (add_skill st r)
  | OpAddTools i tools => Ret (add_skill st (AddTools h (at_ i) tools))
  | OpRebuild i dirs => SetAccessibleDirsAndBuiltinTools h (at_ i) dirs ≫= λ r, Ret (add_skill st r)
  | OpConfigure i cfg => WithToolSetConfig h (at_ i) cfg ≫= λ r, Ret (add_skill st r)
  | OpSetDirs i dirs =>
      SetAccessibleDirs h (at_ i) dirs ≫= λ r,
      Ret (match r with Ok h => mkSkills h (ss_all st) | Err _ => st end)
  | OpRename i name =>
      Ret (match at_ i with Some s => mkSkills h (ss_all st ++ [set_name name s]) | None => st end)
  | OpBound i conv stream =>
      Ret (match at_ i with
           | Some s => let '(h, mkSkill m ins w e c ts _ _) := copySkill h s in
                       mkSkills h (ss_all st ++ [mkSkill m ins w e c ts (Some conv) stream])
           | None => st
           end)
  end.

(** Operations that satisfy [ok], one after the other; the file system may change in
    between. *)
Inductive skills_run `{FileSystem W} `{FrontMatter skill_meta} (ok : skill_op → Prop) : skills → Prop :=
| run_none : skills_run ok no_skills
| run_op op st (w : W) : ok op → skills_run ok st → skills_run ok (exec (do_skill_op op st) w).1.
(** ** Instructions of a bound skill *)

Definition eol : bytes := ["010"%char].
Fixpoint drop_newlines (s : bytes) : bytes :=
  match s with c :: r => if Ascii.eqb c "010"%char then drop_newlines r else s | [] => [] end.
(** [strings.TrimRight(s, newlines)]. *)
Definition trim_newlines (s : bytes) : bytes := reverse (drop_newlines (reverse s)).

(** [system] is the text of [builtin.SystemInstructions]. *)
Definition prependSystemInstruction (system instruction : bytes) : bytes :=
  let system := TrimSpace system in
  if is_empty system then instruction
  else let body := TrimSpace instruction in
       if is_empty body then system else system ++ eol ++ eol ++ body.

Definition appendWorkspaceInstruction (instruction : bytes) (workspace : option workspaceRoot) : bytes :=
  match workspace with
  | None => instruction
  | Some w =>
      let b := trim_newlines instruction in
      b ++ (if is_empty b then [] else eol ++ eol)
      ++ s2b "Workspace access:" ++ eol
      ++ (if is_empty (w_skillRoot w) then []
          else s2b "- Source workspace: " ++ w_skillRoot w
               ++ s2b ". Prefer this area for durable skill work when the task belongs with the skill. Use absolute paths under this directory."
               ++ eol)
      ++ s2b "- Temp playground: " ++ w_tempRoot w
      ++ s2b ". Relative file paths and shell commands run here. Use it for drafts, experiments, generated logs, and other disposable work."
      ++ eol
      ++ (match w_extraRoots w with
          | [] => []
          | dirs => s2b "- User-added directories: use absolute paths under these roots exactly as requested by the user. Access is recursive within each root."
                    ++ eol ++ mjoin ((λ dir, s2b "  - " ++ dir ++ eol) <$> dirs)
          end)
      ++ s2b "Do not access paths outside these roots."
  end.

Definition runtimeInstruction (system : bytes) (h : heap) (s : option skill) : bytes :=
  match s with
  | None => []
  | Some s =>
      let body := prependSystemInstruction system (sk_Instruction s) in
      match deref_ws h (sk_workspace s) with
      | None => body
      | w => appendWorkspaceInstruction body w
      end
  end.
End Skill.
Arguments skills C : clear implicits.
Arguments skill_op C : clear implicits.

(** ** Binding *)

Inductive bind_err :=
| BindNilSkill | BindClient | BindConversation (e : new_err)
| BindNoStores | BindEmptyID | BindNilStore (i : nat) | BindLoad (i : nat) (e : log_err) | BindNotFound
| BindOpen (e : conv_err).

Section Bind.
Context {S : Type} {store : SessionStore S} {Cl : Type}.
(** The descriptions and schemas of tools, the environment, the embedded text. *)
Context (clock : nat → bytes) (describe : SkillTool → bytes * metadata)
  (clientFromEnv : list bytes → option Cl) (system : bytes).

Inductive BindOption :=
| WithNewSession (stores : list (option S))
| WithExistingSession (sessionID : bytes) (stores : list (option S)).

Record bindSettings := mkSettings { bs_sessionID : option bytes; bs_stores : list (option S) }.

Definition bind_option (settings : bindSettings) (o : option BindOption) : bindSettings :=
  match o with
  | None => settings
  | Some (WithNewSession stores) => mkSettings None stores
  | Some (WithExistingSession id stores) => mkSettings (Some id) stores
  end.

(** The loop of [resolveSessionID] over the stores. *)
Fixpoint find_session (id : bytes) (i : nat) (stores : list (option S)) : res bind_err bytes * list (option S) :=
  match stores with
  | [] => (Err BindNotFound, [])
  | None :: _ => (Err (BindNilStore i), stores)
  | Some s :: rest =>
      match ss_Load id s with
      | (Ok _, s) => (Ok id, Some s :: rest)
      | (Err ErrNotFound, s) => let '(r, rest) := find_session id (i + 1) rest in (r, Some s :: rest)
      | (Err e, s) => (Err (BindLoad i e), Some s :: rest)
      end
  end%nat.

(** [fresh] is what [shortuuid.New] returns. *)
Definition resolveSessionID (fresh : bytes) (sessID : option bytes) (stores : list (option S))
  : res bind_err bytes * list (option S) :=
  match stores, sessID with
  | [], _ => (Err BindNoStores, stores)
  | _, None => (Ok fresh, stores)
  | _, Some id => if is_empty id then (Err BindEmptyID, stores) else find_session id 0 stores
  end.

(** The position of the first nil store. *)
Fixpoint nil_store (i : nat) (stores : list (option S)) : option nat :=
  match stores with [] => None | None :: _ => Some i | Some _ :: stores => nil_store (i + 1) stores end%nat.

(** [Conversation.OpenSession] over stores that may be nil. *)
Definition open_stores (id : bytes) (stores : list (option S)) (c : Conversation S)
  : res bind_err (Conversation S) * list (option S) :=
  match nil_store 0 stores with
  | Some i => (Err (BindNilStore i), stores)
  | None =>
      match OpenSession clock id (omap (λ s, s) stores) c with
      | (Ok _, c, ss) => (Ok c, Some <$> ss)
      | (Err e, _, ss) => (Err (BindOpen e), Some <$> ss)
      end
  end.

Record runtimeConfig := mkRuntime {
  rc_conversation : ConversationConfig; rc_StreamEvents : bool; rc_EventStream : option nat }.

(** What the model is offered of a tool; wrapping it in its policy changes nothing of that. *)
Definition offered (t : option SkillTool) : option Conversation.Tool :=
  (λ t, mkTool (st_Name t) (describe t).1 (describe t).2) <$> t.

Definition Bind (fresh_id : bytes) (fresh_stream : nat) (h : heap) (s : option (Skill (Cl * Conversation S)))
    (client : option Cl) (cfg : runtimeConfig) (opts : list (option BindOption))
  : res bind_err (heap * Skill (Cl * Conversation S)) * list (option S) :=
  let settings := foldl bind_option (mkSettings None []) opts in
  let stores := bs_stores settings in
  match s with
  | None => (Err BindNilSkill, stores)
  | Some s' =>
      match (match client with Some c => Some c | None => clientFromEnv (sk_envFiles s') end) with
      | None => (Err BindClient, stores)
      | Some client =>
          let '(h', mkSkill m i w e c ts _ _) := copySkill h s' in
          let stream := if rc_StreamEvents cfg
                        then Some (default fresh_stream (rc_EventStream cfg)) else None in
          match NewConversation (runtimeInstruction system h s) (offered <$> ts) (rc_conversation cfg) with
          | Err e => (Err (BindConversation e), stores)
          | Ok conv =>
              let bound conv := Ok (h', mkSkill m i w e c ts (Some (client, conv)) stream) in
              match stores, bs_sessionID settings with
              | [], None => (bound conv, stores)
              | _, _ =>
                match resolveSessionID fresh_id (bs_sessionID settings) stores with
                | (Err e, stores) => (Err e, stores)
                | (Ok id, stores) =>
                    match open_stores id stores conv with
                    | (Err e, stores) => (Err e, stores)
                    | (Ok conv, stores) => (bound conv, stores)
                    end
                end
              end
          end
      end
  end.
End Bind.
