(* ===== verification/SkillFacts.v ===== *)
(** What skills promise ([Skill.v]). [skills_confined] follows the pointers to
    workspaces: whatever is done to any skill, the built-in tools of each work in its
    own playground and under canonical roots, and only [SetAccessibleDirs] on a skill
    that shares a workspace changes what its tools may reach. [bind_spec] is about
    [Bind]: the conversation offers exactly the tools of the skill, and an existing
    session is resumed or refused, never created. *)
From S2P Require Import Prelude GoText Json Text Event Path Os Tree Workspace Channel Policy Log Session Conversation ConversationFacts Skill.

(** ** Sets of tools *)

Definition names_of (ts : list SkillTool) : list bytes := st_Name <$> ts.

(** What [validateTools] accepts: tools with different names that are not empty. *)
Definition distinct_tools (ts : list (option SkillTool)) : Prop :=
  ∃ l, ts = Some <$> l ∧ [] ∉ names_of l ∧ NoDup (names_of l).

Lemma validate_from_spec seen ts : validate_from seen ts = None ↔
  ∃ l, ts = Some <$> l ∧ [] ∉ names_of l ∧ NoDup (names_of l) ∧ ∀ n, n ∈ names_of l → n ∉ seen.
Proof.
  revert seen. induction ts as [|[t|] ts IH]; intros seen; cbn [validate_from].
  - split; [|done]. intros _. exists []. split_and!; [done|by apply not_elem_of_nil|constructor|].
    intros n H. by apply elem_of_nil in H.
  - destruct (is_empty (st_Name t)) eqn:He.
    + split; [done|]. intros ([|t' l]&[= <- ->]&Hn&_). destruct Hn. unfold names_of. rewrite fmap_cons.
      destruct (st_Name t); [apply list_elem_of_here|done].
    + case_bool_decide as Hs.
      * split; [done|]. intros ([|t' l]&[= <- ->]&_&_&Hd). destruct (Hd (st_Name t)); [|done].
        apply list_elem_of_here.
      * rewrite IH. split.
        -- intros (l&->&Hn&Hu&Hd). exists (t :: l). unfold names_of in *. rewrite !fmap_cons. split_and!; [done|..].
           ++ rewrite not_elem_of_cons. split; [|done]. intros E. by rewrite <- E in He.
           ++ constructor; [|done]. intros Hi. destruct (Hd _ Hi). apply list_elem_of_here.
           ++ intros n [->|Hi]%elem_of_cons; [done|]. specialize (Hd _ Hi). set_solver.
        -- intros ([|t' l]&[= <- ->]&Hn&Hu&Hd). exists l. unfold names_of in *. rewrite fmap_cons in Hn, Hu, Hd.
           apply NoDup_cons in Hu as [Ht Hu]. split_and!; [done|set_solver|done|]. intros n Hi. set_solver.
  - split; [done|]. by intros ([|t' l]&[=]&_).
Qed.

Lemma validateTools_spec ts : validateTools ts = None ↔ distinct_tools ts.
Proof.
  unfold validateTools, distinct_tools. rewrite validate_from_spec.
  split; intros (l&?&?&H); exists l; split_and!; try done; by destruct H; try (intros; apply not_elem_of_nil).
Qed.

Lemma distinct_filter p ts : distinct_tools ts → distinct_tools (List.filter p ts).
Proof.
  intros (l&->&Hn&Hu). exists (List.filter (λ t, p (Some t)) l). unfold names_of in *. split_and!.
  - clear. induction l as [|t l IH]; [done|]. cbn [fmap list_fmap List.filter].
    destruct (p (Some t)); cbn [fmap list_fmap]; by rewrite <- IH.
  - intros (t&E&Hi)%list_elem_of_fmap. apply elem_of_list_filter' in Hi as [Hi _]. destruct Hn. rewrite E.
    by apply list_elem_of_fmap_2.
  - induction l as [|t l IH]; [done|]. rewrite fmap_cons in *. apply NoDup_cons in Hu as [Ht Hu].
    cbn [List.filter]. destruct (p (Some t)); [|apply IH; set_solver]. rewrite fmap_cons. constructor; [|apply IH; set_solver].
    intros (t'&E&Hi)%list_elem_of_fmap. apply elem_of_list_filter' in Hi as [Hi _]. destruct Ht. rewrite E.
    by apply list_elem_of_fmap_2.
Qed.

Lemma extra_names_spec seen extras ns : extra_names seen extras = Ok ns →
  NoDup ns ∧ ∀ n, n ∈ ns → n ∉ seen ∧ is_Some (ParseExtraTool n).
Proof.
  revert seen ns. induction extras as [|x extras IH]; intros seen ns; cbn [extra_names].
  - intros [= <-]. split; [constructor|]. by intros n ?%elem_of_nil.
  - destruct (ParseExtraTool x) eqn:Hx; [|done]. case_bool_decide as Hs; [by apply IH|].
    destruct (extra_names (x :: seen) extras) as [ns'|] eqn:E; [|done]. intros [= <-].
    destruct (IH _ _ E) as [Hu Hn]. split.
    + constructor; [|done]. intros Hi. apply Hn in Hi as [Hi _]. set_solver.
    + intros n [->|Hi]%elem_of_cons; [by rewrite Hx|]. apply Hn in Hi as [? ?]. set_solver.
Qed.

Lemma extra_not_builtin n : is_Some (ParseExtraTool n) → n ∉ builtin_names.
Proof.
  unfold ParseExtraTool. case_bool_decide; [intros _; subst; by vm_compute; set_solver|].
  case_bool_decide; [|by intros [? ?]]. subst. intros _. vm_compute. set_solver.
Qed.

Lemma tool_names_spec cfg ns : tool_names cfg = Ok ns →
  NoDup ns ∧ [] ∉ ns ∧ ∀ n, n ∈ ns → isBuiltinToolName n = true.
Proof.
  unfold tool_names. destruct (extra_names [] _) as [xs|] eqn:E; [|done]. intros <-%(inj Ok).
  destruct (extra_names_spec _ _ _ E) as [Hu Hn].
  assert (∀ n, n ∈ builtin_names ++ xs → isBuiltinToolName n = true) as Hb.
  { intros n [Hi|Hi]%elem_of_app; unfold isBuiltinToolName; apply orb_true_iff; [left|right];
      apply bool_decide_eq_true; [done|]. by apply Hn. }
  split_and!; [|by intros H%Hb|done]. rewrite NoDup_app. split_and!; [|intros n Hi Hx|done].
  - apply (bool_decide_unpack _). by vm_compute.
  - apply Hn in Hx as [_ Hx]. by apply extra_not_builtin in Hx.
Qed.

Lemma distinct_app_builtin ts w cfg ns : distinct_tools ts → Forall (λ t, is_custom t = true) ts →
  tool_names cfg = Ok ns → distinct_tools (ts ++ (Some <$> (BuiltinTool w <$> ns))).
Proof.
  intros (l&->&Hn&Hu) Hc Hns. destruct (tool_names_spec _ _ Hns) as (Hu'&Hn'&Hb).
  assert (st_Name <$> (BuiltinTool w <$> ns) = ns) as E.
  { rewrite <- list_fmap_compose. by apply list_fmap_id. }
  exists (l ++ (BuiltinTool w <$> ns)). unfold names_of in *. rewrite !fmap_app, E. split_and!; [done|set_solver|].
  rewrite NoDup_app. split_and!; [done| |done]. intros n (t&->&Ht)%list_elem_of_fmap Hi.
  apply Hb in Hi. eapply Forall_forall in Hc; [|by apply list_elem_of_fmap_2]. cbn in Hc. by rewrite Hi in Hc.
Qed.

(** ** Workspaces and the tools over them *)

(** Two workspaces with one playground and one source directory. *)
Definition same_home (a b : workspaceRoot) : Prop :=
  w_tempRoot a = w_tempRoot b ∧ w_skillRoot a = w_skillRoot b.

(** The heap grows; what is there keeps its playground. *)
Definition heap_grows (h h' : heap) : Prop :=
  ∀ i root, h !! i = Some root → ∃ root', h' !! i = Some root' ∧ same_home root' root.

Definition heap_ok (h : heap) : Prop := Forall ws_ok h.

(** A built-in tool of [s] works in the playground of [s]. *)
Definition at_home {C} (h : heap) (s : Skill C) (own : workspaceRoot) (w : nat) : Prop :=
  ∃ root, h !! w = Some root ∧ ws_ok root ∧ same_home root own.

Record skill_ok {C} (h : heap) (s : Skill C) : Prop := {
  so_home : ∃ own, deref_ws h (sk_workspace s) = Some own ∧ ws_ok own
            ∧ ∀ w name, Some (BuiltinTool w name) ∈ sk_tools s → at_home h s own w;
  so_tools : distinct_tools (sk_tools s) }.

Definition made {E C} (h : heap) (r : res E (heap * Skill C)) : Prop :=
  match r with Ok (h', s) => h `prefix_of` h' ∧ heap_ok h' ∧ skill_ok h' s | Err _ => True end.

Lemma same_home_refl a : same_home a a.
Proof. by split. Qed.
Lemma same_home_trans a b c : same_home a b → same_home b c → same_home a c.
Proof. intros [? ?] [? ?]. by split; etrans. Qed.
Lemma same_home_sym a b : same_home a b → same_home b a.
Proof. by intros [? ?]. Qed.

Lemma heap_grows_refl h : heap_grows h h.
Proof. intros i root Hi. by exists root. Qed.
Lemma heap_grows_trans a b c : heap_grows a b → heap_grows b c → heap_grows a c.
Proof.
  intros H1 H2 i root Hi. destruct (H1 _ _ Hi) as (r1&Hr1&E1). destruct (H2 _ _ Hr1) as (r2&Hr2&E2).
  exists r2. split; [done|]. by eapply same_home_trans.
Qed.
Lemma heap_grows_prefix h h' : h `prefix_of` h' → heap_grows h h'.
Proof. intros [l ->] i root Hi. exists root. split; [by apply lookup_app_l_Some|done]. Qed.
Lemma heap_grows_insert h w old root : h !! w = Some old → same_home root old → heap_grows h (<[w := root]> h).
Proof.
  intros Hw Hh i r Hi. destruct (decide (i = w)) as [->|Hne].
  - exists root. rewrite list_lookup_insert_eq by (by eapply lookup_lt_Some). split; [done|].
    by rewrite Hw in Hi; injection Hi as <-.
  - exists r. by rewrite list_lookup_insert_ne.
Qed.

Lemma skill_ok_grows {C} h h' (s : Skill C) : heap_ok h' → heap_grows h h' → skill_ok h s → skill_ok h' s.
Proof.
  intros Hok Hg [(own&Hown&_&Ht) Hd]. split; [|done]. unfold deref_ws in *.
  destruct (sk_workspace s) as [w|]; [|done]. cbn in Hown |- *. destruct (Hg _ _ Hown) as (own'&Hown'&E).
  exists own'. split_and!; [done|by eapply Forall_lookup in Hok|].
  intros w' name Hi. destruct (Ht _ _ Hi) as (root&Hr&_&Hs). destruct (Hg _ _ Hr) as (root'&Hr'&E').
  exists root'. split_and!; [done|by eapply Forall_lookup in Hok|].
  eapply same_home_trans; [done|]. eapply same_home_trans; [done|]. by apply same_home_sym.
Qed.

Section homes.
Context {C : Type}.
Implicit Types s : Skill C.

(** A copy has the tools and, in a workspace of its own, the home of its original. *)
Lemma copySkill_spec h s own : deref_ws h (sk_workspace s) = Some own →
  copySkill h s = (h ++ [own], mkSkill (sk_meta s) (sk_Instruction s) (Some (List.length h))
                                 (sk_envFiles s) (sk_toolSet s) (sk_tools s) None None).
Proof. intros Hown. destruct s as [m i w e c ts v st]. cbn [sk_workspace] in Hown. cbn. by rewrite Hown. Qed.

Lemma heap_ok_snoc h root : heap_ok h → ws_ok root → heap_ok (h ++ [root]).
Proof. intros. apply Forall_app. by split; [|apply Forall_singleton]. Qed.

(** A skill over the new workspace [own], whose tools are at home there. *)
Lemma made_snoc {E} h own s : heap_ok h → ws_ok own → sk_workspace s = Some (List.length h) →
  distinct_tools (sk_tools s) →
  (∀ w name, Some (BuiltinTool w name) ∈ sk_tools s → at_home (h ++ [own]) s own w) →
  made (E := E) h (Ok (h ++ [own], s)).
Proof.
  intros Hh Hown Hw Hd Ht. split_and!; [by apply prefix_app_r|by apply heap_ok_snoc|]. split; [|done].
  exists own. rewrite Hw. cbn. rewrite lookup_app_r, Nat.sub_diag by done. by split_and!.
Qed.

Lemma at_home_app h s s' own w l : at_home h s own w → at_home (h ++ l) s' own w.
Proof. intros (root&Hr&Hs). exists root. split; [by apply lookup_app_l_Some|done]. Qed.

(** Tools that the caller supplies are his own, not built-in tools of a skill. *)
Definition foreign (ts : list (option SkillTool)) : Prop :=
  ∀ w name, Some (BuiltinTool w name) ∉ ts.

Lemma AddTools_made h s tools : heap_ok h → skill_ok h s → foreign tools → made h (AddTools h (Some s) tools).
Proof.
  intros Hh [(own&Hown&Hok&Ht) Hd] Hf. unfold AddTools. cbn [unbound].
  destruct (sk_conv s); [done|]. destruct (validateTools _) eqn:Hv; [done|]. apply validateTools_spec in Hv.
  rewrite (copySkill_spec _ _ _ Hown). cbn [set_tools]. apply made_snoc; try done.
  intros w name [Hi|Hi]%elem_of_app; [|by destruct (Hf w name)]. eapply at_home_app, Ht, Hi.
Qed.

Lemma applySkillOptions_spec i opts s s' : applySkillOptions i opts s = Ok s' →
  sk_workspace s' = sk_workspace s
  ∧ (distinct_tools (sk_tools s) → distinct_tools (sk_tools s'))
  ∧ ∀ t, t ∈ sk_tools s' → t ∈ sk_tools s ∨ ∃ o, Some o ∈ opts ∧ t ∈ o.
Proof.
  revert i s. induction opts as [|[o|] opts IH]; intros i s; cbn [applySkillOptions].
  - intros <-%(inj Ok). split_and!; [done|done|by left].
  - unfold WithTools. destruct (validateTools _) eqn:Hv; [done|]. apply validateTools_spec in Hv.
    intros H. apply IH in H as (Hw&Hd&Ht). destruct s as [m ins w e c ts v st]. cbn in *.
    split_and!; [done|tauto|]. intros t [[?|?]%elem_of_app|(o'&?&?)]%Ht; [by left| |]; right.
    + exists o. split; [apply list_elem_of_here|done].
    + exists o'. by split; [apply list_elem_of_further|].
  - done.
Qed.
End homes.

Section runs.
Context `{FileSystemLaws W} `{FrontMatter skill_meta} {C : Type}.
Implicit Types s : Skill C.

(** What [SetAccessibleDirsAndBuiltinTools] returns for a skill that is not bound. *)
Lemma rebuild_result h s dirs own (w : W) : sk_conv s = None →
  deref_ws h (sk_workspace s) = Some own → ws_ok own → distinct_tools (sk_tools s) →
  (exec (SetAccessibleDirsAndBuiltinTools h (Some s) dirs) w).1
  = match (exec (canonical_dirs [] dirs) w).1 with
    | Err e => Err (ErrWorkspace e)
    | Ok ds =>
        match tool_names (sk_toolSet s) with
        | Err name => Err (ErrUnknownExtra name)
        | Ok names =>
            Ok (h ++ [mkWorkspaceRoot (w_skillRoot own) (w_tempRoot own) ds],
                mkSkill (sk_meta s) (sk_Instruction s) (Some (List.length h)) (sk_envFiles s) (sk_toolSet s)
                  (List.filter is_custom (sk_tools s) ++ (Some <$> (BuiltinTool (List.length h) <$> names)))
                  None None)
        end
    end.
Proof.
  intros Hc Hown [Ht _] Hd. unfold SetAccessibleDirsAndBuiltinTools. cbn [unbound]. rewrite Hc.
  rewrite (copySkill_spec _ _ _ Hown). cbn [set_tools sk_tools]. rewrite exec_try.
  unfold SetAccessibleDirs. cbn [unbound sk_conv sk_workspace].
  rewrite lookup_app_r, Nat.sub_diag by done. cbn [lookup list_lookup]. rewrite exec_try.
  cbn [setAccessibleDirs]. rewrite exec_try.
  destruct (exec (canonical_dirs [] dirs) w) as [[ds|e] w']; [|done]. cbn [exec fst].
  rewrite insert_app_r_alt, Nat.sub_diag by done. cbn [insert list_insert].
  unfold BuiltinTools. cbn [sk_workspace deref_ws]. unfold deref_ws. cbn.
  rewrite lookup_app_r, Nat.sub_diag by done. cbn.
  destruct (w_tempRoot own) as [|c t] eqn:E; [done|]. cbn.
  destruct (tool_names (sk_toolSet s)) as [names|] eqn:En; [|done].
  assert (validateTools (List.filter is_custom (sk_tools s)
            ++ (Some <$> (BuiltinTool (List.length h) <$> names))) = None) as Hv.
  { apply validateTools_spec. eapply distinct_app_builtin; [by apply distinct_filter| |done].
    apply Forall_forall. by intros t' [_ ?]%elem_of_list_filter'. }
  cbn in Hv. by rewrite Hv.
Qed.

Lemma rebuild_made h s dirs (w : W) : heap_ok h → skill_ok h s →
  made h (exec (SetAccessibleDirsAndBuiltinTools h (Some s) dirs) w).1.
Proof.
  intros Hh [(own&Hown&Hok&Ht) Hd]. destruct (sk_conv s) eqn:Hc.
  { unfold SetAccessibleDirsAndBuiltinTools. cbn [unbound]. by rewrite Hc. }
  rewrite (rebuild_result _ _ _ _ _ Hc Hown Hok Hd).
  destruct (exec (canonical_dirs [] dirs) w) as [[ds|e] w'] eqn:Hds; [|done]. cbn [fst].
  destruct (tool_names (sk_toolSet s)) as [names|] eqn:En; [|done].
  assert (ws_ok (mkWorkspaceRoot (w_skillRoot own) (w_tempRoot own) ds)) as Hroot.
  { destruct (workspaces_well_formed w) as (_&_&H'). apply (H' own dirs); [done|].
    cbn [setAccessibleDirs]. by rewrite exec_try, Hds. }
  apply made_snoc; [done|done|done| |]; cbn [sk_tools].
  - eapply distinct_app_builtin; [by apply distinct_filter| |done].
    apply Forall_forall. by intros t' [_ ?]%elem_of_list_filter'.
  - intros v name [[Hi _]%elem_of_list_filter'|Hi]%elem_of_app.
    + destruct (Ht _ _ Hi) as (root&?&?&?&?). exists root. split; [by apply lookup_app_l_Some|done].
    + apply list_elem_of_fmap in Hi as (t&[= <-]&(n&[= -> ->]&Hi)%list_elem_of_fmap).
      eexists. rewrite lookup_app_r, Nat.sub_diag by done. split_and!; [done|done|done].
Qed.

Lemma configure_made h s cfg (w : W) : heap_ok h → skill_ok h s →
  made h (exec (WithToolSetConfig h (Some s) cfg) w).1.
Proof.
  intros Hh [(own&Hown&Hok&Ht) Hd]. unfold WithToolSetConfig. cbn [unbound].
  destruct (sk_conv s); [done|]. rewrite (copySkill_spec _ _ _ Hown). cbn [set_toolSet sk_tools].
  match goal with |- context [Ret (Ok (_, ?x))] => assert (made (E := skill_err) h (Ok (h ++ [own], x))) as Hm end.
  { apply made_snoc; [done..|]. intros v name Hi. by eapply at_home_app, Ht. }
  destruct (has_builtin (sk_tools s)); [|done]. destruct Hm as (Hg&Hh'&Hs).
  match goal with |- context [SetAccessibleDirsAndBuiltinTools _ (Some ?x) ?ds] =>
    pose proof (rebuild_made _ x ds w Hh' Hs) as Hr end.
  destruct (exec _ w) as [[[h' s']|e] w']; [|done]. destruct Hr as (?&?&?).
  split_and!; [by etrans|done|done].
Qed.

Definition opts_foreign (opts : list (option (list (option SkillTool)))) : Prop :=
  ∀ o, Some o ∈ opts → foreign o.

Lemma finish_made h root opts (r : res skill_err (Skill C)) (w : W) : heap_ok h → ws_ok root → opts_foreign opts →
  (∀ s, r = Ok s → sk_workspace s = Some (List.length h) ∧ sk_tools s = []) →
  made h (exec (finish_new h root opts r) w).1.
Proof.
  intros Hh Hroot Ho Hr. unfold finish_new. destruct r as [s|e]; cbv beta match; [|by rewrite exec_bind].
  destruct (applySkillOptions 0 opts s) as [s'|e] eqn:Ha; [|by rewrite exec_bind].
  destruct (applySkillOptions_spec _ _ _ _ Ha) as (Hw&Hd&Ht). destruct (Hr s eq_refl) as [Hw0 Hs].
  cbn [exec fst]. apply made_snoc; [done|done|by rewrite Hw| |].
  - apply Hd. rewrite Hs. exists []. split_and!; [done|by apply not_elem_of_nil|constructor].
  - rewrite Hs in Ht. intros v name [Hi%elem_of_nil|(o&Hi&Hv)]%Ht; [done|]. by destruct (Ho _ Hi v name).
Qed.

Lemma newFromFS_fresh raw dir i env cfg s : newFromFS (C := C) raw dir i env cfg = Ok s →
  sk_workspace s = Some i ∧ sk_tools s = [].
Proof.
  unfold newFromFS. destruct raw as [raw|[]]; [|done..]. destruct (Parse skill_meta raw) as [[m rest]|]; [|done].
  by intros <-%(inj Ok).
Qed.

Lemma new_fs_made h file cfg opts (w : W) : heap_ok h → opts_foreign opts →
  made h (exec (NewSkill_fs (C := C) h file cfg opts) w).1.
Proof.
  intros Hh Ho. unfold NewSkill_fs. rewrite exec_try.
  destruct (exec newTempWorkspaceRoot w) as [[root|e] w'] eqn:E; [|done].
  apply finish_made; [done| |done|by apply newFromFS_fresh].
  apply (proj1 (workspaces_well_formed w)). by rewrite E.
Qed.

Lemma new_dir_made h dir cfg opts (w : W) : heap_ok h → opts_foreign opts →
  made h (exec (NewSkill_dir (C := C) h dir cfg opts) w).1.
Proof.
  intros Hh Ho. unfold NewSkill_dir. rewrite exec_try.
  destruct (exec (newWorkspaceRoot dir) w) as [[root|e] w'] eqn:E; [|done].
  assert (ws_ok root) as Hroot by (apply (proj1 (proj2 (workspaces_well_formed w)) dir); by rewrite E).
  rewrite exec_bind. destruct (exec (ask _) w') as [[k|[|msg]] w2]; cbn [fst snd]; [| |by rewrite exec_bind].
  all: rewrite exec_bind; apply finish_made; [done|done|done|by apply newFromFS_fresh].
Qed.

(** What [SetAccessibleDirs] changes. *)
Lemma set_dirs_result h (s : option (Skill C)) dirs (w : W) h' : heap_ok h →
  (exec (SetAccessibleDirs h s dirs) w).1 = Ok h' →
  ∃ s0 i old root, s = Some s0 ∧ sk_workspace s0 = Some i ∧ h !! i = Some old ∧ h' = <[i := root]> h
    ∧ ws_ok root ∧ same_home root old.
Proof.
  intros Hh. unfold SetAccessibleDirs. destruct s as [s|]; [|done]. cbn [unbound].
  destruct (sk_conv s); [done|]. destruct (sk_workspace s) as [i|] eqn:Hi; [|done]. rewrite exec_try.
  destruct (exec (setAccessibleDirs (h !! i) dirs) w) as [[root|e] w'] eqn:E; [|done]. cbn [exec fst].
  intros <-%(inj Ok). destruct (h !! i) as [old|] eqn:Hold; [|done].
  exists s, i, old, root. split_and!; try done.
  - apply (proj2 (proj2 (workspaces_well_formed w)) old dirs); [by eapply Forall_lookup in Hold|by rewrite E].
  - cbn [setAccessibleDirs] in E. rewrite exec_try in E. destruct (exec _ w) as [[ds|e] w2]; [|done].
    by injection E as <- _.
Qed.

(** The tools of an operation are the caller's own. *)
Definition op_foreign (op : skill_op C) : Prop :=
  match op with
  | OpNewFs _ _ opts | OpNewDir _ _ opts => opts_foreign opts
  | OpAddTools _ tools => foreign tools
  | _ => True
  end.

Definition system_ok (st : skills C) : Prop :=
  heap_ok (ss_heap st) ∧ ∀ s, s ∈ ss_all st → skill_ok (ss_heap st) s.

Lemma system_add st r : system_ok st → made (ss_heap st) r →
  system_ok (add_skill st r) ∧ ss_heap st `prefix_of` ss_heap (add_skill st r).
Proof.
  intros [Hh Hs] Hm. destruct r as [[h s]|e]; [|done]. destruct Hm as (Hp&Hh'&Hok). split; [|done].
  split; [done|]. intros s' [Hi|E%list_elem_of_singleton]%elem_of_app; [|by subst].
  eapply skill_ok_grows; [done|by apply heap_grows_prefix|by apply Hs].
Qed.

Definition sets_dirs (op : skill_op C) : option nat := match op with OpSetDirs i _ => Some i | _ => None end.

Lemma system_keep h s st : skill_ok h s → ss_heap st = h → system_ok st → system_ok (mkSkills h (ss_all st ++ [s])).
Proof.
  intros Hs <- [Hh Ha]. split; [done|]. intros s' [?|E%list_elem_of_singleton]%elem_of_app; [by apply Ha|by subst].
Qed.

Lemma set_dirs_step st i dirs (w : W) : system_ok st →
  let st' := (exec (do_skill_op (OpSetDirs i dirs) st) w).1 in
  system_ok st' ∧ heap_grows (ss_heap st) (ss_heap st') ∧ ∀ j root, ss_heap st !! j = Some root →
    (∀ s, ss_all st !! i = Some s → sk_workspace s ≠ Some j) → ss_heap st' !! j = Some root.
Proof.
  intros [Hh Hs]. cbn [do_skill_op]. rewrite exec_bind. cbn [exec fst].
  destruct (exec _ w) as [[h'|e] w'] eqn:E; cbn [fst]; [|split_and!; [done|apply heap_grows_refl|done]].
  destruct (set_dirs_result (ss_heap st) (ss_all st !! i) dirs w h' Hh) as (s0&k&old&root&Hs0&Hk&Hold&->&Hr&Hsame);
    [by rewrite E|]. cbn [ss_heap ss_all].
  assert (heap_ok (<[k := root]> (ss_heap st))) as Hh' by by apply Forall_insert.
  split; [split; [done|]|split].
  - intros s Hi. eapply skill_ok_grows; [done|by eapply heap_grows_insert|by apply Hs].
  - by eapply heap_grows_insert.
  - intros j r Hj Hne. rewrite list_lookup_insert_ne; [done|]. intros ->. by apply (Hne s0).
Qed.

Lemma op_step op st (w : W) : op_foreign op → system_ok st →
  let st' := (exec (do_skill_op op st) w).1 in
  system_ok st' ∧ heap_grows (ss_heap st) (ss_heap st') ∧ ∀ j root, ss_heap st !! j = Some root →
    (∀ i s, sets_dirs op = Some i → ss_all st !! i = Some s → sk_workspace s ≠ Some j) →
    ss_heap st' !! j = Some root.
Proof.
  intros Hf Hst. destruct (sets_dirs op) as [i|] eqn:Hop.
  { destruct op as [| | | | |i' dirs| |]; try done. injection Hop as ->.
    destruct (set_dirs_step st i dirs w Hst) as (?&?&Hk). split_and!; [done|done|]. intros j root Hj Hne.
    apply Hk; [done|]. intros s. by apply Hne. }
  assert (system_ok (exec (do_skill_op op st) w).1 ∧ ss_heap st `prefix_of` ss_heap (exec (do_skill_op op st) w).1)
    as [? Hp]; [|split_and!; [done|by apply heap_grows_prefix|]; destruct Hp as [l Hl];
      intros j root Hj _; rewrite Hl; by apply lookup_app_l_Some].
  assert (∀ i s, ss_all st !! i = Some s → skill_ok (ss_heap st) s) as Hat.
  { intros i s Hi. by eapply Hst, list_elem_of_lookup_2. }
  destruct Hst as [Hh Hs]. destruct op as [file cfg opts|dir cfg opts|i tools|i dirs|i cfg|i dirs|i name|i conv stream];
    cbn [do_skill_op]; rewrite ?exec_bind; cbn [exec fst]; [..|done| |].
  - apply system_add; [done|by apply new_fs_made].
  - apply system_add; [done|by apply new_dir_made].
  - apply system_add; [done|]. destruct (ss_all st !! i) as [s|] eqn:Hi; [|done].
    apply AddTools_made; [done|by eapply Hat|done].
  - apply system_add; [done|]. destruct (ss_all st !! i) as [s|] eqn:Hi; [|done]. apply rebuild_made; [done|by eapply Hat].
  - apply system_add; [done|]. destruct (ss_all st !! i) as [s|] eqn:Hi; [|done]. apply configure_made; [done|by eapply Hat].
  - destruct (ss_all st !! i) as [s|] eqn:Hi; [|done]. split; [|done]. apply system_keep; [|done|done].
    destruct (Hat _ _ Hi) as [(own&?) ?]. destruct s as [[] ? ? ? ? ? ? ?]. split; [by exists own|done].
  - destruct (ss_all st !! i) as [s|] eqn:Hi; [|done]. destruct (Hat _ _ Hi) as [(own&Hown&Hok&Ht) Hd].
    rewrite (copySkill_spec _ _ _ Hown).
    match goal with |- context [mkSkills ?h (_ ++ [?x])] =>
      apply (system_add st (Ok (h, x))); [done|] end.
    apply made_snoc; [done..|]. intros v name Hv. by eapply at_home_app, Ht.
Qed.

(** C31: In whatever order skills are loaded, given tools, rebuilt with other
    accessible directories or tool sets, renamed and bound, every skill has tools
    with different names that are not empty, and each of its built-in tools resolves
    paths in a well formed workspace with the skill's own playground and source
    directory (so that what [tools_stay_inside] says holds there). One more operation
    keeps this, and changes the roots of a workspace only when it is
    [SetAccessibleDirs] of a skill that has this workspace: copies are not affected. *)
Theorem skills_confined (st : skills C) : skills_run (W := W) op_foreign st →
  (∀ s, s ∈ ss_all st → skill_ok (ss_heap st) s)
  ∧ ∀ op (w : W), op_foreign op →
      let st' := (exec (do_skill_op op st) w).1 in
      (∀ s, s ∈ ss_all st' → skill_ok (ss_heap st') s)
      ∧ ∀ j root, ss_heap st !! j = Some root →
          (∀ i s, sets_dirs op = Some i → ss_all st !! i = Some s → sk_workspace s ≠ Some j) →
          ss_heap st' !! j = Some root.
Proof.
  intros Hr. assert (system_ok st) as Hst.
  { induction Hr as [|op st w Hop _ IH]; [|by apply op_step].
    split; [constructor|]. by intros s ?%elem_of_nil. }
  split; [apply Hst|]. intros op w Hop. destruct (op_step op st w Hop Hst) as ([_ ?]&_&?). by split.
Qed.
End runs.

(** ** Binding *)

Section binding.
Context {S : Type} {store : SessionStore S} {Cl : Type}.
Context (clock : nat → bytes) (describe : SkillTool → bytes * metadata)
  (clientFromEnv : list bytes → option Cl) (system : bytes).
Notation bound_skill := (Skill (Cl * Conversation S)).

Definition spec_of (t : SkillTool) : ToolSpec := mkSpec (st_Name t) (describe t).1 (describe t).2.

Lemma tool_specs_offered l seen : [] ∉ names_of l → NoDup (names_of l) → (∀ n, n ∈ names_of l → n ∉ seen) →
  ∃ names, tool_specs seen (offered describe <$> (Some <$> l)) = Ok (spec_of <$> l, names).
Proof.
  revert seen. induction l as [|t l IH]; intros seen Hn Hu Hd; [by exists seen|].
  unfold names_of in *. rewrite fmap_cons in Hn, Hu, Hd. apply NoDup_cons in Hu as [Ht Hu].
  rewrite !fmap_cons. cbn [offered fmap option_fmap option_map tool_specs tool_Name].
  destruct (is_empty (st_Name t)) eqn:He; [destruct Hn; destruct (st_Name t); [apply list_elem_of_here|done]|].
  rewrite bool_decide_eq_false_2 by (apply Hd, list_elem_of_here).
  destruct (IH (st_Name t :: seen)) as [names ->]; [set_solver|done|set_solver|]. by exists names.
Qed.

(** What a store answers to [Load]. *)
Definition loads (id : bytes) (e : log_err) (s : S) : Prop := (ss_Load id s).1 = Err e.
Definition loaded (id : bytes) (s : S) : S := (ss_Load id s).2.

Lemma find_session_missing id i stores : Forall (loads id ErrNotFound) stores →
  find_session id i (Some <$> stores) = (Err BindNotFound, Some <$> (loaded id <$> stores)).
Proof.
  intros Hs. revert i. induction Hs as [|s stores Hl Hs IH]; intros i; [done|].
  rewrite !fmap_cons. cbn [find_session]. unfold loads, loaded in *. destruct (ss_Load id s) as [r s'].
  cbn in Hl. subst r. by rewrite IH.
Qed.

Lemma bind_option_last settings opts o : foldl bind_option settings (opts ++ [Some o]) = bind_option (S := S) settings (Some o).
Proof. rewrite foldl_app. by destruct o. Qed.

(** Whatever [Bind] returns is at home. *)
Lemma Bind_made fresh_id fresh_stream h (s : bound_skill) client cfg opts : heap_ok h → skill_ok h s →
  made h (Bind clock describe clientFromEnv system fresh_id fresh_stream h (Some s) client cfg opts).1.
Proof.
  intros Hh [(own&Hown&Hok&Ht) Hd]. unfold Bind.
  destruct (match client with Some c => Some c | None => _ end); [|done]. rewrite (copySkill_spec _ _ _ Hown).
  destruct (NewConversation _ _ _) as [conv|]; [|done].
  assert (∀ (v : option (Cl * Conversation S)) st, made (E := bind_err) h (Ok (h ++ [own], mkSkill (sk_meta s) (sk_Instruction s) (Some (List.length h))
    (sk_envFiles s) (sk_toolSet s) (sk_tools s) v st))) as Hm.
  { intros v st. apply made_snoc; [done..|]. intros w name Hi. by eapply at_home_app, Ht. }
  destruct (bs_stores _), (bs_sessionID _); [| apply Hm | |].
  all: destruct (resolveSessionID _ _ _) as [[id|] ss]; [|done];
    destruct (open_stores _ _ _ _) as [[opened|] ss']; [apply Hm|done].
Qed.

(** The skill that [Bind] returns. *)
Definition bound_to (h : heap) (s : bound_skill) (client : Cl) (stream : option nat) (c : Conversation S)
  (s' : bound_skill) : Prop :=
  sk_conv s' = Some (client, c) ∧ sk_eventStream s' = stream ∧ sk_tools s' = sk_tools s
  ∧ sk_meta s' = sk_meta s ∧ sk_workspace s' = Some (List.length h).

(** [Bind] of a skill whose tools are distinct (as [skills_confined] shows them
    to be) never fails on them. Without a session it returns a copy, with a workspace
    of its own, bound to a fresh conversation over the given client or the one of the
    environment; the model is offered exactly the skill's tools, in order, under the
    skill's instructions. With an existing session id that no store knows it returns
    [ErrSessionNotFound] and has only read the stores. Without a client it fails. *)
Theorem bind_spec h (s : bound_skill) client cfg opts fresh_id fresh_stream own cl :
  deref_ws h (sk_workspace s) = Some own → distinct_tools (sk_tools s) →
  match client with Some c => Some c | None => clientFromEnv (sk_envFiles s) end = cl →
  let bind opts := Bind clock describe clientFromEnv system fresh_id fresh_stream h (Some s) client cfg opts in
  (cl = None → (bind opts).1 = Err BindClient)
  ∧ (∀ c, cl = Some c →
      (∃ conv s', bind [] = (Ok (h ++ [own], s'), [])
        ∧ bound_to h s c (if rc_StreamEvents cfg then Some (default fresh_stream (rc_EventStream cfg)) else None) conv s'
        ∧ cv_instructions conv = runtimeInstruction system h (Some s)
        ∧ (∃ l, sk_tools s = Some <$> l ∧ cv_toolSpecs conv = spec_of <$> l)
        ∧ cv_turns conv = [] ∧ cv_stores conv = [])
      ∧ (∀ id stores, id ≠ [] → stores ≠ [] → Forall (loads id ErrNotFound) stores →
          bind (opts ++ [Some (WithExistingSession id (Some <$> stores))])
          = (Err BindNotFound, Some <$> (loaded id <$> stores)))).
Proof.
  intros Hown (l&Hl&Hn&Hu) Hcl bind.
  destruct (tool_specs_offered l [] Hn Hu) as [names Hsp]; [intros; apply not_elem_of_nil|].
  unfold bind, Bind. split; [|intros c ->; split].
  - intros ->. by rewrite Hcl.
  - rewrite Hcl, (copySkill_spec _ _ _ Hown). cbn [foldl bs_stores bs_sessionID].
    unfold NewConversation. rewrite Hl, Hsp. eexists _, _. split; [done|]. split_and!; try done.
    by exists l.
  - intros id stores Hid Hst Hm. rewrite bind_option_last. cbn [bind_option bs_stores bs_sessionID].
    rewrite Hcl, (copySkill_spec _ _ _ Hown). unfold NewConversation. rewrite Hl, Hsp.
    destruct stores as [|s0 stores]; [done|]. unfold resolveSessionID.
    destruct id as [|b id]; [done|]. cbn [is_empty fmap list_fmap].
    change (Some s0 :: (Some <$> stores)) with (Some <$> (s0 :: stores)). by rewrite find_session_missing.
Qed.
End binding.

(** ** Examples *)

(** Front matter that is just a name. *)
#[local] Instance sample_front : FrontMatter skill_meta := {|
  fm_zero := mkSkillMeta [] [] []; yaml_Marshal := λ m, Some (sm_Name m);
  yaml_Unmarshal := λ b, Some (mkSkillMeta (TrimSpace b) [] []); unmarshalTOML := λ _, None |}.

Definition sample_file : bytes :=
  s2b "---" ++ eol ++ s2b "notes" ++ eol ++ s2b "---" ++ eol ++ s2b "Take notes." ++ eol.
Definition sample_skill_ops : list (skill_op ()) :=
  [OpNewFs (Ok sample_file) DefaultToolSetConfig [Some [Some (OtherTool (s2b "list_skills") 0)]];
   OpRebuild 0 [s2b "/tmp/ws"]; OpAddTools 1 [Some (McpTool (mkServer (s2b "db") []) (mkToolMeta (s2b "query") []))];
   OpSetDirs 1 []].
Definition sample_skills : skills () :=
  foldl (λ st op, (exec (do_skill_op op st) sample_tree).1) no_skills sample_skill_ops.

Lemma sample_skills_run : skills_run (W := tree) op_foreign sample_skills.
Proof.
  unfold sample_skills, sample_skill_ops. cbn [foldl].
  repeat (apply run_op; [|]); try apply run_none; try exact I.
  - by intros w name Hi%list_elem_of_singleton.
  - intros o [= ->]%list_elem_of_singleton. by intros w name Hi%list_elem_of_singleton.
Qed.

Lemma skills_confined_witness : ∃ s, ss_all sample_skills !! 2%nat = Some s ∧ skill_ok (ss_heap sample_skills) s.
Proof.
  destruct (ss_all sample_skills !! 2%nat) as [s|] eqn:E; [|by vm_compute in E].
  exists s. destruct (skills_confined sample_skills sample_skills_run) as [Hs _]. split; [reflexivity|].
  exact (Hs s (list_elem_of_lookup_2 _ _ _ E)).
Defined.

(** The tools of a copy that [AddTools] returns are still those of the original's
    workspace: setting the accessible directories of the original changes them, and
    the copy goes on telling its model of a directory its tools refuse. *)
Lemma copy_tools_stale : ∃ s w, ss_all sample_skills !! 2%nat = Some s
  ∧ Some (BuiltinTool w (s2b "read_file")) ∈ sk_tools s
  ∧ (w_extraRoots <$> ss_heap sample_skills !! w) = Some []
  ∧ skill_AccessibleDirs (ss_heap sample_skills) s = [s2b "/tmp/ws"].
Proof.
  destruct (ss_all sample_skills !! 2%nat) as [s|] eqn:E; [|by vm_compute in E].
  exists s, 1%nat. assert (s = default s (ss_all sample_skills !! 2%nat)) as -> by by rewrite E.
  split_and!; [done| |by vm_compute|by vm_compute]. apply (bool_decide_unpack _). by vm_compute.
Qed.

#[local] Existing Instance plain_std.
#[local] Instance sample_sessions : SessionStore world := json_session_store (s2b "/sessions").

Definition sample_skill : Skill (() * Conversation world) :=
  mkSkill (mkSkillMeta (s2b "notes") [] []) (s2b "Take notes.") (Some 0%nat) [] DefaultToolSetConfig
    [Some (OtherTool (s2b "list_skills") 0); Some (BuiltinTool 0 (s2b "bash"))] None None.

(** Reopening a session that is not there. *)
Lemma bind_spec_witness :
  (Bind (λ _, zero_time) (λ _, ([], None)) (λ _, None) [] (s2b "fresh") 0 [sample_ws] (Some sample_skill) (Some tt)
     (mkRuntime (mkConfig 0 None None) true None) [Some (WithExistingSession (s2b "s1") [Some (mkWorld ∅ ∅)])]).1
  = Err BindNotFound.
Proof.
  destruct (bind_spec (λ _, zero_time) (λ _, ([], None)) (λ _, None) [] [sample_ws] sample_skill (Some tt)
    (mkRuntime (mkConfig 0 None None) true None) [] (s2b "fresh") 0 sample_ws (Some tt)) as (_&Hok); [done| |done|].
  - by apply validateTools_spec.
  - destruct (Hok tt eq_refl) as (_&Hb). specialize (Hb (s2b "s1") [mkWorld ∅ ∅]).
    change (fst (Bind (λ _, zero_time) (λ _, ([], None)) (λ _, None) [] (s2b "fresh") 0 [sample_ws] (Some sample_skill)
      (Some tt) (mkRuntime (mkConfig 0 None None) true None)
      ([] ++ [Some (WithExistingSession (s2b "s1") (Some <$> [mkWorld ∅ ∅]))])) = Err BindNotFound).
    rewrite Hb; [done|done|done|]. apply List.Forall_cons; [by vm_compute|apply List.Forall_nil].
Defined.
