(* ===== verification/Registry.v ===== *)
(** The configuration of the orchestrator and its registry of skills
    ([orchestrator/orchestrator.go], [mcp.go], and the skills of [skill.go] and
    [planning.go]): settings that are open until the first request, global MCP
    servers, and the registration of skills, where names may collide.

    [AddSkills] reads the MCP servers under the lock, prepares its skills without
    it, and takes it again to change the registry; other calls may run in between.
    The order in which Go visits a map is an argument. *)
From S2P Require Import Prelude GoText Json Text Event Path Os Tree Workspace Channel Policy Log Session Conversation Skill.

(** ** Data *)

Inductive reg_err :=
| RegNilSkill (i : nat) | RegBound (i : nat) | RegSkill (e : skill_err) | RegNoName (i : nat)
| RegMcp (i : nat) (e : skill_err)
| RegManyUser (name : bytes) | RegManySystem (name : bytes)
| RegRemoveEmpty (i : nat) | RegRemoveTwice (name : bytes) | RegNotRegistered (name : bytes)
| RegLocked | RegNilClient | RegNegative | RegNoOrchestratorName | RegBind (e : bind_err)
| RegNilServer (i : nat) | RegServerNoName (i : nat) | RegServerTwice (name : bytes) | RegServerKnown (name : bytes)
| RegEmptyDir (i : nat) | RegPanic (e : skill_err).

Section Registry.
Context {S : Type} {store : SessionStore S} {Cl Cfg : Type} `{FrontMatter skill_meta}.
Context (clock : nat → bytes) (describe : SkillTool → bytes * metadata)
  (clientFromEnv : list bytes → option Cl) (system : bytes).
(** The embedded SKILL.md of the orchestrator. *)
Context (embedded : os_res bytes).

Notation skill := (Skill (Cl * Conversation S)).

Record SkillRegistration := mkReg {
  sr_Skill : option skill; sr_Alias : bytes; sr_IsUserSupplied : bool; sr_AccessibleDirs : list bytes;
  sr_Client : option Cl; sr_Config : Cfg; sr_MCPServers : list (option Server) }.

(** [oc_env]: what [envClientOnce] has resolved, when it has run. *)
Record settings := mkSettings' {
  oc_logger : nat; oc_skill : skill; oc_max : Z; oc_globalMCP : list Server;
  oc_mcpByName : gmap bytes Server }.

Record registry := mkRegistry {
  oc_heap : heap; oc_env : option (option Cl); oc_configLocked : bool; oc_settings : settings;
  oc_skills : gmap bytes SkillRegistration;
  (** Calls of [AddSkills] that have prepared these registrations. *)
  oc_preparing : list (list SkillRegistration) }.

Definition set_heap h (o : registry) : registry :=
  let '(mkRegistry _ e l st sk p) := o in mkRegistry h e l st sk p.
Definition set_env e (o : registry) : registry :=
  let '(mkRegistry h _ l st sk p) := o in mkRegistry h e l st sk p.
Definition set_locked l (o : registry) : registry :=
  let '(mkRegistry h e _ st sk p) := o in mkRegistry h e l st sk p.
Definition set_settings (f : settings → settings) (o : registry) : registry :=
  let '(mkRegistry h e l st sk p) := o in mkRegistry h e l (f st) sk p.
Definition set_skills sk (o : registry) : registry :=
  let '(mkRegistry h e l st _ p) := o in mkRegistry h e l st sk p.
Definition set_preparing p (o : registry) : registry :=
  let '(mkRegistry h e l st sk _) := o in mkRegistry h e l st sk p.

Definition set_logger l (s : settings) : settings :=
  let '(mkSettings' _ k m g b) := s in mkSettings' l k m g b.
Definition set_orch_skill k (s : settings) : settings :=
  let '(mkSettings' l _ m g b) := s in mkSettings' l k m g b.
Definition set_max m (s : settings) : settings :=
  let '(mkSettings' l k _ g b) := s in mkSettings' l k m g b.
Definition set_mcp g b (s : settings) : settings :=
  let '(mkSettings' l k m _ _) := s in mkSettings' l k m g b.

(** ** The orchestrator's own skill *)

Definition resolveEnvClient (o : registry) : option Cl * registry :=
  match oc_env o with
  | Some c => (c, o)
  | None => let c := clientFromEnv [] in (c, set_env (Some c) o)
  end.

Definition orchestrator_tools : ToolSetConfig :=
  mkToolSet [] [] [] [ExtraListDir; ExtraPwd] ∅ [].

Definition loadOrchestratorSkill (h : heap) (extraTools : list (option SkillTool))
  : prog (res skill_err (heap * skill)) :=
  let opts := match extraTools with [] => [] | _ => [Some extraTools] end in
  try r := NewSkill_fs h embedded orchestrator_tools opts or id in
  SetAccessibleDirsAndBuiltinTools r.1 (Some r.2) [].

Definition zero_config : runtimeConfig := mkRuntime (mkConfig 0 None None) false None.

Definition bindOrchestratorSkill (h : heap) (sk : skill) (client : Cl) : res reg_err (heap * skill) :=
  match (Bind clock describe clientFromEnv system [] 0 h (Some sk) (Some client) zero_config []).1 with
  | Ok r => Ok r
  | Err e => Err (RegBind e)
  end.

(** The skill to use for [sk]; the client it is bound to, if any, is that of the
    environment. *)
Definition configure_skill (sk : skill) (o : registry) : res reg_err skill * registry :=
  match sk_conv sk with
  | Some _ => (Ok sk, o)
  | None =>
      match resolveEnvClient o with
      | (None, o) => (Ok sk, o)
      | (Some client, o) =>
          match bindOrchestratorSkill (oc_heap o) sk client with
          | Ok (h, sk) => (Ok sk, set_heap h o)
          | Err e => (Err e, o)
          end
      end
  end.

Definition configuredOrchestratorSkill (sk : option skill) (o : registry) : prog (res reg_err skill * registry) :=
  match sk with
  | Some sk => Ret (configure_skill sk o)
  | None =>
      loadOrchestratorSkill (oc_heap o) [] ≫= λ r,
      Ret (match r with
           | Err e => (Err (RegPanic e), o)
           | Ok (h, sk) => configure_skill sk (set_heap h o)
           end)
  end.

Abbreviation reg_prog := (prog (option reg_err * registry)).

Definition list_skills_tool : SkillTool := OtherTool (s2b "list_skills") 0.

(** [NewOrchestrator]; an error here is a panic. The heap holds what was there. *)
Definition NewOrchestrator (h : heap) (logger : nat) : prog (res reg_err registry) :=
  loadOrchestratorSkill h [Some list_skills_tool] ≫= λ r,
  Ret (match r with
       | Err e => Err (RegPanic e)
       | Ok (h, sk) =>
           let o := mkRegistry h None false (mkSettings' logger sk 0 [] ∅) ∅ [] in
           match configure_skill sk o with
           | (Err e, _) => Err e
           | (Ok sk, o) => Ok (set_settings (set_orch_skill sk) o)
           end
       end).

(** ** Settings that are open until the first request *)

(** A section under the lock that is refused once the configuration is locked. *)
Definition startup (o : registry) (f : registry → option reg_err * registry) : option reg_err * registry :=
  if oc_configLocked o then (Some RegLocked, o) else f o.

Definition SetLogger (logger : nat) (o : registry) : option reg_err * registry :=
  startup o (λ o, (None, set_settings (set_logger logger) o)).

Definition SetMaxRunningRunners (limit : Z) (o : registry) : option reg_err * registry :=
  if (limit <? 0)%Z then (Some RegNegative, o)
  else startup o (λ o, (None, set_settings (set_max limit) o)).

Definition SetClient (client : option Cl) (o : registry) : option reg_err * registry :=
  match client with
  | None => (Some RegNilClient, o)
  | Some c =>
      startup o (λ o,
        let o := set_env (Some (Some c)) o in
        match bindOrchestratorSkill (oc_heap o) (oc_skill (oc_settings o)) c with
        | Err e => (Some e, o)
        | Ok (h, sk) => (None, set_settings (set_orch_skill sk) (set_heap h o))
        end)
  end.

Definition SetOrchestratorSkill (sk : option skill) (o : registry) : reg_prog :=
  configuredOrchestratorSkill sk o ≫= λ r,
  Ret (match r with
       | (Err e, o) => (Some e, o)
       | (Ok sk, o) =>
           startup o (λ o,
             if is_empty (sk_Name sk) then (Some RegNoOrchestratorName, o)
             else (None, set_settings (set_orch_skill sk) o))
       end).

Definition SetOrchestratorSkillDir (dir : bytes) (o : registry) : reg_prog :=
  if is_empty dir then SetOrchestratorSkill None o
  else
    NewSkill_dir (oc_heap o) dir DefaultToolSetConfig [] ≫= λ r,
    match r with
    | Err e => Ret (Some (RegSkill e), o)
    | Ok (h, sk) =>
        SetAccessibleDirsAndBuiltinTools h (Some sk) [] ≫= λ r,
        match r with
        | Err e => Ret (Some (RegSkill e), o)
        | Ok (h, sk) => SetOrchestratorSkill (Some sk) (set_heap h o)
        end
    end.

(** ** MCP servers *)

Fixpoint check_servers (i : nat) (servers : list (option Server)) : res reg_err (list Server) :=
  match servers with
  | [] => Ok []
  | None :: _ => Err (RegNilServer i)
  | Some s :: servers =>
      if is_empty (srv_Name s) then Err (RegServerNoName i)
      else let? rest := check_servers (Datatypes.S i) servers in Ok (s :: rest)
  end.

Fixpoint known_server (seen : list bytes) (byName : gmap bytes Server) (servers : list Server) : option reg_err :=
  match servers with
  | [] => None
  | s :: servers =>
      if bool_decide (srv_Name s ∈ seen) then Some (RegServerTwice (srv_Name s))
      else if bool_decide (is_Some (byName !! srv_Name s)) then Some (RegServerKnown (srv_Name s))
      else known_server (srv_Name s :: seen) byName servers
  end.

Definition AddMCPServers (servers : list (option Server)) (o : registry) : option reg_err * registry :=
  match servers with
  | [] => (None, o)
  | _ =>
      match check_servers 0 servers with
      | Err e => (Some e, o)
      | Ok servers =>
          startup o (λ o,
            let st := oc_settings o in
            match known_server [] (oc_mcpByName st) servers with
            | Some e => (Some e, o)
            | None =>
                (None, set_settings (set_mcp (oc_globalMCP st ++ servers)
                         (foldl (λ m s, <[srv_Name s := s]> m) (oc_mcpByName st) servers)) o)
            end)
      end
  end.

Definition MCPServers (o : registry) : list Server := oc_globalMCP (oc_settings o).

(** The servers that [CloseServers] shuts down. *)
Definition CloseServers (o : registry) : list Server * registry :=
  (oc_globalMCP (oc_settings o), set_settings (set_mcp [] ∅) o).

Definition collectMCPTools (global : list Server) (perSkill : list (option Server)) : list SkillTool :=
  mjoin ((λ s, MCPTools (Some s)) <$> global) ++ mjoin (MCPTools <$> perSkill).

(** ** Adding skills *)

(** One registration, with its place in the call. *)
Definition prepare_registration (globalMCP : list Server) (h : heap) (i : nat) (reg : SkillRegistration)
  : prog (res reg_err (heap * SkillRegistration)) :=
  match sr_Skill reg with
  | None => Ret (Err (RegNilSkill i))
  | Some sk0 =>
      match sk_conv sk0 with
      | Some _ => Ret (Err (RegBound i))
      | None =>
          try r := SetAccessibleDirsAndBuiltinTools h (Some sk0) (sr_AccessibleDirs reg) or RegSkill in
          Ret (let '(h, sk) := r in
               if is_empty (sk_Name sk) then Err (RegNoName i)
               else
                 let sk := if is_empty (sr_Alias reg) then sk else set_name (sr_Alias reg) sk in
                 let done_ h sk := Ok (h, mkReg (Some sk) (sr_Alias reg) (sr_IsUserSupplied reg)
                   (sr_AccessibleDirs reg) (sr_Client reg) (sr_Config reg) (sr_MCPServers reg)) in
                 match collectMCPTools globalMCP (sr_MCPServers reg) with
                 | [] => done_ h sk
                 | mcpTools =>
                     match AddTools h (Some sk) (Some <$> mcpTools) with
                     | Ok (h, sk) => done_ h sk
                     | Err e => Err (RegMcp i e)
                     end
                 end)
      end
  end.

Fixpoint prepare_all (globalMCP : list Server) (h : heap) (i : nat) (regs : list SkillRegistration)
  : prog (res reg_err (heap * list SkillRegistration)) :=
  match regs with
  | [] => Ret (Ok (h, []))
  | reg :: regs =>
      try r := prepare_registration globalMCP h i reg or id in
      try rest := prepare_all globalMCP r.1 (Datatypes.S i) regs or id in
      Ret (Ok (rest.1, r.2 :: rest.2))
  end.

Definition effective_name (reg : SkillRegistration) : bytes :=
  match sr_Skill reg with Some sk => sk_Name sk | None => [] end.

(** [tentative]: the registrations of every name, those in place first. *)
Definition tentative (skills : gmap bytes SkillRegistration) (new : list SkillRegistration)
  : gmap bytes (list SkillRegistration) :=
  foldl (λ m reg, <[effective_name reg := default [] (m !! effective_name reg) ++ [reg]]> m)
    ((λ reg, [reg]) <$> skills) new.

(** What one name resolves to. *)
Definition resolve_name (name : bytes) (regs : list SkillRegistration) : res reg_err SkillRegistration :=
  match regs with
  | [reg] => Ok reg
  | _ =>
      match List.filter sr_IsUserSupplied regs with
      | [] => Err (RegManySystem name)
      | [reg] => Ok reg
      | _ => Err (RegManyUser name)
      end
  end.

(** The loop over [tentative] in the order [names]: the registry and the names whose
    collision a user-supplied skill has won. *)
Fixpoint resolve_loop (names : list bytes) (m : gmap bytes (list SkillRegistration))
    (resolved : gmap bytes SkillRegistration) (won : list bytes)
  : res reg_err (gmap bytes SkillRegistration * list bytes) :=
  match names with
  | [] => Ok (resolved, won)
  | name :: names =>
      let regs := default [] (m !! name) in
      let? reg := resolve_name name regs in
      resolve_loop names m (<[name := reg]> resolved)
        (if bool_decide (List.length regs = 1%nat) then won else won ++ [name])
  end.

(** The locked section of [AddSkills], and the collisions it warns of. *)
Definition commit_skills (order : list bytes) (new : list SkillRegistration) (o : registry)
  : res reg_err (list bytes) * registry :=
  match resolve_loop order (tentative (oc_skills o) new) ∅ [] with
  | Err e => (Err e, o)
  | Ok (resolved, won) => (Ok won, set_skills resolved o)
  end.

(** The part of [AddSkills] before that: the registrations are ready, or it failed. *)
Definition begin_skills (cfgs : list SkillRegistration) (o : registry) : reg_prog :=
  match cfgs with
  | [] => Ret (None, o)
  | _ =>
      prepare_all (oc_globalMCP (oc_settings o)) (oc_heap o) 0 cfgs ≫= λ r,
      Ret (match r with
           | Err e => (Some e, o)
           | Ok (h, new) => (None, set_preparing (oc_preparing o ++ [new]) (set_heap h o))
           end)
  end.

(** The registrations that [AddSkillDirs] passes to [AddSkills]. *)
Fixpoint load_dirs (h : heap) (client : option Cl) (cfg : Cfg) (i : nat) (dirs : list bytes)
  : prog (res reg_err (heap * list SkillRegistration)) :=
  match dirs with
  | [] => Ret (Ok (h, []))
  | dir :: dirs =>
      if is_empty dir then Ret (Err (RegEmptyDir i))
      else
        try r := NewSkill_dir h dir DefaultToolSetConfig [] or RegSkill in
        try rest := load_dirs r.1 client cfg (Datatypes.S i) dirs or id in
        Ret (Ok (rest.1, mkReg (Some r.2) [] true [] client cfg [] :: rest.2))
  end.

Definition AddSkillDirs (cfg : Cfg) (dirs : list bytes) (o : registry) : reg_prog :=
  match dirs with
  | [] => Ret (None, o)
  | _ =>
      let '(client, o) := resolveEnvClient o in
      load_dirs (oc_heap o) client cfg 0 dirs ≫= λ r,
      match r with
      | Err e => Ret (Some e, o)
      | Ok (h, cfgs) => begin_skills cfgs (set_heap h o)
      end
  end.

(** ** Removing and listing skills *)

Fixpoint check_names (i : nat) (seen : list bytes) (skills : gmap bytes SkillRegistration) (names : list bytes)
  : option reg_err :=
  match names with
  | [] => None
  | name :: names =>
      if is_empty name then Some (RegRemoveEmpty i)
      else if bool_decide (name ∈ seen) then Some (RegRemoveTwice name)
      else match skills !! name with
           | None => Some (RegNotRegistered name)
           | Some _ => check_names (Datatypes.S i) (name :: seen) skills names
           end
  end.

Definition RemoveSkills (names : list bytes) (o : registry) : option reg_err * registry :=
  match check_names 0 [] (oc_skills o) names with
  | Some e => (Some e, o)
  | None => (None, set_skills (foldl (λ m n, delete n m) (oc_skills o) names) o)
  end.

Definition Skills (o : registry) : gmap bytes (option skill) := sr_Skill <$> oc_skills o.

(** [collectSkillSummaries] and [skillSummariesFromRegistry]: names with their
    descriptions, sorted by name. *)
Fixpoint insert_summary (x : bytes * bytes) (l : list (bytes * bytes)) : list (bytes * bytes) :=
  match l with
  | [] => [x]
  | y :: l' => if bytes_ltb y.1 x.1 then y :: insert_summary x l' else x :: l
  end.
Definition collectSkillSummaries (skills : gmap bytes (option skill)) : list (bytes * bytes) :=
  foldr insert_summary []
    ((λ p, (p.1, match p.2 with Some sk => sm_Description (sk_meta sk) | None => [] end)) <$> map_to_list skills).

(** ** What a request takes *)

Record requestStartup := mkStartup {
  su_logger : nat; su_orchestratorSkill : skill; su_skillConfigs : gmap bytes SkillRegistration }.

(** The locked section of [StartRequest]: the configuration is locked, and copied. *)
Definition begin_request (o : registry) : requestStartup * registry :=
  (mkStartup (oc_logger (oc_settings o)) (oc_skill (oc_settings o)) (oc_skills o), set_locked true o).

(** ** Calls, one after the other *)

Inductive reg_label :=
| RSetLogger (logger : nat)
| RSetMax (limit : Z)
| RSetClient (client : option Cl)
| RSetSkill (sk : option skill)
| RSetSkillDir (dir : bytes)
| RAddServers (servers : list (option Server))
| RClose
| RAddSkills (cfgs : list SkillRegistration)
| RAddSkillDirs (cfg : Cfg) (dirs : list bytes)
| RCommit (i : nat) (order : list bytes)
| RRemove (names : list bytes)
| RRequest
| RCaller (ss : list skill) (op : skill_op (Cl * Conversation S)).   (* the caller works on skills of its own *)

(** The error that a call returns, and the registry after it. [RAddSkills] and
    [RAddSkillDirs] end where the call waits for the lock; [RCommit] is the rest. *)
Definition do_reg (l : reg_label) (o : registry) : reg_prog :=
  match l with
  | RSetLogger logger => Ret (SetLogger logger o)
  | RSetMax limit => Ret (SetMaxRunningRunners limit o)
  | RSetClient client => Ret (SetClient client o)
  | RSetSkill sk => SetOrchestratorSkill sk o
  | RSetSkillDir dir => SetOrchestratorSkillDir dir o
  | RAddServers servers => Ret (AddMCPServers servers o)
  | RClose => Ret (None, (CloseServers o).2)
  | RAddSkills cfgs => begin_skills cfgs o
  | RAddSkillDirs cfg dirs => AddSkillDirs cfg dirs o
  | RCommit i order =>
      match oc_preparing o !! i with
      | None => Ret (None, o)
      | Some new =>
          let o := set_preparing (delete i (oc_preparing o)) o in
          Ret (match commit_skills order new o with
               | (Ok _, o) => (None, o)
               | (Err e, o) => (Some e, o)
               end)
      end
  | RRemove names => Ret (RemoveSkills names o)
  | RRequest => Ret (None, (begin_request o).2)
  | RCaller ss op => do_skill_op op (mkSkills (oc_heap o) ss) ≫= λ st, Ret (None, set_heap (ss_heap st) o)
  end.

Inductive reg_run `{FileSystem W} (ok : reg_label → registry → Prop) (o0 : registry) : registry → Prop :=
| reg_start : reg_run ok o0 o0
| reg_step l o (w : W) : ok l o → reg_run ok o0 o → reg_run ok o0 (exec (do_reg l o) w).1.2.
End Registry.
