(* ===== verification/RegistryFacts.v ===== *)
(** What the registry of skills promises ([Registry.v]): how names that collide are
    resolved, in whatever order Go visits its maps; that the registry holds skills
    under their own names only, unbound and with their tools at home; and that the
    first request closes the settings. *)
From S2P Require Import Prelude GoText Json Text Event Path Os Tree Workspace Channel Policy Log Session Conversation ConversationFacts Skill SkillFacts Registry.

Section facts.
Context {S : Type} {store : SessionStore S} {Cl Cfg : Type}.
Notation skill := (Skill (Cl * Conversation S)).
Notation reg := (@SkillRegistration S Cl Cfg).
Notation registry := (@registry S Cl Cfg).

(** ** Resolution of names *)

(** The registrations that want the name [n]: the one in place, then the new ones. *)
Definition candidates (skills : gmap bytes reg) (new : list reg) (n : bytes) : list reg :=
  match skills !! n with Some r => [r] | None => [] end
  ++ List.filter (λ r, bool_decide (effective_name r = n)) new.

Definition only {A} (l : list A) : option A := match l with [x] => Some x | _ => None end.
Lemma only_elem {A} (l : list A) x : only l = Some x → x ∈ l.
Proof. destruct l as [|y [|]]; try done. intros [= ->]. apply list_elem_of_here. Qed.

(** The only one, or the only one that a user supplied. *)
Definition winner (skills : gmap bytes reg) (new : list reg) (n : bytes) : option reg :=
  match candidates skills new n with
  | [r] => Some r
  | rs => only (List.filter sr_IsUserSupplied rs)
  end.

Lemma tentative_lookup skills new n :
  default [] (tentative skills new !! n) = candidates skills new n.
Proof.
  unfold tentative, candidates.
  assert (∀ m : gmap bytes (list reg),
    default [] (foldl (λ m r, <[effective_name r := default [] (m !! effective_name r) ++ [r]]> m) m new !! n)
    = default [] (m !! n) ++ List.filter (λ r, bool_decide (effective_name r = n)) new) as Hf.
  { induction new as [|r new IH]; intros m; cbn [foldl List.filter]; [by rewrite app_nil_r|].
    rewrite IH. destruct (decide (effective_name r = n)) as [->|Hne].
    - rewrite lookup_insert_eq, bool_decide_eq_true_2 by done. cbn. by rewrite <- app_assoc.
    - rewrite lookup_insert_ne by done. by rewrite bool_decide_eq_false_2. }
  rewrite Hf, lookup_fmap. by destruct (skills !! n).
Qed.

Lemma resolve_name_spec skills new n : candidates skills new n ≠ [] →
  match resolve_name n (candidates skills new n) with
  | Ok r => winner skills new n = Some r
  | Err e => winner skills new n = None
      ∧ (List.filter sr_IsUserSupplied (candidates skills new n) = [] ∧ e = RegManySystem n
         ∨ (1 < List.length (List.filter sr_IsUserSupplied (candidates skills new n)))%nat ∧ e = RegManyUser n)
  end.
Proof.
  unfold resolve_name, winner. destruct (candidates skills new n) as [|r [|r' rs]]; [done|done|]. intros _.
  destruct (List.filter sr_IsUserSupplied (r :: r' :: rs)) as [|u [|u' us]]; [by auto|done|].
  split; [done|right]. split; [cbn; lia|done].
Qed.

(** What one name contributes to the list of collisions. *)
Definition collides skills new (n : bytes) : bool := negb (bool_decide (List.length (candidates skills new n) = 1%nat)).

Lemma resolve_loop_spec skills new names resolved won : NoDup names →
  (∀ n, n ∈ names → candidates skills new n ≠ []) →
  match resolve_loop names (tentative skills new) resolved won with
  | Ok (resolved', won') =>
      (∀ n, n ∈ names → is_Some (winner skills new n))
      ∧ (∀ n, resolved' !! n = if bool_decide (n ∈ names) then winner skills new n else resolved !! n)
      ∧ won' = won ++ List.filter (collides skills new) names
  | Err e => ∃ n, n ∈ names ∧ winner skills new n = None
      ∧ (List.filter sr_IsUserSupplied (candidates skills new n) = [] ∧ e = RegManySystem n
         ∨ (1 < List.length (List.filter sr_IsUserSupplied (candidates skills new n)))%nat ∧ e = RegManyUser n)
  end.
Proof.
  revert resolved won. induction names as [|n names IH]; intros resolved won Hnd Hc; cbn [resolve_loop].
  - split_and!; [by intros n ?%elem_of_nil|done|by rewrite app_nil_r].
  - apply NoDup_cons in Hnd as [Hn Hnd]. rewrite tentative_lookup.
    pose proof (resolve_name_spec skills new n (Hc n (list_elem_of_here _ _))) as Hr.
    destruct (resolve_name n (candidates skills new n)) as [r|e].
    + assert (∀ n', n' ∈ names → candidates skills new n' ≠ []) as Hc' by (intros; by apply Hc, list_elem_of_further).
      match goal with |- context [resolve_loop names _ ?rs ?w] => specialize (IH rs w Hnd Hc') end.
      destruct (resolve_loop names _ _ _) as [[resolved' won']|e].
      * destruct IH as (Hs&Hl&Hw). split_and!.
        -- intros n' [->|Hi]%elem_of_cons; [by rewrite Hr|by apply Hs].
        -- intros n'. rewrite Hl. destruct (decide (n' = n)) as [->|Hne].
           ++ rewrite bool_decide_eq_false_2 by done. rewrite lookup_insert_eq.
              by rewrite bool_decide_eq_true_2 by apply list_elem_of_here.
           ++ rewrite lookup_insert_ne by done. rewrite (bool_decide_ext (n' ∈ n :: names) (n' ∈ names)); [done|].
              rewrite elem_of_cons. naive_solver.
        -- rewrite Hw. cbn [List.filter]. unfold collides at 2. case_bool_decide; cbn [negb]; [done|].
           by rewrite <- app_assoc.
      * destruct IH as (n'&Hi&?). exists n'. by split; [apply list_elem_of_further|].
    + exists n. split; [apply list_elem_of_here|done].
Qed.

(** C32: The locked part of [AddSkills], in whatever order Go visits the names: it
    succeeds exactly when every name has one candidate, or several of which just one
    was supplied by a user, and then the registry maps each name to that candidate
    and only the names that had several are warned of; otherwise the error names a
    collision that nothing decides and the registry is unchanged. *)
Theorem AddSkills_resolves (order : list bytes) (new : list reg) (o : registry) : NoDup order →
  (∀ n, n ∈ order ↔ candidates (oc_skills o) new n ≠ []) →
  let w := winner (oc_skills o) new in
  match commit_skills order new o with
  | (Ok won, o') =>
      (∀ n, oc_skills o' !! n = w n) ∧ (∀ n, candidates (oc_skills o) new n ≠ [] → is_Some (w n))
      ∧ o' = set_skills (oc_skills o') o
      ∧ ∀ n, n ∈ won ↔ (1 < List.length (candidates (oc_skills o) new n))%nat
  | (Err e, o') =>
      o' = o ∧ ∃ n, (1 < List.length (candidates (oc_skills o) new n))%nat ∧ w n = None
        ∧ (List.filter sr_IsUserSupplied (candidates (oc_skills o) new n) = [] ∧ e = RegManySystem n
           ∨ (1 < List.length (List.filter sr_IsUserSupplied (candidates (oc_skills o) new n)))%nat
             ∧ e = RegManyUser n)
  end.
Proof.
  intros Hnd Ho w. unfold commit_skills.
  pose proof (resolve_loop_spec (oc_skills o) new order ∅ [] Hnd ltac:(intros; by apply Ho)) as Hl.
  destruct (resolve_loop _ _ _ _) as [[resolved won]|e].
  - destruct Hl as (Hs&Hr&->). destruct o as [h env l st sk p]. cbn [set_skills oc_skills] in *. split_and!.
    + intros n. rewrite Hr. case_bool_decide as Hi; [done|]. rewrite lookup_empty. unfold w, winner.
      destruct (candidates sk new n) as [|r rs] eqn:E; [done|]. destruct Hi. apply Ho. by rewrite E.
    + intros n Hn. by apply Hs, Ho.
    + done.
    + intros n. rewrite app_nil_l, elem_of_list_filter', Ho. unfold collides. rewrite negb_true_iff, bool_decide_eq_false.
      destruct (candidates sk new n) as [|r [|r' rs]]; cbn; naive_solver lia.
  - split; [done|]. destruct Hl as (n&Hi&Hw&He). exists n. split_and!; [|done|done].
    apply Ho in Hi. unfold winner in Hw. destruct (candidates (oc_skills o) new n) as [|r [|r' rs]]; [done|done|cbn; lia].
Qed.

(** ** Removal *)

Lemma check_names_spec (i : nat) (seen : list bytes) (skills : gmap bytes reg) (names : list bytes) :
  match check_names i seen skills names with
  | None => [] ∉ names ∧ NoDup names ∧ ∀ n, n ∈ names → n ∉ seen ∧ is_Some (skills !! n)
  | Some e => (∃ k, e = RegRemoveEmpty k ∧ [] ∈ names)
      ∨ (∃ n, e = RegRemoveTwice n ∧ (n ∈ names ∧ n ∈ seen ∨ ¬ NoDup names))
      ∨ (∃ n, e = RegNotRegistered n ∧ n ∈ names ∧ skills !! n = None)
  end.
Proof.
  revert i seen. induction names as [|n names IH]; intros i seen; cbn [check_names].
  { split_and!; [apply not_elem_of_nil|constructor|by intros n ?%elem_of_nil]. }
  destruct (is_empty n) eqn:He; [left; destruct n; [eexists; split; [done|apply list_elem_of_here]|done]|].
  case_bool_decide as Hs; [right; left; exists n; split; [done|left; split; [apply list_elem_of_here|done]]|].
  destruct (skills !! n) as [r|] eqn:Hn; [|right; right; exists n; split_and!; [done|apply list_elem_of_here|done]].
  specialize (IH (Datatypes.S i) (n :: seen)). destruct (check_names _ _ _ _) as [e|].
  - destruct IH as [(k&->&Hi)|[(n'&->&Hi)|(n'&->&Hi&?)]].
    + left. exists k. split; [done|by apply list_elem_of_further].
    + right. left. exists n'. split; [done|]. rewrite NoDup_cons. destruct Hi as [[Hi [->|Hi']%elem_of_cons]|Hi].
      * right. by intros [? _].
      * left. split; [by apply list_elem_of_further|done].
      * right. by intros [_ ?].
    + right. right. exists n'. split_and!; [done|by apply list_elem_of_further|done].
  - destruct IH as (Hne&Hnd&Hi). split_and!.
    + rewrite not_elem_of_cons. split; [|done]. intros <-. done.
    + constructor; [|done]. intros Hin. apply Hi in Hin as [Hin _]. set_solver.
    + intros n' [->|Hin]%elem_of_cons; [by rewrite Hn|]. apply Hi in Hin as [? ?]. set_solver.
Qed.

Lemma delete_all_lookup (names : list bytes) (m : gmap bytes reg) n :
  foldl (λ m n, delete n m) m names !! n = if bool_decide (n ∈ names) then None else m !! n.
Proof.
  revert m. induction names as [|x names IH]; intros m; cbn [foldl]; [done|]. rewrite IH.
  destruct (decide (n = x)) as [->|Hne].
  - rewrite (bool_decide_eq_true_2 (x ∈ x :: names)) by apply list_elem_of_here. rewrite lookup_delete_eq.
    by case_bool_decide.
  - rewrite lookup_delete_ne by done. rewrite (bool_decide_ext (n ∈ x :: names) (n ∈ names)); [done|].
    rewrite elem_of_cons. naive_solver.
Qed.

(** [RemoveSkills] removes all the names or none: it succeeds exactly when they are
    different, not empty and registered. *)
Lemma RemoveSkills_atomic names (o : registry) :
  let '(e, o') := RemoveSkills names o in
  match e with
  | None => [] ∉ names ∧ NoDup names ∧ (∀ n, n ∈ names → is_Some (oc_skills o !! n))
      ∧ ∀ n, oc_skills o' !! n = if bool_decide (n ∈ names) then None else oc_skills o !! n
  | Some _ => o' = o ∧ ¬ ([] ∉ names ∧ NoDup names ∧ ∀ n, n ∈ names → is_Some (oc_skills o !! n))
  end.
Proof.
  unfold RemoveSkills. pose proof (check_names_spec 0 [] (oc_skills o) names) as Hc.
  destruct (check_names _ _ _ _) as [e|].
  - split; [done|]. intros (He&Hnd&Hr). destruct Hc as [(k&_&?)|[(n&_&[[_ ?%elem_of_nil]|?])|(n&_&Hi&Hn)]]; try done.
    destruct (Hr n Hi). congruence.
  - destruct Hc as (He&Hnd&Hr). destruct o as [h env l st sk p]. cbn [set_skills oc_skills].
    split_and!; [done|done|by intros n Hi; apply Hr|]. intros n. apply delete_all_lookup.
Qed.

(** ** Well-formedness *)

Context `{FileSystemLaws W} `{FrontMatter skill_meta}.
Context (clock : nat → bytes) (describe : SkillTool → bytes * metadata)
  (clientFromEnv : list bytes → option Cl) (system : bytes) (embedded : os_res bytes).
Notation step l o w := (exec (do_reg clock describe clientFromEnv system embedded l o) w).1.
Notation reg_label := (@reg_label S Cl Cfg).

(** A registration that is ready: its skill is named, unbound, and its tools are
    distinct and at home. *)
Definition ready (h : heap) (r : reg) : Prop :=
  ∃ sk, sr_Skill r = Some sk ∧ sk_Name sk ≠ [] ∧ sk_conv sk = None ∧ skill_ok h sk.

Definition mcp_ok (st : @settings S Cl) : Prop :=
  NoDup (srv_Name <$> oc_globalMCP st)
  ∧ ∀ n s, oc_mcpByName st !! n = Some s ↔ s ∈ oc_globalMCP st ∧ srv_Name s = n.

Record reg_ok (o : registry) : Prop := {
  ro_heap : heap_ok (oc_heap o);
  ro_skills : ∀ n r, oc_skills o !! n = Some r → ready (oc_heap o) r ∧ effective_name r = n;
  ro_preparing : ∀ new, new ∈ oc_preparing o → Forall (ready (oc_heap o)) new;
  ro_own : skill_ok (oc_heap o) (oc_skill (oc_settings o));
  ro_mcp : mcp_ok (oc_settings o) }.

Lemma ready_grows h h' r : heap_ok h' → heap_grows h h' → ready h r → ready h' r.
Proof.
  intros Hh Hp (sk&?&?&?&Hs). exists sk. split_and!; [done..|]. by eapply skill_ok_grows.
Qed.

Lemma reg_ok_heap o h : reg_ok o → heap_ok h → heap_grows (oc_heap o) h → reg_ok (set_heap h o).
Proof.
  intros [Hh Hs Hp Ho Hm] Hh' Hpre. destruct o as [h0 env l st sk p]. cbn in *. split; cbn.
  - done.
  - intros n r Hn. apply Hs in Hn as [? ?]. split; [by eapply ready_grows|done].
  - intros new Hn. eapply Forall_impl; [by apply Hp|]. intros r. by apply ready_grows.
  - by eapply skill_ok_grows.
  - done.
Qed.

Lemma collect_foreign g p : foreign (Some <$> collectMCPTools g p).
Proof.
  intros w name (t&[= <-]&Hi)%list_elem_of_fmap. unfold collectMCPTools in Hi.
  apply elem_of_app in Hi as [Hi|Hi]; apply list_elem_of_join in Hi as (l&Hl&(s&->&_)%list_elem_of_fmap);
    [|destruct s as [s|]; [|by apply elem_of_nil in Hl]]; cbn in Hl;
    by apply list_elem_of_fmap in Hl as (?&[=]&_).
Qed.

Lemma skill_ok_named h (sk : skill) name : skill_ok h sk → skill_ok h (set_name name sk).
Proof. destruct sk as [[] ? ? ? ? ? ? ?]. intros [(own&?) ?]. split; [by exists own|done]. Qed.

Lemma AddTools_same h (sk sk' : skill) tools h' : AddTools h (Some sk) tools = Ok (h', sk') →
  sk_Name sk' = sk_Name sk ∧ sk_conv sk' = None.
Proof.
  unfold AddTools. cbn [unbound]. destruct (sk_conv sk); [done|]. destruct (validateTools _); [done|].
  destruct sk as [m i ws e c ts v st]. unfold copySkill. destruct (deref_ws h ws); by intros [= <- <-].
Qed.

Lemma prepare_ready gs h i r (w : W) : heap_ok h → (∀ sk, sr_Skill r = Some sk → skill_ok h sk) →
  match (exec (prepare_registration gs h i r) w).1 with
  | Ok (h', r') => h `prefix_of` h' ∧ heap_ok h' ∧ ready h' r'
  | Err _ => True
  end.
Proof.
  intros Hh Hr. unfold prepare_registration. destruct (sr_Skill r) as [sk|] eqn:Hsk; [|done].
  destruct (sk_conv sk) eqn:Hc; [done|]. destruct (Hr sk eq_refl) as [(own&Hown&Hok&Ht) Hd].
  pose proof (rebuild_made h sk (sr_AccessibleDirs r) w Hh (Hr sk eq_refl)) as Hm.
  rewrite exec_try. rewrite (surjective_pairing (exec _ w)).
  rewrite (rebuild_result h sk _ own w Hc Hown Hok Hd) in *.
  destruct (exec (canonical_dirs [] _) w) as [[ds|e] w']; [|done]. cbn [fst] in *.
  destruct (tool_names (sk_toolSet sk)) as [names|]; [|done]. destruct Hm as (Hp&Hh'&Hs).
  cbn [exec fst]. destruct (is_empty (sk_Name _)) eqn:He; [done|].
  match goal with |- context [set_name (sr_Alias r) ?x] =>
    set (sk1 := if is_empty (sr_Alias r) then x else set_name (sr_Alias r) x) end.
  assert (skill_ok (h ++ [mkWorkspaceRoot (w_skillRoot own) (w_tempRoot own) ds]) sk1
          ∧ sk_Name sk1 ≠ [] ∧ sk_conv sk1 = None) as (Hs1&Hn1&Hc1).
  { unfold sk1. destruct (is_empty (sr_Alias r)) eqn:Ha.
    - split_and!; [done| |done]. intros E. by rewrite E in He.
    - split_and!; [by apply skill_ok_named| |by destruct (sk_meta sk)]. cbn. destruct (sk_meta sk). cbn. by intros E; rewrite E in Ha. }
  clearbody sk1. destruct (collectMCPTools gs (sr_MCPServers r)) as [|t ts] eqn:Em.
  - split_and!; [done|done|]. by exists sk1.
  - pose proof (AddTools_made _ sk1 (Some <$> t :: ts) Hh' Hs1) as Ha. rewrite <- Em in Ha |- *.
    specialize (Ha (collect_foreign _ _)).
    destruct (AddTools _ (Some sk1) _) as [[h2 sk2]|e] eqn:E2; [|done]. destruct Ha as (Hp2&Hh2&Hs2).
    destruct (AddTools_same _ _ _ _ _ E2) as [Hn2 Hc2]. split_and!; [by etrans|done|]. exists sk2.
    split_and!; [done|by rewrite Hn2|done|done].
Qed.

(** Skills that a caller passes in are at home. *)
Definition given (h : heap) (r : reg) : Prop := ∀ sk, sr_Skill r = Some sk → skill_ok h sk.

Lemma given_grows h h' r : heap_ok h' → heap_grows h h' → given h r → given h' r.
Proof. intros Hh Hg Hr sk E. eapply skill_ok_grows; [done|done|by apply Hr]. Qed.

Lemma prepare_all_ready gs h i rs (w : W) : heap_ok h → Forall (given h) rs →
  match (exec (prepare_all gs h i rs) w).1 with
  | Ok (h', rs') => h `prefix_of` h' ∧ heap_ok h' ∧ Forall (ready h') rs'
  | Err _ => True
  end.
Proof.
  revert h i w. induction rs as [|r rs IH]; intros h i w Hh Hr; cbn [prepare_all]; [done|].
  apply Forall_cons in Hr as [Hr Hrs]. rewrite exec_try.
  pose proof (prepare_ready gs h i r w Hh Hr) as Hp.
  destruct (exec (prepare_registration gs h i r) w) as [[[h1 r1]|e] w1]; [|done]. destruct Hp as (Hp&Hh1&Hr1).
  rewrite exec_try. cbn [fst snd].
  assert (Forall (given h1) rs) as Hrs1.
  { eapply Forall_impl; [exact Hrs|]. intros r'. apply given_grows; [done|by apply heap_grows_prefix]. }
  specialize (IH h1 (Datatypes.S i) w1 Hh1 Hrs1).
  destruct (exec (prepare_all gs h1 _ rs) w1) as [[[h2 rs2]|e] w2]; [|done]. destruct IH as (Hp2&Hh2&Hrs2).
  cbn [exec fst snd]. split_and!; [by etrans|done|]. apply List.Forall_cons; [|done].
  eapply ready_grows; [done|by apply heap_grows_prefix|done].
Qed.

Lemma load_dirs_given h client (cfg : Cfg) i dirs (w : W) : heap_ok h →
  match (exec (load_dirs h client cfg i dirs) w).1 with
  | Ok (h', rs) => h `prefix_of` h' ∧ heap_ok h' ∧ Forall (given h') rs
  | Err _ => True
  end.
Proof.
  revert h i w. induction dirs as [|d dirs IH]; intros h i w Hh; cbn [load_dirs]; [done|].
  destruct (is_empty d); [done|]. rewrite exec_try.
  pose proof (new_dir_made (C := Cl * Conversation S) h d DefaultToolSetConfig [] w Hh) as Hm.
  destruct (exec (NewSkill_dir h d _ _) w) as [[[h1 sk]|e] w1]; [|done].
  destruct Hm as (Hp&Hh1&Hs); [by intros o ?%elem_of_nil|]. rewrite exec_try. cbn [fst snd].
  specialize (IH h1 (Datatypes.S i) w1 Hh1).
  destruct (exec (load_dirs h1 _ _ _ dirs) w1) as [[[h2 rs2]|e] w2]; [|done]. destruct IH as (Hp2&Hh2&Hrs2).
  cbn [exec fst snd]. split_and!; [by etrans|done|]. apply List.Forall_cons; [|done].
  intros sk' [= <-]. eapply skill_ok_grows; [done|by apply heap_grows_prefix|done].
Qed.

Lemma reg_ok_same (f : registry → registry) o : (∀ o, oc_heap (f o) = oc_heap o ∧ oc_skills (f o) = oc_skills o
  ∧ oc_preparing (f o) = oc_preparing o ∧ oc_settings (f o) = oc_settings o) → reg_ok o → reg_ok (f o).
Proof.
  intros Hf [? ? ? ? ?]. destruct (Hf o) as (E1&E2&E3&E4).
  split; rewrite ?E1, ?E2, ?E3, ?E4; done.
Qed.

Lemma begin_skills_ok rs o (w : W) : reg_ok o → Forall (given (oc_heap o)) rs →
  reg_ok (exec (begin_skills rs o) w).1.2.
Proof.
  intros Ho Hr. unfold begin_skills. destruct rs as [|r rs]; [done|]. rewrite exec_bind.
  pose proof (prepare_all_ready (oc_globalMCP (oc_settings o)) (oc_heap o) 0 _ w (ro_heap _ Ho) Hr) as Hp.
  destruct (exec (prepare_all _ _ _ _) w) as [[[h rs']|e] w']; [|done]. destruct Hp as (Hp&Hh&Hrs). cbn [exec fst snd].
  assert (reg_ok (set_heap h o)) as [? ? Hq ? ?] by (apply reg_ok_heap; [done|done|by apply heap_grows_prefix]).
  destruct o as [h0 env l st sk p]. cbn in *. split; cbn; try done.
  intros new [Hn|E%list_elem_of_singleton]%elem_of_app; [by apply Hq|by subst].
Qed.

(** The skill that [configure_skill] returns is at home in the heap it leaves. *)
Definition configured (o : registry) (r : res reg_err skill * registry) : Prop :=
  reg_ok r.2 ∧ heap_grows (oc_heap o) (oc_heap r.2) ∧ oc_configLocked r.2 = oc_configLocked o
  ∧ oc_settings r.2 = oc_settings o ∧ ∀ sk, r.1 = Ok sk → skill_ok (oc_heap r.2) sk.

Lemma resolveEnvClient_same (o : registry) : ∃ e, (resolveEnvClient clientFromEnv o).2 = set_env e o.
Proof.
  unfold resolveEnvClient. destruct (oc_env o) as [c|] eqn:E; [|eexists; done]. exists (Some c).
  destruct o. cbn in *. by subst.
Qed.

Lemma set_env_ok e (o : registry) : reg_ok o → reg_ok (set_env e o).
Proof. apply (reg_ok_same (set_env e)). by intros [? ? ? ? ? ?]. Qed.

Lemma bind_orchestrator_ok h (sk sk' : skill) c h' : heap_ok h → skill_ok h sk →
  bindOrchestratorSkill clock describe clientFromEnv system h sk c = Ok (h', sk') →
  h `prefix_of` h' ∧ heap_ok h' ∧ skill_ok h' sk'.
Proof.
  intros Hh Hs. unfold bindOrchestratorSkill.
  pose proof (Bind_made clock describe clientFromEnv system [] 0 h sk (Some c) zero_config [] Hh Hs) as Hm.
  destruct (Bind _ _ _ _ _ _ _ _ _ _ _).1 as [[h1 s1]|e]; [|done]. by intros [= <- <-].
Qed.

Lemma configure_ok sk (o : registry) : reg_ok o → skill_ok (oc_heap o) sk →
  configured o (configure_skill clock describe clientFromEnv system sk o).
Proof.
  intros Ho Hs. unfold configure_skill.
  assert (configured o (Ok sk, o)) as Hdone.
  { split_and!; [done|apply heap_grows_refl|done|done|]. by intros sk' <-%(inj Ok). }
  destruct (sk_conv sk); [done|]. destruct (resolveEnvClient_same o) as [e He].
  destruct (resolveEnvClient clientFromEnv o) as [c o1]. cbn in He. subst o1.
  assert (reg_ok (set_env e o) ∧ oc_heap (set_env e o) = oc_heap o ∧ oc_configLocked (set_env e o) = oc_configLocked o
    ∧ oc_settings (set_env e o) = oc_settings o) as (Ho1&Eh&El&Es).
  { split; [by apply set_env_ok|]. by destruct o. }
  assert (∀ r, (∀ sk', r = Ok sk' → sk' = sk) → configured o (r, set_env e o)) as Hsame.
  { intros r Hr. split_and!; [done|cbn; rewrite Eh; apply heap_grows_refl|done|done|]. cbn. rewrite Eh.
    intros sk' E. by rewrite (Hr _ E). }
  destruct c as [c|]; [|apply Hsame; by intros sk' <-%(inj Ok)].
  destruct (bindOrchestratorSkill _ _ _ _ _ _ _) as [[h sk']|err] eqn:Hb; [|by apply Hsame].
  rewrite Eh in Hb. apply bind_orchestrator_ok in Hb as (Hp&Hh&Hs'); [|by apply ro_heap|done].
  assert (oc_heap (set_heap h (set_env e o)) = h ∧ oc_configLocked (set_heap h (set_env e o)) = oc_configLocked o
    ∧ oc_settings (set_heap h (set_env e o)) = oc_settings o) as (Eh'&El'&Es') by by destruct o.
  split_and!; cbn [fst snd]; [|rewrite Eh'; by apply heap_grows_prefix|done|done|rewrite Eh'; by intros s <-%(inj Ok)].
  apply reg_ok_heap; [done|done|]. rewrite Eh. by apply heap_grows_prefix.
Qed.

(** The settings a request reads, once the configuration is locked. *)
Definition after_lock (o o' : registry) : Prop :=
  oc_configLocked o' = true
  ∧ oc_logger (oc_settings o') = oc_logger (oc_settings o) ∧ oc_skill (oc_settings o') = oc_skill (oc_settings o)
  ∧ oc_max (oc_settings o') = oc_max (oc_settings o)
  ∧ (oc_globalMCP (oc_settings o') = oc_globalMCP (oc_settings o) ∨ oc_globalMCP (oc_settings o') = []).

Definition fine (o o' : registry) : Prop := reg_ok o' ∧ (oc_configLocked o = true → after_lock o o').

Lemma fine_kept o o' : reg_ok o' → oc_configLocked o' = oc_configLocked o → oc_settings o' = oc_settings o → fine o o'.
Proof. intros Ho El Es. split; [done|]. intros Hl. unfold after_lock. rewrite El, Es. by split_and!; [..|left]. Qed.

Lemma fine_startup o (f : registry → option reg_err * registry) :
  reg_ok o → (oc_configLocked o = false → reg_ok (f o).2) → fine o (startup o f).2.
Proof.
  intros Ho Hf. unfold startup. destruct (oc_configLocked o) eqn:Hl; [by apply fine_kept|].
  split; [by apply Hf|]. by rewrite Hl.
Qed.

Lemma load_orchestrator_ok h extra (w : W) : heap_ok h → foreign extra →
  made h (exec (loadOrchestratorSkill (S := S) (Cl := Cl) embedded h extra) w).1.
Proof.
  intros Hh Hf. unfold loadOrchestratorSkill. rewrite exec_try.
  match goal with |- context [NewSkill_fs h embedded _ ?opts] =>
    pose proof (new_fs_made (C := Cl * Conversation S) h embedded orchestrator_tools opts w Hh) as Hm end.
  destruct (exec (NewSkill_fs h embedded _ _) w) as [[[h1 sk]|e] w1]; [|done].
  destruct Hm as (Hp&Hh1&Hs).
  { intros o Ho. destruct extra; [by apply elem_of_nil in Ho|]. by apply list_elem_of_singleton in Ho as [= ->]. }
  cbn [fst snd].
  pose proof (rebuild_made h1 sk [] w1 Hh1 Hs) as Hm.
  destruct (exec _ w1) as [[[h2 sk2]|e] w2]; [|done]. destruct Hm as (?&?&?). split_and!; [by etrans|done|done].
Qed.

Lemma configured_ok sk o (w : W) : reg_ok o → (∀ s, sk = Some s → skill_ok (oc_heap o) s) →
  configured o (exec (configuredOrchestratorSkill clock describe clientFromEnv system embedded sk o) w).1.
Proof.
  intros Ho Hs. destruct sk as [sk|]; cbn [configuredOrchestratorSkill]; [by apply configure_ok; [|apply Hs]|].
  rewrite exec_bind. cbn [exec fst].
  pose proof (load_orchestrator_ok (oc_heap o) [] w (ro_heap _ Ho) ltac:(by intros v n ?%elem_of_nil)) as Hm.
  destruct (exec _ w) as [[[h sk]|e] w1]; cbn [fst].
  - destruct Hm as (Hp&Hh&Hsk). assert (reg_ok (set_heap h o)) as Ho1 by (apply reg_ok_heap; [done|done|by apply heap_grows_prefix]).
    assert (oc_heap (set_heap h o) = h ∧ oc_configLocked (set_heap h o) = oc_configLocked o
      ∧ oc_settings (set_heap h o) = oc_settings o) as (Eh&El&Es) by by destruct o.
    pose proof (configure_ok sk (set_heap h o) Ho1) as Hc. rewrite Eh in Hc. specialize (Hc Hsk).
    destruct Hc as (?&Hg&Hl&Hst&?). rewrite Eh in Hg. split_and!; [done| |by rewrite Hl|by rewrite Hst|done].
    eapply heap_grows_trans; [by apply heap_grows_prefix|done].
  - by split_and!; [|apply heap_grows_refl|..].
Qed.

Lemma set_own_ok sk (o : registry) : reg_ok o → skill_ok (oc_heap o) sk → reg_ok (set_settings (set_orch_skill sk) o).
Proof. intros [? ? ? ? ?] Hs. destruct o as [h e l [] sks p]. by split. Qed.

Lemma set_own_skill_ok sk o (w : W) : reg_ok o → (∀ s, sk = Some s → skill_ok (oc_heap o) s) →
  fine o (exec (SetOrchestratorSkill clock describe clientFromEnv system embedded sk o) w).1.2.
Proof.
  intros Ho Hs. unfold SetOrchestratorSkill. rewrite exec_bind. cbn [exec fst].
  pose proof (configured_ok sk o w Ho Hs) as Hc. destruct (exec _ w) as [[[sk'|e] o1] w1]; cbn [fst] in *;
    destruct Hc as (Ho1&Hg&Hl&Hst&Hsk); cbn [fst snd] in *; [|by apply fine_kept].
  destruct (fine_startup o1 (λ o, if is_empty (sk_Name sk') then (Some RegNoOrchestratorName, o)
    else (None, set_settings (set_orch_skill sk') o)) Ho1) as [Hok Hlk].
  - intros _. destruct (is_empty _); [done|]. apply set_own_ok; [done|by apply Hsk].
  - split; [done|]. intros H'. rewrite <- Hl in H'. destruct (Hlk H') as (?&?). unfold after_lock. rewrite <- Hst. done.
Qed.

Lemma fine_after o o1 o2 : oc_configLocked o1 = oc_configLocked o → oc_settings o1 = oc_settings o → fine o1 o2 → fine o o2.
Proof. intros El Es [Ho Hf]. split; [done|]. unfold after_lock. by rewrite <- Es, <- El. Qed.

Lemma set_heap_same h (o : registry) : oc_heap (set_heap h o) = h ∧ oc_configLocked (set_heap h o) = oc_configLocked o
  ∧ oc_settings (set_heap h o) = oc_settings o.
Proof. by destruct o. Qed.

Lemma set_skill_dir_ok dir o (w : W) : reg_ok o →
  fine o (exec (SetOrchestratorSkillDir clock describe clientFromEnv system embedded dir o) w).1.2.
Proof.
  intros Ho. unfold SetOrchestratorSkillDir. destruct (is_empty dir); [by apply set_own_skill_ok|].
  rewrite exec_bind.
  pose proof (new_dir_made (C := Cl * Conversation S) (oc_heap o) dir DefaultToolSetConfig [] w (ro_heap _ Ho)
    ltac:(by intros o' ?%elem_of_nil)) as Hm.
  destruct (exec (NewSkill_dir _ _ _ _) w) as [[[h sk]|e] w1]; cbn [fst snd]; [|by apply fine_kept].
  destruct Hm as (Hp&Hh&Hsk). rewrite exec_bind. pose proof (rebuild_made h sk [] w1 Hh Hsk) as Hm.
  destruct (exec _ w1) as [[[h2 sk2]|e] w2]; cbn [fst snd]; [|by apply fine_kept]. destruct Hm as (Hp2&Hh2&Hsk2).
  destruct (set_heap_same h2 o) as (Eh&El&Es).
  assert (reg_ok (set_heap h2 o)) as Ho2 by (apply reg_ok_heap; [done|done|apply heap_grows_prefix; by etrans]).
  eapply fine_after; [exact El|exact Es|]. apply set_own_skill_ok; [done|]. rewrite Eh. by intros s [= <-].
Qed.

Lemma set_client_ok c o : reg_ok o → fine o (SetClient clock describe clientFromEnv system c o).2.
Proof.
  intros Ho. unfold SetClient. destruct c as [c|]; [|by apply fine_kept]. apply fine_startup; [done|]. intros _.
  pose proof (set_env_ok (Some (Some c)) o Ho) as Ho1. set (o1 := set_env (Some (Some c)) o) in *.
  destruct (bindOrchestratorSkill _ _ _ _ _ _ _) as [[h sk]|e] eqn:Hb; [|done].
  apply bind_orchestrator_ok in Hb as (Hp&Hh&Hs); [|by apply ro_heap|by apply ro_own].
  apply set_own_ok; [apply reg_ok_heap; [done|done|by apply heap_grows_prefix]|].
  by destruct (set_heap_same h o1) as (->&_&_).
Qed.

Lemma known_server_spec seen byName servers : known_server seen byName servers = None →
  NoDup (srv_Name <$> servers) ∧ ∀ s, s ∈ servers → srv_Name s ∉ seen ∧ byName !! srv_Name s = None.
Proof.
  revert seen. induction servers as [|s servers IH]; intros seen; cbn [known_server].
  { intros _. split; [constructor|]. by intros s ?%elem_of_nil. }
  case_bool_decide as Hs; [done|]. case_bool_decide as Hb; [done|]. intros Hk. apply IH in Hk as [Hnd Hk].
  apply eq_None_not_Some in Hb. split.
  - rewrite fmap_cons. constructor; [|done]. intros (s'&E&Hi)%list_elem_of_fmap. apply Hk in Hi as [Hi _].
    rewrite <- E in Hi. set_solver.
  - intros s' [->|Hi]%elem_of_cons; [done|]. apply Hk in Hi as [? ?]. set_solver.
Qed.

Lemma by_name_lookup (servers : list Server) (m : gmap bytes Server) (n : bytes) (s : Server) : NoDup (srv_Name <$> servers) →
  (∀ s, s ∈ servers → m !! srv_Name s = None) →
  foldl (λ m s, <[srv_Name s := s]> m) m servers !! n = Some s
  ↔ m !! n = Some s ∨ s ∈ servers ∧ srv_Name s = n.
Proof.
  revert m. induction servers as [|s0 servers IH]; intros m Hnd Hm; cbn [foldl].
  { split; [by left|]. intros [?|[?%elem_of_nil _]]; done. }
  rewrite fmap_cons in Hnd. apply NoDup_cons in Hnd as [Hn Hnd]. rewrite IH; [|done|].
  - destruct (decide (n = srv_Name s0)) as [->|Hne].
    + rewrite lookup_insert_eq, (Hm s0) by apply list_elem_of_here. split.
      * intros [[= ->]|[Hi E]]; right; [by split; [apply list_elem_of_here|]|by split; [apply list_elem_of_further|]].
      * intros [?|[[->|Hi]%elem_of_cons E]]; [done|by left|by right].
    + rewrite lookup_insert_ne by done. rewrite elem_of_cons. naive_solver.
  - intros s' Hi. rewrite lookup_insert_ne; [by apply Hm, list_elem_of_further|]. intros E. destruct Hn. rewrite E.
    by apply list_elem_of_fmap_2.
Qed.

Lemma add_servers_ok servers o : reg_ok o → fine o (AddMCPServers servers o).2.
Proof.
  intros Ho. unfold AddMCPServers. destruct servers as [|s0 ss0]; [by apply fine_kept|].
  destruct (check_servers 0 (s0 :: ss0)) as [servers|e]; [|by apply fine_kept]. apply fine_startup; [done|]. intros _.
  destruct (known_server _ _ servers) as [e|] eqn:Hk; [done|]. apply known_server_spec in Hk as [Hnd Hk].
  destruct Ho as [? ? ? ? [Hu Hb]]. destruct o as [h e l [lg sk mx g b] sks p]. cbn in *.
  split; cbn; try done. split; cbn.
  - rewrite fmap_app, NoDup_app. split_and!; [done| |done]. intros n (s&->&Hi)%list_elem_of_fmap (s'&E&Hi')%list_elem_of_fmap.
    apply Hk in Hi' as [_ Hn]. rewrite <- E in Hn. assert (b !! srv_Name s = Some s) as E' by by apply Hb.
    congruence.
  - intros n s. rewrite by_name_lookup; [|done|by intros s' Hi; apply Hk]. rewrite Hb, elem_of_app. naive_solver.
Qed.

Lemma close_ok (o : registry) : reg_ok o → fine o (CloseServers o).2.
Proof.
  intros [? ? ? ? ?]. destruct o as [h e l [lg sk mx g b] sks p]. split.
  - split; cbn; try done. split; cbn; [constructor|]. intros n s. rewrite lookup_empty, elem_of_nil. naive_solver.
  - intros Hl. cbn in *. unfold after_lock. cbn. by split_and!; [..|right].
Qed.

Lemma winner_candidate skills new n (r : reg) : winner skills new n = Some r → r ∈ candidates skills new n.
Proof.
  unfold winner. destruct (candidates skills new n) as [|r1 [|r2 rs]]; [done| |].
  - intros [= ->]. apply list_elem_of_here.
  - intros E%only_elem. by apply elem_of_list_filter' in E as [? _].
Qed.

(** The lists that [RCommit] is called with are the keys of [tentative]. *)
Definition keys_of (o : registry) (new : list reg) (order : list bytes) : Prop :=
  NoDup order ∧ ∀ n, n ∈ order ↔ candidates (oc_skills o) new n ≠ [].

Lemma commit_ok order new o : reg_ok o → Forall (ready (oc_heap o)) new → keys_of o new order →
  fine o (commit_skills order new o).2.
Proof.
  intros Ho Hnew [Hnd Hk]. unfold commit_skills.
  pose proof (resolve_loop_spec (oc_skills o) new order ∅ [] Hnd ltac:(intros; by apply Hk)) as Hl.
  destruct (resolve_loop _ _ _ _) as [[resolved won]|e]; [|by apply fine_kept].
  destruct Hl as (_&Hr&_). destruct Ho as [? Hs ? ? ?]. destruct o as [h env l st sk p]. cbn in *.
  apply fine_kept; [|done|done]. split; cbn; try done.
  intros n r Hn. rewrite Hr in Hn. case_bool_decide; [|by rewrite lookup_empty in Hn].
  apply winner_candidate in Hn. unfold candidates in Hn. apply elem_of_app in Hn as [Hn|Hn].
  - destruct (sk !! n) as [r'|] eqn:E; [|by apply elem_of_nil in Hn]. apply list_elem_of_singleton in Hn as ->. by apply Hs.
  - apply elem_of_list_filter' in Hn as [Hi Hn]. apply bool_decide_eq_true in Hn. split; [|done].
    by eapply Forall_forall in Hnew.
Qed.

(** What a caller passes in: skills that are at home, tools that are his own, and the
    keys of the map that is visited. *)
Definition label_fair (l : reg_label) (o : registry) : Prop :=
  match l with
  | RSetSkill sk => ∀ s, sk = Some s → skill_ok (oc_heap o) s
  | RAddSkills cfgs => Forall (given (oc_heap o)) cfgs
  | RCommit i order => ∀ new, oc_preparing o !! i = Some new → keys_of o new order
  | RCaller ss op => op_foreign op ∧ ∀ s, s ∈ ss → skill_ok (oc_heap o) s
  | _ => True
  end.

Lemma step_fine l o (w : W) : reg_ok o → label_fair l o → fine o (step l o w).2.
Proof.
  intros Ho Hl. destruct l as [lg|limit|client|sk|dir|servers| |cfgs|cfg dirs|i order|names| |ss op]; cbn [do_reg exec fst snd].
  - apply fine_startup; [done|]. intros _. destruct Ho. destruct o as [h e l [] sks p]. by split.
  - unfold SetMaxRunningRunners. destruct (limit <? 0)%Z; [by apply fine_kept|]. apply fine_startup; [done|]. intros _.
    destruct Ho. destruct o as [h e l [] sks p]. by split.
  - by apply set_client_ok.
  - by apply set_own_skill_ok.
  - by apply set_skill_dir_ok.
  - by apply add_servers_ok.
  - by apply close_ok.
  - apply fine_kept; [by apply begin_skills_ok|..]; unfold begin_skills; destruct cfgs as [|r rs]; try done;
      rewrite exec_bind; cbn [exec fst]; destruct (exec _ w) as [[[h new]|e] w']; cbn; by destruct o.
  - unfold AddSkillDirs. destruct dirs as [|d ds]; [by apply fine_kept|].
    destruct (resolveEnvClient_same o) as [e He]. destruct (resolveEnvClient clientFromEnv o) as [c o1]. cbn in He. subst o1.
    pose proof (set_env_ok e o Ho) as Ho1. set (o1 := set_env e o) in *.
    apply (fine_after o o1); [by destruct o|by destruct o|]. rewrite exec_bind.
    pose proof (load_dirs_given (oc_heap o1) c cfg 0 (d :: ds) w (ro_heap _ Ho1)) as Hm.
    destruct (exec (load_dirs _ _ _ _ _) w) as [[[h cfgs]|err] w1]; cbn [fst snd]; [|by apply fine_kept].
    destruct Hm as (Hp&Hh&Hg). destruct (set_heap_same h o1) as (Eh&El&Es).
    assert (reg_ok (set_heap h o1)) as Ho2 by (apply reg_ok_heap; [done|done|by apply heap_grows_prefix]).
    apply fine_kept; [by apply begin_skills_ok; [|rewrite Eh]|..]; unfold begin_skills;
      destruct cfgs as [|r rs]; cbn [exec fst snd]; try done;
      rewrite exec_bind; cbn [exec fst]; destruct (exec _ w1) as [[[h' new]|e'] w']; cbn; by destruct o.
  - destruct (oc_preparing o !! i) as [new|] eqn:Hi; [|by apply fine_kept]. specialize (Hl new Hi).
    cbn [exec fst]. destruct o as [h env l st sk p]. cbn [set_preparing oc_preparing] in *.
    set (o1 := mkRegistry h env l st sk (delete i p)).
    assert (Forall (ready h) new) as Hnew by (eapply (ro_preparing _ Ho), list_elem_of_lookup_2, Hi).
    assert (reg_ok o1) as Ho1.
    { destruct Ho as [? ? Hp ? ?]. split; try done. cbn. intros new' Hn. apply Hp. cbn.
      by eapply list_elem_of_delete_inv. }
    pose proof (commit_ok order new o1 Ho1 Hnew Hl) as Hf.
    apply (fine_after _ o1); [done|done|]. destruct (commit_skills order new o1) as [[won|e] o2]; exact Hf.
  - pose proof (RemoveSkills_atomic names o) as Hr. unfold RemoveSkills in *.
    destruct (check_names _ _ _ _) as [e|]; [by apply fine_kept|]. destruct Hr as (_&_&_&Hr).
    apply fine_kept; [|by destruct o|by destruct o]. destruct Ho as [? Hs ? ? ?]. destruct o as [h env l st sk p].
    cbn in *. split; cbn; try done. intros n r Hn. rewrite Hr in Hn. case_bool_decide; [done|by apply Hs].
  - destruct Ho. destruct o as [h env l st sk p]. split; [by split|]. intros _. unfold after_lock. cbn. by split_and!; [..|left].
  - rewrite exec_bind. cbn [exec fst snd]. destruct Hl as [Hf Hss].
    destruct (op_step op (mkSkills (oc_heap o) ss) w Hf) as ([Hh _]&Hg&_).
    { split; [by apply ro_heap|done]. }
    destruct (exec _ w) as [st' w']; cbn [fst] in *. destruct (set_heap_same (ss_heap st') o) as (_&El&Es).
    apply fine_kept; [|done|done]. by apply reg_ok_heap.
Qed.

(** [NewOrchestrator] returns a well formed registry. *)
Lemma new_orchestrator_ok h logger (w : W) o : heap_ok h →
  (exec (NewOrchestrator clock describe clientFromEnv system embedded h logger) w).1 = Ok o → reg_ok o.
Proof.
  intros Hh. unfold NewOrchestrator. rewrite exec_bind. cbn [exec fst].
  pose proof (load_orchestrator_ok h [Some list_skills_tool] w Hh
    ltac:(by intros v n ?%list_elem_of_singleton)) as Hm.
  destruct (exec _ w) as [[[h1 sk]|e] w1]; [|done]. cbn [fst]. destruct Hm as (_&Hh1&Hsk).
  match goal with |- context [configure_skill _ _ _ _ _ ?x] => set (o0 := x) end.
  assert (reg_ok o0) as Ho0.
  { split; cbn; [done|by intros n r ?|by intros new ?%elem_of_nil|done|]. split; cbn; [constructor|].
    intros n s. rewrite lookup_empty, elem_of_nil. naive_solver. }
  pose proof (configure_ok sk o0 Ho0 Hsk) as (Ho1&_&_&_&Hs).
  destruct (configure_skill _ _ _ _ _ o0) as [[sk'|e] o1]; [|done]. cbn [fst snd] in *.
  intros <-%(inj Ok). apply set_own_ok; [done|by apply Hs].
Qed.

(** In every state that calls of the public functions reach from
    [NewOrchestrator], interleaved as they may be, every name of the registry maps to
    a skill of that very name, which is not empty; the skill is unbound, its tools
    (custom, built-in, and those of the global and its own MCP servers) have different
    names and work in its own playground; and the global MCP servers have different
    names, by which they are found. *)
Theorem registry_wellformed h logger (w0 : W) o0 o : heap_ok h →
  (exec (NewOrchestrator clock describe clientFromEnv system embedded h logger) w0).1 = Ok o0 →
  reg_run (W := W) clock describe clientFromEnv system embedded label_fair o0 o →
  (∀ n r, oc_skills o !! n = Some r → effective_name r = n ∧ n ≠ []
     ∧ ∃ sk, sr_Skill r = Some sk ∧ sk_conv sk = None ∧ skill_ok (oc_heap o) sk)
  ∧ mcp_ok (oc_settings o).
Proof.
  intros Hh Hn Hr. assert (reg_ok o) as [_ Hs _ _ Hm].
  { induction Hr as [|l o w Hl _ IH]; [by eapply new_orchestrator_ok|]. by apply step_fine. }
  split; [|done]. intros n r Hi. destruct (Hs n r Hi) as [(sk&Hsk&Hne&Hc&Hok) <-]. split_and!; [done| |by exists sk].
  unfold effective_name. by rewrite Hsk.
Qed.

(** The first request locks the settings: whatever calls follow, every later
    request is planned with the logger, the orchestrator skill and the limit of the
    first, and the global MCP servers are the same or, after [CloseServers], none. Skills may
    still be added and removed; a request works on the registry as it was. *)
Theorem settings_locked o o' : reg_ok o →
  reg_run (W := W) clock describe clientFromEnv system embedded label_fair (begin_request o).2 o' →
  su_logger (begin_request o').1 = su_logger (begin_request o).1
  ∧ su_orchestratorSkill (begin_request o').1 = su_orchestratorSkill (begin_request o).1
  ∧ oc_max (oc_settings o') = oc_max (oc_settings o)
  ∧ (oc_globalMCP (oc_settings o') = oc_globalMCP (oc_settings o) ∨ oc_globalMCP (oc_settings o') = []).
Proof.
  intros Ho Hr.
  assert (reg_ok (begin_request o).2 ∧ oc_settings (begin_request o).2 = oc_settings o) as [Ho1 Es].
  { destruct Ho. by destruct o. }
  assert (reg_ok o' ∧ after_lock (begin_request o).2 o') as (_&_&F).
  2: { rewrite Es in F. unfold begin_request. cbn. by destruct F as (?&?&?&?). }
  induction Hr as [|l o2 w Hl Hr IH].
  - split; [done|]. split; [by destruct o|]. by split_and!; [..|left].
  - destruct IH as [Ho2 (Hk&E1&E2&E3&E4)]. destruct (step_fine l o2 w Ho2 Hl) as [Ho3 Hf].
    split; [done|]. destruct (Hf Hk) as (Hk'&F1&F2&F3&F4). unfold after_lock. split_and!; try congruence.
    destruct F4 as [F4|F4]; [rewrite F4; by destruct E4; [left|right]|by right].
Qed.
End facts.

(** ** Examples *)

#[local] Existing Instance plain_std.
#[local] Existing Instance sample_front.
#[local] Instance registry_sessions : SessionStore world := json_session_store (s2b "/sessions").

Definition skill_tree : tree := list_to_map [
  ([s2b "skills"], NDir); ([s2b "skills"; s2b "notes"], NDir);
  ([s2b "skills"; s2b "notes"; s2b "SKILL.md"], NFile sample_file)].

Abbreviation unit_registry := (@registry world () ()).
Abbreviation unit_reg := (@SkillRegistration world () ()).
Definition no_registry : unit_registry := mkRegistry [] None false (mkSettings' 0 sample_skill 0 [] ∅) ∅ [].

Definition run_label (l : @reg_label world () ()) (o : unit_registry) : unit_registry :=
  (exec (do_reg (λ _, zero_time) (λ _, ([], None)) (λ _, Some tt) [] (Ok sample_file) l o) skill_tree).1.2.

Definition new_registry : res reg_err unit_registry :=
  (exec (NewOrchestrator (λ _, zero_time) (λ _, ([], None)) (λ _, Some tt) [] (Ok sample_file) [] 7) skill_tree).1.
Definition registry0 : unit_registry := match new_registry with Ok o => o | Err _ => no_registry end.
Definition registry1 : unit_registry := run_label (RAddSkillDirs tt [s2b "/skills/notes"]) registry0.
Definition registry2 : unit_registry := run_label (RCommit 0 [s2b "notes"]) registry1.

Lemma registry0_new : new_registry = Ok registry0.
Proof. unfold registry0. destruct new_registry eqn:E; [done|]. by vm_compute in E. Qed.

Lemma empty_heap_ok : heap_ok [].
Proof. constructor. Qed.

Lemma registry0_ok : reg_ok registry0.
Proof. exact (new_orchestrator_ok _ _ _ _ _ [] 7 skill_tree registry0 empty_heap_ok registry0_new). Qed.

Lemma prepared_keys new : oc_preparing registry1 !! 0%nat = Some new → keys_of registry1 new [s2b "notes"].
Proof.
  intros Hn. assert (∃ r, new = [r] ∧ effective_name r = s2b "notes") as (r&->&Hr).
  { assert (match oc_preparing registry1 !! 0%nat with
            | Some [r] => bool_decide (effective_name r = s2b "notes") | _ => false end = true) as E by by vm_compute.
    rewrite Hn in E. clear Hn. destruct new as [|r []]; [done| |done]. exists r. split; [done|].
    exact (bool_decide_eq_true_1 _ E). }
  assert (map_to_list (oc_skills registry1) = []) as Hs%map_to_list_empty_iff by by vm_compute.
  split; [apply NoDup_singleton|]. intros n. unfold candidates. rewrite Hs, lookup_empty, list_elem_of_singleton.
  cbn [List.filter app]. rewrite Hr. clear Hs Hr. generalize (s2b "notes"). clear. intros x.
  case_bool_decide as E; (split; [intros F|intros F]); try done; by rewrite ?E in *.
Qed.

Abbreviation sample_run o := (reg_run (W := tree) (λ _, zero_time) (λ _, ([], None)) (λ _, Some tt) [] (Ok sample_file)
  label_fair o).

Lemma run_label_step o0 l o : label_fair l o → sample_run o0 o → sample_run o0 (run_label l o).
Proof. intros Hl Hr. by apply reg_step. Qed.

Lemma registry2_run : sample_run registry0 registry2.
Proof.
  unfold registry2. apply run_label_step; [exact prepared_keys|].
  unfold registry1. apply run_label_step; [exact I|]. apply reg_start.
Qed.

Lemma registry_wellformed_witness : ∃ r sk, oc_skills registry2 !! s2b "notes" = Some r ∧ sr_Skill r = Some sk
  ∧ distinct_tools (sk_tools sk).
Proof.
  destruct (oc_skills registry2 !! s2b "notes") as [r|] eqn:E; [|by vm_compute in E].
  destruct (registry_wellformed (λ _, zero_time) (λ _, ([], None)) (λ _, Some tt) [] (Ok sample_file)
    [] 7 skill_tree registry0 registry2 empty_heap_ok registry0_new registry2_run) as [Hs _].
  destruct (Hs _ _ E) as (_&_&sk&Hsk&_&Hok). exists r, sk. split; [reflexivity|]. split; [exact Hsk|].
  exact (so_tools _ _ Hok).
Defined.

(** A logger that is set too late is refused. *)
Lemma settings_locked_witness :
  su_logger (begin_request (run_label (RSetLogger 5) (begin_request registry0).2)).1 = 7%nat.
Proof.
  destruct (settings_locked (λ _, zero_time) (λ _, ([], None)) (λ _, Some tt) [] (Ok sample_file)
    registry0 _ registry0_ok (run_label_step _ (RSetLogger 5) _ I (reg_start _ _ _ _ _ _ _))) as [E _].
  rewrite E. vm_compute. reflexivity.
Defined.

Definition notes_reg (user : bool) : unit_reg := mkReg (Some sample_skill) [] user [] None tt [].
Definition registry_with (r : unit_reg) : unit_registry :=
  mkRegistry [] None false (mkSettings' 0 sample_skill 0 [] ∅) {[ s2b "notes" := r ]} [].

Lemma notes_keys n : n ∈ [s2b "notes"] ↔ candidates (oc_skills (registry_with (notes_reg false))) [notes_reg true] n ≠ [].
Proof.
  rewrite list_elem_of_singleton. unfold candidates. cbn [registry_with oc_skills List.filter].
  change (effective_name (notes_reg true)) with (s2b "notes"). destruct (decide (n = s2b "notes")) as [->|Hne].
  - by rewrite lookup_singleton_eq.
  - rewrite lookup_singleton_ne by done. rewrite bool_decide_eq_false_2 by done. naive_solver.
Qed.

(** A skill of the user takes the place of the system's. *)
Lemma AddSkills_resolves_witness : ∃ won o',
  commit_skills [s2b "notes"] [notes_reg true] (registry_with (notes_reg false)) = (Ok won, o')
  ∧ oc_skills o' !! s2b "notes" = Some (notes_reg true).
Proof.
  pose proof (AddSkills_resolves [s2b "notes"] [notes_reg true] (registry_with (notes_reg false))
    (NoDup_singleton _) notes_keys) as Hr.
  destruct (commit_skills _ _ _) as [[won|e] o'] eqn:E; [|vm_compute in E; discriminate E].
  exists won, o'. split; [reflexivity|]. destruct Hr as [Hr _]. rewrite Hr. vm_compute. reflexivity.
Defined.
