(* ===== verification/Agent.v ===== *)
(** Agents ([agent/agent.go], [stage.go], [prompt.go], [workspace.go]): what runs a
    node. An agent binds its skill for a runner, polishes its plan, executes and
    reports, and writes the outputs of each stage into the channels of its node.

    A run of the bound skill is a parameter: a program over the operating system
    (its tools run commands and edit files) that returns the model's text. *)
From S2P Require Import Prelude Json GoText Text Event Path Os Walk Tree Workspace Excerpt Channel RunnerWorkspace Tools Policy Engine Log Session Conversation Skill.

(** ** Data *)

Inductive Status := StatusPending | StatusRunning | StatusDone | StatusFailed.
#[export] Instance agent_status_eq_dec : EqDecision Status. Proof. solve_decision. Defined.

Record ExecutionPlanner := mkPlanner {
  ep_ID : bytes; ep_TaskDescription : bytes; ep_SourceInput : bytes; ep_ArtifactsDir : bytes;
  ep_Reason : bytes; ep_Solution : bytes; ep_Version : Z }.         (* a uint32 *)

Record SharedData := mkShared { sd_FilePath : bytes; sd_Description : bytes }.
Record ExecutionResult := mkResult {
  er_Success : bool; er_Message : bytes; er_Handoff : bool; er_SharedData : list SharedData }.

(** What a node returns: an execution result or another value. *)
Inductive node_output := OutResult (r : ExecutionResult) | OutAny (v : any).

(** The part of [llm.ConversationConfig] that agents set. *)
Record conv_config := mkConvConfig {
  kc_runtime : runtimeConfig; kc_StreamSource : Source; kc_StreamScope : Scope; kc_StreamMetadata : metadata }.

Inductive agent_err :=
| AgCtx (e : bytes) | AgNotBound (skillName : bytes) | AgRun (e : bytes)
| AgDoc (e : doc_err) | AgFile (msg : string) (e : os_err) | AgOs (e : os_err)
| AgMemoEscapes (path : bytes) | AgNoRel (path : bytes) | AgDeep
| AgSkill (e : skill_err) | AgBind (e : bind_err).

Section Agent.
Context {S : Type} {store : SessionStore S} {Cl : Type}.
Notation skill := (Skill (Cl * Conversation S)).

Record Agent := mkAgent {
  ag_skill : skill; ag_planner : ExecutionPlanner; ag_bindClient : option Cl; ag_bindConfig : conv_config;
  ag_runtimeCfg : ToolSetConfig; ag_runtime : option skill; ag_paths : AgentRuntimePaths;
  ag_Result : option ExecutionResult; ag_Status : Status;
  (** [RunE], when a test injects one. *)
  ag_RunE : option (list (bytes * any) → prog (res bytes (node_output * list Node))) }.

Definition no_paths : AgentRuntimePaths := mkRuntimePaths [] [] [] [] [] [] [] [] [] [].

(** [NewAgent] with the options the orchestrator passes; a nil skill or planner,
    which it refuses, is not among its arguments here. *)
Definition NewAgent (sk : skill) (planner : ExecutionPlanner) (cfg : conv_config) (client : option Cl) : Agent :=
  mkAgent sk planner client cfg (sk_toolSet sk) None no_paths None StatusPending None.

Definition set_planner p (a : Agent) : Agent :=
  let '(mkAgent s _ c k t r d x u f) := a in mkAgent s p c k t r d x u f.
Definition set_runtime r d (a : Agent) : Agent :=
  let '(mkAgent s p c k t _ _ x u f) := a in mkAgent s p c k t r d x u f.
Definition set_status u (a : Agent) : Agent :=
  let '(mkAgent s p c k t r d x _ f) := a in mkAgent s p c k t r d x u f.
Definition set_result x (a : Agent) : Agent :=
  let '(mkAgent s p c k t r d _ u f) := a in mkAgent s p c k t r d x u f.
Definition SetRuntimeToolSetConfig t (a : Agent) : Agent :=
  let '(mkAgent s p c k _ r d x u f) := a in mkAgent s p c k t r d x u f.

Definition captureResult (output : node_output) (a : Agent) : Agent :=
  match output with OutResult r => set_result (Some r) a | OutAny _ => a end.

(** ** Planning *)

Definition u32 (z : Z) : Z := z `mod` 2 ^ 32.

(** [PolishPlan], which is [planTask]. *)
Definition PolishPlan (a : Agent) : Agent :=
  let p := ag_planner a in
  set_planner (mkPlanner (ep_ID p) (ep_TaskDescription p) (ep_SourceInput p) (ep_ArtifactsDir p)
    (s2b "The task requires processing data and generating a report.")
    (s2b "Use a data processing library to analyze the data and generate the report.")
    (u32 (ep_Version p + 1))) a.

(** ** Binding *)

Definition runtimeConversationConfig (a : Agent) : conv_config :=
  let cfg := ag_bindConfig a in
  if rc_StreamEvents (kc_runtime cfg) then
    let id := ep_ID (ag_planner a) in
    let name := sk_Name (ag_skill a) in
    mkConvConfig (mkRuntime (rc_conversation (kc_runtime cfg)) true None)
      (mkSource (s2b "skill") name id) (mkScope [] [] id [])
      (Some (map_set (s2b "skill_name") (AStr name) (map_set (s2b "node_id") (AStr id) [])))
  else cfg.

Section bind.
Context (clock : nat → bytes) (describe : SkillTool → bytes * metadata)
  (clientFromEnv : list bytes → option Cl) (system : bytes).

(** The id of the session that the bound conversation has, and the agent. *)
Definition BindForRunner (fresh_id : bytes) (fresh_stream : nat) (h : heap) (sessID : option bytes)
    (paths : AgentRuntimePaths) (stores : list (option S)) (a : Agent)
  : prog (res agent_err (bytes * heap * Agent) * list (option S)) :=
  let bind h sk :=
    let opts := match sessID, stores with
                | Some id, _ => [Some (WithExistingSession id stores)]
                | None, _ :: _ => [Some (WithNewSession stores)]
                | None, [] => []
                end in
    match Bind clock describe clientFromEnv system fresh_id fresh_stream h (Some sk) (ag_bindClient a)
            (kc_runtime (runtimeConversationConfig a)) opts with
    | (Err e, _) => (Err (AgBind e), stores)
    | (Ok (h, bound), ss) =>
        let id := match sk_conv bound with Some (_, c) => cv_sessionID c | None => [] end in
        (Ok (id, h, set_runtime (Some bound) paths a), match opts with [] => stores | _ => ss end)
    end in
  WithToolSetConfig h (Some (ag_skill a)) (ag_runtimeCfg a) ≫= λ r,
  match r with
  | Err e => Ret (Err (AgSkill e), stores)
  | Ok (h, sk) =>
      match rp_AccessibleDirs paths with
      | [] => Ret (bind h sk)
      | own =>
          SetAccessibleDirsAndBuiltinTools h (Some sk) (skill_AccessibleDirs h (ag_skill a) ++ own) ≫= λ r,
          Ret (match r with
               | Err e => (Err (AgSkill e), stores)
               | Ok (h, sk) => bind h sk
               end)
      end
  end.
End bind.

(** ** Texts *)

(** [json.MarshalIndent] with two spaces. *)
Definition indent_line (d : nat) : bytes := eol ++ mjoin (replicate d (s2b "  ")).
Fixpoint indented (v : json) (d : nat) : bytes :=
  match v with
  | JArr (w :: ws) =>
      s2b "[" ++ indent_line (d + 1) ++ indented w (d + 1)
      ++ mjoin ((λ w, s2b "," ++ indent_line (d + 1) ++ indented w (d + 1)) <$> ws) ++ indent_line d ++ s2b "]"
  | JObj ((k, w) :: ms) =>
      s2b "{" ++ indent_line (d + 1) ++ (dq :: k) ++ (dq :: s2b ": ") ++ indented w (d + 1)
      ++ mjoin ((λ '(k, w), s2b "," ++ indent_line (d + 1) ++ (dq :: k) ++ (dq :: s2b ": ") ++ indented w (d + 1)) <$> ms)
      ++ indent_line d ++ s2b "}"
  | v => print v
  end%nat.

(** What [fmt] prints of a value that does not marshal. *)
Context (sprint : any → bytes).

Definition formatAny (v : any) : bytes :=
  match v with
  | ANull => []
  | AStr s => s
  | v => match any_json v with Some j => indented j 0 | None => sprint v end
  end.

(** The map is given in key order. *)
Definition formatParentOutputs (outputs : list (bytes * any)) : bytes :=
  match outputs with
  | [] => s2b "No parent handoffs."
  | _ => TrimSpace (mjoin ((λ o, s2b "### " ++ o.1 ++ eol ++ eol ++ formatAny o.2 ++ eol ++ eol) <$> outputs))
  end.

Definition fallbackExecutionHandoff (task : bytes) (outputs : list (bytes * any)) : bytes :=
  TrimSpace (s2b "Task accepted for execution without a runnable LLM client." ++ eol ++ eol
    ++ (if is_empty task then [] else s2b "Task:" ++ eol ++ task ++ eol ++ eol)
    ++ (match outputs with [] => [] | _ => s2b "Parent outputs:" ++ eol ++ formatParentOutputs outputs end)).

Definition appendMarkdownSection (base heading body : bytes) : bytes :=
  let trimmed := TrimSpace body in
  if is_empty trimmed then TrimSpace base
  else TrimSpace (TrimSpace base ++ eol ++ eol ++ s2b "## " ++ heading ++ eol ++ eol ++ trimmed).

(** ** Paths *)

Definition currentRuntimePaths (a : Agent) : AgentRuntimePaths :=
  let p := ag_paths a in
  let nodeID := if is_empty (rp_NodeID p) then ep_ID (ag_planner a) else rp_NodeID p in
  mkRuntimePaths
    (if is_empty (rp_RunnerID p) then s2b "runner" else rp_RunnerID p)
    (if is_empty nodeID then s2b "node" else nodeID)
    (if is_empty (rp_SkillName p) then sk_Name (ag_skill a) else rp_SkillName p)
    (rp_MemoDir p) (rp_UpstreamDir p) (rp_DownstreamDir p) (rp_ScratchDir p) (rp_ExchangeDir p)
    (rp_ArchiveMemoDir p) (rp_AccessibleDirs p).

(** ** Stage outputs *)

Section stages.
Context `{FrontMatter handoffDocFrontMatter} `{FrontMatter exchangeDocFrontMatter} `{FrontMatter memoFrontMatter}.
(** [time.Now], as it is printed and in nanoseconds. *)
Context (now : bytes) (nanos : Z).

Abbreviation agent_prog A := (prog (res agent_err A)).

Definition exchangeDocMarkdown (runnerID nodeID skillName stage body : bytes) : res agent_err bytes :=
  match ExchangeDoc_Markdown now (mkExchangeDoc
          (mkExchangeFM (mkHeader [] 0 runnerID now) nodeID skillName stage) (TrimSpace body)) with
  | Ok m => Ok m
  | Err e => Err (AgDoc e)
  end.

Definition pathWithinDir (root target : bytes) : bool :=
  match Rel root target with None => false | Some rel => negb (escapes rel) end.

(** The callback of [snapshotMemos]. *)
Definition snapshot_entry (paths : AgentRuntimePaths) (memoRoot stageRoot path : bytes) (d : os_res kind)
  : prog (walk_ctl agent_err) :=
  match d with
  | Err walkErr => Ret (WalkFail (AgOs walkErr))
  | Ok KDir | Ok KLink => Ret WalkOn
  | Ok KFile =>
      let step : agent_prog () :=
        try resolved := ask (EvalSymlinks path) or AgOs in
        try resolvedPath := ask (Abs resolved) or AgOs in
        if negb (pathWithinDir memoRoot resolvedPath) then Ret (Err (AgMemoEscapes path))
        else
          match Rel (rp_MemoDir paths) path with
          | None => Ret (Err (AgNoRel path))
          | Some rel =>
              try body := ask (ReadFile path) or AgOs in
              match MemoDocument_Markdown now (mkMemoDocument
                      (mkMemoFM (mkHeader [] 0 (rp_RunnerID paths) now) (rp_NodeID paths) (rp_SkillName paths)
                        (path_Join [s2b "memo"; rel])) body) with
              | Err e => Ret (Err (AgDoc e))
              | Ok raw =>
                  let dst := path_Join [stageRoot; rel ++ s2b ".memo.md"] in
                  try _u := ask (MkdirAll (Dir dst)) or AgOs in
                  try _v := ask (WriteFile dst raw) or AgOs in
                  Ret (Ok ())
              end
          end in
      step ≫= λ r, Ret (match r with Ok _ => WalkOn | Err e => WalkFail e end)
  end.

Definition snapshotMemos (stage : bytes) (paths : AgentRuntimePaths) : agent_prog () :=
  if is_empty (rp_MemoDir paths) || is_empty (rp_ArchiveMemoDir paths) then Ret (Ok ())
  else
    try resolved := ask (EvalSymlinks (rp_MemoDir paths)) or AgFile "resolve memo dir" in
    try memoRoot := ask (Abs resolved) or AgFile "resolve memo dir abs path" in
    let stageRoot := path_Join [rp_ArchiveMemoDir paths; stage] in
    try _u := ask (MkdirAll stageRoot) or AgFile "create memo snapshot dir" in
    WalkDir (snapshot_entry paths memoRoot stageRoot) (rp_MemoDir paths) ≫= λ r,
    Ret (match r with Walk.Walked | Walk.Stopped => Ok () | Walk.Failed e => Err e | Walk.TooDeep => Err AgDeep end).

(** The file of a stage in the exchange directory. *)
Definition exchange_name (stage nodeID : bytes) : bytes := stage ++ s2b "-" ++ nodeID ++ s2b "-" ++ dec nanos ++ s2b ".md".

(** Writing a file into a directory that may have to be created. *)
Definition write_into (dir name data : bytes) (mkdir write : string) : agent_prog () :=
  try _u := ask (MkdirAll dir) or (AgFile mkdir) in
  try _v := ask (WriteFile (path_Join [dir; name]) data) or (AgFile write) in
  Ret (Ok ()).

Definition renderStageOutputs (stage intent : bytes) (toNodes : list bytes) (body : bytes) (a : Agent)
  : agent_prog bytes :=
  let paths := currentRuntimePaths a in
  match HandoffDoc_Markdown now (mkHandoffDoc
          (mkHandoffFM (mkHeader [] 0 (rp_RunnerID paths) now) (rp_NodeID paths) toNodes intent []) (TrimSpace body)) with
  | Err e => Ret (Err (AgDoc e))
  | Ok handoffMarkdown =>
      try _u := (if is_empty (rp_DownstreamDir paths) then Ret (Ok ())
                 else write_into (rp_DownstreamDir paths) (s2b "handoff.md") handoffMarkdown
                        "create downstream dir" "write handoff markdown") or id in
      try _v := (if is_empty (rp_ExchangeDir paths) then Ret (Ok ())
                 else
                   try _w := ask (MkdirAll (rp_ExchangeDir paths)) or (AgFile "create exchange dir") in
                   match exchangeDocMarkdown (rp_RunnerID paths) (rp_NodeID paths) (rp_SkillName paths) stage body with
                   | Err e => Ret (Err e)
                   | Ok exchangeMarkdown =>
                       try _x := ask (WriteFile (path_Join [rp_ExchangeDir paths; exchange_name stage (rp_NodeID paths)])
                                       exchangeMarkdown) or (AgFile "write exchange markdown") in
                       Ret (Ok ())
                   end) or id in
      try _y := snapshotMemos stage paths or id in
      Ret (Ok handoffMarkdown)
  end.

(** ** Prompts *)

(** The embedded notes, the time format of the references, Go's %q. *)
Context (stageNote : bytes → option bytes) (seconds quoted : bytes → bytes).

Definition exchangeReferenceInstruction (stage : bytes) : bytes :=
  if bool_decide (stage = s2b "execute")
  then s2b "Inspect these shared public exchange documents with tools only when the stage task needs their contents."
  else s2b "This stage does not allow tool use, so do not inspect exchange documents during this stage.".

Definition upstreamHandoffReferenceInstruction (stage : bytes) : bytes :=
  if bool_decide (stage = s2b "execute")
  then s2b "Inspect these directed upstream handoffs with tools when the task depends on parent output."
  else s2b "This stage does not allow tool use, so do not inspect directed upstream handoffs during this stage.".

Definition HasSuffix (s suffix : bytes) : bool := HasPrefix (reverse s) (reverse suffix).
Definition backticked (s : bytes) : bytes := s2b "`" ++ s ++ s2b "`".

(** One line for a document of the exchange directory. *)
Definition exchange_line (path raw : bytes) : bytes :=
  match ParseExchangeDocMarkdown raw with
  | Ok doc =>
      let m := xd_Meta doc in
      s2b "- " ++ backticked path ++ s2b " — node " ++ backticked (xf_NodeID m)
      ++ (if is_empty (xf_SkillName m) then [] else s2b ", skill " ++ backticked (xf_SkillName m))
      ++ (if is_empty (xf_Title m) then [] else s2b ", title " ++ quoted (xf_Title m))
      ++ (if bool_decide (ch_CreatedAt (xf_Header m) = zero_time) then []
          else s2b ", created " ++ backticked (seconds (ch_CreatedAt (xf_Header m))))
  | Err _ => s2b "- " ++ backticked path ++ s2b " — markdown file with unavailable exchange metadata"
  end.

(** The references, with the name they are sorted by. *)
Fixpoint exchange_refs (dir : bytes) (entries : list (bytes * kind)) : prog (list (bytes * bytes)) :=
  match entries with
  | [] => Ret []
  | (name, k) :: entries =>
      if bool_decide (k = KDir) || negb (HasSuffix name (s2b ".md")) then exchange_refs dir entries
      else
        let path := path_Join [dir; name] in
        ask (ReadFile path) ≫= λ raw,
        match raw with
        | Err _ => exchange_refs dir entries
        | Ok raw => exchange_refs dir entries ≫= λ rest, Ret ((name, exchange_line path raw) :: rest)
        end
  end.

Fixpoint insert_ref (x : bytes * bytes) (l : list (bytes * bytes)) : list (bytes * bytes) :=
  match l with
  | [] => [x]
  | y :: l' => if bytes_ltb y.1 x.1 then y :: insert_ref x l' else x :: l
  end.

Definition exchangeReferencesMarkdown (stage : bytes) (a : Agent) : prog bytes :=
  let dir := rp_ExchangeDir (currentRuntimePaths a) in
  let head := s2b "### Exchange references" ++ eol ++ eol ++ exchangeReferenceInstruction stage ++ eol ++ eol in
  if is_empty dir then Ret (head ++ s2b "No exchange directory is available.")
  else
    ask (ReadDir dir) ≫= λ entries,
    match entries with
    | Err _ => Ret (head ++ s2b "Exchange directory: " ++ backticked dir ++ eol ++ eol
                    ++ s2b "No exchange references are currently readable.")
    | Ok entries =>
        exchange_refs dir entries ≫= λ refs,
        Ret (match foldr insert_ref [] refs with
             | [] => head ++ s2b "No exchange references are currently available."
             | refs => TrimSpace (head ++ mjoin ((λ r, r.2 ++ eol) <$> refs))
             end)
    end.

(** One line for the handoff of a parent. *)
Definition upstream_line (name path raw : bytes) : bytes :=
  match ParseHandoffMarkdown raw with
  | Err _ => s2b "- From " ++ backticked name ++ s2b ": " ++ backticked path
  | Ok doc =>
      let m := hd_Meta doc in
      s2b "- From " ++ backticked (hf_FromNode m) ++ s2b ": " ++ backticked path
      ++ (if is_empty (hf_Intent m) then [] else s2b ", intent " ++ backticked (hf_Intent m))
      ++ (match hf_ToNodes m with [] => [] | tos => s2b ", to " ++ backticked (Join tos (s2b "`, `")) end)
      ++ (if bool_decide (ch_CreatedAt (hf_Header m) = zero_time) then []
          else s2b ", created " ++ backticked (seconds (ch_CreatedAt (hf_Header m))))
      ++ (match hf_Artifacts m with
          | [] => []
          | arts => s2b ", artifacts:" ++ mjoin ((λ x, s2b " " ++ backticked (ha_Path x)) <$> arts)
          end)
  end.

Fixpoint upstream_refs (dir : bytes) (entries : list (bytes * kind)) : prog (list bytes) :=
  match entries with
  | [] => Ret []
  | (name, k) :: entries =>
      if negb (bool_decide (k = KDir)) then upstream_refs dir entries
      else
        let path := path_Join [dir; name; s2b "handoff.md"] in
        ask (ReadFile path) ≫= λ raw,
        match raw with
        | Err _ => upstream_refs dir entries
        | Ok raw => upstream_refs dir entries ≫= λ rest, Ret (upstream_line name path raw :: rest)
        end
  end.

Definition upstreamHandoffReferences (a : Agent) : prog (list bytes) :=
  let dir := rp_UpstreamDir (currentRuntimePaths a) in
  if is_empty dir then Ret []
  else ask (ReadDir dir) ≫= λ entries,
       match entries with
       | Err _ => Ret []
       | Ok entries => upstream_refs dir entries ≫= λ refs, Ret (sort_strings refs)
       end.

Definition upstreamHandoffReferencesMarkdown (stage : bytes) (refs : list bytes) (a : Agent) : bytes :=
  let head := s2b "## Directed upstream handoff references" ++ eol ++ eol
              ++ upstreamHandoffReferenceInstruction stage ++ eol ++ eol in
  if is_empty (rp_UpstreamDir (currentRuntimePaths a))
  then head ++ s2b "No directed upstream handoff directory is available."
  else match refs with
       | [] => head ++ s2b "No directed upstream handoffs are currently available."
       | _ => TrimSpace (head ++ mjoin ((λ r, r ++ eol) <$> refs))
       end.

Definition path_line (label : string) (path : bytes) : bytes :=
  if is_empty path then [] else s2b "- " ++ backticked (s2b label) ++ s2b ": " ++ backticked path ++ eol.

Definition runtimeContextMarkdown (stage : bytes) (a : Agent) : prog bytes :=
  let p := currentRuntimePaths a in
  exchangeReferencesMarkdown stage a ≫= λ exchange,
  Ret (TrimSpace
    (s2b "## Runtime context" ++ eol ++ eol
     ++ s2b "- Runner ID: " ++ rp_RunnerID p ++ eol ++ s2b "- Node ID: " ++ rp_NodeID p ++ eol
     ++ (if is_empty (rp_SkillName p) then [] else s2b "- Skill name: " ++ rp_SkillName p ++ eol)
     ++ eol ++ s2b "### Workspace channel paths" ++ eol ++ eol
     ++ path_line "memo/" (rp_MemoDir p) ++ path_line "upstream/" (rp_UpstreamDir p)
     ++ path_line "downstream/" (rp_DownstreamDir p)
     ++ (if is_empty (rp_DownstreamDir p) then []
         else path_line "downstream/artifacts/" (path_Join [rp_DownstreamDir p; s2b "artifacts"]))
     ++ path_line "scratch/" (rp_ScratchDir p) ++ path_line "exchange/" (rp_ExchangeDir p)
     ++ (match rp_AccessibleDirs p with
         | [] => []
         | dirs => eol ++ s2b "### Accessible roots" ++ eol ++ eol
                   ++ mjoin ((λ d, if is_empty d then [] else s2b "- " ++ backticked d ++ eol) <$> dirs)
         end)
     ++ eol ++ exchange)).

Definition stagePromptWithUpstreamReferences (stage task : bytes) (refs : list bytes) (a : Agent) : prog bytes :=
  runtimeContextMarkdown stage a ≫= λ context,
  Ret (TrimSpace
    (default (s2b "# " ++ stage ++ s2b " stage") (stageNote stage) ++ eol ++ eol ++ context ++ eol ++ eol
     ++ s2b "## Stage task" ++ eol ++ eol
     ++ (if is_empty (TrimSpace task) then s2b "No task description was provided." else TrimSpace task)
     ++ eol ++ eol ++ upstreamHandoffReferencesMarkdown stage refs a)).

Definition stagePrompt (stage task : bytes) (a : Agent) : prog bytes :=
  upstreamHandoffReferences a ≫= λ refs, stagePromptWithUpstreamReferences stage task refs a.

(** The request's input is shown to a node without parents only. *)
Definition executionPrompt (outputs : list (bytes * any)) (a : Agent) : prog bytes :=
  upstreamHandoffReferences a ≫= λ refs,
  stagePromptWithUpstreamReferences (s2b "execute") (ep_TaskDescription (ag_planner a)) refs a ≫= λ prompt,
  Ret (match ep_SourceInput (ag_planner a), outputs, refs with
       | _ :: _, [], [] => appendMarkdownSection prompt (s2b "Original root request input") (ep_SourceInput (ag_planner a))
       | _, _, _ => prompt
       end).

Definition polishPrompt (a : Agent) : prog bytes :=
  let p := ag_planner a in
  stagePrompt (s2b "polish") (ep_TaskDescription p) a ≫= λ prompt,
  let draft := (if (ep_Version p =? 0)%Z then [] else s2b "- Version: " ++ dec (ep_Version p) ++ eol)
    ++ (if is_empty (ep_Reason p) then [] else s2b "- Reason: " ++ ep_Reason p ++ eol)
    ++ (if is_empty (ep_Solution p) then [] else s2b "- Solution: " ++ ep_Solution p ++ eol) in
  Ret (if is_empty (TrimSpace draft) then prompt
       else appendMarkdownSection prompt (s2b "Current planner draft") draft).

Definition reportPrompt (output : any) (a : Agent) : prog bytes :=
  stagePrompt (s2b "report") (s2b "Summarize this agent output.") a ≫= λ prompt,
  Ret (appendMarkdownSection prompt (s2b "Agent output") (formatAny output)).

(** ** Stages *)

(** The model name of a client, and a run of the bound skill on a prompt. *)
Context (model : Cl → bytes) (skill_run : skill → bytes → prog (res bytes bytes)).

(** The runtime skill, and whether its client names a model. *)
Definition runnableRuntimeSkill (a : Agent) : res agent_err (skill * bool) :=
  match ag_runtime a with
  | None => Err (AgNotBound (sk_Name (ag_skill a)))
  | Some runtime =>
      Ok (runtime, match sk_conv runtime with Some (c, _) => negb (is_empty (model c)) | None => false end)
  end.

(** What the three stages share: the model's text, or [fallback] when there is no
    model or no text; then the outputs. *)
Definition run_stage (stage intent : bytes) (toNodes : list bytes) (prompt : prog bytes) (fallback : bytes)
    (a : Agent) : agent_prog bytes :=
  match runnableRuntimeSkill a with
  | Err e => Ret (Err e)
  | Ok (runtime, ok) =>
      try body := (if ok then
                     prompt ≫= λ p,
                     try raw := skill_run runtime p or AgRun in
                     let body := TrimSpace raw in Ret (Ok (if is_empty body then fallback else body))
                   else Ret (Ok fallback)) or id in
      renderStageOutputs stage intent toNodes body a
  end.

Definition polish_fallback (a : Agent) : bytes :=
  let p := ag_planner a in
  TrimSpace (s2b "Task description:" ++ eol ++ eol ++ ep_TaskDescription p ++ eol ++ eol
    ++ s2b "Planner version: " ++ dec (ep_Version p) ++ eol ++ eol
    ++ s2b "Reason:" ++ eol ++ ep_Reason p ++ eol ++ eol ++ s2b "Solution:" ++ eol ++ ep_Solution p).

Definition runPolishStage (a : Agent) : agent_prog bytes :=
  run_stage (s2b "polish") (s2b "review") [s2b "orchestrator"] (polishPrompt a) (polish_fallback a) a.
Definition runExecuteStage (outputs : list (bytes * any)) (a : Agent) : agent_prog bytes :=
  run_stage (s2b "execute") (s2b "continue") [s2b "downstream"] (executionPrompt outputs a)
    (fallbackExecutionHandoff (ep_TaskDescription (ag_planner a)) outputs) a.
Definition runReportStage (output : any) (a : Agent) : agent_prog bytes :=
  run_stage (s2b "report") (s2b "summarize") [s2b "orchestrator"] (reportPrompt output a)
    (TrimSpace (formatAny output)) a.

(** [ctx] is what the checks of the context give, one after the other. *)
Definition ctx_check (ctx : option bytes) : res agent_err () :=
  match ctx with None => Ok () | Some e => Err (AgCtx e) end.

Definition Agent_Execute (ctx ctx' : option bytes) (outputs : list (bytes * any)) (a : Agent)
  : prog (res agent_err (node_output * list Node) * Agent) :=
  let failed e a := (Err e, set_status StatusFailed a) in
  match ctx_check ctx with
  | Err e => Ret (failed e a)
  | Ok _ =>
      let a := set_status StatusRunning a in
      match ag_RunE a with
      | Some runE =>
          runE outputs ≫= λ r,
          Ret (match r with
               | Err e => failed (AgRun e) a
               | Ok (output, newNodes) =>
                   let a := set_status StatusDone (captureResult output a) in
                   match ctx_check ctx' with
                   | Err e => failed e a
                   | Ok _ => (Ok (output, newNodes), a)
                   end
               end)
      | None =>
          runExecuteStage outputs a ≫= λ r,
          Ret (match r with
               | Err e => failed e a
               | Ok output => (Ok (OutAny (AStr output), []), set_status StatusDone a)
               end)
      end
  end.

Definition Polish (ctx ctx' : option bytes) (a : Agent) : prog (res agent_err bytes * Agent) :=
  match ctx_check ctx with
  | Err e => Ret (Err e, a)
  | Ok _ =>
      let a := PolishPlan a in
      match ctx_check ctx' with
      | Err e => Ret (Err e, a)
      | Ok _ => runPolishStage a ≫= λ r, Ret (r, a)
      end
  end.

Definition Report (ctx : option bytes) (output : any) (a : Agent) : agent_prog bytes :=
  match ctx_check ctx with Err e => Ret (Err e) | Ok _ => runReportStage output a end.
End stages.
End Agent.
Arguments Agent S Cl : clear implicits.
