(* ===== verification/AgentFacts.v ===== *)
(** What agents write: the outputs of a stage stay inside the channels of the
    node ([stage_outputs_confined]). *)
From S2P Require Import Prelude Json GoText Text Event Log Session Policy Conversation ConversationFacts Path Os Walk Tree Workspace Channel RunnerWorkspace Skill Agent.

(** ** Names of the files *)

Lemma dashed_plain a b : slash ∉ a → slash ∉ b → plain (a ++ s2b "-" ++ b).
Proof.
  intros Ha Hb. split_and!.
  - by destruct a.
  - destruct a as [|c [|d a]]; [by destruct b| |]; by destruct b.
  - intros E. assert (Ascii.ascii_of_nat 45 ∈ dotdot) as Hin by (rewrite <- E; set_solver).
    revert Hin. by apply (bool_decide_unpack (_ ∉ _)); vm_compute.
  - rewrite !elem_of_app. intros [?|[Hx|?]]; [done| |done].
    revert Hx. by apply (bool_decide_unpack (_ ∉ _)); vm_compute.
Qed.

Lemma dec_no_slash z : slash ∉ dec z.
Proof.
  assert (∀ d, slash ∉ uint_bytes d) as Hd.
  { intros d. induction d; cbn [uint_bytes]; rewrite ?elem_of_cons;
      try (intros [E|E]; [revert E; by apply (bool_decide_unpack (_ ≠ _)); vm_compute|done]).
    by apply (bool_decide_unpack (_ ∉ _)); vm_compute. }
  unfold dec. destruct (z <? 0)%Z; [|apply Hd].
  rewrite elem_of_cons. intros [E|E]; [revert E; by apply (bool_decide_unpack (_ ≠ _)); vm_compute|by apply Hd in E].
Qed.

Lemma exchange_name_plain nanos stage nodeID : slash ∉ stage → slash ∉ nodeID →
  plain (exchange_name nanos stage nodeID).
Proof.
  intros Hs Hn. unfold exchange_name. apply dashed_plain; [done|].
  rewrite !elem_of_app. pose proof (dec_no_slash nanos).
  intros [?|[Hx|[?|Hx]]]; [done| |done|]; revert Hx; by apply (bool_decide_unpack (_ ∉ _)); vm_compute.
Qed.

(** The snapshot of the file that is [b] below the memo directory. *)
Lemma snapshot_below es b : Forall plain es → Forall plain b →
  below (abs es) (path_Join [abs es; (match b with [] => dot | _ => Join b [slash] end) ++ s2b ".memo.md"])
  ∧ below (abs es) (Dir (path_Join [abs es; (match b with [] => dot | _ => Join b [slash] end) ++ s2b ".memo.md"])).
Proof.
  intros Hes Hb.
  assert (∃ d m, Forall plain d ∧ plain m
    ∧ path_Join [abs es; (match b with [] => dot | _ => Join b [slash] end) ++ s2b ".memo.md"] = abs ((es ++ d) ++ [m]))
    as (d&m&Hd&Hm&->).
  { destruct (decide (b = [])) as [->|Hne].
    - exists [], (dot ++ s2b ".memo.md"). split_and!; [done|by apply (bool_decide_unpack _); vm_compute|].
      rewrite app_nil_r. apply path_Join_name; [done|by apply (bool_decide_unpack _); vm_compute].
    - destruct (exists_last Hne) as (d&m&->). apply Forall_app in Hb as [Hd [Hm _]%List.Forall_cons_iff].
      assert (plain (m ++ s2b ".memo.md")) as Hm'.
      { destruct Hm as (Hm&_&_&Hs). split_and!; [by destruct m|..].
        - intros E. apply (f_equal List.length) in E. rewrite length_app in E. cbn in E. lia.
        - intros E. apply (f_equal List.length) in E. rewrite length_app in E. cbn in E. lia.
        - rewrite elem_of_app. intros [?|Hx]; [done|]. revert Hx. by apply (bool_decide_unpack (_ ∉ _)); vm_compute. }
      exists d, (m ++ s2b ".memo.md"). split_and!; [done|done|]. rewrite <- app_assoc.
      replace (match d ++ [m] with [] => dot | _ => Join (d ++ [m]) [slash] end ++ s2b ".memo.md")
        with (Join (d ++ [m ++ s2b ".memo.md"]) [slash]).
      + rewrite <- (join_below es (d ++ [m ++ s2b ".memo.md"])) by plain_names. by destruct d.
      + destruct d as [|x d]; [cbn; by rewrite !app_nil_r|].
        rewrite !path_Join_snoc by done. cbn [app]. by rewrite <- app_assoc. }
  rewrite <- app_assoc. split.
  - apply below_app; plain_names.
  - rewrite app_assoc, Dir_abs by plain_names. by apply below_app.
Qed.

(** ** Calls of a stage

    Directories and files are made in the channels [renderStageOutputs] names;
    files are read only where, in the state they are read in, they resolve to
    something below what the memo directory resolves to. *)
Definition stage_call `{FileSystem W} (paths : AgentRuntimePaths) (stage file : bytes) (s : W) (B : Type) (c : call B)
  : Prop :=
  let snapshots := path_Join [rp_ArchiveMemoDir paths; stage] in
  match c with
  | Lstat p | ReadDir p | EvalSymlinks p => below (rp_MemoDir paths) p
  | Abs _ => True
  | ReadFile p => below (rp_MemoDir paths) p
      ∧ ∃ root q, answer (EvalSymlinks (rp_MemoDir paths)) s = Ok root ∧ answer (EvalSymlinks p) s = Ok q
        ∧ below root q
  | MkdirAll d => (d = rp_DownstreamDir paths ∨ d = rp_ExchangeDir paths ∨ below snapshots d) ∧ d ≠ []
  | WriteFile p _ => p = child (rp_DownstreamDir paths) (s2b "handoff.md")
      ∨ p = child (rp_ExchangeDir paths) file ∨ below snapshots p
  | _ => False
  end.

(** A directory of the node, which may be unset. *)
Definition dir_ok (d : bytes) : Prop := d = [] ∨ rooted d.

Section stage.
Context `{FileSystemLaws W} `{FrontMatter handoffDocFrontMatter} `{FrontMatter exchangeDocFrontMatter} `{FrontMatter memoFrontMatter}.
Context (now : bytes) (nanos : Z) (stage : bytes) (Hstage : plain stage).
Implicit Types s : W.
Implicit Types paths : AgentRuntimePaths.

#[local] Abbreviation file paths := (exchange_name nanos stage (rp_NodeID paths)).
#[local] Abbreviation calls paths := (stage_call paths stage (file paths)).

Definition shallow {A} (r : res agent_err A) : Prop := r ≠ Err AgDeep.

Lemma pathWithinDir_below a b : rooted a → rooted b → pathWithinDir a b = true → below a b.
Proof.
  intros (x&Hx&->) (y&Hy&->) E. apply Rel_within in E as [z ->]; [|done..].
  exists x, z. apply Forall_app in Hy as [_ Hz]. done.
Qed.

(** The memo directory resolves to [root]. *)
Definition memo_at paths root s : Prop := unlinked s root ∧ answer (EvalSymlinks (rp_MemoDir paths)) s = Ok root.

Lemma memo_at_after paths root s B (c : call B) : creates c = true → memo_at paths root s → memo_at paths root (after c s).
Proof.
  intros Hc [Hu He]. split; [apply linkless_unlinked; [by destruct c|done]|by apply create_keeps_eval].
Qed.

Lemma snapshot_entry_wp paths memo arch root b k s :
  Forall plain memo → Forall plain arch → rp_MemoDir paths = abs memo → rp_ArchiveMemoDir paths = abs arch →
  Forall plain b → memo_at paths root s →
  wp (calls paths) (snapshot_entry now paths root (abs (arch ++ [stage])) (abs (memo ++ b)) k) s
    (λ c s', memo_at paths root s' ∧ ctl_ok (λ e, e ≠ AgDeep) c).
Proof.
  intros Hmemo Harch Em Ea Hb Hu.
  assert (below (rp_MemoDir paths) (abs (memo ++ b))) as Hbelow by by rewrite Em; apply below_app.
  assert (rooted (abs (memo ++ b))) as Hr by (exists (memo ++ b); split; [plain_names|done]).
  unfold snapshot_entry. destruct k as [[]|e]; cbn [wp]; try by split.
  apply wp_bind, wp_try. split; [done|]. rewrite query_state by done. cbn [wp].
  destruct (answer (EvalSymlinks _) s) as [q|] eqn:Hq; [|by split].
  pose proof (eval_unlinked s _ _ Hr Hq) as Hqu.
  apply wp_try. split; [done|]. rewrite query_state, (abs_id s q) by (done || apply Hqu). cbn [wp].
  destruct (pathWithinDir root q) eqn:Hin; cbn [negb]; [|by split].
  apply pathWithinDir_below in Hin; [|apply (proj1 Hu)|apply Hqu].
  rewrite Em, Rel_below by done. apply wp_try.
  split; [split; [done|exists root, q; split_and!; [apply Hu|done..]]|].
  rewrite query_state by done. cbn [wp]. destruct (answer (ReadFile _) s) as [body|]; [|by split].
  destruct (MemoDocument_Markdown _ _) as [raw|]; [|by split]. cbv zeta.
  destruct (snapshot_below (arch ++ [stage]) b) as [Hf Hd]; [plain_names..|].
  rewrite <- (path_Join_name arch stage), <- Ea in Hf, Hd by done.
  apply wp_try. cbn [wp ask]. rewrite <- (path_Join_name arch stage), <- Ea by done.
  split; [split; [by right; right|]|].
  { intros E. rewrite E in Hd. by apply below_rooted in Hd as (?&_&?). }
  pose proof (memo_at_after paths root s _ (MkdirAll (Dir (path_Join [path_Join [rp_ArchiveMemoDir paths; stage];
    (match b with [] => dot | _ => Join b [slash] end) ++ s2b ".memo.md"]))) eq_refl Hu) as Hu1.
  destruct (answer (MkdirAll _) s) as [[]|]; cbn [wp]; [|by split].
  apply wp_try. cbn [wp ask]. split; [by right; right|].
  match goal with |- context [after (WriteFile ?p ?d) ?t] =>
    pose proof (memo_at_after paths root t _ (WriteFile p d) eq_refl Hu1) as Hu2;
    destruct (answer (WriteFile p d) t) as [[]|]; by split end.
Qed.

Lemma snapshotMemos_wp paths s : dir_ok (rp_MemoDir paths) → dir_ok (rp_ArchiveMemoDir paths) →
  wp (calls paths) (snapshotMemos now stage paths) s (λ r _, shallow r).
Proof.
  intros Hm Ha. unfold snapshotMemos. destruct (_ || _) eqn:Hne; [done|].
  apply orb_false_iff in Hne as [Hm0 Ha0].
  destruct Hm as [E|(memo&Hmemo&Em)]; [by rewrite E in Hm0|].
  destruct Ha as [E|(arch&Harch&Ea)]; [by rewrite E in Ha0|].
  assert (rooted (rp_MemoDir paths)) as Hr by by exists memo.
  apply wp_try. split; [by apply below_refl|]. rewrite query_state by done. cbn [wp].
  destruct (answer (EvalSymlinks _) s) as [root|] eqn:Hroot; [|done].
  pose proof (eval_unlinked s _ _ Hr Hroot) as Hu.
  apply wp_try. split; [done|]. rewrite query_state, (abs_id s root) by (done || apply Hu). cbn [wp]. cbv zeta.
  apply wp_try. rewrite Ea, path_Join_name by done. split.
  { split; [|done]. right; right. rewrite Ea, path_Join_name by done. apply below_refl.
    exists (arch ++ [stage]). split; [plain_names|done]. }
  pose proof (memo_at_after paths root s _ (MkdirAll (abs (arch ++ [stage]))) eq_refl (conj Hu Hroot)) as Hu1.
  cbn [wp]. destruct (answer (MkdirAll _) s) as [[]|]; [|done].
  apply wp_bind. rewrite Em. eapply wp_mono; [|eapply wp_both; [eapply (WalkDir_wp _ _
    (λ p, ∃ b, Forall plain b ∧ p = abs (memo ++ b)) (memo_at paths root) (λ e, e ≠ AgDeep))|apply walk_ends]].
  - intros [| |e|] s' [[_ Hc] Hd]; cbn [wp]; unfold shallow; try done. intros [= ->]. by apply Hc.
  - intros p r s' (b&Hb&->) Hs'. by eapply snapshot_entry_wp.
  - intros p s' (b&Hb&->) _. cbn [stage_call]. rewrite Em. split; by apply below_app.
  - intros p m (b&Hb&->) Hpm. exists (b ++ [m]). unfold child.
    rewrite path_Join_name by plain_names. rewrite app_assoc. split; [plain_names|done].
  - exists []. by rewrite app_nil_r.
  - done.
  - by exists memo.
Qed.
Lemma shallow_err {A} e : shallow (Err e : res agent_err A) → e ≠ AgDeep.
Proof. intros Hr E. apply Hr. by rewrite E. Qed.
End stage.

Lemma dir_ok_below d m : dir_ok d → is_empty d = false → plain m → path_Join [d; m] = child d m ∧ d ≠ [].
Proof. intros [->|(es&Hes&->)]; [done|by split]. Qed.

(** ** Property *)

(** C33: Rendering the outputs of a stage always ends and names nothing outside the
    channels of the node: directories are made at the downstream and the exchange
    directory and below the stage's snapshot directory, and only there; files are
    written under the names [downstream/handoff.md], one file of the exchange
    directory and those below the snapshot directory; and a file is read only when
    it lies below the memo directory and, in the state in which it is read, resolves
    to a path below the one the memo directory resolves to. The text returned is
    the handoff's markdown.
    What is written is confined by name only: a symbolic link left under one of
    these names is followed. *)
Theorem stage_outputs_confined {St} {store : SessionStore St} {Cl} `{FileSystemLaws W}
  `{FrontMatter handoffDocFrontMatter} `{FrontMatter exchangeDocFrontMatter} `{FrontMatter memoFrontMatter}
  (now : bytes) (nanos : Z) (stage intent : bytes) (toNodes : list bytes) (body : bytes) (a : Agent St Cl) (s : W) :
  let paths := currentRuntimePaths a in
  let file := exchange_name nanos stage (rp_NodeID paths) in
  plain stage → slash ∉ rp_NodeID paths →
  dir_ok (rp_DownstreamDir paths) → dir_ok (rp_ExchangeDir paths) →
  dir_ok (rp_MemoDir paths) → dir_ok (rp_ArchiveMemoDir paths) →
  plain file
  ∧ wp (stage_call paths stage file) (renderStageOutputs now nanos stage intent toNodes body a) s (λ r _,
      match r with
      | Ok text => HandoffDoc_Markdown now (mkHandoffDoc (mkHandoffFM (mkHeader [] 0 (rp_RunnerID paths) now)
                     (rp_NodeID paths) toNodes intent []) (TrimSpace body)) = Ok text
      | Err e => e ≠ AgDeep
      end).
Proof.
  intros paths file Hstage Hnode Hdown Hex Hmemo Harch.
  assert (plain file) as Hfile by (apply exchange_name_plain; [apply Hstage|done]).
  split; [done|]. unfold renderStageOutputs. fold paths.
  destruct (HandoffDoc_Markdown _ _) as [text|] eqn:Htext; [|done].
  apply wp_try. eapply wp_mono with (Q := λ r _, shallow r).
  - intros [?|e] s1 Hr; [|by eapply shallow_err].
    apply wp_try. eapply wp_mono with (Q := λ r _, shallow r).
    + intros [?|e] s2 Hr'; [|by eapply shallow_err].
      apply wp_try. eapply wp_mono; [|by apply snapshotMemos_wp].
      intros [?|e] s3 Hr''; [done|by eapply shallow_err].
    + destruct (is_empty (rp_ExchangeDir paths)) eqn:Hne; [done|].
      destruct (dir_ok_below _ file Hex Hne Hfile) as [E Hn].
      apply wp_try. cbn [wp ask]. split; [split; [by right; left|done]|].
      destruct (answer (MkdirAll _) s1) as [[]|]; [|done].
      destruct (exchangeDocMarkdown _ _ _ _ _ _) eqn:Hx.
      * cbn [wp]. apply wp_try. cbn [wp ask]. split; [by right; left|].
        by destruct (answer (WriteFile _ _) _) as [[]|].
      * cbn [wp]. unfold exchangeDocMarkdown in Hx. destruct (ExchangeDoc_Markdown _ _); [done|].
        injection Hx as <-. done.
  - destruct (is_empty (rp_DownstreamDir paths)) eqn:Hne; [done|].
    destruct (dir_ok_below _ (s2b "handoff.md") Hdown Hne) as [E Hn]; [by apply (bool_decide_unpack _); vm_compute|].
    unfold write_into. apply wp_try. cbn [wp ask]. split; [split; [by left|done]|].
    destruct (answer (MkdirAll _) s) as [[]|]; [|done].
    apply wp_try. cbn [wp ask]. split; [by left|]. by destruct (answer (WriteFile _ _) _) as [[]|].
Qed.

(** ** Witness *)

(** A codec that prints every value alike. *)
Definition flat_codec {T} (x : T) : FrontMatter T := {|
  fm_zero := x; yaml_Marshal _ := Some one_text; yaml_Unmarshal _ := Some x; unmarshalTOML _ := None |}.
#[local] Instance flat_handoff : FrontMatter handoffDocFrontMatter := flat_codec (mkHandoffFM zero_header [] [] [] []).
#[local] Instance flat_exchange : FrontMatter exchangeDocFrontMatter := flat_codec (mkExchangeFM zero_header [] [] []).
#[local] Instance flat_memo : FrontMatter memoFrontMatter := flat_codec (mkMemoFM zero_header [] [] []).
#[local] Existing Instance plain_std.
#[local] Instance agent_sessions : SessionStore world := json_session_store (s2b "/sessions").

(** An agent bound for node [a] of a provisioned workspace, with one memo. *)
Definition node_agent : Agent world () :=
  set_runtime None (match Workspace_AgentRuntimePaths plain_workspace (s2b "a") (s2b "notes") [] with
                    | Ok p => p | Err _ => no_paths end)
    (NewAgent (mkSkill (mkSkillMeta (s2b "notes") [] []) (s2b "Take notes.") None [] DefaultToolSetConfig [] None None)
      (mkPlanner (s2b "a") (s2b "task") [] [] [] [] 0)
      (mkConvConfig (mkRuntime (mkConfig 0 None None) false None) (mkSource [] [] []) (mkScope [] [] [] []) None)
      None).
Definition memo_tree : tree :=
  (exec (ask (WriteFile (s2b "/srv/runs/task_1/skills/a/memo/plan.txt") (s2b "think"))) provisioned_run.2).2.
Definition stage_run := exec (renderStageOutputs (s2b "2024-01-01T00:00:00Z") 7 (s2b "execute") (s2b "continue")
  [s2b "downstream"] (s2b "done") node_agent) memo_tree.

(** The memo is in the archive afterwards. *)
Example stage_written :
  answer (ReadFile (s2b "/srv/runs/task_1/archive/memo/a/execute/plan.txt.memo.md")) stage_run.2
    = Ok (render one_text (s2b "think")).
Proof. by vm_compute. Qed.

Lemma run_dir_ok (names : list string) : bool_decide (Forall plain (s2b <$> names)) = true →
  dir_ok (abs (run_dir ++ (s2b <$> names))).
Proof.
  intros Hn%bool_decide_eq_true. right. exists (run_dir ++ (s2b <$> names)). split; [|done].
  apply Forall_app. split; [by apply (bool_decide_unpack _); vm_compute|done].
Qed.

Lemma stage_outputs_confined_witness :
  plain (exchange_name 7 (s2b "execute") (s2b "a"))
  ∧ match stage_run.1 with
    | Ok text => text = render one_text (s2b "done")
    | Err e => e ≠ AgDeep
    end.
Proof.
  destruct (stage_outputs_confined (s2b "2024-01-01T00:00:00Z") 7 (s2b "execute") (s2b "continue") [s2b "downstream"]
    (s2b "done") node_agent memo_tree) as [Hfile Hw].
  1-2: by apply (bool_decide_unpack _); vm_compute.
  1: exact (run_dir_ok ["skills"; "a"; "downstream"] eq_refl).
  1: exact (run_dir_ok ["exchange"] eq_refl).
  1: exact (run_dir_ok ["skills"; "a"; "memo"] eq_refl).
  1: exact (run_dir_ok ["archive"; "memo"; "a"] eq_refl).
  split; [exact Hfile|]. apply wp_exec in Hw. unfold stage_run.
  destruct (exec _ memo_tree).1 as [text|e]; [|exact Hw]. vm_compute in Hw. by injection Hw.
Defined.
