(* ===== verification/Request.v ===== *)
(** Requests ([orchestrator/request.go], [planning.go]): what [StartRequest] takes
    under the lock, the exchange with the planner, the agents and nodes of a plan,
    and the goroutine that turns a request into a runner.

    A run of the planning skill, [Stream.Merge], [os.MkdirAll] and
    [submitManagedRunner] are answered from outside; the events of the orchestrator
    are the calls of [Stream.Emit] it makes, in order. What a call returns is dropped
    by the code, so that nothing depends on whether the stream takes the event;
    [Stream.v] says what it does with it. *)
From S2P Require Import Prelude Json GoText Text Event Path Os Workspace Channel Policy Log Session Conversation Skill Registry RunnerWorkspace Agent Bundle Plan Engine Lifecycle Describe.

(** ** Data *)

Record RejectReason := mkReject { rj_Summary : bytes; rj_Analysis : bytes; rj_MissingSkills : list bytes }.
#[export] Instance reject_eq_dec : EqDecision RejectReason. Proof. solve_decision. Defined.

Record Request := mkRequest { rq_Input : bytes; rq_Priority : Z; rq_ArtifactsDir : bytes }.
Definition RequestPriorityDefault : Z := 0.
Definition RequestPriorityHighest : Z := 4.
Definition valid (p : Z) : bool := (RequestPriorityDefault <=? p) && (p <=? RequestPriorityHighest).

(** Why a reply of the planner was refused, with a preview of the reply. *)
Inductive planning_err :=
| PlanNoObject (preview : bytes) | PlanUnmarshal (preview : bytes) | PlanBoth | PlanNeither (preview : bytes).
#[export] Instance planning_err_eq_dec : EqDecision planning_err. Proof. solve_decision. Defined.

Inductive node_err :=
| NodesEmpty | NodeNoID | NodeTwice (id : bytes) | NodeNoSkill (id : bytes)
| NodeUnregistered (id skill : bytes) | NodeUnknownParent (id parent : bytes).

Inductive req_err :=
| ReqPriority | ReqSubscribe (e : bytes) | ReqUnconfigured | ReqBind (e : bind_err) | ReqMerge (e : bytes)
| ReqSkill (e : bytes) | ReqAfterRetry (e : planning_err) | ReqHandoff (e : doc_err)
| ReqRejected (r : RejectReason) | ReqNeither | ReqMkdir (e : bytes) | ReqNodes (e : node_err)
| ReqSubmit (e : bytes).

(** [RequestRejectedError.Error]. *)
Definition rejected_text (r : RejectReason) : bytes :=
  match rj_Summary r with
  | [] => s2b "orchestrate: request rejected"
  | s => s2b "orchestrate: request rejected: " ++ s
  end.

(** ** The reply of the planner *)

(** A reject reason under decoding, its list with the backing array. *)
Definition reject_dec : Type := RejectReason * list bytes.
Definition zero_reject : reject_dec := (mkReject [] [] [], []).

Definition plan_reject_field (k raw : bytes) (d : reject_dec) : option reject_dec :=
  let '(mkReject s a m, back) := d in
  if field_is "summary" k then x ← decode_str s raw; Some (mkReject x a m, back)
  else if field_is "analysis" k then x ← decode_str a raw; Some (mkReject s x m, back)
  else if field_is "missing_skills" k then
    match top_of raw with
    | Some TNull | Some (TArr []) => Some (mkReject s a [], [])
    | Some (TArr raws) =>
        xs ← decode_strs back raws; Some (mkReject s a xs, xs ++ drop (List.length xs) back)
    | _ => None
    end
  else Some d.

Record orchestratorSkillPlanResponse := mkPResp { or_Plan : option plan_dec; or_Reject : option reject_dec }.

Definition plan_response_field (k raw : bytes) (r : orchestratorSkillPlanResponse) : option orchestratorSkillPlanResponse :=
  let '(mkPResp p j) := r in
  if field_is "plan" k then x ← decode_ptr zero_plan_dec (decode_struct plan_field) p raw; Some (mkPResp x j)
  else if field_is "reject" k then
    x ← decode_ptr zero_reject (decode_struct plan_reject_field) j raw; Some (mkPResp p x)
  else Some r.

(** A plan and a reject reason, one of them nil. *)
Definition verdict : Type := option CoarsePlan * option RejectReason.

Section parse.
Context (unicode_alnum : bytes → bool).

Definition parseOrchestratorPlanningOutput (raw : bytes) : res planning_err verdict :=
  let preview := SummarizeRaw raw 200 in
  let cleaned := ExtractJSONObject unicode_alnum raw in
  if bool_decide (cleaned = []) then Err (PlanNoObject preview)
  else
    match decode_struct plan_response_field (mkPResp None None) cleaned with
    | None => Err (PlanUnmarshal preview)
    | Some (mkPResp (Some _) (Some _)) => Err PlanBoth
    | Some (mkPResp None None) => Err (PlanNeither preview)
    | Some (mkPResp p j) => Ok (plan_of <$> p, fst <$> j)
    end.
End parse.

(** ** The prompt *)

Definition planning_task : bytes :=
  s2b "Plan the user request using only the listed skills. Reply with one strict JSON object: either {"
  ++ (dq :: s2b "plan") ++ (dq :: s2b ":{...}} or {") ++ (dq :: s2b "reject") ++ (dq :: s2b ":{...}}. No fences, no commentary.").
Definition planning_contract : bytes :=
  s2b "plan.request must repeat the user's original request verbatim. Each plan.nodes[] needs a snake_case id, a skill_name from data.skills, a self-contained task_description (what to do, inputs, output format, constraints, success criteria), and depends_on for any upstream-consuming node. reject must include summary, analysis, and missing_skills when the gap is a missing capability.".

Definition marshalOrchestratorPlanningInput (request : bytes) (skills : list (bytes * bytes)) : bytes :=
  print (JObj [field "mode" (jstr (s2b "plan")); field "task" (jstr planning_task);
    field "contract" (jstr planning_contract);
    field "data" (JObj [field "request" (jstr request);
      field "skills" (match skills with
        | [] => JNull
        | _ => JArr ((λ s, JObj ([field "name" (jstr s.1)] ++ omit_str "description" s.2)) <$> skills)
        end)])]).

(** The last reasoning with a text. *)
Definition latestReasoning {P} (turns : list (Turn P)) : bytes :=
  match head (List.filter (λ t, bool_decide (tn_Role t = RoleReasoning) && nonempty (tn_Text t)) (reverse turns)) with
  | Some t => tn_Text t
  | None => []
  end.

(** ** Nodes of a plan *)

Section Request.
Context {S : Type} {store : SessionStore S} {Cl : Type}.
Notation skill := (Skill (Cl * Conversation S)).
Notation reg := (@SkillRegistration S Cl conv_config).
Notation registry := (@Registry.registry S Cl conv_config).
Notation startup := (@requestStartup S Cl conv_config).

(** [runner.Node], its parents by id. *)
Record plan_node := mkPlanNode {
  nd_Id : bytes; nd_SkillName : bytes; nd_TaskDescription : bytes; nd_Agent : Agent S Cl; nd_Parents : list bytes }.

Definition conversationConfigForNode (cfg : conv_config) : conv_config :=
  mkConvConfig (mkRuntime (rc_conversation (kc_runtime cfg)) true None) (kc_StreamSource cfg) (kc_StreamScope cfg) None.

(** The checks and the node of one step, in the first loop. *)
Definition build_node (req : Request) (skills : gmap bytes reg) (nodes : gmap bytes plan_node) (step : CoarsePlanNode)
  : res node_err plan_node :=
  if is_empty (pn_ID step) then Err NodeNoID
  else match nodes !! pn_ID step with
  | Some _ => Err (NodeTwice (pn_ID step))
  | None =>
      if is_empty (pn_SkillName step) then Err (NodeNoSkill (pn_ID step))
      else match skills !! pn_SkillName step with
      | None => Err (NodeUnregistered (pn_ID step) (pn_SkillName step))
      | Some cfg =>
          match sr_Skill cfg with
          | None => Err (NodeUnregistered (pn_ID step) (pn_SkillName step))
          | Some sk =>
              let task := if is_empty (pn_TaskDescription step) then rq_Input req else pn_TaskDescription step in
              let planner := mkPlanner (pn_ID step) task (rq_Input req) (rq_ArtifactsDir req) [] [] 0 in
              Ok (mkPlanNode (pn_ID step) (pn_SkillName step) task
                    (NewAgent sk planner (conversationConfigForNode (sr_Config cfg)) (sr_Client cfg)) [])
          end
      end
  end.

Fixpoint build_nodes (req : Request) (skills : gmap bytes reg) (nodes : gmap bytes plan_node) (steps : list CoarsePlanNode)
  : res node_err (gmap bytes plan_node) :=
  match steps with
  | [] => Ok nodes
  | step :: steps =>
      let? node := build_node req skills nodes step in
      build_nodes req skills (<[pn_ID step := node]> nodes) steps
  end.

Definition add_parent (parent : bytes) (n : plan_node) : plan_node :=
  mkPlanNode (nd_Id n) (nd_SkillName n) (nd_TaskDescription n) (nd_Agent n) (nd_Parents n ++ [parent]).

(** The second loop. *)
Fixpoint link_parents (id : bytes) (parents : list bytes) (nodes : gmap bytes plan_node)
  : res node_err (gmap bytes plan_node) :=
  match parents with
  | [] => Ok nodes
  | p :: parents =>
      match nodes !! p with
      | None => Err (NodeUnknownParent id p)
      | Some _ => link_parents id parents (alter (add_parent p) id nodes)
      end
  end.
Fixpoint link_nodes (steps : list CoarsePlanNode) (nodes : gmap bytes plan_node)
  : res node_err (gmap bytes plan_node) :=
  match steps with
  | [] => Ok nodes
  | step :: steps => let? nodes := link_parents (pn_ID step) (pn_DependsOn step) nodes in link_nodes steps nodes
  end.

Definition buildPlanNodes (req : Request) (plan : CoarsePlan) (skills : gmap bytes reg)
  : res node_err (gmap bytes plan_node) :=
  match default [] (pl_Nodes plan) with
  | [] => Err NodesEmpty
  | steps => let? nodes := build_nodes req skills ∅ steps in link_nodes steps nodes
  end.

(** The callback of [WithPlanNodeBuilder]. *)
Definition planNodeBuilder (req : Request) (skills : gmap bytes reg) (replanned : CoarsePlan)
  : res node_err (gmap bytes plan_node) :=
  buildPlanNodes (mkRequest (pl_Request replanned) 0 (rq_ArtifactsDir req)) replanned skills.

Definition engine_node (n : plan_node) : Node := mkNode (nd_Id n) (nd_Parents n).

(** ** The goroutine of a request *)

(** What the world around the request answers: the planning skill's runs by number
    and its turns afterwards, the merges by number, [os.MkdirAll], the id of the new
    runner, the order its nodes are ranged over, and [submitManagedRunner]. *)
Record outside := mkOutside {
  ou_run : nat → bytes → res bytes bytes; ou_turns : list (Turn loc); ou_merge : nat → option bytes;
  ou_mkdir : option bytes; ou_runnerID : bytes; ou_order : list (bytes * Node) → list (bytes * Node);
  ou_submit : option bytes }.

(** A runner as the orchestrator makes it: its lifecycle, the nodes with their
    agents, and what it replans with. *)
Record request_runner := mkRRunner {
  rr_runner : runner; rr_ID : bytes; rr_Nodes : gmap bytes plan_node; rr_Planner : skill;
  rr_Summaries : list (bytes * bytes); rr_Build : CoarsePlan → res node_err (gmap bytes plan_node) }.

(** The registry, the events given to [Stream.Emit], the streams merged and whether their merges
    have been stopped, the runners, the prompts sent, and the runners submitted. *)
Record req_state := mkReq {
  rs_reg : registry; rs_events : list Event; rs_merges : list nat; rs_stopped : bool;
  rs_runners : gmap bytes request_runner; rs_asked : list bytes; rs_submitted : list (bytes * Z) }.

Definition set_reg r (s : req_state) : req_state :=
  let '(mkReq _ e m t n a u) := s in mkReq r e m t n a u.
Definition emit_event ev (s : req_state) : req_state :=
  let '(mkReq r e m t n a u) := s in mkReq r (e ++ [ev]) m t n a u.
Definition add_merge x (s : req_state) : req_state :=
  let '(mkReq r e m t n a u) := s in mkReq r e (m ++ [x]) t n a u.
Definition stopStreamMerges (s : req_state) : req_state :=
  let '(mkReq r e m _ n a u) := s in mkReq r e m true n a u.
Definition add_runner x (s : req_state) : req_state :=
  let '(mkReq r e m t n a u) := s in mkReq r e m t (<[rr_ID x := x]> n) a u.
Definition asked p (s : req_state) : req_state :=
  let '(mkReq r e m t n a u) := s in mkReq r e m t n (a ++ [p]) u.
Definition submitted x (s : req_state) : req_state :=
  let '(mkReq r e m t n a u) := s in mkReq r e m t n a (u ++ [x]).

Definition rq_prog (A : Type) : Type := req_state → req_state * res req_err A.
Definition rq_ret {A} (a : A) : rq_prog A := λ s, (s, Ok a).
Definition rq_fail {A} (e : req_err) : rq_prog A := λ s, (s, Err e).
Definition rq_bind {A B} (m : rq_prog A) (k : A → rq_prog B) : rq_prog B :=
  λ s, match m s with (s, Ok a) => k a s | (s, Err e) => (s, Err e) end.
Definition rq_do (f : req_state → req_state) : rq_prog () := λ s, (f s, Ok tt).
Definition rq_lift {E A} (w : E → req_err) (r : res E A) : rq_prog A :=
  match r with Ok a => rq_ret a | Err e => rq_fail (w e) end.

Notation "'let!' x := m 'in' k" := (rq_bind m (λ x, k))
  (at level 10, x name, m at level 100, k at level 200) : go_scope.

Section run.
Context (unicode_alnum : bytes → bool).
Context (clock : nat → bytes) (describe : SkillTool → bytes * metadata)
  (clientFromEnv : list bytes → option Cl) (system : bytes).
Context `{FrontMatter handoffDocFrontMatter} (now : bytes).
(** [PlannerRetryPrompt], and the texts of the other errors. *)
Context (retry_prompt : planning_err → bytes) (err_text : req_err → bytes) (out : outside).

Definition req_error (e : req_err) : bytes :=
  match e with ReqRejected r => rejected_text r | e => err_text e end.

Definition streamSourceOrchestrator : Source := mkSource (s2b "orchestrator") (s2b "orchestrator") [].
Definition EventLLMOutputDelta : bytes := s2b "llm.output.delta".

(** [emitEngineStreamEvent]: the event is given to [Stream.Emit], whose result, an error
    when the stream is closed or a subscriber's context has ended, is dropped. *)
Definition stream_event (eventType status : bytes) (delta : json) (scope : Scope) (md : metadata) : Event :=
  mkEvent eventType streamSourceOrchestrator 0 status (Some (print delta)) 0 zero_time scope md.
Definition emitEngineStreamEvent (eventType status : bytes) (delta : json) (scope : Scope) (md : metadata) : rq_prog () :=
  rq_do (emit_event (stream_event eventType status delta scope md)).
Definition failed_event (text : bytes) (md : metadata) : Event :=
  stream_event EventStatusFailed Event.StatusFailed (jstr text) zero_scope md.

Definition planningHandoffMarkdown (raw : bytes) : res doc_err bytes :=
  if is_empty (TrimSpace raw) then Ok []
  else
    let reasoning := TrimSpace (latestReasoning (ou_turns out)) in
    let body := s2b "Planner produced the bootstrap plan handoff."
      ++ (if is_empty reasoning then [] else eol ++ eol ++ s2b "Reasoning:" ++ eol ++ reasoning) in
    HandoffDoc_Markdown now (mkHandoffDoc
      (mkHandoffFM (mkHeader [] 0 (s2b "orchestrator-plan") now) (s2b "orchestrator") [s2b "runner.bootstrap"]
        (s2b "plan") []) (TrimSpace body)).

Definition ask_planner (n : nat) (prompt : bytes) : rq_prog bytes :=
  let! _u := rq_do (asked prompt) in rq_lift ReqSkill (ou_run out n prompt).

Definition stage_metadata : metadata := Some [(s2b "stage", AStr (s2b "planning"))].

Definition planWithOrchestrator (input : bytes) (skills : list (bytes * bytes)) : rq_prog verdict :=
  let! raw := ask_planner 0 (marshalOrchestratorPlanningInput input skills) in
  let! answer := (match parseOrchestratorPlanningOutput unicode_alnum raw with
                 | Ok v => rq_ret (raw, v)
                 | Err parseErr =>
                     let! raw := ask_planner 1 (retry_prompt parseErr) in
                     let! v := rq_lift ReqAfterRetry (parseOrchestratorPlanningOutput unicode_alnum raw) in
                     rq_ret (raw, v)
                 end) in
  let! handoff := rq_lift ReqHandoff (planningHandoffMarkdown answer.1) in
  let! _u := (if is_empty handoff then rq_ret tt
             else emitEngineStreamEvent EventLLMOutputDelta StatusCompleted (jstr handoff) zero_scope stage_metadata) in
  let! _v := emitEngineStreamEvent EventStatusCompleted StatusCompleted (jstr (s2b "orchestrator planning completed"))
              zero_scope stage_metadata in
  rq_ret answer.2.

(** A bind of the orchestrator's skill with streamed events. *)
Definition DefaultConversationConfig : ConversationConfig := mkConfig DefaultMaxSteps (Some DefaultAutoShrinkConfig) None.
Definition bindOrchestratorSkillWithConfig (fresh_stream : nat) (sk : skill) (client : option Cl) : rq_prog skill :=
  λ s, match (Bind clock describe clientFromEnv system [] fresh_stream (oc_heap (rs_reg s)) (Some sk) client
                (mkRuntime DefaultConversationConfig true None) []).1 with
       | Ok (h, sk) => (set_reg (Registry.set_heap h (rs_reg s)) s, Ok sk)
       | Err e => (s, Err (ReqBind e))
       end.

Definition runtimeOrchestrator (fresh_stream : nat) (sk : skill) (envClient : option Cl) : rq_prog skill :=
  match (match sk_conv sk with Some (c, _) => Some c | None => envClient end) with
  | Some c => bindOrchestratorSkillWithConfig fresh_stream sk (Some c)
  | None => rq_fail ReqUnconfigured
  end.

Definition rejectUnconfiguredPlan : RejectReason :=
  mkReject (s2b "task cannot proceed")
    (s2b "the orchestrator skill is not bound to an llm client, so the request cannot be planned yet") [].

(** [mergeChildStream] and [mergeRunnerStream] of the [k]th stream. *)
Definition mergeChildStream (k : nat) (upstream : option nat) : rq_prog () :=
  match upstream with
  | None => rq_ret tt
  | Some u => match ou_merge out k with Some e => rq_fail (ReqMerge e) | None => rq_do (add_merge u) end
  end.

Definition newRunnerFromPlan (req : Request) (plan : CoarsePlan) (skills : gmap bytes reg) (plannerSkill : skill)
    (summaries : list (bytes * bytes)) : rq_prog request_runner :=
  let! _u := (if is_empty (rq_ArtifactsDir req) then rq_ret tt
             else match ou_mkdir out with Some e => rq_fail (ReqMkdir e) | None => rq_ret tt end) in
  let! nodes := rq_lift ReqNodes (buildPlanNodes req plan skills) in
  rq_ret (mkRRunner (Lifecycle.New (ou_runnerID out) (Some plan) (ou_order out (map_to_list (engine_node <$> nodes))))
    (ou_runnerID out) nodes plannerSkill summaries (planNodeBuilder req skills)).

Definition envClient : rq_prog (option Cl) :=
  λ s, let '(c, r) := resolveEnvClient clientFromEnv (rs_reg s) in (set_reg r s, Ok c).

(** Planning, with the event its errors and rejections add. *)
Definition plan_request (req : Request) (su : startup) (summaries : list (bytes * bytes)) : rq_prog CoarsePlan := λ s,
  match planWithOrchestrator (rq_Input req) summaries s with
  | (s, Err e) => (emit_event (failed_event (req_error e) None) s, Err e)
  | (s, Ok (_, Some reject)) =>
      (emit_event (failed_event (rj_Summary reject) (Some [(s2b "reason", AStr (rj_Analysis reject))])) s,
       Err (ReqRejected reject))
  | (s, Ok (None, None)) => (s, Err ReqNeither)
  | (s, Ok (Some plan, None)) => (s, Ok plan)
  end.

(** The body of [startRequestWithStream], without its deferred call. *)
Definition request_body (req : Request) (su : startup) : rq_prog () :=
  let! client := envClient in
  let! planningSkill := (λ s, match runtimeOrchestrator 0 (su_orchestratorSkill su) client s with
                             | (s, Err ReqUnconfigured) => (s, Err (ReqRejected rejectUnconfiguredPlan))
                             | r => r
                             end) in
  let! _m0 := mergeChildStream 0 (sk_eventStream planningSkill) in
  let! _e0 := emitEngineStreamEvent EventStatusStarted Event.StatusRunning (jstr (s2b "orchestrator planning started"))
               zero_scope None in
  let summaries := collectSkillSummaries (sr_Skill <$> su_skillConfigs su) in
  let! plan := plan_request req su summaries in
  let! plannerSkill := bindOrchestratorSkillWithConfig 1 (su_orchestratorSkill su) (fst <$> sk_conv planningSkill) in
  let! _m1 := mergeChildStream 1 (sk_eventStream plannerSkill) in
  let! r := newRunnerFromPlan req plan (su_skillConfigs su) plannerSkill summaries in
  let! _m2 := mergeChildStream 2 (Some 2%nat) in
  let! _a := rq_do (add_runner r) in
  let! _e1 := emitEngineStreamEvent EventStatusProgress Event.StatusRunning
    (JObj [field "message" (jstr (s2b "runner created")); field "runner_id" (jstr (rr_ID r))])
    (mkScope [] (rr_ID r) [] []) None in
  match ou_submit out with
  | Some e => rq_fail (ReqSubmit e)
  | None => rq_do (submitted (rr_ID r, rq_Priority req))
  end.

Definition startRequestWithStream (req : Request) (su : startup) : rq_prog () := λ s,
  match request_body req su s with
  | (s, Ok u) => (s, Ok u)
  | (s, Err e) => (stopStreamMerges s, Err e)
  end.

(** The goroutine that [StartRequest] leaves behind. *)
Definition run_request (req : Request) (su : startup) (s : req_state) : req_state :=
  match startRequestWithStream req su s with
  | (s, Ok _) => s
  | (s, Err e) => emit_event (failed_event (req_error e) None) s
  end.
End run.

(** [StartRequest] up to its goroutine; [subscribed] is the error of the event log's
    subscription, if there is a log and it fails. *)
Definition StartRequest (req : Request) (subscribed : option bytes) (o : registry) : res req_err startup * registry :=
  if negb (valid (rq_Priority req)) then (Err ReqPriority, o)
  else
    let '(su, o) := begin_request o in
    match subscribed with Some e => (Err (ReqSubscribe e), o) | None => (Ok su, o) end.
End Request.
