(* ===== verification/RequestFacts.v ===== *)
(** What requests promise ([Request.v]): a plan becomes nodes exactly when it is
    well formed, and the nodes are the plan's ([plan_nodes]); every request ends in
    a submitted runner or in a terminal event of the orchestrator
    ([request_settles]). *)
From S2P Require Import Prelude Json GoText Text Event Path Os Workspace Channel Policy Log Session Conversation ConversationFacts Skill Registry RunnerWorkspace Agent Bundle Plan Record EventLog Engine Lifecycle Describe RequestLog AgentFacts Request.

(** ** Nodes of a plan *)

Section nodes.
Context {St : Type} {store : SessionStore St} {Cl : Type}.
Notation reg := (@SkillRegistration St Cl conv_config).
Notation plan_node := (@plan_node St Cl).
Context (req : Request) (skills : gmap bytes reg).
Implicit Types (nodes m : gmap bytes plan_node) (st : CoarsePlanNode) (id p : bytes).

(** The node of a step, when its skill is registered. *)
Definition node_of st : option plan_node :=
  cfg ← skills !! pn_SkillName st;
  sk ← sr_Skill cfg;
  let task := if is_empty (pn_TaskDescription st) then rq_Input req else pn_TaskDescription st in
  Some (mkPlanNode (pn_ID st) (pn_SkillName st) task
    (NewAgent sk (mkPlanner (pn_ID st) task (rq_Input req) (rq_ArtifactsDir req) [] [] 0)
       (conversationConfigForNode (sr_Config cfg)) (sr_Client cfg)) []).

Definition usable st : Prop := pn_ID st ≠ [] ∧ pn_SkillName st ≠ [] ∧ is_Some (node_of st).

(** A plan that can be run: steps with different names, registered skills and
    parents among the steps. *)
Record plan_ok (steps : list CoarsePlanNode) : Prop := {
  po_some : steps ≠ [];
  po_ids : NoDup (pn_ID <$> steps);
  po_usable : Forall usable steps;
  po_parents st p : st ∈ steps → p ∈ pn_DependsOn st → p ∈ pn_ID <$> steps }.

Definition add_parents (ps : list bytes) (n : plan_node) : plan_node :=
  mkPlanNode (nd_Id n) (nd_SkillName n) (nd_TaskDescription n) (nd_Agent n) (nd_Parents n ++ ps).

Lemma build_node_spec nodes st :
  match build_node req skills nodes st with
  | Ok n => usable st ∧ nodes !! pn_ID st = None ∧ node_of st = Some n
  | Err _ => ¬ (usable st ∧ nodes !! pn_ID st = None)
  end.
Proof.
  unfold build_node, usable, node_of.
  destruct (pn_ID st) as [|c i] eqn:Hi; cbn [is_empty]; [naive_solver|]. rewrite <- Hi.
  destruct (nodes !! pn_ID st); [naive_solver|].
  destruct (pn_SkillName st) as [|c' k] eqn:Hk; cbn [is_empty]; [naive_solver|]. rewrite <- Hk.
  destruct (skills !! pn_SkillName st) as [cfg|]; cbn; [|by intros [(_&_&[]) _]].
  destruct (sr_Skill cfg) as [sk|]; cbn; [|by intros [(_&_&[]) _]].
  rewrite Hi, Hk. split_and!; [done..|by eexists|done|done].
Qed.

Lemma build_nodes_spec steps nodes :
  match build_nodes req skills nodes steps with
  | Ok nodes' => NoDup (pn_ID <$> steps) ∧ Forall usable steps ∧ (∀ st, st ∈ steps → nodes !! pn_ID st = None)
      ∧ (∀ st, st ∈ steps → nodes' !! pn_ID st = node_of st)
      ∧ (∀ id, id ∉ pn_ID <$> steps → nodes' !! id = nodes !! id)
  | Err _ => ¬ (NoDup (pn_ID <$> steps) ∧ Forall usable steps ∧ ∀ st, st ∈ steps → nodes !! pn_ID st = None)
  end.
Proof.
  revert nodes. induction steps as [|st steps IH]; intros nodes; cbn [build_nodes].
  { split_and!; [constructor|constructor|by intros ? []%not_elem_of_nil..|done]. }
  pose proof (build_node_spec nodes st) as Hn. destruct (build_node req skills nodes st) as [n|e]; cbn.
  2: { intros (_&Hu&Ha). apply Hn. split; [by apply List.Forall_cons_iff in Hu as [? _]|apply Ha, list_elem_of_here]. }
  destruct Hn as (Hu&Hnone&Hof). specialize (IH (<[pn_ID st := n]> nodes)).
  destruct (build_nodes _ _ _ _) as [nodes'|e].
  - destruct IH as (Hnd&Hus&Habs&Hin&Hout).
    assert (pn_ID st ∉ pn_ID <$> steps) as Hfresh.
    { intros (st'&E&Hst')%list_elem_of_fmap. specialize (Habs st' Hst'). rewrite <- E, lookup_insert_eq in Habs. done. }
    split_and!; [by constructor|by constructor|..].
    + intros st' [->|Hst']%elem_of_cons; [done|]. specialize (Habs st' Hst').
      by apply lookup_insert_None in Habs as [? _].
    + intros st' [->|Hst']%elem_of_cons; [|by apply Hin]. rewrite Hout by done. by rewrite lookup_insert_eq.
    + intros id Hid. apply not_elem_of_cons in Hid as [Hne Hid]. rewrite Hout by done. by rewrite lookup_insert_ne.
  - intros (Hnd&Hus&Habs). apply IH. apply NoDup_cons in Hnd as [Hfresh Hnd].
    apply List.Forall_cons_iff in Hus as [_ Hus]. split_and!; [done..|].
    intros st' Hst'. rewrite lookup_insert_ne; [apply Habs; by right|].
    intros E. apply Hfresh. rewrite E. by apply list_elem_of_fmap_2.
Qed.

Lemma link_parents_spec id ps nodes :
  match link_parents id ps nodes with
  | Ok nodes' => Forall (λ p, is_Some (nodes !! p)) ps ∧ nodes' = alter (add_parents ps) id nodes
  | Err _ => ¬ Forall (λ p, is_Some (nodes !! p)) ps
  end.
Proof.
  revert nodes. induction ps as [|p ps IH]; intros nodes; cbn [link_parents].
  { split; [constructor|]. apply map_eq. intros q. destruct (decide (q = id)) as [->|Hne]; [|by rewrite lookup_alter_ne].
    rewrite lookup_alter_eq. destruct (nodes !! id) as [[]|]; cbn; [|done]. unfold add_parents. cbn. by rewrite app_nil_r. }
  destruct (nodes !! p) as [np|] eqn:Hp.
  2: { intros Hf. apply List.Forall_cons_iff in Hf as [[? E] _]. by rewrite Hp in E. }
  specialize (IH (alter (add_parent p) id nodes)).
  assert (∀ q, is_Some (alter (add_parent p) id nodes !! q) ↔ is_Some (nodes !! q)) as Hdom.
  { intros q. destruct (decide (q = id)) as [->|Hne]; [by rewrite lookup_alter_eq, fmap_is_Some|by rewrite lookup_alter_ne]. }
  destruct (link_parents _ _ _) as [nodes'|e].
  - destruct IH as [Hf ->]. split.
    + constructor; [by eexists|]. eapply List.Forall_impl; [|exact Hf]. intros q. apply Hdom.
    + apply map_eq. intros q. destruct (decide (q = id)) as [->|Hne]; [|by rewrite !lookup_alter_ne].
      rewrite !lookup_alter_eq. destruct (nodes !! id); cbn; [|done]. unfold add_parents, add_parent. cbn.
      by rewrite <- app_assoc.
  - intros Hf. apply List.Forall_cons_iff in Hf as [_ Hf]. apply IH.
    eapply List.Forall_impl; [|exact Hf]. intros q. apply Hdom.
Qed.

Lemma link_nodes_spec steps nodes : NoDup (pn_ID <$> steps) →
  match link_nodes steps nodes with
  | Ok nodes' => (∀ st p, st ∈ steps → p ∈ pn_DependsOn st → is_Some (nodes !! p))
      ∧ (∀ st, st ∈ steps → nodes' !! pn_ID st = add_parents (pn_DependsOn st) <$> nodes !! pn_ID st)
      ∧ (∀ id, id ∉ pn_ID <$> steps → nodes' !! id = nodes !! id)
  | Err _ => ∃ st p, st ∈ steps ∧ p ∈ pn_DependsOn st ∧ nodes !! p = None
  end.
Proof.
  revert nodes. induction steps as [|st steps IH]; intros nodes Hnd; cbn [link_nodes].
  { split_and!; [by intros ?? []%not_elem_of_nil|by intros ? []%not_elem_of_nil|done]. }
  apply NoDup_cons in Hnd as [Hfresh Hnd].
  pose proof (link_parents_spec (pn_ID st) (pn_DependsOn st) nodes) as Hp.
  destruct (link_parents _ _ _) as [nodes1|e]; cbn.
  2: { assert (∃ p, p ∈ pn_DependsOn st ∧ nodes !! p = None) as (p&Hin&Hno).
       { apply not_Forall_Exists in Hp; [|intros q; apply is_Some_dec]. apply Exists_exists in Hp as (p&Hin&Hno).
         exists p. split; [done|]. by apply eq_None_not_Some. }
       exists st, p. split; [apply list_elem_of_here|done]. }
  destruct Hp as [Hf ->]. specialize (IH (alter (add_parents (pn_DependsOn st)) (pn_ID st) nodes) Hnd).
  assert (∀ q, is_Some (alter (add_parents (pn_DependsOn st)) (pn_ID st) nodes !! q) ↔ is_Some (nodes !! q)) as Hdom.
  { intros q. destruct (decide (q = pn_ID st)) as [->|Hne]; [by rewrite lookup_alter_eq, fmap_is_Some|by rewrite lookup_alter_ne]. }
  destruct (link_nodes _ _) as [nodes'|e].
  - destruct IH as (Hps&Hin&Hout). split_and!.
    + intros st' p [->|Hst']%elem_of_cons Hp; [by eapply Forall_forall in Hf|]. apply Hdom. by eapply Hps.
    + intros st' [->|Hst']%elem_of_cons.
      * rewrite Hout by done. by rewrite lookup_alter_eq.
      * rewrite Hin by done. rewrite lookup_alter_ne; [done|]. intros E. apply Hfresh. rewrite E. by apply list_elem_of_fmap_2.
    + intros id Hid. apply not_elem_of_cons in Hid as [Hne Hid]. rewrite Hout by done. by rewrite lookup_alter_ne.
  - destruct IH as (st'&p&Hst'&Hp&Hno). exists st', p. split; [by right|]. split; [done|].
    apply eq_None_not_Some. intros Hs. apply eq_None_not_Some in Hno. apply Hno. by apply Hdom.
Qed.
End nodes.

(** ** The request *)

Section request.
Context {St : Type} {store : SessionStore St} {Cl : Type}.
Notation reg := (@SkillRegistration St Cl conv_config).
Notation req_state := (@req_state St Cl).
Notation skill := (Skill (Cl * Conversation St)).
Context (unicode_alnum : bytes → bool) (clock : nat → bytes) (describe : SkillTool → bytes * metadata)
  (clientFromEnv : list bytes → option Cl) (system : bytes).
Context `{FrontMatter handoffDocFrontMatter} (now : bytes).
Context (retry_prompt : planning_err → bytes) (err_text : req_err → bytes) (out : outside).
Implicit Types (s : req_state).

Notation request_runner := (@request_runner St Cl).
Notation rq_prog := (@rq_prog St Cl).
Notation mkStartup := (@mkStartup St Cl conv_config).
#[local] Abbreviation parse_reply := (parseOrchestratorPlanningOutput unicode_alnum).

Section events.
Context `{GoStd}.

Lemma stream_event_terminal ty status delta sc md : ty ≠ EventMergeBundle →
  requestStreamTerminal (stream_event ty status delta sc md)
  = terminal_event (stream_event ty status delta sc md).
Proof.
  intros Hty. unfold requestStreamTerminal, ExpandBundleEvent, is_bundle. cbn [ev_EventType stream_event].
  rewrite bool_decide_eq_false_2 by done. cbn [negb existsb]. apply orb_false_r.
Qed.

Lemma failed_terminal text md : requestStreamTerminal (failed_event text md) = true.
Proof.
  unfold failed_event. rewrite stream_event_terminal; [done|]. by apply (bool_decide_unpack (_ ≠ _)); vm_compute.
Qed.

Lemma other_terminal ty status delta sc md :
  bool_decide (ty ∈ [EventStatusStarted; EventStatusProgress; EventStatusCompleted; EventLLMOutputDelta]) = true →
  requestStreamTerminal (stream_event ty status delta sc md) = false.
Proof.
  intros Hin%bool_decide_eq_true. rewrite stream_event_terminal; unfold terminal_event; cbn [ev_EventType stream_event];
  repeat (apply elem_of_cons in Hin as [->|Hin]; [by apply (bool_decide_unpack _); vm_compute|]);
    by apply elem_of_nil in Hin.
Qed.

(** ** Programs of the goroutine *)

(** What holds when [m] returns, and when it fails. *)
Definition ends_in {A} (m : rq_prog A) s (Q : A → req_state → Prop) (E : req_state → Prop) : Prop :=
  match m s with (s', Ok a) => Q a s' | (s', Err _) => E s' end.

Lemma ends_bind {A B} (m : rq_prog A) (k : A → rq_prog B) s Q E :
  ends_in m s (λ a s', ends_in (k a) s' Q E) E → ends_in (rq_bind m k) s Q E.
Proof. unfold ends_in, rq_bind. by destruct (m s) as [s' [a|e]]. Qed.

Lemma ends_mono {A} (m : rq_prog A) s (Q Q' : A → req_state → Prop) (E E' : req_state → Prop) :
  (∀ a s', Q a s' → Q' a s') → (∀ s', E s' → E' s') → ends_in m s Q E → ends_in m s Q' E'.
Proof. unfold ends_in. destruct (m s) as [s' [a|e]]; auto. Qed.

(** Up to [n] prompts and events that end nothing; no runner, nothing stopped. *)
Record calm (n : nat) s s' : Prop := {
  ca_events : ∃ es, rs_events s' = rs_events s ++ es ∧ Forall (λ e, requestStreamTerminal e = false) es;
  ca_asked : ∃ ps, rs_asked s' = rs_asked s ++ ps ∧ (List.length ps ≤ n)%nat;
  ca_runners : rs_runners s' = rs_runners s;
  ca_submitted : rs_submitted s' = rs_submitted s;
  ca_stopped : rs_stopped s' = rs_stopped s }.

Lemma calm_refl s : calm 0 s s.
Proof. split; try done; exists []; rewrite app_nil_r; split; by try constructor. Qed.
Lemma calm_trans n m s1 s2 s3 : calm n s1 s2 → calm m s2 s3 → calm (n + m) s1 s3.
Proof.
  intros [(e1&H1&F1) (p1&P1&L1) R1 S1 T1] [(e2&H2&F2) (p2&P2&L2) R2 S2 T2]. split; [..|congruence|congruence|congruence].
  - exists (e1 ++ e2). rewrite H2, H1, app_assoc. split; [done|]. by apply Forall_app.
  - exists (p1 ++ p2). rewrite P2, P1, app_assoc, length_app. split; [done|lia].
Qed.
Lemma calm_event ev s : requestStreamTerminal ev = false → calm 0 s (emit_event ev s).
Proof.
  destruct s. intros He. split; try done; cbn; [exists [ev]|exists []; rewrite app_nil_r]; split; try done.
  by apply Forall_singleton.
Qed.
Lemma calm_asked p s : calm 1 s (asked p s).
Proof. destruct s. split; try done; cbn; [exists []; rewrite app_nil_r|exists [p]]; split; try done. Qed.
Lemma calm_reg r s : calm 0 s (set_reg r s).
Proof. destruct s. split; try done; exists []; cbn; rewrite app_nil_r; split; by try constructor. Qed.
Lemma calm_merge u s : calm 0 s (add_merge u s).
Proof. destruct s. split; try done; exists []; cbn; rewrite app_nil_r; split; by try constructor. Qed.

(** [m] is calm whatever its result, which satisfies [Q]. *)
Definition calmly {A} n (m : rq_prog A) (Q : A → Prop) : Prop :=
  ∀ s, ends_in m s (λ a s', Q a ∧ calm n s s') (calm n s).

Lemma calmly_ret {A} (a : A) (Q : A → Prop) : Q a → calmly 0 (rq_ret a) Q.
Proof. intros Ha s. split; [done|apply calm_refl]. Qed.
Lemma calmly_fail {A} e (Q : A → Prop) : calmly 0 (rq_fail e) Q.
Proof. intros s. apply calm_refl. Qed.
Lemma calmly_lift {E A} (w : E → req_err) (x : res E A) : calmly 0 (rq_lift w x) (λ a, x = Ok a).
Proof. destruct x; [by apply calmly_ret|apply calmly_fail]. Qed.
Lemma calmly_le {A} n m (p : rq_prog A) (Q Q' : A → Prop) : (n ≤ m)%nat → (∀ a, Q a → Q' a) → calmly n p Q → calmly m p Q'.
Proof.
  intros Hle HQ Hp s. assert (∀ s', calm n s s' → calm m s s') as Hc.
  { intros s' [He (ps&Hps&Hl) Hr Hs Ht]. split; try done. exists ps. split; [done|lia]. }
  eapply ends_mono; [| |apply Hp]; [|done]. intros a s' [Ha Hs']. split; auto.
Qed.
Lemma calmly_bind {A B} n m (p : rq_prog A) (k : A → rq_prog B) (P : A → Prop) (Q : B → Prop) :
  calmly n p P → (∀ a, P a → calmly m (k a) Q) → calmly (n + m) (rq_bind p k) Q.
Proof.
  intros Hp Hk s. specialize (Hp s). unfold ends_in, rq_bind in *. destruct (p s) as [s1 [a|e]].
  - destruct Hp as [Ha Hc]. specialize (Hk a Ha s1). unfold ends_in in Hk. destruct (k a s1) as [s2 [b|e]].
    + destruct Hk as [Hb Hc']. split; [done|]. by eapply calm_trans.
    + by eapply calm_trans.
  - destruct Hp as [He (ps&Hps&Hl) Hr Hs Ht]. split; try done. exists ps. split; [done|lia].
Qed.
Lemma calmly_do {n} f : (∀ s, calm n s (f s)) → calmly n (rq_do f) (λ _, True).
Proof. intros Hf s. by split. Qed.
Lemma calmly_emit ty status delta sc md :
  bool_decide (ty ∈ [EventStatusStarted; EventStatusProgress; EventStatusCompleted; EventLLMOutputDelta]) = true →
  calmly 0 (emitEngineStreamEvent ty status delta sc md) (λ _, True).
Proof. intros Hty. apply calmly_do. intros s. apply calm_event. by apply other_terminal. Qed.

(** The planner replied with [v] to its first or second prompt. *)
Definition replied (v : verdict) : Prop :=
  ∃ n prompt raw, (n ≤ 1)%nat ∧ ou_run out n prompt = Ok raw ∧ parse_reply raw = Ok v.

Lemma ask_planner_calm n prompt : calmly 1 (ask_planner out n prompt) (λ raw, ou_run out n prompt = Ok raw).
Proof.
  unfold ask_planner. eapply (calmly_bind 1 0); [by apply calmly_do, calm_asked|]. intros _ _. apply calmly_lift.
Qed.

Lemma planWithOrchestrator_calm input skills :
  calmly 2 (planWithOrchestrator unicode_alnum now retry_prompt out input skills) replied.
Proof.
  unfold planWithOrchestrator.
  eapply (calmly_le (1 + (1 + 0))); [lia|by intros v Hv; exact Hv|].
  eapply calmly_bind; [apply ask_planner_calm|]. intros raw Hraw.
  eapply (calmly_bind 1 0 _ _ (λ a, replied a.2)).
  - destruct (parse_reply raw) as [v|pe] eqn:Hv.
    + eapply (calmly_le 0); [lia|by intros a Ha; exact Ha|]. apply calmly_ret. by exists 0%nat, (marshalOrchestratorPlanningInput input skills), raw; split; [lia|].
    + eapply (calmly_bind 1 0); [apply ask_planner_calm|]. intros raw' Hraw'.
      eapply (calmly_bind 0 0); [apply calmly_lift|]. intros v Hv'. apply calmly_ret.
      by exists 1%nat, (retry_prompt pe), raw'; split.
  - intros answer Ha. eapply (calmly_bind 0 0); [apply calmly_lift|]. intros handoff _.
    eapply (calmly_bind 0 0 _ _ (λ _, True)).
    + destruct (is_empty handoff); [by apply calmly_ret|by apply calmly_emit].
    + intros _ _. eapply (calmly_bind 0 0); [by apply calmly_emit|]. intros _ _. by apply calmly_ret.
Qed.

Lemma bind_calm fresh sk client :
  calmly 0 (bindOrchestratorSkillWithConfig clock describe clientFromEnv system fresh sk client) (λ _, True).
Proof.
  intros s. unfold ends_in, bindOrchestratorSkillWithConfig.
  destruct (Bind _ _ _ _ _ _ _ _ _ _ _).1 as [[h sk']|e]; [split; [done|apply calm_reg]|apply calm_refl].
Qed.

Lemma runtime_calm fresh sk env :
  calmly 0 (runtimeOrchestrator clock describe clientFromEnv system fresh sk env) (λ _, True).
Proof. unfold runtimeOrchestrator. destruct (match sk_conv sk with Some (c, _) => Some c | None => env end); [apply bind_calm|apply calmly_fail]. Qed.

Lemma merge_calm k u : calmly 0 (mergeChildStream out k u) (λ _, True).
Proof.
  destruct u as [u|]; cbn; [|by apply calmly_ret].
  destruct (ou_merge out k); [apply calmly_fail|by apply calmly_do, calm_merge].
Qed.

Lemma env_calm : calmly 0 (envClient clientFromEnv) (λ _, True).
Proof. intros s. unfold ends_in, envClient. destruct (resolveEnvClient _ _) as [c r]. split; [done|apply calm_reg]. Qed.

(** The runner that is made of a plan. *)
Definition made_of (req : Request) (skills : gmap bytes reg) (plan : CoarsePlan) (r : request_runner) : Prop :=
  rr_ID r = ou_runnerID out
  ∧ buildPlanNodes req plan skills = Ok (rr_Nodes r)
  ∧ rr_Build r = planNodeBuilder req skills
  ∧ r_plan (rr_runner r) = Some (bind_plan (ou_runnerID out) plan)
  ∧ r_nodes (rr_runner r) = engine_node <$> rr_Nodes r
  ∧ r_phase (rr_runner r) = PhaseCreated ∧ r_threads (rr_runner r) = [].

Lemma new_runner_calm req plan skills planner sums : (∀ l, ou_order out l ≡ₚ l) →
  calmly 0 (newRunnerFromPlan out req plan skills planner sums) (made_of req skills plan).
Proof.
  intros Hord. unfold newRunnerFromPlan. eapply (calmly_bind 0 0 _ _ (λ _, True)).
  { destruct (is_empty _); [by apply calmly_ret|]. destruct (ou_mkdir out); [apply calmly_fail|by apply calmly_ret]. }
  intros _ _. eapply (calmly_bind 0 0); [apply calmly_lift|]. intros nodes Hnodes. apply calmly_ret.
  unfold made_of. cbn [rr_ID rr_Nodes rr_Build rr_runner]. split_and!; [done..| |done|done].
  unfold Lifecycle.New, node_map. cbn [r_nodes].
  rewrite <- (list_to_map_to_list (engine_node <$> nodes)) at 2.
  apply list_to_map_proper; [|apply Hord]. rewrite Hord. apply NoDup_fst_map_to_list.
Qed.

Lemma calmly_then {A B} n (m : rq_prog A) (k : A → rq_prog B) (P : A → Prop) c s0 s Q E :
  calmly n m P → calm c s0 s → (∀ s1, calm (c + n) s0 s1 → E s1) →
  (∀ a s1, P a → calm (c + n) s0 s1 → ends_in (k a) s1 Q E) → ends_in (rq_bind m k) s Q E.
Proof.
  intros Hm Hc HE Hk. apply ends_bind. eapply ends_mono; [| |apply Hm].
  - intros a s1 [Ha Hs1]. apply Hk; [done|]. by eapply calm_trans.
  - intros s1 Hs1. apply HE. by eapply calm_trans.
Qed.

(** A request that failed: nothing is submitted. *)
Definition unsubmitted s s' : Prop :=
  rs_submitted s' = rs_submitted s ∧ ∃ ps, rs_asked s' = rs_asked s ++ ps ∧ (List.length ps ≤ 2)%nat.

Lemma calm_unsubmitted n s s' : (n ≤ 2)%nat → calm n s s' → unsubmitted s s'.
Proof. intros Hn [_ (ps&Hps&Hl) _ Hs _]. split; [done|]. exists ps. split; [done|lia]. Qed.

Lemma plan_request_ends req su sums s0 s : calm 0 s0 s →
  ends_in (plan_request unicode_alnum now retry_prompt err_text out req su sums) s
    (λ plan s', replied (Some plan, None) ∧ calm 2 s0 s') (unsubmitted s0).
Proof.
  intros Hc. unfold plan_request.
  pose proof (planWithOrchestrator_calm (rq_Input req) sums s) as Hp. unfold ends_in in *.
  assert (∀ ev s1, unsubmitted s0 s1 → unsubmitted s0 (emit_event ev s1)) as Hemit by by intros ev [] Hs.
  destruct (planWithOrchestrator _ _ _ _ _ _ s) as [s1 [[p j]|e]].
  - destruct Hp as [Hv H1]. pose proof (calm_trans _ _ _ _ _ Hc H1) as H2.
    pose proof (calm_unsubmitted 2 _ _ (le_n 2) H2) as H3.
    by destruct p as [plan|], j as [j|]; [exact (Hemit _ _ H3)|..|exact (Hemit _ _ H3)|].
  - refine (Hemit _ _ (calm_unsubmitted 2 _ _ (le_n 2) _)). exact (calm_trans _ _ _ _ _ Hc Hp).
Qed.

(** What a request that succeeded has done. *)
Definition launched (req : Request) (skills : gmap bytes reg) s s' : Prop :=
  ∃ plan r, replied (Some plan, None) ∧ made_of req skills plan r
    ∧ rs_runners s' = <[rr_ID r := r]> (rs_runners s)
    ∧ rs_submitted s' = rs_submitted s ++ [(rr_ID r, rq_Priority req)]
    ∧ (∃ es, rs_events s' = rs_events s ++ es ∧ Forall (λ e, requestStreamTerminal e = false) es)
    ∧ (∃ ps, rs_asked s' = rs_asked s ++ ps ∧ (List.length ps ≤ 2)%nat)
    ∧ rs_stopped s' = rs_stopped s.

Lemma request_body_ends req su s : (∀ l, ou_order out l ≡ₚ l) →
  ends_in (request_body unicode_alnum clock describe clientFromEnv system now retry_prompt err_text out req su) s
    (λ _ s', launched req (su_skillConfigs su) s s') (unsubmitted s).
Proof.
  intros Hord. unfold request_body.
  assert (∀ s1, calm 0 s s1 → unsubmitted s s1) as Hu0 by (intros s1; apply calm_unsubmitted; lia).
  assert (∀ s1, calm 2 s s1 → unsubmitted s s1) as Hu2 by (intros s1; by apply calm_unsubmitted).
  eapply (calmly_then 0); [apply env_calm|apply calm_refl|exact Hu0|]. intros client s1 _ C1.
  eapply (calmly_then 0 _ _ (λ _, True)); [|exact C1|exact Hu0|].
  { intros s2. pose proof (runtime_calm 0 (su_orchestratorSkill su) client s2) as Hr. unfold ends_in in *.
    destruct (runtimeOrchestrator _ _ _ _ _ _ _ s2) as [s3 [sk|[]]]; exact Hr. }
  clear client s1 C1. intros planningSkill s1 _ C1.
  eapply (calmly_then 0); [apply merge_calm|exact C1|exact Hu0|]. clear s1 C1. intros _ s1 _ C1.
  eapply (calmly_then 0); [by apply calmly_emit|exact C1|exact Hu0|]. clear s1 C1. intros _ s1 _ C1.
  apply ends_bind. eapply ends_mono; [|by intros s' Hs'; exact Hs'|by apply plan_request_ends].
  clear s1 C1. intros plan s1 [Hplan C1].
  eapply (calmly_then 0); [apply bind_calm|exact C1|exact Hu2|]. clear s1 C1. intros plannerSkill s1 _ C1.
  eapply (calmly_then 0); [apply merge_calm|exact C1|exact Hu2|]. clear s1 C1. intros _ s1 _ C1.
  eapply (calmly_then 0); [by apply new_runner_calm|exact C1|exact Hu2|]. clear s1 C1. intros r s1 Hr C1.
  eapply (calmly_then 0); [apply merge_calm|exact C1|exact Hu2|]. clear s1 C1. intros _ s1 _ C1.
  destruct C1 as [(es&Hes&Fes) (ps&Hps&Lps) Hru Hsu Hst]. destruct s1 as [reg ev me st ru ask sub]. cbn in *.
  unfold rq_bind, rq_do, ends_in. cbn. destruct (ou_submit out); cbn.
  { split; [done|]. by exists ps. }
  exists plan, r. cbn. split_and!; [done|done|by rewrite Hru|by rewrite Hsu| |by exists ps|done].
  eexists. split; [rewrite Hes, <- app_assoc; reflexivity|]. apply Forall_app. split; [done|].
  apply Forall_singleton. by apply other_terminal.
Qed.
End events.
End request.

(** ** Properties *)

(** C35: A plan becomes nodes exactly when it has steps, their ids are different and
    not empty, their skills are registered and their parents are steps of the plan;
    the graph then has one node for each step, with the step's skill, agent and
    parents, the request's input where the step has no task, and every parent in it. *)
Theorem plan_nodes {St} {store : SessionStore St} {Cl} (req : Request) (plan : CoarsePlan)
  (skills : gmap bytes (@SkillRegistration St Cl conv_config)) :
  let steps := default [] (pl_Nodes plan) in
  match buildPlanNodes req plan skills with
  | Ok nodes => plan_ok req skills steps
      ∧ (∀ id, is_Some (nodes !! id) ↔ id ∈ pn_ID <$> steps)
      ∧ (∀ st, st ∈ steps → nodes !! pn_ID st = add_parents (pn_DependsOn st) <$> node_of req skills st)
      ∧ (∀ id n p, nodes !! id = Some n → p ∈ nd_Parents n → is_Some (nodes !! p))
  | Err _ => ¬ plan_ok req skills steps
  end.
Proof.
  cbv zeta. unfold buildPlanNodes. destruct (default [] (pl_Nodes plan)) as [|st0 steps0]; [by intros [? _]|].
  set (steps := st0 :: steps0).
  pose proof (build_nodes_spec req skills steps ∅) as Hb. destruct (build_nodes req skills ∅ steps) as [nodes|e]; cbv beta match.
  2: { intros [_ Hnd Hu _]. apply Hb. split_and!; [done..|]. intros. apply lookup_empty. }
  destruct Hb as (Hnd&Hu&_&Hin&Hout). pose proof (link_nodes_spec steps nodes Hnd) as Hl.
  assert (∀ id, is_Some (nodes !! id) ↔ id ∈ pn_ID <$> steps) as Hdom.
  { intros id. destruct (decide (id ∈ pn_ID <$> steps)) as [Hid|Hid].
    - split; [done|]. intros _. apply list_elem_of_fmap in Hid as (st&->&Hst). rewrite Hin by done.
      by eapply Forall_forall in Hu as (_&_&?).
    - rewrite Hout, lookup_empty by done. split; [by intros []|done]. }
  destruct (link_nodes steps nodes) as [nodes'|e].
  - destruct Hl as (Hps&Hin'&Hout').
    assert (∀ id, is_Some (nodes' !! id) ↔ id ∈ pn_ID <$> steps) as Hdom'.
    { intros id. destruct (decide (id ∈ pn_ID <$> steps)) as [Hid|Hid].
      - split; [done|]. intros _. pose proof (proj2 (Hdom id) Hid) as Hs.
        apply list_elem_of_fmap in Hid as (st&->&Hst). rewrite Hin' by done. by apply fmap_is_Some.
      - rewrite Hout' by done. apply Hdom. }
    split_and!; [|done|by intros st Hst; rewrite Hin', Hin by done|].
    + split; [done|done|done|]. intros st p Hst Hp. apply Hdom. by eapply Hps.
    + intros id n p Hn Hp. assert (id ∈ pn_ID <$> steps) as Hid by (apply Hdom'; by eexists).
      apply list_elem_of_fmap in Hid as (st&->&Hst). rewrite Hin', Hin in Hn by done.
      assert (nd_Parents n = pn_DependsOn st) as Hpar.
      { unfold node_of in Hn. destruct (skills !! pn_SkillName st); [cbn in Hn|done].
        destruct (sr_Skill _); [cbn in Hn|done]. by injection Hn as <-. }
      rewrite Hpar in Hp. apply Hdom', Hdom. by eapply Hps.
  - destruct Hl as (st&p&Hst&Hp&Hno). intros [_ _ _ Hpar]. specialize (Hpar st p Hst Hp).
    apply Hdom in Hpar as [n E]. by rewrite Hno in E.
Qed.

(** C34: Every request comes to an end its caller sees. Either the planner replied
    with a plan to its first or second prompt, the runner made of exactly that plan
    has been registered and submitted once with the request's priority, the streams
    stay merged and the orchestrator has emitted nothing that ends the request's
    event log; or nothing has been submitted, the merges are stopped, and the last
    event it emits is one that ends the log, whether or not the stream still takes
    it. At most two prompts are sent. *)
Theorem request_settles {St} {store : SessionStore St} {Cl} `{GoStd} `{FrontMatter handoffDocFrontMatter}
  (unicode_alnum : bytes → bool) (clock : nat → bytes) (describe : SkillTool → bytes * metadata)
  (clientFromEnv : list bytes → option Cl) (system now : bytes) (retry_prompt : planning_err → bytes)
  (err_text : req_err → bytes) (out : outside) (req : Request) su (s : @req_state St Cl) :
  (∀ l, ou_order out l ≡ₚ l) →
  let s' := run_request unicode_alnum clock describe clientFromEnv system now retry_prompt err_text out req su s in
  launched unicode_alnum out req (su_skillConfigs su) s s'
  ∨ unsubmitted s s' ∧ rs_stopped s' = true
    ∧ ∃ es ev, rs_events s' = es ++ [ev] ∧ requestStreamTerminal ev = true.
Proof.
  intros Hord. cbv zeta. unfold run_request, startRequestWithStream.
  pose proof (request_body_ends unicode_alnum clock describe clientFromEnv system now retry_prompt err_text out req su s Hord)
    as He. unfold ends_in in He.
  destruct (request_body _ _ _ _ _ _ _ _ _ _ _ s) as [s' [[]|e]]; [by left|right].
  destruct s' as [rg ev me st ru ask sub]. split; [exact He|]. split; [done|].
  exists ev. eexists. split; [done|]. apply failed_terminal.
Qed.

(** ** Witness *)

#[local] Existing Instance plain_std.
#[local] Instance request_handoffs : FrontMatter handoffDocFrontMatter := flat_codec (mkHandoffFM zero_header [] [] [] []).
#[local] Instance request_sessions : SessionStore world := json_session_store (s2b "/sessions").

Definition notes_skill : Skill (() * Conversation world) :=
  mkSkill (mkSkillMeta (s2b "notes") [] []) (s2b "Take notes.") None [] DefaultToolSetConfig [] None None.
Definition planner_skill : Skill (() * Conversation world) :=
  mkSkill (mkSkillMeta (s2b "orchestrator") [] []) (s2b "Plan.") None [] DefaultToolSetConfig []
    (Some (tt, sample_conv world)) None.
Definition no_conv : conv_config :=
  mkConvConfig (mkRuntime (mkConfig 0 None None) false None) (mkSource [] [] []) (mkScope [] [] [] []) None.
Definition notes_skills : gmap bytes (@SkillRegistration world () conv_config) :=
  {[ s2b "notes" := mkReg (Some notes_skill) [] true [] (Some tt) no_conv [] ]}.
Definition notes_startup := mkStartup 0 planner_skill notes_skills.
Definition before_request : @req_state world () :=
  mkReq (mkRegistry [] (Some None) true (mkSettings' 0 planner_skill 0 [] ∅) notes_skills []) [] [] false ∅ [] [].

Definition two_steps : CoarsePlan :=
  mkPlan (s2b "go") [] (Some [mkPNode (s2b "a") (s2b "notes") [] []; mkPNode (s2b "b") (s2b "notes") (s2b "sum up") [s2b "a"]]).
(** A planner that talks first and answers when asked again. *)
Definition planner_run (n : nat) (prompt : bytes) : res bytes bytes :=
  match n with O => Ok (s2b "Let me think.") | _ => Ok (print (JObj [field "plan" (plan_json two_steps)])) end.
Definition answers (run : nat → bytes → res bytes bytes) (submit : option bytes) : outside :=
  mkOutside run [] (λ _, None) None (s2b "r1") (λ l, l) submit.
Definition go_request : Request := mkRequest (s2b "go") 2 [].
Definition go_run (run : nat → bytes → res bytes bytes) (submit : option bytes) :=
  run_request (λ _, false) (λ _, zero_time) (λ _, ([], None)) (λ _, None) [] (s2b "2024-01-01T00:00:00Z") (λ _, s2b "again")
    (λ _, s2b "failed") (answers run submit) go_request notes_startup before_request.

Lemma request_settles_witness :
  rs_submitted (go_run planner_run None) = [(s2b "r1", 2)]
  ∧ (launched (λ _, false) (answers planner_run None) go_request notes_skills before_request (go_run planner_run None)
     ∨ unsubmitted before_request (go_run planner_run None) ∧ rs_stopped (go_run planner_run None) = true
       ∧ ∃ es ev, rs_events (go_run planner_run None) = es ++ [ev] ∧ requestStreamTerminal ev = true).
Proof.
  split; [by vm_compute|].
  exact (request_settles (λ _, false) (λ _, zero_time) (λ _, ([], None)) (λ _, None) [] (s2b "2024-01-01T00:00:00Z")
    (λ _, s2b "again") (λ _, s2b "failed") (answers planner_run None) go_request notes_startup before_request (λ l, reflexivity l)).
Defined.

(** ** What surprises *)

Definition is_failed (e : Event) : bool := bool_decide (ev_EventType e = EventStatusFailed).

(** A planner that fails is reported twice, with the same text. *)
Lemma planner_failure_told_twice :
  let s := go_run (λ _ _, Err (s2b "down")) None in
  rs_submitted s = [] ∧ ev_Delta <$> List.filter is_failed (rs_events s) = [Some (print (jstr (s2b "failed"))); Some (print (jstr (s2b "failed")))].
Proof. split; by vm_compute. Qed.

(** A runner that cannot be submitted stays registered. *)
Lemma refused_runner_stays :
  let s := go_run planner_run (Some (s2b "closed")) in
  rs_submitted s = [] ∧ bool_decide (is_Some (rs_runners s !! s2b "r1")) = true.
Proof. split; by vm_compute. Qed.

(** Cycles are not among what is checked: such a plan becomes a runner, whose engine
    starts no node and never goes idle. *)
Definition circle : CoarsePlan :=
  mkPlan (s2b "go") [] (Some [mkPNode (s2b "a") (s2b "notes") [] [s2b "b"]; mkPNode (s2b "b") (s2b "notes") [] [s2b "a"]]).
Lemma circle_builds :
  match buildPlanNodes go_request circle notes_skills with
  | Ok nodes => bool_decide ((nd_Parents <$> nodes !! s2b "a") = Some [s2b "b"] ∧ (nd_Parents <$> nodes !! s2b "b") = Some [s2b "a"])
  | Err _ => false
  end = true.
Proof. by vm_compute. Qed.
