(* ===== verification/ConversationStream.v ===== *)
(** The stream output of a conversation ([llm/conversation_stream_events.go],
    [conversation_stream.go], and the sending half of [conversation_send.go] and
    [conversation_run.go]): the events it emits with their shortened texts, streamed
    responses, and the approvals it asks for.

    The provider's transcript is an argument, and so is what the consumer of a
    stream takes and when the context ends. *)
From S2P Require Import Prelude Json GoText Text Event Bundle Policy Log Session Conversation Describe.

(** ** Shortened texts *)

Definition conversationStreamTextLimit : nat := 4096.

Definition compactConversationText (text : bytes) : bytes * bool :=
  if (List.length text <=? conversationStreamTextLimit)%nat then (text, false)
  else (take conversationStreamTextLimit text, true).

Definition compactErrorText (text : bytes) : bytes :=
  let text := Join (Fields text) (s2b " ") in
  if (512 <? List.length text)%nat then take 512 text else text.

(** The value with its strings cut, and whether one was. *)
Fixpoint sanitizeJSONValue (v : any) : any * bool :=
  match v with
  | AStr s => let '(out, cut) := compactConversationText s in (AStr out, cut)
  | AArr items =>
      (AArr ((λ i, (sanitizeJSONValue i).1) <$> items), existsb (λ i, (sanitizeJSONValue i).2) items)
  | AMap es =>
      (AMap ((λ e, (e.1, (sanitizeJSONValue e.2).1)) <$> es), existsb (λ e, (sanitizeJSONValue e.2).2) es)
  | v => (v, false)
  end.

Section texts.
Context `{GoStd}.

Definition compactJSONText (text : bytes) : bytes * bool :=
  match text with
  | [] => ([], false)
  | _ =>
      match (j ← parse text; any_of j) with
      | None => compactConversationText text
      | Some v =>
          let '(sanitized, truncated) := sanitizeJSONValue v in
          match any_json (if truncated then sanitized else v) with
          | None => compactConversationText text
          | Some j =>
              let '(out, textTruncated) := compactConversationText (print j) in
              (out, truncated || textTruncated)
          end
      end
  end.

(** ** Events *)

(** Where a conversation's events go. *)
Record stream_binding := mkBinding { sb_source : Source; sb_scope : Scope; sb_metadata : list (bytes * any) }.

Definition amap (es : list (bytes * any)) : any := AMap (foldl (λ m e, map_set e.1 e.2 m) [] es).

Definition streamMetadata (b : stream_binding) (md : list (bytes * any)) : metadata :=
  match sb_metadata b, md with
  | [], [] => None
  | base, md => Some (foldl (λ m e, map_set e.1 e.2 m) (foldl (λ m e, map_set e.1 e.2 m) [] base) md)
  end.

(** The event, if the conversation has a stream. *)
Definition conv_event (b : option stream_binding) (eventType status : bytes) (delta : any) (md : list (bytes * any))
  : list Event :=
  match b with
  | None => []
  | Some b => [mkEvent eventType (sb_source b) 0 status (print <$> any_json delta) 0 zero_time (sb_scope b)
                 (streamMetadata b md)]
  end.

Definition EventLLMReasoningDelta : bytes := s2b "llm.reasoning.delta".
Definition EventLLMOutput : bytes := s2b "llm.output.delta".
Definition EventLLMToolCallStarted : bytes := s2b "llm.tool_call.started".
Definition EventLLMToolCallCompleted : bytes := s2b "llm.tool_call.completed".
Definition EventLLMToolResultDelta : bytes := s2b "llm.tool_result.delta".
Definition EventToolExecutionStarted : bytes := s2b "tool.execution.started".
Definition EventToolExecutionCompleted : bytes := s2b "tool.execution.completed".
Definition EventToolExecutionFailed : bytes := s2b "tool.execution.failed".
Definition EventToolApprovalRequested : bytes := s2b "tool.approval.requested".
Definition EventToolApprovalResolved : bytes := s2b "tool.approval.resolved".
Definition EventMCPToolCallCompleted : bytes := s2b "mcp.tool.call.completed".

Definition str (k : string) (s : bytes) : list (bytes * any) := [(s2b k, AStr s)].
Definition str_if (k : string) (s : bytes) : list (bytes * any) := if is_empty s then [] else str k s.
Definition flag_if (k : string) (b : bool) : list (bytes * any) := if b then [(s2b k, ABool true)] else [].

Definition auditCategoryMetadata : list (bytes * any) := str "category" (s2b "audit").
Definition streamStatusForError {E} (err : option E) : bytes :=
  match err with Some _ => StatusFailed | None => StatusCompleted end.

Definition emitTextDelta (b : option stream_binding) (eventType status text : bytes) : list Event :=
  match text with
  | [] => []
  | _ =>
      let '(delta, truncated) :=
        if bool_decide (status = StatusRunning) then compactConversationText text else (text, false) in
      conv_event b eventType status (AStr delta) (flag_if "truncated" truncated)
  end.

Definition toolCallDelta (call : ToolCall) : any :=
  let '(args, truncated) := compactJSONText (tc_Arguments call) in
  amap (str "call_id" (tc_CallID call) ++ str "name" (tc_Name call) ++ str "arguments" args
        ++ flag_if "arguments_truncated" truncated).
Definition emitToolCallStarted (b : option stream_binding) (call : ToolCall) : list Event :=
  conv_event b EventLLMToolCallStarted StatusRunning (toolCallDelta call) auditCategoryMetadata.
Definition emitToolCallCompleted (b : option stream_binding) (call : ToolCall) : list Event :=
  conv_event b EventLLMToolCallCompleted StatusCompleted (toolCallDelta call) auditCategoryMetadata.

Definition toolExecutionDelta (call : ToolCall) (execErr : option bytes) (d : Decision) : any :=
  amap (str "call_id" (tc_CallID call) ++ str "name" (tc_Name call)
    ++ match execErr with Some e => str "error" (compactErrorText e) | None => [] end
    ++ str_if "policy" (d_Policy d) ++ str_if "capability_kind" (cr_Kind (d_Capability d))
    ++ str_if "capability_name" (cr_Name (d_Capability d)) ++ str_if "policy_reason" (d_Reason d)
    ++ str_if "approval_outcome" (d_ApprovalOutcome d) ++ str_if "approval_reason" (d_ApprovalReason d)).
Definition no_decision : Decision := mkDecision (mkRef [] []) [] [] [] [].
Definition emitToolExecutionStarted (b : option stream_binding) (call : ToolCall) : list Event :=
  conv_event b EventToolExecutionStarted StatusRunning (toolExecutionDelta call None no_decision) [].
Definition emitToolExecutionFinished (b : option stream_binding) (call : ToolCall) (execErr : option bytes) (d : Decision)
  : list Event :=
  conv_event b (match execErr with Some _ => EventToolExecutionFailed | None => EventToolExecutionCompleted end)
    (streamStatusForError execErr) (toolExecutionDelta call execErr d) [].

Definition emitLLMFailure (b : option stream_binding) (err : bytes) (stage : string) : list Event :=
  conv_event b EventStatusFailed StatusFailed (amap (str "error" (compactErrorText err)))
    (match stage with EmptyString => [] | _ => str "stage" (s2b "llm_" ++ s2b stage) end).

(** ** The results of tools *)

(** The last call with that id among the turns. *)
Definition call_of (ts : list vturn) (callID : bytes) : option ToolCallPayload :=
  t ← head (List.filter (λ t, bool_decide (tn_Role t = RoleToolCall)
         && match tn_Tool t with Some p => bool_decide (tp_CallID p = callID) | None => false end) (reverse ts));
  tn_Tool t.
Definition toolNameForCallID (ts : list vturn) (callID : bytes) : bytes :=
  match call_of ts callID with Some p => tp_Name p | None => [] end.
Definition toolArgumentsForCallID (ts : list vturn) (callID : bytes) : bytes :=
  match callID with
  | [] => []
  | _ => match call_of ts callID with Some p => tp_Arguments p | None => [] end
  end.

(** [mcp]: the server and the bare name of a tool that an MCP server backs. *)
Definition emitToolResult (b : option stream_binding) (mcp : bytes → option (bytes * bytes)) (ts : list vturn)
    (callID output : bytes) (execErr : option bytes) : list Event :=
  let name := toolNameForCallID ts callID in
  let error := match execErr with Some e => str "error" (compactErrorText e) | None => [] end in
  match (match name with [] => None | _ => match mcp name with Some ([], _) => None | d => d end end) with
  | Some (server, tool) =>
      conv_event b EventMCPToolCallCompleted (streamStatusForError execErr)
        (amap (str "server" server ++ str "tool" tool ++ str "namespaced_name" name ++ str "call_id" callID
               ++ str "arguments_summary" (compactJSONText (toolArgumentsForCallID ts callID)).1
               ++ str "outcome" (match execErr with Some _ => s2b "error" | None => s2b "ok" end) ++ error))
        auditCategoryMetadata
  | None =>
      let '(delta, truncated) := compactConversationText output in
      conv_event b EventLLMToolResultDelta (streamStatusForError execErr)
        (amap (str "call_id" callID ++ str "output" delta ++ str_if "name" name ++ flag_if "truncated" truncated ++ error))
        auditCategoryMetadata
  end.

(** ** Responses *)

(** A response with the fields of the SDK's that are reported. *)
Record provider_response := mkPResponse { pr_ID : bytes; pr_Model : bytes; pr_response : response }.
(** [Response]: the text, the calls and the usage. *)
Record Response := mkResp { re_Text : bytes; re_ToolCalls : list ToolCall; re_Usage : TokenUsage }.

Definition tokenUsageDelta (u : TokenUsage) : any :=
  amap [(s2b "input_tokens", AInt (us_Input u)); (s2b "cached_tokens", AInt (us_Cached u));
        (s2b "output_tokens", AInt (us_Output u)); (s2b "reasoning_tokens", AInt (us_Reasoning u));
        (s2b "total_tokens", AInt (us_Total u))].
Definition emitResponseCompleted (b : option stream_binding) (pr : provider_response) (r : Response) : list Event :=
  conv_event b EventStatusCompleted StatusCompleted
    (amap ([(s2b "has_text", ABool (negb (is_empty (re_Text r))));
            (s2b "tool_call_count", AInt (Z.of_nat (List.length (re_ToolCalls r))));
            (s2b "usage", tokenUsageDelta (re_Usage r))]
           ++ str_if "response_id" (pr_ID pr) ++ str_if "model" (pr_Model pr)))
    (str "stage" (s2b "llm_response")).

(** What one output item emits; [deltas]: whether texts are emitted too. *)
Definition item_events (b : option stream_binding) (cl : client) (deltas : bool) (item : output_item) : list Event :=
  match item with
  | OutMessage parts => if deltas then emitTextDelta b EventLLMOutput StatusCompleted (output_text parts) else []
  | OutCall call => emitToolCallStarted b call ++ emitToolCallCompleted b call
  | OutReasoning texts raw =>
      if deltas then emitTextDelta b EventLLMReasoningDelta StatusCompleted
                       (Join (List.filter (λ s, negb (is_empty s)) texts) Log.newline) else []
  | OutOther => []
  end.

Section conversations.
Context {St : Type} {store : SessionStore St} (clock : nat → bytes).
Notation conversation := (Conversation St).

(** [applyResponseOutput] with its events. *)
Definition apply_response (b : option stream_binding) (cl : client) (deltas : bool) (pr : provider_response) (c : conversation)
  : Response * conversation * list Event :=
  let '(text, calls, c) := applyResponseOutput clock cl (pr_response pr) c in
  let r := mkResp text calls (rp_Usage (pr_response pr)) in
  (r, c, mjoin (item_events b cl deltas <$> rp_Output (pr_response pr)) ++ emitResponseCompleted b pr r).

(** ** Sending *)

Inductive send_err := SendNoClient | SendFailed (e : bytes).
Definition send_text (e : send_err) : bytes :=
  match e with SendNoClient => s2b "llm: conversation has no client" | SendFailed e => e end.

(** [answer] is what the provider makes of the request. *)
Definition Send (b : option stream_binding) (cl : option client) (answer : request → res bytes provider_response)
    (effort : bytes) (c : conversation) : res send_err Response * conversation * list Event :=
  match cl with
  | None => (Err SendNoClient, c, emitLLMFailure b (send_text SendNoClient) "send")
  | Some cl =>
      match answer (buildRequestParams cl effort c) with
      | Err e => (Err (SendFailed e), c, emitLLMFailure b e "send")
      | Ok pr => let '(r, c, evs) := apply_response b cl true pr c in (Ok r, c, evs)
      end
  end.

(** ** Streaming *)

Inductive provider_event :=
| PTextDelta (d : bytes) | PReasoningDelta (d : bytes) | PCompleted (r : provider_response)
| PBroken (type : bytes)                       (* response.failed, response.incomplete *)
| POther.
(** The provider's events, and the transport's error at their end. *)
Record transcript := mkTranscript { tr_events : list provider_event; tr_err : option bytes }.

(** Bit sets. *)
Definition StreamText : Z := 1.
Definition StreamReasoning : Z := 2.
Definition DefaultStreamCategories : Z := Z.lor StreamText StreamReasoning.
Definition Has (s flag : Z) : bool := (Z.land s flag =? flag)%Z.
Definition resolveStreamCategories (s : Z) : Z := if (s =? 0)%Z then DefaultStreamCategories else s.

Inductive StreamEvent := TextDelta (d : bytes) | ReasoningDelta (d : bytes) | StreamErr (e : bytes).
Inductive stream_fail := StreamNoClient | StreamCanceled (e : bytes) | StreamFailed (e : bytes).
Definition fail_text (e : stream_fail) : bytes :=
  match e with StreamNoClient => s2b "llm: conversation has no client" | StreamCanceled e | StreamFailed e => e end.

(** The channel's consumer and the context: whether the [k]th event is taken before
    the context is seen to end, the context's error when the loop has ended and when
    the worker looks again, and whether the final error is taken. *)
Record consumer := mkConsumer {
  cs_takes : nat → bool; cs_ctx : bytes; cs_done_loop : bool; cs_done_worker : bool; cs_takes_err : bool }.

Inductive loop_end := LoopDone (completed : option provider_response) | LoopCanceled | LoopBroken (type : bytes).

(** The loop over the provider's events: its end, the events emitted, and what was
    forwarded; [forward] is absent when nobody listens. *)
Fixpoint stream_loop (b : option stream_binding) (categories : Z) (forward : option (nat → bool)) (k : nat)
    (completed : option provider_response) (evs : list provider_event) : loop_end * list Event * list StreamEvent :=
  match evs with
  | [] => (LoopDone completed, [], [])
  | PTextDelta [] :: evs | PReasoningDelta [] :: evs | POther :: evs => stream_loop b categories forward k completed evs
  | PCompleted r :: evs => stream_loop b categories forward k (Some r) evs
  | PBroken ty :: _ => (LoopBroken ty, [], [])
  | PTextDelta d :: evs =>
      let emitted := emitTextDelta b EventLLMOutput StatusRunning d in
      match forward with
      | Some takes =>
          if Has categories StreamText then
            if takes k then
              let '(e, es, fs) := stream_loop b categories forward (S k) completed evs in (e, emitted ++ es, TextDelta d :: fs)
            else (LoopCanceled, emitted, [])
          else let '(e, es, fs) := stream_loop b categories forward k completed evs in (e, emitted ++ es, fs)
      | None => let '(e, es, fs) := stream_loop b categories forward k completed evs in (e, emitted ++ es, fs)
      end
  | PReasoningDelta d :: evs =>
      let emitted := emitTextDelta b EventLLMReasoningDelta StatusRunning d in
      match forward with
      | Some takes =>
          if Has categories StreamReasoning then
            if takes k then
              let '(e, es, fs) := stream_loop b categories forward (S k) completed evs in (e, emitted ++ es, ReasoningDelta d :: fs)
            else (LoopCanceled, emitted, [])
          else let '(e, es, fs) := stream_loop b categories forward k completed evs in (e, emitted ++ es, fs)
      | None => let '(e, es, fs) := stream_loop b categories forward k completed evs in (e, emitted ++ es, fs)
      end
  end.

Definition stream_failure (b : option stream_binding) (e : bytes) : list Event :=
  conv_event b EventStatusFailed StatusFailed (AStr e) [].

Definition streamResponse (b : option stream_binding) (cl : client) (categories : Z) (tr : transcript)
    (forward : option (nat → bool)) (cs : consumer) (emitFinalText : bool) (c : conversation)
  : res stream_fail Response * conversation * list Event * list StreamEvent :=
  let '(e, es, fs) := stream_loop b (resolveStreamCategories categories) forward 0 None (tr_events tr) in
  let fails text := (Err (StreamFailed text), c, es ++ stream_failure b text, fs) in
  match e with
  | LoopCanceled => (Err (StreamCanceled (cs_ctx cs)), c, es, fs)
  | LoopBroken ty => fails (s2b "llm: stream " ++ ty)
  | LoopDone completed =>
      match tr_err tr with
      | Some e => fails e
      | None =>
          match completed with
          | None =>
              if cs_done_loop cs then (Err (StreamCanceled (cs_ctx cs)), c, es, fs)
              else fails (s2b "llm: stream ended without response.completed")
          | Some pr =>
              let '(r, c, evs) := apply_response b cl false pr c in
              (Ok r, c, es ++ evs
               ++ (if emitFinalText then emitTextDelta b EventLLMOutput StatusCompleted (re_Text r) else []), fs)
          end
      end
  end.

(** [Conversation.Stream] with its worker: what the channel carries until it is
    closed; [None] when the conversation has no client. *)
Definition Conversation_Stream (b : option stream_binding) (cl : option client) (categories : Z) (tr : transcript) (cs : consumer)
    (c : conversation) : option (res stream_fail Response * conversation * list StreamEvent) :=
  match cl with
  | None => None
  | Some cl =>
      let '(r, c, _, fs) := streamResponse b cl categories tr (Some (cs_takes cs)) cs false c in
      let last := match r with
                  | Ok _ => []
                  | Err e => if cs_done_worker cs then [] else if cs_takes_err cs then [StreamErr (fail_text e)] else []
                  end in
      Some (r, c, fs ++ last)
  end.

(** One request of [Run]: streamed when the conversation has a stream. *)
Definition runStep (b : option stream_binding) (cl : client) (answer : request → res bytes provider_response)
    (tr : transcript) (cs : consumer) (effort : bytes) (c : conversation)
  : res bytes Response * conversation * list Event :=
  match b with
  | None => let '(r, c, evs) := Send b (Some cl) answer effort c in
            (match r with Ok r => Ok r | Err e => Err (send_text e) end, c, evs)
  | Some _ => let '(r, c, evs, _) := streamResponse b cl 0 tr None cs true c in
              (match r with Ok r => Ok r | Err e => Err (fail_text e) end, c, evs)
  end.
End conversations.

(** ** Approvals *)

Definition approvalRequestDelta (req : ApprovalRequest) : list (bytes * any) :=
  str "policy" (ar_Policy req) ++ str_if "call_id" (ar_CallID req) ++ str_if "name" (ar_ToolName req)
  ++ str_if "arguments_summary" (ar_ArgumentsSummary req) ++ str_if "capability_kind" (cr_Kind (ar_Capability req))
  ++ str_if "capability_name" (cr_Name (ar_Capability req)) ++ str_if "policy_reason" (ar_Reason req).
Definition approvalResolvedDelta (req : ApprovalRequest) (resp : ApprovalResponse) : list (bytes * any) :=
  approvalRequestDelta req ++ str_if "approval_outcome" (as_Outcome resp) ++ str_if "approval_reason" (as_Reason resp).

Definition emitToolApprovalRequested (b : option stream_binding) (req : ApprovalRequest) : list Event :=
  conv_event b EventToolApprovalRequested StatusPending (amap (approvalRequestDelta req)) [].
Definition emitToolApprovalResolved (b : option stream_binding) (text : policy_err → bytes) (req : ApprovalRequest)
    (resp : ApprovalResponse) (err : option policy_err) : list Event :=
  conv_event b EventToolApprovalResolved (streamStatusForError err) (amap (approvalResolvedDelta req resp))
    (match err with Some e => str "error" (compactErrorText (text e)) | None => [] end).

(** [timeout] is the text of the approval timeout when it is what ended the
    approver's context. *)
Definition requestApproval (b : option stream_binding) (text : policy_err → bytes) (approver : option approvalHandler)
    (timeout : option bytes) (req : ApprovalRequest) : ApprovalResponse * option policy_err * list Event :=
  let asked := emitToolApprovalRequested b req in
  let resolved resp err := (resp, err, asked ++ emitToolApprovalResolved b text req resp err) in
  let denied resp := resolved resp (Some (ApprovalDeniedError (ar_Capability req) (as_Reason resp))) in
  match approver with
  | None => denied (Policy.mkResponse ApprovalOutcomeDeny (s2b "no approver configured"))
  | Some approve =>
      match approve req with
      | (resp, Some e) =>
          match timeout with
          | Some after => denied (Policy.mkResponse ApprovalOutcomeDeny (s2b "approval timed out after " ++ after))
          | None => resolved resp (Some e)
          end
      | (resp, None) =>
          let o := as_Outcome resp in
          if bool_decide (o = ApprovalOutcomeApprove) || bool_decide (o = ApprovalOutcomeApproveForSession)
          then resolved resp None
          else if is_empty o || bool_decide (o = ApprovalOutcomeDeny) then
            denied (Policy.mkResponse (if is_empty o then ApprovalOutcomeDeny else o)
                      (if is_empty (as_Reason resp) then s2b "approval denied" else as_Reason resp))
          else resolved resp (Some (ErrInvalidOutcome o))
      end
  end.

(** The context of a tool call under a conversation. *)
Definition call_context (b : option stream_binding) (text : policy_err → bytes) (approver : option approvalHandler)
    (timeout : option bytes) (call : ToolCall) : call_ctx :=
  mkCtx (mkMeta (tc_CallID call) (tc_Name call) (compactJSONText (tc_Arguments call)).1)
    (Some (λ req, (requestApproval b text approver timeout req).1)).
End texts.
