(* ===== verification/ConversationStreamFacts.v ===== *)
(** What the stream output of a conversation promises ([ConversationStream.v]): how
    a streamed response ends and what its consumer has got by then
    ([stream_ends_as_promised]), that nothing but the approver lets a guarded tool
    run ([approver_decides]), and the bounds of shortened texts
    ([arguments_summary_bound]). *)
From S2P Require Import Prelude Json GoText Text Event Bundle Policy Log LogFacts Record Session Conversation ConversationFacts Describe ConversationStream.

(** ** Streams *)

Section stream.
Context `{GoStd} {St : Type} {store : SessionStore St} (clock : nat → bytes).
Implicit Types (b : option stream_binding) (c : Conversation St) (cs : consumer) (k : nat)
  (evs : list provider_event) (d : bytes) (completed : option provider_response).

(** The consumer fails to take an event only when the context has ended, and a
    context that has ended stays so. *)
Record consumer_ok cs : Prop := {
  co_takes k : cs_takes cs k = false → cs_done_loop cs = true;
  co_done : cs_done_loop cs = true → cs_done_worker cs = true }.

(** What the consumer is to get of the provider's events. *)
Definition delta_for (categories : Z) (e : provider_event) : list StreamEvent :=
  match e with
  | PTextDelta (x :: d) => if Has categories StreamText then [TextDelta (x :: d)] else []
  | PReasoningDelta (x :: d) => if Has categories StreamReasoning then [ReasoningDelta (x :: d)] else []
  | _ => []
  end.
Definition broken (e : provider_event) : bool := match e with PBroken _ => true | _ => false end.
Definition deltas (categories : Z) (evs : list provider_event) : list StreamEvent := mjoin (delta_for categories <$> evs).

(** The last completed response. *)
Definition completion (old : option provider_response) (evs : list provider_event) : option provider_response :=
  foldl (λ o e, match e with PCompleted r => Some r | _ => o end) old evs.

(** The loop, by how it ends. *)
Definition loop_spec (categories : Z) (takes : nat → bool) completed evs (r : loop_end) (fs : list StreamEvent) : Prop :=
  match r with
  | LoopDone o => existsb broken evs = false ∧ o = completion completed evs ∧ fs = deltas categories evs
  | LoopBroken ty => ∃ l1 l2, evs = l1 ++ PBroken ty :: l2 ∧ existsb broken l1 = false ∧ fs = deltas categories l1
  | LoopCanceled => (∃ k, takes k = false) ∧ fs `prefix_of` deltas categories evs
  end.

Lemma loop_spec_skip categories takes completed completed' e evs r fs gs :
  broken e = false → gs = delta_for categories e ++ fs →
  (∀ o, completion completed' o = completion completed (e :: o)) →
  loop_spec categories takes completed' evs r fs → loop_spec categories takes completed (e :: evs) r gs.
Proof.
  intros He -> Hc. destruct r as [o| |ty]; cbn [loop_spec].
  - intros (Hb&->&->). cbn [existsb]. rewrite He, Hb. split_and!; [done|apply Hc|done].
  - intros (Hk&Hf). split; [done|]. unfold deltas. cbn [fmap list_fmap mjoin]. by apply prefix_app.
  - intros (l1&l2&->&Hb&->). exists (e :: l1), l2. cbn [existsb]. rewrite He, Hb. by split_and!.
Qed.

Lemma stream_loop_spec b categories takes k completed evs :
  let '(r, _, fs) := stream_loop b categories (Some takes) k completed evs in
  loop_spec categories takes completed evs r fs.
Proof.
  revert k completed. induction evs as [|e evs IH]; intros k completed; cbn [stream_loop]; [by split_and!|].
  destruct e as [[|x d]|[|x d]|r|ty|].
  - specialize (IH k completed). destruct (stream_loop _ _ _ _ _ _) as [[r es] fs].
    by eapply loop_spec_skip; [..|exact IH].
  - destruct (Has categories StreamText) eqn:Hc; [destruct (takes k) eqn:Ht|].
    + specialize (IH (S k) completed). destruct (stream_loop _ _ _ _ _ _) as [[r es] fs].
      eapply loop_spec_skip; [..|exact IH]; [done| |done]. cbn. by rewrite Hc.
    + split; [by exists k|]. apply prefix_nil.
    + specialize (IH k completed). destruct (stream_loop _ _ _ _ _ _) as [[r es] fs].
      eapply loop_spec_skip; [..|exact IH]; [done| |done]. cbn. by rewrite Hc.
  - specialize (IH k completed). destruct (stream_loop _ _ _ _ _ _) as [[r es] fs].
    by eapply loop_spec_skip; [..|exact IH].
  - destruct (Has categories StreamReasoning) eqn:Hc; [destruct (takes k) eqn:Ht|].
    + specialize (IH (S k) completed). destruct (stream_loop _ _ _ _ _ _) as [[r es] fs].
      eapply loop_spec_skip; [..|exact IH]; [done| |done]. cbn. by rewrite Hc.
    + split; [by exists k|]. apply prefix_nil.
    + specialize (IH k completed). destruct (stream_loop _ _ _ _ _ _) as [[r es] fs].
      eapply loop_spec_skip; [..|exact IH]; [done| |done]. cbn. by rewrite Hc.
  - specialize (IH k (Some r)). destruct (stream_loop _ _ _ _ _ _) as [[r' es] fs].
    by eapply loop_spec_skip; [..|exact IH].
  - exists [], evs. by split_and!.
  - specialize (IH k completed). destruct (stream_loop _ _ _ _ _ _) as [[r es] fs].
    by eapply loop_spec_skip; [..|exact IH].
Qed.

(** Nobody listens: the loop ends the same way. *)
Definition loop_outcome completed evs : loop_end :=
  match List.filter broken evs with PBroken ty :: _ => LoopBroken ty | _ => LoopDone (completion completed evs) end.
Lemma stream_loop_alone b categories k completed evs :
  (stream_loop b categories None k completed evs).1.1 = loop_outcome completed evs.
Proof.
  unfold loop_outcome. revert k completed. induction evs as [|e evs IH]; intros k completed; [done|].
  cbn [stream_loop List.filter]. destruct e as [[|x d]|[|x d]|r|ty|]; cbn [broken]; try done; try (by rewrite IH);
    specialize (IH k completed); by destruct (stream_loop _ _ _ _ _ _) as [[r es] fs].
Qed.
End stream.

(** ** Texts *)

Lemma compactConversationText_bound text :
  (List.length (compactConversationText text).1 ≤ conversationStreamTextLimit)%nat
  ∧ ((compactConversationText text).2 = false → (compactConversationText text).1 = text).
Proof.
  unfold compactConversationText. destruct (_ <=? _)%nat eqn:E; cbn [fst snd].
  - apply Nat.leb_le in E. done.
  - split; [rewrite length_take; lia|done].
Qed.

(** ** Properties *)

(** C36: A stream ends as it is documented to. The channel carries the deltas of the
    selected categories in the provider's order. If it is closed after a clean
    completion, it has carried all of them, and the conversation and the response
    are what [Send] makes of the same response; otherwise the conversation is
    unchanged, and the last event on the channel is the error unless the context
    has ended. *)
Theorem stream_ends_as_promised `{GoStd} {St : Type} {store : SessionStore St} (clock : nat → bytes)
  (b : option stream_binding) (cl : client) (categories : Z) (tr : transcript) (cs : consumer) (effort : bytes)
  (c : Conversation St) : consumer_ok cs →
  let all := deltas (resolveStreamCategories categories) (tr_events tr) in
  match Conversation_Stream clock b (Some cl) categories tr cs c with
  | None => False
  | Some (Ok resp, c', channel) => channel = all ∧ tr_err tr = None ∧ existsb broken (tr_events tr) = false
      ∧ ∃ pr, completion None (tr_events tr) = Some pr
        ∧ (Send clock b (Some cl) (λ _, Ok pr) effort c).1 = (Ok resp, c')
  | Some (Err e, c', channel) => c' = c ∧ ∃ carried, carried `prefix_of` all
      ∧ (channel = carried ++ [StreamErr (fail_text e)] ∧ cs_done_worker cs = false
         ∨ channel = carried ∧ (cs_done_worker cs = true ∨ cs_takes_err cs = false))
  end.
Proof.
  intros [Htakes Hdone]. cbv zeta. unfold Conversation_Stream, streamResponse.
  set (cats := resolveStreamCategories categories).
  pose proof (stream_loop_spec b cats (cs_takes cs) 0 None (tr_events tr)) as Hl.
  destruct (stream_loop b cats (Some (cs_takes cs)) 0 None (tr_events tr)) as [[r es] fs].
  assert (fs `prefix_of` deltas cats (tr_events tr)) as Hpre.
  { destruct r as [o| |ty]; [destruct Hl as (_&_&->); done|apply Hl|]. destruct Hl as (l1&l2&->&_&->).
    unfold deltas. rewrite fmap_app, join_app. by apply prefix_app_r. }
  assert (∀ e : stream_fail, ∃ carried, carried `prefix_of` deltas cats (tr_events tr)
    ∧ (fs ++ (if cs_done_worker cs then [] else if cs_takes_err cs then [StreamErr (fail_text e)] else [])
         = carried ++ [StreamErr (fail_text e)] ∧ cs_done_worker cs = false
       ∨ fs ++ (if cs_done_worker cs then [] else if cs_takes_err cs then [StreamErr (fail_text e)] else []) = carried
         ∧ (cs_done_worker cs = true ∨ cs_takes_err cs = false))) as Herr.
  { intros e. exists fs. split; [done|]. destruct (cs_done_worker cs); [right; rewrite app_nil_r; auto|].
    destruct (cs_takes_err cs); [by left|right; rewrite app_nil_r; auto]. }
  destruct r as [o| |ty].
  - destruct Hl as (Hb&->&->). destruct (tr_err tr) as [e|]; [split; [done|apply Herr]|].
    destruct (completion None (tr_events tr)) as [pr|] eqn:Hc.
    + unfold Send, apply_response. destruct (applyResponseOutput clock cl (pr_response pr) c) as [[text calls] c'] eqn:Ho.
      rewrite app_nil_r. split_and!; [done..|]. exists pr. split; [done|]. by rewrite Ho.
    + destruct (cs_done_loop cs); split; try done; apply Herr.
  - split; [done|apply Herr].
  - split; [done|apply Herr].
Qed.

(** C37: Under a conversation a tool that needs approval runs exactly when the
    conversation has an approver and that approver, asked with the call's id, name
    and arguments, has answered without an error that it approves, once or for the
    session; and the request's two events tell the outcome. *)
Theorem approver_decides `{GoStd} (b : stream_binding) (text : policy_err → bytes) (approver : option approvalHandler)
  (timeout : option bytes) (call : ToolCall) (t : policyTool) (arguments : bytes) (s : pstate) :
  resolvePolicy (ps_policies s) t = ExecPolicyNeedApprove →
  let req := Policy.mkRequest (tc_CallID call) (tc_Name call) (compactJSONText (tc_Arguments call)).1 (pt_ref t)
               ExecPolicyNeedApprove (s2b "capability policy") in
  let ran_it := ran (Execute (call_context (Some b) text approver timeout call) t arguments s).1 in
  (ran_it ↔ ∃ approve resp, approver = Some approve ∧ approve req = (resp, None)
     ∧ as_Outcome resp ∈ [ApprovalOutcomeApprove; ApprovalOutcomeApproveForSession])
  ∧ ∃ ev1 ev2, (requestApproval (Some b) text approver timeout req).2 = [ev1; ev2]
     ∧ ev_EventType ev1 = EventToolApprovalRequested ∧ ev_EventType ev2 = EventToolApprovalResolved
     ∧ (ev_Status ev2 = StatusCompleted ↔ ran_it).
Proof.
  intros Hpol. cbv zeta. unfold Execute. rewrite Hpol.
  rewrite bool_decide_eq_false_2 by by apply (bool_decide_unpack (_ ≠ _)); vm_compute.
  rewrite bool_decide_eq_true_2 by done. unfold RequestApproval, call_context.
  cbn [cx_handler cx_meta cm_CallID cm_ToolName cm_ArgumentsSummary ar_CallID ar_ToolName ar_ArgumentsSummary ar_Capability
    ar_Policy ar_Reason or_meta is_empty].
  set (req := Policy.mkRequest _ _ _ _ _ _).
  assert (StatusFailed ≠ StatusCompleted) as Hst by by apply (bool_decide_unpack (_ ≠ _)); vm_compute.
  unfold requestApproval. destruct approver as [approve|].
  2: { cbn. split; [split; [done|by intros (?&?&?&_)]|]. eexists _, _. split_and!; first [done|by split]. }
  destruct (approve req) as [resp [e|]] eqn:Ha.
  { destruct timeout; cbn; (split; [split; [done|]|]);
      try (intros (f&resp'&[= <-]&E&_); rewrite Ha in E; done); eexists _, _; split_and!; first [done|by split]. }
  destruct (bool_decide (as_Outcome resp = ApprovalOutcomeApprove) || bool_decide (as_Outcome resp = ApprovalOutcomeApproveForSession)) eqn:Ho.
  - cbn [fst snd]. rewrite Ho. unfold run_base.
    assert (as_Outcome resp ∈ [ApprovalOutcomeApprove; ApprovalOutcomeApproveForSession]) as Hin.
    { apply orb_true_iff in Ho as [Ho%bool_decide_eq_true|Ho%bool_decide_eq_true]; rewrite Ho; set_solver. }
    destruct (pt_base t arguments _) as [[out err] rec]. cbn [fst snd ran]. split.
    + split; [|done]. intros _. by exists approve, resp.
    + eexists _, _. cbn. split_and!; try done.
  - assert (¬ ∃ f resp', Some approve = Some f ∧ f req = (resp', None)
      ∧ as_Outcome resp' ∈ [ApprovalOutcomeApprove; ApprovalOutcomeApproveForSession]) as Hno.
    { intros (f&resp'&[= <-]&E&Hin). rewrite Ha in E. injection E as <-. apply orb_false_iff in Ho as [H1 H2].
      apply bool_decide_eq_false in H1, H2. set_solver. }
    destruct (is_empty (as_Outcome resp) || bool_decide (as_Outcome resp = ApprovalOutcomeDeny)); cbn; split;
      try (split; [done|by intros ?%Hno]); eexists _, _; split_and!; first [done|by split].
Qed.

(** The shortened arguments and errors that events carry are bounded, at 4096
    and 512 bytes; and arguments that are not marked as shortened are all there: the
    text itself, or its JSON value printed again. *)
Theorem arguments_summary_bound `{GoStd} (text : bytes) :
  (List.length (compactJSONText text).1 ≤ 4096)%nat ∧ (List.length (compactErrorText text) ≤ 512)%nat
  ∧ ((compactJSONText text).2 = false → (compactJSONText text).1 = text
     ∨ ∃ j v j', parse text = Some j ∧ any_of j = Some v ∧ any_json v = Some j' ∧ (compactJSONText text).1 = print j').
Proof.
  split; [|split].
  - unfold compactJSONText. destruct text as [|x text]; [cbn; lia|].
    destruct (j ← _; any_of j) as [v|]; [|apply compactConversationText_bound].
    destruct (sanitizeJSONValue v) as [w cut]. destruct (any_json _) as [j|]; [|apply compactConversationText_bound].
    pose proof (compactConversationText_bound (print j)) as [Hb _]. by destruct (compactConversationText (print j)).
  - unfold compactErrorText. destruct (512 <? _)%nat eqn:E; [rewrite length_take; lia|]. by apply Nat.ltb_ge in E.
  - unfold compactJSONText. destruct text as [|x text]; [by left|].
    destruct (parse (x :: text)) as [j|] eqn:Hp; cbn [mbind option_bind].
    2: { left. by apply compactConversationText_bound. }
    destruct (any_of j) as [v|] eqn:Hv; [|left; by apply compactConversationText_bound].
    destruct (sanitizeJSONValue v) as [w cut]. destruct cut.
    + destruct (any_json w) as [j'|]; [by destruct (compactConversationText (print j'))|].
      left. by apply compactConversationText_bound.
    + destruct (any_json v) as [j'|] eqn:Hj; [|left; by apply compactConversationText_bound].
      pose proof (compactConversationText_bound (print j')) as [_ Hb]. destruct (compactConversationText (print j')) as [out t].
      cbn [fst snd orb] in *. intros Ht. right. exists j, v, j'. by rewrite Hb.
Qed.

(** ** Witnesses *)

#[local] Existing Instance plain_std.
#[local] Instance stream_sessions : SessionStore world := json_session_store (s2b "/sessions").

Definition stream_client : client := mkClient (s2b "m") [] false (λ _, true).
Definition hello : provider_response :=
  mkPResponse (s2b "1") (s2b "m") (mkResponse [OutMessage [(s2b "output_text", s2b "hello")]] zero_usage).
Definition hello_transcript : transcript :=
  mkTranscript [PTextDelta (s2b "hel"); POther; PReasoningDelta (s2b "hm"); PTextDelta (s2b "lo"); PCompleted hello] None.
Definition patient_consumer : consumer := mkConsumer (λ _, true) [] false false true.

Lemma stream_ends_as_promised_witness :
  match Conversation_Stream sample_clock None (Some stream_client) StreamText hello_transcript patient_consumer (sample_conv world) with
  | Some (Ok _, _, channel) => channel = [TextDelta (s2b "hel"); TextDelta (s2b "lo")]
  | Some (Err _, c, _) => c = sample_conv world
  | None => False
  end.
Proof.
  assert (consumer_ok patient_consumer) as Hc by by split.
  pose proof (stream_ends_as_promised sample_clock None stream_client StreamText hello_transcript patient_consumer []
    (sample_conv world) Hc) as Hs.
  destruct (Conversation_Stream _ _ _ _ _ _ _) as [[[[resp|e] c] channel]|]; [|exact (proj1 Hs)|exact Hs].
  exact (proj1 Hs).
Defined.

Definition lenient : approvalHandler := λ _, (Policy.mkResponse ApprovalOutcomeApprove [], None).
Definition guarded_state : pstate := mkPState {[ pt_ref (echo_tool "bash") := ExecPolicyNeedApprove ]} None.
Definition echo_call : ToolCall := mkCall (s2b "c1") (pt_Name (echo_tool "bash")) (s2b "{}").
Definition plain_binding : stream_binding := mkBinding (mkSource [] [] []) (mkScope [] [] [] []) [].

Lemma approver_decides_witness :
  ran (Execute (call_context (Some plain_binding) (λ _, []) (Some lenient) None echo_call) (echo_tool "bash") (s2b "{}") guarded_state).1.
Proof.
  refine (proj2 (proj1 (approver_decides plain_binding (λ _, []) (Some lenient) None echo_call (echo_tool "bash") (s2b "{}") guarded_state _)) _).
  - by vm_compute.
  - exists lenient, (Policy.mkResponse ApprovalOutcomeApprove []). split_and!; [done|done|]. apply list_elem_of_here.
Defined.

(** The cut takes no notice of runes: it leaves half a character at the end. *)
Lemma cut_through_rune :
  let text := replicate 4095 "a"%char ++ ["195"; "169"]%char in
  last (compactConversationText text).1 = Some "195"%char ∧ (compactConversationText text).2 = true.
Proof. split; by vm_compute. Qed.
