(* ===== verification/Sqlite.v ===== *)
(** The SQLite backend of the request event log and its cursors:
    [store/internal/sqlite/stream_store.go] and [cursor_store.go], and the tables and
    statements of [db/queries.sql.go] they use.

    A table is the list of its rows, in the order they were inserted. The engine is a
    parameter where the statements leave it something to decide: what [LIKE] matches
    ([SqlLike]), the text of a time ([GoTime]), and what it answers to a statement,
    because another connection may hold the database locked. An attempt that meets a
    lock changes nothing, so a call is its last attempt.

    [sqlite_load_exact]: what the statement selects and the filter then keeps is what
    the filter alone would keep of all events; [backends_agree]: a log read through
    SQLite is the log read through files. *)
From Stdlib Require Import Sorted.
From S2P Require Import Prelude Json GoText Text Url Event Bundle Plan PlanFacts Log LogFacts Record EventLog Describe.

(** ** What is outside *)

(** [column LIKE pattern]; a pattern [p%] matches at least what begins with [p],
    whatever wildcards [p] has. *)
Class SqlLike := sql_like : bytes → bytes → bool.
Class SqlLikeLaws `{SqlLike} := { like_prefix p s : HasPrefix s p = true → sql_like (p ++ s2b "%") s = true }.

(** [t.UTC().Format(time.RFC3339Nano)]. *)
Class GoTime := utc_format : bytes → bytes.

(** What the engine answers to a statement. *)
Inductive db_answer := Done | Failed (text : bytes).

Definition isSQLiteLockError `{GoURL} (text : bytes) : bool :=
  let message := ToLower text in
  Contains message (s2b "database is locked") || Contains message (s2b "sqlite_busy")
  || Contains message (s2b "sqlite_locked").

(** ** Tables *)

Record event_row := mkEventRow {
  er_request_id : bytes; er_sequence_number : Z; er_logical_time : Z; er_event_type : bytes;
  er_source_layer : bytes; er_source_id : option bytes; er_source_parent_id : option bytes;
  er_runner_id : option bytes; er_node_id : option bytes; er_session_id : option bytes;
  er_status : bytes; er_timestamp : bytes; er_raw_event_json : bytes }.

Record cursor_row := mkCursorRow {
  cr_request_id : bytes; cr_runner_id : option bytes; cr_checkpoint_sequence : Z;
  cr_event_sequence : Z; cr_updated_at : bytes }.

Record tables := mkTables { t_events : list event_row; t_cursors : gmap bytes cursor_row }.
Definition no_tables : tables := mkTables [] ∅.

Definition nullableString (value : bytes) : option bytes := if is_empty value then None else Some value.

(** [ORDER BY] a number, ascending. *)
Fixpoint insert_by {A} (key : A → Z) (x : A) (l : list A) : list A :=
  match l with
  | [] => [x]
  | y :: l' => if key x <=? key y then x :: l else y :: insert_by key x l'
  end.
Definition order_by {A} (key : A → Z) (l : list A) : list A := foldr (insert_by key) [] l.

(** ** Statements *)

(** The primary key is the request and the number. *)
Definition same_event (r r' : event_row) : bool :=
  bool_decide (er_request_id r = er_request_id r') && (er_sequence_number r =? er_sequence_number r').

Definition InsertRequestStreamEvent (r : event_row) (t : tables) : option tables :=
  if existsb (same_event r) (t_events t) then None else Some (mkTables (t_events t ++ [r]) (t_cursors t)).

Record ListRequestStreamEventsParams := mkListParams {
  lp_RequestID : bytes; lp_FromSequenceNumber : Z; lp_RunnerID : option bytes; lp_NodeID : option bytes;
  lp_SessionID : option bytes; lp_Status : option bytes; lp_EventType : option bytes;
  lp_EventTypePrefix : option bytes; lp_SourceLayer : option bytes; lp_SourceID : option bytes;
  lp_SourceParentID : option bytes }.

(** [? IS NULL OR column = ?]; a column that is [NULL] equals nothing. *)
Definition null_or_eq (param column : option bytes) : bool :=
  match param with None => true | Some p => bool_decide (column = Some p) end.

Definition selected `{SqlLike} (p : ListRequestStreamEventsParams) (r : event_row) : bool :=
  bool_decide (er_request_id r = lp_RequestID p)
  && (lp_FromSequenceNumber p <=? er_sequence_number r)
  && null_or_eq (lp_RunnerID p) (er_runner_id r)
  && null_or_eq (lp_NodeID p) (er_node_id r)
  && null_or_eq (lp_SessionID p) (er_session_id r)
  && null_or_eq (lp_Status p) (Some (er_status r))
  && null_or_eq (lp_EventType p) (Some (er_event_type r))
  && match lp_EventTypePrefix p with None => true | Some q => sql_like (q ++ s2b "%") (er_event_type r) end
  && null_or_eq (lp_SourceLayer p) (Some (er_source_layer r))
  && null_or_eq (lp_SourceID p) (er_source_id r)
  && null_or_eq (lp_SourceParentID p) (er_source_parent_id r).

Definition ListRequestStreamEvents `{SqlLike} (p : ListRequestStreamEventsParams) (t : tables) : list (Z * bytes) :=
  (λ r, (er_sequence_number r, er_raw_event_json r)) <$> order_by er_sequence_number (List.filter (selected p) (t_events t)).

Definition UpsertSnapshotCursor (r : cursor_row) (t : tables) : tables :=
  mkTables (t_events t) (<[cr_request_id r := r]> (t_cursors t)).
Definition GetSnapshotCursor (requestID : bytes) (t : tables) : option cursor_row := t_cursors t !! requestID.

(** ** Events *)

Definition max_int64 : Z := two63 - 1.

Definition validateStoredStreamEvent (e : Event) : option elog_err :=
  if is_empty (scope_RequestID (ev_Scope e)) then Some (ErrMissing (s2b "scope.request_id"))
  else if ev_SequenceNumber e =? 0 then Some (ErrMissing (s2b "sequence_number"))
  else if ev_LogicalTime e =? 0 then Some (ErrMissing (s2b "logical_time"))
  else if max_int64 <? ev_SequenceNumber e then Some (ErrExceeds (s2b "sequence_number"))
  else if max_int64 <? ev_LogicalTime e then Some (ErrExceeds (s2b "logical_time"))
  else if is_empty (ev_EventType e) then Some (ErrMissing (s2b "event_type"))
  else if is_empty (src_Layer (ev_From e)) then Some (ErrMissing (s2b "from.layer"))
  else if is_empty (ev_Status e) then Some (ErrMissing (s2b "status"))
  else if bool_decide (ev_Timestamp e = zero_time) then Some (ErrMissing (s2b "timestamp"))
  else None.

Definition normalizeFrom (from : Z) : Z := if from =? 0 then 1 else from.

Definition mergeLoadScope (scope filterScope : Scope) : Scope :=
  mkScope (or_base (scope_RequestID scope) (scope_RequestID filterScope))
          (or_base (scope_RunnerID scope) (scope_RunnerID filterScope))
          (or_base (scope_NodeID scope) (scope_NodeID filterScope))
          (or_base (scope_SessionID scope) (scope_SessionID filterScope)).

Definition optionalSingleValue (values : list bytes) : option bytes :=
  match values with [v] => if is_empty v then None else nullableString v | _ => None end.
Definition optionalExactEventType (f : Filter) : option bytes :=
  match f_EventTypes f, f_Prefixes f with [v], [] => nullableString v | _, _ => None end.
Definition optionalEventTypePrefix (f : Filter) : option bytes :=
  match f_Prefixes f, f_EventTypes f with [v], [] => nullableString v | _, _ => None end.
Definition optionalSourceLayer (f : Filter) : option bytes :=
  match f_Sources f with [sel] => nullableString (src_Layer sel) | _ => None end.
Definition optionalSourceID (f : Filter) : option bytes :=
  match f_Sources f with [sel] => nullableString (src_ID sel) | _ => None end.
Definition optionalSourceParentID (f : Filter) : option bytes :=
  match f_Sources f with [sel] => nullableString (src_ParentID sel) | _ => None end.

Section stream_store.
Context `{GoStd} `{GoURL} `{SqlLike} `{GoTime}.

Definition event_row_of (e : Event) (raw : bytes) : event_row :=
  mkEventRow (scope_RequestID (ev_Scope e)) (i64 (ev_SequenceNumber e)) (i64 (ev_LogicalTime e)) (ev_EventType e)
    (src_Layer (ev_From e)) (nullableString (src_ID (ev_From e))) (nullableString (src_ParentID (ev_From e)))
    (nullableString (scope_RunnerID (ev_Scope e))) (nullableString (scope_NodeID (ev_Scope e)))
    (nullableString (scope_SessionID (ev_Scope e))) (ev_Status e) (utc_format (ev_Timestamp e)) raw.

(** The error of a row whose key is taken. *)
Definition constraint_failed : bytes := s2b "constraint failed: UNIQUE constraint failed".

Definition exec_stmt (stmt : tables → option tables) (a : db_answer) (t : tables) : res bytes tables :=
  match a with
  | Failed text => Err text
  | Done => match stmt t with Some t' => Ok t' | None => Err constraint_failed end
  end.

Definition ask_stmt {A} (stmt : tables → A) (a : db_answer) (t : tables) : res bytes A :=
  match a with Failed text => Err text | Done => Ok (stmt t) end.

(** The loop of [retryLockedInsert] and [retryLockedLoadEvents]: [None] among the
    answers is a context that ends during the pause; [None] as the result, that the
    loop goes on after the answers given. *)
Fixpoint retry_loop {A} (attempt : db_answer → res bytes A) (more : list (option db_answer)) : option (res elog_err A) :=
  match more with
  | [] => None
  | None :: _ => Some (Err ErrSystem)
  | Some a :: more =>
      match attempt a with
      | Ok x => Some (Ok x)
      | Err text => if negb (isSQLiteLockError text) then Some (Err ErrSystem) else retry_loop attempt more
      end
  end.

Definition retry_locked {A} (attempt : db_answer → res bytes A) (more : list (option db_answer)) (firstErr : bytes)
  : option (res elog_err A) :=
  if negb (isSQLiteLockError firstErr) then Some (Err ErrSystem) else retry_loop attempt more.

Definition sqlite_AppendEvent (a : db_answer) (more : list (option db_answer)) (e : Event) (t : tables)
  : option (res elog_err () * tables) :=
  match validateStoredStreamEvent e with
  | Some err => Some (Err err, t)
  | None =>
      match event_json e with
      | None => Some (Err ErrEncodeEvent, t)
      | Some j =>
          let attempt a := exec_stmt (InsertRequestStreamEvent (event_row_of e (print j))) a t in
          match attempt a with
          | Ok t' => Some (Ok (), t')
          | Err text =>
              match retry_locked attempt more text with
              | None => None
              | Some (Ok t') => Some (Ok (), t')
              | Some (Err err) => Some (Err err, t)
              end
          end
      end
  end.

Definition load_params (scope : Scope) (from : Z) (f : Filter) : ListRequestStreamEventsParams :=
  let loadScope := mergeLoadScope scope (f_Scope f) in
  mkListParams (scope_RequestID scope) (i64 (normalizeFrom from)) (nullableString (scope_RunnerID loadScope))
    (nullableString (scope_NodeID loadScope)) (nullableString (scope_SessionID loadScope))
    (optionalSingleValue (f_Statuses f)) (optionalExactEventType f) (optionalEventTypePrefix f)
    (optionalSourceLayer f) (optionalSourceID f) (optionalSourceParentID f).

(** A filter that only has a scope. *)
Definition scope_filter (scope : Scope) : Filter := mkFilter [] [] [] [] scope.

Fixpoint decode_rows (scope : Scope) (f : Filter) (rows : list (Z * bytes)) : res elog_err (list Event) :=
  match rows with
  | [] => Ok []
  | (seq, raw) :: rows =>
      match decode_event zero_event raw with
      | None => Err (ErrDecodeEntry seq)
      | Some e =>
          let? es := decode_rows scope f rows in
          Ok (if Match (scope_filter scope) e && Match f e then e :: es else es)
      end
  end.

Definition sqlite_LoadEvents (a : db_answer) (more : list (option db_answer)) (scope : Scope) (from : Z) (f : Filter)
  (t : tables) : option (res elog_err (list Event)) :=
  if is_empty (scope_RequestID scope) then Some (Err (ErrMissing (s2b "scope.request_id")))
  else if max_int64 <? from then Some (Ok [])
  else
    let attempt a := ask_stmt (ListRequestStreamEvents (load_params scope from f)) a t in
    match attempt a with
    | Ok rows => Some (decode_rows scope f rows)
    | Err text =>
        match retry_locked attempt more text with
        | None => None
        | Some (Ok rows) => Some (decode_rows scope f rows)
        | Some (Err err) => Some (Err err)
        end
    end.
End stream_store.

(** ** Cursors *)

Section cursors.
Context `{GoStd} `{GoTime}.

Definition validateSnapshotCursor (c : SnapshotCursor) : option elog_err :=
  if is_empty (sc_RequestID c) then Some (ErrMissing (s2b "request_id"))
  else if sc_CheckpointSequence c <? 0 then Some ErrCursorNegative
  else if max_int64 <? sc_EventSequence c then Some (ErrExceeds (s2b "event_sequence"))
  else None.

Definition sqlite_SaveCursor (a : db_answer) (now : bytes) (c : SnapshotCursor) (t : tables) : res elog_err () * tables :=
  match validateSnapshotCursor c with
  | Some err => (Err err, t)
  | None =>
      let c := stamp_cursor now c in
      match a with
      | Failed _ => (Err ErrSystem, t)
      | Done =>
          (Ok (), UpsertSnapshotCursor (mkCursorRow (sc_RequestID c) (nullableString (sc_RunnerID c))
             (sc_CheckpointSequence c) (i64 (sc_EventSequence c)) (utc_format (sc_UpdatedAt c))) t)
      end
  end.

Definition sqlite_LoadCursor (a : db_answer) (requestID : bytes) (t : tables) : res elog_err SnapshotCursor :=
  if is_empty requestID then Err (ErrMissing (s2b "request_id"))
  else
    match a with
    | Failed _ => Err ErrSystem
    | Done =>
        match GetSnapshotCursor requestID t with
        | None => Err ErrCursorNotFound
        | Some r =>
            match time_parse (cr_updated_at r) with
            | None => Err ErrCursorDecode
            | Some updatedAt =>
                if cr_event_sequence r <? 0 then Err ErrCursorDecode
                else Ok (mkCursor (cr_request_id r) (default [] (cr_runner_id r)) (cr_checkpoint_sequence r)
                           (u64 (cr_event_sequence r)) updatedAt)
            end
        end
    end.
End cursors.

(** ** Rows in order *)

Section order_by.
Context {A : Type} (key : A → Z).
Let sorted : list A → Prop := StronglySorted (λ a b, key a ≤ key b).

Lemma insert_by_Forall P x l : P x → Forall P l → Forall P (insert_by key x l).
Proof. intros Hx. induction 1; simpl; [by constructor|]. destruct (_ <=? _); by repeat constructor. Qed.

Lemma insert_by_sorted x l : sorted l → sorted (insert_by key x l).
Proof.
  induction 1 as [|y l Hl IH Hy]; simpl; [by repeat constructor|]. destruct (Z.leb_spec (key x) (key y)).
  - repeat constructor; try done. eapply Forall_impl; [exact Hy|]. simpl. lia.
  - constructor; [done|]. apply insert_by_Forall; [lia|done].
Qed.

Lemma order_by_sorted l : sorted (order_by key l).
Proof. induction l; simpl; [constructor|by apply insert_by_sorted]. Qed.

Lemma insert_by_first x l : Forall (λ y, key x ≤ key y) l → insert_by key x l = x :: l.
Proof. destruct 1 as [|y l Hy _]; simpl; [done|]. by rewrite (proj2 (Z.leb_le _ _)). Qed.

Lemma order_by_id l : sorted l → order_by key l = l.
Proof. induction 1 as [|x l _ IH Hx]; simpl; [done|]. rewrite IH. by apply insert_by_first. Qed.

Lemma insert_by_filter P x l : sorted l →
  List.filter P (insert_by key x l) = (if P x then insert_by key x (List.filter P l) else List.filter P l).
Proof.
  induction 1 as [|y l Hl IH Hy]; simpl; [by destruct (P x)|].
  destruct (Z.leb_spec (key x) (key y)) as [Hk|Hk]; simpl.
  - destruct (P x); [|done]. destruct (P y); simpl; [by rewrite (proj2 (Z.leb_le _ _))|].
    rewrite insert_by_first; [done|]. apply Forall_forall. intros z Hz%list_elem_of_In%filter_In.
    destruct Hz as [Hz%list_elem_of_In _]. rewrite Forall_forall in Hy. specialize (Hy z Hz). lia.
  - rewrite IH. destruct (P x), (P y); simpl; try done. by rewrite (proj2 (Z.leb_gt _ _)).
Qed.

Lemma order_by_filter P l : List.filter P (order_by key l) = order_by key (List.filter P l).
Proof.
  induction l as [|x l IH]; simpl; [done|]. rewrite insert_by_filter by apply order_by_sorted. rewrite IH. by destruct (P x).
Qed.
End order_by.

Lemma order_by_Forall2 {A B} (R : A → B → Prop) key key' l k : (∀ x y, R x y → key x = key' y) →
  Forall2 R l k → Forall2 R (order_by key l) (order_by key' k).
Proof.
  intros Hkey. induction 1 as [|x y l k Hxy _ IH]; simpl; [done|]. revert IH.
  generalize (order_by key l) (order_by key' k). intros l' k'. induction 1 as [|x' y' l' k' Hxy' Hlk IH]; simpl; [by repeat constructor|].
  rewrite (Hkey _ _ Hxy), (Hkey _ _ Hxy'). destruct (_ <=? _); by repeat constructor.
Qed.

Lemma filter_Forall2 {A B} (R : A → B → Prop) P Q l k : (∀ x y, R x y → P x = Q y) →
  Forall2 R l k → Forall2 R (List.filter P l) (List.filter Q k).
Proof. intros HPQ. induction 1 as [|x y l k Hxy _ IH]; simpl; [done|]. rewrite (HPQ _ _ Hxy). destruct (Q y); by try constructor. Qed.

(** ** What the statement selects *)

Section events.
Context `{GoStd} `{GoURL} `{!GoURLLaws} `{!SqlLike} `{!SqlLikeLaws} `{GoTime}.

(** A row and the event it holds. *)
Definition row_holds (r : event_row) (e' : Event) : Prop :=
  ∃ e j, event_fits e ∧ validateStoredStreamEvent e = None ∧ event_json e = Some j ∧ norm_event e = Some e'
    ∧ r = event_row_of e (print j).

(** The columns of a row are the fields of its event. *)
Record columns (r : event_row) (e : Event) : Prop := {
  col_request : er_request_id r = scope_RequestID (ev_Scope e);
  col_sequence : er_sequence_number r = ev_SequenceNumber e;
  col_sequence_max : ev_SequenceNumber e ≤ max_int64;
  col_type : er_event_type r = ev_EventType e;
  col_layer : er_source_layer r = src_Layer (ev_From e);
  col_id : er_source_id r = nullableString (src_ID (ev_From e));
  col_parent : er_source_parent_id r = nullableString (src_ParentID (ev_From e));
  col_runner : er_runner_id r = nullableString (scope_RunnerID (ev_Scope e));
  col_node : er_node_id r = nullableString (scope_NodeID (ev_Scope e));
  col_session : er_session_id r = nullableString (scope_SessionID (ev_Scope e));
  col_status : er_status r = ev_Status e;
  col_raw : decode_event zero_event (er_raw_event_json r) = Some e }.

Lemma validate_sequence e : validateStoredStreamEvent e = None → ev_SequenceNumber e ≤ max_int64.
Proof.
  unfold validateStoredStreamEvent. repeat (destruct (is_empty _); try done).
  all: repeat (destruct (_ =? _); try done); destruct (Z.ltb_spec max_int64 (ev_SequenceNumber e)); try done; lia.
Qed.

Lemma row_holds_columns r e : row_holds r e → columns r e.
Proof.
  intros (e0&j&[Hok Hn0]&Hv&Hj&Hn&->). pose proof (validate_sequence _ Hv) as Hmax.
  assert (0 ≤ ev_SequenceNumber e0) as Hpos by (destruct Hok as (_&_&_&_&_&_&_&_&_&Hs&_); unfold u64_ok in Hs; lia).
  pose proof (decode_event_json _ _ Hok Hj) as Hd. rewrite Hn in Hd. unfold norm_event in Hn.
  destruct (norm_delta _); [|done]. destruct (norm_metadata _); [|done]. cbn in Hn. injection Hn as <-.
  split; try done. cbn. apply i64_small. unfold max_int64 in Hmax. unfold two63 in *. lia.
Qed.

Lemma nullable_match want got : mismatch want got = false → null_or_eq (nullableString want) (nullableString got) = true.
Proof.
  unfold mismatch, nullableString. destruct want as [|c want]; [done|]. cbn [is_empty negb andb]. rewrite negb_false_iff.
  intros <-%bool_decide_eq_true. cbn. by apply bool_decide_eq_true.
Qed.

Lemma exact_match want got : mismatch want got = false → null_or_eq (nullableString want) (Some got) = true.
Proof.
  unfold mismatch, nullableString. destruct want as [|c want]; [done|]. cbn [is_empty negb andb]. rewrite negb_false_iff.
  intros <-%bool_decide_eq_true. cbn. by apply bool_decide_eq_true.
Qed.

(** Every condition of the statement follows from the filter. *)
Lemma match_pushes f e : Match f e = true →
  matchEventType f (ev_EventType e) = true ∧ matchSource f (ev_From e) = true ∧ matchStatus f (ev_Status e) = true
  ∧ matchScope f (ev_Scope e) = true.
Proof. unfold Match. destruct (matchEventType _ _), (matchSource _ _), (matchStatus _ _); done. Qed.

Lemma match_scope f sc : matchScope f sc = true →
  mismatch (scope_RequestID (f_Scope f)) (scope_RequestID sc) = false
  ∧ mismatch (scope_RunnerID (f_Scope f)) (scope_RunnerID sc) = false
  ∧ mismatch (scope_NodeID (f_Scope f)) (scope_NodeID sc) = false
  ∧ mismatch (scope_SessionID (f_Scope f)) (scope_SessionID sc) = false.
Proof. unfold matchScope. by repeat (destruct (mismatch _ _); [done|]). Qed.

Lemma or_base_match x base got : mismatch x got = false → mismatch base got = false → mismatch (or_base x base) got = false.
Proof. by destruct x. Qed.

Lemma pushed_status f s : matchStatus f s = true → null_or_eq (optionalSingleValue (f_Statuses f)) (Some s) = true.
Proof.
  unfold matchStatus, optionalSingleValue. destruct (f_Statuses f) as [|v [|? ?]]; try done. cbn. rewrite orb_false_r.
  intros ->%bool_decide_eq_true. destruct v; [done|]. cbn. by apply bool_decide_eq_true.
Qed.

Lemma pushed_type f s : matchEventType f s = true → null_or_eq (optionalExactEventType f) (Some s) = true
  ∧ match optionalEventTypePrefix f with None => true | Some q => sql_like (q ++ s2b "%") s end = true.
Proof.
  unfold matchEventType, optionalExactEventType, optionalEventTypePrefix.
  destruct (f_EventTypes f) as [|v [|? ?]], (f_Prefixes f) as [|q [|? ?]]; try done; cbn; rewrite ?orb_false_r.
  - intros Hq. split; [done|]. destruct q; [done|]. by apply like_prefix.
  - intros ->%bool_decide_eq_true. split; [|done]. destruct v; [done|]. cbn. by apply bool_decide_eq_true.
Qed.

Lemma pushed_source f src : matchSource f src = true → null_or_eq (optionalSourceLayer f) (Some (src_Layer src)) = true
  ∧ null_or_eq (optionalSourceID f) (nullableString (src_ID src)) = true
  ∧ null_or_eq (optionalSourceParentID f) (nullableString (src_ParentID src)) = true.
Proof.
  unfold matchSource, optionalSourceLayer, optionalSourceID, optionalSourceParentID.
  destruct (f_Sources f) as [|sel [|? ?]]; try done. cbn. rewrite orb_false_r, !andb_true_iff, !negb_true_iff.
  intros [[Hl Hi] Hp]. split_and!; [by apply exact_match|by apply nullable_match..].
Qed.

Lemma selected_match r e scope from f : columns r e → 0 ≤ from ≤ max_int64 → scope_RequestID scope ≠ [] →
  selected (load_params scope from f) r && (Match (scope_filter scope) e && Match f e)
  = bool_decide (er_request_id r = scope_RequestID scope)
    && (negb (ev_SequenceNumber e <? from_first from) && Match (scope_filter scope) e && Match f e).
Proof.
  intros Hc Hfrom Hid. destruct (Match (scope_filter scope) e && Match f e) eqn:Hm.
  2: { rewrite andb_false_r, <- andb_assoc, Hm, andb_false_r. by rewrite andb_false_r. }
  rewrite <- andb_assoc, Hm, !andb_true_r. apply andb_true_iff in Hm as [Hs Hf].
  apply match_pushes in Hs as (_&_&_&Hs), Hf as (Hty&Hsrc&Hst&Hsc). apply match_scope in Hs as (_&Hs1&Hs2&Hs3), Hsc as (_&Hc1&Hc2&Hc3).
  destruct (pushed_type _ _ Hty) as [Ht1 Ht2]. destruct (pushed_source _ _ Hsrc) as (Hl&Hi&Hp).
  destruct Hc. unfold selected, load_params, mergeLoadScope. cbn [lp_RequestID lp_FromSequenceNumber lp_RunnerID lp_NodeID lp_SessionID
    lp_Status lp_EventType lp_EventTypePrefix lp_SourceLayer lp_SourceID lp_SourceParentID scope_RunnerID scope_NodeID scope_SessionID].
  rewrite col_runner0, col_node0, col_session0, col_status0, col_type0, col_layer0, col_id0, col_parent0, col_sequence0.
  rewrite !(nullable_match (or_base _ _)) by by apply or_base_match. rewrite (pushed_status _ _ Hst), Ht1, Ht2, Hl, Hi, Hp, !andb_true_r.
  f_equal. unfold normalizeFrom, from_first. rewrite i64_small by (destruct (_ =? 0); unfold max_int64, two63 in *; lia).
  destruct (Z.leb_spec (if from =? 0 then 1 else from) (ev_SequenceNumber e)), (Z.ltb_spec (ev_SequenceNumber e) (if from =? 0 then 1 else from)); simpl; lia || done.
Qed.

(** ** The events of a request *)

Definition tables_ok (t : tables) : Prop := Forall (λ r, ∃ e, row_holds r e) (t_events t).
Definition of_request (id : bytes) (r : event_row) : bool := bool_decide (er_request_id r = id).
Definition table_frames (t : tables) (id : bytes) : list Event :=
  omap (λ r, decode_event zero_event (er_raw_event_json r)) (List.filter (of_request id) (t_events t)).

(** The events of some rows. *)
Lemma rows_events l : Forall (λ r, ∃ e, row_holds r e) l → ∃ es, Forall2 columns l es.
Proof.
  induction 1 as [|r l [e He] _ [es IH]]; [by exists []|]. exists (e :: es). constructor; [by apply row_holds_columns|done].
Qed.

Lemma omap_columns l es : Forall2 columns l es → omap (λ r, decode_event zero_event (er_raw_event_json r)) l = es.
Proof. induction 1 as [|r e l es Hr _ IH]; [done|]. csimpl. by rewrite (col_raw _ _ Hr), IH. Qed.

Lemma decode_rows_columns scope f l es : Forall2 columns l es →
  decode_rows scope f ((λ r, (er_sequence_number r, er_raw_event_json r)) <$> l)
  = Ok (List.filter (λ e, Match (scope_filter scope) e && Match f e) es).
Proof. induction 1 as [|r e l es Hr _ IH]; [done|]. csimpl. rewrite (col_raw _ _ Hr), IH. cbn. by destruct (_ && _). Qed.

Lemma filter_filter {A} (P Q : A → bool) l : List.filter P (List.filter Q l) = List.filter (λ x, Q x && P x) l.
Proof. induction l as [|x l IH]; simpl; [done|]. destruct (Q x); simpl; by rewrite IH. Qed.

(** What a load finds: the frames of the request by number, of those the ones that
    are not too early and match. *)
Definition found (t : tables) (scope : Scope) (from : Z) (f : Filter) : list Event :=
  List.filter (λ e, negb (ev_SequenceNumber e <? from_first from) && Match (scope_filter scope) e && Match f e)
    (order_by ev_SequenceNumber (table_frames t (scope_RequestID scope))).

Lemma select_rows scope from f l es : 0 ≤ from ≤ max_int64 → scope_RequestID scope ≠ [] → Forall2 columns l es →
  ∃ es', Forall2 columns (List.filter (selected (load_params scope from f)) l) es'
    ∧ List.filter (λ e, Match (scope_filter scope) e && Match f e) es'
      = List.filter (λ e, negb (ev_SequenceNumber e <? from_first from) && Match (scope_filter scope) e && Match f e)
          (omap (λ r, decode_event zero_event (er_raw_event_json r)) (List.filter (of_request (scope_RequestID scope)) l)).
Proof.
  intros Hfrom Hid. induction 1 as [|r e l es Hr _ (es'&IH1&IH2)]; [by exists []|].
  pose proof (selected_match _ _ scope from f Hr Hfrom Hid) as Hs. cbn [List.filter]. unfold of_request at 1.
  destruct (selected _ r) eqn:Hsel.
  - exists (e :: es'). split; [by constructor|]. cbn [List.filter]. rewrite IH2.
    destruct (bool_decide _) eqn:Hreq; cbn [andb] in Hs.
    + csimpl. rewrite (col_raw _ _ Hr). cbn [List.filter]. by rewrite Hs.
    + by rewrite Hs.
  - exists es'. split; [done|]. rewrite IH2. destruct (bool_decide _) eqn:Hreq; cbn [andb] in Hs; [|done].
    csimpl. rewrite (col_raw _ _ Hr). cbn [List.filter]. by rewrite <- Hs.
Qed.

Lemma Forall_order_by {A} (P : A → Prop) key l : Forall P l → Forall P (order_by key l).
Proof. induction 1; simpl; [constructor|by apply insert_by_Forall]. Qed.

Lemma filter_Forall {A} (P : A → Prop) Q l : Forall P l → Forall P (List.filter Q l).
Proof. induction 1 as [|x l Hx _ IH]; simpl; [constructor|]. destruct (Q x); by try constructor. Qed.

Lemma frames_in_order t id : tables_ok t →
  order_by ev_SequenceNumber (table_frames t id)
  = omap (λ r, decode_event zero_event (er_raw_event_json r))
      (List.filter (of_request id) (order_by er_sequence_number (t_events t))).
Proof.
  intros Hok. rewrite order_by_filter. unfold table_frames.
  destruct (rows_events _ (filter_Forall _ (of_request id) _ Hok)) as [es Hes]. rewrite (omap_columns _ _ Hes).
  symmetry. apply omap_columns, order_by_Forall2; [|done]. intros r e Hr. by apply col_sequence.
Qed.

Lemma found_spec t scope from f : tables_ok t → 0 ≤ from ≤ max_int64 → scope_RequestID scope ≠ [] →
  decode_rows scope f (ListRequestStreamEvents (load_params scope from f) t) = Ok (found t scope from f).
Proof.
  intros Hok Hfrom Hid. unfold ListRequestStreamEvents. rewrite <- order_by_filter.
  destruct (rows_events _ (Forall_order_by _ er_sequence_number _ Hok)) as [es Hes].
  destruct (select_rows scope from f _ _ Hfrom Hid Hes) as (es'&Hes'&E).
  rewrite (decode_rows_columns _ _ _ _ Hes'), E. unfold found. by rewrite (frames_in_order _ _ Hok).
Qed.

Lemma found_none t scope from f : tables_ok t → max_int64 < from → found t scope from f = [].
Proof.
  intros Hok Hfrom. unfold found. rewrite (frames_in_order _ _ Hok).
  destruct (rows_events _ (filter_Forall _ (of_request (scope_RequestID scope)) _ (Forall_order_by _ er_sequence_number _ Hok))) as [es Hes].
  rewrite (omap_columns _ _ Hes). clear Hok. induction Hes as [|r e l es Hr _ IH]; [done|]. pose proof (col_sequence_max _ _ Hr).
  assert ((ev_SequenceNumber e <? from_first from) = true) as Hlt.
  { unfold from_first. destruct (Z.eqb_spec from 0); [unfold max_int64, two63 in *; lia|]. apply Z.ltb_lt. lia. }
  cbn [List.filter]. by rewrite Hlt.
Qed.

(** ** Attempts *)

Lemma retry_loop_locked {A} (attempt : db_answer → res bytes A) texts more : (∀ text, attempt (Failed text) = Err text) →
  Forall (λ text, isSQLiteLockError text = true) texts →
  retry_loop attempt ((Some ∘ Failed <$> texts) ++ more) = retry_loop attempt more.
Proof. intros Hf. induction 1 as [|text texts Ht _ IH]; [done|]. csimpl. rewrite Hf, Ht. exact IH. Qed.

(** A call is the loop over all its answers. *)
Lemma append_attempts a more e j t : validateStoredStreamEvent e = None → event_json e = Some j →
  sqlite_AppendEvent a more e t =
  match retry_loop (λ a, exec_stmt (InsertRequestStreamEvent (event_row_of e (print j))) a t) (Some a :: more) with
  | None => None | Some (Ok t') => Some (Ok (), t') | Some (Err err) => Some (Err err, t) end.
Proof.
  intros Hv Hj. unfold sqlite_AppendEvent. rewrite Hv, Hj. cbn [retry_loop]. destruct (exec_stmt _ a t); [done|].
  unfold retry_locked. by destruct (negb _).
Qed.

Lemma load_attempts a more scope from f t : scope_RequestID scope ≠ [] → from ≤ max_int64 →
  sqlite_LoadEvents a more scope from f t =
  match retry_loop (λ a, ask_stmt (ListRequestStreamEvents (load_params scope from f)) a t) (Some a :: more) with
  | None => None | Some (Ok rows) => Some (decode_rows scope f rows) | Some (Err err) => Some (Err err) end.
Proof.
  intros Hid Hfrom. unfold sqlite_LoadEvents. assert (is_empty (scope_RequestID scope) = false) as -> by by destruct (scope_RequestID scope).
  rewrite (proj2 (Z.ltb_ge _ _)) by done. cbn [retry_loop]. destruct (ask_stmt _ a t); [done|].
  unfold retry_locked. by destruct (negb _).
Qed.

(** However it ends, the loop has asked once or got nothing. *)
Lemma retry_loop_ends {A} (attempt : db_answer → res bytes A) answers :
  match retry_loop attempt answers with
  | None => True | Some (Err err) => err = ErrSystem | Some (Ok x) => attempt Done = Ok x ∨ ∃ text, attempt (Failed text) = Ok x end.
Proof.
  induction answers as [|[a|] answers IH]; cbn [retry_loop]; [done| |done]. destruct (attempt a) eqn:E.
  - destruct a; eauto.
  - by destruct (negb _).
Qed.

(** ** The store meets the interface of event logs *)

Lemma append_row e t t' : tables_ok t → event_fits e → validateStoredStreamEvent e = None →
  (∃ j, event_json e = Some j ∧ InsertRequestStreamEvent (event_row_of e (print j)) t = Some t') →
  tables_ok t' ∧ ∃ e', norm_event e = Some e' ∧ ∀ id,
    table_frames t' id = table_frames t id ++ (if bool_decide (id = scope_RequestID (ev_Scope e)) then [e'] else []).
Proof.
  intros Hok [Hev [e' Hn]] Hv (j&Hj&Hi). unfold InsertRequestStreamEvent in Hi. destruct (existsb _ _); [done|]. injection Hi as <-.
  split.
  - unfold tables_ok. cbn. apply Forall_app. split; [done|]. constructor; [|constructor]. exists e', e, j. by split_and!.
  - exists e'. split; [done|]. intros id. unfold table_frames. cbn [t_events]. rewrite List.filter_app, omap_app. f_equal.
    cbn [List.filter]. unfold of_request at 1. cbn [event_row_of er_request_id].
    assert (bool_decide (scope_RequestID (ev_Scope e) = id) = bool_decide (id = scope_RequestID (ev_Scope e))) as ->
      by (apply bool_decide_ext; by split; intros ->).
    destruct (bool_decide _); [|done]. csimpl. by rewrite (decode_event_json _ _ Hev Hj), Hn.
Qed.

Lemma append_result a more e t : match sqlite_AppendEvent a more e t with
  | None => True
  | Some (Err _, t') => t' = t
  | Some (Ok _, t') => validateStoredStreamEvent e = None
      ∧ ∃ j, event_json e = Some j ∧ InsertRequestStreamEvent (event_row_of e (print j)) t = Some t'
  end.
Proof.
  destruct (validateStoredStreamEvent e) eqn:Hv; [by unfold sqlite_AppendEvent; rewrite Hv|].
  destruct (event_json e) as [j|] eqn:Hj; [|by unfold sqlite_AppendEvent; rewrite Hv, Hj].
  rewrite (append_attempts _ _ _ _ _ Hv Hj).
  pose proof (retry_loop_ends (λ a, exec_stmt (InsertRequestStreamEvent (event_row_of e (print j))) a t) (Some a :: more)) as Hr.
  destruct (retry_loop _ _) as [[t'|err]|]; [|done..]. split; [done|]. exists j. split; [done|].
  destruct Hr as [Hr|[text Hr]]; cbn in Hr; [|done]. destruct (InsertRequestStreamEvent _ _); [by injection Hr as <-|done].
Qed.

(** The store of an engine that is never locked, loaded as the code loads it: the one
    call of [LoadEvents] outside the stores, [describe.go:124], gives a scope with a
    request id and nothing else. Loads of any scope are those of [sqlite_LoadEvents]
    and [sqlite_load_exact]; [scope_beyond_request] is where the two backends differ on a
    wider one. *)
#[local] Instance sqlite_event_log : EventLogStore tables := {|
  AppendEvent e t := default (Err ErrSystem, t) (sqlite_AppendEvent Done [] e t);
  LoadEvents id from f t := default (Err ErrSystem) (sqlite_LoadEvents Done [] (mkScope id [] [] []) from f t) |}.

Lemma append_done_returns e t : is_Some (sqlite_AppendEvent Done [] e t).
Proof.
  unfold sqlite_AppendEvent. destruct (validateStoredStreamEvent e); [by eexists|]. destruct (event_json e); [|by eexists].
  cbn [exec_stmt]. destruct (InsertRequestStreamEvent _ _); [by eexists|]. unfold retry_locked.
  assert (isSQLiteLockError constraint_failed = false) as ->; [|by eexists].
  unfold isSQLiteLockError. by rewrite ToLower_ascii.
Qed.

Lemma found_request t id from f : tables_ok t → id ≠ [] → in_order (table_frames t id) →
  found t (mkScope id [] [] []) from f = select_frames from f (table_frames t id).
Proof.
  intros Hok Hid Hord. unfold found, select_frames. cbn [scope_RequestID]. rewrite (order_by_id ev_SequenceNumber) by done. clear Hord.
  unfold table_frames. destruct (rows_events _ (filter_Forall _ (λ _, true) _ Hok)) as [es Hes].
  assert (List.filter (λ _, true) (t_events t) = t_events t) as Hall by (clear; induction (t_events t); simpl; congruence).
  rewrite Hall in Hes. clear Hok Hall. induction Hes as [|r e l es Hr _ IH]; [done|]. cbn [List.filter].
  destruct (of_request id r) eqn:E; [|exact IH]. csimpl. rewrite (col_raw _ _ Hr). cbn [List.filter]. rewrite IH.
  apply bool_decide_eq_true in E.
  assert (Match (scope_filter (mkScope id [] [] [])) e = true) as ->; [|by rewrite andb_true_r].
  unfold Match, matchScope. cbn. unfold mismatch. rewrite <- (col_request _ _ Hr), E, bool_decide_eq_true_2 by done. by rewrite andb_false_r.
Qed.

#[local] Instance sqlite_event_log_laws : EventLogLaws tables.
Proof.
  refine {| log_ok := tables_ok; frames := table_frames |}.
  - intros e t t' Hok Hfit Ha. cbn in Ha. pose proof (append_result Done [] e t) as Hr.
    destruct (append_done_returns e t) as [[r t''] E]. rewrite E in Ha, Hr. cbn in Ha. injection Ha as -> ->.
    destruct Hr as [Hv Hi]. destruct (append_row _ _ _ Hok Hfit Hv Hi) as [Hok' (e'&Hn&Hf)]. split; [done|].
    exists e'. split_and!; [done| |done]. unfold validateStoredStreamEvent in Hv. by destruct (scope_RequestID _).
  - intros e t t' err Hok Ha. cbn in Ha. pose proof (append_result Done [] e t) as Hr.
    destruct (append_done_returns e t) as [[r t''] E]. rewrite E in Ha, Hr. cbn in Ha. injection Ha as -> ->. by subst.
  - intros id from f t Hok Hid Hfrom Hord. assert (id ≠ []) as Hne by (intros ->; by vm_compute in Hid). cbn.
    destruct (Z.ltb_spec max_int64 from) as [Hgt|Hle].
    + rewrite <- found_request, found_none by done. unfold sqlite_LoadEvents. cbn [scope_RequestID]. destruct id; [done|].
      cbn [is_empty]. by rewrite (proj2 (Z.ltb_lt _ _)).
    + rewrite load_attempts by done. cbn [retry_loop ask_stmt]. by rewrite found_spec, found_request.
Defined.

(** ** Properties *)

(** C38: What a load returns is exactly what the filter keeps of the events of the
    request, in the order of their numbers: the conditions pushed into the statement
    never lose an event, and those they leave out are caught. It is returned as soon
    as an attempt does not meet a lock; until then, and when the engine fails, nothing
    else is returned in its place. *)
Theorem sqlite_load_exact t scope from f a more : tables_ok t → 0 ≤ from → scope_RequestID scope ≠ [] →
  sqlite_LoadEvents a more scope from f t ∈ [None; Some (Err ErrSystem); Some (Ok (found t scope from f))]
  ∧ ∀ texts rest, Forall (λ text, isSQLiteLockError text = true) texts →
      Some a :: more = (Some ∘ Failed <$> texts) ++ Some Done :: rest →
      sqlite_LoadEvents a more scope from f t = Some (Ok (found t scope from f)).
Proof.
  intros Hok Hfrom Hid. destruct (Z.ltb_spec max_int64 from) as [Hgt|Hle].
  { assert (sqlite_LoadEvents a more scope from f t = Some (Ok (found t scope from f))) as ->; [|by split; [set_solver|]].
    rewrite found_none by done. unfold sqlite_LoadEvents. destruct (scope_RequestID scope); [done|]. cbn [is_empty].
    by rewrite (proj2 (Z.ltb_lt _ _)). }
  rewrite load_attempts by done. set (attempt := λ a, ask_stmt _ a t). split.
  - pose proof (retry_loop_ends attempt (Some a :: more)) as Hr. destruct (retry_loop _ _) as [[rows|err]|]; [|by subst; set_solver|set_solver].
    destruct Hr as [[= <-]|[text Hr]]; [|done]. rewrite found_spec by done. set_solver.
  - intros texts rest Hlock ->. rewrite retry_loop_locked by done. cbn [retry_loop attempt ask_stmt]. by rewrite found_spec.
Qed.
End events.

(** ** Two backends, one log *)

Section agree.
Context `{GoStd}.

(** Every append succeeds. *)
Fixpoint accept_all {S} {log : EventLogStore S} (es : list Event) (s : S) : option S :=
  match es with
  | [] => Some s
  | e :: es => match AppendEvent e s with (Ok _, s') => accept_all es s' | (Err _, _) => None end
  end.

Definition events_of (id : bytes) : list Event → list Event :=
  List.filter (λ e, bool_decide (scope_RequestID (ev_Scope e) = id)).

(** What a store keeps is a function of what was appended. *)
Lemma accept_all_frames {S} `{EventLogStore S} `{!EventLogLaws S} es (s s' : S) id : log_ok s → Forall event_fits es →
  accept_all es s = Some s' → log_ok s' ∧ frames s' id = frames s id ++ omap norm_event (events_of id es).
Proof.
  intros Hok Hfit. revert s Hok. induction Hfit as [|e es He _ IH]; intros s Hok; cbn [accept_all].
  { intros [= <-]. by rewrite app_nil_r. }
  destruct (AppendEvent e s) as [[[]|err] s1] eqn:Ha; [|done]. intros Hes.
  destruct (append_ok _ _ _ Hok He Ha) as [Hok1 (e'&Hn&_&Hf)]. destruct (IH _ Hok1 Hes) as [Hok' Hf']. split; [done|].
  rewrite Hf', (Hf id), <- app_assoc. f_equal. unfold events_of. cbn [List.filter].
  assert (bool_decide (scope_RequestID (ev_Scope e) = id) = bool_decide (id = scope_RequestID (ev_Scope e))) as ->
    by (apply bool_decide_ext; by split; intros ->).
  destruct (bool_decide _); [|done]. csimpl. by rewrite Hn.
Qed.

Lemma norm_keeps_number e e' : norm_event e = Some e' → ev_SequenceNumber e' = ev_SequenceNumber e.
Proof. unfold norm_event. destruct (norm_delta _); [|done]. destruct (norm_metadata _); [|done]. by intros [= <-]. Qed.

Lemma norm_in_order k es : ascending k es → in_order (omap norm_event es).
Proof.
  intros Ha. assert (Forall (λ e, k < ev_SequenceNumber e) (omap norm_event es) ∧ in_order (omap norm_event es)) as [_ ?]; [|done].
  revert k Ha. induction es as [|e es IH]; intros k; [by repeat constructor|]. intros [[Hk _] Ha]. destruct (IH _ Ha) as [Hf Hs].
  csimpl. destruct (norm_event e) as [e'|] eqn:Hn; csimpl.
  - apply norm_keeps_number in Hn. split; constructor; try done; [lia|..]; (eapply Forall_impl; [exact Hf|]); simpl; lia.
  - split; [|done]. eapply Forall_impl; [exact Hf|]. simpl. lia.
Qed.

Context `{GoURL} `{!GoURLLaws} `{!SqlLike} `{!SqlLikeLaws} `{GoTime}.

(** Numbers SQLite can hold. *)
Definition int64_event (e : Event) : Prop := ev_SequenceNumber e ≤ max_int64 ∧ ev_LogicalTime e ≤ max_int64.

Lemma json_accepts e : validateJSONEventLogEvent e = None → int64_event e → validateStoredStreamEvent e = None.
Proof.
  intros Hv [Hs Hl]. unfold validateJSONEventLogEvent, validateStoredStreamEvent in *. repeat case_match; try done.
  all: match goal with E : (_ <? _) = true |- _ => apply Z.ltb_lt in E; lia end.
Qed.

(** The events of the rows so far: appending a later one meets no other row. *)
Definition rows_of (t : tables) (es : list Event) : Prop :=
  Forall2 (λ e r, ∃ j, event_json e = Some j ∧ r = event_row_of e (print j)) es (t_events t).

Lemma no_conflict t es e j : rows_of t es → Forall event_fits (es ++ [e]) → Forall int64_event (es ++ [e]) →
  ascending 0 (events_of (scope_RequestID (ev_Scope e)) (es ++ [e])) →
  existsb (same_event (event_row_of e j)) (t_events t) = false.
Proof.
  intros Hrows [Hfit He]%Forall_app [Hint Hi]%Forall_app Ha. unfold events_of in Ha. rewrite List.filter_app in Ha.
  apply ascending_app in Ha as [Ha1 Ha2]. cbn [List.filter] in Ha2. rewrite bool_decide_eq_true_2 in Ha2 by done.
  destruct Ha2 as [[Hlast _] _]. apply ascending_bounds in Ha1 as [_ Ha1].
  apply not_true_is_false. intros (r&Hr%list_elem_of_In&Hs)%existsb_exists.
  apply list_elem_of_lookup in Hr as [i Hr]. destruct (Forall2_lookup_r _ _ _ _ _ Hrows Hr) as (e1&He1&j1&_&->).
  unfold same_event in Hs. cbn in Hs. apply andb_true_iff in Hs as [Hid%bool_decide_eq_true Hn%Z.eqb_eq].
  assert (∀ e0, event_fits e0 → int64_event e0 → i64 (ev_SequenceNumber e0) = ev_SequenceNumber e0) as Hi64.
  { intros e0 [(_&_&_&_&_&_&_&_&_&[Hpos _]&_) _] [Hm _]. apply i64_small. unfold max_int64 in Hm. lia. }
  assert (e1 ∈ es) as Hin by by eapply list_elem_of_lookup_2.
  rewrite Forall_forall in Hfit, Hint. apply List.Forall_inv in He, Hi.
  rewrite (Hi64 e He Hi), (Hi64 e1 (Hfit _ Hin) (Hint _ Hin)) in Hn.
  assert (e1 ∈ List.filter (λ e', bool_decide (scope_RequestID (ev_Scope e') = scope_RequestID (ev_Scope e))) es) as Hf.
  { apply list_elem_of_In, filter_In. split; [by apply list_elem_of_In|]. by apply bool_decide_eq_true. }
  rewrite Forall_forall in Ha1. specialize (Ha1 _ Hf). lia.
Qed.

Lemma sqlite_appends_all es : ∀ t pre, rows_of t pre → Forall event_fits (pre ++ es) → Forall int64_event (pre ++ es) →
  (∀ id, ascending 0 (events_of id (pre ++ es))) →
  Forall (λ e, validateJSONEventLogEvent e = None ∧ is_Some (event_json e)) es →
  is_Some (accept_all (log := sqlite_event_log) es t).
Proof.
  induction es as [|e es IH]; intros t pre Hrows Hfit Hint Ha Hv; cbn [accept_all]; [by eexists|].
  inversion_clear Hv as [|?? [Hve [j Hj]] Hvs]. rewrite cons_middle, app_assoc in Hfit, Hint.
  assert (∀ id, ascending 0 (events_of id ((pre ++ [e]) ++ es))) as Ha' by (intros id; by rewrite <- app_assoc).
  pose proof Hfit as [Hfit1 _]%Forall_app. pose proof Hint as [Hint1 He]%Forall_app.
  assert (ascending 0 (events_of (scope_RequestID (ev_Scope e)) (pre ++ [e]))) as Ha1.
  { specialize (Ha' (scope_RequestID (ev_Scope e))). unfold events_of in *. rewrite List.filter_app in Ha'. by apply ascending_app in Ha' as [? _]. }
  assert (validateStoredStreamEvent e = None) as Hs.
  { apply json_accepts; [done|]. by apply Forall_app in Hint1 as [_ ?%List.Forall_inv]. }
  assert (AppendEvent e t = (Ok (), mkTables (t_events t ++ [event_row_of e (print j)]) (t_cursors t))) as ->.
  { cbn. rewrite (append_attempts _ _ _ j) by done. cbn [retry_loop exec_stmt]. unfold InsertRequestStreamEvent. by rewrite (no_conflict t pre e (print j)). }
  apply (IH _ (pre ++ [e])); try done. unfold rows_of. cbn [t_events]. apply Forall2_app; [done|]. constructor; [by exists j|constructor].
Qed.

Lemma json_appends_valid root es : ∀ fs fs', accept_all (log := json_event_log root) es fs = Some fs' →
  Forall (λ e, validateJSONEventLogEvent e = None ∧ is_Some (event_json e)) es.
Proof.
  induction es as [|e es IH]; intros fs fs'; cbn [accept_all]; [constructor|].
  cbn [AppendEvent json_event_log]. unfold JSON_AppendEvent. destruct (validateJSONEventLogEvent e) eqn:Hv; [done|].
  destruct (store_path _ _ _); [|done]. cbn [io_ok io_fine negb]. destruct (event_json e) eqn:Hj; [|done].
  intros Hes. constructor; [|by eapply IH]. rewrite Hj. by split; [|eexists].
Qed.

(** C39: Events that the JSON store of a directory has accepted, with numbers within
    [int64] that ascend within each request, are accepted by SQLite too, and are then
    read through either store alike: every load gives the same events, and every
    replay the same view of the request. *)
Theorem backends_agree root es fs : Forall event_fits es → Forall int64_event es →
  (∀ id, ascending 0 (events_of id es)) → accept_all (log := json_event_log root) es ∅ = Some fs →
  ∃ t, accept_all (log := sqlite_event_log) es no_tables = Some t
  ∧ ∀ id, validateStoreID id = None →
      (∀ from f, 0 ≤ from → LoadEvents (EventLogStore := sqlite_event_log) id from f t
         = LoadEvents (EventLogStore := json_event_log root) id from f fs)
      ∧ ∀ view cursor, ReplayDescribeView (H0 := sqlite_event_log) id view cursor t
         = ReplayDescribeView (H0 := json_event_log root) id view cursor fs.
Proof.
  intros Hfit Hint Ha Hfs. destruct (sqlite_appends_all es no_tables [] (List.Forall2_nil _) Hfit Hint Ha (json_appends_valid _ _ _ _ Hfs)) as [t Ht].
  exists t. split; [done|]. intros id Hid.
  destruct (accept_all_frames (EventLogLaws0 := sqlite_event_log_laws) es no_tables t id (List.Forall_nil _) Hfit Ht) as [Htok Htf].
  assert (files_ok (∅ : files)) as Hnone by (intros p data Hp; by rewrite lookup_empty in Hp).
  destruct (accept_all_frames (EventLogLaws0 := json_event_log_laws root) es ∅ fs id Hnone Hfit Hfs) as [Hfok Hff].
  assert (frames (EventLogLaws := json_event_log_laws root) ∅ id = []) as Hempty.
  { cbn. unfold file_frames. destruct (store_path _ _ _); [|done]. by rewrite lookup_empty. }
  rewrite Hempty in Hff. cbn in Htf, Hff.
  assert (∀ from f, 0 ≤ from → LoadEvents (EventLogStore := sqlite_event_log) id from f t
    = LoadEvents (EventLogStore := json_event_log root) id from f fs) as Hload.
  { intros from f Hfrom. pose proof (norm_in_order 0 _ (Ha id)) as Hord.
    rewrite (load_frames (EventLogLaws := sqlite_event_log_laws)) by (cbn; rewrite ?Htf; done).
    rewrite (load_frames (EventLogLaws := json_event_log_laws root)) by (cbn; rewrite ?Hff; done). cbn. by rewrite Htf, Hff. }
  split; [done|]. intros view cursor. unfold ReplayDescribeView.
  assert (or_base id (sc_RequestID cursor) = id) as -> by (destruct id; [by vm_compute in Hid|done]).
  rewrite Hload; [done|]. destruct (0 <? _); [apply Z.mod_pos_bound|]; done.
Qed.
End agree.

(** ** Cursors *)

(** A cursor that was saved is the one loaded, its time in UTC; nothing else changes. *)
Lemma sqlite_cursor_saved `{GoStd} `{GoTime} a now c t r t' : 0 ≤ sc_EventSequence c →
  time_parse (utc_format (sc_UpdatedAt (stamp_cursor now c))) = Some (utc_format (sc_UpdatedAt (stamp_cursor now c))) →
  sqlite_SaveCursor a now c t = (r, t') →
  match r with
  | Ok _ => sqlite_LoadCursor Done (sc_RequestID c) t'
      = Ok (mkCursor (sc_RequestID c) (sc_RunnerID c) (sc_CheckpointSequence c) (sc_EventSequence c)
              (utc_format (sc_UpdatedAt (stamp_cursor now c))))
      ∧ ∀ id, id ≠ sc_RequestID c → sqlite_LoadCursor Done id t' = sqlite_LoadCursor Done id t
  | Err _ => t' = t
  end.
Proof.
  intros H0' Htime. unfold sqlite_SaveCursor, validateSnapshotCursor. destruct (is_empty (sc_RequestID c)) eqn:Hid; [by intros [= <- <-]|].
  destruct (_ <? 0); [by intros [= <- <-]|]. destruct (Z.ltb_spec max_int64 (sc_EventSequence c)); [by intros [= <- <-]|].
  assert (sc_RequestID (stamp_cursor now c) = sc_RequestID c ∧ sc_RunnerID (stamp_cursor now c) = sc_RunnerID c
    ∧ sc_CheckpointSequence (stamp_cursor now c) = sc_CheckpointSequence c
    ∧ sc_EventSequence (stamp_cursor now c) = sc_EventSequence c) as (E1&E2&E3&E4) by (unfold stamp_cursor; by case_bool_decide).
  destruct a; [|by intros [= <- <-]]. intros [= <- <-]. unfold sqlite_LoadCursor, GetSnapshotCursor, UpsertSnapshotCursor.
  cbn [t_cursors cr_request_id]. rewrite E1, E2, E3, E4. split.
  - rewrite Hid, lookup_insert_eq. cbn. rewrite Htime. unfold max_int64, two63 in *. rewrite i64_small by (unfold two63; lia).
    rewrite (proj2 (Z.ltb_ge _ _)) by done. unfold u64. rewrite Z.mod_small by (unfold two64; lia). f_equal. f_equal.
    unfold nullableString. by destruct (sc_RunnerID c).
  - intros id Hne. destruct (is_empty id); [done|]. by rewrite lookup_insert_ne.
Qed.

(** ** Witnesses *)

(** [LIKE] over bytes: [%] is any text, [_] any byte, letters match in either case. *)
Fixpoint like_bytes (p s : bytes) : bool :=
  match p with
  | [] => is_empty s
  | c :: p =>
      if Ascii.eqb c "%" then
        (fix any s := like_bytes p s || match s with [] => false | _ :: s => any s end) s
      else
        match s with
        | [] => false
        | d :: s => (Ascii.eqb c "_" || Ascii.eqb (ascii_lower c) (ascii_lower d)) && like_bytes p s
        end
  end.

Lemma like_bytes_prefix p s : HasPrefix s p = true → like_bytes (p ++ s2b "%") s = true.
Proof.
  revert s. induction p as [|c p IH]; intros s.
  { intros _. cbn. induction s as [|d s IHs]; [done|]. cbn. exact IHs. }
  destruct s as [|d s]; [done|]. cbn. destruct (Ascii.eqb_spec c d) as [->|]; [|by rewrite ?andb_false_l].
  intros Hp%IH. cbn in Hp. destruct (Ascii.eqb d "%").
  - apply orb_true_iff. right. destruct s as [|x s]; by rewrite Hp.
  - by rewrite Hp, Ascii.eqb_refl, orb_true_r.
Qed.

#[local] Instance sample_std : GoStd := plain_std.
#[local] Instance sample_url : GoURL := {| bracket_host _ := None; ToLower s := ascii_lower <$> s |}.
#[local] Instance sample_url_laws : GoURLLaws.
Proof. by split. Qed.
#[local] Instance sample_like : SqlLike := like_bytes.
#[local] Instance sample_like_laws : SqlLikeLaws.
Proof. split. exact like_bytes_prefix. Qed.
#[local] Instance sample_time : GoTime := λ t, t.

Lemma node_started_fits : event_fits node_started.
Proof. apply described_fits; [lia|done|]. by eexists; vm_compute. Qed.
Lemma status_seen_fits : event_fits status_seen.
Proof. apply described_fits; [lia|done|]. by eexists; vm_compute. Qed.

(** Appended out of order. *)
Definition insert_sample (e : Event) (t : tables) : tables :=
  default t (j ← event_json e; InsertRequestStreamEvent (event_row_of e (print j)) t).
Definition sample_tables : tables := insert_sample node_started (insert_sample status_seen no_tables).

Lemma sample_tables_ok : tables_ok sample_tables.
Proof.
  refine (proj1 (append_row node_started (insert_sample status_seen no_tables) _ _ node_started_fits eq_refl _)).
  - refine (proj1 (append_row status_seen no_tables _ (List.Forall_nil _) status_seen_fits eq_refl _)).
    by eexists; split; [by vm_compute|by vm_compute].
  - by eexists; split; [by vm_compute|by vm_compute].
Qed.

Definition busy : bytes := s2b "Database is locked (5) (SQLITE_BUSY)".
(** A prefix whose [_] is a wildcard to [LIKE] and a character to the filter. *)
Definition under_prefix : Filter := mkFilter [] [s2b "runner_"] [] [] zero_scope.

Lemma sqlite_load_exact_witness :
  sqlite_LoadEvents (Failed busy) [Some Done] (mkScope (s2b "q-1") (s2b "r-1") [] []) 0 zero_filter sample_tables
    = Some (Ok (found sample_tables (mkScope (s2b "q-1") (s2b "r-1") [] []) 0 zero_filter))
  ∧ option_map (fmap ev_SequenceNumber) (match sqlite_LoadEvents Done [] (mkScope (s2b "q-1") [] [] []) 0 zero_filter sample_tables with Some (Ok es) => Some es | _ => None end) = Some [1; 2]
  ∧ selected (load_params (mkScope (s2b "q-1") [] [] []) 0 under_prefix) (event_row_of node_started []) = true
  ∧ sqlite_LoadEvents Done [] (mkScope (s2b "q-1") [] [] []) 0 under_prefix sample_tables = Some (Ok []).
Proof.
  split; [|split; [by vm_compute|by vm_compute]].
  destruct (sqlite_load_exact sample_tables (mkScope (s2b "q-1") (s2b "r-1") [] []) 0 zero_filter (Failed busy) [Some Done]) as [_ H];
    [exact sample_tables_ok|done|done|]. apply (H [busy] []); [|done]. by repeat constructor.
Defined.

Lemma accept_all_json e es fs : (JSON_AppendEvent log_root io_fine e fs).1 = Ok () →
  accept_all (log := json_event_log log_root) (e :: es) fs = accept_all (log := json_event_log log_root) es (append_to fs e).
Proof. cbn [accept_all AppendEvent json_event_log]. unfold append_to. by destruct (JSON_AppendEvent _ _ _ _) as [[[]|] ?]. Qed.

Lemma backends_agree_witness : ∃ t, accept_all (log := sqlite_event_log) [node_started; status_seen] no_tables = Some t
  ∧ LoadEvents (EventLogStore := sqlite_event_log) (s2b "q-1") 2 zero_filter t
    = LoadEvents (EventLogStore := json_event_log log_root) (s2b "q-1") 2 zero_filter log_after
  ∧ ReplayDescribeView (H0 := sqlite_event_log) (s2b "q-1") None zero_cursor t
    = ReplayDescribeView (H0 := json_event_log log_root) (s2b "q-1") None zero_cursor log_after.
Proof.
  destruct (backends_agree log_root [node_started; status_seen] log_after) as (t&Ht&Hag).
  - apply List.Forall_cons; [exact node_started_fits|]. apply List.Forall_cons; [exact status_seen_fits|]. apply List.Forall_nil.
  - do 2 (apply List.Forall_cons; [by split|]). apply List.Forall_nil.
  - intros id. unfold events_of. cbn [List.filter]. destruct (bool_decide _) eqn:E1, (bool_decide (scope_RequestID (ev_Scope status_seen) = id)); by vm_compute; repeat split.
  - rewrite accept_all_json by (by vm_compute). rewrite accept_all_json by (by vm_compute). done.
  - exists t. destruct (Hag (s2b "q-1") eq_refl) as [H1 H2]. split_and!; [done|by apply H1|apply H2].
Defined.

(** The stores differ for a scope that names more than a request: SQLite applies all
    of it, the JSON store only the request. *)
Lemma scope_beyond_request :
  let other := mkScope (s2b "q-1") (s2b "r-2") [] [] in
  sqlite_LoadEvents Done [] other 0 zero_filter sample_tables = Some (Ok [])
  ∧ option_map (fmap ev_SequenceNumber)
      (match JSON_LoadEvents log_root io_fine (scope_RequestID other) 0 zero_filter log_after with Ok es => Some es | Err _ => None end)
    = Some [1; 2].
Proof. split; by vm_compute. Qed.
