(* ===== verification/SqliteRunner.v ===== *)
(** The SQLite backend of the runner records: [store/internal/sqlite/runner_store.go]
    and the statements of [db/queries.sql.go] it uses.

    Any number of store objects, of one process or of several, share one database. A
    call is a sequence of steps: entering under the mutex of its runner, the statements
    of its transaction, the pauses when the database is locked. Every statement is
    answered from outside; the steps of the calls interleave freely, but for what a
    database guarantees: one transaction that writes at a time, seen by the others once
    it is committed.

    [sqlite_records_linear]: the calls that are not refused by the database have taken
    effect one after the other, each as on a single log, until a [ROLLBACK] that fails
    leaves a transaction open; [left_locked] is an example of what follows. *)
From stdpp Require Import sorting.
From S2P Require Import Prelude Json GoText Text Url Event Bundle Log Record EventLog Sqlite.

(** ** The table *)

Record record_row := mkRecordRow {
  rw_runner_id : bytes; rw_sequence_number : Z; rw_kind : bytes; rw_timestamp : bytes; rw_record_json : bytes }.

Definition of_runner (id : bytes) : list record_row → list record_row :=
  List.filter (λ r, bool_decide (rw_runner_id r = id)).

(** [COALESCE(MAX(sequence_number), 0)]. *)
Definition max_number (l : list Z) : Z := match l with [] => 0 | x :: l => foldl Z.max x l end.

(** The last number and whether there is an init record. *)
Definition GetRunnerRecordState (id : bytes) (rows : list record_row) : Z * bool :=
  (max_number (rw_sequence_number <$> of_runner id rows),
   existsb (λ r, bool_decide (rw_kind r = RunnerRecordInit)) (of_runner id rows)).

(** The primary key is the runner and the number. *)
Definition InsertRunnerRecord (r : record_row) (rows : list record_row) : option (list record_row) :=
  if existsb (λ r', bool_decide (rw_runner_id r' = rw_runner_id r) && (rw_sequence_number r' =? rw_sequence_number r)) rows
  then None else Some (rows ++ [r]).

Definition ListRunnerRecords (id : bytes) (rows : list record_row) : list record_row :=
  order_by rw_sequence_number (of_runner id rows).

(** The rows that stay and the number of those deleted. *)
Definition DeleteRunnerRecords (id : bytes) (rows : list record_row) : list record_row * nat :=
  (List.filter (λ r, negb (bool_decide (rw_runner_id r = id))) rows, List.length (of_runner id rows)).

(** ** Calls *)

Inductive rop :=
| RAppend (now id : bytes) (rec : option RunnerRecord)
| RLoad (id : bytes)
| RDelete (id : bytes).

Definition validateSQLiteRunnerID : bytes → option log_err := validateID.

(** What a call returns; of a failed one, [ErrIO] is an error of the database or the
    end of the context. *)
Abbreviation rout := (log_out RunnerRecord).

(** Where a call is. *)
Inductive rpc :=
| PcStart
| PcBegin                                            (* before [BEGIN IMMEDIATE] *)
| PcBeginPause
| PcState                                            (* in the transaction *)
| PcInsert (rec : RunnerRecord) (raw : bytes)
| PcCommit (seq : Z)
| PcCommitPause (seq : Z)
| PcRollback (err : log_err)                         (* the deferred function *)
| PcQuery                                            (* the statement of [Load] and [Delete] *)
| PcDone (out : rout).

Record rcall := mkRCall { rc_store : nat; rc_op : rop; rc_pc : rpc }.
Definition goto (pc : rpc) (c : rcall) : rcall := mkRCall (rc_store c) (rc_op c) pc.
Definition op_id (op : rop) : bytes := match op with RAppend _ id _ | RLoad id | RDelete id => id end.

(** The committed rows, and the open transaction: whose connection it is and the rows
    as that connection sees them. *)
Record sq_state := mkSq {
  sq_rows : list record_row; sq_tx : option (nat * list record_row); sq_calls : list rcall }.

(** What a call meets: an answer to its statement ([undone]: the engine has rolled the
    transaction back by itself), the end of its pause, the end of its context. *)
Inductive choice :=
| CDone
| CFailed (text : bytes) (undone : bool)
| CPooled                     (* the statement runs on a connection left in a transaction *)
| CTick
| CEnded.

(** A call is inside the mutex of its runner. *)
Definition under_way (c : rcall) : bool := match rc_pc c with PcStart | PcDone _ => false | _ => true end.
Definition mutex_free (i : nat) (c : rcall) (calls : list rcall) : bool :=
  forallb (λ '(j, c'), bool_decide (i = j) || negb (under_way c')
    || negb (bool_decide (rc_store c' = rc_store c) && bool_decide (op_id (rc_op c') = op_id (rc_op c))))
    (imap pair calls).

Section step.
Context `{GoStd} `{GoURL} `{GoTime}.

(** [for _, row := range rows] of [Load]. *)
Fixpoint decode_records (rows : list record_row) : res log_err (list RunnerRecord) :=
  match rows with
  | [] => Ok []
  | row :: rows =>
      match decode_struct record_field zero_record (rw_record_json row) with
      | None => Err (ErrCorrupt (rw_sequence_number row))
      | Some rec =>
          if negb (rr_Seq rec =? rw_sequence_number row) then Err (ErrCorrupt (rw_sequence_number row))
          else if negb (bool_decide (rr_Kind rec = rw_kind row)) then Err (ErrCorrupt (rw_sequence_number row))
          else let? recs := decode_records rows in Ok (rec :: recs)
      end
  end.

(** What [Load] and [Delete] make of the rows a connection sees. *)
Definition run_query (op : rop) (rows : list record_row) : rout * list record_row :=
  match op with
  | RLoad id =>
      let found := ListRunnerRecords id rows in
      (OutLog (if bool_decide (found = []) then Err ErrNotFound else decode_records found), rows)
  | RDelete id =>
      let '(rest, n) := DeleteRunnerRecords id rows in
      (OutUnit (if bool_decide (n = 0%nat) then Err ErrNotFound else Ok ()), rest)
  | RAppend _ _ _ => (OutSeq (Err ErrIO), rows)
  end.

(** The result of a call that fails. *)
Definition failed (op : rop) (err : log_err) : rout :=
  match op with RAppend _ _ _ => OutSeq (Err err) | RLoad _ => OutLog (Err err) | RDelete _ => OutUnit (Err err) end.

(** From the state of the log to the row to insert; [None] for the next step is a
    return, which rolls back. *)
Definition prepare_record (now id : bytes) (rec : RunnerRecord) (view : list record_row) : rpc :=
  let '(last, hasInit) := GetRunnerRecordState id view in
  if bool_decide (rr_Kind rec = RunnerRecordInit) && hasInit then PcRollback ErrAlreadyInitialised
  else if negb (bool_decide (rr_Kind rec = RunnerRecordInit)) && negb hasInit then PcRollback ErrNotInitialised
  else
    let rec := record_stamp (i64 (last + 1)) now rec in
    match record_json rec with
    | None => PcRollback ErrMarshal
    | Some j => PcInsert rec (print j)
    end.

(** The first step of a call: what it checks before it takes the mutex. *)
Definition start_call (op : rop) : rpc :=
  match op with
  | RAppend _ _ None => PcDone (OutSeq (Err ErrNilRecord))
  | RAppend _ id (Some _) =>
      match validateSQLiteRunnerID id with Some e => PcDone (OutSeq (Err e)) | None => PcBegin end
  | RLoad id | RDelete id =>
      match validateSQLiteRunnerID id with Some e => PcDone (failed op e) | None => PcQuery end
  end.

(** The transaction of connection [i] as it stands, when it is open. *)
Definition own_tx (i : nat) (tx : option (nat * list record_row)) : option (list record_row) :=
  match tx with Some (j, view) => if bool_decide (i = j) then Some view else None | None => None end.
Definition end_tx (i : nat) (tx : option (nat * list record_row)) : option (nat * list record_row) :=
  match own_tx i tx with Some _ => None | None => tx end.

(** A statement that failed: back to a pause when the database is locked. *)
Definition retry_or (text : bytes) (pause otherwise : rpc) : rpc := if isSQLiteLockError text then pause else otherwise.

(** One step of call [i]: where it is then, the committed rows and the transaction. *)
Definition step_call (i : nat) (c : rcall) (ch : choice) (st : sq_state)
  : option (rpc * list record_row * option (nat * list record_row)) :=
  let rows := sq_rows st in let tx := sq_tx st in let calls := sq_calls st in
  match rc_pc c, ch with
  | PcStart, CTick =>
      match start_call (rc_op c) with
      | PcDone out => Some (PcDone out, rows, tx)
      | pc => if mutex_free i c calls then Some (pc, rows, tx) else None
      end
  | PcBegin, CDone => if tx is None then Some (PcState, rows, Some (i, rows)) else None
  | PcBegin, CFailed text _ => Some (retry_or text PcBeginPause (PcDone (failed (rc_op c) ErrIO)), rows, tx)
  | PcBeginPause, CTick => Some (PcBegin, rows, tx)
  | PcBeginPause, CEnded => Some (PcDone (failed (rc_op c) ErrIO), rows, tx)
  | PcState, CDone =>
      match own_tx i tx, rc_op c with
      | Some view, RAppend now id (Some rec) => Some (prepare_record now id rec view, rows, tx)
      | _, _ => None
      end
  | PcState, CFailed _ undone => Some (PcRollback ErrIO, rows, if undone then end_tx i tx else tx)
  | PcInsert rec raw, CDone =>
      match own_tx i tx with
      | Some view =>
          match InsertRunnerRecord (mkRecordRow (op_id (rc_op c)) (rr_Seq rec) (rr_Kind rec) (utc_format (rr_Timestamp rec)) raw) view with
          | Some view => Some (PcCommit (rr_Seq rec), rows, Some (i, view))
          | None => Some (PcRollback ErrIO, rows, tx)
          end
      | None => None
      end
  | PcInsert _ _, CFailed _ undone => Some (PcRollback ErrIO, rows, if undone then end_tx i tx else tx)
  | PcCommit seq, CDone =>
      match own_tx i tx with Some view => Some (PcDone (OutSeq (Ok seq)), view, None) | None => None end
  | PcCommit seq, CFailed text undone =>
      Some (retry_or text (PcCommitPause seq) (PcRollback ErrIO), rows,
            if isSQLiteLockError text then tx else if undone then end_tx i tx else tx)
  | PcCommitPause seq, CTick => Some (PcCommit seq, rows, tx)
  | PcCommitPause _, CEnded => Some (PcRollback ErrIO, rows, tx)
  | PcRollback err, CDone => Some (PcDone (failed (rc_op c) err), rows, end_tx i tx)
  | PcRollback err, CFailed _ _ => Some (PcDone (failed (rc_op c) err), rows, tx)
  | PcQuery, CDone =>
      match rc_op c, tx with
      | RDelete _, Some _ => None
      | op, _ => let '(out, rows) := run_query op rows in Some (PcDone out, rows, tx)
      end
  | PcQuery, CFailed _ _ => Some (PcDone (failed (rc_op c) ErrIO), rows, tx)
  | PcQuery, CPooled =>
      match tx with
      | Some (j, view) =>
          match calls !! j with
          | Some (mkRCall _ _ (PcDone _)) =>
              let '(out, view) := run_query (rc_op c) view in Some (PcDone out, rows, Some (j, view))
          | _ => None
          end
      | None => None
      end
  | _, _ => None
  end.

Definition sq_step (l : nat * choice) (st : sq_state) : option sq_state :=
  c ← sq_calls st !! l.1;
  '(pc, rows, tx) ← step_call l.1 c l.2 st;
  Some (mkSq rows tx (<[l.1 := goto pc c]> (sq_calls st))).

(** Calls of some stores on an empty table. *)
Definition sq_start (ops : list (nat * rop)) : sq_state := mkSq [] None ((λ '(s, op), mkRCall s op PcStart) <$> ops).

(** A call that is over has left its transaction open: its [ROLLBACK] failed, as one
    whose context has ended does. *)
Definition left_behind (st : sq_state) : Prop :=
  ∃ i c out view, sq_calls st !! i = Some c ∧ rc_pc c = PcDone out ∧ sq_tx st = Some (i, view).

(** ** The log that is promised *)

Definition spec_call (op : rop) (lg : logs RunnerRecord) : rout * logs RunnerRecord :=
  match op with
  | RAppend _ _ None => (OutSeq (Err ErrNilRecord), lg)
  | RAppend now id (Some rec) =>
      match validateID id with
      | Some e => (OutSeq (Err e), lg)
      | None =>
          let log := default [] (lg !! id) in
          if bool_decide (rr_Kind rec = RunnerRecordInit) && negb (bool_decide (log = [])) then (OutSeq (Err ErrAlreadyInitialised), lg)
          else if negb (bool_decide (rr_Kind rec = RunnerRecordInit)) && bool_decide (log = []) then (OutSeq (Err ErrNotInitialised), lg)
          else
            let seq := Z.of_nat (S (List.length log)) in
            let rec := record_stamp seq now rec in
            match record_json rec with
            | None => (OutSeq (Err ErrMarshal), lg)
            | Some _ => (OutSeq (Ok seq), <[id := log ++ [norm_record rec]]> lg)
            end
      end
  | RLoad id =>
      (OutLog match validateID id with Some e => Err e | None => match lg !! id with Some log => Ok log | None => Err ErrNotFound end end, lg)
  | RDelete id =>
      match validateID id with
      | Some e => (OutUnit (Err e), lg)
      | None => match lg !! id with Some _ => (OutUnit (Ok ()), delete id lg) | None => (OutUnit (Err ErrNotFound), lg) end
      end
  end.

(** The database or the context refused the call. *)
Definition refused (out : rout) : bool :=
  match out with OutSeq (Err ErrIO) | OutLog (Err ErrIO) | OutUnit (Err ErrIO) => true | _ => false end.

(** Operations one after the other, with what each returns. *)
Inductive spec_runs : list (nat * rop * rout) → logs RunnerRecord → Prop :=
| spec_runs_start : spec_runs [] ∅
| spec_runs_step hist lg i op out lg' : spec_runs hist lg → spec_call op lg = (out, lg') →
    spec_runs (hist ++ [(i, op, out)]) lg'.

(** What a step returns, unless it was refused. *)
Definition returned (i : nat) (c : rcall) (pc : rpc) : list (nat * rop * rout) :=
  match pc with PcDone out => if refused out then [] else [(i, rc_op c, out)] | _ => [] end.
Definition returns (l : nat * choice) (st st' : sq_state) : list (nat * rop * rout) :=
  match sq_calls st !! l.1, sq_calls st' !! l.1 with Some c, Some c' => returned l.1 c (rc_pc c') | _, _ => [] end.

(** The reachable states, with what was returned in the order it was. *)
Inductive sq_runs (ops : list (nat * rop)) : list (nat * rop * rout) → sq_state → Prop :=
| sq_runs_start : sq_runs ops [] (sq_start ops)
| sq_runs_step l hist st st' : sq_runs ops hist st → sq_step l st = Some st' →
    sq_runs ops (hist ++ returns l st st') st'.
End step.

(** ** The rows of a log *)

Section rows.
Context `{GoStd} `{GoTime}.

Definition row_of (id : bytes) (rec : RunnerRecord) (raw : bytes) : record_row :=
  mkRecordRow id (rr_Seq rec) (rr_Kind rec) (utc_format (rr_Timestamp rec)) raw.

Definition row_record (id : bytes) (row : record_row) (rec' : RunnerRecord) : Prop :=
  ∃ rec j, record_ok rec ∧ record_json rec = Some j ∧ row = row_of id rec (print j) ∧ rec' = norm_record rec.

(** Numbers from one on, and an init record at the beginning only. *)
Definition numbered_log (log : list RunnerRecord) : Prop :=
  ∀ k rec, log !! k = Some rec → rr_Seq rec = Z.of_nat (S k) ∧ (rr_Kind rec = RunnerRecordInit ↔ k = 0%nat).

Definition rows_log (id : bytes) (rows : list record_row) (log : option (list RunnerRecord)) : Prop :=
  match log with
  | None => of_runner id rows = []
  | Some log => log ≠ [] ∧ numbered_log log ∧ Forall2 (row_record id) (of_runner id rows) log
  end.

Lemma rows_log_default id rows log : rows_log id rows log →
  numbered_log (default [] log) ∧ Forall2 (row_record id) (of_runner id rows) (default [] log).
Proof. destruct log as [log|]; cbn; [by intros (_&?&?)|intros ->]. split; [|constructor]. by intros k rec Hk. Qed.

Lemma row_record_number id row rec : row_record id row rec → rw_sequence_number row = rr_Seq rec.
Proof. by intros (r&j&_&_&->&->). Qed.
Lemma row_record_kind id row rec : row_record id row rec → rw_kind row = rr_Kind rec.
Proof. by intros (r&j&_&_&->&->). Qed.

Lemma max_number_snoc l y : max_number (l ++ [y]) = match l with [] => y | _ => Z.max (max_number l) y end.
Proof. destruct l as [|x l]; [done|]. cbn. by rewrite foldl_snoc. Qed.

Lemma log_numbered_snoc log rec : numbered_log (log ++ [rec]) ↔
  numbered_log log ∧ rr_Seq rec = Z.of_nat (S (List.length log)) ∧ (rr_Kind rec = RunnerRecordInit ↔ log = []).
Proof.
  split.
  - intros Hw. split_and!.
    + intros k r Hk. apply Hw. rewrite lookup_app_l; [done|]. by eapply lookup_lt_Some.
    + apply (Hw (List.length log)). by rewrite lookup_app_r, Nat.sub_diag.
    + destruct (Hw (List.length log) rec) as [_ ->]; [by rewrite lookup_app_r, Nat.sub_diag|]. by rewrite length_zero_iff_nil.
  - intros (Hw&Hs&Hk) k r [Hr|[Hlen Hr]]%lookup_app_Some; [by apply Hw|].
    apply list_lookup_singleton_Some in Hr as [Hr <-]. assert (k = List.length log) as -> by lia.
    split; [done|]. by rewrite Hk, length_zero_iff_nil.
Qed.

Lemma log_state id rows log : numbered_log log → Forall2 (row_record id) (of_runner id rows) log →
  GetRunnerRecordState id rows = (Z.of_nat (List.length log), negb (bool_decide (log = []))).
Proof.
  unfold GetRunnerRecordState. generalize (of_runner id rows). intros l Hw Hl. revert l Hl Hw.
  induction log as [|rec log IH] using rev_ind; intros l Hl Hw.
  { by apply Forall2_nil_inv_r in Hl as ->. }
  apply Forall2_app_inv_r in Hl as (l1&l2&Hl1&Hl2&->). apply Forall2_cons_inv_r in Hl2 as (row&l3&Hrow&->%Forall2_nil_inv_r&->).
  apply log_numbered_snoc in Hw as (Hw&Hs&Hk). specialize (IH _ Hl1 Hw). injection IH as IH1 IH2.
  rewrite fmap_app, length_app. cbn [fmap list_fmap List.length]. rewrite max_number_snoc, existsb_app. cbn [existsb].
  rewrite (row_record_number _ _ _ Hrow), Hs, IH1, IH2, (bool_decide_eq_false_2 (log ++ [rec] = [])) by by destruct log.
  rewrite (row_record_kind _ _ _ Hrow), (bool_decide_ext _ _ Hk). f_equal; [|by destruct (bool_decide (log = []))].
  destruct l1; [apply Forall2_length in Hl1; simpl in *; lia|]. cbn [fmap list_fmap]. lia.
Qed.

Lemma log_rows_sorted id rows log : numbered_log log → Forall2 (row_record id) (of_runner id rows) log →
  ListRunnerRecords id rows = of_runner id rows.
Proof.
  unfold ListRunnerRecords. generalize (of_runner id rows). intros l Hw Hl. apply order_by_id.
  revert l Hl Hw. induction log as [|rec log IH] using rev_ind; intros l Hl Hw.
  { apply Forall2_nil_inv_r in Hl as ->. constructor. }
  apply Forall2_app_inv_r in Hl as (l1&l2&Hl1&Hl2&->). apply Forall2_cons_inv_r in Hl2 as (row&l3&Hrow&->%Forall2_nil_inv_r&->).
  apply log_numbered_snoc in Hw as (Hw&Hs&_). apply StronglySorted_app_2; [|by apply IH|by repeat constructor].
  intros r1 r2 Hr1 ->%list_elem_of_singleton. apply list_elem_of_lookup in Hr1 as [k Hk].
  destruct (Forall2_lookup_l _ _ _ _ _ Hl1 Hk) as (rec1&Hrec1&Hr1). rewrite (row_record_number _ _ _ Hr1), (row_record_number _ _ _ Hrow), Hs.
  rewrite (proj1 (Hw _ _ Hrec1)). apply lookup_lt_Some in Hrec1. lia.
Qed.

Lemma log_decodes id rows log : Forall2 (row_record id) rows log → decode_records rows = Ok log.
Proof.
  induction 1 as [|row rec rows log Hrow _ IH]; [done|]. cbn [decode_records]. destruct Hrow as (r&j&Hok&Hj&->&->).
  cbn [row_of rw_record_json rw_sequence_number rw_kind]. rewrite (decode_record _ _ Hok Hj). cbn [norm_record rr_Seq rr_Kind].
  rewrite Z.eqb_refl, bool_decide_eq_true_2 by done. cbn [negb]. by rewrite IH.
Qed.

Lemma of_runner_app id rows rows' : of_runner id (rows ++ rows') = of_runner id rows ++ of_runner id rows'.
Proof. apply List.filter_app. Qed.

(** The number after the last is free. *)
Lemma insert_next id rows log rec raw : numbered_log log → Forall2 (row_record id) (of_runner id rows) log →
  rr_Seq rec = Z.of_nat (S (List.length log)) → InsertRunnerRecord (row_of id rec raw) rows = Some (rows ++ [row_of id rec raw]).
Proof.
  intros Hw Hl Hs. unfold InsertRunnerRecord. assert (existsb _ rows = false) as ->; [|done].
  apply not_true_is_false. intros (r&Hr&[Hid%bool_decide_eq_true Hn%Z.eqb_eq]%andb_true_iff)%existsb_exists.
  assert (r ∈ of_runner id rows) as Hin.
  { apply list_elem_of_In, filter_In. split; [done|]. by apply bool_decide_eq_true. }
  apply list_elem_of_lookup in Hin as [k Hk]. destruct (Forall2_lookup_l _ _ _ _ _ Hl Hk) as (rec1&Hrec1&Hr1).
  rewrite (row_record_number _ _ _ Hr1), (proj1 (Hw _ _ Hrec1)) in Hn. cbn in Hn. apply lookup_lt_Some in Hrec1. lia.
Qed.

(** Appending and deleting rows of one log leaves the others. *)
Lemma rows_log_append (id : bytes) (rows : list record_row) (lg : logs RunnerRecord) (rec : RunnerRecord) (j : json) : (∀ id', rows_log id' rows (lg !! id')) → record_ok rec → record_json rec = Some j →
  rr_Seq rec = Z.of_nat (S (List.length (default [] (lg !! id)))) → (rr_Kind rec = RunnerRecordInit ↔ default [] (lg !! id) = []) →
  ∀ id', rows_log id' (rows ++ [row_of id rec (print j)]) (<[id := default [] (lg !! id) ++ [norm_record rec]]> lg !! id').
Proof.
  intros Hl Hok Hj Hs Hk id'. destruct (rows_log_default _ _ _ (Hl id)) as [Hw Hf].
  assert (of_runner id' [row_of id rec (print j)] = if bool_decide (id = id') then [row_of id rec (print j)] else []) as Hone by done.
  destruct (decide (id' = id)) as [->|Hne].
  - rewrite lookup_insert_eq. cbn [rows_log]. rewrite of_runner_app, Hone, bool_decide_eq_true_2 by done. split_and!.
    + by destruct (default [] (lg !! id)).
    + by apply log_numbered_snoc.
    + apply Forall2_app; [done|]. constructor; [by exists rec, j|constructor].
  - rewrite lookup_insert_ne by done. specialize (Hl id'). unfold rows_log in *.
    by rewrite of_runner_app, Hone, bool_decide_eq_false_2, app_nil_r by done.
Qed.

Lemma of_runner_deleted id id' rows :
  of_runner id' (DeleteRunnerRecords id rows).1 = if bool_decide (id' = id) then [] else of_runner id' rows.
Proof.
  cbn [DeleteRunnerRecords fst]. unfold of_runner. rewrite filter_filter. induction rows as [|r rows IH]; cbn [List.filter]; [by case_bool_decide|].
  rewrite IH. destruct (decide (rw_runner_id r = id)) as [<-|Hr].
  - rewrite (bool_decide_eq_true_2 (rw_runner_id r = _)) by done. cbn [negb andb].
    destruct (decide (id' = rw_runner_id r)) as [->|Hne]; [by rewrite bool_decide_eq_true_2|]. by rewrite !bool_decide_eq_false_2.
  - rewrite (bool_decide_eq_false_2 (rw_runner_id r = id)) by done. cbn [negb andb].
    destruct (decide (id' = id)) as [->|Hne]; [by rewrite (bool_decide_eq_true_2 (id = id)), (bool_decide_eq_false_2 (rw_runner_id r = id))|].
    by rewrite (bool_decide_eq_false_2 (id' = id)).
Qed.

Lemma rows_log_delete (id : bytes) (rows : list record_row) (lg : logs RunnerRecord) : (∀ id', rows_log id' rows (lg !! id')) →
  ∀ id', rows_log id' (DeleteRunnerRecords id rows).1 (delete id lg !! id').
Proof.
  intros Hl id'. unfold rows_log. rewrite of_runner_deleted. destruct (decide (id' = id)) as [->|Hne].
  - rewrite lookup_delete_eq. by rewrite bool_decide_eq_true_2.
  - rewrite lookup_delete_ne by done. rewrite bool_decide_eq_false_2 by done. apply Hl.
Qed.

(** What a query returns is what the promised log says. *)
Lemma run_query_spec (op : rop) (rows : list record_row) (lg : logs RunnerRecord) : (∀ id, rows_log id rows (lg !! id)) → validateID (op_id op) = None →
  match op with RAppend _ _ _ => False | _ => True end →
  let '(out, rows') := run_query op rows in
  ∃ lg', spec_call op lg = (out, lg') ∧ (∀ id, rows_log id rows' (lg' !! id)) ∧ (rows' = rows ∧ lg' = lg ∨ ∃ id, op = RDelete id).
Proof.
  intros Hl Hid Hop. destruct op as [|id|id]; [done|..]; cbn [run_query op_id] in *; pose proof (Hl id) as Hlog.
  - exists lg. split_and!; [|done|by left]. cbn [spec_call]. rewrite Hid. destruct (rows_log_default _ _ _ Hlog) as [Hw Hf].
    rewrite (log_rows_sorted _ _ _ Hw Hf), (log_decodes _ _ _ Hf). destruct (lg !! id) as [log|]; cbn in *.
    + rewrite bool_decide_eq_false_2; [done|]. destruct Hlog as [Hne _]. intros E. rewrite E in Hf. by apply Forall2_nil_inv_l in Hf.
    + by rewrite Hlog.
  - cbn [DeleteRunnerRecords]. pose proof (rows_log_delete id rows lg Hl) as Hd. cbn [spec_call]. rewrite Hid.
    destruct (lg !! id) as [log|] eqn:E; cbn in Hlog.
    + exists (delete id lg). split_and!; [|exact Hd|by right; eexists]. destruct Hlog as (Hne&_&Hf).
      apply Forall2_length in Hf. rewrite bool_decide_eq_false_2; [done|]. rewrite Hf. by destruct log.
    + exists lg. split_and!; [by rewrite Hlog| |by right; eexists]. intros id'. specialize (Hd id').
      by rewrite delete_id in Hd.
Qed.
End rows.

(** ** The invariant *)

Section linear.
Context `{GoStd} `{GoURL} `{GoTime} (ops : list (nat * rop)).

(** The records that are written can be read back, and their numbers fit. *)
Definition op_ok (op : rop) : Prop :=
  match op with RAppend now _ (Some rec) => record_ok rec ∧ time_ok now | _ => True end.
Hypothesis ops_ok : Forall (λ o, op_ok o.2) ops.
Hypothesis ops_fit : Z.of_nat (List.length ops) < two63 - 1.

(** An append that has passed its checks. *)
Definition accepted (op : rop) (rec : RunnerRecord) (raw : bytes) (lg : logs RunnerRecord) : Prop :=
  ∃ j, raw = print j ∧ record_json rec = Some j ∧ record_ok rec
  ∧ rr_Seq rec = Z.of_nat (S (List.length (default [] (lg !! op_id op))))
  ∧ (rr_Kind rec = RunnerRecordInit ↔ default [] (lg !! op_id op) = [])
  ∧ spec_call op lg = (OutSeq (Ok (rr_Seq rec)), <[op_id op := default [] (lg !! op_id op) ++ [norm_record rec]]> lg).

(** The rows the connection of a call sees. *)
Definition sees (pc : rpc) (op : rop) (view rows : list record_row) (lg : logs RunnerRecord) : Prop :=
  match pc with
  | PcState => view = rows
  | PcInsert rec raw => view = rows ∧ accepted op rec raw lg
  | PcCommit seq | PcCommitPause seq =>
      ∃ rec raw, accepted op rec raw lg ∧ seq = rr_Seq rec ∧ view = rows ++ [row_of (op_id op) rec raw]
  | PcRollback err => err = ErrIO ∨ spec_call op lg = (failed op err, lg)
  | _ => False
  end.

Definition needs_tx (pc : rpc) : bool :=
  match pc with PcState | PcInsert _ _ | PcCommit _ | PcCommitPause _ => true | PcRollback err => negb (bool_decide (err = ErrIO)) | _ => false end.

Definition tx_ok (calls : list rcall) (rows : list record_row) (lg : logs RunnerRecord) (tx : option (nat * list record_row)) : Prop :=
  match tx with
  | None => True
  | Some (i, view) => ∃ c, calls !! i = Some c ∧ sees (rc_pc c) (rc_op c) view rows lg
  end
  ∧ ∀ i c, calls !! i = Some c → needs_tx (rc_pc c) = true → is_Some (own_tx i tx).

(** Past its checks a call has an identifier, and only an [Append] is in a transaction. *)
Definition call_ok (c : rcall) : Prop :=
  match rc_pc c with
  | PcStart | PcDone _ => True
  | PcQuery => validateID (op_id (rc_op c)) = None ∧ match rc_op c with RAppend _ _ _ => False | _ => True end
  | _ => validateID (op_id (rc_op c)) = None ∧ match rc_op c with RAppend _ _ (Some _) => True | _ => False end
  end.

Record sq_inv (st : sq_state) (hist : list (nat * rop * rout)) (lg : logs RunnerRecord) : Prop := {
  iv_ops : (λ c, (rc_store c, rc_op c)) <$> sq_calls st = ops;
  iv_spec : spec_runs hist lg;
  iv_rows : ∀ id, rows_log id (sq_rows st) (lg !! id);
  iv_nodup : NoDup (hist.*1.*1);
  iv_hist : ∀ i op out, (i, op, out) ∈ hist → ∃ c, sq_calls st !! i = Some c ∧ rc_op c = op ∧ rc_pc c = PcDone out;
    iv_tx : tx_ok (sq_calls st) (sq_rows st) lg (sq_tx st);
  iv_calls : Forall call_ok (sq_calls st) }.

Lemma own_tx_Some i tx view : own_tx i tx = Some view → tx = Some (i, view).
Proof. unfold own_tx. destruct tx as [[j v]|]; [|done]. case_bool_decide; [|done]. by intros [= ->]; subst. Qed.
Lemma own_tx_mine i view : own_tx i (Some (i, view)) = Some view.
Proof. unfold own_tx. by rewrite bool_decide_eq_true_2. Qed.
Lemma end_tx_cases i tx : (∃ view, tx = Some (i, view) ∧ end_tx i tx = None) ∨ (own_tx i tx = None ∧ end_tx i tx = tx).
Proof. unfold end_tx. destruct (own_tx i tx) as [view|] eqn:E; [left|by right]. apply own_tx_Some in E as ->. by eexists. Qed.

(** The transaction when one call moves: another's, ended, or its own. *)
Section moves.
Variables (calls : list rcall) (rows : list record_row) (lg : logs RunnerRecord) (tx : option (nat * list record_row)) (i : nat) (c : rcall) (pc : rpc).
Hypothesis Htx : tx_ok calls rows lg tx.
Hypothesis Hc : calls !! i = Some c.

Lemma tx_other : own_tx i tx = None → needs_tx pc = false → tx_ok (<[i:=goto pc c]> calls) rows lg tx.
Proof.
  destruct Htx as [Ht Hn]. intros Ho Hpc. split.
  - destruct tx as [[j view]|]; [|done]. destruct Ht as (c'&Hc'&Hs). exists c'. split; [|done].
    rewrite list_lookup_insert_ne; [done|]. intros <-. by rewrite own_tx_mine in Ho.
  - intros j c'. destruct (decide (j = i)) as [->|Hj].
    + rewrite list_lookup_insert_eq by by eapply lookup_lt_Some. intros [= <-]. cbn. by rewrite Hpc.
    + rewrite list_lookup_insert_ne by done. apply Hn.
Qed.

Lemma tx_ended rows' lg' : tx = None ∨ is_Some (own_tx i tx) → needs_tx pc = false → tx_ok (<[i:=goto pc c]> calls) rows' lg' None.
Proof.
  destruct Htx as [_ Hn]. intros Ho Hpc. split; [done|]. intros j c'. destruct (decide (j = i)) as [->|Hj].
  - rewrite list_lookup_insert_eq by by eapply lookup_lt_Some. intros [= <-]. cbn. by rewrite Hpc.
  - rewrite list_lookup_insert_ne by done. intros Hc' Hj'. destruct (Hn _ _ Hc' Hj') as [v Hv].
    apply own_tx_Some in Hv. destruct Ho as [->|[w Hw]]; [done|]. apply own_tx_Some in Hw. by simplify_eq.
Qed.

Lemma tx_mine view : tx = None ∨ is_Some (own_tx i tx) → sees pc (rc_op c) view rows lg →
  tx_ok (<[i:=goto pc c]> calls) rows lg (Some (i, view)).
Proof.
  destruct Htx as [_ Hn]. intros Ho Hs. split.
  - exists (goto pc c). rewrite list_lookup_insert_eq by by eapply lookup_lt_Some. done.
  - intros j c'. destruct (decide (j = i)) as [->|Hj]; [rewrite own_tx_mine; by eexists|].
    rewrite list_lookup_insert_ne by done. intros Hc' Hj'. destruct (Hn _ _ Hc' Hj') as [v Hv].
    apply own_tx_Some in Hv. destruct Ho as [->|[w Hw]]; [done|]. apply own_tx_Some in Hw. by simplify_eq.
Qed.
End moves.

(** A call that moves on, or is refused. *)
Lemma inv_moves st hist lg i c pc tx : sq_inv st hist lg → sq_calls st !! i = Some c → (∀ out, rc_pc c ≠ PcDone out) →
  (∀ out, pc = PcDone out → refused out = true) → call_ok (goto pc c) → tx_ok (<[i:=goto pc c]> (sq_calls st)) (sq_rows st) lg tx →
  sq_inv (mkSq (sq_rows st) tx (<[i:=goto pc c]> (sq_calls st))) (hist ++ returned i c pc) lg.
Proof.
  intros [Hops Hspec Hrows Hnd Hh Htx Hcs] Hc Hnot Hpc Hok Htx'.
  assert (returned i c pc = []) as -> by (unfold returned; destruct pc; try done; by rewrite (Hpc _ eq_refl)).
  rewrite app_nil_r. split; cbn; try done.
  - rewrite list_fmap_insert. rewrite <- Hops. apply list_insert_id. by rewrite list_lookup_fmap, Hc.
  - intros j op out Hin. destruct (Hh _ _ _ Hin) as (c'&Hc'&Hop&Hout). exists c'. split; [|done].
    rewrite list_lookup_insert_ne; [done|]. intros <-. rewrite Hc in Hc'. injection Hc' as <-. by eapply Hnot.
  - by apply Forall_insert.
Qed.

(** The log does not refuse. *)
Lemma spec_not_refused op lg out lg' : spec_call op lg = (out, lg') → refused out = false.
Proof.
  assert (∀ id e, validateID id = Some e → e ≠ ErrIO) as Hv.
  { intros id e. unfold validateID. repeat case_match; naive_solver. }
  destruct op as [now id [rec|]|id|id]; cbn [spec_call]; try (destruct (validateID id) as [e|] eqn:Hid; [apply Hv in Hid; intros [= <- <-]; by destruct e|]).
  - repeat (case_match; [by intros [= <- <-]|]). by destruct (record_json _); intros [= <- <-].
  - by intros [= <- <-].
  - by destruct (lg !! id); intros [= <- <-].
  - by destruct (lg !! id); intros [= <- <-].
Qed.

(** A call that takes effect. *)
Lemma inv_effect st hist lg i c out rows lg' tx : sq_inv st hist lg → sq_calls st !! i = Some c → (∀ out, rc_pc c ≠ PcDone out) →
  spec_call (rc_op c) lg = (out, lg') → (∀ id, rows_log id rows (lg' !! id)) →
  tx_ok (<[i:=goto (PcDone out) c]> (sq_calls st)) rows lg' tx →
  sq_inv (mkSq rows tx (<[i:=goto (PcDone out) c]> (sq_calls st))) (hist ++ returned i c (PcDone out)) lg'.
Proof.
  intros [Hops Hspec Hrows Hnd Hh Htx Hcs] Hc Hnot Hcall Hrows' Htx'. cbn [returned]. rewrite (spec_not_refused _ _ _ _ Hcall). split; cbn; try done.
  - rewrite list_fmap_insert. rewrite <- Hops. apply list_insert_id. by rewrite list_lookup_fmap, Hc.
  - by eapply spec_runs_step.
  - rewrite !fmap_app. cbn. apply NoDup_app. split_and!; [done| |by apply NoDup_singleton].
    intros j Hj ->%list_elem_of_singleton. apply list_elem_of_fmap in Hj as ([j op]&->&Hj). apply list_elem_of_fmap in Hj as ([[j' op'] out']&[= -> ->]&Hj).
    cbn in Hc. destruct (Hh _ _ _ Hj) as (c'&Hc'&_&Hout). rewrite Hc in Hc'. injection Hc' as <-. by eapply Hnot.
  - intros j op out' [Hin|[= -> -> ->]%list_elem_of_singleton]%elem_of_app.
    + destruct (Hh _ _ _ Hin) as (c'&Hc'&Hop&Hout). exists c'. split; [|done].
      rewrite list_lookup_insert_ne; [done|]. intros <-. rewrite Hc in Hc'. injection Hc' as <-. by eapply Hnot.
    + exists (goto (PcDone out) c). by rewrite list_lookup_insert_eq by by eapply lookup_lt_Some.
  - by apply Forall_insert.
Qed.

Lemma spec_length hist lg : spec_runs hist lg → ∀ id, (List.length (default [] (lg !! id)) ≤ List.length hist)%nat.
Proof.
  induction 1 as [|hist lg i op out lg' _ IH Hc]; intros id; [by rewrite lookup_empty|]. rewrite length_app. cbn [List.length].
  specialize (IH id) as IHid. destruct op as [now id' [rec|]|id'|id']; cbn [spec_call] in Hc.
  - destruct (validateID id'); [by simplify_eq/=; lia|]. repeat (case_match; [by simplify_eq/=; lia|]).
    destruct (record_json _); [|by simplify_eq/=; lia]. simplify_eq. destruct (decide (id = id')) as [->|Hne].
    + rewrite lookup_insert_eq. cbn. rewrite length_app. cbn. lia.
    + rewrite lookup_insert_ne by done. lia.
  - simplify_eq. lia.
  - simplify_eq. lia.
  - destruct (validateID id'); [by simplify_eq/=; lia|]. destruct (lg !! id'); simplify_eq; [|lia].
    destruct (decide (id = id')) as [->|Hne]; [rewrite lookup_delete_eq; cbn; lia|]. rewrite lookup_delete_ne by done. lia.
Qed.

Lemma hist_length st hist lg : sq_inv st hist lg → (List.length hist ≤ List.length ops)%nat.
Proof.
  intros Hinv. pose proof (iv_nodup _ _ _ Hinv) as Hnd. rewrite <- (iv_ops _ _ _ Hinv), length_fmap.
  replace (List.length hist) with (List.length hist.*1.*1) by by rewrite !length_fmap.
  rewrite <- (length_seq (List.length (sq_calls st)) 0). apply submseteq_length, NoDup_submseteq; [done|].
  intros i Hi. apply list_elem_of_fmap in Hi as ([j op]&->&Hi). apply list_elem_of_fmap in Hi as ([[j' op'] out]&[= -> ->]&Hi).
  destruct (iv_hist _ _ _ Hinv _ _ _ Hi) as (c&Hc&_). apply lookup_lt_Some in Hc. cbn. apply elem_of_seq. lia.
Qed.

Lemma call_op st hist lg i c : sq_inv st hist lg → sq_calls st !! i = Some c → op_ok (rc_op c).
Proof.
  intros Hinv Hc. pose proof (iv_ops _ _ _ Hinv) as Hops. rewrite Forall_forall in ops_ok.
  apply (ops_ok (rc_store c, rc_op c)). rewrite <- Hops. apply list_elem_of_fmap. exists c. split; [done|]. by eapply list_elem_of_lookup_2.
Qed.

Lemma record_stamp_ok seq now rec : record_ok rec → time_ok now → 0 ≤ seq < two63 → record_ok (record_stamp seq now rec).
Proof. apply (rec_stamp_ok (LogLaws := runner_log_laws)). Qed.

(** The checks inside the transaction are those of the promised log. *)
Lemma prepare_record_spec now id rec view lg : (∀ id, rows_log id view (lg !! id)) → validateID id = None → record_ok rec → time_ok now →
  Z.of_nat (S (List.length (default [] (lg !! id)))) < two63 →
  match prepare_record now id rec view with
  | PcInsert rec' raw => accepted (RAppend now id (Some rec)) rec' raw lg
  | PcRollback err => spec_call (RAppend now id (Some rec)) lg = (OutSeq (Err err), lg)
  | _ => False
  end.
Proof.
  intros Hl Hid Hok Hnow Hfit. destruct (rows_log_default _ _ _ (Hl id)) as [Hw Hf]. unfold prepare_record, accepted. cbn [spec_call op_id].
  rewrite Hid, (log_state _ _ _ Hw Hf). set (log := default [] (lg !! id)) in *.
  replace (Z.of_nat (List.length log) + 1) with (Z.of_nat (S (List.length log))) by lia. rewrite i64_small by (unfold two63 in *; lia).
  destruct (bool_decide (rr_Kind rec = RunnerRecordInit)) eqn:Hk, (bool_decide (log = [])) eqn:Hn; cbn [negb andb]; try done.
  all: destruct (record_json (record_stamp _ now rec)) as [j|] eqn:Hj; [|done].
  all: exists j; split_and!; try done; [apply record_stamp_ok; try done; lia|].
  all: cbn [record_stamp rr_Kind]; rewrite <- (bool_decide_eq_true (rr_Kind rec = _)), <- (bool_decide_eq_true (log = [])), Hk, Hn; done.
Qed.

(** ** Every step keeps it *)

Section steps.
Variables (st : sq_state) (hist : list (nat * rop * rout)) (lg : logs RunnerRecord) (i : nat) (c : rcall).
Hypothesis Hinv : sq_inv st hist lg.
Hypothesis Hc : sq_calls st !! i = Some c.

Lemma own_sees view : own_tx i (sq_tx st) = Some view → sees (rc_pc c) (rc_op c) view (sq_rows st) lg.
Proof.
  intros Ho%own_tx_Some. destruct (iv_tx _ _ _ Hinv) as [Ht _]. rewrite Ho in Ht. destruct Ht as (c'&Hc'&Hs).
  rewrite Hc in Hc'. by injection Hc' as <-.
Qed.

Lemma no_tx_of : (∀ view, ¬ sees (rc_pc c) (rc_op c) view (sq_rows st) lg) → own_tx i (sq_tx st) = None.
Proof. intros Hn. destruct (own_tx i (sq_tx st)) as [view|] eqn:Ho; [|done]. by apply own_sees, Hn in Ho. Qed.

Lemma this_call_ok : call_ok c.
Proof. pose proof (iv_calls _ _ _ Hinv) as Hcs. rewrite Forall_forall in Hcs. apply Hcs. by eapply list_elem_of_lookup_2. Qed.

(** The call goes on where it has no transaction. *)
Lemma moves_outside pc : (∀ out, rc_pc c ≠ PcDone out) → (∀ view, ¬ sees (rc_pc c) (rc_op c) view (sq_rows st) lg) →
  (∀ out, pc = PcDone out → refused out = true) → call_ok (goto pc c) → needs_tx pc = false →
  sq_inv (mkSq (sq_rows st) (sq_tx st) (<[i:=goto pc c]> (sq_calls st))) (hist ++ returned i c pc) lg.
Proof.
  intros Hnot Hsees Hpc Hok Hneed. apply (inv_moves st hist lg); try done.
  apply (tx_other _ _ _ _ _ _ _ (iv_tx _ _ _ Hinv) Hc); [by apply no_tx_of|done].
Qed.

(** The call goes on inside its transaction. *)
Lemma moves_inside pc view : (∀ out, rc_pc c ≠ PcDone out) → sq_tx st = None ∨ is_Some (own_tx i (sq_tx st)) →
  (∀ out, pc = PcDone out → refused out = true) → call_ok (goto pc c) → sees pc (rc_op c) view (sq_rows st) lg →
  sq_inv (mkSq (sq_rows st) (Some (i, view)) (<[i:=goto pc c]> (sq_calls st))) (hist ++ returned i c pc) lg.
Proof.
  intros Hnot Ho Hpc Hok Hsees. apply (inv_moves st hist lg); try done. by apply (tx_mine _ _ _ _ _ _ _ (iv_tx _ _ _ Hinv) Hc).
Qed.

(** A statement of the transaction fails: whether it is still open or not. *)
Lemma moves_failed undone : (∀ out, rc_pc c ≠ PcDone out) → call_ok (goto (PcRollback ErrIO) c) →
  sq_inv (mkSq (sq_rows st) (if undone : bool then end_tx i (sq_tx st) else sq_tx st)
    (<[i:=goto (PcRollback ErrIO) c]> (sq_calls st))) (hist ++ returned i c (PcRollback ErrIO)) lg.
Proof.
  intros Hnot Hok. apply (inv_moves st hist lg); try done.
  destruct (own_tx i (sq_tx st)) as [view|] eqn:Ho.
  - pose proof (own_tx_Some _ _ _ Ho) as Ht. destruct undone.
    + unfold end_tx. rewrite Ho. apply (tx_ended _ _ _ _ _ _ _ (iv_tx _ _ _ Hinv) Hc); [|done]. right. rewrite Ho. by eexists.
    + rewrite Ht. apply (tx_mine _ _ _ _ _ _ _ (iv_tx _ _ _ Hinv) Hc); [|by left]. right. rewrite Ho. by eexists.
  - assert ((if undone then end_tx i (sq_tx st) else sq_tx st) = sq_tx st) as -> by (unfold end_tx; rewrite Ho; by destruct undone).
    by apply (tx_other _ _ _ _ _ _ _ (iv_tx _ _ _ Hinv) Hc).
Qed.

Lemma fits_next id : Z.of_nat (S (List.length (default [] (lg !! id)))) < two63.
Proof.
  pose proof (hist_length _ _ _ Hinv). pose proof (spec_length _ _ (iv_spec _ _ _ Hinv) id). unfold two63 in *. lia.
Qed.

(** The call is over at once and has taken effect. *)
Lemma ends_outside out lg' rows : (∀ out, rc_pc c ≠ PcDone out) → (∀ view, ¬ sees (rc_pc c) (rc_op c) view (sq_rows st) lg) →
  spec_call (rc_op c) lg = (out, lg') → (∀ id, rows_log id rows (lg' !! id)) →
  rows = sq_rows st ∧ lg' = lg ∨ sq_tx st = None →
  sq_inv (mkSq rows (sq_tx st) (<[i:=goto (PcDone out) c]> (sq_calls st))) (hist ++ returned i c (PcDone out)) lg'.
Proof.
  intros Hnot Hsees Hcall Hrows Hcase. eapply inv_effect; try done. destruct Hcase as [[-> ->]|Ht].
  - apply (tx_other _ _ _ _ _ _ _ (iv_tx _ _ _ Hinv) Hc); [by apply no_tx_of|done].
  - rewrite Ht. apply (tx_ended _ _ _ _ _ _ _ (iv_tx _ _ _ Hinv) Hc); [by left|done].
Qed.

Lemma refused_failed op : refused (failed op ErrIO) = true.
Proof. by destruct op. Qed.

Lemma start_refuses op out : start_call op = PcDone out → spec_call op lg = (out, lg).
Proof.
  destruct op as [now id [rec|]|id|id]; cbn [start_call spec_call]; unfold validateSQLiteRunnerID; try (destruct (validateID id)).
  all: by intros [= <-].
Qed.

Lemma start_goes op : (∀ out, start_call op ≠ PcDone out) → validateID (op_id op) = None
  ∧ match op with
    | RAppend _ _ (Some _) => start_call op = PcBegin
    | RAppend _ _ None => False
    | _ => start_call op = PcQuery
    end.
Proof.
  destruct op as [now id [rec|]|id|id]; cbn [start_call op_id]; unfold validateSQLiteRunnerID; [|naive_solver|..].
  all: destruct (validateID id); naive_solver.
Qed.

Lemma step_start ch pc rows tx : rc_pc c = PcStart → step_call i c ch st = Some (pc, rows, tx) →
  ∃ lg', sq_inv (mkSq rows tx (<[i:=goto pc c]> (sq_calls st))) (hist ++ returned i c pc) lg'.
Proof.
  intros Hpc Hs. assert (∀ out, rc_pc c ≠ PcDone out) as Hnot by by rewrite Hpc.
  assert (∀ view, ¬ sees (rc_pc c) (rc_op c) view (sq_rows st) lg) as Hsees by (intros view; rewrite Hpc; by intros []).
  unfold step_call in Hs. cbv zeta in Hs. rewrite Hpc in Hs. destruct ch; try done.
  destruct (start_call (rc_op c)) as [| | | | | | | | |out] eqn:Hst.
  10: { injection Hs as <- <- <-. apply start_refuses in Hst. eexists _. apply ends_outside; try done; [apply (iv_rows _ _ _ Hinv)|by left]. }
  all: destruct (start_goes (rc_op c)) as [Hid Hop]; [by rewrite Hst|].
  all: destruct (mutex_free _ _ _); [|done]; injection Hs as <- <- <-; exists lg.
  all: destruct (rc_op c) as [now id [r0|]|id|id] eqn:Hrc; try done; try (by rewrite Hst in Hop).
  all: apply moves_outside; try done; unfold call_ok; cbn; by rewrite Hrc.
Qed.

Lemma step_begin ch pc rows tx : rc_pc c = PcBegin ∨ rc_pc c = PcBeginPause → step_call i c ch st = Some (pc, rows, tx) →
  ∃ lg', sq_inv (mkSq rows tx (<[i:=goto pc c]> (sq_calls st))) (hist ++ returned i c pc) lg'.
Proof.
  intros Hpc Hs. exists lg. pose proof this_call_ok as Hok. unfold call_ok in Hok. pose proof (refused_failed (rc_op c)) as Href.
  assert (∀ out, rc_pc c ≠ PcDone out) as Hnot by by destruct Hpc as [-> | ->].
  assert (∀ view, ¬ sees (rc_pc c) (rc_op c) view (sq_rows st) lg) as Hsees by (intros view; destruct Hpc as [-> | ->]; by intros []).
  unfold step_call in Hs. cbv zeta in Hs. destruct Hpc as [Hpc|Hpc]; rewrite Hpc in *; destruct ch; try done.
  - destruct (sq_tx st) eqn:Ht; [done|]. injection Hs as <- <- <-. apply moves_inside; try done; [by rewrite Hpc|by left].
  - injection Hs as <- <- <-. unfold retry_or. destruct (isSQLiteLockError text); apply moves_outside; try done; try (by rewrite Hpc).
    by intros out [= <-].
  - injection Hs as <- <- <-. apply moves_outside; try done; by rewrite Hpc.
  - injection Hs as <- <- <-. apply moves_outside; try done; try (by rewrite Hpc). by intros out [= <-].
Qed.

Lemma step_inside ch pc rows tx : needs_tx (rc_pc c) = true → (∀ err, rc_pc c ≠ PcRollback err) → step_call i c ch st = Some (pc, rows, tx) →
  ∃ lg', sq_inv (mkSq rows tx (<[i:=goto pc c]> (sq_calls st))) (hist ++ returned i c pc) lg'.
Proof.
  intros Hneed Hroll Hs. pose proof this_call_ok as Hok. unfold call_ok in Hok.
  assert (∀ out, rc_pc c ≠ PcDone out) as Hnot by (intros out E; by rewrite E in Hneed).
  destruct (proj2 (iv_tx _ _ _ Hinv) _ _ Hc Hneed) as [view Ho]. pose proof (own_sees _ Ho) as Hsees. pose proof (own_tx_Some _ _ _ Ho) as Ht.
  assert (call_ok (goto (PcRollback ErrIO) c)) as Hok' by (unfold call_ok; cbn; by destruct (rc_pc c)).
  unfold step_call in Hs. cbv zeta in Hs. rewrite Ho in Hs.
  destruct (rc_pc c) as [| | | |rec raw|seq|seq|err| |out] eqn:Hpc; try done;
    try match goal with e : log_err |- _ => by destruct (Hroll e) end; destruct ch; try done; cbn [sees] in Hsees.
  - destruct (rc_op c) as [now id [r0|]| |] eqn:Hop; try done. injection Hs as <- <- <-. exists lg. rewrite Ht. subst view.
    pose proof (call_op _ _ _ _ _ Hinv Hc) as Hr. rewrite Hop in Hr. destruct Hr as [Hr Hnow].
    pose proof (prepare_record_spec now id r0 _ _ (iv_rows _ _ _ Hinv) (proj1 Hok) Hr Hnow (fits_next id)) as Hp.
    destruct (prepare_record now id r0 _); try done.
    all: apply moves_inside; try done; try (right; rewrite Ho; by eexists); try (by rewrite Hpc).
    all: try (unfold call_ok; cbn; by rewrite Hop). all: rewrite Hop; cbn [sees]; first [done|by right].
  - injection Hs as <- <- <-. exists lg. apply moves_failed; [by rewrite Hpc|done].
  - destruct Hsees as [-> Hacc]. pose proof Hacc as (j&_&_&_&Hseq&_&_).
    destruct (rows_log_default _ _ _ (iv_rows _ _ _ Hinv (op_id (rc_op c)))) as [Hw Hf].
    change (mkRecordRow _ _ _ _ raw) with (row_of (op_id (rc_op c)) rec raw) in Hs. rewrite (insert_next _ _ _ _ raw Hw Hf Hseq) in Hs.
    injection Hs as <- <- <-. exists lg. apply moves_inside; try done; [by rewrite Hpc|right; rewrite Ho; by eexists|]. by exists rec, raw.
  - injection Hs as <- <- <-. exists lg. apply moves_failed; [by rewrite Hpc|done].
  - destruct Hsees as (rec&raw&(j&->&Hj&Hr&Hseq&Hk&Hcall)&->&->). injection Hs as <- <- <-. eexists _. eapply inv_effect; try done; [by rewrite Hpc| |].
    + by apply rows_log_append; [apply (iv_rows _ _ _ Hinv)|..].
    + apply (tx_ended _ _ _ _ _ _ _ (iv_tx _ _ _ Hinv) Hc); [|done]. right. rewrite Ho. by eexists.
  - injection Hs as <- <- <-. exists lg. unfold retry_or. destruct (isSQLiteLockError text).
    + rewrite Ht. apply moves_inside; try done; [by rewrite Hpc|right; rewrite Ho; by eexists].
    + apply moves_failed; [by rewrite Hpc|done].
  - injection Hs as <- <- <-. exists lg. rewrite Ht. apply moves_inside; try done; [by rewrite Hpc|right; rewrite Ho; by eexists].
  - injection Hs as <- <- <-. exists lg. apply (moves_failed false); [by rewrite Hpc|done].
Qed.

Lemma step_rollback err ch pc rows tx : rc_pc c = PcRollback err → step_call i c ch st = Some (pc, rows, tx) → own_tx i tx = None →
  ∃ lg', sq_inv (mkSq rows tx (<[i:=goto pc c]> (sq_calls st))) (hist ++ returned i c pc) lg'.
Proof.
  intros Hpc Hs Hclean. assert (∀ out, rc_pc c ≠ PcDone out) as Hnot by by rewrite Hpc.
  unfold step_call in Hs. cbv zeta in Hs. rewrite Hpc in Hs.
  assert (pc = PcDone (failed (rc_op c) err) ∧ rows = sq_rows st ∧ (tx = end_tx i (sq_tx st) ∨ tx = sq_tx st)) as (->&->&Htx) by (destruct ch; naive_solver).
  assert (tx_ok (<[i:=goto (PcDone (failed (rc_op c) err)) c]> (sq_calls st)) (sq_rows st) lg tx) as Hok.
  { destruct (end_tx_cases i (sq_tx st)) as [(view&Ht&He)|[Ho He]].
    - assert (tx = None) as ->. { destruct Htx as [->| ->]; [done|]. rewrite Ht, own_tx_mine in Hclean. done. }
      apply (tx_ended _ _ _ _ _ _ _ (iv_tx _ _ _ Hinv) Hc); [|done]. right. rewrite Ht, own_tx_mine. by eexists.
    - assert (tx = sq_tx st) as -> by (rewrite He in Htx; by destruct Htx).
      by apply (tx_other _ _ _ _ _ _ _ (iv_tx _ _ _ Hinv) Hc). }
  destruct (decide (err = ErrIO)) as [->|Herr].
  - exists lg. apply (inv_moves st hist lg); try done. intros out [= <-]. apply refused_failed.
  - destruct (proj2 (iv_tx _ _ _ Hinv) _ _ Hc) as [view Ho]; [rewrite Hpc; cbn; by rewrite bool_decide_eq_false_2|].
    pose proof (own_sees _ Ho) as Hsees. rewrite Hpc in Hsees. cbn in Hsees. destruct Hsees as [?|Hcall]; [done|].
    eexists _. eapply inv_effect; try done. apply (iv_rows _ _ _ Hinv).
Qed.

Lemma step_query ch pc rows tx : rc_pc c = PcQuery → step_call i c ch st = Some (pc, rows, tx) →
  ∃ lg', sq_inv (mkSq rows tx (<[i:=goto pc c]> (sq_calls st))) (hist ++ returned i c pc) lg'.
Proof.
  intros Hpc Hs. pose proof this_call_ok as Hok. unfold call_ok in Hok. rewrite Hpc in Hok. destruct Hok as [Hid Hop].
  assert (∀ out, rc_pc c ≠ PcDone out) as Hnot by by rewrite Hpc.
  assert (∀ view, ¬ sees (rc_pc c) (rc_op c) view (sq_rows st) lg) as Hsees by (intros view; rewrite Hpc; by intros []).
  pose proof (run_query_spec _ _ _ (iv_rows _ _ _ Hinv) Hid Hop) as Hq.
  unfold step_call in Hs. cbv zeta in Hs. rewrite Hpc in Hs. destruct ch; try done.
  - assert (∃ out rows', run_query (rc_op c) (sq_rows st) = (out, rows') ∧ (pc, rows, tx) = (PcDone out, rows', sq_tx st)
      ∧ ((∃ id, rc_op c = RDelete id) → sq_tx st = None)) as (out&rows'&Hr&E&Hd).
    { destruct (rc_op c) as [now id rec|id|id]; [done| |destruct (sq_tx st); [done|]].
      all: destruct (run_query _ _) as [out rows']; injection Hs as <- <- <-; exists out, rows'; split_and!; try done. by intros [? ?]. }
    injection E as -> -> ->. rewrite Hr in Hq. destruct Hq as (lg'&Hcall&Hrows&Hcase). eexists _. apply ends_outside; try done.
    destruct Hcase as [[-> ->]|Hdel]; [by left|right; by apply Hd].
  - injection Hs as <- <- <-. exists lg. apply moves_outside; try done. intros out [= <-]. apply refused_failed.
  - destruct (sq_tx st) as [[j view]|] eqn:Ht; [|done].
    pose proof (proj1 (iv_tx _ _ _ Hinv)) as Hopen. rewrite Ht in Hopen. destruct Hopen as (c'&Hc'&Hs').
    rewrite Hc' in Hs. by destruct c' as [? ? []].
Qed.
End steps.

(** A step whose [ROLLBACK], if it is one, leaves no transaction of its connection. *)
Definition clean (l : nat * choice) (st st' : sq_state) : Prop :=
  match sq_calls st !! l.1 with
  | Some (mkRCall _ _ (PcRollback _)) => own_tx l.1 (sq_tx st') = None
  | _ => True
  end.

Lemma sq_inv_step st hist lg l st' : sq_inv st hist lg → sq_step l st = Some st' → clean l st st' →
  ∃ lg', sq_inv st' (hist ++ returns l st st') lg'.
Proof.
  destruct l as [i ch]. intros Hinv Hs Hclean. unfold sq_step, clean, returns in *. cbn [fst snd] in *.
  destruct (sq_calls st !! i) as [c|] eqn:Hc; [|done]. cbn [mbind option_bind] in Hs.
  destruct (step_call i c ch st) as [[[pc rows] tx]|] eqn:Hcall; [|done]. injection Hs as <-.
  cbn [sq_calls sq_tx] in *. rewrite list_lookup_insert_eq by by eapply lookup_lt_Some. cbn [goto rc_pc].
  destruct (rc_pc c) eqn:Hpc.
  - by eapply step_start.
  - eapply step_begin; eauto.
  - eapply step_begin; eauto.
  - eapply step_inside; eauto; by rewrite Hpc.
  - eapply step_inside; eauto; by rewrite Hpc.
  - eapply step_inside; eauto; by rewrite Hpc.
  - eapply step_inside; eauto; by rewrite Hpc.
  - eapply step_rollback; eauto. destruct c as [? ? cpc]. cbn in Hpc. by subst cpc.
  - by eapply step_query.
  - unfold step_call in Hcall. rewrite Hpc in Hcall. by destruct ch.
Qed.

Lemma sq_inv_start : sq_inv (sq_start ops) [] ∅.
Proof.
  split; cbn; try done; try (by constructor).
  - rewrite <- list_fmap_compose. rewrite <- (list_fmap_id ops) at 2. apply list_fmap_ext. by intros k [s op].
  - intros i op out Hin. by apply not_elem_of_nil in Hin.
  - split; [done|]. intros i c Hc. apply list_lookup_fmap_Some in Hc as ([s op]&->&_). done.
  - apply Forall_fmap, Forall_forall. by intros [s op] _.
Qed.

Lemma clean_or_not l st st' : clean l st st' ∨ ¬ clean l st st'.
Proof. unfold clean. destruct (sq_calls st !! l.1) as [[? ? []]|]; try by left. destruct (own_tx _ _); [by right|by left]. Qed.

(** ** After a transaction was left open *)

(** What a call returns then: what the log says, changing nothing, or the answer of a
    query on the rows of the connection that was left. *)
Definition answered (lg : logs RunnerRecord) (e : nat * rop * rout) : Prop :=
  spec_call e.1.2 lg = (e.2, lg)
  ∨ (match e.1.2 with RAppend _ _ _ => False | _ => True end ∧ ∃ view view', run_query e.1.2 view = (e.2, view')).

Record left_inv (st : sq_state) (lg : logs RunnerRecord) : Prop := {
  li_rows : ∀ id, rows_log id (sq_rows st) (lg !! id);
  li_left : left_behind st;
  li_none : ∀ i c, sq_calls st !! i = Some c → needs_tx (rc_pc c) = false;
  li_calls : Forall call_ok (sq_calls st) }.

(** A [ROLLBACK] that fails leaves the committed rows and what was returned so far. *)
Lemma left_begins st hist lg l st' : sq_inv st hist lg → sq_step l st = Some st' → ¬ clean l st st' →
  left_inv st' lg ∧ Forall (answered lg) (returns l st st').
Proof.
  destruct l as [i ch]. intros Hinv Hs Hclean. unfold sq_step, clean, returns in *. cbn [fst snd] in *.
  destruct (sq_calls st !! i) as [c|] eqn:Hc; [|done]. cbn [mbind option_bind] in Hs.
  destruct (step_call i c ch st) as [[[pc rows] tx]|] eqn:Hcall; [|done]. injection Hs as <-. cbn [sq_calls sq_tx sq_rows] in *.
  rewrite list_lookup_insert_eq by by eapply lookup_lt_Some. cbn [goto rc_pc].
  assert (∃ err, rc_pc c = PcRollback err) as [err Hpc] by (destruct c as [? ? []]; try done; by eexists).
  assert (own_tx i tx ≠ None) as Ho by (destruct c; cbn in Hpc; by subst). clear Hclean.
  unfold step_call in Hcall. cbv zeta in Hcall. rewrite Hpc in Hcall.
  assert (pc = PcDone (failed (rc_op c) err) ∧ rows = sq_rows st ∧ tx = sq_tx st) as (->&->&->).
  { destruct ch; try done; simplify_eq; [|done]. exfalso. apply Ho.
    destruct (end_tx_cases i (sq_tx st)) as [(view&_&->)|[Hn ->]]; done. }
  destruct (own_tx i (sq_tx st)) as [view|] eqn:Hv; [|done]. pose proof (own_tx_Some _ _ _ Hv) as Ht. split.
  - split; cbn [sq_rows sq_calls sq_tx].
    + apply (iv_rows _ _ _ Hinv).
    + eexists i, _, _, view. cbn. split_and!; [rewrite list_lookup_insert_eq by (by eapply lookup_lt_Some); done|done|done].
    + intros j cj Hj. destruct (decide (j = i)) as [->|Hne].
      { rewrite list_lookup_insert_eq in Hj by by eapply lookup_lt_Some. by injection Hj as <-. }
      rewrite list_lookup_insert_ne in Hj by done. apply not_true_iff_false. intros Hn.
      destruct (proj2 (iv_tx _ _ _ Hinv) _ _ Hj Hn) as [v Hv']. apply own_tx_Some in Hv'. congruence.
    + apply Forall_insert; [apply (iv_calls _ _ _ Hinv)|done].
  - unfold returned. destruct (refused _) eqn:Hr; constructor; [|constructor].
    pose proof (own_sees _ _ _ _ _ Hinv Hc _ Hv) as Hsees. rewrite Hpc in Hsees. left. cbn.
    destruct Hsees as [->|Hcall']; [by destruct (rc_op c)|done].
Qed.

(** Where a call goes while the transaction of another is left open. *)
Lemma left_goes st lg i c ch pc rows tx k ck out0 view : (∀ id, rows_log id (sq_rows st) (lg !! id)) →
  sq_calls st !! k = Some ck → rc_pc ck = PcDone out0 → sq_tx st = Some (k, view) →
  needs_tx (rc_pc c) = false → call_ok c → sq_calls st !! i = Some c →
  step_call i c ch st = Some (pc, rows, tx) → i ≠ k →
  rows = sq_rows st ∧ (∃ view', tx = Some (k, view')) ∧ needs_tx pc = false ∧ call_ok (goto pc c)
  ∧ Forall (answered lg) (returned i c pc).
Proof.
  intros Hrows Hk Hu Ht Hneed Hok Hc Hs Hik.
  assert (∀ op, Forall (answered lg) (returned i c (PcDone (failed op ErrIO)))) as Href.
  { intros op. unfold returned. rewrite refused_failed. constructor. }
  assert (end_tx i (sq_tx st) = Some (k, view)) as He.
  { rewrite Ht. unfold end_tx, own_tx. by rewrite bool_decide_eq_false_2. }
  assert (∀ out, answered lg (i, rc_op c, out) → Forall (answered lg) (returned i c (PcDone out))) as Hret.
  { intros out Ha. unfold returned. destruct (refused out); [apply List.Forall_nil|]. apply List.Forall_cons; [done|apply List.Forall_nil]. }
  unfold step_call in Hs. cbv zeta in Hs. unfold call_ok in Hok.
  destruct (rc_pc c) as [| | | | | | |err| |] eqn:Hpc; try done; destruct ch; try done.
  - destruct (start_call (rc_op c)) as [| | | | | | | | |out] eqn:Hst.
    10: { injection Hs as <- <- <-. apply (start_refuses lg) in Hst. split_and!; [done|by eexists|done|done|apply Hret; by left]. }
    all: destruct (start_goes (rc_op c)) as [Hid Hop]; [by rewrite Hst|].
    all: destruct (mutex_free _ _ _); [|done]; injection Hs as <- <- <-.
    all: destruct (rc_op c) as [now id [r0|]|id|id] eqn:Hrc; try done; try (by rewrite Hst in Hop).
    all: split_and!; try done; [by eexists|unfold call_ok; cbn; by rewrite Hrc].
  - by rewrite Ht in Hs.
  - injection Hs as <- <- <-. unfold retry_or. destruct (isSQLiteLockError text); (split_and!; [done|by eexists|done|done|try done]).
  - injection Hs as <- <- <-. split_and!; [done|by eexists|done|done|constructor].
  - injection Hs as <- <- <-. split_and!; [done|by eexists|done|done|done].
  - injection Hs as <- <- <-. apply negb_false_iff, bool_decide_eq_true in Hneed as ->. rewrite He.
    split_and!; [done|by eexists|done|done|done].
  - injection Hs as <- <- <-. apply negb_false_iff, bool_decide_eq_true in Hneed as ->.
    split_and!; [done|by eexists|done|done|done].
  - destruct Hok as [Hid Hop]. pose proof (run_query_spec _ _ _ Hrows Hid Hop) as Hq. rewrite Ht in Hs.
    destruct (rc_op c) as [now id rec|id|id] eqn:Hrc; [done| |done].
    destruct (run_query _ _) as [out rows'] eqn:Hr. destruct Hq as (lg'&Hcall&_&Hcase). injection Hs as <- <- <-.
    destruct Hcase as [[-> ->]|[? ?]]; [|done].
    split_and!; [done|by eexists|done|done|]. apply Hret. by left.
  - injection Hs as <- <- <-. split_and!; [done|by eexists|done|done|done].
  - rewrite Ht, Hk in Hs. destruct ck as [? ? pk]; cbn in Hu; subst pk. destruct (run_query _ _) as [out view'] eqn:Hr. injection Hs as <- <- <-.
    split_and!; [done|by eexists|done|done|]. apply Hret. right. split; [by destruct Hok|by eexists _, _].
Qed.

Lemma left_step st lg l st' : left_inv st lg → sq_step l st = Some st' →
  left_inv st' lg ∧ Forall (answered lg) (returns l st st').
Proof.
  destruct l as [i ch]. intros [Hrows (k&ck&out&view&Hk&Hu&Ht) Hnone Hcalls] Hs. unfold sq_step, returns in *. cbn [fst snd] in *.
  destruct (sq_calls st !! i) as [c|] eqn:Hc; [|done]. cbn [mbind option_bind] in Hs.
  destruct (step_call i c ch st) as [[[pc rows] tx]|] eqn:Hcall; [|done]. injection Hs as <-. cbn [sq_calls].
  rewrite list_lookup_insert_eq by by eapply lookup_lt_Some. cbn [goto rc_pc].
  assert (call_ok c) as Hok by (rewrite Forall_forall in Hcalls; apply Hcalls; by eapply list_elem_of_lookup_2).
  assert (i ≠ k) as Hik.
  { intros ->. rewrite Hc in Hk. injection Hk as ->. unfold step_call in Hcall. cbv zeta in Hcall. rewrite Hu in Hcall.
    by destruct ch. }
  destruct (left_goes _ _ _ _ _ _ _ _ _ _ _ _ Hrows Hk Hu Ht (Hnone _ _ Hc) Hok Hc Hcall Hik) as (->&[view' ->]&Hneed&Hok'&Hret).
  split; [|done]. split; cbn [sq_rows sq_calls sq_tx]; [done| | |by apply Forall_insert].
  - exists k, ck, out, view'. cbn. by rewrite list_lookup_insert_ne.
  - intros j cj. destruct (decide (j = i)) as [->|Hne].
    + rewrite list_lookup_insert_eq by by eapply lookup_lt_Some. by intros [= <-].
    + rewrite list_lookup_insert_ne by done. apply Hnone.
Qed.

Lemma inv_runs hist st : sq_runs ops hist st → ∃ before after lg, hist = before ++ after ∧ spec_runs before lg
  ∧ (after = [] ∧ sq_inv st before lg ∨ left_inv st lg ∧ Forall (answered lg) after).
Proof.
  induction 1 as [|l hist st st' _ (before&after&lg&->&Hspec&Hcase) Hs].
  { exists [], [], ∅. split_and!; [done|constructor|left; split; [done|exact sq_inv_start]]. }
  destruct Hcase as [[-> Hinv]|[Hinv Hall]].
  - rewrite app_nil_r. destruct (clean_or_not l st st') as [Hclean|Hclean].
    + destruct (sq_inv_step _ _ _ _ _ Hinv Hs Hclean) as [lg' Hinv']. exists (before ++ returns l st st'), [], lg'.
      rewrite app_nil_r. split_and!; [done|exact (iv_spec _ _ _ Hinv')|by left].
    + destruct (left_begins _ _ _ _ _ Hinv Hs Hclean) as [Hleft Hans]. exists before, (returns l st st'), lg. split_and!; [done..|by right].
  - destruct (left_step _ _ _ _ Hinv Hs) as [Hleft Hans]. exists before, (after ++ returns l st st'), lg.
    rewrite app_assoc. split_and!; [done..|]. right. split; [done|by apply Forall_app].
Qed.
End linear.

(** ** Properties *)

(** C40: Whatever stores, processes and interleavings they come from, the calls that the
    database does not refuse return what they would return on one log per runner,
    taken one after the other in the order they return, and what is in the table
    reads back as those logs, up to the moment, if it comes, when a call is over and
    has left its transaction open, its [ROLLBACK] having failed. Before that no
    transaction is open when no call is under way. From then on the table does not
    change, and what is returned is what the logs say without an effect on them,
    except that a [Load] or [Delete] may be answered on the rows of the connection that
    was left; no [Append] succeeds. *)
Theorem sqlite_records_linear `{GoStd} `{GoURL} `{GoTime} ops hist st : Forall (λ o, op_ok o.2) ops →
  Z.of_nat (List.length ops) < two63 - 1 → sq_runs ops hist st →
  ∃ before after lg, hist = before ++ after ∧ spec_runs before lg
  ∧ (∀ id, decode_records (ListRunnerRecords id (sq_rows st)) = Ok (default [] (lg !! id)))
  ∧ (∀ id, numbered_log (default [] (lg !! id)))
  ∧ (after = [] ∧ ¬ left_behind st ∧ ((∀ c, c ∈ sq_calls st → under_way c = false) → sq_tx st = None)
     ∨ left_behind st ∧ ∀ i op out, (i, op, out) ∈ after →
         spec_call op lg = (out, lg)
         ∨ match op with RAppend _ _ _ => False | _ => ∃ view view', run_query op view = (out, view') end).
Proof.
  intros Hops Hfit Hr. destruct (inv_runs ops Hops Hfit hist st Hr) as (before&after&lg&->&Hspec&Hcase). exists before, after, lg.
  assert (∀ id, rows_log id (sq_rows st) (lg !! id)) as Hrows.
  { destruct Hcase as [[_ Hinv]|[Hinv _]]; [apply (iv_rows _ _ _ _ Hinv)|apply (li_rows _ _ Hinv)]. }
  split_and!; [done|done| | |].
  - intros id. destruct (rows_log_default _ _ _ (Hrows id)) as [Hw Hf]. rewrite (log_rows_sorted _ _ _ Hw Hf). by eapply log_decodes.
  - intros id. by apply (rows_log_default _ _ _ (Hrows id)).
  - destruct Hcase as [[-> Hinv]|[Hinv Hall]]; [left|right].
    + assert (∀ i view, sq_tx st = Some (i, view) → ∃ c, sq_calls st !! i = Some c ∧ under_way c = true) as Hopen.
      { intros i view Ht. pose proof (proj1 (iv_tx _ _ _ _ Hinv)) as Hs. rewrite Ht in Hs. destruct Hs as (c&Hc&Hs).
        exists c. split; [done|]. unfold under_way. by destruct (rc_pc c). }
      split_and!; [done| |].
      * intros (i&c&out&view&Hc&Hu&Ht). destruct (Hopen _ _ Ht) as (c'&Hc'&Hu'). unfold under_way in Hu'. simplify_eq. by rewrite Hu in Hu'.
      * intros Hall. destruct (sq_tx st) as [[i view]|] eqn:Ht; [|done]. destruct (Hopen _ _ eq_refl) as (c&Hc&Hu).
        rewrite (Hall c) in Hu; [done|]. by eapply list_elem_of_lookup_2.
    + split; [apply (li_left _ _ Hinv)|]. intros i op out Hin. rewrite Forall_forall in Hall. destruct (Hall _ Hin) as [?|[Hop Hq]]; [by left|].
      right. by destruct op.
Qed.

(** ** Witnesses *)

#[local] Existing Instances sample_std sample_url sample_time.

(** Steps one after the other. *)
Fixpoint sq_run (ls : list (nat * choice)) (hist : list (nat * rop * rout)) (st : sq_state) : option (list (nat * rop * rout) * sq_state) :=
  match ls with
  | [] => Some (hist, st)
  | l :: ls => match sq_step l st with Some st' => sq_run ls (hist ++ returns l st st') st' | None => None end
  end.

Lemma sq_run_runs ops ls hist st r : sq_runs ops hist st → sq_run ls hist st = Some r → sq_runs ops r.1 r.2.
Proof.
  revert hist st. induction ls as [|l ls IH]; intros hist st Hr; cbn [sq_run]; [by intros [= <-]|].
  destruct (sq_step l st) as [st'|] eqn:Hs; [|done]. apply IH. by apply (sq_runs_step _ l _ st).
Qed.

Definition sample_calls : list (nat * rop) :=
  [(0%nat, RAppend sample_now (s2b "r1") (Some init_record)); (1%nat, RAppend sample_now (s2b "r1") (Some status_record));
   (0%nat, RLoad (s2b "r1")); (0%nat, RAppend sample_now (s2b "r1") (Some status_record)); (1%nat, RDelete (s2b "r1"))].
(** The second store meets the lock of the first, and the third call reads in between. *)
Definition sample_steps : list (nat * choice) :=
  [(0, CTick); (1, CTick); (0, CDone); (1, CFailed busy false); (0, CDone); (0, CDone); (0, CDone); (2, CTick); (1, CTick);
   (1, CDone); (2, CDone); (1, CDone); (1, CDone); (1, CDone)]%nat.

Definition sample_end : list (nat * rop * rout) * sq_state :=
  default ([], sq_start []) (sq_run sample_steps [] (sq_start sample_calls)).

Lemma init_record_ok : record_ok init_record.
Proof. exact (proj1 init_fits). Qed.
Lemma status_record_ok : record_ok status_record.
Proof. exact (proj1 status_fits). Qed.
Lemma sample_now_ok : time_ok sample_now.
Proof. exact (proj1 (proj2 init_fits)). Qed.

Lemma sample_appends_ok : Forall (λ o, op_ok o.2) sample_calls.
Proof.
  pose proof init_record_ok. pose proof status_record_ok. pose proof sample_now_ok.
  repeat (apply List.Forall_cons; [done|]). apply List.Forall_nil.
Qed.

Lemma sample_reached : sq_runs sample_calls sample_end.1 sample_end.2.
Proof.
  unfold sample_end. destruct (sq_run sample_steps [] (sq_start sample_calls)) as [r|] eqn:E; [|by vm_compute in E].
  apply (sq_run_runs sample_calls sample_steps [] (sq_start sample_calls) r); [constructor|done].
Qed.

Lemma sqlite_records_linear_witness : (∃ lg, spec_runs sample_end.1 lg)
  ∧ (λ h, (h.1.1, match h.2 with OutSeq (Ok n) => n | OutLog (Ok l) => Z.of_nat (List.length l) | _ => -1 end)) <$> sample_end.1
    = [(0%nat, 1); (2%nat, 1); (1%nat, 2)].
Proof.
  destruct (sqlite_records_linear sample_calls sample_end.1 sample_end.2 sample_appends_ok) as (before&after&lg&E&Hlg&_&_&Hcase);
    [done|exact sample_reached|].
  split; [|by vm_compute]. exists lg. rewrite E. destruct Hcase as [[-> _]|[(i&c&out&view&_&_&Ht) _]].
  - by rewrite app_nil_r.
  - assert (sq_tx sample_end.2 = None) as Hn by by vm_compute. congruence.
Defined.

(** A [ROLLBACK] that is refused, as one whose context has ended is, leaves the
    transaction open when its connection goes back to the pool. The statement of a
    later call that gets this connection runs inside it: [Delete] reports success, and
    the row is still there for everybody else, while no [Append] can begin: the
    second case of [sqlite_records_linear]. *)
Lemma left_locked : ∃ st,
  (sq_run [(0, CTick); (0, CDone); (0, CDone); (0, CDone); (0, CDone);
           (1, CTick); (1, CDone); (1, CFailed (s2b "context canceled") false); (1, CFailed (s2b "context canceled") false);
           (4, CTick); (4, CPooled); (3, CTick)]%nat [] (sq_start sample_calls)) ≫= (λ r, Some r.2) = Some st
  ∧ (rc_pc <$> sq_calls st !! 4%nat) = Some (PcDone (OutUnit (Ok ())))
  ∧ rw_sequence_number <$> sq_rows st = [1]
  ∧ sq_step (3%nat, CDone) st = None.
Proof. eexists. split; [by vm_compute|]. split_and!; by vm_compute. Qed.
